(* ===== verification/_CoqProject ===== *)
-Q . S2P
Prelude.v
Counting.v
Objects.v
ByteOrder.v
Base64.v
Vector.v
Queue.v
ArrayList.v
HashMap.v
Value.v
Bytes.v
Msgpack.v
Roundtrip.v
Wire.v
Socket.v
Parse.v
Execute.v
Record.v
Requests.v
Stream.v
Node.v
Partition.v
Info.v
Tend.v
Membership.v
Outside.v
Client.v
Tending.v
Fanout.v
Fleet.v
Admin.v
Users.v
Manage.v
Waiting.v
Ldt.v
