(* ===== verification/Prelude.v ===== *)
(** * The Aerospike C client

    A model of the Aerospike C client library for HP-UX and AIX (the client of this
    repository, directory [src], and the parts of [modules/common] it stands on) and
    theorems about it.

    ** The program

    An application calls the functions of [src/main/aerospike/aerospike_key.c] on a key
    and a record.  They compute the digest of the key, write a command into a buffer
    ([as_command.c]), find the node that has the partition of the digest
    ([as_partition.c], [as_cluster.c]), take a connection from the pool of the node
    ([as_node.c]), send the command and read the answer ([as_socket.c]), parse it into
    the record ([as_command.c]) and give node and connection back.  Scans, queries and
    batches ([aerospike_scan.c], [aerospike_query.c], [aerospike_batch.c]) send one command
    to many nodes and read groups of records from each.  Users and roles ([as_admin.c]) are
    managed with messages to one node, indexes, functions and background scans with requests
    in text ([aerospike_info.c], [aerospike_index.c], [aerospike_udf.c]).  Large data types
    are values of a bin that functions on the server work on.  A thread tends the
    cluster ([as_cluster.c], [as_node.c], [as_info.c], [as_lookup.c]): it asks the nodes
    for their friends and for their partitions and installs both while users read them;
    what it replaces is freed one turn later.  Values, lists, maps and their serialized
    form, queues, vectors, base64 and byte order come from [modules/common].

    ** The files

    - [Prelude]: fixed-width integers, checked memory ([mread], [mslice], [mwrite];
      [None] is an access outside of a block), the results [ures] of code that may not
      return ([URet], [UB], [Deep]), the oracle of the allocator, the [Platform].
    - [ByteOrder]: [cf_byte_order.h] and the swapping functions of [as_proto.h].
    - [Counting]: sums and numbers of occurrences.  [Objects]: [as_val.c] with its reference
      counters, and the constructors and destructors of values.
    - [Base64]: [cf_b64.c].  [Vector]: [as_vector.c], [as_vector.h].  [Queue]: [cf_queue.c],
      with its locks and waiting.  [ArrayList]: [as_arraylist.c].  [HashMap]:
      [as_hashmap.c] and its iterator.  [Value]: [as_val.c] and the hash codes.
      [Bytes]: [as_bytes.c], [as_bytes.h].
    - [Msgpack]: [as_msgpack.c], [as_msgpack_serializer.c], [as_serializer.c];
      [Roundtrip]: unpacking what was packed.
    - [Wire]: the writing half of [as_command.c] with [as_key.c] and the commands of
      [aerospike_key.c].  [Parse]: the reading half.  [Socket]: the loops of
      [as_socket.c].  [Execute]: [as_command_execute] and the functions of
      [aerospike_key.c], over the interface [Services].  [Record]: [as_record.c],
      [as_operations.c].
    - [Requests]: building scans, queries and batches ([as_scan.c], [as_query.c],
      [as_batch.c], [as_udf.c]) and their commands.  [Stream]: reading their answers.
      [Fanout]: the calls on many nodes, over the interface [Fleet].
    - [Node]: the heap of the cluster and its monad [M], sockets, logging in, nodes and
      their pools.  [Partition]: [as_partition.c] and the look-up of a node.  [Info]:
      [as_info.c].  [Tend]: the rest of [as_node.c], [as_cluster.c], [as_lookup.c].
    - [Membership]: the invariant [cluster_ok] of the cluster and its operations;
      [Outside]: what only talks to the network; [Tending]: a turn of the tender, and the
      life of a cluster.  [Client]: the cluster as the instance of [Services], and commands
      on it; [Fleet]: the cluster as the instance of [Fleet], and scans and queries on it.
    - [Admin]: users and roles, over an interface of the same name; [Users]: the cluster as
      its instance.  [Manage]: requests in text, background scans, indexes and functions
      ([aerospike_info.c], [aerospike_index.c], [aerospike_udf.c], [as_udf.c], parts of
      [aerospike_scan.c], [as_string.c] and [cf_crypto.c]); [Waiting]: these on a cluster.
    - [Ldt]: large lists, maps, sets and stacks ([aerospike_llist.c], [aerospike_lmap.c],
      [aerospike_lset.c], [aerospike_lstack.c], [as_ldt.c], [_ldt.c]), over [Services].

    Definitions keep the names of the code; the loop of a function [f] is a definition of
    its own ([f_loop] or a name of its part).  Structures are records with the members
    that are used, enumerations inductive types, pointers to shared objects keys of maps
    in the state, pointers into a block offsets.

    ** What is shown

    - The containers refine their abstract counterparts, for any sequence of operations:
      queues and vectors lists, hash maps finite maps, array lists lists of counted
      references, byte arrays lists of bytes.
    - Packing and unpacking, base64 and byte order are inverses where they are; packing
      writes a reference encoding of exactly the size that was computed.
    - Each command is the message of a reference format, in a block of exactly the size
      that was computed; parsing an answer yields the bins of the answer; a [get] composes
      all of this, and the loop of [as_command_execute] ends and gives back what it took.
    - The calls that build a scan or a query leave what was accepted, and the command says
      exactly that; the records of all groups reach the callback, or their place in a batch,
      as they were written; on a cluster, every member is asked once and all that was
      reserved is given back.
    - Reads and writes of sockets transfer exactly the bytes they should and end once the
      clock passes their deadline.
    - Connections are accounted for; a look-up returns the node the tables say, reserved;
      the text of an answer is installed exactly; a turn of the tender keeps every
      reference counter equal to the number of holders; a cluster that lives and is
      destroyed frees everything.
    - Each call on users and roles writes the message of its command, and lists of users are
      read back from any number of blocks; on a cluster only the password of the own user
      that the server accepted becomes that of the client.
    - Commands on indexes and functions leave the cluster as it was; a file comes back as it
      was put; a background scan is reported as its nodes report it; the loops that wait end
      if the servers come to an end.
    - Each of the 45 operations on large data types applies the function of its package to
      its arguments, reads the value that comes back as it should, and releases what it
      reserved; a code in the text of a failure becomes the status.
    - Where the code does not do what it means to, a theorem shows what it does.

    ** Bounds and fuel

    Loops that follow the structure of a list are structural.  The other loops take fuel:
    the length of the buffer they scan plus one (every turn advances), the size of a table,
    or the number of turns of the operating system that the theorem speaks about; out of
    fuel is [Deep] or [None], and the theorems say when it does not happen.  The theorems
    on the cluster bound the number of nodes, friends and addresses so that no 32-bit
    counter wraps; [wlp] leaves open only that the network never answers.  A wait takes as
    many turns as there is work left for the servers, a number that is a parameter.

    ** What is not modelled

    Threads are not modelled as such: operations on shared state are atomic steps in any
    order, and the tasks of a scan, a query or a batch run one at a time in an order that
    is a parameter; their worker threads and queues are left out.  Of the build variants,
    those of Windows and macOS are left out; HP-UX and big-endian hosts are parameters.
    Shared memory ([as_shm_cluster.c]), logging, the configuration of policies, the Lua
    engine ([modules/mod-lua]) and the libraries in [modules] that are not part of this
    client (Concurrency Kit, Lua, LuaJIT) are not modelled; RIPEMD-160, SHA-1 and the
    password hash are parameters. *)

From stdpp Require Export base tactics list numbers option sets.
From Stdlib Require Export ZArith Lia.

#[export] Set Default Goal Selector "!".
#[export] Set Warnings "-register-all".
Open Scope Z_scope.

Declare Scope as_scope.
Delimit Scope as_scope with asc.

(** ** Fixed-width integers

    A C integer of width [w] is a [Z] in its range; the conversions below are
    the ones the C code performs on assignment and on explicit casts. *)

Definition u8 (z : Z) : Z := z mod 2 ^ 8.
Definition u16 (z : Z) : Z := z mod 2 ^ 16.
Definition u32 (z : Z) : Z := z mod 2 ^ 32.
Definition u64 (z : Z) : Z := z mod 2 ^ 64.

Definition i8 (z : Z) : Z := (z + 2 ^ 7) mod 2 ^ 8 - 2 ^ 7.
Definition i16 (z : Z) : Z := (z + 2 ^ 15) mod 2 ^ 16 - 2 ^ 15.
Definition i32 (z : Z) : Z := (z + 2 ^ 31) mod 2 ^ 32 - 2 ^ 31.
Definition i64 (z : Z) : Z := (z + 2 ^ 63) mod 2 ^ 64 - 2 ^ 63.

Definition is_byte (z : Z) : Prop := 0 <= z < 256.
Definition is_u32 (z : Z) : Prop := 0 <= z < 2 ^ 32.
Definition is_i64 (z : Z) : Prop := - 2 ^ 63 <= z < 2 ^ 63.
Definition INT_MAX : Z := 2147483647.

#[export] Instance is_byte_dec z : Decision (is_byte z).
Proof. unfold is_byte. apply _. Defined.

(** ** Big-endian byte strings *)

Fixpoint be_bytes (n : nat) (z : Z) : list Z :=
  match n with
  | O => []
  | S n => u8 (z / 256 ^ Z.of_nat n) :: be_bytes n z
  end.

Definition be_val (l : list Z) : Z := fold_left (fun a b => a * 256 + b) l 0.

(** ** Checked memory

    A block of memory is the list of its bytes.  Reading or writing outside of
    it is undefined behaviour in C; every access of the model goes through
    these checked operations, and [None] stands for the undefined access. *)

Notation "'blen' l" := (Z.of_nat (length l)) (at level 10, only parsing) : as_scope.
Open Scope as_scope.

Definition mread (m : list Z) (off : Z) : option Z :=
  if decide (0 <= off) then m !! Z.to_nat off else None.

Definition mslice {A} (m : list A) (off n : Z) : option (list A) :=
  if decide (0 <= off /\ 0 <= n /\ off + n <= blen m)
  then Some (take (Z.to_nat n) (drop (Z.to_nat off) m)) else None.

(** [memcpy(dst + off, src, length src)]. *)
Definition mwrite {A} (m : list A) (off : Z) (src : list A) : option (list A) :=
  if decide (0 <= off /\ off + blen src <= blen m)
  then Some (take (Z.to_nat off) m ++ src ++ drop (Z.to_nat off + length src) m)
  else None.

(** [memmove(m + dst, m + src, n)]: the source is read before it is written. *)
Definition mmove {A} (m : list A) (dst src n : Z) : option (list A) :=
  s ← mslice m src n; mwrite m dst s.

(** Element-wise access to an array of any type, indexed by a C integer. *)
Definition aget {A} (m : list A) (i : Z) : option A :=
  if decide (0 <= i) then m !! Z.to_nat i else None.

Definition aset {A} (m : list A) (i : Z) (x : A) : option (list A) :=
  if decide (0 <= i < blen m) then Some (<[Z.to_nat i := x]> m) else None.

(** ** Results of code that may not return

    [UB]: undefined behaviour; [Deep]: recursion deeper than the fuel, or a wait without
    an end. *)

Inductive ures (A : Type) := URet (a : A) | UB | Deep.
Arguments URet {A}.
Arguments UB {A}.
Arguments Deep {A}.

Definition ubind {A B} (f : A -> ures B) (r : ures A) : ures B :=
  match r with URet a => f a | UB => UB | Deep => Deep end.
Definition lift {A} (o : option A) : ures A :=
  match o with Some a => URet a | None => UB end.

Notation "'let*' x := e 'in' k" := (ubind (fun x => k) e)
  (at level 10, x pattern, e at level 200, k at level 200) : as_scope.

(** [r] is a result that satisfies [Q]; it may fail to come only if not [answers]. *)
Definition settles {A} (answers : Prop) (r : ures A) (Q : A -> Prop) : Prop :=
  match r with URet a => Q a | UB => False | Deep => ~ answers end.

(** ** Allocation

    The outcomes of the calls of [cf_malloc], [cf_calloc] and [cf_realloc], in
    order; an exhausted list stands for allocations that succeed. *)

Definition heap := list bool.

Definition cf_malloc (h : heap) : bool * heap :=
  match h with
  | [] => (true, [])
  | b :: h => (b, h)
  end.

(** ** Automation *)

Create HintDb machine discriminated.

(** Turns the width conversions into plain arithmetic and calls [lia]. *)
Ltac unfold_widths :=
  unfold u8, u16, u32, u64, i8, i16, i32, i64, is_byte, is_u32, is_i64, INT_MAX in *.
Ltac width_lia := unfold_widths; Z.div_mod_to_equations; lia.

(** Splits the goal on the test of an [if], keeping the equation. *)
Ltac case_if :=
  match goal with
  | |- context [if ?b then _ else _] => let E := fresh "E" in destruct b eqn:E
  | H : context [if ?b then _ else _] |- _ => let E := fresh "E" in destruct b eqn:E
  end.

(** Turns boolean comparisons on [Z] in the context into propositions. *)
Ltac reflect_Z :=
  repeat match goal with
  | H : (_ <? _) = true |- _ => apply Z.ltb_lt in H
  | H : (_ <? _) = false |- _ => apply Z.ltb_ge in H
  | H : (_ <=? _) = true |- _ => apply Z.leb_le in H
  | H : (_ <=? _) = false |- _ => apply Z.leb_gt in H
  | H : (_ =? _) = true |- _ => apply Z.eqb_eq in H
  | H : (_ =? _) = false |- _ => apply Z.eqb_neq in H
  | H : _ && _ = true |- _ => apply andb_true_iff in H as [? ?]
  | H : _ || _ = false |- _ => apply orb_false_iff in H as [? ?]
  | H : negb _ = true |- _ => apply negb_true_iff in H
  | H : negb _ = false |- _ => apply negb_false_iff in H
  end.

(** Closes [Forall is_byte] of explicit byte lists and of their concatenations. *)
Ltac solve_bytes :=
  repeat first
    [ apply Forall_nil_2 | apply Forall_cons_2 | apply Forall_app_2
    | progress (auto with machine) | solve [unfold is_byte; lia] ].

(** ** Lemmas on results *)

Lemma settles_bind {A B} answers (r : ures A) (f : A -> ures B) Q :
  settles answers r (fun a => settles answers (f a) Q) -> settles answers (ubind f r) Q.
Proof. by destruct r. Qed.

Lemma settles_mono {A} answers answers' (r : ures A) (P Q : A -> Prop) :
  settles answers r P -> (answers' -> answers) -> (forall a, P a -> Q a) -> settles answers' r Q.
Proof. destruct r; cbn; tauto || auto. Qed.

Lemma settles_eq {A} answers (r : ures A) (P Q : A -> Prop) :
  settles answers r P -> (forall a, r = URet a -> P a -> Q a) -> settles answers r Q.
Proof. destruct r; cbn; auto. Qed.

Lemma settles_then {A B} answers (r : ures A) (f : A -> ures B) (P : A -> Prop) Q :
  settles answers r P -> (forall a, P a -> settles answers (f a) Q) -> settles answers (ubind f r) Q.
Proof. destruct r; cbn; auto. Qed.

Lemma settles_returns {A} (answers : Prop) (r : ures A) Q : settles answers r Q -> answers -> exists a, r = URet a /\ Q a.
Proof. destruct r; cbn; [by eexists|done|done]. Qed.

(** ** Lemmas on widths *)

Lemma u8_range z : is_byte (u8 z).
Proof. unfold is_byte, u8. apply Z.mod_pos_bound. lia. Qed.
Lemma u32_range z : is_u32 (u32 z).
Proof. unfold is_u32, u32. apply Z.mod_pos_bound. lia. Qed.
Lemma i32_range z : - 2 ^ 31 <= i32 z < 2 ^ 31.
Proof. unfold i32. pose proof (Z.mod_pos_bound (z + 2 ^ 31) (2 ^ 32)). lia. Qed.
Lemma i64_range z : is_i64 (i64 z).
Proof. unfold is_i64, i64. pose proof (Z.mod_pos_bound (z + 2 ^ 63) (2 ^ 64)). lia. Qed.

Lemma u8_id z : is_byte z -> u8 z = z.
Proof. intros. apply Z.mod_small, H. Qed.
Lemma u16_id z : 0 <= z < 65536 -> u16 z = z.
Proof. intros. apply Z.mod_small, H. Qed.
Lemma u32_id z : is_u32 z -> u32 z = z.
Proof. intros. apply Z.mod_small, H. Qed.
Lemma u64_id z : 0 <= z < 2 ^ 64 -> u64 z = z.
Proof. intros. apply Z.mod_small, H. Qed.
Lemma i8_id z : - 128 <= z < 128 -> i8 z = z.
Proof. intros. width_lia. Qed.
Lemma i16_id z : - 32768 <= z < 32768 -> i16 z = z.
Proof. intros. width_lia. Qed.
Lemma i32_id z : - 2 ^ 31 <= z < 2 ^ 31 -> i32 z = z.
Proof. intros. width_lia. Qed.
Lemma i64_id z : is_i64 z -> i64 z = z.
Proof. intros. width_lia. Qed.

Lemma i8_u8 z : i8 (u8 z) = i8 z.
Proof. unfold i8, u8. by rewrite Zplus_mod_idemp_l. Qed.
Lemma i16_u16 z : i16 (u16 z) = i16 z.
Proof. unfold i16, u16. by rewrite Zplus_mod_idemp_l. Qed.
Lemma i32_u32 z : i32 (u32 z) = i32 z.
Proof. unfold i32, u32. by rewrite Zplus_mod_idemp_l. Qed.
Lemma i64_u64 z : i64 (u64 z) = i64 z.
Proof. unfold i64, u64. by rewrite Zplus_mod_idemp_l. Qed.

#[export] Hint Resolve u8_range u32_range i64_range : machine.

(** A property of bytes is checked on all 256 of them. *)
Lemma byte_check (P : Z -> bool) :
  forallb P (seqZ 0 256) = true -> forall x, is_byte x -> P x = true.
Proof.
  intros H x Hx. rewrite forallb_forall in H. apply H, list_elem_of_In, elem_of_seqZ.
  unfold is_byte in Hx. lia.
Qed.

Lemma byte_check_eq (f g : Z -> Z) :
  forallb (fun x => f x =? g x) (seqZ 0 256) = true -> forall x, is_byte x -> f x = g x.
Proof. intros H x Hx. apply Z.eqb_eq. by apply (byte_check (fun x => f x =? g x)). Qed.

(** The same on any short range. *)
Lemma range_check lo n (P : Z -> bool) :
  forallb P (seqZ lo n) = true -> forall x, lo <= x < lo + n -> P x = true.
Proof.
  intros H x Hx. rewrite forallb_forall in H. apply H, list_elem_of_In, elem_of_seqZ. lia.
Qed.

Lemma range_check_eq lo n (f g : Z -> Z) :
  forallb (fun x => f x =? g x) (seqZ lo n) = true -> forall x, lo <= x < lo + n -> f x = g x.
Proof. intros H x Hx. apply Z.eqb_eq. by apply (range_check lo n (fun x => f x =? g x)). Qed.

(** ** Lemmas on big-endian byte strings *)

Lemma be_bytes_length n z : length (be_bytes n z) = n.
Proof. induction n; simpl; congruence. Qed.

Lemma be_bytes_bytes n z : Forall is_byte (be_bytes n z).
Proof. induction n; simpl; constructor; auto with machine. Qed.

#[export] Hint Resolve be_bytes_bytes : machine.

Lemma be_val_acc l a : fold_left (fun a b => a * 256 + b) l a = a * 256 ^ blen l + be_val l.
Proof.
  unfold be_val. revert a. induction l as [|b l IH]; intros a; simpl; [lia|].
  rewrite (IH (a * 256 + b)), (IH (0 * 256 + b)).
  replace (Z.of_nat (S (length l))) with (Z.succ (blen l)) by lia.
  rewrite Z.pow_succ_r by lia. lia.
Qed.

Lemma be_val_cons b l : be_val (b :: l) = b * 256 ^ blen l + be_val l.
Proof. unfold be_val at 1. simpl. apply be_val_acc. Qed.

Lemma be_val_range l : Forall is_byte l -> 0 <= be_val l < 256 ^ blen l.
Proof.
  induction 1 as [|b l Hb Hl IH]; [unfold be_val; simpl; lia|].
  rewrite be_val_cons. simpl length.
  replace (Z.of_nat (S (length l))) with (Z.succ (blen l)) by lia.
  rewrite Z.pow_succ_r by lia. unfold is_byte in Hb. nia.
Qed.

Lemma be_val_be_bytes n z : be_val (be_bytes n z) = z mod 256 ^ Z.of_nat n.
Proof.
  induction n as [|n IH]; [by rewrite Z.mod_1_r|].
  simpl be_bytes. rewrite be_val_cons, be_bytes_length, IH.
  replace (Z.of_nat (S n)) with (Z.succ (Z.of_nat n)) by lia.
  rewrite Z.pow_succ_r by lia. unfold u8. change (2 ^ 8) with 256.
  rewrite (Z.mul_comm 256), Z.rem_mul_r by lia. lia.
Qed.

Lemma be_bytes_mod n m z :
  (n <= m)%nat -> be_bytes n (z mod 256 ^ Z.of_nat m) = be_bytes n z.
Proof.
  intros Hnm. induction n as [|n IH]; [done|]. simpl.
  rewrite IH by lia. f_equal. unfold u8. change (2 ^ 8) with 256.
  replace (Z.of_nat m) with (Z.of_nat n + (1 + (Z.of_nat m - Z.of_nat n - 1))) by lia.
  rewrite Z.pow_add_r, Z.rem_mul_r by lia.
  rewrite (Z.mul_comm (256 ^ Z.of_nat n)), Z.div_add by lia.
  rewrite Z.div_small by (apply Z.mod_pos_bound; lia). rewrite Z.add_0_l.
  rewrite Z.pow_add_r by lia. change (256 ^ 1) with 256.
  rewrite Z.rem_mul_r by lia.
  rewrite (Z.mul_comm 256), Z.mod_add by lia. by rewrite Z.mod_mod by lia.
Qed.

Lemma be_bytes_be_val l : Forall is_byte l -> be_bytes (length l) (be_val l) = l.
Proof.
  induction 1 as [|b l Hb Hl IH]; [done|].
  simpl. pose proof (be_val_range l Hl). unfold is_byte in Hb. f_equal.
  - rewrite be_val_cons, Z.div_add_l, Z.div_small by lia. rewrite Z.add_0_r.
    by apply u8_id.
  - rewrite <- (be_bytes_mod (length l) (length l)) by lia.
    rewrite be_val_cons, Z.add_comm, Z.mod_add, Z.mod_small by lia. done.
Qed.

Lemma be_bytes_1 z : be_bytes 1 z = [u8 z].
Proof. simpl. by rewrite Z.div_1_r. Qed.

(** ** Lemmas on checked memory *)

Lemma mread_Some m off x : mread m off = Some x -> 0 <= off < blen m.
Proof.
  unfold mread. case_decide; [|done]. intros Hx%lookup_lt_Some. lia.
Qed.

Lemma mread_lookup m (i : nat) : mread m (Z.of_nat i) = m !! i.
Proof. unfold mread. rewrite decide_True by lia. by rewrite Nat2Z.id. Qed.

Lemma mread_is_Some m off : 0 <= off < blen m -> is_Some (mread m off).
Proof. intros. unfold mread. rewrite decide_True by lia. apply lookup_lt_is_Some. lia. Qed.

Lemma mread_app a x b off : off = blen a -> mread (a ++ x :: b) off = Some x.
Proof. intros ->. by rewrite mread_lookup, list_lookup_middle. Qed.

Lemma mread_app_l a b off : off < blen a -> mread (a ++ b) off = mread a off.
Proof. intros Ho. unfold mread. case_decide; [|done]. by rewrite lookup_app_l by lia. Qed.

Lemma mslice_app {A} (a b c : list A) off n :
  off = blen a -> n = blen b -> mslice (a ++ b ++ c) off n = Some b.
Proof.
  intros -> ->. unfold mslice. rewrite decide_True by (rewrite !length_app; lia).
  rewrite !Nat2Z.id, drop_app_length, take_app_length. done.
Qed.

Lemma mslice_length {A} (m : list A) off n l : mslice m off n = Some l -> blen l = n.
Proof.
  unfold mslice. case_decide; [|done]. intros [= <-].
  rewrite length_take, length_drop. lia.
Qed.

Lemma mslice_bounds {A} (m : list A) off n l :
  mslice m off n = Some l -> 0 <= off /\ 0 <= n /\ off + n <= blen m.
Proof. unfold mslice. by case_decide. Qed.

Lemma mwrite_app {A} (a b c src : list A) off :
  off = blen a -> length src = length b ->
  mwrite (a ++ b ++ c) off src = Some (a ++ src ++ c).
Proof.
  intros -> Hl. unfold mwrite. rewrite decide_True by (rewrite !length_app; lia).
  rewrite Nat2Z.id, take_app_length, <- drop_drop, drop_app_length, Hl, drop_app_length.
  done.
Qed.

Lemma mwrite_0 {A} (b c src : list A) :
  length src = length b -> mwrite (b ++ c) 0 src = Some (src ++ c).
Proof. by apply (mwrite_app []). Qed.

Lemma mslice_drop {A} (m : list A) off n :
  0 <= off -> n = blen m - off -> 0 <= n -> mslice m off n = Some (drop (Z.to_nat off) m).
Proof.
  intros Ho -> Hn. unfold mslice. rewrite decide_True by lia. f_equal.
  apply take_ge. rewrite length_drop. lia.
Qed.

Lemma join_cons {A} (x : list A) (l : list (list A)) : mjoin (x :: l) = x ++ mjoin l.
Proof. done. Qed.

Lemma join_app {A} (l1 l2 : list (list A)) : mjoin (l1 ++ l2) = mjoin l1 ++ mjoin l2.
Proof. induction l1 as [|x l1 IH]; [done|]. cbn [app]. by rewrite !join_cons, IH, app_assoc. Qed.

Lemma mslice_take {A} (m : list A) n :
  0 <= n <= blen m -> mslice m 0 n = Some (take (Z.to_nat n) m).
Proof. intros Hn. unfold mslice. rewrite decide_True by lia. by rewrite drop_0. Qed.

Lemma mwrite_length {A} (m : list A) off src m' : mwrite m off src = Some m' -> length m' = length m.
Proof.
  unfold mwrite. case_decide; [|done]. intros [= <-].
  rewrite !length_app, length_take, length_drop. lia.
Qed.

Lemma mwrite_fits {A} (m : list A) off src :
  0 <= off -> off + blen src <= blen m -> exists m', mwrite m off src = Some m' /\ blen m' = blen m.
Proof.
  intros Ho Hl. destruct (mwrite m off src) as [m'|] eqn:E.
  - exists m'. by rewrite (mwrite_length _ _ _ _ E).
  - unfold mwrite in E. by rewrite decide_True in E by lia.
Qed.

Lemma aget_lookup {A} (m : list A) (i : nat) : aget m (Z.of_nat i) = m !! i.
Proof. unfold aget. rewrite decide_True by lia. by rewrite Nat2Z.id. Qed.

Lemma aget_nonneg {A} (m : list A) i : 0 <= i -> aget m i = m !! Z.to_nat i.
Proof. intros. unfold aget. by rewrite decide_True. Qed.

Lemma aget_Some {A} (m : list A) i x : aget m i = Some x -> 0 <= i < blen m.
Proof. unfold aget. case_decide; [|done]. intros Hx%lookup_lt_Some. lia. Qed.

Lemma aget_is_Some {A} (m : list A) i : 0 <= i < blen m -> is_Some (aget m i).
Proof. intros. rewrite aget_nonneg by lia. apply lookup_lt_is_Some. lia. Qed.

Lemma aset_Some {A} (m : list A) i x :
  0 <= i < blen m -> aset m i x = Some (<[Z.to_nat i := x]> m).
Proof. intros. unfold aset. by rewrite decide_True. Qed.

Lemma split_at_nat {A} (n : nat) (l : list A) :
  (n <= length l)%nat -> exists l1 l2, l = l1 ++ l2 /\ length l1 = n.
Proof.
  intros Hn. exists (take n l), (drop n l). by rewrite take_drop, length_take, Nat.min_l.
Qed.

Lemma aset_middle {A} (pre post : list A) x y i :
  i = blen pre -> aset (pre ++ x :: post) i y = Some (pre ++ y :: post).
Proof.
  intros ->. rewrite aset_Some by (rewrite length_app; simpl; lia).
  by rewrite Nat2Z.id, insert_app_r_alt, Nat.sub_diag by lia.
Qed.

Lemma mmove_lookup {A} (m : list A) dst src n :
  0 <= dst -> 0 <= src -> 0 <= n -> dst + n <= blen m -> src + n <= blen m ->
  exists m', mmove m dst src n = Some m' /\ length m' = length m
    /\ forall i : Z, 0 <= i -> m' !! Z.to_nat i
         = if decide (dst <= i < dst + n) then m !! Z.to_nat (i - dst + src) else m !! Z.to_nat i.
Proof.
  intros Hd Hs Hn Hdn Hsn. unfold mmove, mslice. rewrite decide_True by lia.
  cbn [mbind option_bind]. set (s := take (Z.to_nat n) (drop (Z.to_nat src) m)).
  assert (length s = Z.to_nat n) as Ls by (unfold s; rewrite length_take, length_drop; lia).
  unfold mwrite. rewrite decide_True by lia. eexists. split; [done|].
  assert (length (take (Z.to_nat dst) m) = Z.to_nat dst) as Lt by (rewrite length_take; lia).
  split; [rewrite !length_app, length_drop; lia|]. intros i Hi. case_decide as Hc.
  - rewrite lookup_app_r, lookup_app_l by lia. rewrite Lt. unfold s.
    rewrite lookup_take_lt, lookup_drop by lia. f_equal. lia.
  - destruct (decide (i < dst)).
    + rewrite lookup_app_l, lookup_take_lt by lia. done.
    + rewrite !lookup_app_r by lia. rewrite Lt, Ls, lookup_drop. f_equal. lia.
Qed.

(** Reduction modulo [a] of a number below [2 * a]. *)
Lemma mod_wrap a x : 0 < a -> 0 <= x < 2 * a -> x mod a = if decide (x < a) then x else x - a.
Proof.
  intros Ha Hx. case_decide; [apply Z.mod_small; lia|].
  symmetry. apply Z.mod_unique with 1; lia.
Qed.

Lemma land_le a b : 0 <= b -> Z.land a b <= b.
Proof.
  intros Hb. assert (Z.ldiff (Z.land a b) b = 0) as Hd.
  { apply Z.bits_inj'. intros i Hi. rewrite Z.ldiff_spec, Z.land_spec, Z.bits_0. by destruct (Z.testbit a i), (Z.testbit b i). }
  apply Z.sub_nocarry_ldiff in Hd. assert (0 <= Z.ldiff b (Z.land a b)) by (apply Z.ldiff_nonneg; by left). lia.
Qed.
