(* ===== verification/Counting.v ===== *)
(** * Counting references

    Sums over lists and finite maps, and the number of times a reference occurs in a
    list: what the theorems on reference counters (values, nodes, tables) are stated
    with. *)

From S2P Require Import Prelude.
From stdpp Require Import gmap.
Open Scope Z_scope.

(** The sum of [f] over a list and over a map. *)
Fixpoint lsum {A} (f : A -> Z) (l : list A) : Z := match l with [] => 0 | x :: l => f x + lsum f l end.
Definition msum {A} (f : A -> Z) (m : gmap Z A) : Z := map_fold (fun _ x acc => f x + acc) 0 m.

Lemma lsum_app {A} (f : A -> Z) l1 l2 : lsum f (l1 ++ l2) = lsum f l1 + lsum f l2.
Proof. induction l1 as [|x l1 IH]; simpl; lia. Qed.

Lemma lsum_insert {A} (f : A -> Z) l i x y :
  l !! i = Some x -> lsum f (<[i := y]> l) = lsum f l - f x + f y.
Proof.
  revert i. induction l as [|z l IH]; intros i Hi; [by rewrite lookup_nil in Hi|].
  destruct i as [|i]; simpl in *; simplify_eq; [lia|]. rewrite (IH i Hi). lia.
Qed.

Lemma lsum_bound {A} (f : A -> Z) (b : Z) l : (forall x, 0 <= f x <= b) -> 0 <= lsum f l <= b * blen l.
Proof. intros Hf. induction l as [|x l IH]; cbn [lsum length]; [lia|]. specialize (Hf x). nia. Qed.

Lemma lsum_nonneg {A} (f : A -> Z) l : (forall x, 0 <= f x) -> 0 <= lsum f l.
Proof. intros Hf. induction l as [|x l IH]; cbn [lsum length]; [lia|]. specialize (Hf x). nia. Qed.

Lemma lsum_ge {A} (f : A -> Z) l i x : (forall x, 0 <= f x) -> l !! i = Some x -> f x <= lsum f l.
Proof.
  intros Hf. revert i. induction l as [|z l IH]; intros i Hi; [by rewrite lookup_nil in Hi|].
  destruct i as [|i]; simpl in *; simplify_eq.
  - pose proof (lsum_nonneg f l Hf). lia.
  - specialize (IH i Hi). specialize (Hf z). lia.
Qed.

Lemma msum_empty {A} (f : A -> Z) : msum f ∅ = 0.
Proof. apply map_fold_empty. Qed.

Lemma msum_insert_new {A} (f : A -> Z) m k x : m !! k = None -> msum f (<[k := x]> m) = f x + msum f m.
Proof. intros Hk. unfold msum. rewrite map_fold_insert_L; [done|intros; lia|done]. Qed.

Lemma msum_delete {A} (f : A -> Z) m k x : m !! k = Some x -> msum f m = f x + msum f (delete k m).
Proof.
  intros Hk. rewrite <- (insert_delete_id m k x Hk) at 1. apply msum_insert_new. apply lookup_delete_eq.
Qed.

Lemma msum_update {A} (f : A -> Z) m k x y :
  m !! k = Some x -> msum f (<[k := y]> m) = msum f m - f x + f y.
Proof.
  intros Hk. rewrite (msum_delete f m k x Hk), <- insert_delete_eq, msum_insert_new by apply lookup_delete_eq. lia.
Qed.

Lemma msum_le {A} (f g : A -> Z) m : (forall k x, m !! k = Some x -> f x <= g x) -> msum f m <= msum g m.
Proof.
  induction m as [|k x m Hk IH] using map_ind; intros Hfg; [by rewrite !msum_empty|].
  rewrite !msum_insert_new by done. specialize (Hfg k x (lookup_insert_eq _ _ _)) as Hx.
  assert (msum f m <= msum g m); [|lia]. apply IH. intros k' x' Hk'. apply (Hfg k').
  rewrite lookup_insert_ne; [done|]. intros ->. congruence.
Qed.

Lemma msum_zero {A} (m : gmap Z A) : msum (fun _ => 0) m = 0.
Proof.
  induction m as [|k x m Hk IH] using map_ind; [apply msum_empty|]. rewrite msum_insert_new by done. lia.
Qed.

(** How often [x] occurs in a list. *)
Definition occ (x : Z) (l : list Z) : Z := Z.of_nat (count_occ Z.eq_dec l x).

Lemma occ_nil x : occ x [] = 0.
Proof. done. Qed.
Lemma occ_cons x y l : occ x (y :: l) = (if decide (x = y) then 1 else 0) + occ x l.
Proof. unfold occ. cbn [count_occ]. destruct (Z.eq_dec y x), (decide (x = y)); subst; try done; lia. Qed.
Lemma occ_app x l1 l2 : occ x (l1 ++ l2) = occ x l1 + occ x l2.
Proof. unfold occ. rewrite count_occ_app. lia. Qed.
Lemma occ_nonneg x l : 0 <= occ x l.
Proof. unfold occ. lia. Qed.
Lemma occ_in x l : x ∈ l <-> 0 < occ x l.
Proof. unfold occ. rewrite list_elem_of_In, (count_occ_In Z.eq_dec). lia. Qed.
Lemma occ_out x l : x ∉ l <-> occ x l = 0.
Proof. rewrite occ_in. pose proof (occ_nonneg x l). lia. Qed.
Lemma occ_once x l : NoDup l -> occ x l <= 1.
Proof. rewrite NoDup_ListNoDup, (NoDup_count_occ Z.eq_dec). intros Hl. specialize (Hl x). unfold occ. lia. Qed.
