(* ===== verification/Objects.v ===== *)
(** * Values in memory and their reference counters

    Models [as_val.c] and [as_val.h], with the constructors and destructors of the types
    of values: [as_nil.c], [as_boolean.c], [as_integer.c], [as_string.c], [as_pair.c],
    [as_list.c], [as_map.c], [as_rec.c], and what the containers destroy
    ([as_arraylist_release], [as_hashmap_clear], [as_record_release]).

    Values are objects of a heap that hold references to one another.  The theorems are
    about what users of the library may do with them: as long as they give away and
    destroy only references they have, no freed value is ever used, and every value is
    there exactly as long as somebody refers to it. *)

From S2P Require Import Prelude Counting.
From stdpp Require Import gmap.
Open Scope Z_scope.

Definition INT64_MIN : Z := - 2 ^ 63.

(** What an object holds, by its type.  Pointers are addresses of other objects, [None]
    is NULL.  A string and a byte array own their buffer when they may free it; a list has
    the elements of its array, a map the pairs of its table in the order in which they are
    visited, a record the names and values of its bins and the value of its key. *)
Inductive as_data :=
| D_UNKNOWN
| D_NIL
| D_BOOLEAN (value : bool)
| D_INTEGER (value : Z)
| D_STRING (value : option (list Z)) (len : Z) (free : bool)
| D_BYTES (value : option (list Z)) (free : bool)
| D_LIST (elements : list (option Z))
| D_MAP (table : list (option Z * option Z))
| D_REC (bins : list (list Z * option Z)) (key : option Z)
| D_PAIR (_1 _2 : option Z).

(** [as_val_s] in front of its data. *)
Record object := mk_object { o_data : as_data; o_free : bool; o_count : Z }.

Abbreviation heap := (gmap Z object).

Definition set_count (c : Z) (o : object) : object := mk_object (o_data o) (o_free o) c.
Definition set_data (d : as_data) (o : object) : object := mk_object d (o_free o) (o_count o).

Definition as_val_cons (d : as_data) (free : bool) : object := mk_object d free 1.

(** ** Constructors

    [_init] is for memory of the caller, [_new] for memory of the allocator. *)

Definition as_nil : object := mk_object D_NIL false 0.
Definition as_true : object := mk_object (D_BOOLEAN true) false 0.
Definition as_false : object := mk_object (D_BOOLEAN false) false 0.

Definition SIZE_MAX : Z := 2 ^ 64 - 1.

Definition as_boolean_init (value : bool) : object := as_val_cons (D_BOOLEAN value) false.
Definition as_boolean_new (value : bool) : object := as_val_cons (D_BOOLEAN value) true.
Definition as_integer_init (value : Z) : object := as_val_cons (D_INTEGER value) false.
Definition as_integer_new (value : Z) : object := as_val_cons (D_INTEGER value) true.

Definition as_string_cons (free : bool) (value : option (list Z)) (len : Z) (value_free : bool) : object :=
  as_val_cons (D_STRING value len value_free) free.
Definition as_string_init (value : option (list Z)) (free : bool) : object := as_string_cons false value SIZE_MAX free.
Definition as_string_init_wlen (value : option (list Z)) (len : Z) (free : bool) : object := as_string_cons false value len free.
Definition as_string_new (value : option (list Z)) (free : bool) : object := as_string_cons true value SIZE_MAX free.
Definition as_string_new_wlen (value : option (list Z)) (len : Z) (free : bool) : object := as_string_cons true value len free.

Definition as_pair_init (_1 _2 : option Z) : object := as_val_cons (D_PAIR _1 _2) false.
Definition as_pair_new (_1 _2 : option Z) : object := as_val_cons (D_PAIR _1 _2) true.

(** ** Reserving *)

Definition as_val_reserve_noop (o : object) : object := o.
Definition as_val_reserve_count (o : object) : object := set_count (u32 (o_count o + 1)) o.

Definition as_val_reserve_callbacks (d : as_data) : object -> object :=
  match d with
  | D_UNKNOWN | D_NIL | D_BOOLEAN _ => as_val_reserve_noop
  | _ => as_val_reserve_count
  end.

Definition as_val_val_reserve (v : option Z) (h : heap) : ures (option Z * heap) :=
  match v with
  | None => URet (v, h)
  | Some a =>
      match h !! a with
      | None => UB
      | Some o => URet (v, <[a := as_val_reserve_callbacks (o_data o) o]> h)
      end
  end.

(** ** Destroying

    [as_val_val_destroy] calls the destructor of the type, which destroys what the object
    refers to; [Deep] when references nest deeper than the fuel. *)

Fixpoint destroy_each (destroy : option Z -> heap -> ures (option Z * heap)) (l : list (option Z)) (h : heap) : ures heap :=
  match l with
  | [] => URet h
  | p :: l => let* (_, h) := destroy p h in destroy_each destroy l h
  end.

(** The pointers a destructor destroys, in its order. *)
Definition pointers (d : as_data) : list (option Z) :=
  match d with
  | D_LIST elements => elements
  | D_MAP table => mjoin (map (fun e => [e.1; e.2]) table)
  | D_REC bins key => map snd bins ++ [key]
  | D_PAIR _1 _2 => [_1; _2]
  | _ => []
  end.

(** What a destructor leaves behind. *)
Definition leftover (d : as_data) : as_data :=
  match d with
  | D_INTEGER _ => D_INTEGER INT64_MIN
  | D_STRING _ len _ => D_STRING None len false
  | D_LIST _ => D_LIST []
  | D_MAP _ => D_MAP []
  | D_REC _ _ => D_REC [] None
  | d => d
  end.

Definition as_val_destroy_callbacks (destroy : option Z -> heap -> ures (option Z * heap)) (a : Z) (o : object) (h : heap) : ures heap :=
  let* h := destroy_each destroy (pointers (o_data o)) h in
  URet (<[a := set_data (leftover (o_data o)) o]> h).

Fixpoint as_val_val_destroy (fuel : nat) (v : option Z) (h : heap) : ures (option Z * heap) :=
  match fuel with
  | O => Deep
  | S fuel =>
      match v with
      | None => URet (v, h)
      | Some a =>
          match h !! a with
          | None => UB
          | Some o =>
              if o_count o =? 0 then URet (v, h)
              else
                let o := set_count (u32 (o_count o - 1)) o in
                let h := <[a := o]> h in
                if o_count o =? 0 then
                  let* h := as_val_destroy_callbacks (as_val_val_destroy fuel) a o h in
                  URet (None, if o_free o then delete a h else h)
                else URet (v, h)
          end
      end
  end.

(** ** Who refers to what *)

(** The objects a value refers to. *)
Definition targets (d : as_data) : list Z := omap id (pointers d).

(** The references of a live object to [a], and those of a heap; a dying object has given
    its references to its destructor. *)
Definition refers (a : Z) (o : object) : Z := if 0 <? o_count o then occ a (targets (o_data o)) else 0.
Definition inside (h : heap) (a : Z) : Z := msum (refers a) h.

Definition alive (h : heap) : Z := msum (fun o => if 0 <? o_count o then 1 else 0) h.

(** The constants of the library, which are not counted. *)
Definition constants : heap := <[1 := as_nil]> (<[2 := as_true]> {[3 := as_false]}).

(** [R a] is the number of references to [a] that users have, beside the ones inside of
    the heap: the counter of an object says how many there are, and what is not there is
    not referred to. *)
Record counted_heap (R : Z -> Z) (h : heap) : Prop := {
  held_nonneg a : 0 <= R a;
  constant_there a o : constants !! a = Some o -> h !! a = Some o;
  object_counted a o : constants !! a = None -> h !! a = Some o -> o_count o = R a + inside h a /\ o_count o < 2 ^ 32;
  absent_unheld a : h !! a = None -> R a + inside h a = 0
}.

Definition less (R : Z -> Z) (l : list Z) (a : Z) : Z := R a - occ a l.
Definition more (R : Z -> Z) (l : list Z) (a : Z) : Z := R a + occ a l.

(** What destroying references does to the objects that are left: only counters change,
    what was dead stays as it was, and no memory of the allocator is left unfreed. *)
Record shrinks (h h' : heap) : Prop := {
  shrinks_live a o' : h' !! a = Some o' -> 0 < o_count o' ->
    exists o, h !! a = Some o /\ o_data o' = o_data o /\ o_free o' = o_free o /\ o_count o' <= o_count o;
  shrinks_dead a o : h !! a = Some o -> o_count o = 0 -> h' !! a = Some o;
  shrinks_freed a o' : h' !! a = Some o' -> o_count o' = 0 -> o_free o' = true -> h !! a = Some o';
  shrinks_alive : alive h' <= alive h
}.

Lemma shrinks_refl h : shrinks h h.
Proof. split; [|done|done|lia]. intros a o' Ha Hc. exists o'. split_and!; done || lia. Qed.

Lemma shrinks_trans h1 h2 h3 : shrinks h1 h2 -> shrinks h2 h3 -> shrinks h1 h3.
Proof.
  intros H12 H23. split.
  - intros a o3 H3 Hc. destruct (shrinks_live _ _ H23 a o3 H3 Hc) as (o2 & H2 & Hd & Hf & Hle).
    destruct (shrinks_live _ _ H12 a o2 H2 ltac:(lia)) as (o1 & H1 & Hd' & Hf' & Hle').
    exists o1. split_and!; congruence || lia.
  - intros a o H1 Hc. apply (shrinks_dead _ _ H23); [|done]. by apply (shrinks_dead _ _ H12).
  - intros a o H3 Hc Hf. apply (shrinks_freed _ _ H12); [|done..]. by apply (shrinks_freed _ _ H23).
  - pose proof (shrinks_alive _ _ H12). pose proof (shrinks_alive _ _ H23). lia.
Qed.

Lemma refers_nonneg a o : 0 <= refers a o.
Proof. unfold refers. case_match; [apply occ_nonneg|lia]. Qed.

Lemma msum_nonneg {A} (f : A -> Z) m : (forall x, 0 <= f x) -> 0 <= msum f m.
Proof. intros Hf. pose proof (msum_le (fun _ => 0) f m (fun _ x _ => Hf x)) as Hm. by rewrite msum_zero in Hm. Qed.

Lemma inside_nonneg h a : 0 <= inside h a.
Proof. apply msum_nonneg. intros o. apply refers_nonneg. Qed.

Lemma alive_nonneg h : 0 <= alive h.
Proof. apply msum_nonneg. intros o. case_match; lia. Qed.

Lemma inside_update h a o o' b : h !! a = Some o -> inside (<[a := o']> h) b = inside h b - refers b o + refers b o'.
Proof. apply msum_update. Qed.

Lemma inside_delete h a o b : h !! a = Some o -> inside (delete a h) b = inside h b - refers b o.
Proof. intros Ha. unfold inside. rewrite (msum_delete (refers b) h a o Ha). lia. Qed.

Lemma alive_update h a o o' : h !! a = Some o ->
  alive (<[a := o']> h) = alive h - (if 0 <? o_count o then 1 else 0) + (if 0 <? o_count o' then 1 else 0).
Proof. apply (msum_update (fun o => if 0 <? o_count o then 1 else 0)). Qed.

Lemma alive_delete h a o : h !! a = Some o -> alive (delete a h) = alive h - (if 0 <? o_count o then 1 else 0).
Proof. intros Ha. unfold alive. rewrite (msum_delete (fun o => if 0 <? o_count o then 1 else 0) h a o Ha). lia. Qed.

Lemma alive_pos h a o : h !! a = Some o -> 0 < o_count o -> 0 < alive h.
Proof.
  intros Ha Hc. pose proof (alive_delete h a o Ha). pose proof (alive_nonneg (delete a h)).
  destruct (Z.ltb_spec 0 (o_count o)); lia.
Qed.

Lemma less_cons R a l b : less R (a :: l) b = less (less R [a]) l b.
Proof. unfold less. rewrite !occ_cons, occ_nil. case_decide; lia. Qed.
Lemma less_nil R a : less R [] a = R a.
Proof. unfold less. rewrite occ_nil. lia. Qed.

Lemma counted_heap_ext R R' h : (forall a, R a = R' a) -> counted_heap R h -> counted_heap R' h.
Proof. intros HR [Hn Hk Ho Ha]. split; intros; rewrite <- ?HR; eauto. Qed.

(** Nobody who holds a counted reference sees a dead object. *)
Lemma held_there R h a : counted_heap R h -> 0 < R a -> exists o, h !! a = Some o.
Proof.
  intros Hc HR. destruct (h !! a) as [o|] eqn:Ha; [by exists o|].
  pose proof (absent_unheld _ _ Hc a Ha). pose proof (inside_nonneg h a). lia.
Qed.

Lemma held_counts R h a o : counted_heap R h -> 0 < R a -> constants !! a = None -> h !! a = Some o -> 0 < o_count o.
Proof.
  intros Hc HR Hk Ha. destruct (object_counted _ _ Hc a o Hk Ha). pose proof (inside_nonneg h a). lia.
Qed.

Lemma constant_dead a o : constants !! a = Some o -> o_count o = 0 /\ targets (o_data o) = [].
Proof.
  unfold constants. intros Ha. repeat (apply lookup_insert_Some in Ha as [[_ <-]|[_ Ha]]; [done|]).
  apply lookup_singleton_Some in Ha as [_ <-]. done.
Qed.

(** Giving up one of several references. *)
Lemma counted_decrement R h a o :
  counted_heap R h -> 0 < R a -> constants !! a = None -> h !! a = Some o -> 1 < o_count o ->
  counted_heap (less R [a]) (<[a := set_count (o_count o - 1) o]> h).
Proof.
  intros Hc HR Hk Ha Ho. pose proof (held_nonneg _ _ Hc) as Hn.
  assert (forall b, inside (<[a := set_count (o_count o - 1) o]> h) b = inside h b) as Hin.
  { intros b. rewrite (inside_update h a o) by done. unfold refers. cbn [set_count o_count o_data].
    destruct (Z.ltb_spec 0 (o_count o)), (Z.ltb_spec 0 (o_count o - 1)); lia. }
  split.
  - intros b. unfold less. rewrite occ_cons, occ_nil. specialize (Hn b). case_decide; subst; lia.
  - intros b ob Hb. rewrite lookup_insert_ne by congruence. by apply (constant_there _ _ Hc).
  - intros b ob Hkb Hb. rewrite Hin. unfold less. rewrite occ_cons, occ_nil. case_decide.
    + subst b. rewrite lookup_insert_eq in Hb. simplify_eq. destruct (object_counted _ _ Hc a o Hk Ha). cbn [set_count o_count]. lia.
    + rewrite lookup_insert_ne in Hb by done. destruct (object_counted _ _ Hc b ob Hkb Hb). lia.
  - intros b Hb. apply lookup_insert_None in Hb as [Hb Hne]. rewrite Hin. unfold less. rewrite occ_cons, occ_nil.
    rewrite decide_False by done. pose proof (absent_unheld _ _ Hc b Hb). lia.
Qed.

(** Giving up the last reference: the ones inside of the object are now the destructor's. *)
Lemma counted_last R h a o :
  counted_heap R h -> 0 < R a -> constants !! a = None -> h !! a = Some o -> o_count o = 1 ->
  counted_heap (more (less R [a]) (targets (o_data o))) (<[a := set_count 0 o]> h)
  /\ R a = 1 /\ inside h a = 0 /\ occ a (targets (o_data o)) = 0.
Proof.
  intros Hc HR Hk Ha Ho. pose proof (held_nonneg _ _ Hc) as Hn. pose proof (inside_nonneg h a) as Hi.
  destruct (object_counted _ _ Hc a o Hk Ha) as [Hcnt _].
  assert (occ a (targets (o_data o)) = 0) as Hself.
  { pose proof (msum_delete (refers a) h a o Ha) as Hm. fold (inside h a) in Hm.
    pose proof (msum_nonneg (refers a) (delete a h) (refers_nonneg a)) as Hd. pose proof (occ_nonneg a (targets (o_data o))).
    unfold refers in Hm at 1. destruct (Z.ltb_spec 0 (o_count o)); lia. }
  assert (forall b, inside (<[a := set_count 0 o]> h) b = inside h b - occ b (targets (o_data o))) as Hin.
  { intros b. rewrite (inside_update h a o) by done. unfold refers. cbn [set_count o_count o_data].
    destruct (Z.ltb_spec 0 (o_count o)); simpl; lia. }
  split; [|split_and!; [lia..|done]]. split.
  - intros b. unfold more, less. rewrite occ_cons, occ_nil. specialize (Hn b). pose proof (occ_nonneg b (targets (o_data o))).
    case_decide; subst; lia.
  - intros b ob Hb. rewrite lookup_insert_ne by congruence. by apply (constant_there _ _ Hc).
  - intros b ob Hkb Hb. rewrite Hin. unfold more, less. rewrite occ_cons, occ_nil. case_decide.
    + subst b. rewrite lookup_insert_eq in Hb. simplify_eq. cbn [set_count o_count]. lia.
    + rewrite lookup_insert_ne in Hb by done. destruct (object_counted _ _ Hc b ob Hkb Hb). lia.
  - intros b Hb. apply lookup_insert_None in Hb as [Hb Hne]. rewrite Hin. unfold more, less. rewrite occ_cons, occ_nil.
    rewrite decide_False by done. pose proof (absent_unheld _ _ Hc b Hb). lia.
Qed.

(** Replacing or removing a dead object. *)
Lemma counted_bury R h a o (new : option object) :
  counted_heap R h -> constants !! a = None -> h !! a = Some o -> o_count o = 0 ->
  (forall o', new = Some o' -> o_count o' = 0) -> counted_heap R (partial_alter (fun _ => new) a h).
Proof.
  intros Hc Hk Ha Ho Hnew. destruct (object_counted _ _ Hc a o Hk Ha) as [Hcnt _].
  assert (forall b, inside (partial_alter (fun _ => new) a h) b = inside h b) as Hin.
  { intros b. assert (refers b o = 0) as H0. { unfold refers. by rewrite Ho. }
    destruct new as [o'|].
    - change (partial_alter (fun _ => Some o') a h) with (<[a := o']> h). rewrite (inside_update h a o o') by done. rewrite H0. unfold refers. rewrite (Hnew o' eq_refl). simpl. lia.
    - change (partial_alter (fun _ => None) a h) with (delete a h). rewrite (inside_delete h a o) by done. lia. }
  split.
  - apply (held_nonneg _ _ Hc).
  - intros b ob Hb. rewrite lookup_partial_alter_ne by congruence. by apply (constant_there _ _ Hc).
  - intros b ob Hkb Hb. rewrite Hin. destruct (decide (a = b)) as [<-|Hne].
    + rewrite lookup_partial_alter_eq in Hb. pose proof (Hnew ob Hb). lia.
    + rewrite lookup_partial_alter_ne in Hb by done. by apply (object_counted _ _ Hc).
  - intros b Hb. rewrite Hin. destruct (decide (a = b)) as [<-|Hne]; [lia|].
    rewrite lookup_partial_alter_ne in Hb by done. by apply (absent_unheld _ _ Hc).
Qed.

(** The constants may be held and given up at will. *)
Lemma counted_constant R R' h k :
  counted_heap R h -> is_Some (constants !! k) -> (forall a, a <> k -> R' a = R a) -> 0 <= R' k -> counted_heap R' h.
Proof.
  intros Hc [ok Hk] HR H0. assert (forall b, constants !! b = None -> R' b = R b) as Hnk.
  { intros b Hb. apply HR. congruence. }
  split.
  - intros b. destruct (decide (b = k)) as [->|Hne]; [done|]. rewrite HR by done. apply (held_nonneg _ _ Hc).
  - apply (constant_there _ _ Hc).
  - intros b ob Hb Hob. rewrite Hnk by done. by apply (object_counted _ _ Hc).
  - intros b Hb. rewrite HR; [by apply (absent_unheld _ _ Hc)|]. intros ->. pose proof (constant_there _ _ Hc k ok Hk). congruence.
Qed.

(** What a destroyer of references does. *)
Definition destroys (n : Z) (destroy : option Z -> heap -> ures (option Z * heap)) : Prop :=
  forall R h a, counted_heap R h -> 0 < R a -> alive h < n ->
  exists v h', destroy (Some a) h = URet (v, h') /\ counted_heap (less R [a]) h' /\ shrinks h h'.

Lemma each_destroyed n destroy l : destroys n destroy -> (forall h, destroy None h = URet (None, h)) ->
  forall R h, counted_heap R h -> (forall b, occ b (omap id l) <= R b) -> alive h < n ->
  exists h', destroy_each destroy l h = URet h' /\ counted_heap (less R (omap id l)) h' /\ shrinks h h'.
Proof.
  intros Hd Hnull. induction l as [|[a|] l IH]; intros R h Hc Hl Hn; cbn [destroy_each omap list_omap].
  - exists h. split_and!; [done| |apply shrinks_refl]. eapply counted_heap_ext; [|exact Hc]. intros b. by rewrite less_nil.
  - change (omap id (Some a :: l)) with (a :: omap id l) in *.
    assert (0 < R a) as Ha. { specialize (Hl a). rewrite occ_cons, decide_True in Hl by done. pose proof (occ_nonneg a (omap id l)). lia. }
    destruct (Hd R h a Hc Ha Hn) as (v & h1 & -> & Hc1 & Hs1). cbn [ubind].
    destruct (IH (less R [a]) h1 Hc1) as (h2 & -> & Hc2 & Hs2).
    + intros b. specialize (Hl b). unfold less. rewrite occ_cons in *. rewrite occ_nil. lia.
    + pose proof (shrinks_alive _ _ Hs1). lia.
    + exists h2. split_and!; [done| |by eapply shrinks_trans]. eapply counted_heap_ext; [|exact Hc2]. intros b. by rewrite <- less_cons.
  - rewrite Hnull. cbn [ubind]. apply (IH R h Hc Hl Hn).
Qed.

(** A dead object is cleared and freed. *)
Lemma buried R h a o : counted_heap R h -> constants !! a = None -> h !! a = Some (set_count 0 o) ->
  let h1 := <[a := set_data (leftover (o_data o)) (set_count 0 o)]> h in
  let h' := if o_free o then delete a h1 else h1 in
  counted_heap R h' /\ alive h' = alive h /\ (forall b, b <> a -> h' !! b = h !! b)
  /\ (forall o', h' !! a = Some o' -> o_count o' = 0 /\ o_free o' = false).
Proof.
  intros Hc Hk Ha h1 h'.
  assert (counted_heap R h1) as Hc1. { apply (counted_bury R h a (set_count 0 o) (Some _)); try done. intros o' [= <-]. done. }
  assert (h1 !! a = Some (set_data (leftover (o_data o)) (set_count 0 o))) as Ha1 by apply lookup_insert_eq.
  assert (alive h1 = alive h) as Hal. { unfold h1. rewrite (alive_update _ _ _ _ Ha). cbn. lia. }
  unfold h'. destruct (o_free o) eqn:Hf.
  - split_and!.
    + apply (counted_bury R h1 a _ None Hc1 Hk Ha1); [done|]. intros o' [=].
    + rewrite (alive_delete _ _ _ Ha1). cbn. lia.
    + intros b Hb. unfold h1. by rewrite lookup_delete_ne, lookup_insert_ne by done.
    + intros o' Ho'. by rewrite lookup_delete_eq in Ho'.
  - split_and!; [done|done| |].
    + intros b Hb. unfold h1. by rewrite lookup_insert_ne by done.
    + intros o' Ho'. rewrite Ha1 in Ho'. by simplify_eq.
Qed.

Lemma shrinks_decrement h a o : h !! a = Some o -> 1 < o_count o -> shrinks h (<[a := set_count (o_count o - 1) o]> h).
Proof.
  intros Ha Ho. split.
  - intros b ob Hb Hc. apply lookup_insert_Some in Hb as [[<- <-]|[Hne Hb]].
    + exists o. cbn. split_and!; done || lia.
    + exists ob. split_and!; done || lia.
  - intros b ob Hb Hc. rewrite lookup_insert_ne; [done|]. intros <-. simplify_eq. lia.
  - intros b ob Hb Hc Hf. apply lookup_insert_Some in Hb as [[<- <-]|[Hne Hb]]; [|done]. cbn in Hc. lia.
  - rewrite (alive_update _ _ _ _ Ha). cbn [set_count o_count]. repeat case_match; lia.
Qed.

Lemma shrinks_buried h h2 h' a o : h !! a = Some o -> 0 < o_count o -> shrinks (<[a := set_count 0 o]> h) h2 ->
  alive h' = alive h2 -> (forall b, b <> a -> h' !! b = h2 !! b) ->
  (forall o', h' !! a = Some o' -> o_count o' = 0 /\ o_free o' = false) -> shrinks h h'.
Proof.
  intros Ha Ho Hs Hal Hsame Hgone.
  split.
  - intros b ob Hb Hc. destruct (decide (b = a)) as [->|Hne]; [destruct (Hgone _ Hb); lia|].
    rewrite Hsame in Hb by done. destruct (shrinks_live _ _ Hs b ob Hb Hc) as (o1 & H1 & Hr).
    rewrite lookup_insert_ne in H1 by done. by exists o1.
  - intros b ob Hb Hc. destruct (decide (b = a)) as [->|Hne]; [simplify_eq; lia|].
    rewrite Hsame by done. apply (shrinks_dead _ _ Hs); [|done]. by rewrite lookup_insert_ne.
  - intros b ob Hb Hc Hf. destruct (decide (b = a)) as [->|Hne]; [destruct (Hgone _ Hb); congruence|].
    rewrite Hsame in Hb by done. pose proof (shrinks_freed _ _ Hs b ob Hb Hc Hf) as H1. by rewrite lookup_insert_ne in H1.
  - rewrite Hal. pose proof (shrinks_alive _ _ Hs) as Hle. rewrite (alive_update _ _ _ _ Ha) in Hle.
    cbn [set_count o_count] in Hle. repeat case_match; lia.
Qed.

Lemma destroy_null fuel h : as_val_val_destroy (S fuel) None h = URet (None, h).
Proof. done. Qed.

Lemma destroy_destroys fuel : destroys (Z.of_nat fuel) (as_val_val_destroy fuel).
Proof.
  induction fuel as [|fuel IH]; intros R h a Hc HR Hn; [pose proof (alive_nonneg h); lia|].
  destruct (held_there _ _ _ Hc HR) as [o Ha]. cbn [as_val_val_destroy]. rewrite Ha.
  destruct (constants !! a) as [k|] eqn:Hk.
  { rewrite (constant_there _ _ Hc a k Hk) in Ha. simplify_eq. destruct (constant_dead a o Hk) as [-> _]. simpl.
    exists (Some a), h. split_and!; [done| |apply shrinks_refl].
    apply (counted_constant R _ _ a Hc); [by rewrite Hk| |]; unfold less.
    - intros b Hb. rewrite occ_cons, decide_False, occ_nil by done. lia.
    - rewrite occ_cons, decide_True, occ_nil by done. lia. }
  pose proof (held_counts _ _ _ _ Hc HR Hk Ha) as Hpos. destruct (object_counted _ _ Hc a o Hk Ha) as [Hcnt Hmax].
  destruct (Z.eqb_spec (o_count o) 0) as [?|_]; [lia|]. cbn [set_count o_count].
  assert (u32 (o_count o - 1) = o_count o - 1) as -> by (apply Z.mod_small; lia).
  destruct (Z.eqb_spec (o_count o - 1) 0) as [H1|H1].
  - assert (o_count o = 1) as Ho by lia. rewrite H1.
    destruct (counted_last _ _ _ _ Hc HR Hk Ha Ho) as (Hc1 & _ & Hin & Hself).
    set (h1 := <[a := set_count 0 o]> h) in *.
    assert (alive h1 = alive h - 1) as Hal. { unfold h1. rewrite (alive_update _ _ _ _ Ha), Ho. simpl. lia. }
    assert (0 < alive h) by (by eapply alive_pos).
    destruct fuel as [|fuel]; [lia|].
    unfold as_val_destroy_callbacks. cbn [set_count o_data].
    destruct (each_destroyed _ _ (pointers (o_data o)) IH (destroy_null fuel) _ h1 Hc1) as (h2 & Hd & Hc2 & Hs2).
    { intros b. unfold more, less. fold (targets (o_data o)). rewrite occ_cons, occ_nil.
      pose proof (held_nonneg _ _ Hc b). pose proof (occ_nonneg b (targets (o_data o))). case_decide; subst; lia. }
    { lia. }
    change (mk_object (o_data o) (o_free o) 0) with (set_count 0 o). fold h1. rewrite Hd. cbn [ubind].
    assert (h2 !! a = Some (set_count 0 o)) as Ha2. { apply (shrinks_dead _ _ Hs2); [apply lookup_insert_eq|done]. }
    destruct (buried _ _ _ _ Hc2 Hk Ha2) as (Hc3 & Hal3 & Hsame & Hgone). cbv zeta in *.
    cbn [set_count o_free]. eexists _, _. split; [done|]. split.
    { eapply counted_heap_ext; [|exact Hc3]. intros b. unfold more, less, targets. lia. }
    exact (shrinks_buried _ _ _ _ _ Ha Hpos Hs2 Hal3 Hsame Hgone).
  - exists (Some a), (<[a := set_count (o_count o - 1) o]> h). split; [done|]. split.
    { apply counted_decrement; done || lia. }
    apply shrinks_decrement; done || lia.
Qed.

(** References nest at most as deep as there are objects. *)
Definition as_val_destroy (v : option Z) (h : heap) : ures (option Z * heap) := as_val_val_destroy (S (size h)) v h.

Lemma alive_size h : alive h <= Z.of_nat (size h).
Proof.
  unfold alive. induction h as [|a o h Ha IH] using map_ind; [by rewrite msum_empty|].
  rewrite msum_insert_new, map_size_insert_None by done. case_match; lia.
Qed.

Lemma destroy_held R h a : counted_heap R h -> 0 < R a ->
  exists v h', as_val_destroy (Some a) h = URet (v, h') /\ counted_heap (less R [a]) h' /\ shrinks h h'.
Proof. intros Hc HR. apply destroy_destroys; [done..|]. pose proof (alive_size h). lia. Qed.

(** ** What users do *)

(** The types of values whose references are counted. *)
Definition counts (d : as_data) : bool :=
  match d with D_UNKNOWN | D_NIL | D_BOOLEAN _ => false | _ => true end.

(** A new object takes over the references of its data, at an address that is not in use. *)
Lemma counted_new R h a d free : counted_heap R h -> constants !! a = None ->
  (forall o, h !! a = Some o -> o_count o = 0) -> (forall b, occ b (targets d) <= R b) ->
  counted_heap (more (less R (targets d)) [a]) (<[a := as_val_cons d free]> h).
Proof.
  intros Hc Hk Hdead Hd. pose proof (held_nonneg _ _ Hc) as Hn.
  assert (forall b, inside (<[a := as_val_cons d free]> h) b = inside h b + occ b (targets d)) as Hin.
  { intros b. destruct (h !! a) as [o|] eqn:Ha.
    - rewrite (inside_update h a o) by done. unfold refers. rewrite (Hdead o eq_refl). simpl. lia.
    - unfold inside. rewrite msum_insert_new by done. unfold refers at 1. simpl. lia. }
  assert (R a + inside h a = 0) as H0.
  { destruct (h !! a) as [o|] eqn:Ha; [|by apply (absent_unheld _ _ Hc)].
    rewrite <- (Hdead o eq_refl). symmetry. by apply (object_counted _ _ Hc). }
  split.
  - intros b. unfold more, less. specialize (Hd b). pose proof (occ_nonneg b [a]). lia.
  - intros b ob Hb. rewrite lookup_insert_ne by congruence. by apply (constant_there _ _ Hc).
  - intros b ob Hkb Hb. rewrite Hin. unfold more, less. rewrite occ_cons, occ_nil.
    apply lookup_insert_Some in Hb as [[<- <-]|[Hne Hb]].
    + rewrite decide_True by done. cbn [as_val_cons o_count]. lia.
    + rewrite decide_False by done. destruct (object_counted _ _ Hc b ob Hkb Hb). lia.
  - intros b Hb. apply lookup_insert_None in Hb as [Hb Hne]. rewrite Hin. unfold more, less.
    rewrite occ_cons, occ_nil, decide_False by done. pose proof (absent_unheld _ _ Hc b Hb). lia.
Qed.

(** A container is changed: references go between its user and its inside. *)
Lemma counted_update R h a o d : counted_heap R h -> h !! a = Some o -> 0 < o_count o ->
  (forall b, occ b (targets d) <= R b + occ b (targets (o_data o))) ->
  counted_heap (less (more R (targets (o_data o))) (targets d)) (<[a := set_data d o]> h).
Proof.
  intros Hc Ha Ho Hd. pose proof (held_nonneg _ _ Hc) as Hn.
  assert (constants !! a = None) as Hk.
  { destruct (constants !! a) as [k|] eqn:Hk; [|done]. pose proof (constant_there _ _ Hc a k Hk).
    destruct (constant_dead a k Hk). simplify_eq. lia. }
  assert (forall b, inside (<[a := set_data d o]> h) b = inside h b - occ b (targets (o_data o)) + occ b (targets d)) as Hin.
  { intros b. rewrite (inside_update h a o) by done. unfold refers. cbn [set_data o_count o_data].
    destruct (Z.ltb_spec 0 (o_count o)); lia. }
  split.
  - intros b. unfold more, less. specialize (Hd b). lia.
  - intros b ob Hb. rewrite lookup_insert_ne by congruence. by apply (constant_there _ _ Hc).
  - intros b ob Hkb Hb. rewrite Hin. unfold more, less. apply lookup_insert_Some in Hb as [[<- <-]|[Hne Hb]].
    + destruct (object_counted _ _ Hc a o Hk Ha). cbn [set_data o_count]. lia.
    + destruct (object_counted _ _ Hc b ob Hkb Hb). lia.
  - intros b Hb. apply lookup_insert_None in Hb as [Hb Hne]. rewrite Hin. unfold more, less.
    pose proof (absent_unheld _ _ Hc b Hb). lia.
Qed.

(** Whoever likes may point to a constant. *)
Lemma counted_point R h k : counted_heap R h -> is_Some (constants !! k) -> counted_heap (more R [k]) h.
Proof.
  intros Hc Hk. apply (counted_constant R _ _ k Hc Hk); unfold more.
  - intros b Hb. rewrite occ_cons, decide_False, occ_nil by done. lia.
  - pose proof (held_nonneg _ _ Hc k). pose proof (occ_nonneg k [k]). lia.
Qed.

(** Whoever sees a value may reserve it. *)
Lemma counted_reserve R h a o : counted_heap R h -> h !! a = Some o ->
  (constants !! a = None -> 0 < R a + inside h a < 2 ^ 32 - 1 /\ counts (o_data o) = true) ->
  exists h', as_val_val_reserve (Some a) h = URet (Some a, h') /\ counted_heap (more R [a]) h'
  /\ h' = <[a := set_count (if constants !! a is Some _ then 0 else o_count o + 1) o]> h.
Proof.
  intros Hc Ha Ht. unfold as_val_val_reserve. rewrite Ha. eexists. split; [done|].
  destruct (constants !! a) as [k|] eqn:Hk.
  - pose proof (constant_there _ _ Hc a k Hk). simplify_eq.
    assert (as_val_reserve_callbacks (o_data o) o = o) as ->.
    { unfold constants in Hk. repeat (apply lookup_insert_Some in Hk as [[_ <-]|[_ Hk]]; [done|]).
      by apply lookup_singleton_Some in Hk as [_ <-]. }
    split; [|by destruct (constant_dead a o Hk) as [<- _]; destruct o].
    rewrite insert_id by done. by apply counted_point.
  - destruct (object_counted _ _ Hc a o Hk Ha) as [Hcnt _]. destruct (Ht eq_refl) as [Hmax _].
    assert (as_val_reserve_callbacks (o_data o) o = set_count (o_count o + 1) o) as ->.
    { destruct (Ht eq_refl) as [_ Htrue]. assert (u32 (o_count o + 1) = o_count o + 1) as Hu by (apply Z.mod_small; lia).
      destruct (o_data o); try done; cbn [as_val_reserve_callbacks]; unfold as_val_reserve_count; by rewrite Hu. }
    split; [|done]. assert (forall b, inside (<[a := set_count (o_count o + 1) o]> h) b = inside h b) as Hin.
    { intros b. rewrite (inside_update h a o) by done. unfold refers. cbn [set_count o_count o_data].
      destruct (Z.ltb_spec 0 (o_count o)), (Z.ltb_spec 0 (o_count o + 1)); lia. }
    split.
    + intros b. unfold more. pose proof (held_nonneg _ _ Hc b). pose proof (occ_nonneg b [a]). lia.
    + intros b ob Hb. rewrite lookup_insert_ne by congruence. by apply (constant_there _ _ Hc).
    + intros b ob Hkb Hb. rewrite Hin. unfold more. rewrite occ_cons, occ_nil. apply lookup_insert_Some in Hb as [[<- <-]|[Hne Hb]].
      * rewrite decide_True by done. cbn [set_count o_count]. lia.
      * rewrite decide_False by done. destruct (object_counted _ _ Hc b ob Hkb Hb). lia.
    + intros b Hb. apply lookup_insert_None in Hb as [Hb Hne]. rewrite Hin. unfold more. rewrite occ_cons, occ_nil, decide_False by done.
      pose proof (absent_unheld _ _ Hc b Hb). lia.
Qed.

(** What users of the library may do with values, and the references [R] they then have:
    make new ones (in memory that holds no live value), handing over the references of
    their data; change the data of a container, handing references in and taking them
    out; point to the constants; reserve a value they see, as long as its counter does not
    wrap; and destroy a reference they have. *)
Inductive uses : (Z -> Z) -> heap -> Prop :=
| U_start : uses (fun _ => 0) constants
| U_new R h a d free : uses R h -> constants !! a = None -> (forall o, h !! a = Some o -> o_count o = 0) ->
    (forall b, occ b (targets d) <= R b) -> uses (more (less R (targets d)) [a]) (<[a := as_val_cons d free]> h)
| U_change R h a o d : uses R h -> h !! a = Some o -> 0 < o_count o ->
    (forall b, occ b (targets d) <= R b + occ b (targets (o_data o))) ->
    uses (less (more R (targets (o_data o))) (targets d)) (<[a := set_data d o]> h)
| U_constant R h k : uses R h -> is_Some (constants !! k) -> uses (more R [k]) h
| U_reserve R h a o v h' : uses R h -> h !! a = Some o ->
    (constants !! a = None -> 0 < R a + inside h a < 2 ^ 32 - 1 /\ counts (o_data o) = true) ->
    as_val_val_reserve (Some a) h = URet (v, h') -> uses (more R [a]) h'
| U_destroy R h a v h' : uses R h -> 0 < R a -> as_val_destroy (Some a) h = URet (v, h') -> uses (less R [a]) h'.

(** Memory of the allocator that holds no live value has been freed. *)
Definition swept (h : heap) : Prop := forall a o, h !! a = Some o -> o_count o = 0 -> o_free o = false.

Lemma constants_inside a : inside constants a = 0.
Proof.
  unfold inside, constants. rewrite !msum_insert_new by done. rewrite <- insert_empty, msum_insert_new, msum_empty by done. done.
Qed.

Lemma constants_counted : counted_heap (fun _ => 0) constants.
Proof.
  split; intros.
  - lia.
  - done.
  - congruence.
  - by rewrite constants_inside.
Qed.

Lemma uses_counted R h : uses R h -> counted_heap R h /\ swept h.
Proof.
  induction 1 as [|R h a d free _ [Hc Hs] Hk Hdead Hd|R h a o d _ [Hc Hs] Ha Ho Hd|R h k _ [Hc Hs] Hk|R h a o v h' _ [Hc Hs] Ha Ht Hr
    |R h a v h' _ [Hc Hs] HR Hr].
  - split; [apply constants_counted|]. intros a o Ha _. unfold constants in Ha.
    repeat (apply lookup_insert_Some in Ha as [[_ <-]|[_ Ha]]; [done|]). by apply lookup_singleton_Some in Ha as [_ <-].
  - split; [by apply counted_new|]. intros b ob Hb H0. apply lookup_insert_Some in Hb as [[<- <-]|[_ Hb]]; [done|eauto].
  - split; [by apply counted_update|]. intros b ob Hb H0. apply lookup_insert_Some in Hb as [[<- <-]|[_ Hb]]; [|eauto].
    cbn in H0. lia.
  - split; [|done]. by apply counted_point.
  - destruct (counted_reserve R h a o Hc Ha Ht) as (h1 & Hr' & Hc1 & Hh1). rewrite Hr in Hr'. simplify_eq.
    split; [done|]. intros b ob Hb H0. apply lookup_insert_Some in Hb as [[<- <-]|[_ Hb]]; [|eauto].
    cbn in *. destruct (constants !! a) as [k|] eqn:Hk.
    + pose proof (constant_there _ _ Hc a k Hk). simplify_eq. by destruct (constant_dead a o Hk); eauto.
    + destruct (object_counted _ _ Hc a o Hk Ha). destruct (Ht eq_refl). lia.
  - destruct (destroy_held R h a Hc HR) as (v1 & h1 & Hr' & Hc1 & Hs1). rewrite Hr in Hr'. simplify_eq.
    split; [done|]. intros b ob Hb H0. destruct (o_free ob) eqn:Hf; [|done].
    pose proof (shrinks_freed _ _ Hs1 b ob Hb H0 Hf) as Hb'. rewrite <- Hf. by eapply Hs.
Qed.

(** References that go around in a circle keep one another alive; without circles some
    rank increases from every object to the ones that refer to it. *)
Definition acyclic (h : heap) : Prop :=
  exists rank : Z -> nat, forall a o b, h !! a = Some o -> 0 < o_count o -> b ∈ targets (o_data o) -> (rank b < rank a)%nat.

Lemma inside_pos h a : 0 < inside h a -> exists p o, h !! p = Some o /\ 0 < o_count o /\ a ∈ targets (o_data o).
Proof.
  unfold inside. induction h as [|p o h Hp IH] using map_ind; [by rewrite msum_empty|]. rewrite msum_insert_new by done.
  intros Hpos. destruct (decide (0 < refers a o)) as [Hr|Hr].
  - exists p, o. rewrite lookup_insert_eq. unfold refers in Hr. destruct (Z.ltb_spec 0 (o_count o)); [|lia].
    split_and!; [done..|]. by apply occ_in.
  - destruct IH as (q & oq & Hq & Hrest); [lia|]. exists q, oq. rewrite lookup_insert_ne by congruence. done.
Qed.

Lemma rank_bound (h : heap) (rank : Z -> nat) : exists B, forall a o, h !! a = Some o -> (rank a <= B)%nat.
Proof.
  induction h as [|p o h Hp [B IH]] using map_ind; [exists O; intros a o Ha; by rewrite lookup_empty in Ha|].
  exists (B + rank p)%nat. intros a oa Ha. apply lookup_insert_Some in Ha as [[<- _]|[_ Ha]]; [lia|]. specialize (IH a oa Ha). lia.
Qed.

Lemma unheld_dead R h : counted_heap R h -> (forall a, constants !! a = None -> R a = 0) -> acyclic h ->
  forall a o, h !! a = Some o -> o_count o = 0.
Proof.
  intros Hc HR [rank Hrank] . destruct (rank_bound h rank) as [B HB].
  assert (forall n a o, (B - rank a <= n)%nat -> h !! a = Some o -> ~ 0 < o_count o) as Hnone.
  { induction n as [|n IH]; intros a o Hn Ha Ho.
    all: destruct (constants !! a) as [k|] eqn:Hk.
    1,3: pose proof (constant_there _ _ Hc a k Hk); destruct (constant_dead a k Hk); simplify_eq; lia.
    all: destruct (object_counted _ _ Hc a o Hk Ha); rewrite HR in * by done.
    all: destruct (inside_pos h a) as (p & op & Hp & Hop & Hin); [lia|].
    all: pose proof (Hrank p op a Hp Hop Hin); pose proof (HB p op Hp).
    - lia.
    - apply (IH p op); [lia|done..]. }
  intros a o Ha. pose proof (Hnone _ a o (Nat.le_refl _) Ha).
  destruct (constants !! a) as [k|] eqn:Hk.
  - pose proof (constant_there _ _ Hc a k Hk). destruct (constant_dead a k Hk). congruence.
  - destruct (object_counted _ _ Hc a o Hk Ha). pose proof (held_nonneg _ _ Hc a). pose proof (inside_nonneg h a). lia.
Qed.


(** A pair of an integer and the nil: destroying it frees both objects. *)
Definition sample_pair : heap := <[11 := as_pair_new (Some 10) (Some 1)]> (<[10 := as_integer_new 7]> constants).


(** The counter of a boolean is not a counter: reserving a boolean does not count, but
    destroying it does, so that the first holder who destroys it frees it for the second
    one, whose call reads freed memory. *)
Theorem boolean_not_counted b :
  let h := <[10 := as_boolean_new b]> constants in
  as_val_val_reserve (Some 10) h = URet (Some 10, h)
  /\ as_val_destroy (Some 10) h = URet (None, constants)
  /\ as_val_destroy (Some 10) constants = UB.
Proof. destruct b; vm_compute; done. Qed.
