(* ===== verification/ByteOrder.v ===== *)
(** * Byte order and the protocol headers

    Models [modules/common/src/include/citrusleaf/cf_byte_order.h] and
    [src/main/aerospike/as_proto.c] with its header.  The byte order of the host
    is a parameter: the code runs on the little-endian Linux targets and on the
    big-endian PowerPC and HP-UX targets, and the theorems hold on both. *)

From S2P Require Import Prelude.

Inductive endian := LittleEndian | BigEndian.

#[export] Instance endian_eq_dec : EqDecision endian.
Proof. solve_decision. Defined.

(** The object representation of an [n]-byte unsigned integer, and its value. *)
Definition mem_of (e : endian) (n : nat) (z : Z) : list Z :=
  match e with
  | BigEndian => be_bytes n z
  | LittleEndian => rev (be_bytes n z)
  end.

Definition of_mem (e : endian) (l : list Z) : Z :=
  match e with
  | BigEndian => be_val l
  | LittleEndian => be_val (rev l)
  end.

(** ** The swap macros *)

Definition my_swab16 (x : Z) : Z :=
  u16 (Z.lor (Z.shiftl (Z.land (u16 x) 0x00ff) 8)
             (Z.shiftr (Z.land (u16 x) 0xff00) 8)).

Definition my_swab32 (x : Z) : Z :=
  u32 (Z.lor (Z.lor (Z.lor
    (Z.shiftl (Z.land (u32 x) 0x000000ff) 24)
    (Z.shiftl (Z.land (u32 x) 0x0000ff00) 8))
    (Z.shiftr (Z.land (u32 x) 0x00ff0000) 8))
    (Z.shiftr (Z.land (u32 x) 0xff000000) 24)).

Definition my_swab64 (x : Z) : Z :=
  u64 (Z.lor (Z.lor (Z.lor (Z.lor (Z.lor (Z.lor (Z.lor
    (u64 (Z.shiftl (Z.land (u64 x) 0x00000000000000ff) 56))
    (u64 (Z.shiftl (Z.land (u64 x) 0x000000000000ff00) 40)))
    (u64 (Z.shiftl (Z.land (u64 x) 0x0000000000ff0000) 24)))
    (u64 (Z.shiftl (Z.land (u64 x) 0x00000000ff000000) 8)))
    (u64 (Z.shiftr (Z.land (u64 x) 0x000000ff00000000) 8)))
    (u64 (Z.shiftr (Z.land (u64 x) 0x0000ff0000000000) 24)))
    (u64 (Z.shiftr (Z.land (u64 x) 0x00ff000000000000) 40)))
    (u64 (Z.shiftr (Z.land (u64 x) 0xff00000000000000) 56))).

(** [cf_swap_to_be16] ... [cf_swap_from_be64]: the identity on a big-endian
    host, the swap on a little-endian one. *)
Definition cf_swap_to_be16 (e : endian) (x : Z) : Z :=
  match e with BigEndian => u16 x | LittleEndian => my_swab16 x end.
Definition cf_swap_to_be32 (e : endian) (x : Z) : Z :=
  match e with BigEndian => u32 x | LittleEndian => my_swab32 x end.
Definition cf_swap_to_be64 (e : endian) (x : Z) : Z :=
  match e with BigEndian => u64 x | LittleEndian => my_swab64 x end.
Definition cf_swap_from_be16 (e : endian) (x : Z) : Z := cf_swap_to_be16 e x.
Definition cf_swap_from_be32 (e : endian) (x : Z) : Z := cf_swap_to_be32 e x.
Definition cf_swap_from_be64 (e : endian) (x : Z) : Z := cf_swap_to_be64 e x.

(** [cf_swap_to_le16] ... : the swap on a big-endian host. *)
Definition cf_swap_to_le16 (e : endian) (x : Z) : Z :=
  match e with BigEndian => my_swab16 x | LittleEndian => u16 x end.
Definition cf_swap_to_le32 (e : endian) (x : Z) : Z :=
  match e with BigEndian => my_swab32 x | LittleEndian => u32 x end.
Definition cf_swap_to_le64 (e : endian) (x : Z) : Z :=
  match e with BigEndian => my_swab64 x | LittleEndian => u64 x end.

(** The stores and loads of the code: an assignment of [cf_swap_to_be32(x)]
    through a [uint32_t] pointer, and [cf_swap_from_be32] of such a load. *)
Definition put_be16 (e : endian) (x : Z) : list Z := mem_of e 2 (cf_swap_to_be16 e x).
Definition put_be32 (e : endian) (x : Z) : list Z := mem_of e 4 (cf_swap_to_be32 e x).
Definition put_be64 (e : endian) (x : Z) : list Z := mem_of e 8 (cf_swap_to_be64 e x).
Definition get_be16 (e : endian) (l : list Z) : Z := cf_swap_from_be16 e (of_mem e l).
Definition get_be32 (e : endian) (l : list Z) : Z := cf_swap_from_be32 e (of_mem e l).
Definition get_be64 (e : endian) (l : list Z) : Z := cf_swap_from_be64 e (of_mem e l).

(** ** The protocol header: [as_proto]

    [version] and [type] are bytes, [sz] is a 48-bit bit-field in host order. *)
Record as_proto := { proto_version : Z; proto_type : Z; proto_sz : Z }.

(** The 8 bytes of the structure, and the structure read from 8 bytes. *)
Definition as_proto_image (e : endian) (p : as_proto) : list Z :=
  [proto_version p; proto_type p] ++ mem_of e 6 (proto_sz p).

Definition as_proto_of_bytes (e : endian) (l : list Z) : option as_proto :=
  match l with
  | v :: t :: sz =>
      if decide (length sz = 6%nat) then
        Some {| proto_version := v; proto_type := t; proto_sz := of_mem e sz |}
      else None
  | _ => None
  end.

Definition as_proto_swap_to_be (e : endian) (p : as_proto) : as_proto :=
  let version := proto_version p in
  let type := proto_type p in
  let p0 := {| proto_version := 0; proto_type := 0; proto_sz := proto_sz p |} in
  let word := of_mem e (as_proto_image e p0) in
  {| proto_version := version; proto_type := type;
     proto_sz := cf_swap_to_be64 e word mod 2 ^ 48 |}.

Definition as_proto_swap_from_be (e : endian) (p : as_proto) : as_proto :=
  let version := proto_version p in
  let type := proto_type p in
  let p0 := {| proto_version := 0; proto_type := 0; proto_sz := proto_sz p |} in
  let word := of_mem e (as_proto_image e p0) in
  {| proto_version := version; proto_type := type;
     proto_sz := cf_swap_from_be64 e word mod 2 ^ 48 |}.

(** ** The message header: [as_msg], 22 packed bytes *)
Record as_msg := {
  header_sz : Z; info1 : Z; info2 : Z; info3 : Z; unused : Z; result_code : Z;
  generation : Z; record_ttl : Z; transaction_ttl : Z;
  n_fields : Z; n_ops : Z
}.

(** The structure overlaid on 22 received bytes (no swap yet). *)
Definition as_msg_of_bytes (e : endian) (l : list Z) : option as_msg :=
  match l with
  | [h; a1; a2; a3; un; rc; g0; g1; g2; g3; r0; r1; r2; r3; t0; t1; t2; t3; f0; f1; o0; o1] =>
      Some {| header_sz := h; info1 := a1; info2 := a2; info3 := a3;
              unused := un; result_code := rc;
              generation := of_mem e [g0; g1; g2; g3];
              record_ttl := of_mem e [r0; r1; r2; r3];
              transaction_ttl := of_mem e [t0; t1; t2; t3];
              n_fields := of_mem e [f0; f1]; n_ops := of_mem e [o0; o1] |}
  | _ => None
  end.

Definition as_msg_swap_header_from_be (e : endian) (m : as_msg) : as_msg :=
  {| header_sz := header_sz m; info1 := info1 m; info2 := info2 m; info3 := info3 m;
     unused := unused m; result_code := result_code m;
     generation := cf_swap_from_be32 e (generation m);
     record_ttl := cf_swap_from_be32 e (record_ttl m);
     transaction_ttl := cf_swap_from_be32 e (transaction_ttl m);
     n_fields := cf_swap_from_be16 e (n_fields m);
     n_ops := cf_swap_from_be16 e (n_ops m) |}.

(** ** Byte reversal *)

Lemma be_bytes_shiftr n z :
  be_bytes n z = map (fun k => u8 (Z.shiftr z (8 * Z.of_nat k))) (rev (seq 0 n)).
Proof.
  induction n as [|n IH]; [done|].
  rewrite seq_S, rev_app_distr. simpl. rewrite <- IH. f_equal.
  rewrite Z.shiftr_div_pow2 by lia. f_equal. f_equal.
  change 256 with (2 ^ 8). by rewrite <- Z.pow_mul_r by lia.
Qed.

(** Bit [i] of byte [k]. *)
Lemma u8_shiftr_ext z w k j :
  (forall i, 0 <= i < 8 -> Z.testbit z (i + 8 * k) = Z.testbit w (i + 8 * j)) ->
  0 <= k -> 0 <= j -> u8 (Z.shiftr z (8 * k)) = u8 (Z.shiftr w (8 * j)).
Proof.
  intros Hb Hk Hj. apply Z.bits_inj'. intros i Hi. unfold u8.
  destruct (decide (i < 8)).
  - rewrite !Z.mod_pow2_bits_low, !Z.shiftr_spec by lia. apply Hb. lia.
  - by rewrite !Z.mod_pow2_bits_high by lia.
Qed.

(** Decides one bit of a swap at a concrete position: pushes [Z.testbit] to the
    leaves and evaluates it on the masks. *)
Ltac swab_bit :=
  repeat match goal with
  | |- context [Z.testbit (Z.lor ?a ?b) ?i] => rewrite (Z.lor_spec a b i)
  | |- context [Z.testbit (Z.land ?a ?b) ?i] => rewrite (Z.land_spec a b i)
  | |- context [Z.testbit (Z.shiftl ?a ?n) ?i] => rewrite (Z.shiftl_spec a n i) by lia
  | |- context [Z.testbit (Z.shiftr ?a ?n) ?i] => rewrite (Z.shiftr_spec a n i) by lia
  | |- context [Z.testbit (?a mod 2 ^ ?n) ?i] =>
      first [ rewrite (Z.mod_pow2_bits_low a n i) by lia
            | rewrite (Z.mod_pow2_bits_high a n i) by lia ]
  end;
  repeat match goal with
  | |- context [Z.testbit (Z.pos ?p) ?i] =>
      let b := eval vm_compute in (Z.testbit (Z.pos p) i) in
      change (Z.testbit (Z.pos p) i) with b
  end;
  rewrite ?andb_false_r, ?andb_true_r, ?orb_false_r, ?orb_false_l; reflexivity.

Ltac swab_bytes :=
  rewrite !be_bytes_shiftr; simpl seq; simpl rev; simpl map;
  repeat match goal with |- _ :: _ = _ :: _ => apply (f_equal2 cons) end;
  try reflexivity; apply u8_shiftr_ext; try lia; intros i Hi;
  assert (i = 0 \/ i = 1 \/ i = 2 \/ i = 3 \/ i = 4 \/ i = 5 \/ i = 6 \/ i = 7)
    as Hc by lia; clear Hi; destruct_or!; subst i; swab_bit.

Lemma my_swab16_bytes x : be_bytes 2 (my_swab16 x) = rev (be_bytes 2 x).
Proof. unfold my_swab16, u16. swab_bytes. Qed.

Lemma my_swab32_bytes x : be_bytes 4 (my_swab32 x) = rev (be_bytes 4 x).
Proof. unfold my_swab32, u32. swab_bytes. Qed.

Lemma my_swab64_bytes x : be_bytes 8 (my_swab64 x) = rev (be_bytes 8 x).
Proof. unfold my_swab64, u64. swab_bytes. Qed.

(** ** Stores and loads, whatever the host *)

(** What every width needs: a swap that reverses the bytes and stays in range. *)
Lemma swab_put e n (swab : Z -> Z) (id : Z -> Z) x :
  (forall z, be_bytes n (swab z) = rev (be_bytes n z)) ->
  (forall z, id z = z mod 256 ^ Z.of_nat n) ->
  mem_of e n (match e with BigEndian => id x | LittleEndian => swab x end) = be_bytes n x.
Proof.
  intros Hs Hi. destruct e; simpl.
  - by rewrite Hs, rev_involutive.
  - rewrite Hi. by apply be_bytes_mod.
Qed.

Lemma swab_get e n (swab : Z -> Z) (id : Z -> Z) l :
  (forall z, be_bytes n (swab z) = rev (be_bytes n z)) ->
  (forall z, swab z = swab z mod 256 ^ Z.of_nat n) ->
  (forall z, id z = z mod 256 ^ Z.of_nat n) ->
  length l = n -> Forall is_byte l ->
  match e with BigEndian => id (of_mem e l) | LittleEndian => swab (of_mem e l) end = be_val l.
Proof.
  intros Hs Hr Hi <- Hb. destruct e; simpl.
  - rewrite Hr, <- be_val_be_bytes, Hs. rewrite <- (length_rev l).
    rewrite be_bytes_be_val by by apply Forall_rev.
    by rewrite rev_involutive.
  - rewrite Hi, Z.mod_small; [done|]. by apply be_val_range.
Qed.

Lemma put_be16_eq e x : put_be16 e x = be_bytes 2 x.
Proof. apply (swab_put e 2 my_swab16 u16); [apply my_swab16_bytes|done]. Qed.
Lemma put_be32_eq e x : put_be32 e x = be_bytes 4 x.
Proof. apply (swab_put e 4 my_swab32 u32); [apply my_swab32_bytes|done]. Qed.
Lemma put_be64_eq e x : put_be64 e x = be_bytes 8 x.
Proof. apply (swab_put e 8 my_swab64 u64); [apply my_swab64_bytes|done]. Qed.

Lemma get_be16_eq e l : length l = 2%nat -> Forall is_byte l -> get_be16 e l = be_val l.
Proof.
  apply (swab_get e 2 my_swab16 u16); [apply my_swab16_bytes| |done].
  intros. unfold my_swab16, u16. by rewrite Z.mod_mod.
Qed.
Lemma get_be32_eq e l : length l = 4%nat -> Forall is_byte l -> get_be32 e l = be_val l.
Proof.
  apply (swab_get e 4 my_swab32 u32); [apply my_swab32_bytes| |done].
  intros. unfold my_swab32, u32. by rewrite Z.mod_mod.
Qed.
Lemma get_be64_eq e l : length l = 8%nat -> Forall is_byte l -> get_be64 e l = be_val l.
Proof.
  apply (swab_get e 8 my_swab64 u64); [apply my_swab64_bytes| |done].
  intros. unfold my_swab64, u64. by rewrite Z.mod_mod.
Qed.

Lemma get_be16_be_bytes e x : get_be16 e (be_bytes 2 x) = u16 x.
Proof.
  rewrite get_be16_eq by auto using be_bytes_length with machine.
  apply be_val_be_bytes.
Qed.
Lemma get_be32_be_bytes e x : get_be32 e (be_bytes 4 x) = u32 x.
Proof.
  rewrite get_be32_eq by auto using be_bytes_length with machine.
  apply be_val_be_bytes.
Qed.
Lemma get_be64_be_bytes e x : get_be64 e (be_bytes 8 x) = u64 x.
Proof.
  rewrite get_be64_eq by auto using be_bytes_length with machine.
  apply be_val_be_bytes.
Qed.

Create Rewrite HintDb wire.
#[export] Hint Rewrite put_be16_eq put_be32_eq put_be64_eq
  get_be16_be_bytes get_be32_be_bytes get_be64_be_bytes : wire.

Lemma mem_of_bytes e n z : Forall is_byte (mem_of e n z).
Proof. destruct e; simpl; [apply Forall_rev|]; auto with machine. Qed.

Lemma mem_of_length e n z : length (mem_of e n z) = n.
Proof. destruct e; simpl; by rewrite ?length_rev, be_bytes_length. Qed.

Lemma of_mem_mem_of e n z : of_mem e (mem_of e n z) = z mod 256 ^ Z.of_nat n.
Proof. destruct e; simpl; rewrite ?rev_involutive; apply be_val_be_bytes. Qed.

Lemma mem_of_of_mem e l : Forall is_byte l -> mem_of e (length l) (of_mem e l) = l.
Proof.
  intros Hl. destruct e; simpl.
  - rewrite <- (length_rev l), be_bytes_be_val by by apply Forall_rev.
    apply rev_involutive.
  - by apply be_bytes_be_val.
Qed.

(** Swapping the representation of an [n]-byte integer gives its network form. *)
Lemma mem_of_be_val e n s : mem_of e n (be_val (mem_of e n s)) = be_bytes n s.
Proof.
  assert (forall l, length l = n -> Forall is_byte l -> be_bytes n (be_val l) = l) as H.
  { intros l <-. apply be_bytes_be_val. }
  destruct e; simpl; rewrite H; rewrite ?length_rev, ?rev_involutive;
    auto using be_bytes_length, Forall_rev with machine.
Qed.

(** ** The headers *)

Lemma be_val_zeros_l l : be_val ([0; 0] ++ l) = be_val l.
Proof. simpl. by rewrite !be_val_cons, !Z.mul_0_l. Qed.

(** The word read through the [uint64_t] pointer is the big-endian value of the
    six size bytes, on both hosts. *)
Lemma proto_word e sz :
  cf_swap_from_be64 e
    (of_mem e (as_proto_image e {| proto_version := 0; proto_type := 0; proto_sz := sz |}))
  = be_val (mem_of e 6 sz).
Proof.
  change (get_be64 e ([0; 0] ++ mem_of e 6 sz) = be_val (mem_of e 6 sz)).
  rewrite get_be64_eq.
  - apply be_val_zeros_l.
  - by rewrite length_app, mem_of_length.
  - solve_bytes. apply mem_of_bytes.
Qed.

Lemma be_val_mem_of_small e sz : be_val (mem_of e 6 sz) mod 2 ^ 48 = be_val (mem_of e 6 sz).
Proof.
  apply Z.mod_small. pose proof (be_val_range (mem_of e 6 sz) (mem_of_bytes e 6 sz)) as H.
  by rewrite mem_of_length in H.
Qed.

Lemma as_proto_received e v t s :
  0 <= s < 2 ^ 48 ->
  as_proto_swap_from_be e <$> as_proto_of_bytes e (v :: t :: be_bytes 6 s)
  = Some {| proto_version := v; proto_type := t; proto_sz := s |}.
Proof.
  intros Hs. pose proof (mem_of_of_mem e (be_bytes 6 s)) as Hm.
  pose proof (be_val_be_bytes 6 s) as Hv. rewrite Z.mod_small in Hv by done.
  pose proof (be_bytes_length 6 s) as Hl. rewrite Hl in Hm.
  specialize (Hm (be_bytes_bytes 6 s)). revert Hm Hv Hl. generalize (be_bytes 6 s) as bb.
  intros bb Hm Hv Hl. unfold as_proto_of_bytes. rewrite decide_True by done.
  simpl. unfold as_proto_swap_from_be. simpl proto_sz.
  by rewrite proto_word, be_val_mem_of_small, Hm, Hv.
Qed.

Lemma as_proto_sent e v t s :
  as_proto_image e (as_proto_swap_to_be e {| proto_version := v; proto_type := t; proto_sz := s |})
  = v :: t :: be_bytes 6 s.
Proof.
  unfold as_proto_swap_to_be. simpl proto_sz. change cf_swap_to_be64 with cf_swap_from_be64.
  rewrite proto_word, be_val_mem_of_small.
  change (v :: t :: mem_of e 6 (be_val (mem_of e 6 s)) = v :: t :: be_bytes 6 s).
  by rewrite mem_of_be_val.
Qed.

(** The 22 bytes of a message header on the wire. *)
Definition msg_wire (m : as_msg) : list Z :=
  [header_sz m; info1 m; info2 m; info3 m; unused m; result_code m]
  ++ be_bytes 4 (generation m) ++ be_bytes 4 (record_ttl m) ++ be_bytes 4 (transaction_ttl m)
  ++ be_bytes 2 (n_fields m) ++ be_bytes 2 (n_ops m).

Definition msg_in_range (m : as_msg) : Prop :=
  is_u32 (generation m) /\ is_u32 (record_ttl m) /\ is_u32 (transaction_ttl m)
  /\ 0 <= n_fields m < 65536 /\ 0 <= n_ops m < 65536.

Lemma as_msg_received e m :
  msg_in_range m ->
  as_msg_swap_header_from_be e <$> as_msg_of_bytes e (msg_wire m) = Some m.
Proof.
  destruct m as [h a1 a2 a3 un rc g r t f o]. intros (Hg & Hr & Ht & Hf & Ho); simpl in *.
  f_equal. unfold as_msg_swap_header_from_be; simpl.
  f_equal.
  - exact (eq_trans (get_be32_be_bytes e g) (u32_id g Hg)).
  - exact (eq_trans (get_be32_be_bytes e r) (u32_id r Hr)).
  - exact (eq_trans (get_be32_be_bytes e t) (u32_id t Ht)).
  - exact (eq_trans (get_be16_be_bytes e f) (u16_id f Hf)).
  - exact (eq_trans (get_be16_be_bytes e o) (u16_id o Ho)).
Qed.
