(* ===== verification/Base64.v ===== *)
(** * Base-64 coding of partition bitmaps

    Models [modules/common/src/main/citrusleaf/cf_b64.c] and [cf_b64.h].  The
    partition maps the server sends are base-64 strings; [decode_and_update] of
    [as_partition.c] (file [Partition]) decodes them with [cf_b64_decode]. *)

From S2P Require Import Prelude.

(** ** The tables *)

(** ['A'..'Z', 'a'..'z', '0'..'9', '+', '/'] as character codes. *)
Definition base64_chars : list Z := [
  65; 66; 67; 68; 69; 70; 71; 72; 73; 74; 75; 76; 77; 78; 79; 80;
  81; 82; 83; 84; 85; 86; 87; 88; 89; 90; 97; 98; 99; 100; 101; 102;
  103; 104; 105; 106; 107; 108; 109; 110; 111; 112; 113; 114; 115; 116; 117; 118;
  119; 120; 121; 122; 48; 49; 50; 51; 52; 53; 54; 55; 56; 57; 43; 47].

(** 1 for [true], 0 for [false]. *)
Definition base64_valid_a : list bool := map (Z.eqb 1) [
  0; 0; 0; 0; 0; 0; 0; 0; 0; 0; 0; 0; 0; 0; 0; 0;
  0; 0; 0; 0; 0; 0; 0; 0; 0; 0; 0; 0; 0; 0; 0; 0;
  0; 0; 0; 0; 0; 0; 0; 0; 0; 0; 0; 1; 0; 0; 0; 1;
  1; 1; 1; 1; 1; 1; 1; 1; 1; 1; 0; 0; 0; 0; 0; 0;
  0; 1; 1; 1; 1; 1; 1; 1; 1; 1; 1; 1; 1; 1; 1; 1;
  1; 1; 1; 1; 1; 1; 1; 1; 1; 1; 1; 0; 0; 0; 0; 0;
  0; 1; 1; 1; 1; 1; 1; 1; 1; 1; 1; 1; 1; 1; 1; 1;
  1; 1; 1; 1; 1; 1; 1; 1; 1; 1; 1; 0; 0; 0; 0; 0;
  0; 0; 0; 0; 0; 0; 0; 0; 0; 0; 0; 0; 0; 0; 0; 0;
  0; 0; 0; 0; 0; 0; 0; 0; 0; 0; 0; 0; 0; 0; 0; 0;
  0; 0; 0; 0; 0; 0; 0; 0; 0; 0; 0; 0; 0; 0; 0; 0;
  0; 0; 0; 0; 0; 0; 0; 0; 0; 0; 0; 0; 0; 0; 0; 0;
  0; 0; 0; 0; 0; 0; 0; 0; 0; 0; 0; 0; 0; 0; 0; 0;
  0; 0; 0; 0; 0; 0; 0; 0; 0; 0; 0; 0; 0; 0; 0; 0;
  0; 0; 0; 0; 0; 0; 0; 0; 0; 0; 0; 0; 0; 0; 0; 0;
  0; 0; 0; 0; 0; 0; 0; 0; 0; 0; 0; 0; 0; 0; 0; 0].

Definition base64_decode_a : list Z := [
  0; 0; 0; 0; 0; 0; 0; 0; 0; 0; 0; 0; 0; 0; 0; 0;
  0; 0; 0; 0; 0; 0; 0; 0; 0; 0; 0; 0; 0; 0; 0; 0;
  0; 0; 0; 0; 0; 0; 0; 0; 0; 0; 0; 62; 0; 0; 0; 63;
  52; 53; 54; 55; 56; 57; 58; 59; 60; 61; 0; 0; 0; 0; 0; 0;
  0; 0; 1; 2; 3; 4; 5; 6; 7; 8; 9; 10; 11; 12; 13; 14;
  15; 16; 17; 18; 19; 20; 21; 22; 23; 24; 25; 0; 0; 0; 0; 0;
  0; 26; 27; 28; 29; 30; 31; 32; 33; 34; 35; 36; 37; 38; 39; 40;
  41; 42; 43; 44; 45; 46; 47; 48; 49; 50; 51; 0; 0; 0; 0; 0;
  0; 0; 0; 0; 0; 0; 0; 0; 0; 0; 0; 0; 0; 0; 0; 0;
  0; 0; 0; 0; 0; 0; 0; 0; 0; 0; 0; 0; 0; 0; 0; 0;
  0; 0; 0; 0; 0; 0; 0; 0; 0; 0; 0; 0; 0; 0; 0; 0;
  0; 0; 0; 0; 0; 0; 0; 0; 0; 0; 0; 0; 0; 0; 0; 0;
  0; 0; 0; 0; 0; 0; 0; 0; 0; 0; 0; 0; 0; 0; 0; 0;
  0; 0; 0; 0; 0; 0; 0; 0; 0; 0; 0; 0; 0; 0; 0; 0;
  0; 0; 0; 0; 0; 0; 0; 0; 0; 0; 0; 0; 0; 0; 0; 0;
  0; 0; 0; 0; 0; 0; 0; 0; 0; 0; 0; 0; 0; 0; 0; 0].

Definition EA (k : Z) : Z := nth (Z.to_nat k) base64_chars 0.
Definition VA (c : Z) : bool := nth (Z.to_nat c) base64_valid_a false.
Definition DA (c : Z) : Z := nth (Z.to_nat c) base64_decode_a 0.

(** The character ['=']. *)
Definition PAD : Z := 61.

(** ** Sizes *)

Definition cf_b64_encoded_len (in_size : Z) : Z :=
  u32 (Z.shiftl (u32 (in_size + 2) / 3) 2).

Definition cf_b64_decoded_buf_size (in_len : Z) : Z :=
  Z.shiftr (u32 (in_len * 3)) 2.

(** ** Encoding

    One step of the loop consumes three bytes and writes four characters; the
    tail of one or two bytes is padded. *)
Fixpoint cf_b64_encode (inp : list Z) : list Z :=
  match inp with
  | i0 :: i1 :: i2 :: rest =>
      EA (Z.shiftr (Z.land i0 0xfc) 2)
      :: EA (Z.shiftl (Z.land i0 0x03) 4 + Z.shiftr (Z.land i1 0xf0) 4)
      :: EA (Z.shiftl (Z.land i1 0x0f) 2 + Z.shiftr (Z.land i2 0xc0) 6)
      :: EA (Z.land i2 0x3f)
      :: cf_b64_encode rest
  | [i0] =>
      [EA (Z.shiftr (Z.land i0 0xfc) 2); EA (Z.shiftl (Z.land i0 0x03) 4); PAD; PAD]
  | [i0; i1] =>
      [EA (Z.shiftr (Z.land i0 0xfc) 2);
       EA (Z.shiftl (Z.land i0 0x03) 4 + Z.shiftr (Z.land i1 0xf0) 4);
       EA (Z.shiftl (Z.land i1 0x0f) 2); PAD]
  | [] => []
  end.

(** ** Decoding *)

Definition dec0 (i0 i1 : Z) : Z := u8 (Z.lor (Z.shiftl (DA i0) 2) (Z.shiftr (DA i1) 4)).
Definition dec1 (i1 i2 : Z) : Z := u8 (Z.lor (Z.shiftl (DA i1) 4) (Z.shiftr (DA i2) 2)).
Definition dec2 (i2 i3 : Z) : Z := u8 (Z.lor (Z.shiftl (DA i2) 6) (DA i3)).

(** The decoding loop.  [None]: the input is not a multiple of four long, and
    the loop reads past its end. *)
Fixpoint decode_loop (inp : list Z) : option (list Z) :=
  match inp with
  | [] => Some []
  | i0 :: i1 :: i2 :: i3 :: rest =>
      out ← decode_loop rest;
      Some (dec0 i0 i1 :: dec1 i1 i2 :: dec2 i2 i3 :: out)
  | _ => None
  end.

(** The number of ['='] in the last two characters, counted as the code does. *)
Definition padding (inp : list Z) : Z :=
  match rev inp with
  | a :: b :: _ => (if a =? PAD then 1 else 0) + (if b =? PAD then 1 else 0)
  | _ => 0
  end.

(** The bytes written to [out], and [out_size]. *)
Definition cf_b64_decode (inp : list Z) : option (list Z * Z) :=
  out ← decode_loop inp;
  Some (out, blen out - padding inp).

(** The in-place variant works on one buffer: [i] is the read position, [j] the
    write position. *)
Fixpoint decode_in_place_loop (fuel : nat) (m : list Z) (in_len i j : Z) : option (list Z * Z) :=
  match fuel with
  | O => None
  | S fuel =>
      if i <? in_len then
        i0 ← mread m i; i1 ← mread m (i + 1);
        i2 ← mread m (i + 2); i3 ← mread m (i + 3);
        m1 ← mwrite m j [dec0 i0 i1];
        m2 ← mwrite m1 (j + 1) [dec1 i1 i2];
        m3 ← mwrite m2 (j + 2) [dec2 i2 i3];
        decode_in_place_loop fuel m3 in_len (i + 4) (j + 3)
      else Some (m, j)
  end.

Definition cf_b64_decode_in_place (in_out : list Z) (in_len : Z) : option (list Z * Z) :=
  d ← (if in_len =? 0 then Some 0 else
         a ← mread in_out (in_len - 1);
         b ← mread in_out (in_len - 2);
         Some ((if a =? PAD then 1 else 0) + (if b =? PAD then 1 else 0)));
  '(m, j) ← decode_in_place_loop (S (Z.to_nat in_len)) in_out in_len 0 0;
  Some (m, j - d).

(** ** Validation *)

Definition is_valid_encoded (inp : list Z) : bool :=
  if (blen inp =? 0) || negb (Z.land (blen inp) 3 =? 0) then false
  else
    let front := take (length inp - 2) inp in
    if forallb VA front then
      match drop (length inp - 2) inp with
      | [a; b] =>
          if a =? PAD then b =? PAD
          else if VA a then (b =? PAD) || VA b else false
      | _ => false
      end
    else false.

(** [Some None]: the call returned [false] and wrote nothing. *)
Definition cf_b64_validate_and_decode (inp : list Z) : option (option (list Z * Z)) :=
  if is_valid_encoded inp then r ← cf_b64_decode inp; Some (Some r)
  else Some None.

Definition cf_b64_validate_and_decode_in_place (in_out : list Z) : option (option (list Z * Z)) :=
  if is_valid_encoded in_out then
    r ← cf_b64_decode_in_place in_out (blen in_out); Some (Some r)
  else Some None.

(** ** Six-bit groups *)

Lemma sext_check (P : Z -> bool) :
  forallb P (seqZ 0 64) = true -> forall k, 0 <= k < 64 -> P k = true.
Proof.
  intros H x Hx. rewrite forallb_forall in H. apply H, list_elem_of_In, elem_of_seqZ. lia.
Qed.

Lemma DA_EA k : 0 <= k < 64 -> DA (EA k) = k.
Proof.
  intros Hk. apply Z.eqb_eq. by apply (sext_check (fun k => DA (EA k) =? k)).
Qed.

Lemma EA_valid k : 0 <= k < 64 -> VA (EA k) = true.
Proof. apply (sext_check (fun k => VA (EA k))). reflexivity. Qed.

Lemma EA_not_pad k : 0 <= k < 64 -> (EA k =? PAD) = false.
Proof.
  intros Hk. apply negb_true_iff. by apply (sext_check (fun k => negb (EA k =? PAD))).
Qed.

Lemma EA_byte k : 0 <= k < 64 -> is_byte (EA k).
Proof.
  intros Hk. pose proof (sext_check (fun k => (0 <=? EA k) && (EA k <? 256)) eq_refl k Hk) as H.
  simpl in H. reflect_Z. unfold is_byte. lia.
Qed.

(** The groups as quotients and remainders. *)
Lemma hi6 x : is_byte x -> Z.shiftr (Z.land x 0xfc) 2 = x / 4.
Proof. by apply (byte_check_eq (fun x => Z.shiftr (Z.land x 0xfc) 2) (fun x => x / 4)). Qed.
Lemma lo2 x : is_byte x -> Z.land x 0x03 = x mod 4.
Proof. by apply (byte_check_eq (fun x => Z.land x 0x03) (fun x => x mod 4)). Qed.
Lemma hi4 x : is_byte x -> Z.shiftr (Z.land x 0xf0) 4 = x / 16.
Proof. by apply (byte_check_eq (fun x => Z.shiftr (Z.land x 0xf0) 4) (fun x => x / 16)). Qed.
Lemma lo4 x : is_byte x -> Z.land x 0x0f = x mod 16.
Proof. by apply (byte_check_eq (fun x => Z.land x 0x0f) (fun x => x mod 16)). Qed.
Lemma hi2 x : is_byte x -> Z.shiftr (Z.land x 0xc0) 6 = x / 64.
Proof. by apply (byte_check_eq (fun x => Z.shiftr (Z.land x 0xc0) 6) (fun x => x / 64)). Qed.
Lemma lo6 x : is_byte x -> Z.land x 0x3f = x mod 64.
Proof. by apply (byte_check_eq (fun x => Z.land x 0x3f) (fun x => x mod 64)). Qed.

Lemma u8_lor a b : u8 (Z.lor a b) = Z.lor (u8 a) (u8 b).
Proof.
  unfold u8. apply Z.bits_inj'. intros i Hi. destruct (decide (i < 8)).
  - by rewrite Z.lor_spec, !Z.mod_pow2_bits_low, Z.lor_spec by lia.
  - by rewrite Z.lor_spec, !Z.mod_pow2_bits_high by lia.
Qed.

(** Decoding the groups of a byte gives the byte back. *)
Lemma dec0_ok x k :
  is_byte x -> 0 <= k < 16 -> dec0 (EA (x / 4)) (EA (x mod 4 * 16 + k)) = x.
Proof.
  intros Hx Hk. unfold dec0. unfold is_byte in Hx.
  rewrite !DA_EA by (Z.div_mod_to_equations; lia).
  rewrite (Z.shiftr_div_pow2 _ 4) by lia. change (2 ^ 4) with 16.
  rewrite Z.div_add_l, (Z.div_small k), Z.add_0_r by lia.
  by apply (byte_check_eq (fun x => u8 (Z.lor (Z.shiftl (x / 4) 2) (x mod 4))) (fun x => x)).
Qed.

Lemma dec1_ok q x k :
  0 <= q < 4 -> is_byte x -> 0 <= k < 4 ->
  dec1 (EA (q * 16 + x / 16)) (EA (x mod 16 * 4 + k)) = x.
Proof.
  intros Hq Hx Hk. unfold dec1. unfold is_byte in Hx.
  rewrite !DA_EA by (Z.div_mod_to_equations; lia).
  rewrite u8_lor, Z.shiftl_mul_pow2, (Z.shiftr_div_pow2 _ 2) by lia.
  change (2 ^ 2) with 4. change (2 ^ 4) with 16.
  rewrite Z.div_add_l, (Z.div_small k), Z.add_0_r by lia.
  replace (u8 ((q * 16 + x / 16) * 16)) with (u8 (x / 16 * 16)) by width_lia.
  by apply (byte_check_eq (fun x => Z.lor (u8 (x / 16 * 16)) (u8 (x mod 16))) (fun x => x)).
Qed.

Lemma dec2_ok q x :
  0 <= q < 16 -> is_byte x -> dec2 (EA (q * 4 + x / 64)) (EA (x mod 64)) = x.
Proof.
  intros Hq Hx. unfold dec2. unfold is_byte in Hx.
  rewrite !DA_EA by (Z.div_mod_to_equations; lia).
  rewrite u8_lor, Z.shiftl_mul_pow2 by lia. change (2 ^ 6) with 64.
  replace (u8 ((q * 4 + x / 64) * 64)) with (u8 (x / 64 * 64)) by width_lia.
  by apply (byte_check_eq (fun x => Z.lor (u8 (x / 64 * 64)) (u8 (x mod 64))) (fun x => x)).
Qed.

(** ** Lemmas on whole strings *)

Lemma list_ind3 {A} (P : list A -> Prop) :
  P [] -> (forall a, P [a]) -> (forall a b, P [a; b]) ->
  (forall a b c l, P l -> P (a :: b :: c :: l)) -> forall l, P l.
Proof.
  intros H0 H1 H2 H3. fix IH 1. intros [|a [|b [|c l]]]; [done|apply H1|apply H2|].
  apply H3, IH.
Qed.

Lemma list_ind4 {A} (P : list A -> Prop) :
  P [] -> (forall l, (0 < length l < 4)%nat -> P l) ->
  (forall a b c d l, P l -> P (a :: b :: c :: d :: l)) -> forall l, P l.
Proof.
  intros H0 H1 H2. fix IH 1. intros [|a [|b [|c [|d l]]]]; [done| | | |];
    [apply H1; simpl; lia..|]. apply H2, IH.
Qed.

Lemma padding_app a b : (2 <= length b)%nat -> padding (a ++ b) = padding b.
Proof.
  intros Hb. unfold padding. rewrite rev_app_distr.
  rewrite <- (length_rev b) in Hb. destruct (rev b) as [|x [|y r]]; simpl in Hb; try lia.
  done.
Qed.

Lemma encode_length l : length (cf_b64_encode l) = (4 * ((length l + 2) / 3))%nat.
Proof.
  induction l as [| | |a b c l IH] using list_ind3; try done.
  simpl cf_b64_encode. simpl length. rewrite IH.
  replace (S (S (S (length l))) + 2)%nat with (length l + 2 + 1 * 3)%nat by lia.
  rewrite Nat.div_add by lia. lia.
Qed.

(** Rewrites the groups of the encoder into quotients and remainders. *)
Ltac groups :=
  rewrite ?hi6, ?lo2, ?hi4, ?lo4, ?hi2, ?lo6 by done;
  rewrite ?Z.shiftl_mul_pow2 by lia; change (2 ^ 4) with 16; change (2 ^ 2) with 4.

Lemma decode_loop_encode l :
  Forall is_byte l ->
  exists pad, decode_loop (cf_b64_encode l) = Some (l ++ pad)
              /\ blen pad = padding (cf_b64_encode l).
Proof.
  induction l as [|a|a b|a b c l IH] using list_ind3; intros Hl;
    repeat match goal with H : Forall _ (_ :: _) |- _ => inversion H; clear H; subst end.
  - exists []. done.
  - pose proof (dec0_ok a 0 H1 ltac:(lia)) as E. rewrite Z.add_0_r in E.
    simpl. groups. rewrite E. by eexists [_; _].
  - pose proof (dec0_ok a (b / 16) H1) as E0.
    pose proof (dec1_ok (a mod 4) b 0) as E1. rewrite Z.add_0_r in E1.
    unfold is_byte in *. simpl. groups.
    rewrite E0, E1 by (Z.div_mod_to_equations; lia).
    eexists [_]. split; [done|]. unfold padding. simpl.
    by rewrite EA_not_pad by (Z.div_mod_to_equations; lia).
  - destruct (IH ltac:(done)) as (pad & Hd & Hp). exists pad.
    pose proof (dec0_ok a (b / 16) H1) as E0.
    pose proof (dec1_ok (a mod 4) b (c / 64)) as E1.
    pose proof (dec2_ok (b mod 16) c) as E2.
    unfold is_byte in *. simpl. groups. rewrite Hd. simpl.
    rewrite E0, E1, E2 by (Z.div_mod_to_equations; lia). split; [done|].
    rewrite Hp. destruct l as [|x l].
    + unfold padding. simpl. by rewrite !EA_not_pad by (Z.div_mod_to_equations; lia).
    + symmetry. apply (padding_app [_; _; _; _]). rewrite encode_length. simpl length.
      assert (1 <= (S (length l) + 2) / 3)%nat by (apply Nat.div_le_lower_bound; lia). lia.
Qed.

(** Three consecutive one-byte writes at the end of [pre]. *)
Lemma mwrite3 (pre q rest : list Z) a b c j :
  (3 <= length q)%nat -> j = blen pre ->
  (m1 ← mwrite (pre ++ q ++ rest) j [a];
   m2 ← mwrite m1 (j + 1) [b]; mwrite m2 (j + 2) [c])
  = Some (pre ++ [a; b; c] ++ drop 3 q ++ rest).
Proof.
  intros Hq ->. destruct q as [|x [|y [|z q]]]; simpl in Hq; try lia.
  simpl drop. rewrite drop_0. change (x :: y :: z :: q) with ([x] ++ [y] ++ [z] ++ q).
  rewrite <- !app_assoc, mwrite_app by done. cbn [mbind option_bind].
  rewrite (app_assoc pre), mwrite_app by (rewrite ?length_app; simpl; lia).
  cbn [mbind option_bind].
  rewrite (app_assoc (pre ++ [a])), mwrite_app by (rewrite ?length_app; simpl; lia).
  by rewrite <- !app_assoc.
Qed.

(** One step of the in-place loop. *)
Lemma decode_in_place_step fuel pre mid i0 i1 i2 i3 rest in_len i j :
  i = blen pre + blen mid -> j = blen pre -> i < in_len ->
  decode_in_place_loop (S fuel) (pre ++ mid ++ [i0; i1; i2; i3] ++ rest) in_len i j
  = decode_in_place_loop fuel
      ((pre ++ [dec0 i0 i1; dec1 i1 i2; dec2 i2 i3]) ++ drop 3 (mid ++ [i0; i1; i2; i3]) ++ rest)
      in_len (i + 4) (j + 3).
Proof.
  intros Hi Hj Hlt. cbn [decode_in_place_loop]. rewrite (proj2 (Z.ltb_lt _ _)) by done.
  assert (forall before x after k, [i0; i1; i2; i3] = before ++ x :: after -> k = i + blen before ->
    mread (pre ++ mid ++ [i0; i1; i2; i3] ++ rest) k = Some x) as Hr.
  { intros before x after k Hb ->. rewrite Hb, <- !app_assoc. simpl. rewrite !app_assoc.
    apply mread_app. rewrite !length_app. lia. }
  rewrite (Hr [] i0 [i1; i2; i3] i), (Hr [i0] i1 [i2; i3] (i + 1)),
    (Hr [i0; i1] i2 [i3] (i + 2)), (Hr [i0; i1; i2] i3 [] (i + 3)) by (done || simpl; lia).
  cbn [mbind option_bind].
  pose proof (mwrite3 pre (mid ++ [i0; i1; i2; i3]) rest
    (dec0 i0 i1) (dec1 i1 i2) (dec2 i2 i3) j) as Hw.
  rewrite <- !app_assoc in Hw. rewrite <- !app_assoc.
  specialize (Hw ltac:(rewrite ?length_app; simpl; lia) Hj).
  destruct (mwrite (pre ++ _) j _) as [m1|]; cbn [mbind option_bind] in *; [|done].
  destruct (mwrite m1 _ _) as [m2|]; cbn [mbind option_bind] in *; [|done].
  by rewrite Hw.
Qed.

(** The in-place loop: [pre] is what was written, [inp] what is still to be
    read, and the write position never passes the read position. *)
Lemma decode_in_place_loop_ok inp : forall fuel pre mid tail out in_len i j,
  decode_loop inp = Some out -> (length inp < fuel)%nat ->
  in_len = blen pre + blen mid + blen inp -> i = blen pre + blen mid -> j = blen pre ->
  exists m', decode_in_place_loop fuel (pre ++ mid ++ inp ++ tail) in_len i j
             = Some (m', blen pre + blen out)
             /\ take (length pre + length out) m' = pre ++ out
             /\ length m' = (length pre + length mid + length inp + length tail)%nat.
Proof.
  induction inp as [|inp Hs|i0 i1 i2 i3 inp IH] using list_ind4;
    intros fuel pre mid tail out in_len i j Hd Hf Hn Hi Hj;
    (destruct fuel as [|fuel]; [lia|]).
  - injection Hd as <-. simpl in *. rewrite (proj2 (Z.ltb_ge _ _)) by lia.
    eexists. split_and!; [by rewrite Z.add_0_r, Hj| |rewrite !length_app; lia].
    by rewrite Nat.add_0_r, take_app_length, app_nil_r.
  - by destruct inp as [|? [|? [|? [|]]]]; simpl in *; try lia.
  - simpl in Hd. destruct (decode_loop inp) as [out'|]; [|done]. injection Hd as <-.
    change ((i0 :: i1 :: i2 :: i3 :: inp) ++ tail) with ([i0; i1; i2; i3] ++ inp ++ tail).
    simpl length in Hn, Hf.
    rewrite decode_in_place_step by lia.
    destruct (IH fuel (pre ++ [dec0 i0 i1; dec1 i1 i2; dec2 i2 i3])
      (drop 3 (mid ++ [i0; i1; i2; i3])) tail out' in_len (i + 4) (j + 3) eq_refl)
      as (m' & H1 & H2 & H3); rewrite ?length_app, ?length_drop, ?length_app in *;
      simpl length in *; try lia.
    exists m'. rewrite H1. split_and!; [f_equal; f_equal; lia| |lia].
    rewrite <- app_assoc in H2. simpl in H2. rewrite <- H2. f_equal. lia.
Qed.

Lemma decode_loop_length inp out :
  decode_loop inp = Some out -> (4 * length out = 3 * length inp)%nat.
Proof.
  revert out. induction inp as [|inp Hs|i0 i1 i2 i3 inp IH] using list_ind4; intros out H.
  - by injection H as <-.
  - by destruct inp as [|? [|? [|? [|]]]]; simpl in *; try lia.
  - simpl in H. destruct (decode_loop inp) as [o|]; [|done]. injection H as <-.
    specialize (IH o eq_refl). simpl length. lia.
Qed.

(** A multiple of four characters decodes. *)
Lemma decode_loop_total inp :
  (length inp mod 4 = 0)%nat -> exists out, decode_loop inp = Some out.
Proof.
  induction inp as [|inp Hs|i0 i1 i2 i3 inp IH] using list_ind4; intros H.
  - by eexists.
  - rewrite Nat.mod_small in H by lia. lia.
  - simpl length in H. replace (S (S (S (S (length inp))))) with (length inp + 1 * 4)%nat in H by lia.
    rewrite Nat.Div0.mod_add in H. destruct (IH H) as [o Ho]. simpl. rewrite Ho. by eexists.
Qed.

Lemma valid_length inp : is_valid_encoded inp = true -> (length inp mod 4 = 0)%nat.
Proof.
  unfold is_valid_encoded. case_if; [done|]. reflect_Z.
  intros _. change 3 with (Z.ones 2) in *. rewrite Z.land_ones in * by lia.
  change (2 ^ 2) with (Z.of_nat 4) in *. rewrite <- Nat2Z.inj_mod in *. lia.
Qed.

(** The last two characters are where the in-place variant looks for them. *)
Lemma last_two_read inp a b r :
  rev inp = a :: b :: r -> mread inp (blen inp - 1) = Some a /\ mread inp (blen inp - 2) = Some b.
Proof.
  intros H. apply (f_equal (@rev Z)) in H. rewrite rev_involutive in H. simpl in H. subst inp.
  rewrite !length_app. simpl length. split; [apply mread_app; rewrite ?length_app; simpl; lia|].
  rewrite <- app_assoc. simpl. apply mread_app. lia.
Qed.

(** ** The theorems *)

(** decoding what [cf_b64_encode] wrote gives the original bytes back, and
    [out_size] is the original size, for input of any length (the padding of
    the last group is accounted for). *)
Theorem b64_roundtrip (l : list Z) (Hl : Forall is_byte l) :
  exists out, cf_b64_decode (cf_b64_encode l) = Some (out, blen l)
              /\ take (length l) out = l.
Proof.
  destruct (decode_loop_encode l Hl) as (pad & Hd & Hp).
  exists (l ++ pad). unfold cf_b64_decode. rewrite Hd. simpl. rewrite length_app. split.
  - f_equal. f_equal. lia.
  - by rewrite take_app_length.
Qed.

Lemma b64_roundtrip_witness :
  exists out, cf_b64_decode (cf_b64_encode [77; 97; 0; 255]) = Some (out, 4)
              /\ take 4 out = [77; 97; 0; 255].
Proof. apply (b64_roundtrip [77; 97; 0; 255]). solve_bytes. Defined.

(** The encoded string has the length [cf_b64_encoded_len] computes (below the
    32-bit wrap-around), passes validation, and decodes into a buffer of
    [cf_b64_decoded_buf_size] bytes. *)
Lemma encode_sizes l :
  blen l < 2 ^ 29 ->
  blen (cf_b64_encode l) = cf_b64_encoded_len (blen l)
  /\ forall out, decode_loop (cf_b64_encode l) = Some out ->
       blen out = cf_b64_decoded_buf_size (blen (cf_b64_encode l)).
Proof.
  intros Hl. pose proof (encode_length l) as He.
  assert (blen (cf_b64_encode l) = 4 * ((blen l + 2) / 3)) as Hz.
  { rewrite He, Nat2Z.inj_mul, Nat2Z.inj_div, Nat2Z.inj_add. done. }
  split.
  - rewrite Hz. unfold cf_b64_encoded_len. rewrite (u32_id (blen l + 2)) by (unfold is_u32; lia).
    rewrite Z.shiftl_mul_pow2, u32_id by (unfold is_u32; Z.div_mod_to_equations; lia). lia.
  - intros out Ho%decode_loop_length. unfold cf_b64_decoded_buf_size.
    rewrite u32_id by (unfold is_u32; rewrite Hz; Z.div_mod_to_equations; lia).
    rewrite Z.shiftr_div_pow2 by lia. change (2 ^ 2) with 4.
    apply Z.div_unique with 0; lia.
Qed.

Lemma decode_in_place_agrees inp out sz :
  cf_b64_decode inp = Some (out, sz) ->
  exists m, cf_b64_decode_in_place inp (blen inp) = Some (m, sz)
            /\ take (length out) m = out /\ length m = length inp.
Proof.
  intros Hd. unfold cf_b64_decode in Hd. destruct (decode_loop inp) as [o|] eqn:Eo; [|done].
  injection Hd as -> <-.
  destruct (decode_in_place_loop_ok inp (S (length inp)) [] [] [] out (blen inp) 0 0 Eo)
    as (m & H1 & H2 & H3); try (simpl; lia).
  simpl app in H1. rewrite app_nil_r in H1. exists m. split_and!; [|done|simpl in H3; lia].
  unfold cf_b64_decode_in_place. rewrite Nat2Z.id, H1.
  pose proof (decode_loop_length inp out Eo) as Hlen.
  destruct inp as [|x inp]; [done|]. rewrite (proj2 (Z.eqb_neq _ 0)) by (simpl; lia).
  unfold padding. destruct (rev (x :: inp)) as [|a [|b r]] eqn:Er;
    apply (f_equal length) in Er as Hr; rewrite length_rev in Hr; simpl length in *; try lia.
  destruct (last_two_read _ _ _ _ Er) as [Ha Hb]. simpl length in Ha, Hb. rewrite Ha, Hb. done.
Qed.

(** the in-place decoder computes what the out-of-place decoder does, although
    it overwrites the buffer it reads: the same bytes at the front of the
    buffer and the same [out_size]. *)
Theorem b64_in_place_equiv (inp out : list Z) (sz : Z)
  (Hd : cf_b64_decode inp = Some (out, sz)) :
  exists m, cf_b64_decode_in_place inp (blen inp) = Some (m, sz)
            /\ take (length out) m = out /\ length m = length inp.
Proof. by apply decode_in_place_agrees. Qed.

Lemma b64_in_place_equiv_witness :
  exists m, cf_b64_decode_in_place (cf_b64_encode [1; 2; 3; 4]) 8 = Some (m, 4)
            /\ take 6 m = [1; 2; 3; 4; 0; 0] /\ length m = 8%nat.
Proof.
  apply (b64_in_place_equiv (cf_b64_encode [1; 2; 3; 4]) [1; 2; 3; 4; 0; 0] 4).
  vm_compute. reflexivity.
Defined.

(** Validation of a non-empty string peels off one group of four characters. *)
Lemma valid_group a b c d rest :
  rest <> [] -> VA a = true -> VA b = true -> VA c = true -> VA d = true ->
  is_valid_encoded rest = true -> is_valid_encoded (a :: b :: c :: d :: rest) = true.
Proof.
  intros Hr Ha Hb Hc Hd Hv. pose proof (valid_length _ Hv) as Hl.
  assert (4 <= length rest)%nat as H4.
  { destruct rest as [|? [|? [|? [|]]]]; simpl in *; [done|done..|lia]. }
  revert Hv. unfold is_valid_encoded. change 3 with (Z.ones 2).
  rewrite !Z.land_ones by lia. simpl length.
  replace (Z.of_nat (S (S (S (S (length rest)))))) with (blen rest + 1 * 4) by lia.
  change (2 ^ 2) with 4. rewrite Z_mod_plus_full.
  rewrite (proj2 (Z.eqb_neq (blen rest + 1 * 4) 0)) by lia.
  destruct (blen rest =? 0); [done|]. simpl orb.
  destruct (negb _); [done|].
  replace (S (S (S (S (length rest)))) - 2)%nat with (S (S (S (S (length rest - 2))))) by lia.
  simpl. by rewrite Ha, Hb, Hc, Hd.
Qed.

Lemma encode_valid l :
  Forall is_byte l -> l <> [] -> is_valid_encoded (cf_b64_encode l) = true.
Proof.
  induction l as [|a|a b|a b c l IH] using list_ind3; intros Hl Hne; [done|..];
    repeat match goal with H : Forall _ (_ :: _) |- _ => inversion H; clear H; subst end;
    unfold is_byte in *; simpl; groups; unfold is_byte in *.
  1: by unfold is_valid_encoded; simpl; rewrite !EA_valid by (Z.div_mod_to_equations; lia).
  1: unfold is_valid_encoded; simpl;
     rewrite !EA_valid, EA_not_pad by (Z.div_mod_to_equations; lia); done.
  destruct l as [|x l].
  - unfold is_valid_encoded. simpl.
    by rewrite !EA_valid, !EA_not_pad by (Z.div_mod_to_equations; lia).
  - apply valid_group; [|apply EA_valid; Z.div_mod_to_equations; lia..|by apply IH].
    intros Hn. apply (f_equal length) in Hn. rewrite encode_length in Hn.
    simpl length in Hn.
    assert (1 <= (S (length l) + 2) / 3)%nat by (apply Nat.div_le_lower_bound; lia). lia.
Qed.

(** validation makes decoding safe, and accepts every encoder output.  On any
    input at all, the two validating decoders return, without an access outside
    the buffer; on the output of [cf_b64_encode] for a non-empty input they
    return [true]. *)
Theorem b64_validated_decode_safe :
  (forall inp, exists r, cf_b64_validate_and_decode inp = Some r)
  /\ (forall inp, exists r, cf_b64_validate_and_decode_in_place inp = Some r)
  /\ (forall l, Forall is_byte l -> l <> [] ->
        exists r, cf_b64_validate_and_decode (cf_b64_encode l) = Some (Some r)).
Proof.
  assert (forall inp, is_valid_encoded inp = true ->
    exists out, cf_b64_decode inp = Some (out, blen out - padding inp)) as Hd.
  { intros inp Hv%valid_length%decode_loop_total. destruct Hv as [out Ho].
    exists out. unfold cf_b64_decode. by rewrite Ho. }
  unfold cf_b64_validate_and_decode, cf_b64_validate_and_decode_in_place. split_and!.
  - intros inp. destruct (is_valid_encoded inp) eqn:E; [|by eexists].
    destruct (Hd inp E) as [out ->]. by eexists.
  - intros inp. destruct (is_valid_encoded inp) eqn:E; [|by eexists].
    destruct (Hd inp E) as [out Ho].
    destruct (decode_in_place_agrees _ _ _ Ho) as (m & -> & _). by eexists.
  - intros l Hl Hne. rewrite encode_valid by done.
    destruct (Hd (cf_b64_encode l)) as [out ->]; [by apply encode_valid|]. by eexists.
Qed.
