(* ===== verification/Vector.v ===== *)
(** * Dynamic arrays

    Models [as_vector.c] and [as_vector.h] of [modules/common/src] ([main] and
    [include], directory [aerospike]).  The cluster keeps its addresses, its
    friends, its garbage and its work lists in such vectors; the other files
    write a vector in use as the list of its items, which [vector_refines_list]
    justifies. *)

From S2P Require Import Prelude.

Definition FLAGS_HEAP : Z := 1.
Definition FLAGS_CREATED : Z := 2.

(** [items] are the items that fit in the block [list] points to; [None] is an
    item that was never written, the empty list the NULL of a failed allocation. *)
Record as_vector (A : Type) := mk_vector {
  items : list (option A);
  capacity : Z;
  size : Z;
  item_size : Z;
  flags : Z
}.
Arguments mk_vector {A}.
Arguments items {A}.
Arguments capacity {A}.
Arguments size {A}.
Arguments item_size {A}.
Arguments flags {A}.

Section Vector.
Context {A : Type} `{EqDecision A}.
Implicit Types (v : as_vector A) (x : A).

(** The products of the code are products of [uint32_t]: the items of a block of
    [cap * isz] bytes, and the item at the offset [isz * i]. *)
Definition block_items (isz cap : Z) : Z := u32 (cap * isz) / isz.
Definition slot v (i : Z) : option Z :=
  let off := u32 (item_size v * i) in
  if decide (off mod item_size v = 0) then Some (off / item_size v) else None.

(** [cf_malloc(cap * isz)], with the answer [ok] of the allocator. *)
Definition new_block (ok : bool) (isz cap : Z) : list (option A) :=
  if ok then replicate (Z.to_nat (block_items isz cap)) None else [].

Definition as_vector_inita (isz cap : Z) : as_vector A :=
  mk_vector (replicate (Z.to_nat cap) None) cap 0 isz 0.
Definition as_vector_init (ok : bool) (isz cap : Z) : as_vector A :=
  mk_vector (new_block ok isz cap) cap 0 isz 1.

(** [None]: the vector itself could not be allocated, and its members are written. *)
Definition as_vector_create (h : heap) (isz cap : Z) : option (as_vector A) :=
  let '(ok, h) := cf_malloc h in
  let '(ok_items, _) := cf_malloc h in
  if ok then
    let v := as_vector_init ok_items isz cap in
    Some (mk_vector (items v) (capacity v) (size v) (item_size v) (Z.lor FLAGS_HEAP FLAGS_CREATED))
  else None.

(** What is freed: the items, the vector. *)
Definition as_vector_destroy v : bool * bool :=
  if negb (Z.land (flags v) FLAGS_HEAP =? 0)
  then (true, negb (Z.land (flags v) FLAGS_CREATED =? 0))
  else (false, false).

Definition as_vector_clear v : as_vector A :=
  mk_vector (items v) (capacity v) 0 (item_size v) (flags v).

(** The item behind the pointer [as_vector_get] returns. *)
Definition as_vector_get v (i : Z) : option A :=
  k ← slot v i; aget (items v) k ≫= id.

(** [cf_realloc] keeps what fits; a block on the stack is copied. *)
Definition as_vector_increase_capacity (ok : bool) v : option (as_vector A) :=
  let cap := u32 (capacity v * 2) in
  if negb (Z.land (flags v) FLAGS_HEAP =? 0) then
    Some (mk_vector (if ok then take (Z.to_nat (block_items (item_size v) cap))
                                  (items v ++ new_block true (item_size v) cap) else [])
            cap (size v) (item_size v) (flags v))
  else
    s ← mslice (items v) 0 (block_items (item_size v) (capacity v));
    tmp ← mwrite (new_block ok (item_size v) cap) 0 s;
    Some (mk_vector tmp cap (size v) (item_size v) (Z.lor (flags v) FLAGS_HEAP)).

Definition as_vector_set v (i : Z) x : option (as_vector A) :=
  k ← slot v i;
  m ← aset (items v) k (Some x);
  Some (mk_vector m (capacity v) (size v) (item_size v) (flags v)).

Definition as_vector_append (ok : bool) v x : option (as_vector A) :=
  v ← (if capacity v <=? size v then as_vector_increase_capacity ok v else Some v);
  v ← as_vector_set v (size v) x;
  Some (mk_vector (items v) (capacity v) (u32 (size v + 1)) (item_size v) (flags v)).

(** [for (i = 0; i < size; i++)] looking for [x] byte by byte: [item] advances by
    [item_size], without the product of [as_vector_get]. *)
Fixpoint unique_loop (n : nat) (i : Z) v x : option bool :=
  match n with
  | O => Some false
  | S n =>
      y ← aget (items v) i ≫= id;
      if decide (y = x) then Some true else unique_loop n (i + 1) v x
  end.

Definition as_vector_append_unique (ok : bool) v x : option (bool * as_vector A) :=
  found ← unique_loop (Z.to_nat (size v)) 0 v x;
  if (found : bool) then Some (false, v) else v ← as_vector_append ok v x; Some (true, v).

(** [memcpy] copies an item that was never written as well. *)
Definition as_vector_move v (source target : Z) : option (as_vector A) :=
  k ← slot v source;
  y ← aget (items v) k;
  t ← slot v target;
  m ← aset (items v) t y;
  Some (mk_vector m (capacity v) (size v) (item_size v) (flags v)).

(** ** A vector in use is the list of its items *)

Definition v_rep v (l : list A) : Prop :=
  size v = blen l /\ 0 < item_size v /\ blen (items v) = capacity v
  /\ 0 < capacity v /\ capacity v * item_size v < 2 ^ 32
  /\ exists rest, items v = (Some <$> l) ++ rest.

(** Another item fits, or the block can be doubled. *)
Definition room v : Prop := size v < capacity v \/ 2 * capacity v * item_size v < 2 ^ 32.

Lemma block_items_eq isz cap : 0 < isz -> 0 <= cap -> cap * isz < 2 ^ 32 -> block_items isz cap = cap.
Proof. intros. unfold block_items. rewrite u32_id by (unfold is_u32; nia). by apply Z.div_mul; lia. Qed.

Lemma slot_ok v l i : v_rep v l -> 0 <= i < capacity v -> slot v i = Some i.
Proof.
  intros (_ & Hi & _ & _ & Hb & _) Hc. unfold slot. rewrite u32_id by (unfold is_u32; nia).
  rewrite (Z.mul_comm (item_size v)), Z_mod_mult, decide_True, Z.div_mul by lia. done.
Qed.

Lemma rep_length v l : v_rep v l -> blen l <= capacity v.
Proof. intros (_ & _ & <- & _ & _ & r & ->). rewrite length_app, length_fmap. lia. Qed.

Lemma vector_get_ok v l i : v_rep v l -> 0 <= i < blen l -> as_vector_get v i = l !! Z.to_nat i.
Proof.
  intros Hv Hi. pose proof (rep_length v l Hv). unfold as_vector_get.
  rewrite (slot_ok v l) by (done || lia). cbn [mbind option_bind].
  destruct Hv as (_ & _ & _ & _ & _ & r & ->). rewrite aget_nonneg by lia.
  rewrite lookup_app_l by (rewrite length_fmap; lia). rewrite list_lookup_fmap.
  by destruct (l !! Z.to_nat i).
Qed.

(** Behind the last item of a full vector there is nothing. *)
Lemma vector_get_past v l : v_rep v l -> capacity v = size v -> as_vector_get v (blen l) = None.
Proof.
  intros (Hs & Hi & Hl & Hc & Hb & _) Hf. unfold as_vector_get, slot. rewrite u32_id by (unfold is_u32; nia).
  rewrite (Z.mul_comm (item_size v)), Z_mod_mult, decide_True, Z.div_mul by lia. cbn [mbind option_bind].
  unfold aget. rewrite decide_True, lookup_ge_None_2 by lia. done.
Qed.

Lemma vector_set_ok v l i x :
  v_rep v l -> 0 <= i < blen l ->
  exists v', as_vector_set v i x = Some v' /\ v_rep v' (<[Z.to_nat i := x]> l) /\ capacity v' = capacity v
    /\ item_size v' = item_size v.
Proof.
  intros Hv Hi. pose proof (rep_length v l Hv). unfold as_vector_set.
  rewrite (slot_ok v l) by (done || lia). cbn [mbind option_bind].
  destruct Hv as (Hs & H1 & H2 & H3 & H4 & r & Hr). rewrite aset_Some by lia.
  eexists. split; [done|]. split; [|done]. repeat split; simpl; try done.
  - by rewrite length_insert.
  - by rewrite length_insert.
  - exists r. rewrite Hr, insert_app_l by (rewrite length_fmap; lia). by rewrite list_fmap_insert.
Qed.

Lemma write_next v l x :
  v_rep v l -> size v < capacity v ->
  exists v', as_vector_set v (size v) x = Some v' /\ capacity v' = capacity v
    /\ item_size v' = item_size v
    /\ v_rep (mk_vector (items v') (capacity v') (u32 (size v' + 1)) (item_size v') (flags v')) (l ++ [x]).
Proof.
  intros Hv Hc. pose proof (rep_length v l Hv). unfold as_vector_set.
  assert (0 <= size v) by (destruct Hv; lia). rewrite (slot_ok v l) by (done || lia).
  cbn [mbind option_bind]. destruct Hv as (Hs & H1 & H2 & H3 & H4 & r & Hr).
  destruct r as [|o r]; [rewrite Hr, app_nil_r, length_fmap in H2; lia|].
  rewrite Hr, (aset_middle _ _ o) by (rewrite length_fmap; lia).
  eexists. split; [done|]. split; [done|]. split; [done|].
  rewrite Hr in H2. repeat split; cbn [items size capacity item_size flags] in *; try done.
  - rewrite u32_id, length_app, Hs by (unfold is_u32; nia). simpl. lia.
  - rewrite <- H2, !length_app. simpl. lia.
  - exists r. by rewrite fmap_app, <- app_assoc.
Qed.

Lemma increase_ok v l :
  v_rep v l -> 2 * capacity v * item_size v < 2 ^ 32 ->
  exists v', as_vector_increase_capacity true v = Some v' /\ v_rep v' l
    /\ capacity v' = 2 * capacity v /\ size v' = size v /\ item_size v' = item_size v.
Proof.
  intros (Hs & H1 & H2 & H3 & H4 & r & Hr) Hb. unfold as_vector_increase_capacity, new_block.
  rewrite u32_id by (unfold is_u32; nia). rewrite !block_items_eq by lia.
  assert (exists m, items v ++ replicate (Z.to_nat (capacity v)) None = m
    /\ blen m = 2 * capacity v /\ exists rest, m = (Some <$> l) ++ rest) as (m & Hm & Lm & rest & Hrest).
  { eexists. split; [done|]. rewrite length_app, length_replicate. split; [lia|].
    rewrite Hr, <- app_assoc. by eexists. }
  case_if.
  - rewrite take_app, take_ge, take_replicate by lia.
    replace (_ `min` _)%nat with (Z.to_nat (capacity v)) by lia. rewrite Hm.
    eexists. split; [done|]. repeat split; simpl; try done; try lia. by exists rest.
  - rewrite mslice_take, take_ge by lia. cbn [mbind option_bind].
    replace (Z.to_nat (capacity v * 2)) with (length (items v) + Z.to_nat (capacity v))%nat by lia.
    rewrite replicate_add, mwrite_0 by (by rewrite length_replicate). cbn [mbind option_bind].
    rewrite Hm. eexists. split; [done|]. repeat split; simpl; try done; try lia. by exists rest.
Qed.

Lemma append_ok v l x :
  v_rep v l -> room v ->
  exists v', as_vector_append true v x = Some v' /\ v_rep v' (l ++ [x])
    /\ capacity v' = (if capacity v <=? size v then 2 * capacity v else capacity v)
    /\ item_size v' = item_size v.
Proof.
  intros Hv Hroom. unfold as_vector_append. destruct (capacity v <=? size v) eqn:E; reflect_Z.
  - destruct (increase_ok v l Hv) as (v1 & -> & Hv1 & Hc & Hs & Hi);
      [destruct Hroom as [|]; [|done]; lia|]. cbn [mbind option_bind].
    destruct (write_next v1 l x Hv1) as (v2 & -> & Hc2 & Hi2 & Hv2).
    { pose proof (rep_length v l Hv). destruct Hv as (? & _ & _ & ? & _). lia. }
    cbn [mbind option_bind]. eexists. split; [done|]. split; [done|]. simpl. by rewrite Hc2, Hi2.
  - cbn [mbind option_bind]. destruct (write_next v l x Hv) as (v2 & -> & Hc2 & Hi2 & Hv2); [done|].
    cbn [mbind option_bind]. eexists. split; [done|]. split; [done|]. simpl. by rewrite Hc2, Hi2.
Qed.

Lemma unique_loop_ok v l x n i :
  v_rep v l -> 0 <= i -> Z.of_nat n = blen l - i ->
  unique_loop n i v x = Some (bool_decide (x ∈ drop (Z.to_nat i) l)).
Proof.
  intros Hv. revert i. induction n as [|n IH]; intros i Hi Hn; simpl.
  - rewrite drop_ge by lia. by rewrite bool_decide_false by (by intros ?%elem_of_nil).
  - destruct (lookup_lt_is_Some_2 l (Z.to_nat i)) as [y Hy]; [lia|].
    rewrite (drop_S _ _ _ Hy). destruct Hv as (Hs & H1 & H2 & H3 & H4 & r & Hr).
    rewrite aget_nonneg, Hr, lookup_app_l by (rewrite ?length_fmap; lia).
    rewrite list_lookup_fmap, Hy. cbn [mbind option_bind fmap option_fmap option_map id].
    case_decide as Hxy.
    + by rewrite bool_decide_true by (subst; apply elem_of_cons; by left).
    + rewrite IH by lia.
      replace (Z.to_nat (i + 1)) with (S (Z.to_nat i)) by lia. f_equal. apply bool_decide_ext.
      rewrite elem_of_cons. naive_solver.
Qed.

Lemma move_ok v l i j x :
  v_rep v l -> 0 <= i -> 0 <= j < blen l -> l !! Z.to_nat i = Some x ->
  exists v', as_vector_move v i j = Some v' /\ v_rep v' (<[Z.to_nat j := x]> l) /\ capacity v' = capacity v
    /\ item_size v' = item_size v.
Proof.
  intros Hv Hi Hj Hx. pose proof (rep_length v l Hv). pose proof (lookup_lt_Some _ _ _ Hx).
  destruct (vector_set_ok v l j x Hv Hj) as (v' & Hset & Hv').
  unfold as_vector_move, as_vector_set in *. rewrite !(slot_ok v l) in * by (done || lia).
  cbn [mbind option_bind] in *. exists v'. split; [|done].
  destruct Hv as (_ & _ & _ & _ & _ & r & Hr).
  rewrite aget_nonneg, Hr, lookup_app_l by (rewrite ?length_fmap; lia).
  rewrite list_lookup_fmap, Hx. cbn [mbind option_bind fmap option_fmap option_map].
  by rewrite <- Hr.
Qed.

(** ** Sequences of operations *)

Inductive vop :=
  | VAppend (x : A) | VAppendUnique (x : A) | VSet (i : Z) (x : A) | VGet (i : Z)
  | VMove (source target : Z) | VClear.

(** The answer of an operation: an item, or the result of [as_vector_append_unique]. *)
Inductive vanswer := VItem (x : A) | VAdded (b : bool) | VDone.

Definition v_exec v (op : vop) : option (vanswer * as_vector A) :=
  match op with
  | VAppend x => v ← as_vector_append true v x; Some (VDone, v)
  | VAppendUnique x => '(b, v) ← as_vector_append_unique true v x; Some (VAdded b, v)
  | VSet i x => v ← as_vector_set v i x; Some (VDone, v)
  | VGet i => x ← as_vector_get v i; Some (VItem x, v)
  | VMove i j => v ← as_vector_move v i j; Some (VDone, v)
  | VClear => Some (VDone, as_vector_clear v)
  end.

(** The same on a list; [None] where the index is not one of the list. *)
Definition v_spec (l : list A) (op : vop) : option (vanswer * list A) :=
  match op with
  | VAppend x => Some (VDone, l ++ [x])
  | VAppendUnique x => Some (if decide (x ∈ l) then (VAdded false, l) else (VAdded true, l ++ [x]))
  | VSet i x => if decide (0 <= i < blen l) then Some (VDone, <[Z.to_nat i := x]> l) else None
  | VGet i => x ← aget l i; Some (VItem x, l)
  | VMove i j =>
      x ← aget l i; if decide (0 <= j < blen l) then Some (VDone, <[Z.to_nat j := x]> l) else None
  | VClear => Some (VDone, [])
  end.

Fixpoint v_run v (ops : list vop) : option (list vanswer * as_vector A) :=
  match ops with
  | [] => Some ([], v)
  | op :: ops => '(a, v) ← v_exec v op; '(answers, v) ← v_run v ops; Some (a :: answers, v)
  end.

Fixpoint v_run_spec (l : list A) (ops : list vop) : option (list vanswer * list A) :=
  match ops with
  | [] => Some ([], l)
  | op :: ops => '(a, l) ← v_spec l op; '(answers, l) ← v_run_spec l ops; Some (a :: answers, l)
  end.

Lemma v_rep_room v l : v_rep v l -> 2 * (blen l + 1) * item_size v < 2 ^ 32 -> room v.
Proof.
  intros Hv Hb. pose proof (rep_length v l Hv). destruct Hv as (Hs & Hi & _). unfold room.
  destruct (decide (size v < capacity v)); [by left|]. right.
  replace (capacity v) with (blen l) by lia. nia.
Qed.

Lemma v_step_refines v l op a l' :
  v_rep v l -> 2 * (blen l + 1) * item_size v < 2 ^ 32 -> v_spec l op = Some (a, l') ->
  exists v', v_exec v op = Some (a, v') /\ v_rep v' l' /\ item_size v' = item_size v
    /\ blen l' <= blen l + 1.
Proof.
  intros Hv Hb. pose proof (v_rep_room v l Hv Hb) as Hroom. destruct op as [x|x|i x|i|i j|]; simpl.
  - intros [= <- <-]. destruct (append_ok v l x Hv Hroom) as (v' & -> & Hv' & _ & Hi).
    eexists. split; [done|]. rewrite length_app. simpl. split_and!; [done..|lia].
  - intros Hs. unfold as_vector_append_unique. pose proof Hv as (Hsz & _).
    rewrite (unique_loop_ok v l) by (done || lia). rewrite drop_0. cbn [mbind option_bind].
    case_decide as Hx; simplify_eq.
    + rewrite bool_decide_true by done. eexists. split; [done|]. split_and!; [done..|lia].
    + rewrite bool_decide_false by done. destruct (append_ok v l x Hv Hroom) as (v' & -> & Hv' & _ & Hi).
      eexists. split; [done|]. rewrite length_app. simpl. split_and!; [done..|lia].
  - case_decide; [|done]. intros [= <- <-]. destruct (vector_set_ok v l i x Hv) as (v' & -> & Hv' & _ & Hi); [done|].
    eexists. split; [done|]. rewrite length_insert. split_and!; [done..|lia].
  - destruct (aget l i) as [x|] eqn:Hx; [|done]. intros [= <- <-]. pose proof (aget_Some _ _ _ Hx).
    rewrite aget_nonneg in Hx by lia. rewrite (vector_get_ok v l), Hx by done.
    eexists. split; [done|]. split_and!; [done..|lia].
  - destruct (aget l i) as [x|] eqn:Hx; [|done]. simpl. case_decide; [|done]. intros [= <- <-].
    pose proof (aget_Some _ _ _ Hx). rewrite aget_nonneg in Hx by lia.
    destruct (move_ok v l i j x) as (v' & -> & Hv' & _ & Hi); [done|lia|done|done|].
    eexists. split; [done|]. rewrite length_insert. split_and!; [done..|lia].
  - intros [= <- <-]. eexists. split; [done|]. destruct Hv as (_ & H1 & H2 & H3 & H4 & r & Hr).
    split_and!; [|done|simpl; lia]. repeat (split; [done|]). by exists (items v).
Qed.

Lemma v_run_refines v l ops answers l' :
  v_rep v l -> 2 * (blen l + blen ops) * item_size v < 2 ^ 32 ->
  v_run_spec l ops = Some (answers, l') ->
  exists v', v_run v ops = Some (answers, v') /\ v_rep v' l'.
Proof.
  revert v l answers l'. induction ops as [|op ops IH]; intros v l answers l' Hv Hb; cbn [v_run v_run_spec].
  - intros [= <- <-]. by exists v.
  - assert (0 < item_size v) by (by destruct Hv as (_ & ? & _)).
    assert (0 <= blen ops * item_size v) by nia.
    destruct (v_spec l op) as [[a l1]|] eqn:E1; [|done]. cbn [mbind option_bind length] in *.
    destruct (v_run_spec l1 ops) as [[ans l2]|] eqn:E2; [|done]. intros [= <- <-].
    destruct (v_step_refines v l op a l1 Hv) as (v1 & -> & Hv1 & Hi & Hl); [nia|done|].
    cbn [mbind option_bind].
    destruct (IH v1 l1 ans l2 Hv1) as (v2 & -> & Hv2); [rewrite Hi; nia|done|].
    by exists v2.
Qed.

(** A vector that is in use behaves as the list of its items: any sequence of
    appends, unique appends, reads, writes and moves at indices below the size, and
    clears returns the answers of the same sequence on the list and leaves a vector
    that represents the resulting list, as long as twice the number of items fits
    in 32 bits of size. *)
Theorem vector_refines_list v l ops answers l' :
  v_rep v l -> 2 * (blen l + blen ops) * item_size v < 2 ^ 32 ->
  v_run_spec l ops = Some (answers, l') ->
  exists v', v_run v ops = Some (answers, v') /\ v_rep v' l'.
Proof. apply v_run_refines. Qed.

(** Doubling never helps a vector created with capacity 0: its first append
    writes outside of the items, on the heap as on the stack, whatever the allocator
    answers. *)
Theorem empty_capacity_append isz x ok ok' :
  0 < isz < 2 ^ 32 ->
  as_vector_append ok (as_vector_init ok' isz 0) x = None
  /\ as_vector_append ok (as_vector_inita isz 0) x = None.
Proof.
  intros Hi. unfold as_vector_append, as_vector_init, as_vector_inita, as_vector_increase_capacity.
  simpl. unfold new_block, block_items. change (u32 0) with 0. rewrite Z.mul_0_l.
  change (u32 0) with 0. rewrite Z.div_0_l by lia. unfold as_vector_set, slot; simpl.
  rewrite Z.mul_0_r. change (u32 0) with 0. rewrite Z.mod_0_l by lia.
  destruct ok, ok'; simpl; rewrite ?Z.mul_0_r; change (u32 0) with 0;
    rewrite ?Z.mod_0_l, ?Z.div_0_l by lia; done.
Qed.

(** The vectors the constructors make are in use and empty. *)
Lemma constructed_rep isz cap :
  0 < isz -> 0 < cap -> cap * isz < 2 ^ 32 ->
  v_rep (as_vector_init true isz cap) [] /\ v_rep (as_vector_inita isz cap) [].
Proof.
  intros Hi Hc Hb. split; (repeat split; simpl; try done).
  - unfold new_block. rewrite length_replicate, block_items_eq by lia. lia.
  - by eexists.
  - rewrite length_replicate. lia.
  - by eexists.
Qed.
End Vector.

Lemma vector_refines_list_witness :
  exists v', v_run (as_vector_inita 8 2) [VAppend 5; VAppendUnique 5; VAppendUnique 6; VAppend 7; VGet 2; VMove 2 0; VGet 0]
      = Some ([VDone; VAdded false; VAdded true; VDone; VItem 7; VDone; VItem 7], v') /\ v_rep v' [7; 6; 7].
Proof.
  apply (vector_refines_list (as_vector_inita 8 2) []); [|simpl; lia|reflexivity].
  apply constructed_rep; lia.
Defined.

Lemma empty_capacity_append_witness :
  as_vector_append true (as_vector_init true 8 0) 1 = None /\ as_vector_append true (as_vector_inita 8 0) 1 = None.
Proof. apply empty_capacity_append. lia. Defined.
