(* ===== verification/Queue.v ===== *)
(** * The circular queue and the priority queue

    Models [modules/common/src/main/citrusleaf/cf_queue.c] and
    [cf_queue_priority.c].  An element is moved as a whole ([elementsz] bytes),
    so the byte array of the code is a list of slots, and [None] is a slot that
    was allocated and never written.  The offsets are 32-bit integers that only
    grow and are reduced modulo [allocsz] on access, as in the code. *)

From S2P Require Import Prelude.

Record cf_queue (A : Type) := mk_queue {
  threadsafe : bool;
  allocsz : Z;
  write_offset : Z;
  read_offset : Z;
  queue : list (option A)
}.
Arguments mk_queue {A}.
Arguments threadsafe {A}.
Arguments allocsz {A}.
Arguments write_offset {A}.
Arguments read_offset {A}.
Arguments queue {A}.

(** What the calls out of the module answer during one operation:
    [pthread_mutex_lock], [pthread_mutex_unlock] and the allocator. *)
Record qenv := { lock_ok : bool; unlock_ok : bool; alloc_ok : bool }.
Definition qenv_ok : qenv := {| lock_ok := true; unlock_ok := true; alloc_ok := true |}.

Definition CF_QUEUE_ALLOCSZ : Z := 64.
Definition CF_QUEUE_OK : Z := 0.
Definition CF_QUEUE_ERR : Z := -1.
Definition CF_QUEUE_EMPTY : Z := -2.
Definition CF_QUEUE_NOMATCH : Z := -3.
Definition CF_QUEUE_FOREVER : Z := -1.
Definition CF_QUEUE_NOWAIT : Z := 0.

Section Queue.
Context {A : Type} `{EqDecision A}.
Implicit Types (q : cf_queue A) (x : A).

Definition CF_Q_SZ q : Z := u32 (write_offset q - read_offset q).
Definition CF_Q_EMPTY q : bool := write_offset q =? read_offset q.

(** The slot index of [CF_Q_ELEM_PTR(q, i)]. *)
Definition elem_index q (i : Z) : Z := i mod allocsz q.

(** Reading an element.  [None]: outside the array, or a slot never written. *)
Definition elem_get q (i : Z) : option A := aget (queue q) (elem_index q i) ≫= id.
Definition elem_set q (i : Z) x : option (cf_queue A) :=
  m ← aset (queue q) (elem_index q i) (Some x);
  Some (mk_queue (threadsafe q) (allocsz q) (write_offset q) (read_offset q) m).

Definition set_offsets q (w r : Z) : cf_queue A :=
  mk_queue (threadsafe q) (allocsz q) w r (queue q).

(** The initialisation of the mutex and of the condition variable can fail too:
    [inits] holds their two answers. *)
Definition cf_queue_create (h : heap) (inits : bool * bool) (ts : bool) : option (cf_queue A) :=
  let '(ok1, h) := cf_malloc h in
  let '(ok2, _) := cf_malloc h in
  if negb ok1 then None
  else if negb ok2 then None
  else
    let q := mk_queue ts CF_QUEUE_ALLOCSZ 0 0 (replicate 64 None) in
    if negb ts then Some q
    else if negb (fst inits) then None
    else if negb (snd inits) then None
    else Some q.

Definition cf_queue_sz q : Z := i32 (CF_Q_SZ q).

(** A failed [cf_realloc] is assigned to [q->queue] before it is tested: the
    array becomes NULL, here the array without slots. *)
Definition cf_queue_resize (alloc : bool) q (new_sz : Z) : option (Z * cf_queue A) :=
  if negb (CF_Q_SZ q =? allocsz q) then Some (-1, q)
  else if 0 =? read_offset q mod allocsz q then
    if negb alloc then
      Some (-1, mk_queue (threadsafe q) (allocsz q) (write_offset q) (read_offset q) [])
    else
      Some (0, mk_queue (threadsafe q) new_sz (allocsz q) 0
                 (take (Z.to_nat new_sz)
                    (queue q ++ replicate (Z.to_nat (new_sz - allocsz q)) None)))
  else
    if negb alloc then Some (-1, q)
    else
      let newq := replicate (Z.to_nat new_sz) None in
      let endsz := allocsz q - read_offset q mod allocsz q in
      s1 ← mslice (queue q) (elem_index q (read_offset q)) endsz;
      newq ← mwrite newq 0 s1;
      s2 ← mslice (queue q) 0 (allocsz q - endsz);
      newq ← mwrite newq endsz s2;
      Some (0, mk_queue (threadsafe q) new_sz (allocsz q) 0 newq).

Definition cf_queue_unwrap q : cf_queue A :=
  let sz := i32 (CF_Q_SZ q) in
  let r := read_offset q mod allocsz q in
  set_offsets q (u32 (r + sz)) r.

(** The guard against wrap-around that follows every write. *)
Definition unwrap_if_needed q : cf_queue A :=
  if negb (Z.land (write_offset q) 0xC0000000 =? 0) then cf_queue_unwrap q else q.

(** The tail of the push operations: copy the element, advance, unwrap. *)
Definition push_tail q x : option (cf_queue A) :=
  q ← elem_set q (write_offset q) x;
  Some (unwrap_if_needed (set_offsets q (u32 (write_offset q + 1)) (read_offset q))).

(** Whether taking (releasing) the lock fails. *)
Definition lock_fails (e : qenv) q : bool := threadsafe q && negb (lock_ok e).
Definition unlock_fails (e : qenv) q : bool := threadsafe q && negb (unlock_ok e).

(** [Some (rc, q)]: the call returned [rc]; [None]: undefined behaviour. *)
Definition cf_queue_push (e : qenv) q (ptr : option A) : option (Z * cf_queue A) :=
  match ptr with
  | None => Some (-1, q)
  | Some x =>
      if lock_fails e q then Some (-1, q)
      else
        '(rc, q1) ← (if CF_Q_SZ q =? allocsz q
                     then cf_queue_resize (alloc_ok e) q (u32 (allocsz q * 2))
                     else Some (0, q));
        if negb (rc =? 0) then Some (-1, q1)
        else
          q2 ← push_tail q1 x;
          if unlock_fails e q2 then Some (-1, q2) else Some (0, q2)
  end.

Definition cf_queue_push_limit (e : qenv) q x (limit : Z) : option (bool * cf_queue A) :=
  if lock_fails e q then Some (false, q)
  else if limit <=? CF_Q_SZ q then Some (false, q)
  else
    '(rc, q1) ← (if CF_Q_SZ q =? allocsz q
                 then cf_queue_resize (alloc_ok e) q (u32 (allocsz q * 2))
                 else Some (0, q));
    if negb (rc =? 0) then Some (false, q1)
    else
      q2 ← push_tail q1 x;
      if unlock_fails e q2 then Some (false, q2) else Some (true, q2).

(** [for (i = i0; i < write_offset; i++)] looking for [x]. *)
Fixpoint find_loop (fuel : nat) q x (i : Z) : option bool :=
  match fuel with
  | O => None
  | S fuel =>
      if i <? write_offset q then
        y ← elem_get q i;
        if decide (y = x) then Some true else find_loop fuel q x (u32 (i + 1))
      else Some false
  end.

(** The number of iterations is at most the number of elements. *)
Definition loop_fuel q : nat := S (Z.to_nat (CF_Q_SZ q)).

Definition cf_queue_push_unique (e : qenv) q x : option (Z * cf_queue A) :=
  if lock_fails e q then Some (-1, q)
  else
    found ← (if negb (CF_Q_SZ q =? 0) then find_loop (loop_fuel q) q x (read_offset q)
             else Some false);
    if (found : bool) then Some (-2, q)
    else
      '(rc, q1) ← (if CF_Q_SZ q =? allocsz q
                   then cf_queue_resize (alloc_ok e) q (u32 (allocsz q * 2))
                   else Some (0, q));
      if negb (rc =? 0) then Some (-1, q1)
      else
        q2 ← push_tail q1 x;
        if unlock_fails e q2 then Some (-1, q2) else Some (0, q2).

Definition cf_queue_push_head (e : qenv) q x : option (Z * cf_queue A) :=
  if lock_fails e q then Some (-1, q)
  else
    '(rc, q1) ← (if CF_Q_SZ q =? allocsz q
                 then cf_queue_resize (alloc_ok e) q (u32 (allocsz q * 2))
                 else Some (0, q));
    if negb (rc =? 0) then Some (-1, q1)
    else
      q2 ←
        (if read_offset q1 =? write_offset q1 then
           q' ← elem_set q1 (write_offset q1) x;
           Some (set_offsets q' (u32 (write_offset q' + 1)) (read_offset q'))
         else if 0 <? read_offset q1 then
           elem_set (set_offsets q1 (write_offset q1) (read_offset q1 - 1)) (read_offset q1 - 1) x
         else
           m ← mmove (queue q1) (elem_index q1 1) (elem_index q1 0) (CF_Q_SZ q1);
           q' ← elem_set (mk_queue (threadsafe q1) (allocsz q1) (write_offset q1) (read_offset q1) m) 0 x;
           Some (set_offsets q' (u32 (write_offset q' + 1)) (read_offset q')));
      let q3 := unwrap_if_needed q2 in
      if unlock_fails e q3 then Some (-1, q3) else Some (0, q3).

(** ** Pop

    While the queue is empty a thread-safe pop waits on the condition variable;
    [wakes] holds the queue as the other threads left it each time the wait
    returns.  [PopBlocked]: still waiting after all of them. *)
Inductive pop_res :=
  | PopBlocked
  | PopRet (rc : Z) (buf : option A) (q : cf_queue A).

Fixpoint pop_wait (ms_wait : Z) q (wakes : list (cf_queue A)) : pop_res + cf_queue A :=
  if CF_Q_EMPTY q then
    if ms_wait =? CF_QUEUE_NOWAIT then inl (PopRet CF_QUEUE_EMPTY None q)
    else
      match wakes with
      | [] => inl PopBlocked
      | q' :: wakes =>
          if ms_wait =? CF_QUEUE_FOREVER then pop_wait ms_wait q' wakes
          else if CF_Q_EMPTY q' then inl (PopRet CF_QUEUE_EMPTY None q')
          else pop_wait ms_wait q' wakes
      end
  else inr q.

(** Copies the head out and advances; an emptied queue restarts at offset 0. *)
Definition pop_head (e : qenv) q : option pop_res :=
  x ← elem_get q (read_offset q);
  let r := u32 (read_offset q + 1) in
  let q' := if r =? write_offset q then set_offsets q 0 0 else set_offsets q (write_offset q) r in
  if unlock_fails e q' then Some (PopRet (-1) (Some x) q') else Some (PopRet 0 (Some x) q').

Definition cf_queue_pop (e : qenv) q (ms_wait : Z) (wakes : list (cf_queue A)) : option pop_res :=
  if lock_fails e q then Some (PopRet (-1) None q)
  else if threadsafe q then
    match pop_wait ms_wait q wakes with
    | inl r => Some r
    | inr q' => pop_head e q'
    end
  else if CF_Q_EMPTY q then Some (PopRet CF_QUEUE_EMPTY None q)
  else pop_head e q.

(** ** Deletion *)

Definition cf_queue_delete_offset q (index : Z) : option (cf_queue A) :=
  let index := index mod allocsz q in
  let r_index := read_offset q mod allocsz q in
  let w_index := write_offset q mod allocsz q in
  if index =? r_index then
    Some (set_offsets q (write_offset q) (u32 (read_offset q + 1)))
  else if negb (w_index =? 0) && (index =? w_index - 1) then
    Some (set_offsets q (u32 (write_offset q - 1)) (read_offset q))
  else if r_index <? index then
    m ← mmove (queue q) (r_index + 1) r_index (index - r_index);
    Some (mk_queue (threadsafe q) (allocsz q) (write_offset q) (u32 (read_offset q + 1)) m)
  else if index <? w_index then
    m ← mmove (queue q) index (index + 1) (w_index - index - 1);
    Some (mk_queue (threadsafe q) (allocsz q) (u32 (write_offset q - 1)) (read_offset q) m)
  else Some q.

(** ** Iteration *)

(** The callback sees an element and its user data and answers 0, -1 or -2. *)
Section Reduce.
Context {U : Type} (cb : A -> U -> Z * U).

Fixpoint reduce_loop (fuel : nat) q (i : Z) (u : U) : option (cf_queue A * U) :=
  match fuel with
  | O => None
  | S fuel =>
      if i <? write_offset q then
        x ← elem_get q i;
        let '(rv, u) := cb x u in
        if rv =? -1 then Some (q, u)
        else if rv =? -2 then q' ← cf_queue_delete_offset q i; Some (q', u)
        else reduce_loop fuel q (u32 (i + 1)) u
      else Some (q, u)
  end.

Definition cf_queue_reduce (e : qenv) q (u : U) : option (Z * cf_queue A * U) :=
  if lock_fails e q then Some (-1, q, u)
  else
    '(q', u) ← (if negb (CF_Q_SZ q =? 0) then reduce_loop (loop_fuel q) q (read_offset q) u
                else Some (q, u));
    if unlock_fails e q' then Some (-1, q', u) else Some (0, q', u).

(** The reverse loop, run for at most [fuel] iterations: [Some None] when they
    run out.  The test [i >= read_offset] is on unsigned integers. *)
Fixpoint reduce_reverse_loop (fuel : nat) q (i : Z) (u : U) : option (option (cf_queue A * U)) :=
  match fuel with
  | O => Some None
  | S fuel =>
      if read_offset q <=? i then
        x ← elem_get q i;
        let '(rv, u) := cb x u in
        if rv =? -1 then Some (Some (q, u))
        else if rv =? -2 then q' ← cf_queue_delete_offset q i; Some (Some (q', u))
        else reduce_reverse_loop fuel q (u32 (i - 1)) u
      else Some (Some (q, u))
  end.

Definition cf_queue_reduce_reverse (fuel : nat) (e : qenv) q (u : U)
  : option (option (Z * cf_queue A * U)) :=
  if lock_fails e q then Some (Some (-1, q, u))
  else
    r ← (if negb (CF_Q_SZ q =? 0)
         then reduce_reverse_loop fuel q (u32 (write_offset q - 1)) u
         else Some (Some (q, u)));
    match r with
    | None => Some None
    | Some (q', u) =>
        if unlock_fails e q' then Some (Some (-1, q', u)) else Some (Some (0, q', u))
    end.
End Reduce.

(** [cf_queue_delete]: [buf = None] is the NULL that matches every element. *)
Fixpoint delete_loop (fuel : nat) q (buf : option A) (only_one found : bool) (i : Z)
  : option (cf_queue A * bool) :=
  match fuel with
  | O => None
  | S fuel =>
      if i <? write_offset q then
        matches ← (match buf with
                   | None => Some true
                   | Some b => y ← elem_get q i; Some (bool_decide (y = b))
                   end);
        if (matches : bool) then
          q' ← cf_queue_delete_offset q i;
          if only_one then Some (q', true)
          else delete_loop fuel q' buf only_one true (u32 (i + 1))
        else delete_loop fuel q buf only_one found (u32 (i + 1))
      else Some (q, found)
  end.

Definition cf_queue_delete (e : qenv) q (buf : option A) (only_one : bool)
  : option (Z * cf_queue A) :=
  if lock_fails e q then Some (CF_QUEUE_ERR, q)
  else
    '(q', found) ← (if negb (CF_Q_SZ q =? 0)
                    then delete_loop (loop_fuel q) q buf only_one false (read_offset q)
                    else Some (q, false));
    if unlock_fails e q' then Some (-1, q')
    else if (found : bool) then Some (CF_QUEUE_OK, q') else Some (CF_QUEUE_EMPTY, q').

Definition cf_queue_delete_all (e : qenv) q : option (Z * cf_queue A) :=
  cf_queue_delete e q None false.

End Queue.
Arguments pop_res : clear implicits.

(** ** The abstract queue

    [q_rep q l]: the structure is well formed and holds the elements [l], head
    first.  The 2^29 bound keeps the offsets below the unwrap threshold. *)

Section Refinement.
Context {A : Type} `{EqDecision A}.
Implicit Types (q : cf_queue A) (x : A) (l : list A).

Definition MAX_ALLOC : Z := 2 ^ 29.

Definition q_shape q : Prop :=
  0 < allocsz q <= MAX_ALLOC /\ blen (queue q) = allocsz q
  /\ 0 <= read_offset q <= write_offset q
  /\ write_offset q - read_offset q <= allocsz q /\ write_offset q <= 2 ^ 30.

Definition q_holds q l : Prop :=
  blen l = write_offset q - read_offset q
  /\ forall k x, l !! k = Some x -> elem_get q (read_offset q + Z.of_nat k) = Some x.

Definition q_rep q l : Prop :=
  q_shape q /\ write_offset q < 2 ^ 30 /\ q_holds q l.

(** *** Slots *)

Lemma mod_inj a i j : 0 < a -> - a < i - j < a -> i mod a = j mod a -> i = j.
Proof.
  intros Ha Hd Hm.
  pose proof (Z.div_mod i a ltac:(lia)) as Hi. pose proof (Z.div_mod j a ltac:(lia)) as Hj.
  rewrite Hm in Hi. assert (i / a = j / a) by nia. lia.
Qed.

Lemma elem_get_lookup q i :
  0 < allocsz q -> elem_get q i = queue q !! Z.to_nat (i mod allocsz q) ≫= id.
Proof.
  intros Ha. unfold elem_get, elem_index. rewrite aget_nonneg; [done|].
  apply Z.mod_pos_bound; lia.
Qed.

Lemma elem_set_ok q i x :
  0 < allocsz q -> blen (queue q) = allocsz q ->
  elem_set q i x
  = Some (mk_queue (threadsafe q) (allocsz q) (write_offset q) (read_offset q)
            (<[Z.to_nat (i mod allocsz q) := Some x]> (queue q))).
Proof.
  intros Ha Hl. unfold elem_set, elem_index.
  pose proof (Z.mod_pos_bound i (allocsz q) Ha). rewrite aset_Some by lia. done.
Qed.

(** Reading back after a write to slot [i]. *)
Lemma elem_get_insert ts a w r m i j x :
  0 < a -> blen m = a ->
  elem_get (mk_queue ts a w r (<[Z.to_nat (i mod a) := Some x]> m)) j
  = if decide (i mod a = j mod a) then Some x else elem_get (mk_queue ts a w r m) j.
Proof.
  intros Ha Hl. rewrite !elem_get_lookup by done. simpl.
  pose proof (Z.mod_pos_bound i a Ha). pose proof (Z.mod_pos_bound j a Ha).
  case_decide as Hd.
  - rewrite <- Hd, list_lookup_insert_eq by lia. done.
  - rewrite list_lookup_insert_ne by lia. done.
Qed.

Lemma elem_get_offsets q w r i : elem_get (set_offsets q w r) i = elem_get q i.
Proof. done. Qed.

Lemma q_sz q l : q_shape q -> q_holds q l -> CF_Q_SZ q = blen l.
Proof.
  intros (Ha & _ & Hr & Hs & Hw) (Hl & _). unfold CF_Q_SZ, MAX_ALLOC in *.
  rewrite u32_id by (unfold is_u32; lia). lia.
Qed.

(** *** Unwrapping *)

Lemma top_bits w : 0 <= w <= 2 ^ 30 -> (Z.land w 0xC0000000 =? 0) = (w <? 2 ^ 30).
Proof.
  intros Hw. destruct (decide (w = 2 ^ 30)) as [->|Hne]; [done|].
  rewrite (proj2 (Z.ltb_lt _ _)) by lia. apply Z.eqb_eq.
  rewrite <- (Z.mod_small w (2 ^ 30)) by lia. change 0xC0000000 with (Z.shiftl 3 30).
  apply Z.bits_inj'. intros i Hi. rewrite Z.bits_0, Z.land_spec.
  destruct (decide (i < 30)).
  - rewrite Z.shiftl_spec_low by lia. apply andb_false_r.
  - rewrite Z.mod_pow2_bits_high by lia. done.
Qed.

Lemma unwrap_ok q l : q_shape q -> q_holds q l -> q_rep (unwrap_if_needed q) l.
Proof.
  intros Hq Hh. pose proof (q_sz _ _ Hq Hh) as Hsz.
  destruct Hq as (Ha & Hlen & Hr & Hs & Hw), Hh as (Hl & Hk).
  unfold unwrap_if_needed, MAX_ALLOC in *. rewrite top_bits by lia.
  destruct (write_offset q <? 2 ^ 30) eqn:E; reflect_Z; simpl.
  { split_and!; [done| |done..]. lia. }
  unfold cf_queue_unwrap. rewrite Hsz, i32_id by lia.
  pose proof (Z.mod_pos_bound (read_offset q) (allocsz q) ltac:(lia)).
  rewrite u32_id by (unfold is_u32; lia).
  split; [|split]; [split_and!; simpl; unfold MAX_ALLOC; lia|simpl; lia|].
  split; [simpl; lia|]. intros k x Hx. rewrite elem_get_offsets. simpl.
  specialize (Hk k x Hx). rewrite elem_get_lookup in Hk |- * by lia.
  by rewrite Zplus_mod_idemp_l.
Qed.

(** *** Pushing at the tail *)

Lemma push_tail_ok q l x :
  q_rep q l -> blen l < allocsz q ->
  exists q', push_tail q x = Some q' /\ q_rep q' (l ++ [x])
             /\ allocsz q' = allocsz q /\ threadsafe q' = threadsafe q.
Proof.
  intros ((Ha & Hlen & Hr & Hs & Hw) & Hw' & Hl & Hk) Hroom. unfold push_tail.
  rewrite elem_set_ok by lia. eexists. split; [done|]. split.
  - apply unwrap_ok.
    + unfold q_shape, set_offsets, MAX_ALLOC in *. simpl.
      rewrite length_insert, u32_id by (unfold is_u32; lia). lia.
    + unfold set_offsets. split; simpl; rewrite u32_id by (unfold is_u32; lia).
      * rewrite length_app. simpl. lia.
      * intros k y Hy. rewrite elem_get_insert by lia. case_decide as Hd.
        -- apply lookup_app_Some in Hy as [Hy|[Hge Hy]].
           ++ apply lookup_lt_Some in Hy. apply mod_inj in Hd; lia.
           ++ by apply list_lookup_singleton_Some in Hy as [_ ->].
        -- apply lookup_app_Some in Hy as [Hy|[Hge Hy]]; [by apply Hk|].
           apply list_lookup_singleton_Some in Hy as [Hz _].
           exfalso. apply Hd. f_equal. lia.
  - unfold unwrap_if_needed, cf_queue_unwrap. by case_if.
Qed.

(** *** Growing *)

(** A new array that holds the elements from slot 0 on. *)
Lemma q_rep_restart q l m ts a w :
  q_rep q l -> blen m = a -> 0 < a <= MAX_ALLOC -> w = blen l -> w <= a ->
  (forall k, (k < length l)%nat ->
     m !! k = queue q !! Z.to_nat ((read_offset q + Z.of_nat k) mod allocsz q)) ->
  q_rep (mk_queue ts a w 0 m) l.
Proof.
  intros ((Ha & Hlen & Hr & Hs & Hw) & Hw' & Hl & Hk) Hm Ha' -> Hle Heq.
  unfold MAX_ALLOC in *. split; [|split; [simpl; lia|]].
  - unfold q_shape, MAX_ALLOC. simpl. lia.
  - split; [simpl; lia|]. simpl. intros k x Hx. pose proof (lookup_lt_Some _ _ _ Hx).
    specialize (Hk k x Hx). rewrite elem_get_lookup in Hk |- * by (cbn; lia).
    cbn [queue allocsz].
    by rewrite Z.add_0_l, (Z.mod_small (Z.of_nat k)), Nat2Z.id, Heq by lia.
Qed.

Lemma lookup_rotated {B} (m : list B) (r k : nat) rest :
  (r < length m)%nat -> (k < length m)%nat ->
  (drop r m ++ take r m ++ rest) !! k = m !! ((r + k) mod length m)%nat.
Proof.
  intros Hr Hk. destruct (decide (k < length m - r)%nat).
  - rewrite lookup_app_l, lookup_drop by (rewrite length_drop; lia).
    by rewrite Nat.mod_small by lia.
  - rewrite lookup_app_r by (rewrite length_drop; lia). rewrite length_drop.
    rewrite lookup_app_l by (rewrite length_take; lia).
    rewrite lookup_take_lt by lia. f_equal.
    apply Nat.mod_unique with 1%nat; lia.
Qed.

Lemma resize_ok q l :
  q_rep q l -> blen l = allocsz q -> allocsz q <= 2 ^ 28 ->
  exists q', cf_queue_resize true q (u32 (allocsz q * 2)) = Some (0, q')
             /\ q_rep q' l /\ allocsz q' = allocsz q * 2 /\ threadsafe q' = threadsafe q.
Proof.
  intros Hq Hfull Hmax. pose proof (q_sz q l (proj1 Hq) (proj2 (proj2 Hq))) as Hsz.
  pose proof Hq as ((Ha & Hlen & Hr & Hs & Hw) & Hw' & Hl & Hk). unfold MAX_ALLOC in *.
  rewrite u32_id by (unfold is_u32; lia). unfold cf_queue_resize.
  rewrite (proj2 (Z.eqb_eq (CF_Q_SZ q) _)) by lia. simpl negb.
  pose proof (Z.mod_pos_bound (read_offset q) (allocsz q) ltac:(lia)) as Hrm.
  destruct (0 =? read_offset q mod allocsz q) eqn:E; reflect_Z; cbn [negb].
  - eexists. split_and!; [done| |done..].
    apply (q_rep_restart q l); try (unfold MAX_ALLOC; lia); [done| |].
    + rewrite length_take, length_app, length_replicate. lia.
    + intros k Hlt. rewrite lookup_take_lt, lookup_app_l by lia. f_equal.
      rewrite <- Zplus_mod_idemp_l, <- E, Z.add_0_l, Z.mod_small; lia.
  - set (r := read_offset q mod allocsz q) in *. unfold elem_index. fold r.
    rewrite (mslice_drop (queue q) r) by lia. cbn [mbind option_bind].
    set (s1 := drop (Z.to_nat r) (queue q)). set (s2 := take (Z.to_nat r) (queue q)).
    assert (length s1 = Z.to_nat (allocsz q - r)) as L1 by (unfold s1; rewrite length_drop; lia).
    assert (length s2 = Z.to_nat r) as L2 by (unfold s2; rewrite length_take; lia).
    replace (Z.to_nat (allocsz q * 2)) with (length s1 + (length s2 + Z.to_nat (allocsz q)))%nat by lia.
    rewrite !replicate_add.
    rewrite mwrite_0 by by rewrite length_replicate.
    cbn [mbind option_bind].
    rewrite mslice_take by lia.
    replace (Z.to_nat (allocsz q - (allocsz q - r))) with (Z.to_nat r) by lia. fold s2.
    cbn [mbind option_bind].
    rewrite (mwrite_app s1 (replicate (length s2) None)) by (rewrite ?length_replicate; lia).
    cbn [mbind option_bind].
    eexists. split_and!; [done| |done..].
    apply (q_rep_restart q l); try (unfold MAX_ALLOC; lia); [done| |].
    + rewrite !length_app, length_replicate. lia.
    + intros k Hlt. unfold s1, s2. rewrite lookup_rotated by lia. f_equal.
      rewrite <- Zplus_mod_idemp_l. fold r.
      replace (length (queue q)) with (Z.to_nat (allocsz q)) by lia.
      by rewrite Z2Nat.inj_mod, Z2Nat.inj_add, Nat2Z.id by lia.
Qed.

(** Room for one more element: the first step of every push. *)
Definition room_for_push q : Prop := CF_Q_SZ q <> allocsz q \/ allocsz q <= 2 ^ 28.

Lemma make_room q l :
  q_rep q l -> room_for_push q ->
  exists q', (if CF_Q_SZ q =? allocsz q
              then cf_queue_resize true q (u32 (allocsz q * 2)) else Some (0, q)) = Some (0, q')
             /\ q_rep q' l /\ blen l < allocsz q' /\ threadsafe q' = threadsafe q.
Proof.
  intros Hq Hroom. pose proof (q_sz q l (proj1 Hq) (proj2 (proj2 Hq))) as Hsz.
  pose proof Hq as ((Ha & Hlen & Hr & Hs & Hw) & Hw' & Hl & Hk).
  destruct (CF_Q_SZ q =? allocsz q) eqn:E; reflect_Z.
  - destruct Hroom as [|Hm]; [done|].
    destruct (resize_ok q l Hq) as (q' & H1 & H2 & H3 & H4); [lia..|].
    exists q'. split_and!; try done. lia.
  - exists q. split_and!; try done. lia.
Qed.

(** *** Popping *)

Lemma elem_get_head q x l : q_rep q (x :: l) -> elem_get q (read_offset q) = Some x.
Proof.
  intros (_ & _ & _ & Hk). specialize (Hk 0%nat x eq_refl). by rewrite Z.add_0_r in Hk.
Qed.

Lemma q_rep_empty q : q_shape q -> q_rep (set_offsets q 0 0) [].
Proof.
  intros (Ha & Hlen & _). split; [unfold q_shape; simpl; lia|]. split; [simpl; lia|]. done.
Qed.

(** Advancing the read offset drops the head. *)
Lemma q_rep_advance q x l :
  q_rep q (x :: l) -> q_rep (set_offsets q (write_offset q) (read_offset q + 1)) l.
Proof.
  intros ((Ha & Hlen & Hr & Hs & Hw) & Hw' & Hl & Hk). simpl in Hl.
  split; [unfold q_shape; simpl; lia|]. split; [done|]. split; [simpl; lia|].
  intros k y Hy. rewrite elem_get_offsets. simpl.
  specialize (Hk (S k) y Hy). rewrite <- Hk. f_equal. lia.
Qed.

Lemma pop_head_ok e q x l :
  q_rep q (x :: l) ->
  exists q', pop_head e q = Some (PopRet (if unlock_fails e q then -1 else 0) (Some x) q')
             /\ q_rep q' l /\ threadsafe q' = threadsafe q.
Proof.
  intros Hq. pose proof (elem_get_head q x l Hq) as Hx.
  pose proof Hq as ((Ha & Hlen & Hr & Hs & Hw) & Hw' & Hl & Hk). simpl in Hl.
  unfold pop_head. rewrite Hx. cbn [mbind option_bind].
  rewrite u32_id by (unfold is_u32; lia).
  destruct (read_offset q + 1 =? write_offset q) eqn:E; reflect_Z.
  - exists (set_offsets q 0 0). unfold unlock_fails. simpl.
    destruct l as [|y l]; [|simpl in Hl; lia].
    split_and!; [by case_if|by apply q_rep_empty|done].
  - eexists. unfold unlock_fails. simpl.
    split_and!; [by case_if|by eapply q_rep_advance|done].
Qed.

Lemma pop_nowait_empty e q :
  q_rep q [] -> lock_fails e q = false ->
  cf_queue_pop e q CF_QUEUE_NOWAIT [] = Some (PopRet CF_QUEUE_EMPTY None q).
Proof.
  intros (_ & _ & Hl & _) Hlock. simpl in Hl. unfold cf_queue_pop. rewrite Hlock.
  assert (CF_Q_EMPTY q = true) as He by (unfold CF_Q_EMPTY; apply Z.eqb_eq; lia).
  simpl. rewrite He. by case_if.
Qed.

Lemma q_not_empty q x l : q_rep q (x :: l) -> CF_Q_EMPTY q = false.
Proof.
  intros (_ & _ & Hl & _). simpl in Hl. unfold CF_Q_EMPTY. apply Z.eqb_neq. lia.
Qed.

Lemma pop_wait_ready ms q x l wakes : q_rep q (x :: l) -> pop_wait ms q wakes = inr q.
Proof. intros Hq. destruct wakes; simpl; by rewrite (q_not_empty q x l Hq). Qed.

(** *** Pushing at the head *)

Lemma push_head_empty q x :
  q_rep q [] ->
  exists q', elem_set q (write_offset q) x = Some q'
    /\ q_rep (unwrap_if_needed (set_offsets q' (u32 (write_offset q' + 1)) (read_offset q'))) [x].
Proof.
  intros Hq. pose proof Hq as ((Ha & Hlen & Hr & Hs & Hw) & Hw' & Hl & Hk). simpl in Hl.
  destruct (push_tail_ok q [] x Hq) as (q' & H & Hrep & _); [simpl; lia|].
  unfold push_tail in H. rewrite elem_set_ok in H |- * by lia. eexists. split; [done|].
  injection H as <-. done.
Qed.

Lemma push_head_front q x l :
  q_rep q l -> blen l < allocsz q -> 0 < read_offset q ->
  exists q', elem_set (set_offsets q (write_offset q) (read_offset q - 1)) (read_offset q - 1) x
             = Some q' /\ q_rep q' (x :: l) /\ threadsafe q' = threadsafe q.
Proof.
  intros ((Ha & Hlen & Hr & Hs & Hw) & Hw' & Hl & Hk) Hroom Hpos.
  rewrite elem_set_ok by (simpl; lia). eexists. split; [done|]. split; [|done]. simpl.
  split; [unfold q_shape; simpl; rewrite length_insert; lia|]. split; [done|].
  split; [simpl; lia|]. intros k y Hy. rewrite elem_get_insert by lia. simpl.
  destruct k as [|k]; simpl in Hy.
  - rewrite decide_True by (f_equal; lia). done.
  - pose proof (lookup_lt_Some _ _ _ Hy). case_decide as Hd; [apply mod_inj in Hd; lia|].
    rewrite <- (Hk k y Hy). unfold elem_get, elem_index. simpl. do 3 f_equal. lia.
Qed.

Lemma push_head_shift q x l :
  q_rep q l -> blen l < allocsz q -> read_offset q = 0 -> l <> [] ->
  exists m q', mmove (queue q) (elem_index q 1) (elem_index q 0) (CF_Q_SZ q) = Some m
    /\ elem_set (mk_queue (threadsafe q) (allocsz q) (write_offset q) (read_offset q) m) 0 x = Some q'
    /\ q_rep (unwrap_if_needed (set_offsets q' (u32 (write_offset q' + 1)) (read_offset q'))) (x :: l).
Proof.
  intros Hq Hroom Hr0 Hne. pose proof (q_sz q l (proj1 Hq) (proj2 (proj2 Hq))) as Hsz.
  pose proof Hq as ((Ha & Hlen & Hr & Hs & Hw) & Hw' & Hl & Hk). unfold MAX_ALLOC in *.
  assert (0 < blen l) by (destruct l; simpl in *; [done|lia]).
  unfold elem_index. rewrite Hsz, !Z.mod_small by lia.
  unfold mmove. rewrite mslice_take by lia. cbn [mbind option_bind]. rewrite Nat2Z.id.
  set (s := take (length l) (queue q)).
  assert (length s = length l) as Ls by (unfold s; rewrite length_take; lia).
  unfold mwrite. rewrite decide_True by lia. change (Z.to_nat 1) with 1%nat.
  eexists _, _. split; [done|].
  rewrite elem_set_ok; [|simpl; lia|simpl; rewrite !length_app, length_take, length_drop; lia].
  split; [done|]. apply unwrap_ok; unfold set_offsets; cbn [write_offset read_offset allocsz queue].
  - rewrite u32_id by (unfold is_u32; lia). unfold q_shape, MAX_ALLOC. simpl.
    rewrite length_insert, !length_app, length_take, length_drop. lia.
  - rewrite u32_id by (unfold is_u32; lia). split; [simpl length; simpl; lia|].
    intros k y Hy. cbn [read_offset]. rewrite Hr0, Z.add_0_l.
    pose proof (lookup_lt_Some _ _ _ Hy) as Hlt. simpl in Hlt.
    rewrite elem_get_insert by (rewrite ?length_app, ?length_take, ?length_drop; lia).
    rewrite (Z.mod_small 0), (Z.mod_small (Z.of_nat k)) by lia.
    destruct k as [|k]; simpl in Hy; [by rewrite decide_True|]. rewrite decide_False by lia.
    specialize (Hk k y Hy). rewrite Hr0, Z.add_0_l in Hk.
    rewrite elem_get_lookup in Hk |- * by (simpl; lia). cbn [queue allocsz].
    rewrite Z.mod_small, Nat2Z.id in Hk |- * by lia.
    rewrite lookup_app_r by (rewrite length_take; lia). rewrite length_take.
    replace (S k - 1 `min` length (queue q))%nat with k by lia.
    rewrite lookup_app_l by lia. unfold s. by rewrite lookup_take_lt by lia.
Qed.

(** *** Deleting in the middle *)

(** The physical slot [j] places after the offset [b]. *)
Lemma elem_get_near q b j r :
  0 < allocsz q -> 0 <= j <= allocsz q -> r = b mod allocsz q ->
  elem_get q (b + j)
  = queue q !! Z.to_nat (if decide (r + j < allocsz q) then r + j else r + j - allocsz q) ≫= id.
Proof.
  intros Ha Hj ->. rewrite elem_get_lookup by done.
  rewrite <- Zplus_mod_idemp_l. pose proof (Z.mod_pos_bound b (allocsz q) Ha).
  by rewrite mod_wrap by lia.
Qed.

(** Lowering the write offset drops the last element. *)
Lemma q_rep_drop_last q l k :
  q_rep q l -> S k = length l ->
  q_rep (set_offsets q (u32 (write_offset q - 1)) (read_offset q)) (delete k l).
Proof.
  intros ((Ha & Hlen & Hr & Hs & Hw) & Hw' & Hl & Hk) Hlast.
  rewrite u32_id by (unfold is_u32; lia).
  split; [unfold q_shape; simpl; lia|]. split; [simpl; lia|]. split.
  - rewrite length_delete by (apply lookup_lt_is_Some; lia). simpl. lia.
  - intros j y Hy. rewrite elem_get_offsets. simpl. apply Hk.
    pose proof (lookup_lt_Some _ _ _ Hy) as Hlt.
    rewrite length_delete in Hlt by (apply lookup_lt_is_Some; lia).
    by rewrite list_lookup_delete_lt in Hy by lia.
Qed.

(** The elements before position [k] moved up by one slot. *)
Lemma q_rep_close_up q l k m :
  q_rep q l -> (k < length l)%nat ->
  let r := read_offset q mod allocsz q in
  r + Z.of_nat k < allocsz q ->
  length m = length (queue q) ->
  (forall i, 0 <= i -> m !! Z.to_nat i = if decide (r + 1 <= i < r + 1 + Z.of_nat k)
     then queue q !! Z.to_nat (i - (r + 1) + r) else queue q !! Z.to_nat i) ->
  q_rep (mk_queue (threadsafe q) (allocsz q) (write_offset q) (read_offset q + 1) m) (delete k l).
Proof.
  intros ((Ha & Hlen & Hr & Hs & Hw) & Hw' & Hl & Hk) Hlt r Hrk Hm Hi.
  pose proof (Z.mod_pos_bound (read_offset q) (allocsz q) ltac:(lia)) as Hb. fold r in Hb.
  split; [unfold q_shape; simpl; lia|]. split; [simpl; lia|]. split.
  - rewrite length_delete by (apply lookup_lt_is_Some; lia). simpl. lia.
  - intros j y Hy. pose proof (lookup_lt_Some _ _ _ Hy) as Hj.
    rewrite length_delete in Hj by (apply lookup_lt_is_Some; lia). cbn [read_offset].
    rewrite <- Z.add_assoc.
    rewrite (elem_get_near _ _ _ r) by (simpl; lia || done). cbn [queue allocsz].
    rewrite Hi by (case_decide; lia). destruct (decide (j < k)%nat) as [Hjk|Hjk].
    + rewrite list_lookup_delete_lt in Hy by lia. specialize (Hk j y Hy).
      rewrite (elem_get_near _ _ _ r) in Hk by (lia || done).
      rewrite (decide_True (P := r + Z.of_nat j < _)) in Hk by lia.
      rewrite (decide_True (P := r + _ < _)), decide_True by lia.
      rewrite <- Hk. do 3 f_equal. lia.
    + rewrite list_lookup_delete_ge in Hy by lia. specialize (Hk (S j) y Hy).
      rewrite (elem_get_near _ _ _ r) in Hk by (lia || done).
      replace (r + (1 + Z.of_nat j)) with (r + Z.of_nat (S j)) by lia.
      rewrite (decide_False (P := r + 1 <= _ < _)) by (case_decide; lia). done.
Qed.

(** The elements after position [k], wrapped to the front, moved down by one. *)
Lemma q_rep_close_down q l k m :
  q_rep q l -> (S k < length l)%nat ->
  let r := read_offset q mod allocsz q in
  let idx := r + Z.of_nat k - allocsz q in
  0 <= idx ->
  length m = length (queue q) ->
  (forall i, 0 <= i -> m !! Z.to_nat i = if decide (idx <= i < idx + (blen l - Z.of_nat k - 1))
     then queue q !! Z.to_nat (i - idx + (idx + 1)) else queue q !! Z.to_nat i) ->
  q_rep (mk_queue (threadsafe q) (allocsz q) (write_offset q - 1) (read_offset q) m) (delete k l).
Proof.
  intros ((Ha & Hlen & Hr & Hs & Hw) & Hw' & Hl & Hk) Hlt r idx Hidx Hm Hi.
  pose proof (Z.mod_pos_bound (read_offset q) (allocsz q) ltac:(lia)) as Hb. fold r in Hb.
  split; [unfold q_shape; simpl; lia|]. split; [simpl; lia|]. split.
  - rewrite length_delete by (apply lookup_lt_is_Some; lia). simpl. lia.
  - intros j y Hy. pose proof (lookup_lt_Some _ _ _ Hy) as Hj.
    rewrite length_delete in Hj by (apply lookup_lt_is_Some; lia). cbn [read_offset].
    rewrite (elem_get_near _ _ _ r) by (simpl; lia || done). cbn [queue allocsz].
    rewrite Hi by (case_decide; lia). destruct (decide (j < k)%nat) as [Hjk|Hjk].
    + rewrite list_lookup_delete_lt in Hy by lia. specialize (Hk j y Hy).
      rewrite (elem_get_near _ _ _ r) in Hk by (lia || done).
      rewrite (decide_False (P := idx <= _ < _)) by (case_decide; lia). done.
    + rewrite list_lookup_delete_ge in Hy by lia. specialize (Hk (S j) y Hy).
      rewrite (elem_get_near _ _ _ r) in Hk by (lia || done).
      rewrite (decide_False (P := r + Z.of_nat (S j) < _)) in Hk by lia.
      rewrite (decide_False (P := r + Z.of_nat j < _)), decide_True by lia. rewrite <- Hk. do 3 f_equal. lia.
Qed.

Lemma delete_offset_ok q l k :
  q_rep q l -> (k < length l)%nat ->
  exists q', cf_queue_delete_offset q (read_offset q + Z.of_nat k) = Some q'
             /\ q_rep q' (delete k l) /\ threadsafe q' = threadsafe q
             /\ allocsz q' = allocsz q
             /\ (read_offset q' = read_offset q + 1 /\ write_offset q' = write_offset q
                 \/ read_offset q' = read_offset q /\ k <> 0%nat
                    /\ (S k = length l \/ allocsz q <= read_offset q mod allocsz q + Z.of_nat k)).
Proof.
  intros Hq Hk. pose proof Hq as ((Ha & Hlen & Hr & Hs & Hw) & Hw' & Hl & Hx).
  unfold cf_queue_delete_offset, MAX_ALLOC in *.
  pose proof (Z.mod_pos_bound (read_offset q) (allocsz q) ltac:(lia)) as Hb.
  replace ((read_offset q + Z.of_nat k) mod allocsz q)
    with ((read_offset q mod allocsz q + Z.of_nat k) mod allocsz q) by apply Zplus_mod_idemp_l.
  replace (write_offset q mod allocsz q)
    with ((read_offset q mod allocsz q + blen l) mod allocsz q)
    by (rewrite Zplus_mod_idemp_l; f_equal; lia).
  set (r := read_offset q mod allocsz q) in *. rewrite !mod_wrap by lia.
  destruct ((if decide (r + Z.of_nat k < _) then _ else _) =? r) eqn:E1; reflect_Z.
  { assert (k = 0%nat) as -> by (case_decide; lia). eexists. split; [done|].
    rewrite u32_id by (unfold is_u32; lia). destruct l as [|x l]; [simpl in Hk; lia|].
    split; [by eapply q_rep_advance|]. by split_and!; [..|left]. }
  assert (k <> 0%nat) as Hk0 by (intros ->; apply E1; case_decide; lia).
  destruct (negb _ && _) eqn:E2; reflect_Z.
  { assert (S k = length l) as Hlast by (repeat case_decide; lia).
    eexists. split; [done|]. split; [by apply q_rep_drop_last|].
    split_and!; [done..|]. right. auto. }
  destruct (decide (r + Z.of_nat k < allocsz q)) as [Hup|Hdown].
  - rewrite (proj2 (Z.ltb_lt r _)) by lia.
    destruct (mmove_lookup (queue q) (r + 1) r (r + Z.of_nat k - r)) as (m & -> & Hm & Hi); [lia..|].
    cbn [mbind option_bind]. eexists. split; [done|]. rewrite u32_id by (unfold is_u32; lia).
    split; [|by split_and!; [..|left]]. apply q_rep_close_up; try done.
    intros i Hi0. fold r. rewrite Hi by lia.
    replace (r + 1 + (r + Z.of_nat k - r)) with (r + 1 + Z.of_nat k) by lia. done.
  - rewrite (proj2 (Z.ltb_ge r _)) by lia.
    rewrite (decide_False (P := r + blen l < _)) in * by lia.
    assert (S k < length l)%nat as Hlast.
    { apply andb_false_iff in E2 as [E2|E2]; reflect_Z; lia. }
    rewrite (proj2 (Z.ltb_lt _ (r + blen l - _))) by lia.
    destruct (mmove_lookup (queue q) (r + Z.of_nat k - allocsz q) (r + Z.of_nat k - allocsz q + 1)
      (r + blen l - allocsz q - (r + Z.of_nat k - allocsz q) - 1)) as (m & -> & Hm & Hi); [lia..|].
    cbn [mbind option_bind]. eexists. split; [done|]. rewrite u32_id by (unfold is_u32; lia).
    split; [|by split_and!; [..|right; auto with lia]]. apply q_rep_close_down; try done; fold r; [lia|].
    intros i Hi0. rewrite Hi by lia.
    replace (r + blen l - allocsz q - (r + Z.of_nat k - allocsz q) - 1)
      with (blen l - Z.of_nat k - 1) by lia. done.
Qed.

(** *** Whole operations *)

Lemma unlock_fails_ts e q q' : threadsafe q = threadsafe q' -> unlock_fails e q = unlock_fails e q'.
Proof. unfold unlock_fails. by intros ->. Qed.

Lemma no_failures q : lock_fails qenv_ok q = false /\ unlock_fails qenv_ok q = false.
Proof. unfold lock_fails, unlock_fails. simpl. by rewrite !andb_false_r. Qed.

Lemma room_small q l : q_rep q l -> blen l <= 2 ^ 28 -> room_for_push q.
Proof.
  intros (Hs & _ & Hh) Hle. pose proof (q_sz q l Hs Hh). unfold room_for_push.
  destruct (decide (CF_Q_SZ q = allocsz q)); [right; lia|by left].
Qed.

Lemma grow_and_push q l x :
  q_rep q l -> room_for_push q ->
  exists q1 q2, (if CF_Q_SZ q =? allocsz q
                 then cf_queue_resize true q (u32 (allocsz q * 2)) else Some (0, q)) = Some (0, q1)
    /\ push_tail q1 x = Some q2 /\ q_rep q2 (l ++ [x]) /\ threadsafe q2 = threadsafe q.
Proof.
  intros Hq Hroom. destruct (make_room q l Hq Hroom) as (q1 & H1 & H2 & H3 & H4).
  destruct (push_tail_ok q1 l x H2 H3) as (q2 & H5 & H6 & _ & H7).
  exists q1, q2. split_and!; try done. congruence.
Qed.

(** The search of [cf_queue_push_unique]. *)
Lemma find_loop_ok q l x k fuel :
  q_rep q l -> (k <= length l)%nat -> (length l - k < fuel)%nat ->
  find_loop fuel q x (read_offset q + Z.of_nat k) = Some (bool_decide (x ∈ drop k l)).
Proof.
  intros Hq. pose proof Hq as ((Ha & Hlen & Hr & Hs & Hw) & Hw' & Hl & Hx). revert k.
  induction fuel as [|fuel IH]; intros k Hk Hf; [lia|]. simpl.
  destruct (_ <? _) eqn:E; reflect_Z.
  - destruct (lookup_lt_is_Some_2 l k) as [y Hy]; [lia|].
    rewrite (Hx k y Hy). cbn [mbind option_bind]. rewrite (drop_S l y k Hy).
    destruct (decide (y = x)) as [->|Hne].
    + rewrite bool_decide_eq_true_2 by (apply elem_of_cons; auto). done.
    + rewrite u32_id by (unfold is_u32; lia).
      replace (read_offset q + Z.of_nat k + 1) with (read_offset q + Z.of_nat (S k)) by lia.
      rewrite IH by lia. f_equal. apply bool_decide_ext. rewrite elem_of_cons.
      split; [by right|by intros [->|]].
  - replace k with (length l) by lia. rewrite drop_all.
    rewrite bool_decide_eq_false_2 by set_solver. done.
Qed.

Lemma loop_fuel_eq q l : q_rep q l -> loop_fuel q = S (length l).
Proof. intros (Hs & _ & Hh). unfold loop_fuel. rewrite (q_sz q l Hs Hh). lia. Qed.

(** Loops start only on a queue that holds something. *)
Lemma guard_nonempty q l {B} (a b : B) :
  q_rep q l -> (l = [] -> a = b) -> (if negb (CF_Q_SZ q =? 0) then a else b) = a.
Proof.
  intros (Hs & _ & Hh) Hnil. rewrite (q_sz q l Hs Hh).
  destruct l; [by rewrite Hnil|done].
Qed.

Lemma push_ok q l x :
  q_rep q l -> room_for_push q ->
  exists q', cf_queue_push qenv_ok q (Some x) = Some (0, q') /\ q_rep q' (l ++ [x]).
Proof.
  intros Hq Hroom. destruct (grow_and_push q l x Hq Hroom) as (q1 & q2 & H1 & H2 & H3 & _).
  exists q2. split; [|done]. unfold cf_queue_push. rewrite (proj1 (no_failures q)).
  cbn [alloc_ok qenv_ok]. rewrite H1. cbn [mbind option_bind]. simpl. rewrite H2.
  cbn [mbind option_bind]. by rewrite (proj2 (no_failures q2)).
Qed.

Lemma push_limit_ok q l x limit :
  q_rep q l -> room_for_push q ->
  exists q', cf_queue_push_limit qenv_ok q x limit = Some (negb (limit <=? blen l), q')
    /\ q_rep q' (if limit <=? blen l then l else l ++ [x]).
Proof.
  intros Hq Hroom. unfold cf_queue_push_limit. rewrite (proj1 (no_failures q)).
  replace (limit <=? CF_Q_SZ q) with (limit <=? blen l)
    by (by rewrite (q_sz q l (proj1 Hq) (proj2 (proj2 Hq)))).
  destruct (limit <=? blen l); [by exists q|].
  destruct (grow_and_push q l x Hq Hroom) as (q1 & q2 & H1 & H2 & H3 & _).
  exists q2. split; [|done]. cbn [alloc_ok qenv_ok]. rewrite H1. simpl. rewrite H2. simpl.
  by rewrite (proj2 (no_failures q2)).
Qed.

Lemma push_unique_ok q l x :
  q_rep q l -> room_for_push q ->
  exists q', cf_queue_push_unique qenv_ok q x = Some (if decide (x ∈ l) then -2 else 0, q')
    /\ q_rep q' (if decide (x ∈ l) then l else l ++ [x]).
Proof.
  intros Hq Hroom. unfold cf_queue_push_unique. rewrite (proj1 (no_failures q)).
  assert (find_loop (loop_fuel q) q x (read_offset q) = Some (bool_decide (x ∈ l))) as Hf.
  { pose proof (find_loop_ok q l x 0 (loop_fuel q) Hq) as Hf. rewrite Z.add_0_r in Hf.
    rewrite (loop_fuel_eq q l Hq) in *. apply Hf; lia. }
  rewrite (guard_nonempty q l) by (done || by intros ->; rewrite Hf). rewrite Hf. simpl.
  case_decide as Hin.
  { rewrite bool_decide_eq_true_2 by done. by exists q. }
  rewrite bool_decide_eq_false_2 by done.
  destruct (grow_and_push q l x Hq Hroom) as (q1 & q2 & H1 & H2 & H3 & _).
  exists q2. split; [|done]. rewrite H1. simpl. rewrite H2. simpl.
  by rewrite (proj2 (no_failures q2)).
Qed.

Lemma push_head_ok q l x :
  q_rep q l -> room_for_push q ->
  exists q', cf_queue_push_head qenv_ok q x = Some (0, q') /\ q_rep q' (x :: l).
Proof.
  intros Hq Hroom. unfold cf_queue_push_head. rewrite (proj1 (no_failures q)).
  destruct (make_room q l Hq Hroom) as (q1 & H1 & H2 & H3 & H4).
  cbn [alloc_ok qenv_ok]. rewrite H1. cbn [mbind option_bind]. simpl negb. cbv iota.
  pose proof H2 as (Hsh & Hw' & Hl & Hk). pose proof Hsh as (Ha & Hlen & Hr & Hs & Hw).
  destruct (read_offset q1 =? write_offset q1) eqn:E; reflect_Z.
  { destruct l; [|simpl in Hl; lia]. destruct (push_head_empty q1 x H2) as (q' & -> & Hq').
    simpl. rewrite (proj2 (no_failures _)). by eexists. }
  destruct (0 <? read_offset q1) eqn:E0; reflect_Z.
  - destruct (push_head_front q1 x l H2 H3 E0) as (q' & -> & Hq' & _). simpl.
    rewrite (proj2 (no_failures _)). eexists. split; [done|].
    by apply unwrap_ok; destruct Hq' as (?&?&?).
  - destruct (push_head_shift q1 x l H2 H3) as (m & q' & -> & Hset & Hq'); [lia| |].
    { intros ->. simpl in Hl. lia. }
    cbn [mbind option_bind]. rewrite Hset. simpl. rewrite (proj2 (no_failures _)). by eexists.
Qed.

Lemma pop_ok e q x l ms wakes :
  q_rep q (x :: l) -> lock_fails e q = false ->
  exists q', cf_queue_pop e q ms wakes
             = Some (PopRet (if unlock_fails e q then -1 else 0) (Some x) q')
             /\ q_rep q' l.
Proof.
  intros Hq Hlock. destruct (pop_head_ok e q x l Hq) as (q' & Hp & Hq' & _).
  exists q'. split; [|done]. unfold cf_queue_pop. rewrite Hlock, (pop_wait_ready ms q x l wakes Hq).
  rewrite (q_not_empty q x l Hq). by case_if.
Qed.

(** *** Deleting by value *)

(** The list without the first occurrence of [x]. *)
Fixpoint remove_first x l : list A :=
  match l with
  | [] => []
  | y :: l => if decide (y = x) then l else y :: remove_first x l
  end.

Lemma delete_one_loop q l x k fuel :
  q_rep q l -> (k <= length l)%nat -> (length l - k < fuel)%nat ->
  exists q', delete_loop fuel q (Some x) true false (read_offset q + Z.of_nat k)
             = Some (q', bool_decide (x ∈ drop k l))
             /\ q_rep q' (take k l ++ remove_first x (drop k l)) /\ threadsafe q' = threadsafe q.
Proof.
  intros Hq. pose proof Hq as ((Ha & Hlen & Hr & Hs & Hw) & Hw' & Hl & Hx). revert k.
  induction fuel as [|fuel IH]; intros k Hk Hf; [lia|]. simpl.
  destruct (_ <? _) eqn:E; reflect_Z.
  - destruct (lookup_lt_is_Some_2 l k) as [y Hy]; [lia|].
    rewrite (Hx k y Hy). cbn [mbind option_bind]. rewrite (drop_S l y k Hy). simpl.
    destruct (decide (y = x)) as [->|Hne].
    + rewrite (bool_decide_eq_true_2 (x = x)) by done.
      rewrite (bool_decide_eq_true_2 (x ∈ _)) by (apply elem_of_cons; auto).
      destruct (delete_offset_ok q l k Hq) as (q' & -> & Hq' & Hts & _); [lia|].
      exists q'. split; [done|]. by rewrite <- delete_take_drop.
    + rewrite (bool_decide_eq_false_2 (y = x)) by done.
      rewrite u32_id by (unfold is_u32; lia).
      replace (read_offset q + Z.of_nat k + 1) with (read_offset q + Z.of_nat (S k)) by lia.
      destruct (IH (S k)) as (q' & -> & Hq' & Hts); [lia..|]. exists q'. split.
      * do 2 f_equal. apply bool_decide_ext. rewrite elem_of_cons.
        split; [by right|by intros [->|]].
      * split; [|done]. by rewrite (take_S_r l k y Hy), <- app_assoc in Hq'.
  - assert (k = length l) as -> by lia. rewrite drop_all, firstn_all. exists q.
    rewrite bool_decide_eq_false_2 by apply not_elem_of_nil. by rewrite app_nil_r.
Qed.

Lemma delete_one_ok q l x :
  q_rep q l ->
  exists q', cf_queue_delete qenv_ok q (Some x) true
             = Some (if decide (x ∈ l) then CF_QUEUE_OK else CF_QUEUE_EMPTY, q')
             /\ q_rep q' (remove_first x l).
Proof.
  intros Hq. unfold cf_queue_delete. rewrite (proj1 (no_failures q)).
  destruct (delete_one_loop q l x 0 (loop_fuel q) Hq) as (q' & Hd & Hq' & Hts);
    [lia|rewrite (loop_fuel_eq q l Hq); lia|].
  rewrite Z.add_0_r in Hd. rewrite drop_0 in *. destruct l as [|y l].
  - exists q. rewrite (q_sz q [] (proj1 Hq) (proj2 (proj2 Hq))). simpl.
    by rewrite (proj2 (no_failures q)).
  - exists q'. rewrite (q_sz q _ (proj1 Hq) (proj2 (proj2 Hq))).
    cbn [length]. rewrite Hd. simpl. rewrite (proj2 (no_failures q')). split; [|done].
    case_decide; [by rewrite bool_decide_eq_true_2|by rewrite bool_decide_eq_false_2].
Qed.

(** Deleting every occurrence, on a queue that does not wrap. *)
Definition unwrapped q : Prop := read_offset q mod allocsz q + CF_Q_SZ q <= allocsz q.

Lemma delete_many_loop q l x k fuel found :
  q_rep q l -> read_offset q mod allocsz q + blen l <= allocsz q ->
  (k <= length l)%nat -> (length l - k < fuel)%nat ->
  exists q', delete_loop fuel q (Some x) false found (read_offset q + Z.of_nat k)
             = Some (q', found || bool_decide (x ∈ drop k l))
             /\ q_rep q' (take k l ++ filter (.≠ x) (drop k l)).
Proof.
  revert q l k found. induction fuel as [|fuel IH]; intros q l k found Hq Hun Hk Hf; [lia|].
  pose proof Hq as ((Ha & Hlen & Hr & Hs & Hw) & Hw' & Hl & Hx). simpl.
  destruct (_ <? _) eqn:E; reflect_Z.
  2:{ assert (k = length l) as -> by lia. rewrite drop_all, firstn_all. exists q.
      rewrite bool_decide_eq_false_2, orb_false_r by apply not_elem_of_nil.
      by rewrite filter_nil, app_nil_r. }
  destruct (lookup_lt_is_Some_2 l k) as [y Hy]; [lia|].
  rewrite (Hx k y Hy). cbn [mbind option_bind]. rewrite (drop_S l y k Hy).
  rewrite u32_id by (unfold is_u32; lia).
  destruct (decide (y = x)) as [->|Hne].
  - rewrite (bool_decide_eq_true_2 (x = x)), (bool_decide_eq_true_2 (x ∈ _)), orb_true_r
      by (done || apply elem_of_cons; auto).
    rewrite filter_cons_False by (by intros []).
    destruct (delete_offset_ok q l k Hq) as (q1 & -> & Hq1 & _ & Hal & Hcase); [lia|].
    cbn [mbind option_bind]. rewrite delete_take_drop in Hq1.
    destruct Hcase as [[Hr1 Hw1]|(Hr1 & Hk0 & [Hlast|Hwrap])]; [| |lia].
    + replace (read_offset q + Z.of_nat k + 1) with (read_offset q1 + Z.of_nat k) by lia.
      destruct (IH q1 (take k l ++ drop (S k) l) k true Hq1) as (q2 & Hd & Hq2).
      * rewrite length_app, length_take, length_drop, Hal, Hr1.
        destruct (decide (read_offset q mod allocsz q + 1 = allocsz q)) as [He|He].
        { rewrite <- Zplus_mod_idemp_l, He, Z.mod_same by lia. lia. }
        pose proof (Z.mod_pos_bound (read_offset q) (allocsz q) ltac:(lia)).
        rewrite <- Zplus_mod_idemp_l, Z.mod_small by lia. lia.
      * rewrite length_app, length_take, length_drop. lia.
      * rewrite length_app, length_take, length_drop. lia.
      * exists q2. rewrite drop_app_length', take_app_length' in * by (rewrite length_take; lia).
        split; [by rewrite Hd|done].
    + exists q1. rewrite (drop_ge l (S k)) in * by lia. rewrite app_nil_r in Hq1.
      split; [|by rewrite app_nil_r].
      destruct fuel as [|fuel]; [lia|]. simpl. destruct Hq1 as (_ & _ & Hl1 & _).
      rewrite length_take in Hl1. rewrite (proj2 (Z.ltb_ge _ _)) by lia. done.
  - rewrite (bool_decide_eq_false_2 (y = x)), filter_cons_True by done.
    replace (read_offset q + Z.of_nat k + 1) with (read_offset q + Z.of_nat (S k)) by lia.
    destruct (IH q l (S k) found Hq Hun) as (q' & -> & Hq'); [lia..|]. exists q'.
    rewrite (take_S_r l k y Hy), <- app_assoc in Hq'. split; [|done].
    do 3 f_equal. apply bool_decide_ext. rewrite elem_of_cons. split; [by right|by intros [->|]].
Qed.

Lemma delete_all_loop q l fuel found :
  q_rep q l -> (length l < fuel)%nat ->
  exists q', delete_loop fuel q None false found (read_offset q)
             = Some (q', found || negb (bool_decide (l = []))) /\ q_rep q' [].
Proof.
  revert q l found. induction fuel as [|fuel IH]; intros q l found Hq Hf; [lia|].
  pose proof Hq as ((Ha & Hlen & Hr & Hs & Hw) & Hw' & Hl & Hx). simpl.
  destruct l as [|x l].
  { exists q. simpl in Hl. rewrite (proj2 (Z.ltb_ge _ _)) by lia.
    split; [by rewrite orb_false_r|done]. }
  simpl in Hl. rewrite (proj2 (Z.ltb_lt _ _)) by lia.
  destruct (delete_offset_ok q (x :: l) 0 Hq) as (q1 & Hd & Hq1 & _ & _ & Hcase); [simpl; lia|].
  rewrite Z.add_0_r in Hd. rewrite Hd. cbn [mbind option_bind].
  destruct Hcase as [[Hr1 Hw1]|(_ & ? & _)]; [|done].
  rewrite u32_id by (unfold is_u32; lia). rewrite <- Hr1.
  destruct (IH q1 l true Hq1) as (q2 & -> & Hq2); [simpl in Hf; lia|].
  exists q2. split; [by rewrite orb_true_r|done].
Qed.

(** *** Iterating *)

Section ReduceSpec.
Context {U : Type} (cb : A -> U -> Z * U).

(** Visit the elements in order; -1 stops, -2 deletes the element and stops. *)
Fixpoint reduce_spec l (u : U) : list A * U :=
  match l with
  | [] => ([], u)
  | x :: l =>
      let '(rv, u) := cb x u in
      if rv =? -1 then (x :: l, u)
      else if rv =? -2 then (l, u)
      else let '(l, u) := reduce_spec l u in (x :: l, u)
  end.

Lemma reduce_loop_ok q l k fuel u :
  q_rep q l -> (k <= length l)%nat -> (length l - k < fuel)%nat ->
  exists q', reduce_loop cb fuel q (read_offset q + Z.of_nat k) u
             = Some (q', (reduce_spec (drop k l) u).2)
             /\ q_rep q' (take k l ++ (reduce_spec (drop k l) u).1).
Proof.
  intros Hq. pose proof Hq as ((Ha & Hlen & Hr & Hs & Hw) & Hw' & Hl & Hx). revert k u.
  induction fuel as [|fuel IH]; intros k u Hk Hf; [lia|]. simpl.
  destruct (_ <? _) eqn:E; reflect_Z.
  2:{ assert (k = length l) as -> by lia. rewrite drop_all, firstn_all. exists q.
      by rewrite app_nil_r. }
  destruct (lookup_lt_is_Some_2 l k) as [y Hy]; [lia|].
  rewrite (Hx k y Hy). cbn [mbind option_bind]. rewrite (drop_S l y k Hy).
  cbn [reduce_spec]. destruct (cb y u) as [rv u'].
  destruct (rv =? -1); [exists q; split; [done|]; simpl; by rewrite <- (drop_S l y k Hy), take_drop|].
  destruct (rv =? -2).
  { destruct (delete_offset_ok q l k Hq) as (q' & -> & Hq' & _); [lia|].
    exists q'. split; [done|]. cbn [fst]. by rewrite <- delete_take_drop. }
  rewrite u32_id by (unfold is_u32; lia).
  replace (read_offset q + Z.of_nat k + 1) with (read_offset q + Z.of_nat (S k)) by lia.
  destruct (IH (S k) u') as (q' & -> & Hq'); [lia..|]. exists q'.
  destruct (reduce_spec (drop (S k) l) u') as [l1 u1]. split; [done|].
  by rewrite (take_S_r l k y Hy), <- app_assoc in Hq'.
Qed.

Lemma reduce_reverse_loop_ok q l k fuel u :
  q_rep q l -> 0 < read_offset q -> (k <= length l)%nat -> (k < fuel)%nat ->
  exists q', reduce_reverse_loop cb fuel q (read_offset q + Z.of_nat k - 1) u
             = Some (Some (q', (reduce_spec (reverse (take k l)) u).2))
             /\ q_rep q' (reverse (reduce_spec (reverse (take k l)) u).1 ++ drop k l).
Proof.
  intros Hq Hpos. pose proof Hq as ((Ha & Hlen & Hr & Hs & Hw) & Hw' & Hl & Hx). revert k u.
  induction fuel as [|fuel IH]; intros k u Hk Hf; [lia|]. simpl.
  destruct (_ <=? _) eqn:E; reflect_Z.
  2:{ assert (k = 0%nat) as -> by lia. rewrite take_0, drop_0. by exists q. }
  destruct k as [|k]; [lia|].
  destruct (lookup_lt_is_Some_2 l k) as [y Hy]; [lia|].
  replace (read_offset q + Z.of_nat (S k) - 1) with (read_offset q + Z.of_nat k) by lia.
  rewrite (Hx k y Hy). cbn [mbind option_bind].
  rewrite (take_S_r l k y Hy), reverse_app. cbn [reverse rev_append app].
  change (reverse [y] ++ reverse (take k l)) with (y :: reverse (take k l)).
  cbn [reduce_spec]. destruct (cb y u) as [rv u'].
  destruct (rv =? -1).
  { exists q. split; [done|]. simpl. rewrite reverse_cons, reverse_involutive, <- app_assoc.
    simpl. by rewrite <- (drop_S l y k Hy), take_drop. }
  destruct (rv =? -2).
  { destruct (delete_offset_ok q l k Hq) as (q' & -> & Hq' & _); [lia|].
    exists q'. split; [done|]. simpl. by rewrite reverse_involutive, <- delete_take_drop. }
  rewrite u32_id by (unfold is_u32; lia).
  destruct (IH k u') as (q' & -> & Hq'); [lia..|]. exists q'.
  destruct (reduce_spec (reverse (take k l)) u') as [l1 u1]. split; [done|].
  simpl in *. rewrite reverse_cons, <- app_assoc. simpl. by rewrite <- (drop_S l y k Hy).
Qed.

(** With [read_offset = 0] the unsigned test never fails. *)
Lemma reduce_reverse_loop_diverges q l fuel i u :
  q_rep q l -> read_offset q = 0 -> blen l = allocsz q -> 0 <= i ->
  (forall x u, (cb x u).1 <> -1 /\ (cb x u).1 <> -2) ->
  reduce_reverse_loop cb fuel q i u = Some None.
Proof.
  intros Hq H0 Hfull Hi Hcb. pose proof Hq as ((Ha & Hlen & Hr & Hs & Hw) & Hw' & Hl & Hx).
  revert i Hi u. induction fuel as [|fuel IH]; intros i Hi u; [done|]. simpl.
  rewrite (proj2 (Z.leb_le _ _)) by lia.
  pose proof (Z.mod_pos_bound i (allocsz q) ltac:(lia)) as Hm.
  destruct (lookup_lt_is_Some_2 l (Z.to_nat (i mod allocsz q))) as [y Hy]; [lia|].
  specialize (Hx _ _ Hy). rewrite H0, Z.add_0_l, Z2Nat.id in Hx by lia.
  rewrite elem_get_lookup, Zmod_mod in Hx by lia.
  rewrite elem_get_lookup, Hx by lia. cbn [mbind option_bind].
  specialize (Hcb y u). destruct (cb y u) as [rv u']. simpl in Hcb.
  rewrite !(proj2 (Z.eqb_neq rv _)) by lia. apply IH. apply Z.mod_pos_bound. lia.
Qed.
End ReduceSpec.

(** ** The queue's contract *)

(** Operations, as a client issues them with no wait. *)
Inductive qop :=
  | OpPush (x : A)
  | OpPushHead (x : A)
  | OpPushUnique (x : A)
  | OpPushLimit (x : A) (limit : Z)
  | OpPop
  | OpDeleteOne (x : A)
  | OpSize.

Definition b2z (b : bool) : Z := if b then 1 else 0.

Definition q_exec q (op : qop) : option (Z * option A * cf_queue A) :=
  match op with
  | OpPush x => '(rc, q) ← cf_queue_push qenv_ok q (Some x); Some (rc, None, q)
  | OpPushHead x => '(rc, q) ← cf_queue_push_head qenv_ok q x; Some (rc, None, q)
  | OpPushUnique x => '(rc, q) ← cf_queue_push_unique qenv_ok q x; Some (rc, None, q)
  | OpPushLimit x limit => '(b, q) ← cf_queue_push_limit qenv_ok q x limit; Some (b2z b, None, q)
  | OpPop =>
      r ← cf_queue_pop qenv_ok q CF_QUEUE_NOWAIT [];
      match r with PopBlocked => None | PopRet rc buf q => Some (rc, buf, q) end
  | OpDeleteOne x => '(rc, q) ← cf_queue_delete qenv_ok q (Some x) true; Some (rc, None, q)
  | OpSize => Some (cf_queue_sz q, None, q)
  end.

Definition q_spec l (op : qop) : Z * option A * list A :=
  match op with
  | OpPush x => (0, None, l ++ [x])
  | OpPushHead x => (0, None, x :: l)
  | OpPushUnique x => if decide (x ∈ l) then (-2, None, l) else (0, None, l ++ [x])
  | OpPushLimit x limit => if limit <=? blen l then (0, None, l) else (1, None, l ++ [x])
  | OpPop => match l with [] => (CF_QUEUE_EMPTY, None, []) | x :: l => (0, Some x, l) end
  | OpDeleteOne x => if decide (x ∈ l) then (CF_QUEUE_OK, None, remove_first x l)
                     else (CF_QUEUE_EMPTY, None, l)
  | OpSize => (blen l, None, l)
  end.

Fixpoint q_run q (ops : list qop) : option (list (Z * option A) * cf_queue A) :=
  match ops with
  | [] => Some ([], q)
  | op :: ops =>
      '(rc, buf, q) ← q_exec q op;
      '(outs, q) ← q_run q ops;
      Some ((rc, buf) :: outs, q)
  end.

Fixpoint q_run_spec l (ops : list qop) : list (Z * option A) * list A :=
  match ops with
  | [] => ([], l)
  | op :: ops =>
      let '(rc, buf, l) := q_spec l op in
      let '(outs, l) := q_run_spec l ops in
      ((rc, buf) :: outs, l)
  end.

Lemma remove_first_notin x l : x ∉ l -> remove_first x l = l.
Proof.
  induction l as [|y l IH]; intros Hn; simpl; [done|].
  apply not_elem_of_cons in Hn as [Hne Hn]. rewrite decide_False by done. by rewrite IH.
Qed.

Lemma remove_first_length x l : (length (remove_first x l) <= length l)%nat.
Proof. induction l; simpl; [lia|]. case_decide; simpl; lia. Qed.

Lemma q_step_refines q l op :
  q_rep q l -> blen l <= 2 ^ 28 ->
  exists q', q_exec q op = Some ((q_spec l op).1, q')
             /\ q_rep q' (q_spec l op).2 /\ blen (q_spec l op).2 <= blen l + 1.
Proof.
  intros Hq Hle. pose proof (room_small q l Hq Hle) as Hroom.
  destruct op as [x|x|x|x limit| |x|]; unfold q_exec; cbn [q_spec].
  - destruct (push_ok q l x Hq Hroom) as (q' & -> & Hq'). exists q'.
    simpl. rewrite length_app. simpl. split_and!; [done|apply Hq'..|lia].
  - destruct (push_head_ok q l x Hq Hroom) as (q' & -> & Hq'). exists q'.
    simpl. split; [done|]. split; [done|lia].
  - destruct (push_unique_ok q l x Hq Hroom) as (q' & -> & Hq'). exists q'.
    case_decide; simpl; rewrite ?length_app; simpl; (split; [done|]); (split; [done|lia]).
  - destruct (push_limit_ok q l x limit Hq Hroom) as (q' & -> & Hq'). exists q'.
    case_if; simpl; rewrite ?length_app; simpl; (split; [done|]); (split; [done|lia]).
  - destruct l as [|x l].
    + rewrite (pop_nowait_empty qenv_ok q Hq (proj1 (no_failures q))). exists q.
      split; [done|]. split; [done|simpl; lia].
    + destruct (pop_ok qenv_ok q x l CF_QUEUE_NOWAIT [] Hq (proj1 (no_failures q))) as (q' & -> & Hq').
      exists q'. rewrite (proj2 (no_failures q)). split; [done|]. split; [done|simpl; lia].
  - destruct (delete_one_ok q l x Hq) as (q' & -> & Hq'). exists q'.
    pose proof (remove_first_length x l).
    case_decide; simpl; (split; [done|]); (split; [|lia]); [done|].
    by rewrite remove_first_notin in Hq'.
  - exists q. unfold cf_queue_sz. rewrite (q_sz q l (proj1 Hq) (proj2 (proj2 Hq))).
    rewrite i32_id by lia. split; [done|]. split; [done|simpl; lia].
Qed.

Lemma q_run_refines q l (ops : list qop) :
  q_rep q l -> blen l + blen ops <= 2 ^ 28 ->
  exists q', q_run q ops = Some ((q_run_spec l ops).1, q') /\ q_rep q' (q_run_spec l ops).2.
Proof.
  revert q l. induction ops as [|op ops IH]; intros q l Hq Hle; simpl; [by exists q|].
  simpl in Hle. destruct (q_step_refines q l op Hq) as (q1 & -> & Hq1 & Hlen); [lia|].
  destruct (q_spec l op) as [[rc buf] l1]. simpl in *.
  destruct (IH q1 l1 Hq1) as (q2 & -> & Hq2); [lia|]. exists q2. simpl.
  by destruct (q_run_spec l1 ops) as [outs l2].
Qed.

(** C12: Refinement.  Whatever sequence of pushes (at either end, guarded by
    uniqueness or by a limit), pops, single deletions and size queries a client
    issues, the circular buffer answers each call as the mathematical list of
    its elements does, first in first out, growing and unwrapping its offsets on
    the way; no operation reads or writes outside the array. *)
Theorem queue_refines_list q l (ops : list qop) :
  q_rep q l -> blen l + blen ops <= 2 ^ 28 ->
  exists q', q_run q ops = Some ((q_run_spec l ops).1, q') /\ q_rep q' (q_run_spec l ops).2.
Proof. apply q_run_refines. Qed.

(** [cf_queue_push] on every branch.  The result is 0 only when the element
    was appended.  A NULL element, a failed lock, and a failed allocation while
    the elements are rotated in the array leave the queue as it was; when the
    unlock fails, -1 is returned although the element is in the queue; and a
    failed [cf_realloc] of an unrotated full queue drops the whole array. *)
Theorem push_outcomes e q l x :
  q_rep q l -> room_for_push q ->
  cf_queue_push e q None = Some (-1, q)
  /\ (lock_fails e q = true -> cf_queue_push e q (Some x) = Some (-1, q))
  /\ (lock_fails e q = false -> alloc_ok e = false -> blen l = allocsz q ->
      exists q', cf_queue_push e q (Some x) = Some (-1, q')
        /\ if read_offset q mod allocsz q =? 0 then queue q' = [] else q' = q)
  /\ (lock_fails e q = false -> alloc_ok e = true \/ blen l < allocsz q ->
      exists q', cf_queue_push e q (Some x) = Some (if unlock_fails e q then -1 else 0, q')
        /\ q_rep q' (l ++ [x])).
Proof.
  intros Hq Hroom. split_and!; [done|..]; unfold cf_queue_push.
  - by intros ->.
  - intros -> -> Hfull. unfold cf_queue_resize.
    rewrite (q_sz q l (proj1 Hq) (proj2 (proj2 Hq))), Hfull, Z.eqb_refl, (Z.eqb_sym 0).
    destruct (_ mod _ =? 0); by eexists.
  - intros Hl Hal. rewrite Hl. destruct (grow_and_push q l x Hq Hroom) as (q1 & q2 & H1 & H2 & H3 & H4).
    exists q2. split; [|done].
    assert ((if CF_Q_SZ q =? allocsz q then cf_queue_resize (alloc_ok e) q (u32 (allocsz q * 2))
             else Some (0, q)) = Some (0, q1)) as ->.
    { rewrite <- H1. destruct Hal as [->|Hlt]; [done|].
      rewrite (q_sz q l (proj1 Hq) (proj2 (proj2 Hq))). by rewrite (proj2 (Z.eqb_neq _ _)) by lia. }
    simpl. rewrite H2. simpl. rewrite (unlock_fails_ts e q2 q H4). by case_if.
Qed.

(** The first list that holds something, as the waiting pop finds it. *)
Fixpoint first_ready (ls : list (list A)) : option (A * list A) :=
  match ls with
  | [] => None
  | [] :: ls => first_ready ls
  | (x :: l) :: _ => Some (x, l)
  end.

Lemma q_empty q : q_rep q [] -> CF_Q_EMPTY q = true.
Proof. intros (_ & _ & Hl & _). simpl in Hl. apply Z.eqb_eq. lia. Qed.

Lemma pop_wait_forever q wakes l ls :
  Forall2 q_rep (q :: wakes) (l :: ls) ->
  match first_ready (l :: ls) with
  | Some (x, rest) => exists q', pop_wait CF_QUEUE_FOREVER q wakes = inr q' /\ q_rep q' (x :: rest)
  | None => pop_wait CF_QUEUE_FOREVER q wakes = inl PopBlocked
  end.
Proof.
  revert q l ls. induction wakes as [|q1 wakes IH]; intros q l ls Hf;
    apply Forall2_cons in Hf as [Hq Hf]; destruct l as [|x l].
  - apply Forall2_nil_inv_l in Hf as ->. simpl. by rewrite (q_empty q Hq).
  - exists q. by rewrite (pop_wait_ready _ q x l).
  - apply Forall2_cons_inv_l in Hf as (l1 & ls1 & Hq1 & Hf & ->).
    cbn [first_ready pop_wait]. rewrite (q_empty q Hq). simpl (_ =? _). cbv iota.
    by apply (IH q1 l1 ls1), Forall2_cons.
  - exists q. by rewrite (pop_wait_ready _ q x l).
Qed.

(** Waiting.  A thread-safe pop that may wait for ever returns only with an
    element: the head of the first queue state, among the present one and those
    left by the other threads at each wake-up, that holds one.  A timed pop
    looks at the present state and at the one after its wait, and answers
    CF_QUEUE_EMPTY when both are empty. *)
Theorem pop_waits q wakes l ls ms :
  Forall2 q_rep (q :: wakes) (l :: ls) -> threadsafe q = true -> ms <> CF_QUEUE_NOWAIT ->
  match first_ready (if ms =? CF_QUEUE_FOREVER then l :: ls else take 2 (l :: ls)) with
  | Some (x, rest) =>
      exists q', cf_queue_pop qenv_ok q ms wakes = Some (PopRet 0 (Some x) q') /\ q_rep q' rest
  | None =>
      if (ms =? CF_QUEUE_FOREVER) || bool_decide (ls = [])
      then cf_queue_pop qenv_ok q ms wakes = Some PopBlocked
      else exists q', cf_queue_pop qenv_ok q ms wakes = Some (PopRet CF_QUEUE_EMPTY None q')
             /\ q_rep q' []
  end.
Proof.
  intros Hf Hts Hms. unfold cf_queue_pop. rewrite (proj1 (no_failures q)), Hts.
  assert (forall q1 x rest, q_rep q1 (x :: rest) ->
    exists q', pop_head qenv_ok q1 = Some (PopRet 0 (Some x) q') /\ q_rep q' rest) as Hpop.
  { intros q1 x rest H1. destruct (pop_head_ok qenv_ok q1 x rest H1) as (q' & -> & Hq' & _).
    exists q'. by rewrite (proj2 (no_failures q1)). }
  destruct (ms =? CF_QUEUE_FOREVER) eqn:E; reflect_Z.
  - subst ms. pose proof (pop_wait_forever q wakes l ls Hf) as Hw.
    destruct (first_ready (l :: ls)) as [[x rest]|]; [|by rewrite Hw].
    destruct Hw as (q' & -> & Hq'). by apply Hpop.
  - apply Forall2_cons in Hf as [Hq Hf]. destruct l as [|x l]; simpl first_ready.
    2:{ rewrite (pop_wait_ready ms q x l wakes Hq). by apply Hpop. }
    destruct Hf as [|q1 [|x l1] wakes ls Hq1 Hf]; simpl;
      rewrite (q_empty q Hq), (proj2 (Z.eqb_neq ms _)) by done; [done| |].
    + rewrite (proj2 (Z.eqb_neq ms _)), (q_empty q1 Hq1) by done. by exists q1.
    + rewrite (proj2 (Z.eqb_neq ms _)), (q_not_empty q1 x l1 Hq1) by done.
      rewrite (pop_wait_ready ms q1 x l1 wakes Hq1). by apply Hpop.
Qed.

(** [cf_queue_delete] with [only_one = false] on a queue whose elements do
    not wrap around the array deletes every occurrence and keeps the order of
    the others. *)
Theorem delete_every_occurrence q l x :
  q_rep q l -> unwrapped q ->
  exists q', cf_queue_delete qenv_ok q (Some x) false
             = Some (if decide (x ∈ l) then CF_QUEUE_OK else CF_QUEUE_EMPTY, q')
             /\ q_rep q' (filter (.≠ x) l).
Proof.
  intros Hq Hun. unfold unwrapped in Hun. pose proof (q_sz q l (proj1 Hq) (proj2 (proj2 Hq))) as Hsz.
  rewrite Hsz in Hun. unfold cf_queue_delete. rewrite (proj1 (no_failures q)).
  destruct (delete_many_loop q l x 0 (loop_fuel q) false Hq Hun) as (q' & Hd & Hq');
    [lia|rewrite (loop_fuel_eq q l Hq); lia|].
  rewrite Z.add_0_r in Hd. rewrite drop_0 in *. cbn [take app orb] in Hd, Hq'. rewrite Hsz. destruct l as [|y l].
  - exists q. simpl. by rewrite (proj2 (no_failures q)).
  - exists q'. cbn [length]. rewrite Hd. simpl. rewrite (proj2 (no_failures q')). split; [|done].
    case_decide; [by rewrite bool_decide_eq_true_2|by rewrite bool_decide_eq_false_2].
Qed.

(** [cf_queue_delete_all] empties every queue, wrapped or not, and says
    whether it held anything. *)
Theorem delete_all_empties q l :
  q_rep q l ->
  exists q', cf_queue_delete_all qenv_ok q
             = Some (if decide (l = []) then CF_QUEUE_EMPTY else CF_QUEUE_OK, q') /\ q_rep q' [].
Proof.
  intros Hq. unfold cf_queue_delete_all, cf_queue_delete. rewrite (proj1 (no_failures q)).
  destruct (delete_all_loop q l (loop_fuel q) false Hq) as (q' & Hd & Hq');
    [rewrite (loop_fuel_eq q l Hq); lia|].
  rewrite (q_sz q l (proj1 Hq) (proj2 (proj2 Hq))). destruct l as [|y l].
  - exists q. simpl. by rewrite (proj2 (no_failures q)).
  - exists q'. cbn [length]. rewrite Hd. simpl. by rewrite (proj2 (no_failures q')).
Qed.

(** [cf_queue_reduce] calls the callback on the elements from the head on,
    threading its user data; -1 stops the walk, -2 removes the element and
    stops.  [cf_queue_reduce_reverse] does the same from the tail when the read
    offset is not 0. *)
Theorem reduce_refines {U} (cb : A -> U -> Z * U) q l u :
  q_rep q l ->
  (exists q', cf_queue_reduce cb qenv_ok q u = Some (0, q', (reduce_spec cb l u).2)
              /\ q_rep q' (reduce_spec cb l u).1)
  /\ (0 < read_offset q ->
      exists q', cf_queue_reduce_reverse cb (S (length l)) qenv_ok q u
                 = Some (Some (0, q', (reduce_spec cb (reverse l) u).2))
                 /\ q_rep q' (reverse (reduce_spec cb (reverse l) u).1)).
Proof.
  intros Hq. unfold cf_queue_reduce, cf_queue_reduce_reverse. rewrite (proj1 (no_failures q)).
  rewrite (q_sz q l (proj1 Hq) (proj2 (proj2 Hq))).
  pose proof Hq as ((Ha & Hlen & Hr & Hs & Hw) & Hw' & Hl & Hx).
  destruct (reduce_loop_ok cb q l 0 (loop_fuel q) u Hq) as (q1 & Hd & Hq1);
    [lia|rewrite (loop_fuel_eq q l Hq); lia|].
  rewrite Z.add_0_r, drop_0 in Hd. split.
  - destruct l as [|x l]; cbn [length];
      [exists q; simpl; by rewrite (proj2 (no_failures q))|].
    exists q1. rewrite Hd. simpl. by rewrite (proj2 (no_failures q1)).
  - intros Hpos.
    destruct (reduce_reverse_loop_ok cb q l (length l) (S (length l)) u Hq Hpos)
      as (q2 & Hd2 & Hq2); [lia..|].
    rewrite firstn_all, drop_all, app_nil_r in *.
    replace (u32 (write_offset q - 1)) with (read_offset q + blen l - 1)
      by (rewrite u32_id by (unfold is_u32; lia); lia).
    rewrite Hd2. destruct l as [|x l]; cbn [length negb].
    + exists q. simpl. by rewrite (proj2 (no_failures q)).
    + exists q2. simpl. by rewrite (proj2 (no_failures q2)).
Qed.

(** [cf_queue_reduce_reverse] never returns on a full queue whose read
    offset is 0, unless the callback stops it: the unsigned test
    [i >= read_offset] cannot fail, so the walk goes round the array for ever. *)
Theorem reduce_reverse_never_returns {U} (cb : A -> U -> Z * U) q l u fuel :
  q_rep q l -> read_offset q = 0 -> blen l = allocsz q ->
  (forall x u, (cb x u).1 <> -1 /\ (cb x u).1 <> -2) ->
  cf_queue_reduce_reverse cb fuel qenv_ok q u = Some None.
Proof.
  intros Hq H0 Hfull Hcb. unfold cf_queue_reduce_reverse. rewrite (proj1 (no_failures q)).
  rewrite (q_sz q l (proj1 Hq) (proj2 (proj2 Hq))).
  pose proof Hq as ((Ha & _) & _). rewrite (proj2 (Z.eqb_neq (blen l) 0)) by lia. simpl negb.
  cbv iota. rewrite (reduce_reverse_loop_diverges cb q l); try done.
  apply Z.mod_pos_bound. lia.
Qed.

End Refinement.

(** ** Concrete queues *)

Lemma create_rep ts q :
  cf_queue_create (A := Z) [] (true, true) ts = Some q -> q_rep q [].
Proof.
  unfold cf_queue_create. simpl. destruct ts; intros [= <-];
    (split; [split_and!; (reflexivity || by vm_compute)|by split]).
Qed.

Definition q0 : cf_queue Z := mk_queue true 64 0 0 (replicate 64 None).

Lemma q0_rep : q_rep q0 [].
Proof. by apply (create_rep true). Qed.

(** The state after a run, for building examples. *)
Definition q_after (ops : list qop) : cf_queue Z :=
  match q_run q0 ops with Some (_, q) => q | None => q0 end.

Lemma q_after_rep ops :
  blen ops <= 2 ^ 28 -> q_rep (q_after ops) (q_run_spec [] ops).2.
Proof.
  intros Hle. unfold q_after.
  destruct (q_run_refines q0 [] ops q0_rep) as (q' & -> & Hq'); [simpl; lia|done].
Qed.

(** The numbers 1 to 64 fill the array; then 62 leave and two 7s arrive, in the
    first slots: the elements are 63, 64 | 7, 7 with the wrap in the middle. *)
Definition fill : list qop := OpPush <$> (Z.of_nat <$> seq 1 64).
Definition wrapped_sevens : cf_queue Z := q_after (fill ++ replicate 62 OpPop ++ [OpPush 7; OpPush 7]).

(** On a queue that wraps, [cf_queue_delete] with [only_one = false] can
    miss an occurrence: of two adjacent 7s in the wrapped part, one remains and
    the call reports success. *)
Theorem delete_wrapped_misses :
  q_rep wrapped_sevens [63; 64; 7; 7]
  /\ exists q', cf_queue_delete qenv_ok wrapped_sevens (Some 7) false = Some (CF_QUEUE_OK, q')
       /\ q_rep q' [63; 64; 7].
Proof.
  assert (q_rep wrapped_sevens [63; 64; 7; 7]) as Hq.
  { apply (q_after_rep (fill ++ replicate 62 OpPop ++ [OpPush 7; OpPush 7])).
    vm_compute. congruence. }
  split; [exact Hq|].
  destruct (cf_queue_delete qenv_ok wrapped_sevens (Some 7) false) as [[rc q']|] eqn:E;
    [|vm_compute in E; congruence].
  destruct (delete_offset_ok _ _ 2 Hq) as (q1 & H1 & H2 & _); [simpl; lia|].
  exists q1. split; [|exact H2]. rewrite <- E.
  vm_compute in H1. injection H1 as <-. vm_compute. reflexivity.
Qed.

Lemma queue_refines_list_witness :
  let ops := [OpPush 1; OpPush 2; OpPushHead 3; OpPushUnique 2; OpPushLimit 9 3; OpPop;
              OpDeleteOne 2; OpSize; OpPop; OpPop] in
  exists q', q_run q0 ops = Some ((q_run_spec [] ops).1, q') /\ q_rep q' (q_run_spec [] ops).2.
Proof. apply (queue_refines_list q0 []); [apply q0_rep|simpl; lia]. Defined.

Lemma push_outcomes_witness :
  exists q', cf_queue_push qenv_ok q0 (Some 5) = Some (0, q') /\ q_rep q' [5].
Proof.
  apply (push_outcomes qenv_ok q0 [] 5);
    [apply q0_rep|right; simpl; lia|reflexivity|left; reflexivity].
Defined.

Lemma pop_waits_witness :
  exists q', cf_queue_pop qenv_ok q0 CF_QUEUE_FOREVER [q0; q_after [OpPush 8; OpPush 9]]
             = Some (PopRet 0 (Some 8) q') /\ q_rep q' [9].
Proof.
  apply (pop_waits q0 [q0; q_after [OpPush 8; OpPush 9]] [] [[]; [8; 9]] CF_QUEUE_FOREVER);
    [|reflexivity|discriminate].
  repeat constructor; try apply q0_rep; apply (q_after_rep [OpPush 8; OpPush 9]); simpl; lia.
Defined.

Lemma delete_every_occurrence_witness :
  exists q', cf_queue_delete qenv_ok (q_after [OpPush 8; OpPush 9; OpPush 8]) (Some 8) false
             = Some (CF_QUEUE_OK, q') /\ q_rep q' [9].
Proof.
  destruct (delete_every_occurrence (q_after [OpPush 8; OpPush 9; OpPush 8]) [8; 9; 8] 8)
    as (q' & Hd & Hq');
    [apply (q_after_rep [OpPush 8; OpPush 9; OpPush 8]); simpl; lia|vm_compute; congruence|].
  exists q'. rewrite decide_True in Hd by (apply elem_of_cons; by left). by split.
Defined.

Lemma delete_all_empties_witness :
  exists q', cf_queue_delete_all qenv_ok wrapped_sevens = Some (CF_QUEUE_OK, q') /\ q_rep q' [].
Proof.
  apply (delete_all_empties wrapped_sevens [63; 64; 7; 7]).
  apply (q_after_rep (fill ++ replicate 62 OpPop ++ [OpPush 7; OpPush 7])).
  vm_compute. congruence.
Defined.

Lemma reduce_refines_witness :
  exists q', cf_queue_reduce (fun x u => (if x =? 8 then -2 else 0, u + x)) qenv_ok
               (q_after [OpPush 7; OpPush 8; OpPush 9]) 0 = Some (0, q', 15) /\ q_rep q' [7; 9].
Proof.
  apply (reduce_refines (fun x u => (if x =? 8 then -2 else 0, u + x)) _ [7; 8; 9] 0).
  apply (q_after_rep [OpPush 7; OpPush 8; OpPush 9]). simpl. lia.
Defined.

Lemma reduce_reverse_never_returns_witness :
  cf_queue_reduce_reverse (fun _ u => (0, u + 1)) 1000 qenv_ok (q_after fill) 0 = Some None.
Proof.
  apply (reduce_reverse_never_returns (fun _ u => (0, u + 1)) _ (Z.of_nat <$> seq 1 64));
    [|reflexivity|reflexivity|split; discriminate].
  apply (q_after_rep fill). vm_compute. congruence.
Defined.
