(* ===== verification/ArrayList.v ===== *)
(** * The array list

    Models [modules/common/src/main/aerospike/as_arraylist.c] and
    [as_arraylist_iterator.c].  An element is a pointer to a reference-counted
    value: [Some p] or [None] for NULL.  The list owns one reference per
    element; an operation answers the list of [as_val_reserve] and
    [as_val_destroy] calls it made, in order. *)

From S2P Require Import Prelude.

Definition AS_ARRAYLIST_OK : Z := 0.
Definition AS_ARRAYLIST_ERR_ALLOC : Z := 1.
Definition AS_ARRAYLIST_ERR_MAX : Z := 2.
Definition AS_ARRAYLIST_ERR_INDEX : Z := 3.

Inductive ref_event (P : Type) := Reserve (p : P) | Destroy (p : P).
Arguments Reserve {P}.
Arguments Destroy {P}.

(** [elements] holds one entry per allocated slot; an entry [None] was never
    written.  NULL and a failed allocation are the empty array. *)
Record as_arraylist (P : Type) := mk_arraylist {
  block_size : Z;
  capacity : Z;
  size : Z;
  elements : list (option (option P));
  free : bool
}.
Arguments mk_arraylist {P}.
Arguments block_size {P}.
Arguments capacity {P}.
Arguments size {P}.
Arguments elements {P}.
Arguments free {P}.

Section ArrayList.
Context {P : Type}.
Implicit Types (a : as_arraylist P) (value : option P).

Definition result : Type := Z * as_arraylist P * list (ref_event P).

Definition destroy_ev value : list (ref_event P) :=
  match value with Some p => [Destroy p] | None => [] end.
Definition reserve_ev value : list (ref_event P) :=
  match value with Some p => [Reserve p] | None => [] end.

(** Reading and writing [list->elements[i]]. *)
Definition el_get (els : list (option (option P))) (i : Z) : option (option P) :=
  aget els i ≫= id.
Definition el_set (els : list (option (option P))) (i : Z) value : option (list (option (option P))) :=
  aset els i (Some value).

Definition with_elements a els (sz : Z) : as_arraylist P :=
  mk_arraylist (block_size a) (capacity a) sz els (free a).

(** ** Instances *)

Definition as_arraylist_init (h : heap) (cap bs : Z) : as_arraylist P * heap :=
  if 0 <? cap then
    let '(ok, h) := cf_malloc h in
    (mk_arraylist bs cap 0 (if (ok : bool) then replicate (Z.to_nat cap) (Some None) else []) true, h)
  else (mk_arraylist bs cap 0 [] false, h).

Definition as_arraylist_new (h : heap) (cap bs : Z) : option (as_arraylist P) * heap :=
  let '(ok, h) := cf_malloc h in
  if negb ok then (None, h)
  else let '(a, h) := as_arraylist_init h cap bs in (Some a, h).

(** The first component says whether [cf_free(list->elements)] is called. *)
Fixpoint release_loop (n : nat) (i : Z) (els : list (option (option P)))
  : option (list (ref_event P)) :=
  match n with
  | O => Some []
  | S n =>
      v ← el_get els i;
      els ← el_set els i None;
      ev ← release_loop n (i + 1) els;
      Some (destroy_ev v ++ ev)
  end.

Definition as_arraylist_release a : option (bool * as_arraylist P * list (ref_event P)) :=
  let a' := mk_arraylist (block_size a) 0 0 [] (free a) in
  match elements a with
  | [] => Some (false, a', [])
  | els => ev ← release_loop (Z.to_nat (size a)) 0 els; Some (free a, a', ev)
  end.

(** ** Growth *)

(** [alloc] is the answer of [cf_realloc].  The sizes are computed in [int] and
    [size_t] as in the code, a pointer being 8 bytes; the final [memset] is
    undefined when the new block is smaller than the old one. *)
Definition as_arraylist_ensure (alloc : bool) a (delta : Z) : option (Z * as_arraylist P) :=
  if capacity a <? u32 (size a + delta) then
    if block_size a =? 0 then Some (AS_ARRAYLIST_ERR_MAX, a)
    else
      let new_room := i32 (u32 (size a + delta) - capacity a) in
      let new_blocks := i32 (u32 (new_room + block_size a) / block_size a) in
      let new_capacity := i32 (capacity a + new_blocks * block_size a) in
      let new_bytes := u64 (8 * new_capacity) in
      if negb alloc then Some (AS_ARRAYLIST_ERR_ALLOC, a)
      else
        let old_bytes := 8 * capacity a in
        if new_bytes <? old_bytes then None
        else
          let kept := elements a ++ replicate (Z.to_nat (capacity a) - length (elements a)) None in
          let zeroed := replicate (Z.to_nat ((new_bytes - old_bytes) / 8)) (Some None) in
          Some (AS_ARRAYLIST_OK,
                mk_arraylist (block_size a) (u32 new_capacity) (size a) (kept ++ zeroed) (free a))
  else Some (AS_ARRAYLIST_OK, a).

(** ** Access *)

Definition as_arraylist_hashcode a : Z := 0.
Definition as_arraylist_size a : Z := size a.

Definition as_arraylist_get a (index : Z) : option (option P) :=
  if index <? size a then el_get (elements a) index else Some None.

Definition as_arraylist_set (alloc : bool) a (index : Z) value : option result :=
  '(rc, a) ← (if capacity a <=? index
              then as_arraylist_ensure alloc a (u32 (u32 (index + 1) - size a))
              else Some (AS_ARRAYLIST_OK, a));
  if negb (rc =? AS_ARRAYLIST_OK) then Some (rc, a, [])
  else
    ev ← (if index <? size a then v ← el_get (elements a) index; Some (destroy_ev v) else Some []);
    els ← el_set (elements a) index value;
    Some (rc, with_elements a els (if size a <=? index then u32 (index + 1) else size a), ev).

(** [for (i = size; i > index; i--) elements[i] = elements[i - 1]]. *)
Fixpoint shift_up (n : nat) (els : list (option (option P))) (i : Z)
  : option (list (option (option P))) :=
  match n with
  | O => Some els
  | S n => v ← el_get els (i - 1); els ← el_set els i v; shift_up n els (i - 1)
  end.

Definition as_arraylist_insert (alloc : bool) a (index : Z) value : option result :=
  let delta := if size a <? index then u32 (u32 (index + 1) - size a) else 1 in
  '(rc, a) ← as_arraylist_ensure alloc a delta;
  if negb (rc =? AS_ARRAYLIST_OK) then Some (rc, a, [])
  else
    els ← shift_up (Z.to_nat (size a - index)) (elements a) (size a);
    els ← el_set els index value;
    Some (AS_ARRAYLIST_OK,
          with_elements a els (if size a <? index then u32 (index + 1) else u32 (size a + 1)), []).

Definition as_arraylist_append (alloc : bool) a value : option result :=
  as_arraylist_insert alloc a (size a) value.

Definition as_arraylist_prepend (alloc : bool) a value : option result :=
  as_arraylist_insert alloc a 0 value.

(** [for (; i < size; i++) elements[i - 1] = elements[i]]. *)
Fixpoint shift_down (n : nat) (els : list (option (option P))) (i : Z)
  : option (list (option (option P))) :=
  match n with
  | O => Some els
  | S n => v ← el_get els i; els ← el_set els (i - 1) v; shift_down n els (i + 1)
  end.

Definition as_arraylist_remove a (index : Z) : option result :=
  if size a <=? index then Some (AS_ARRAYLIST_ERR_INDEX, a, [])
  else
    v ← el_get (elements a) index;
    els ← shift_down (Z.to_nat (size a - (index + 1))) (elements a) (index + 1);
    els ← el_set els (size a - 1) None;
    Some (AS_ARRAYLIST_OK, with_elements a els (size a - 1), destroy_ev v).

Fixpoint concat_loop (n : nat) a (els2 : list (option (option P))) (i : Z)
  : option (as_arraylist P * list (ref_event P)) :=
  match n with
  | O => Some (a, [])
  | S n =>
      v ← el_get els2 i;
      els ← el_set (elements a) (size a) v;
      '(a, ev) ← concat_loop n (with_elements a els (u32 (size a + 1))) els2 (i + 1);
      Some (a, reserve_ev v ++ ev)
  end.

(** The two lists are distinct objects. *)
Definition as_arraylist_concat (alloc : bool) a (list2 : as_arraylist P) : option result :=
  '(rc, a) ← as_arraylist_ensure alloc a (size list2);
  if negb (rc =? AS_ARRAYLIST_OK) then Some (rc, a, [])
  else
    '(a, ev) ← concat_loop (Z.to_nat (size list2)) a (elements list2) 0;
    Some (AS_ARRAYLIST_OK, a, ev).

Fixpoint trim_loop (n : nat) (els : list (option (option P))) (i : Z)
  : option (list (option (option P)) * list (ref_event P)) :=
  match n with
  | O => Some (els, [])
  | S n =>
      v ← el_get els i;
      els ← (match v with Some _ => el_set els i None | None => Some els end);
      '(els, ev) ← trim_loop n els (i + 1);
      Some (els, destroy_ev v ++ ev)
  end.

Definition as_arraylist_trim a (index : Z) : option result :=
  if size a <=? index then Some (AS_ARRAYLIST_ERR_INDEX, a, [])
  else
    '(els, ev) ← trim_loop (Z.to_nat (size a - index)) (elements a) index;
    Some (AS_ARRAYLIST_OK, with_elements a els index, ev).

(** ** New lists from old *)

Definition as_arraylist_head a : option (option P) := el_get (elements a) 0.

(** [list2->elements[j] = list2->elements[i]]: the source is the new list. *)
Fixpoint tail_loop (n : nat) (els els2 : list (option (option P))) (i j : Z)
  : option (list (option (option P)) * list (ref_event P)) :=
  match n with
  | O => Some (els2, [])
  | S n =>
      v ← el_get els i;
      w ← (match v with Some _ => el_get els2 i | None => Some None end);
      els2 ← el_set els2 j w;
      '(els2, ev) ← tail_loop n els els2 (i + 1) (j + 1);
      Some (els2, reserve_ev v ++ ev)
  end.

(** The inner [option] is the NULL answer. *)
Definition as_arraylist_tail (h : heap) a
  : option (option (as_arraylist P) * list (ref_event P)) :=
  if size a =? 0 then Some (None, [])
  else
    list2 ← fst (as_arraylist_new h (size a - 1) (block_size a));
    '(els2, ev) ← tail_loop (Z.to_nat (size a - 1)) (elements a) (elements list2) 1 0;
    Some (Some (with_elements list2 els2 (size list2)), ev).

Fixpoint copy_loop (n : nat) (els els2 : list (option (option P))) (i j : Z)
  : option (list (option (option P)) * list (ref_event P)) :=
  match n with
  | O => Some (els2, [])
  | S n =>
      v ← el_get els i;
      els2 ← el_set els2 j v;
      '(els2, ev) ← copy_loop n els els2 (i + 1) (j + 1);
      Some (els2, reserve_ev v ++ ev)
  end.

(** The new list is not tested for NULL before it is written to. *)
Definition as_arraylist_drop (h : heap) a (n : Z) : option (as_arraylist P * list (ref_event P)) :=
  let c := if n <? size a then n else size a in
  list2 ← fst (as_arraylist_new h (size a - c) (block_size a));
  '(els2, ev) ← copy_loop (Z.to_nat (size a - c)) (elements a) (elements list2) c 0;
  Some (with_elements list2 els2 (size a - c), ev).

Definition as_arraylist_take (h : heap) a (n : Z) : option (as_arraylist P * list (ref_event P)) :=
  let c := if n <? size a then n else size a in
  list2 ← fst (as_arraylist_new h c (block_size a));
  '(els2, ev) ← copy_loop (Z.to_nat c) (elements a) (elements list2) 0 0;
  Some (with_elements list2 els2 c, ev).

(** ** Iteration *)

Section Foreach.
Context {U : Type} (callback : option P -> U -> bool * U).

Fixpoint foreach_loop (n : nat) (els : list (option (option P))) (i : Z) (u : U) : option (bool * U) :=
  match n with
  | O => Some (true, u)
  | S n =>
      v ← el_get els i;
      let '(go, u) := callback v u in
      if (go : bool) then foreach_loop n els (i + 1) u else Some (false, u)
  end.

Definition as_arraylist_foreach a (u : U) : option (bool * U) :=
  foreach_loop (Z.to_nat (size a)) (elements a) 0 u.
End Foreach.

Record as_arraylist_iterator := { it_list : as_arraylist P; it_pos : Z }.

Definition as_arraylist_iterator_init a : as_arraylist_iterator := {| it_list := a; it_pos := 0 |}.

Definition as_arraylist_iterator_has_next (it : as_arraylist_iterator) : bool :=
  it_pos it <? size (it_list it).

Definition as_arraylist_iterator_next (it : as_arraylist_iterator)
  : option (option P * as_arraylist_iterator) :=
  if it_pos it <? size (it_list it) then
    v ← el_get (elements (it_list it)) (it_pos it);
    Some (v, {| it_list := it_list it; it_pos := u32 (it_pos it + 1) |})
  else Some (None, it).

End ArrayList.
Arguments result : clear implicits.

(** ** The abstract list

    [al_rep a l]: the structure is well formed and its elements are [l].  The
    slots beyond the size are NULL, which [as_arraylist_set] beyond the end
    relies on. *)

Section Refinement.
Context {P : Type}.
Implicit Types (a : as_arraylist P) (l f x y r : list (option P)) (v : option P).

Definition al_rep a l : Prop :=
  size a = blen l /\ blen l <= capacity a < 2 ^ 31 /\ 0 <= block_size a < 2 ^ 30
  /\ elements a = Some <$> (l ++ replicate (Z.to_nat (capacity a - blen l)) None).

(** *** Slots *)

Lemma el_get_mid x v r i : i = blen x -> el_get (Some <$> (x ++ v :: r)) i = Some v.
Proof.
  intros ->. unfold el_get. rewrite aget_lookup, list_lookup_fmap.
  by rewrite list_lookup_middle.
Qed.

Lemma el_set_mid x v w r i :
  i = blen x -> el_set (Some <$> (x ++ v :: r)) i w = Some (Some <$> (x ++ w :: r)).
Proof.
  intros ->. unfold el_set. rewrite aset_Some.
  - rewrite Nat2Z.id, <- list_fmap_insert. by rewrite insert_app_r_alt, Nat.sub_diag by lia.
  - rewrite length_fmap, length_app. simpl. lia.
Qed.

(** A list of which [n] elements are left after the first [i]. *)
Lemma split_at l (i : nat) : (i < length l)%nat ->
  exists x v r, l = x ++ v :: r /\ length x = i.
Proof.
  intros Hi. destruct (lookup_lt_is_Some_2 l i Hi) as [v Hv].
  exists (take i l), v, (drop (S i) l).
  split; [by rewrite take_drop_middle|rewrite length_take; lia].
Qed.

Lemma replicate_S_end_app {B} n (z : B) (t : list B) :
  replicate n z ++ z :: t = replicate (S n) z ++ t.
Proof. by rewrite replicate_S_end, <- app_assoc. Qed.

(** *** The loops *)

Lemma shift_up_ok x y v r :
  exists w, shift_up (length y) (Some <$> (x ++ y ++ v :: r)) (blen x + blen y)
            = Some (Some <$> (x ++ w :: y ++ r)).
Proof.
  revert v r. induction y as [|t y IH] using rev_ind; intros v r; [by exists v|].
  rewrite length_app. simpl. rewrite Nat.add_comm. simpl.
  rewrite <- app_assoc. simpl.
  rewrite (app_assoc x y). rewrite el_get_mid by (rewrite !length_app; lia). simpl.
  replace ((x ++ y) ++ t :: v :: r) with ((x ++ y ++ [t]) ++ v :: r) by (by rewrite <- !app_assoc).
  rewrite el_set_mid by (rewrite !length_app; simpl; lia). simpl.
  destruct (IH t (t :: r)) as [w Hw]. exists w.
  replace (blen x + Z.of_nat (S (length y)) - 1) with (blen x + blen y) by lia.
  rewrite <- !app_assoc. simpl. rewrite Hw. by rewrite <- ?app_assoc.
Qed.

Lemma shift_down_ok x y v r :
  exists w, shift_down (length y) (Some <$> (x ++ v :: y ++ r)) (blen x + 1)
            = Some (Some <$> (x ++ y ++ w :: r)).
Proof.
  revert x v. induction y as [|t y IH]; intros x v; [by exists v|]. simpl.
  replace (x ++ v :: t :: y ++ r) with ((x ++ [v]) ++ t :: y ++ r) by (by rewrite <- app_assoc).
  rewrite el_get_mid by (rewrite length_app; simpl; lia). simpl.
  rewrite <- app_assoc. simpl. rewrite el_set_mid by lia. simpl.
  destruct (IH (x ++ [t]) t) as [w Hw]. exists w.
  rewrite length_app in Hw. simpl in Hw.
  replace (blen x + 1 + 1) with (Z.of_nat (length x + 1) + 1) by lia.
  rewrite <- !app_assoc in Hw. simpl in Hw. by rewrite Hw.
Qed.

Lemma trim_loop_ok x y r :
  trim_loop (length y) (Some <$> (x ++ y ++ r)) (blen x)
  = Some (Some <$> (x ++ replicate (length y) None ++ r), y ≫= destroy_ev).
Proof.
  revert x. induction y as [|v y IH]; intros x; [done|]. simpl.
  rewrite el_get_mid by done. cbn [mbind option_bind].
  assert ((match v with Some _ => el_set (Some <$> (x ++ v :: y ++ r)) (blen x) None
           | None => Some (Some <$> (x ++ v :: y ++ r)) end)
          = Some (Some <$> ((x ++ [None]) ++ y ++ r))) as ->.
  { rewrite <- app_assoc. destruct v; [|done]. by rewrite el_set_mid. }
  simpl. replace (blen x + 1) with (blen (x ++ [None])) by (rewrite length_app; simpl; lia).
  rewrite IH. simpl. by rewrite <- app_assoc.
Qed.

Lemma copy_loop_ok x y r p q s :
  length q = length y ->
  copy_loop (length y) (Some <$> (x ++ y ++ r)) (Some <$> (p ++ q ++ s)) (blen x) (blen p)
  = Some (Some <$> (p ++ y ++ s), y ≫= reserve_ev).
Proof.
  revert x p q. induction y as [|v y IH]; intros x p q Hq.
  { by destruct q. }
  destruct q as [|t q]; [done|]. simpl in Hq |- *.
  rewrite el_get_mid by done. simpl. rewrite el_set_mid by done. simpl.
  replace (blen x + 1) with (blen (x ++ [v])) by (rewrite length_app; simpl; lia).
  replace (blen p + 1) with (blen (p ++ [v])) by (rewrite length_app; simpl; lia).
  replace (x ++ v :: y ++ r) with ((x ++ [v]) ++ y ++ r) by (by rewrite <- app_assoc).
  replace (p ++ v :: q ++ s) with ((p ++ [v]) ++ q ++ s) by (by rewrite <- app_assoc).
  rewrite IH by lia. simpl. by rewrite <- app_assoc.
Qed.

(** Visits the elements in order until the callback answers [false]. *)
Fixpoint foreach_spec {U} (cb : option P -> U -> bool * U) l (u : U) : bool * U :=
  match l with
  | [] => (true, u)
  | v :: l => let '(go, u) := cb v u in if (go : bool) then foreach_spec cb l u else (false, u)
  end.

Lemma foreach_loop_ok {U} (cb : option P -> U -> bool * U) x y r u :
  foreach_loop cb (length y) (Some <$> (x ++ y ++ r)) (blen x) u = Some (foreach_spec cb y u).
Proof.
  revert x u. induction y as [|v y IH]; intros x u; [done|]. simpl.
  rewrite el_get_mid by done. simpl. destruct (cb v u) as [[] u']; [|done].
  replace (blen x + 1) with (blen (x ++ [v])) by (rewrite length_app; simpl; lia).
  replace (x ++ v :: y ++ r) with ((x ++ [v]) ++ y ++ r) by (by rewrite <- app_assoc).
  apply IH.
Qed.

Lemma concat_loop_ok bs cap fr l y k x r :
  blen l + blen y < 2 ^ 31 ->
  concat_loop (length y)
    (mk_arraylist bs cap (blen l) (Some <$> (l ++ replicate (length y + k) None)) fr)
    (Some <$> (x ++ y ++ r)) (blen x)
  = Some (mk_arraylist bs cap (blen l + blen y) (Some <$> ((l ++ y) ++ replicate k None)) fr,
          y ≫= reserve_ev).
Proof.
  revert l x. induction y as [|v y IH]; intros l x Hb.
  { simpl. by rewrite app_nil_r, Z.add_0_r. }
  simpl in Hb |- *. rewrite el_get_mid by done. simpl. rewrite el_set_mid by done. simpl.
  unfold with_elements. simpl. rewrite u32_id by (unfold is_u32; lia).
  replace (blen l + 1) with (blen (l ++ [v])) by (rewrite length_app; simpl; lia).
  replace (blen x + 1) with (blen (x ++ [v])) by (rewrite length_app; simpl; lia).
  replace (x ++ v :: y ++ r) with ((x ++ [v]) ++ y ++ r) by (by rewrite <- app_assoc).
  replace (l ++ v :: replicate (length y + k) None)
    with ((l ++ [v]) ++ replicate (length y + k) None) by (by rewrite <- app_assoc).
  rewrite IH by (rewrite length_app; simpl; lia). simpl.
  do 2 f_equal. f_equal; [rewrite length_app; simpl; lia|by rewrite <- !app_assoc].
Qed.

(** *** Growth *)

Lemma ensure_ok a l delta :
  al_rep a l -> 0 <= delta -> 0 < block_size a -> blen l + delta + block_size a < 2 ^ 31 ->
  exists a', as_arraylist_ensure true a delta = Some (AS_ARRAYLIST_OK, a')
             /\ al_rep a' l /\ blen l + delta <= capacity a' /\ block_size a' = block_size a
             /\ free a' = free a.
Proof.
  intros Hrep Hd Hbs Hmax. pose proof Hrep as (Hs & Hc & Hb & He).
  unfold as_arraylist_ensure. rewrite Hs, (u32_id (blen l + delta)) by (unfold is_u32; lia).
  destruct (_ <? _) eqn:E; reflect_Z; [|exists a; split_and!; (done || apply Hrep || lia)].
  rewrite (proj2 (Z.eqb_neq _ 0)) by lia. cbn [negb].
  set (room := blen l + delta - capacity a).
  pose proof (Z.div_mod (room + block_size a) (block_size a) ltac:(lia)) as Hdm.
  pose proof (Z.mod_pos_bound (room + block_size a) (block_size a) ltac:(lia)) as Hm.
  rewrite (i32_id room), (u32_id (room + _)) by (unfold is_u32, room; lia).
  set (blocks := (room + block_size a) / block_size a) in *.
  assert (0 < blocks) by nia. assert (blocks <= room + block_size a) by nia.
  assert (room < blocks * block_size a <= room + block_size a) by nia.
  rewrite (i32_id blocks), (i32_id (capacity a + _)) by (unfold room in *; lia).
  rewrite u64_id, u32_id by (unfold is_u32, room in *; lia).
  destruct (8 * _ <? 8 * _) eqn:E2; reflect_Z; [unfold room in *; lia|].
  eexists. split; [done|]. split; [|by simpl; unfold room in *; split_and!; lia || done].
  split; [done|]. split; [simpl; unfold room in *; lia|]. split; [done|]. simpl.
  rewrite He, length_fmap, length_app, length_replicate.
  replace (Z.to_nat (capacity a) - _)%nat with 0%nat by lia. simpl. rewrite app_nil_r.
  rewrite <- (fmap_replicate Some), <- fmap_app, <- app_assoc, <- replicate_add. do 3 f_equal.
  replace (8 * (capacity a + blocks * block_size a) - 8 * capacity a)
    with (blocks * block_size a * 8) by lia.
  rewrite Z.div_mul by lia. lia.
Qed.

(** Growth fails on a list of fixed capacity and when the allocation does. *)
Lemma ensure_fails alloc a l delta :
  al_rep a l -> 0 <= delta -> capacity a < blen l + delta < 2 ^ 32 ->
  block_size a = 0 \/ alloc = false ->
  as_arraylist_ensure alloc a delta
  = Some (if block_size a =? 0 then AS_ARRAYLIST_ERR_MAX else AS_ARRAYLIST_ERR_ALLOC, a).
Proof.
  intros (Hs & Hc & Hb & He) Hd Hlt Hf. unfold as_arraylist_ensure.
  rewrite Hs, u32_id by (unfold is_u32; lia). rewrite (proj2 (Z.ltb_lt _ _)) by lia.
  destruct Hf as [->| ->]; [done|]. by case_if.
Qed.

Lemma ensure_room alloc a l delta :
  al_rep a l -> 0 <= delta -> blen l + delta <= capacity a ->
  as_arraylist_ensure alloc a delta = Some (AS_ARRAYLIST_OK, a).
Proof.
  intros (Hs & Hc & Hb & He) Hd Hle. unfold as_arraylist_ensure.
  rewrite Hs, u32_id by (unfold is_u32; lia). by rewrite (proj2 (Z.ltb_ge _ _)) by lia.
Qed.

(** *** Writing *)

(** The list extended with NULLs to [n] elements. *)
Definition pad l (n : nat) : list (option P) := l ++ replicate (n - length l) None.

Definition set_at (i : nat) v l : list (option P) := <[i := v]> (pad l (S i)).
Definition insert_at (i : nat) v l : list (option P) := take i (pad l i) ++ v :: drop i l.

Lemma slots_pad l (i : nat) cap :
  Z.of_nat i <= cap -> blen l <= cap ->
  l ++ replicate (Z.to_nat (cap - blen l)) None
  = pad l i ++ replicate (Z.to_nat (cap - blen (pad l i))) (None : option P).
Proof.
  intros Hi Hl. unfold pad. rewrite length_app, length_replicate, <- app_assoc, <- replicate_add.
  do 2 f_equal. lia.
Qed.

Lemma el_set_slots l cap (i : nat) v :
  Z.of_nat i < cap -> blen l <= cap ->
  el_set (Some <$> (l ++ replicate (Z.to_nat (cap - blen l)) None)) (Z.of_nat i) v
  = Some (Some <$> (set_at i v l ++ replicate (Z.to_nat (cap - blen (set_at i v l))) None)).
Proof.
  intros Hi Hl. unfold set_at. rewrite length_insert.
  rewrite (slots_pad l (S i)) by lia. unfold el_set.
  assert (i < length (pad l (S i)))%nat as Hlt.
  { unfold pad. rewrite length_app, length_replicate. lia. }
  rewrite aset_Some by (rewrite length_fmap, length_app; lia).
  by rewrite Nat2Z.id, <- list_fmap_insert, insert_app_l by lia.
Qed.

Lemma el_get_slots l cap (i : nat) v :
  l !! i = Some v ->
  el_get (Some <$> (l ++ replicate (Z.to_nat (cap - blen l)) None)) (Z.of_nat i) = Some v.
Proof.
  intros Hv. unfold el_get. rewrite aget_lookup, list_lookup_fmap.
  by rewrite lookup_app_l, Hv by (by eapply lookup_lt_Some).
Qed.

Lemma length_set_at i v l : length (set_at i v l) = Nat.max (length l) (S i).
Proof. unfold set_at, pad. rewrite length_insert, length_app, length_replicate. lia. Qed.

Lemma length_insert_at i v l : length (insert_at i v l) = S (Nat.max (length l) i).
Proof.
  unfold insert_at, pad. rewrite length_app, length_take, length_app, length_replicate. simpl.
  rewrite length_drop. lia.
Qed.

Lemma insert_at_end i v l : (length l <= i)%nat -> insert_at i v l = set_at i v l.
Proof.
  intros Hi. unfold insert_at, set_at, pad. rewrite drop_ge by done.
  rewrite take_ge by (rewrite length_app, length_replicate; lia).
  replace (S i - length l)%nat with (S (i - length l)) by lia. rewrite replicate_S_end, app_assoc.
  rewrite insert_app_r_alt by (rewrite length_app, length_replicate; lia).
  rewrite length_app, length_replicate.
  by replace (i - (length l + (i - length l)))%nat with 0%nat by lia.
Qed.

Lemma insert_at_split x y v : insert_at (length x) v (x ++ y) = x ++ v :: y.
Proof.
  unfold insert_at, pad. rewrite length_app.
  replace (length x - _)%nat with 0%nat by lia. simpl.
  by rewrite app_nil_r, take_app_length, drop_app_length.
Qed.

(** What the operations below need of the sizes. *)
Definition growable a (n : Z) : Prop := 0 < block_size a /\ n + block_size a < 2 ^ 31.

(** The write of [as_arraylist_set], once there is room for it. *)
Lemma set_write a l (i : nat) v :
  al_rep a l -> Z.of_nat i < capacity a ->
  exists els,
    (if Z.of_nat i <? size a then w ← el_get (elements a) (Z.of_nat i); Some (destroy_ev w)
     else Some []) = Some (destroy_ev (mjoin (l !! i)))
    /\ el_set (elements a) (Z.of_nat i) v = Some els
    /\ al_rep (with_elements a els (if size a <=? Z.of_nat i then u32 (Z.of_nat i + 1) else size a))
         (set_at i v l).
Proof.
  intros (Hs & Hc & Hb & He) Hi. rewrite He, el_set_slots by lia. eexists. split; [|split; [done|]].
  - rewrite Hs. case_if; reflect_Z.
    + destruct (lookup_lt_is_Some_2 l i) as [w Hw]; [lia|]. by rewrite (el_get_slots l _ i w Hw), Hw.
    + by rewrite lookup_ge_None_2 by lia.
  - pose proof (length_set_at i v l) as Hlen.
    split; [simpl; rewrite Hs, u32_id by (unfold is_u32; lia); case_if; reflect_Z; lia|].
    split; [simpl; lia|]. done.
Qed.

Lemma list_set_ok a l (i : nat) v :
  al_rep a l -> growable a (Z.max (blen l) (Z.of_nat i + 1)) ->
  exists a', as_arraylist_set true a (Z.of_nat i) v
             = Some (AS_ARRAYLIST_OK, a', destroy_ev (mjoin (l !! i)))
             /\ al_rep a' (set_at i v l) /\ block_size a' = block_size a.
Proof.
  intros Hrep (Hbs & Hmax). pose proof Hrep as (Hs & Hc & Hb & He).
  unfold as_arraylist_set.
  assert (exists a1, (if capacity a <=? Z.of_nat i
     then as_arraylist_ensure true a (u32 (u32 (Z.of_nat i + 1) - size a))
     else Some (AS_ARRAYLIST_OK, a)) = Some (AS_ARRAYLIST_OK, a1)
     /\ al_rep a1 l /\ Z.of_nat i < capacity a1 /\ block_size a1 = block_size a) as (a1 & -> & H1 & Hi & Hbs1).
  { case_if; reflect_Z; [|exists a; split; [done|]; split; [done|]; split; [lia|done]].
    rewrite (u32_id (Z.of_nat i + 1)), Hs, u32_id by (unfold is_u32; lia).
    destruct (ensure_ok a l (Z.of_nat i + 1 - blen l) Hrep) as (a1 & -> & H1 & H2 & H3 & _); [lia..|].
    exists a1. split; [done|]. split; [done|]. split; [lia|done]. }
  destruct (set_write a1 l i v H1 Hi) as (els & Hev & Hset & Hrep1).
  cbn [mbind option_bind]. simpl negb. cbv iota. rewrite Hev. cbn [mbind option_bind].
  rewrite Hset. cbn [mbind option_bind]. by eexists.
Qed.

Lemma insert_ok a l (i : nat) v :
  al_rep a l -> growable a (Z.max (blen l) (Z.of_nat i) + 1) ->
  exists a', as_arraylist_insert true a (Z.of_nat i) v = Some (AS_ARRAYLIST_OK, a', [])
             /\ al_rep a' (insert_at i v l) /\ block_size a' = block_size a.
Proof.
  intros Hrep (Hbs & Hmax). pose proof Hrep as (Hs & Hc & Hb & He). unfold as_arraylist_insert.
  assert ((if size a <? Z.of_nat i then u32 (u32 (Z.of_nat i + 1) - size a) else 1)
          = Z.max (blen l) (Z.of_nat i) + 1 - blen l) as ->.
  { rewrite Hs. case_if; reflect_Z; [|lia].
    rewrite (u32_id (_ + 1)), u32_id by (unfold is_u32; lia). lia. }
  destruct (ensure_ok a l (Z.max (blen l) (Z.of_nat i) + 1 - blen l) Hrep) as (a1 & -> & H1 & H2 & H3 & _);
    [lia..|]. cbn [mbind option_bind]. simpl negb. cbv iota.
  pose proof H1 as (Hs1 & Hc1 & Hb1 & He1). rewrite Hs1, He1.
  pose proof (length_insert_at i v l) as Hlen.
  rewrite !u32_id by (unfold is_u32; lia).
  assert (exists els, shift_up (Z.to_nat (blen l - Z.of_nat i))
      (Some <$> (l ++ replicate (Z.to_nat (capacity a1 - blen l)) None)) (blen l) = Some els
      /\ el_set els (Z.of_nat i) v
      = Some (Some <$> (insert_at i v l ++ replicate (Z.to_nat (capacity a1 - blen (insert_at i v l))) None)))
    as (els & -> & Hset).
  { destruct (decide (length l <= i)%nat) as [Hge|Hlt].
    - replace (Z.to_nat (blen l - Z.of_nat i)) with 0%nat by lia. simpl. eexists. split; [done|].
      rewrite insert_at_end by done. apply el_set_slots; lia.
    - destruct (split_at l i) as (x & t & y & -> & <-); [lia|].
      rewrite length_app in *. simpl in *.
      replace (Z.to_nat (capacity a1 - Z.of_nat (length x + S (length y))))
        with (S (Z.to_nat (capacity a1 - Z.of_nat (length x + S (length y)) - 1))) by lia.
      replace (Z.to_nat (Z.of_nat (length x + S (length y)) - blen x))
        with (length (t :: y)) by (simpl; lia).
      simpl replicate. rewrite <- app_assoc.
      destruct (shift_up_ok x (t :: y) None
        (replicate (Z.to_nat (capacity a1 - Z.of_nat (length x + S (length y)) - 1)) None)) as [w Hw].
      replace (Z.of_nat (length x + S (length y))) with (blen x + blen (t :: y)) in * by (simpl; lia).
      rewrite Hw. eexists. split; [done|]. rewrite el_set_mid by done.
      rewrite insert_at_split, length_app, <- app_assoc. simpl. do 7 f_equal. lia. }
  cbn [mbind option_bind]. rewrite Hset. cbn [mbind option_bind].
  eexists. split; [done|]. split; [|done].
  split; [simpl; case_if; reflect_Z; lia|]. split; [simpl; lia|]. done.
Qed.

Lemma list_remove_ok a l (i : nat) :
  al_rep a l -> (i < length l)%nat ->
  exists a', as_arraylist_remove a (Z.of_nat i)
             = Some (AS_ARRAYLIST_OK, a', destroy_ev (mjoin (l !! i)))
             /\ al_rep a' (delete i l) /\ block_size a' = block_size a.
Proof.
  intros (Hs & Hc & Hb & He) Hi. destruct (split_at l i) as (x & v & y & -> & <-); [done|].
  rewrite list_lookup_middle by done. unfold as_arraylist_remove. rewrite Hs, He.
  rewrite (proj2 (Z.leb_gt _ _)) by lia. rewrite length_app in *. simpl length in *.
  rewrite <- app_assoc. simpl app. rewrite el_get_mid by done. cbn [mbind option_bind].
  set (k := Z.to_nat (capacity a - _)). destruct (shift_down_ok x y v (replicate k None)) as [w Hw].
  replace (Z.to_nat (Z.of_nat (length x + S (length y)) - (blen x + 1))) with (length y) by lia.
  rewrite Hw. cbn [mbind option_bind]. rewrite app_assoc.
  rewrite el_set_mid by (rewrite length_app; lia). cbn [mbind option_bind].
  eexists. split; [done|]. split; [|done].
  assert (delete (length x) (x ++ v :: y) = x ++ y) as ->.
  { rewrite delete_take_drop, take_app_length.
    replace (x ++ v :: y) with ((x ++ [v]) ++ y) by (by rewrite <- app_assoc).
    by rewrite drop_app_length' by (rewrite length_app; simpl; lia). }
  split; [simpl; rewrite length_app; lia|]. split; [simpl; rewrite length_app; lia|].
  split; [done|]. simpl. rewrite length_app.
  replace (Z.to_nat (capacity a - Z.of_nat (length x + length y))) with (S k) by (unfold k; lia).
  done.
Qed.

Lemma trim_ok a l (i : nat) :
  al_rep a l -> (i < length l)%nat ->
  exists a', as_arraylist_trim a (Z.of_nat i)
             = Some (AS_ARRAYLIST_OK, a', drop i l ≫= destroy_ev)
             /\ al_rep a' (take i l) /\ block_size a' = block_size a.
Proof.
  intros (Hs & Hc & Hb & He) Hi. unfold as_arraylist_trim. rewrite Hs, He.
  rewrite (proj2 (Z.leb_gt _ _)) by lia.
  pose proof (trim_loop_ok (take i l) (drop i l) (replicate (Z.to_nat (capacity a - blen l)) None)) as Ht.
  rewrite app_assoc, take_drop, length_take, length_drop, Nat.min_l in Ht by lia.
  replace (Z.to_nat (blen l - Z.of_nat i)) with (length l - i)%nat by lia.
  rewrite Ht. cbn [mbind option_bind]. eexists. split; [done|]. split; [|done].
  split; [simpl; rewrite length_take; lia|]. split; [simpl; rewrite length_take; lia|].
  split; [done|]. simpl. rewrite length_take, <- replicate_add. do 3 f_equal. lia.
Qed.

(** *** New lists *)

Lemma new_ok cap bs :
  0 <= cap < 2 ^ 31 -> 0 <= bs < 2 ^ 30 ->
  exists a, fst (as_arraylist_new [] cap bs) = Some a
    /\ a = mk_arraylist bs cap 0 (Some <$> replicate (Z.to_nat cap) (None : option P)) (0 <? cap).
Proof.
  intros Hc Hb. unfold as_arraylist_new, as_arraylist_init. simpl.
  destruct (0 <? cap) eqn:E; reflect_Z; simpl; eexists; (split; [done|]).
  - by rewrite fmap_replicate.
  - by replace cap with 0 by lia.
Qed.

Lemma copy_ok a l x y r (i c : Z) :
  al_rep a l -> l = x ++ y ++ r -> i = blen x -> c = blen y ->
  exists a' list2, fst (as_arraylist_new [] c (block_size a)) = Some list2
    /\ copy_loop (length y) (elements a) (elements list2) i 0
       = Some (elements a', y ≫= reserve_ev)
    /\ a' = with_elements list2 (elements a') c /\ al_rep a' y.
Proof.
  intros (Hs & Hc & Hb & He) -> -> ->. rewrite !length_app in Hc.
  destruct (new_ok (blen y) (block_size a)) as (list2 & Hn & ->); [lia..|].
  exists (mk_arraylist (block_size a) (blen y) (blen y) (Some <$> y) (0 <? blen y)). eexists.
  split; [exact Hn|]. split; [|split; [done|]].
  - rewrite He, <- !app_assoc. rewrite Nat2Z.id. simpl elements.
    pose proof (copy_loop_ok x y (r ++ replicate (Z.to_nat (capacity a - blen (x ++ y ++ r))) None)
      [] (replicate (length y) None) []) as Hcp.
    rewrite length_replicate in Hcp. simpl in Hcp. rewrite !app_nil_r in Hcp. by apply Hcp.
  - split; [done|]. split; [simpl; lia|]. split; [done|]. simpl.
    rewrite Z.sub_diag. simpl. by rewrite app_nil_r.
Qed.

(** ** The contract *)

Inductive alop :=
  | AlSet (i : nat) (v : option P)
  | AlInsert (i : nat) (v : option P)
  | AlAppend (v : option P)
  | AlPrepend (v : option P)
  | AlRemove (i : nat)
  | AlTrim (i : nat).

Definition al_exec a (op : alop) : option (result P) :=
  match op with
  | AlSet i v => as_arraylist_set true a (Z.of_nat i) v
  | AlInsert i v => as_arraylist_insert true a (Z.of_nat i) v
  | AlAppend v => as_arraylist_append true a v
  | AlPrepend v => as_arraylist_prepend true a v
  | AlRemove i => as_arraylist_remove a (Z.of_nat i)
  | AlTrim i => as_arraylist_trim a (Z.of_nat i)
  end.

Definition al_spec l (op : alop) : Z * list (option P) * list (ref_event P) :=
  match op with
  | AlSet i v => (AS_ARRAYLIST_OK, set_at i v l, destroy_ev (mjoin (l !! i)))
  | AlInsert i v => (AS_ARRAYLIST_OK, insert_at i v l, [])
  | AlAppend v => (AS_ARRAYLIST_OK, l ++ [v], [])
  | AlPrepend v => (AS_ARRAYLIST_OK, v :: l, [])
  | AlRemove i => if decide (i < length l)%nat
                  then (AS_ARRAYLIST_OK, delete i l, destroy_ev (mjoin (l !! i)))
                  else (AS_ARRAYLIST_ERR_INDEX, l, [])
  | AlTrim i => if decide (i < length l)%nat
                then (AS_ARRAYLIST_OK, take i l, drop i l ≫= destroy_ev)
                else (AS_ARRAYLIST_ERR_INDEX, l, [])
  end.

(** The size an operation asks for. *)
Definition op_size l (op : alop) : Z :=
  match op with
  | AlSet i _ => Z.max (blen l) (Z.of_nat i + 1)
  | AlInsert i _ => Z.max (blen l) (Z.of_nat i) + 1
  | AlAppend _ | AlPrepend _ => blen l + 1
  | AlRemove _ | AlTrim _ => blen l
  end.

Lemma al_step_refines a l op :
  al_rep a l -> growable a (op_size l op) ->
  exists a', al_exec a op = Some ((al_spec l op).1.1, a', (al_spec l op).2)
             /\ al_rep a' (al_spec l op).1.2 /\ block_size a' = block_size a.
Proof.
  intros Hrep Hg. pose proof Hrep as (Hs & Hc & Hb & He).
  destruct op as [i v|i v|v|v|i|i]; cbn [al_exec al_spec op_size fst snd] in *.
  - by apply list_set_ok.
  - by apply insert_ok.
  - unfold as_arraylist_append. rewrite Hs, <- (insert_at_split l [] v), app_nil_r.
    apply insert_ok; [done|]. unfold growable in *. lia.
  - apply (insert_ok a l 0 v); [done|]. unfold growable in *. lia.
  - case_decide; [by apply list_remove_ok|]. exists a. split; [|done]. unfold as_arraylist_remove.
    by rewrite Hs, (proj2 (Z.leb_le _ _)) by lia.
  - case_decide; [by apply trim_ok|]. exists a. split; [|done]. unfold as_arraylist_trim.
    by rewrite Hs, (proj2 (Z.leb_le _ _)) by lia.
Qed.

Fixpoint al_run a (ops : list alop) : option (list Z * as_arraylist P * list (ref_event P)) :=
  match ops with
  | [] => Some ([], a, [])
  | op :: ops =>
      '(rc, a, ev) ← al_exec a op;
      '(rcs, a, evs) ← al_run a ops;
      Some (rc :: rcs, a, ev ++ evs)
  end.

Fixpoint al_run_spec l (ops : list alop) : list Z * list (option P) * list (ref_event P) :=
  match ops with
  | [] => ([], l, [])
  | op :: ops =>
      let '(rc, l, ev) := al_spec l op in
      let '(rcs, l, evs) := al_run_spec l ops in
      (rc :: rcs, l, ev ++ evs)
  end.

(** Every intermediate list stays within the limit. *)
Fixpoint run_fits (bs : Z) l (ops : list alop) : bool :=
  match ops with
  | [] => true
  | op :: ops => (op_size l op + bs <? 2 ^ 31) && run_fits bs (al_spec l op).1.2 ops
  end.

Lemma al_run_refines a l ops :
  al_rep a l -> 0 < block_size a -> run_fits (block_size a) l ops = true ->
  exists a', al_run a ops = Some ((al_run_spec l ops).1.1, a', (al_run_spec l ops).2)
             /\ al_rep a' (al_run_spec l ops).1.2.
Proof.
  revert a l. induction ops as [|op ops IH]; intros a l Hrep Hbs Hfit; simpl in *; [by exists a|].
  reflect_Z. destruct (al_step_refines a l op Hrep) as (a1 & -> & H1 & Hbs1); [by split|].
  destruct (al_spec l op) as [[rc l1] ev]. simpl in *. rewrite <- Hbs1 in *.
  destruct (IH a1 l1 H1) as (a2 & -> & H2); [done..|].
  destruct (al_run_spec l1 ops) as [[rcs l2] evs]. simpl in *. by exists a2.
Qed.

(** *** References *)

(** The references a list holds, and those an event or an operation passes. *)
Definition refs l : list P := omap id l.
Definition destroyed (ev : list (ref_event P)) : list P :=
  omap (fun e => match e with Destroy p => Some p | Reserve _ => None end) ev.
Definition given (op : alop) : list P :=
  match op with
  | AlSet _ v | AlInsert _ v | AlAppend v | AlPrepend v => option_list v
  | AlRemove _ | AlTrim _ => []
  end.

Lemma refs_app l1 l2 : refs (l1 ++ l2) = refs l1 ++ refs l2.
Proof. apply omap_app. Qed.

Lemma refs_cons v l : refs (v :: l) = option_list v ++ refs l.
Proof. by destruct v. Qed.

Lemma refs_pad l n : refs (pad l n) = refs l.
Proof.
  unfold pad. rewrite refs_app. replace (refs (replicate _ None)) with (@nil P); [apply app_nil_r|].
  induction (n - length l)%nat; [done|by simpl].
Qed.

Lemma destroyed_app e1 e2 : destroyed (e1 ++ e2) = destroyed e1 ++ destroyed e2.
Proof. apply omap_app. Qed.

Lemma destroyed_ev v : destroyed (destroy_ev v) = option_list v.
Proof. by destruct v. Qed.

Lemma destroyed_all l : destroyed (l ≫= destroy_ev) = refs l.
Proof.
  induction l as [|v l IH]; [done|].
  by rewrite bind_cons, destroyed_app, destroyed_ev, IH, refs_cons.
Qed.

Lemma refs_middle l i v : l !! i = Some v -> refs l ≡ₚ option_list v ++ refs (delete i l).
Proof.
  intros Hv. rewrite <- (take_drop_middle l i v Hv) at 1.
  rewrite delete_take_drop, !refs_app, refs_cons. solve_Permutation.
Qed.

Lemma refs_set i v l :
  refs (set_at i v l) ++ option_list (mjoin (l !! i)) ≡ₚ refs l ++ option_list v.
Proof.
  unfold set_at. rewrite <- (refs_pad l (S i)).
  assert (mjoin (l !! i) = mjoin (pad l (S i) !! i)) as ->.
  { unfold pad. destruct (decide (i < length l)%nat).
    - by rewrite lookup_app_l.
    - rewrite lookup_app_r, (lookup_ge_None_2 l) by lia. rewrite lookup_replicate_2 by lia. done. }
  assert (i < length (pad l (S i)))%nat as Hlt
    by (unfold pad; rewrite length_app, length_replicate; lia).
  generalize dependent (pad l (S i)). intros f Hlt.
  destruct (lookup_lt_is_Some_2 f i Hlt) as [w Hw]. rewrite Hw. simpl.
  rewrite insert_take_drop by done. rewrite <- (take_drop_middle f i w Hw) at 3.
  rewrite !refs_app, !refs_cons. solve_Permutation.
Qed.

Lemma refs_insert i v l : refs (insert_at i v l) ≡ₚ refs l ++ option_list v.
Proof.
  unfold insert_at. rewrite refs_app, refs_cons.
  destruct (decide (i <= length l)%nat).
  - unfold pad. replace (i - length l)%nat with 0%nat by lia. simpl. rewrite app_nil_r.
    rewrite <- (take_drop i l) at 3. rewrite refs_app. solve_Permutation.
  - rewrite take_ge by (unfold pad; rewrite length_app, length_replicate; lia).
    rewrite refs_pad, drop_ge by lia. simpl. by rewrite app_nil_r.
Qed.

Lemma step_conserves l op :
  refs (al_spec l op).1.2 ++ destroyed (al_spec l op).2 ≡ₚ refs l ++ given op.
Proof.
  destruct op as [i v|i v|v|v|i|i]; cbn [al_spec given]; repeat case_decide; cbn [fst snd];
    change (destroyed []) with (@nil P); rewrite ?app_nil_r; try done.
  - rewrite destroyed_ev. apply refs_set.
  - apply refs_insert.
  - by rewrite refs_app, refs_cons, app_nil_r.
  - rewrite refs_cons. solve_Permutation.
  - destruct (lookup_lt_is_Some_2 l i) as [w Hw]; [done|]. rewrite destroyed_ev, Hw.
    rewrite (refs_middle l i w Hw). solve_Permutation.
  - rewrite destroyed_all, <- refs_app. by rewrite take_drop.
Qed.

Lemma run_conserves l ops :
  refs (al_run_spec l ops).1.2 ++ destroyed (al_run_spec l ops).2 ≡ₚ refs l ++ (ops ≫= given).
Proof.
  revert l. induction ops as [|op ops IH]; intros l; [simpl; by rewrite app_nil_r|].
  rewrite bind_cons, app_assoc, <- (step_conserves l op). cbn [al_run_spec].
  destruct (al_spec l op) as [[rc l1] ev]. specialize (IH l1).
  destruct (al_run_spec l1 ops) as [[rcs l2] evs]. cbn [fst snd] in *.
  rewrite destroyed_app, (Permutation_app_comm (refs l1)), <- app_assoc, <- IH. solve_Permutation.
Qed.


(** Ownership.  Over any such sequence the references still held and those
    dropped with [as_val_destroy] are exactly the references held at the start
    and those handed over by the caller: none is leaked, none dropped twice. *)
Theorem arraylist_conserves_references a l ops :
  al_rep a l -> 0 < block_size a -> run_fits (block_size a) l ops = true ->
  exists rcs a' ev l', al_run a ops = Some (rcs, a', ev) /\ al_rep a' l'
    /\ refs l' ++ destroyed ev ≡ₚ refs l ++ (ops ≫= given).
Proof.
  intros Hrep Hbs Hfit. destruct (al_run_refines a l ops Hrep Hbs Hfit) as (a' & Hrun & Hrep').
  eexists _, a', _, _. split; [exact Hrun|]. split; [exact Hrep'|]. apply run_conserves.
Qed.

(** Error paths.  When a list cannot grow, because its block size is 0 or
    because the allocation fails, a set or insert that needs room answers
    AS_ARRAYLIST_ERR_MAX or AS_ARRAYLIST_ERR_ALLOC, leaves the list as it was
    and drops no reference; one that fits the capacity still succeeds. *)
Theorem arraylist_full a l alloc (i : nat) v :
  al_rep a l -> block_size a = 0 \/ alloc = false -> Z.of_nat i + 1 < 2 ^ 32 ->
  let err := if block_size a =? 0 then AS_ARRAYLIST_ERR_MAX else AS_ARRAYLIST_ERR_ALLOC in
  (capacity a <= Z.of_nat i -> as_arraylist_set alloc a (Z.of_nat i) v = Some (err, a, []))
  /\ (capacity a <= Z.max (blen l) (Z.of_nat i) ->
      as_arraylist_insert alloc a (Z.of_nat i) v = Some (err, a, []))
  /\ (Z.of_nat i < capacity a -> exists a',
      as_arraylist_set alloc a (Z.of_nat i) v = Some (AS_ARRAYLIST_OK, a', destroy_ev (mjoin (l !! i)))
      /\ al_rep a' (set_at i v l)).
Proof.
  intros Hrep Hf Hi err. pose proof Hrep as (Hs & Hc & Hb & He).
  assert ((err =? AS_ARRAYLIST_OK) = false) as Herr by (unfold err; by case_if).
  split_and!.
  - intros Hge. unfold as_arraylist_set. rewrite (proj2 (Z.leb_le _ _)) by done.
    rewrite (u32_id (_ + 1)), Hs, u32_id by (unfold is_u32; lia).
    rewrite (ensure_fails alloc a l) by (done || lia). fold err. simpl. by rewrite Herr.
  - intros Hge. unfold as_arraylist_insert.
    assert (exists delta, (if size a <? Z.of_nat i then u32 (u32 (Z.of_nat i + 1) - size a) else 1) = delta
      /\ 0 <= delta /\ capacity a < blen l + delta < 2 ^ 32) as (delta & -> & Hd & Hlt).
    { eexists. split; [done|]. rewrite (u32_id (_ + 1)), Hs by (unfold is_u32; lia).
      case_if; reflect_Z; [rewrite u32_id by (unfold is_u32; lia); lia|lia]. }
    rewrite (ensure_fails alloc a l) by done. fold err. simpl. by rewrite Herr.
  - intros Hlt. unfold as_arraylist_set. rewrite (proj2 (Z.leb_gt _ _)) by done.
    destruct (set_write a l i v Hrep Hlt) as (els & Hev & Hset & Hrep1).
    cbn [mbind option_bind]. simpl negb. cbv iota. rewrite Hev. cbn [mbind option_bind].
    rewrite Hset. cbn [mbind option_bind]. by eexists.
Qed.

(** *** Reading *)

Lemma list_get_ok a l (i : nat) : al_rep a l -> as_arraylist_get a (Z.of_nat i) = Some (mjoin (l !! i)).
Proof.
  intros (Hs & Hc & Hb & He). unfold as_arraylist_get. rewrite Hs, He. case_if; reflect_Z.
  - destruct (lookup_lt_is_Some_2 l i) as [w Hw]; [lia|]. by rewrite (el_get_slots l _ i w Hw), Hw.
  - by rewrite lookup_ge_None_2 by lia.
Qed.

Lemma foreach_ok {U} (cb : option P -> U -> bool * U) a l u :
  al_rep a l -> as_arraylist_foreach cb a u = Some (foreach_spec cb l u).
Proof.
  intros (Hs & Hc & Hb & He). unfold as_arraylist_foreach. rewrite Hs, He, Nat2Z.id.
  apply (foreach_loop_ok cb []).
Qed.

(** Draining an iterator. *)
Fixpoint iterate (fuel : nat) (it : as_arraylist_iterator) : option (list (option P)) :=
  match fuel with
  | O => Some []
  | S fuel =>
      if as_arraylist_iterator_has_next it then
        '(v, it) ← as_arraylist_iterator_next it;
        vs ← iterate fuel it; Some (v :: vs)
      else Some []
  end.

Lemma iterate_ok a x y fuel :
  al_rep a (x ++ y) -> (length y < fuel)%nat ->
  iterate fuel {| it_list := a; it_pos := blen x |} = Some y.
Proof.
  revert x fuel. induction y as [|v y IH]; intros x [|fuel] Hrep Hf; simpl in Hf; try lia;
    pose proof Hrep as (Hs & Hc & Hb & He); cbn [iterate];
    unfold as_arraylist_iterator_has_next, as_arraylist_iterator_next; cbn [it_list it_pos].
  - rewrite app_nil_r in Hs. by rewrite Hs, Z.ltb_irrefl.
  - rewrite length_app in Hs, Hc. simpl in Hs, Hc. rewrite Hs, (proj2 (Z.ltb_lt _ _)) by lia.
    rewrite He, <- app_assoc. simpl app. rewrite el_get_mid by done. cbn [mbind option_bind].
    rewrite u32_id by (unfold is_u32; lia).
    replace (x ++ v :: y) with ((x ++ [v]) ++ y) in Hrep by (by rewrite <- app_assoc).
    replace (blen x + 1) with (blen (x ++ [v])) by (rewrite length_app; simpl; lia).
    rewrite (IH _ fuel Hrep) by lia. done.
Qed.

Lemma concat_ok a l a2 l2 :
  al_rep a l -> al_rep a2 l2 -> growable a (blen l + blen l2) ->
  exists a', as_arraylist_concat true a a2 = Some (AS_ARRAYLIST_OK, a', l2 ≫= reserve_ev)
             /\ al_rep a' (l ++ l2).
Proof.
  intros Hrep (Hs2 & Hc2 & Hb2 & He2) [Hbs Hmax]. unfold as_arraylist_concat. rewrite Hs2.
  destruct (ensure_ok a l (blen l2) Hrep) as (a1 & -> & H1 & Hroom & Hbs1 & _); [lia..|].
  cbn [mbind option_bind]. simpl negb. cbv iota. rewrite Nat2Z.id, He2.
  destruct a1 as [bs cap sz els fr], H1 as (Hs & Hc & Hb & He). simpl in *. subst sz els.
  replace (Z.to_nat (cap - blen l)) with (length l2 + Z.to_nat (cap - blen l - blen l2))%nat by lia.
  pose proof (concat_loop_ok bs cap fr l l2 (Z.to_nat (cap - blen l - blen l2)) []
    (replicate (Z.to_nat (capacity a2 - blen l2)) None)) as Hloop.
  simpl app in Hloop. change (Z.of_nat (@length (option P) [])) with 0 in Hloop.
  rewrite Hloop by lia. cbn [mbind option_bind].
  eexists. split; [done|].
  split; [simpl; rewrite length_app; lia|]. split; [simpl; rewrite length_app; lia|].
  split; [done|]. simpl. do 4 f_equal. rewrite length_app. lia.
Qed.

(** Reading and copying.  [get] answers the element or NULL, [foreach] and
    the iterator visit the elements in order, [concat] appends, and [take] and
    [drop] build new lists of the first, of the remaining elements; every copied
    element is reserved once and no element is dropped. *)
Theorem arraylist_copies {U} (cb : option P -> U -> bool * U) (u : U) a l a2 l2 (n : nat) :
  al_rep a l -> al_rep a2 l2 -> growable a (blen l + blen l2) ->
  as_arraylist_get a (Z.of_nat n) = Some (mjoin (l !! n))
  /\ as_arraylist_foreach cb a u = Some (foreach_spec cb l u)
  /\ iterate (S (length l)) (as_arraylist_iterator_init a) = Some l
  /\ (exists a', as_arraylist_concat true a a2 = Some (AS_ARRAYLIST_OK, a', l2 ≫= reserve_ev)
        /\ al_rep a' (l ++ l2))
  /\ (exists a', as_arraylist_take [] a (Z.of_nat n) = Some (a', take n l ≫= reserve_ev)
        /\ al_rep a' (take n l))
  /\ (exists a', as_arraylist_drop [] a (Z.of_nat n) = Some (a', drop n l ≫= reserve_ev)
        /\ al_rep a' (drop n l)).
Proof.
  intros Hrep Hrep2 Hg. pose proof Hrep as (Hs & Hc & Hb & He).
  split; [by apply list_get_ok|]. split; [by apply foreach_ok|].
  split; [apply (iterate_ok a []); [done|lia]|]. split; [by apply concat_ok|].
  assert ((if Z.of_nat n <? blen l then Z.of_nat n else blen l) = blen (take n l)) as Hmin
    by (rewrite length_take; case_if; reflect_Z; lia).
  split.
  - unfold as_arraylist_take. rewrite Hs, Hmin, Nat2Z.id.
    destruct (copy_ok a l [] (take n l) (drop n l) 0 (blen (take n l)) Hrep)
      as (a' & list2 & -> & Hcp & Ha' & Hrep'); [by rewrite <- (take_drop n l) at 1|done..|].
    cbn [mbind option_bind]. rewrite Hcp. cbn [mbind option_bind]. rewrite <- Ha'. by exists a'.
  - unfold as_arraylist_drop. rewrite Hs, Hmin.
    replace (blen l - blen (take n l)) with (blen (drop n l))
      by (rewrite length_take, length_drop; lia). rewrite Nat2Z.id.
    destruct (copy_ok a l (take n l) (drop n l) [] (blen (take n l)) (blen (drop n l)) Hrep)
      as (a' & list2 & -> & Hcp & Ha' & Hrep'); [by rewrite app_nil_r, take_drop|done..|].
    cbn [mbind option_bind]. rewrite Hcp. cbn [mbind option_bind]. rewrite <- Ha'. by exists a'.
Qed.

(** *** What goes wrong *)

Lemma tail_loop_reads_past n els els2 i j q :
  el_get els (i + Z.of_nat n) = Some (Some q) -> blen els2 <= i + Z.of_nat n ->
  tail_loop (P := P) (S n) els els2 i j = None.
Proof.
  revert els2 i j. induction n as [|n IH]; intros els2 i j Hq Hlen.
  - rewrite Z.add_0_r in *. simpl. rewrite Hq. simpl.
    assert (el_get els2 i = None) as ->; [|done].
    unfold el_get, aget. case_decide; [|done]. by rewrite lookup_ge_None_2 by lia.
  - cbn [tail_loop]. destruct (el_get els i) as [v|]; [|done]. cbn [mbind option_bind].
    destruct (match v with Some _ => el_get els2 i | None => Some None end) as [w|]; [|done].
    cbn [mbind option_bind]. destruct (el_set els2 j w) as [els2'|] eqn:Eset; [|done].
    cbn [mbind option_bind].
    replace (i + Z.of_nat (S n)) with (i + 1 + Z.of_nat n) in * by lia.
    assert (length els2' = length els2) as Hl.
    { unfold el_set, aset in Eset. case_decide; [|done]. injection Eset as <-. apply length_insert. }
    cbn [tail_loop] in IH. by rewrite IH by (rewrite ?Hl; done).
Qed.

(** [as_arraylist_tail] does not return the tail.  On a list of two or more
    elements whose last one is not NULL it reads beyond the array of the new
    list, from which it copies by mistake; and whatever list it returns has
    size 0, since the size is never set. *)
Theorem arraylist_tail_broken a l q :
  al_rep a l -> (2 <= length l)%nat ->
  (last l = Some (Some q) -> as_arraylist_tail [] a = None)
  /\ (forall a' ev, as_arraylist_tail [] a = Some (Some a', ev) -> size a' = 0).
Proof.
  intros Hrep Hlen. pose proof Hrep as (Hs & Hc & Hb & He). unfold as_arraylist_tail.
  rewrite (proj2 (Z.eqb_neq _ 0)) by lia.
  destruct (new_ok (size a - 1) (block_size a)) as (list2 & -> & ->); [lia..|].
  cbn [mbind option_bind elements]. split.
  - intros Hq. rewrite last_lookup in Hq.
    replace (Z.to_nat (size a - 1)) with (S (length l - 2)) by lia.
    rewrite (tail_loop_reads_past _ _ _ 1 0 q); [done| |].
    + rewrite He. replace (1 + Z.of_nat (length l - 2)) with (Z.of_nat (pred (length l))) by lia.
      by apply el_get_slots.
    + rewrite length_fmap, length_replicate. lia.
  - intros a' ev. destruct (tail_loop _ _ _ _ _) as [[els2 ev']|]; [|done]. simpl.
    by intros [= <- _].
Qed.

(** The index 2^32 - 1 is out of bounds for [set] and [insert]: [index + 1]
    wraps to 0, no room is made, and the write falls outside the array. *)
Theorem arraylist_last_index_undefined alloc a l v :
  al_rep a l ->
  as_arraylist_set alloc a (2 ^ 32 - 1) v = None
  /\ as_arraylist_insert alloc a (2 ^ 32 - 1) v = None.
Proof.
  intros (Hs & Hc & Hb & He).
  assert (as_arraylist_ensure alloc a (u32 (u32 (2 ^ 32 - 1 + 1) - size a))
          = Some (AS_ARRAYLIST_OK, a)) as Hens.
  { unfold as_arraylist_ensure. rewrite Hs.
    replace (u32 (blen l + u32 (u32 (2 ^ 32 - 1 + 1) - blen l))) with 0
      by (unfold u32; rewrite Zplus_mod_idemp_r; replace (_ + (_ - _)) with ((2 ^ 32 - 1 + 1) mod 2 ^ 32) by lia; done).
    by rewrite (proj2 (Z.ltb_ge _ _)) by lia. }
  assert (forall els, blen els <= capacity a -> el_set els (2 ^ 32 - 1) v = None) as Hset.
  { intros els Hlen. unfold el_set, aset. by rewrite decide_False by lia. }
  assert (blen (elements a) <= capacity a) as Hlen.
  { rewrite He, length_fmap, length_app, length_replicate. lia. }
  split.
  - unfold as_arraylist_set. rewrite (proj2 (Z.leb_le _ _)), Hens by lia. cbn [mbind option_bind].
    simpl negb. cbv iota. rewrite (proj2 (Z.ltb_ge (2 ^ 32 - 1) _)) by lia.
    cbn [mbind option_bind]. by rewrite Hset.
  - unfold as_arraylist_insert. rewrite (proj2 (Z.ltb_lt _ (2 ^ 32 - 1))), Hens by lia.
    cbn [mbind option_bind]. simpl negb. cbv iota.
    replace (Z.to_nat (size a - (2 ^ 32 - 1))) with 0%nat by lia. simpl shift_up.
    cbn [mbind option_bind]. by rewrite Hset.
Qed.

Lemma release_loop_ok x y r :
  release_loop (length y) (blen x) (Some <$> (x ++ y ++ r)) = Some (y ≫= destroy_ev).
Proof.
  revert x. induction y as [|v y IH]; intros x; [done|].
  simpl. rewrite el_get_mid by done. cbn [mbind option_bind]. rewrite el_set_mid by done.
  cbn [mbind option_bind].
  replace (blen x + 1) with (blen (x ++ [None])) by (rewrite length_app; simpl; lia).
  replace (x ++ None :: y ++ r) with ((x ++ [None]) ++ y ++ r) by (by rewrite <- app_assoc).
  by rewrite IH.
Qed.

Lemma ensure_free alloc a delta rc a' :
  as_arraylist_ensure alloc a delta = Some (rc, a') -> free a' = free (P := P) a.
Proof. unfold as_arraylist_ensure. repeat case_if; by intros [= _ <-]. Qed.

Lemma al_exec_free a op rc a' ev : al_exec a op = Some (rc, a', ev) -> free a' = free a.
Proof.
  assert (forall i v, as_arraylist_insert true a i v = Some (rc, a', ev) -> free a' = free a) as Hins.
  { intros i v. unfold as_arraylist_insert. intros H.
    apply bind_Some in H as ([rc1 a1] & H1 & H). apply ensure_free in H1.
    case_if; [by injection H as _ <- _|].
    apply bind_Some in H as (els & _ & H). apply bind_Some in H as (els' & _ & H).
    by injection H as _ <- _. }
  destruct op as [i v|i v|v|v|i|i]; simpl; [|by apply Hins..| |].
  - unfold as_arraylist_set. intros H. apply bind_Some in H as ([rc1 a1] & H1 & H).
    assert (free a1 = free a) as Hf by (destruct (_ <=? _) in H1; [eapply ensure_free, H1|congruence]).
    case_if; [by injection H as _ <- _|].
    apply bind_Some in H as (e & _ & H). apply bind_Some in H as (els & _ & H).
    by injection H as _ <- _.
  - unfold as_arraylist_remove. case_if; [by intros [= _ <- _]|]. intros H.
    apply bind_Some in H as (? & _ & H). apply bind_Some in H as (? & _ & H).
    apply bind_Some in H as (? & _ & H). by injection H as _ <- _.
  - unfold as_arraylist_trim. case_if; [by intros [= _ <- _]|]. intros H.
    apply bind_Some in H as ([? ?] & _ & H). by injection H as _ <- _.
Qed.

Lemma al_run_free a ops rcs a' ev : al_run a ops = Some (rcs, a', ev) -> free a' = free a.
Proof.
  revert a rcs ev. induction ops as [|op ops IH]; intros a rcs ev; simpl; [by intros [= _ <- _]|].
  intros H. apply bind_Some in H as ([[rc a1] ev1] & H1 & H).
  apply bind_Some in H as ([[rcs1 a2] ev2] & H2 & H). injection H as _ <- _.
  rewrite (IH _ _ _ H2). by eapply al_exec_free.
Qed.

(** Release drops one reference per element, and frees the array exactly
    when the list was created with a positive capacity: an array that a list
    created empty acquired by growing is never freed. *)
Theorem arraylist_release a l cap bs ops rcs ev :
  al_run (fst (as_arraylist_init [] cap bs)) ops = Some (rcs, a, ev) -> al_rep a l ->
  elements a <> [] ->
  exists a', as_arraylist_release a = Some (0 <? cap, a', l ≫= destroy_ev) /\ al_rep a' [].
Proof.
  intros Hrun (Hs & Hc & Hb & He) Hne. apply al_run_free in Hrun.
  unfold as_arraylist_release. destruct (elements a) as [|e els] eqn:Eels; [done|].
  rewrite He, Hs, Nat2Z.id. pose proof (release_loop_ok [] l (replicate (Z.to_nat (capacity a - blen l)) None)) as Hr.
  simpl in Hr. change (Z.of_nat 0) with 0 in Hr. rewrite Hr. cbn [mbind option_bind].
  exists (mk_arraylist (block_size a) 0 0 [] (free a)). split.
  - do 3 f_equal. rewrite Hrun. unfold as_arraylist_init. by destruct (0 <? cap).
  - split; [done|]. split; [simpl; lia|]. done.
Qed.

End Refinement.

(** ** Concrete lists *)

Definition l3 : as_arraylist Z :=
  mk_arraylist 4 4 3 [Some (Some 10); Some None; Some (Some 30); Some None] true.

Lemma l3_rep : al_rep l3 [Some 10; None; Some 30].
Proof. split; [done|]. split; [simpl; lia|]. split; [simpl; lia|done]. Qed.

Definition sample_ops : list (alop (P := Z)) :=
  [AlAppend (Some 40); AlInsert 1 (Some 15); AlSet 9 (Some 99); AlSet 0 (Some 11);
   AlRemove 2; AlRemove 100; AlPrepend None; AlTrim 6].


Lemma arraylist_conserves_references_witness :
  exists rcs a' ev l', al_run l3 sample_ops = Some (rcs, a', ev) /\ al_rep a' l'
    /\ refs l' ++ destroyed ev ≡ₚ [10; 30] ++ [40; 15; 99; 11].
Proof. apply (arraylist_conserves_references l3 _ sample_ops l3_rep); reflexivity. Defined.

Lemma arraylist_full_witness :
  as_arraylist_set false l3 4 (Some 1) = Some (AS_ARRAYLIST_ERR_ALLOC, l3, []).
Proof.
  apply (arraylist_full l3 _ false 4 (Some 1) l3_rep); [by right|simpl; lia|simpl; lia].
Defined.

Lemma arraylist_copies_witness :
  exists a', as_arraylist_drop [] l3 1 = Some (a', [Reserve 30]) /\ al_rep a' [None; Some 30].
Proof.
  apply (arraylist_copies (fun _ u => (true, u)) tt l3 _ l3 _ 1 l3_rep l3_rep).
  split; simpl; lia.
Defined.

Lemma arraylist_tail_broken_witness : as_arraylist_tail [] l3 = None.
Proof. apply (arraylist_tail_broken l3 _ 30 l3_rep); [simpl; lia|reflexivity]. Defined.

Lemma arraylist_last_index_undefined_witness :
  as_arraylist_insert true l3 (2 ^ 32 - 1) (Some 5) = None.
Proof. apply (arraylist_last_index_undefined true l3 _ (Some 5) l3_rep). Defined.

(** A list created empty with a block size of 4, and grown by one append. *)
Definition grown : as_arraylist Z :=
  mk_arraylist 4 4 1 [Some (Some 7); Some None; Some None; Some None] false.

Lemma arraylist_release_witness :
  exists a', as_arraylist_release grown = Some (false, a', [Destroy 7]) /\ al_rep a' [].
Proof.
  apply (arraylist_release grown [Some 7] 0 4 [AlAppend (Some 7)] [0] []);
    [reflexivity| |discriminate].
  split; [done|]. split; [simpl; lia|]. split; [simpl; lia|done].
Defined.
