(* ===== verification/HashMap.v ===== *)
(** * The hash map

    Models [modules/common/src/main/aerospike/as_hashmap.c] and
    [as_hashmap_iterator.c]: a main table with one slot per bucket, and an
    array of extra slots that hold the rest of each bucket, chained by index,
    with a free list for the slots of removed elements.

    Keys and values are pointers to values; what the map needs of keys (their
    hash code, their equality, which types are allowed) are parameters here and
    are instantiated by the values of file [Value].  The map owns the keys and
    values in it: an operation answers the pairs it passes to [as_val_destroy]. *)

From S2P Require Import Prelude.

Section HashMap.
Context {K V : Type}.

(** [p_key = None] and [p_val = None] are NULL. *)
Record as_hashmap_element := mk_element {
  p_key : option K;
  p_val : option V;
  next : Z
}.

Definition zero_element : as_hashmap_element := mk_element None None 0.

Record as_hashmap := mk_hashmap {
  count : Z;
  table_capacity : Z;
  table : list as_hashmap_element;
  capacity_step : Z;
  extra_capacity : Z;
  extras : option (list as_hashmap_element);
  insert_at : Z;
  free_q : Z
}.

Implicit Types (m : as_hashmap) (e : as_hashmap_element) (k : K) (v : option V).

(** [as_val_hashcode] (undefined on some values), [eq_val] and
    [is_valid_key_type]. *)
Context (hash : K -> option Z) (eq_val : K -> K -> bool) (is_valid_key_type : K -> bool).

Definition MIN_CAPACITY : Z := 1.

Definition as_hashmap_cons (alloc : bool) (capacity : Z) : option as_hashmap :=
  let cap := if MIN_CAPACITY <? capacity then capacity else MIN_CAPACITY in
  if negb alloc then None
  else
    let step := cap / 2 in
    let step := if step <? 2 then 2 else step in
    Some (mk_hashmap 0 cap (replicate (Z.to_nat cap) zero_element) step 0 None 1 0).

Definition as_hashmap_init (h : heap) (capacity : Z) : option as_hashmap :=
  as_hashmap_cons (fst (cf_malloc h)) capacity.

(** When the table cannot be allocated the structure itself is not freed. *)
Definition as_hashmap_new (h : heap) (capacity : Z) : option as_hashmap :=
  let '(ok, h) := cf_malloc h in
  if negb ok then None else as_hashmap_cons (fst (cf_malloc h)) capacity.

Definition as_hashmap_size m : Z := count m.

(** ** Element pointers

    [e] points into the table or into the extra slots. *)

Inductive eptr := InTable (i : Z) | InExtras (i : Z).

Definition get_elem m (p : eptr) : option as_hashmap_element :=
  match p with
  | InTable i => aget (table m) i
  | InExtras i => ex ← extras m; aget ex i
  end.

Definition set_elem m (p : eptr) e : option as_hashmap :=
  match p with
  | InTable i =>
      t ← aset (table m) i e;
      Some (mk_hashmap (count m) (table_capacity m) t (capacity_step m) (extra_capacity m)
              (extras m) (insert_at m) (free_q m))
  | InExtras i =>
      ex ← extras m;
      ex ← aset ex i e;
      Some (mk_hashmap (count m) (table_capacity m) (table m) (capacity_step m) (extra_capacity m)
              (Some ex) (insert_at m) (free_q m))
  end.

Definition with_count m (n : Z) : as_hashmap :=
  mk_hashmap n (table_capacity m) (table m) (capacity_step m) (extra_capacity m)
    (extras m) (insert_at m) (free_q m).
Definition with_free_q m (q : Z) : as_hashmap :=
  mk_hashmap (count m) (table_capacity m) (table m) (capacity_step m) (extra_capacity m)
    (extras m) (insert_at m) q.
Definition with_extras m (cap : Z) (ex : list as_hashmap_element) : as_hashmap :=
  mk_hashmap (count m) (table_capacity m) (table m) (capacity_step m) cap
    (Some ex) (insert_at m) (free_q m).
Definition with_insert_at m (i : Z) : as_hashmap :=
  mk_hashmap (count m) (table_capacity m) (table m) (capacity_step m) (extra_capacity m)
    (extras m) i (free_q m).

(** Every chain is shorter than this. *)
Definition chain_fuel m : nat := S (length (default [] (extras m))).

(** The pairs passed to [as_val_destroy]. *)
Definition dropped e : list (K * option V) :=
  match p_key e with Some k => [(k, p_val e)] | None => [] end.

(** ** Set *)

(** Follows the chain from [p]: the element with the key ([inl]), or the last
    element of the chain ([inr]).  Comparing with a NULL key is undefined. *)
Fixpoint find_chain (fuel : nat) m (p : eptr) k : option (eptr + eptr) :=
  match fuel with
  | O => None
  | S fuel =>
      e ← get_elem m p;
      ek ← p_key e;
      if eq_val ek k then Some (inl p)
      else if next e =? 0 then Some (inr p)
      else find_chain fuel m (InExtras (next e)) k
  end.

(** Growing the extra slots: [None] is undefined behaviour, [Some None] a
    failed allocation. *)
Definition grow_extras (alloc : bool) m : option (option as_hashmap) :=
  let cap := u32 (extra_capacity m + capacity_step m) in
  match extras m with
  | Some ex =>
      if negb alloc then Some None
      else if cap <? extra_capacity m then None
      else Some (Some (with_extras m cap
                         (ex ++ replicate (Z.to_nat (cap - extra_capacity m)) zero_element)))
  | None =>
      if negb alloc then Some None
      else Some (Some (with_extras m cap (replicate (Z.to_nat cap) zero_element)))
  end.

(** The result code, the map, and what was destroyed. *)
Definition hm_result : Type := Z * as_hashmap * list (K * option V).

(** The key is not in the chain that ends at [p]: it is added there, in a slot
    of the free list or in a new one. *)
Definition set_at_end (alloc : bool) m k v (p : eptr) : option hm_result :=
  prev ← get_elem m p;
  if negb (free_q m =? 0) then
    let fq := free_q m in
    m ← set_elem (with_count m (u32 (count m + 1))) p
          (mk_element (p_key prev) (p_val prev) fq);
    e ← get_elem m (InExtras fq);
    m ← set_elem (with_free_q m (next e)) (InExtras fq) (mk_element (Some k) v 0);
    Some (0, m, [])
  else
    m1 ← set_elem m p (mk_element (p_key prev) (p_val prev) (insert_at m));
    grown ← (if extra_capacity m <=? insert_at m then grow_extras alloc m1
             else Some (Some m1));
    match grown with
    | None => m0 ← set_elem m1 p prev; Some (-1, m0, [])
    | Some m2 =>
        e ← get_elem m2 (InExtras (insert_at m2));
        m3 ← set_elem (with_count m2 (u32 (count m2 + 1))) (InExtras (insert_at m2))
               (mk_element (Some k) v (next e));
        Some (0, with_insert_at m3 (u32 (insert_at m3 + 1)), [])
    end.

Definition as_hashmap_set (alloc : bool) m (key : option K) v : option hm_result :=
  match key with
  | None => Some (-1, m, [])
  | Some k =>
      if negb (is_valid_key_type k) then Some (-1, m, [])
      else
        h ← hash k;
        let i := h mod table_capacity m in
        e ← get_elem m (InTable i);
        match p_key e with
        | None =>
            m ← set_elem (with_count m (u32 (count m + 1))) (InTable i) (mk_element (Some k) v (next e));
            Some (0, m, [])
        | Some _ =>
            r ← find_chain (chain_fuel m) m (InTable i) k;
            match r with
            | inl p =>
                e ← get_elem m p;
                m ← set_elem m p (mk_element (Some k) v (next e));
                Some (0, m, dropped e)
            | inr p => set_at_end alloc m k v p
            end
        end
  end.

(** ** Get *)

(** [Some None] is the NULL answer. *)
Definition as_hashmap_get m (key : option K) : option (option V) :=
  match key with
  | None => Some None
  | Some k =>
      if negb (is_valid_key_type k) then Some None
      else
        h ← hash k;
        let i := h mod table_capacity m in
        e ← get_elem m (InTable i);
        match p_key e with
        | None => Some None
        | Some _ =>
            r ← find_chain (chain_fuel m) m (InTable i) k;
            match r with
            | inl p => e ← get_elem m p; Some (p_val e)
            | inr _ => Some None
            end
        end
  end.

(** ** Remove *)

(** Follows the chain after [prev]: the predecessor of the element with the key
    and that element's index. *)
Fixpoint find_prev (fuel : nat) m (prev : eptr) k : option (option (eptr * Z)) :=
  match fuel with
  | O => None
  | S fuel =>
      pe ← get_elem m prev;
      if next pe =? 0 then Some None
      else
        e ← get_elem m (InExtras (next pe));
        ek ← p_key e;
        if eq_val ek k then Some (Some (prev, next pe))
        else find_prev fuel m (InExtras (next pe)) k
  end.

Definition as_hashmap_remove m (key : option K) : option hm_result :=
  match key with
  | None => Some (-1, m, [])
  | Some k =>
      if negb (is_valid_key_type k) then Some (-1, m, [])
      else
        h ← hash k;
        let i := h mod table_capacity m in
        e ← get_elem m (InTable i);
        match p_key e with
        | None => Some (0, m, [])
        | Some ek =>
            if eq_val ek k then
              let m := with_count m (u32 (count m - 1)) in
              if next e =? 0 then
                m ← set_elem m (InTable i) (mk_element None None (next e));
                Some (0, m, dropped e)
              else
                let free_i := next e in
                free_e ← get_elem m (InExtras free_i);
                m ← set_elem m (InTable i) free_e;
                m ← set_elem m (InExtras free_i) (mk_element None None (free_q m));
                Some (0, with_free_q m free_i, dropped e)
            else
              r ← find_prev (chain_fuel m) m (InTable i) k;
              match r with
              | None => Some (0, m, [])
              | Some (prev, i) =>
                  pe ← get_elem m prev;
                  e ← get_elem m (InExtras i);
                  let m := with_count m (u32 (count m - 1)) in
                  m ← set_elem m prev (mk_element (p_key pe) (p_val pe) (next e));
                  m ← set_elem m (InExtras i) (mk_element None None (free_q m));
                  Some (0, with_free_q m i, dropped e)
              end
        end
  end.

(** ** Clear *)

Definition clear_slot e : as_hashmap_element :=
  match p_key e with Some _ => mk_element None None 0 | None => e end.

(** [n] slots of [els] from index [i] on. *)
Fixpoint slots_from (n : nat) (els : list as_hashmap_element) (i : Z)
  : option (list as_hashmap_element) :=
  match n with
  | O => Some []
  | S n => e ← aget els i; es ← slots_from n els (i + 1); Some (e :: es)
  end.

(** The slots the two loops of clear and foreach visit. *)
Definition visited m : option (list as_hashmap_element) :=
  t ← slots_from (Z.to_nat (table_capacity m)) (table m) 0;
  x ← slots_from (Z.to_nat (insert_at m - 1)) (default [] (extras m)) 1;
  Some (t ++ x).

Definition as_hashmap_clear m : option hm_result :=
  es ← visited m;
  Some (0, mk_hashmap 0 (table_capacity m) (map clear_slot (table m)) (capacity_step m) 0 None 1 0,
        mjoin (map dropped es)).

Definition as_hashmap_release m : option (list (K * option V)) :=
  '(_, _, d) ← as_hashmap_clear m; Some d.

(** ** Iteration *)

Section Foreach.
Context {U : Type} (callback : K -> option V -> U -> bool * U).

Fixpoint foreach_slots (n : nat) (els : list as_hashmap_element) (i : Z) (u : U) : option (bool * U) :=
  match n with
  | O => Some (true, u)
  | S n =>
      e ← aget els i;
      match p_key e with
      | None => foreach_slots n els (i + 1) u
      | Some k =>
          let '(go, u) := callback k (p_val e) u in
          if (go : bool) then foreach_slots n els (i + 1) u else Some (false, u)
      end
  end.

Definition as_hashmap_foreach m (u : U) : option (bool * U) :=
  '(go, u) ← foreach_slots (Z.to_nat (table_capacity m)) (table m) 0 u;
  if (go : bool)
  then foreach_slots (Z.to_nat (insert_at m - 1)) (default [] (extras m)) 1 u
  else Some (false, u).
End Foreach.

Record as_hashmap_iterator := mk_iterator {
  it_map : as_hashmap;
  it_curr : option as_hashmap_element;
  it_count : Z;
  it_table_pos : Z;
  it_extras_pos : Z
}.

Definition as_hashmap_iterator_init m : as_hashmap_iterator := mk_iterator m None 0 0 1.

(** Scans [els] from [pos] up to [limit] for an element in use. *)
Fixpoint seek_loop (n : nat) (els : list as_hashmap_element) (pos : Z)
  : option (option as_hashmap_element * Z) :=
  match n with
  | O => Some (None, pos)
  | S n =>
      e ← aget els pos;
      match p_key e with
      | Some _ => Some (Some e, pos + 1)
      | None => seek_loop n els (pos + 1)
      end
  end.

Definition as_hashmap_iterator_seek (it : as_hashmap_iterator)
  : option (bool * as_hashmap_iterator) :=
  let m := it_map it in
  match it_curr it with
  | Some _ => Some (true, it)
  | None =>
      if count m <=? it_count it then Some (false, it)
      else
        '(found, tpos) ← seek_loop (Z.to_nat (table_capacity m - it_table_pos it)) (table m) (it_table_pos it);
        match found with
        | Some e => Some (true, mk_iterator m (Some e) (u32 (it_count it + 1)) tpos (it_extras_pos it))
        | None =>
            '(found, xpos) ← seek_loop (Z.to_nat (insert_at m - it_extras_pos it))
                               (default [] (extras m)) (it_extras_pos it);
            match found with
            | Some e => Some (true, mk_iterator m (Some e) (u32 (it_count it + 1)) tpos xpos)
            | None => Some (false, mk_iterator m None (it_count it) tpos xpos)
            end
        end
  end.

Definition as_hashmap_iterator_has_next (it : as_hashmap_iterator)
  : option (bool * as_hashmap_iterator) := as_hashmap_iterator_seek it.

Definition as_hashmap_iterator_next (it : as_hashmap_iterator)
  : option (option (option K * option V) * as_hashmap_iterator) :=
  '(ok, it) ← as_hashmap_iterator_seek it;
  if negb ok then Some (None, it)
  else
    e ← it_curr it;
    Some (Some (p_key e, p_val e),
          mk_iterator (it_map it) None (it_count it) (it_table_pos it) (it_extras_pos it)).

End HashMap.
Arguments as_hashmap_element : clear implicits.
Arguments as_hashmap : clear implicits.
Arguments hm_result : clear implicits.

(** ** Chains

    The invariant of the two arrays [t] (table) and [ex] (extra slots): every
    table slot starts a chain through the extra slots; the chains and the free
    list are disjoint and together use exactly the extra slots in
    [1 .. ins - 1]; the slots from [ins] on are zero. *)

Section Chains.
Context {K V : Type}.
Abbreviation elem := (as_hashmap_element K V).
Implicit Types (t ex : list elem) (e : elem) (ch : list (list nat)) (idxs fl : list nat).

Definition entry e : option (K * option V) := (fun k => (k, p_val e)) <$> p_key e.
Definition entries_of (els : list elem) : list (K * option V) := omap entry els.

(** [els] is the chain through the slots [idxs], after its first element. *)
Definition linked ex idxs (els : list elem) : Prop :=
  length els = S (length idxs)
  /\ (forall n e, els !! n = Some e -> next e = default 0 (Z.of_nat <$> idxs !! n))
  /\ (forall n j, idxs !! n = Some j -> (0 < j)%nat /\ ex !! j = els !! S n).

Definition has_key e : Prop := is_Some (p_key e).
Definition no_key e : Prop := p_key e = None.

Definition slot_ok t ex (s : nat) idxs (els : list elem) : Prop :=
  linked ex idxs els /\ t !! s = els !! 0%nat
  /\ (forall e, els !! 0%nat = Some e -> no_key e -> idxs = []) /\ Forall has_key (tail els).

(** The free list hangs off [free_q], as if from an element without key. *)
Definition free_ok ex (fq : Z) fl : Prop :=
  exists fs, linked ex fl (mk_element None None fq :: fs) /\ Forall no_key fs.

Record chains t ex (ins fq : Z) ch fl (A : list (list elem)) : Prop := mk_chains {
  c_len_ch : length ch = length t;
  c_len_A : length A = length t;
  c_slots : forall s idxs els, ch !! s = Some idxs -> A !! s = Some els -> slot_ok t ex s idxs els;
  c_free : free_ok ex fq fl;
  c_ins : 1 <= ins;
  c_bound : ins <= Z.max 1 (blen ex);
  c_perm : mjoin ch ++ fl ≡ₚ seq 1 (Z.to_nat (ins - 1));
  c_zero : forall j e, ins <= Z.of_nat j -> ex !! j = Some e -> e = zero_element
}.

Lemma linked_frame ex ex' idxs els :
  linked ex idxs els -> (forall j, j ∈ idxs -> ex' !! j = ex !! j) -> linked ex' idxs els.
Proof.
  intros (Hl & Hn & Hx) Hf. split; [done|]. split; [done|]. intros n j Hj.
  destruct (Hx n j Hj). split; [done|]. rewrite Hf; [done|]. by eapply list_elem_of_lookup_2.
Qed.

Lemma linked_single ex e : next e = 0 -> linked ex [] [e].
Proof. intros Hz. split; [done|]. split; [|done]. intros [|n] e1 H1; [by injection H1 as <-|done]. Qed.

Lemma free_nil ex : free_ok ex 0 [].
Proof. exists []. split; [by apply linked_single|done]. Qed.

(** *** Joined index lists *)

Lemma join_nils {B} n : mjoin (replicate n (@nil B)) = [].
Proof. by induction n. Qed.

Lemma join_delete {B} (c : list (list B)) s (l : list B) :
  c !! s = Some l -> mjoin c ≡ₚ l ++ mjoin (delete s c).
Proof.
  intros Hs. rewrite <- (take_drop_middle c s l Hs) at 1. rewrite delete_take_drop.
  rewrite !join_app. simpl. solve_Permutation.
Qed.

Lemma join_insert {B} (c : list (list B)) s (l x : list B) :
  c !! s = Some l -> mjoin (<[s := x]> c) ≡ₚ x ++ mjoin (delete s c).
Proof.
  intros Hs. rewrite insert_take_drop by (by eapply lookup_lt_Some).
  rewrite delete_take_drop, !join_app. simpl. solve_Permutation.
Qed.

Lemma elem_of_join_lookup {B} (c : list (list B)) s (l : list B) j :
  c !! s = Some l -> j ∈ l -> j ∈ mjoin c.
Proof. intros Hs Hj. rewrite (join_delete c s l Hs). apply elem_of_app. by left. Qed.

Lemma elem_of_join_other {B} (c : list (list B)) s s' (l : list B) j :
  s' <> s -> c !! s' = Some l -> j ∈ l -> j ∈ mjoin (delete s c).
Proof.
  intros Hne Hs Hj. destruct (decide (s' < s)%nat).
  - apply (elem_of_join_lookup _ s' l); [|done]. by rewrite list_lookup_delete_lt.
  - apply (elem_of_join_lookup _ (pred s') l); [|done].
    rewrite list_lookup_delete_ge by lia. by replace (S (pred s')) with s' by lia.
Qed.

(** *** Replacing one chain *)

Lemma chains_replace t ex ins fq ch fl A s idxs idxs' els' t' ex' ins' fq' fl' :
  chains t ex ins fq ch fl A ->
  ch !! s = Some idxs ->
  length t' = length t -> (forall s', s' <> s -> t' !! s' = t !! s') ->
  (forall j, j ∈ mjoin (delete s ch) -> ex' !! j = ex !! j) ->
  slot_ok t' ex' s idxs' els' ->
  free_ok ex' fq' fl' ->
  1 <= ins' -> ins' <= Z.max 1 (blen ex') ->
  idxs' ++ mjoin (delete s ch) ++ fl' ≡ₚ seq 1 (Z.to_nat (ins' - 1)) ->
  (forall j e, ins' <= Z.of_nat j -> ex' !! j = Some e -> e = zero_element) ->
  chains t' ex' ins' fq' (<[s := idxs']> ch) fl' (<[s := els']> A).
Proof.
  intros [] Hs Hlt Ht Hex Hslot Hfree Hins Hb Hperm Hz.
  pose proof (lookup_lt_Some _ _ _ Hs) as Hslt.
  split; try done.
  - by rewrite length_insert, Hlt.
  - by rewrite length_insert, Hlt.
  - intros s' i l Hi Hl. destruct (decide (s' = s)) as [->|Hne].
    + rewrite list_lookup_insert_eq in Hi by done.
      rewrite list_lookup_insert_eq in Hl by congruence. by simplify_eq.
    + rewrite list_lookup_insert_ne in Hi by done. rewrite list_lookup_insert_ne in Hl by done.
      destruct (c_slots0 s' i l Hi Hl) as (Hlk & He & Hrest).
      split; [|split; [by rewrite Ht|done]].
      apply (linked_frame ex); [done|]. intros j Hj. apply Hex. by eapply elem_of_join_other.
  - rewrite (join_insert ch s idxs) by done. by rewrite <- app_assoc.
Qed.

Lemma chains_parts t ex ins fq ch fl A s idxs :
  chains t ex ins fq ch fl A -> ch !! s = Some idxs ->
  idxs ++ mjoin (delete s ch) ++ fl ≡ₚ seq 1 (Z.to_nat (ins - 1))
  /\ NoDup (idxs ++ mjoin (delete s ch) ++ fl)
  /\ (forall j, j ∈ idxs ++ mjoin (delete s ch) ++ fl -> 1 <= Z.of_nat j < ins).
Proof.
  intros [] Hs.
  assert (idxs ++ mjoin (delete s ch) ++ fl ≡ₚ seq 1 (Z.to_nat (ins - 1))) as Hp.
  { by rewrite app_assoc, <- (join_delete ch s idxs Hs). }
  split; [done|]. split; [rewrite Hp; apply NoDup_seq|].
  intros j Hj. rewrite Hp in Hj. apply elem_of_seq in Hj. lia.
Qed.

(** *** Editing one chain *)

Definition with_next e (j : Z) : elem := mk_element (p_key e) (p_val e) j.

Lemma linked_overwrite ex ex' idxs els n e e' :
  linked ex idxs els -> els !! n = Some e -> next e' = next e ->
  (forall n' i, idxs !! n' = Some i -> ex' !! i = <[n := e']> els !! S n') ->
  linked ex' idxs (<[n := e']> els).
Proof.
  intros (Hl & Hn & Hx) He Hne Hx'. split; [by rewrite length_insert|]. split.
  - intros i e1 H1. apply list_lookup_insert_Some in H1 as [(<- & <- & _)|[_ H1]];
      [rewrite Hne|]; by apply Hn.
  - intros i j Hj. split; [by apply (Hx i j)|by apply Hx'].
Qed.

Lemma linked_snoc ex ex' idxs els e j e1 :
  linked ex idxs els -> els !! length idxs = Some e -> (0 < j)%nat -> next e1 = 0 ->
  ex' !! j = Some e1 ->
  (forall n i, idxs !! n = Some i ->
     ex' !! i = <[length idxs := with_next e (Z.of_nat j)]> els !! S n) ->
  linked ex' (idxs ++ [j]) (<[length idxs := with_next e (Z.of_nat j)]> els ++ [e1]).
Proof.
  intros (Hl & Hn & Hx) He Hpos H1 Hj Hx'.
  split; [rewrite !length_app, length_insert; simpl; lia|]. split.
  - intros n e2 H2. apply lookup_app_Some in H2 as [H2|[Hge H2]].
    + apply list_lookup_insert_Some in H2 as [(<- & <- & _)|[Hne H2]].
      * by rewrite lookup_app_r, Nat.sub_diag by lia.
      * pose proof (lookup_lt_Some _ _ _ H2). rewrite lookup_app_l by lia. by apply Hn.
    + rewrite length_insert in Hge, H2. apply list_lookup_singleton_Some in H2 as [Heq <-].
      rewrite lookup_ge_None_2 by (rewrite length_app; simpl; lia). done.
  - intros n i Hi. apply lookup_app_Some in Hi as [Hi|[Hge Hi]].
    + pose proof (lookup_lt_Some _ _ _ Hi). destruct (Hx n i Hi) as [Hip _]. split; [done|].
      rewrite lookup_app_l by (rewrite length_insert; lia). by apply Hx'.
    + apply list_lookup_singleton_Some in Hi as [Heq <-]. split; [done|].
      rewrite lookup_app_r by (rewrite length_insert; lia). rewrite length_insert.
      by replace (S n - length els)%nat with 0%nat by lia.
Qed.

Lemma linked_delete ex ex' idxs els n j pe e :
  linked ex idxs els -> idxs !! n = Some j -> els !! S n = Some e -> next pe = next e ->
  (forall m i, m <> n -> idxs !! m = Some i ->
     ex' !! i = <[n := pe]> els !! S m) ->
  linked ex' (delete n idxs) (delete (S n) (<[n := pe]> els)).
Proof.
  intros (Hl & Hn & Hx) Hj He Hne Hx'. pose proof (lookup_lt_Some _ _ _ Hj).
  split; [rewrite !length_delete, length_insert;
          [lia|by eexists|rewrite lookup_lt_is_Some, length_insert; lia]|].
  split.
  - intros m e2 H2. destruct (decide (m < S n)%nat).
    + rewrite list_lookup_delete_lt in H2 by done.
      apply list_lookup_insert_Some in H2 as [(<- & <- & _)|[Hnn H2]].
      * rewrite list_lookup_delete_ge by lia. simpl. rewrite Hne. by apply Hn.
      * rewrite list_lookup_delete_lt by lia. by apply Hn.
    + rewrite list_lookup_delete_ge in H2 by lia. rewrite list_lookup_insert_ne in H2 by lia.
      rewrite list_lookup_delete_ge by lia. by apply Hn.
  - intros m i Hi. destruct (decide (m < n)%nat).
    + rewrite list_lookup_delete_lt in Hi by done. destruct (Hx m i Hi) as [Hip _]. split; [done|].
      rewrite list_lookup_delete_lt by lia. apply Hx'; [lia|done].
    + rewrite list_lookup_delete_ge in Hi by lia. destruct (Hx (S m) i Hi) as [Hip _]. split; [done|].
      rewrite list_lookup_delete_ge by lia. apply Hx'; [lia|done].
Qed.

Lemma linked_tail ex j idxs e es : linked ex (j :: idxs) (e :: es) -> linked ex idxs es.
Proof.
  intros (Hl & Hn & Hx). split; [by injection Hl|]. split.
  - intros n e1 H1. by apply (Hn (S n)).
  - intros n i Hi. by apply (Hx (S n)).
Qed.

Lemma linked_cons ex ex' idxs e es j e' :
  linked ex idxs (e :: es) -> (0 < j)%nat -> ex' !! j = Some e -> next e' = Z.of_nat j ->
  (forall i, i ∈ idxs -> ex' !! i = ex !! i) ->
  linked ex' (j :: idxs) (e' :: e :: es).
Proof.
  intros (Hl & Hn & Hx) Hpos Hj He' Hf. split; [simpl in *; lia|]. split.
  - intros [|n] e1 H1; [by injection H1 as <-|]. by apply Hn.
  - intros [|n] i Hi; [by injection Hi as <-|]. destruct (Hx n i Hi) as [Hip Hxi].
    split; [done|]. rewrite Hf; [done|]. by eapply list_elem_of_lookup_2.
Qed.

(** The first link of a chain. *)
Lemma linked_first ex idxs e es :
  linked ex idxs (e :: es) -> next e <> 0 ->
  exists j idxs' e' es', idxs = j :: idxs' /\ es = e' :: es' /\ next e = Z.of_nat j
    /\ (0 < j)%nat /\ ex !! j = Some e'.
Proof.
  intros (Hl & Hn & Hx) Hnz. specialize (Hn 0%nat e eq_refl).
  destruct idxs as [|j idxs]; [done|]. destruct es as [|e' es]; [done|].
  destruct (Hx 0%nat j eq_refl). by exists j, idxs, e', es.
Qed.

Lemma linked_last ex idxs e es :
  linked ex idxs (e :: es) -> next e = 0 -> idxs = [] /\ es = [].
Proof.
  intros (Hl & Hn & Hx) Hz. specialize (Hn 0%nat e eq_refl). rewrite Hz in Hn.
  destruct idxs as [|j idxs]; [by destruct es|].
  destruct (Hx 0%nat j eq_refl). simpl in Hn. lia.
Qed.

End Chains.

(** ** The arrays of a map *)

Section Arrays.
Context {K V : Type}.
Context (eq_val : K -> K -> bool).
Abbreviation elem := (as_hashmap_element K V).
Implicit Types (m : as_hashmap K V) (t ex els : list elem) (e : elem) (idxs : list nat).

Definition ex_of m : list elem := default [] (extras m).

(** The map with other contents in its arrays. *)
Definition put m t ex : as_hashmap K V :=
  mk_hashmap (count m) (table_capacity m) t (capacity_step m) (extra_capacity m)
    ((fun _ => ex) <$> extras m) (insert_at m) (free_q m).

Lemma ex_of_put m t ex : length ex = length (ex_of m) -> ex_of (put m t ex) = ex.
Proof. unfold ex_of, put. simpl. destruct (extras m); [done|]. by destruct ex. Qed.

Lemma put_put m t ex t' ex' : put (put m t ex) t' ex' = put m t' ex'.
Proof. unfold put. simpl. by destruct (extras m). Qed.

Lemma get_table m (s : nat) : get_elem m (InTable (Z.of_nat s)) = table m !! s.
Proof. apply aget_lookup. Qed.

Lemma get_extras m (j : nat) : get_elem m (InExtras (Z.of_nat j)) = ex_of m !! j.
Proof. unfold get_elem, ex_of. destruct (extras m); simpl; [apply aget_lookup|done]. Qed.

Lemma set_table m (s : nat) e :
  (s < length (table m))%nat ->
  set_elem m (InTable (Z.of_nat s)) e = Some (put m (<[s := e]> (table m)) (ex_of m)).
Proof.
  intros Hs. unfold set_elem, put, ex_of. rewrite aset_Some, Nat2Z.id by lia. simpl.
  by destruct (extras m).
Qed.

Lemma set_extras m (j : nat) e :
  (j < length (ex_of m))%nat ->
  set_elem m (InExtras (Z.of_nat j)) e = Some (put m (table m) (<[j := e]> (ex_of m))).
Proof.
  unfold set_elem, put, ex_of. destruct (extras m) as [ex|]; simpl; intros Hj; [|lia].
  by rewrite aset_Some, Nat2Z.id by lia.
Qed.

(** The pointer to the [n]th element of the chain that starts at [p]. *)
Definition ptr_at (p : eptr) idxs (n : nat) : eptr :=
  match n with O => p | S n => InExtras (Z.of_nat (nth n idxs 0%nat)) end.

Lemma ptr_at_S (p : eptr) j idxs n : ptr_at p (j :: idxs) (S n) = ptr_at (InExtras (Z.of_nat j)) idxs n.
Proof. by destruct n. Qed.

Lemma get_ptr m s idxs els n :
  slot_ok (table m) (ex_of m) s idxs els -> (n <= length idxs)%nat ->
  get_elem m (ptr_at (InTable (Z.of_nat s)) idxs n) = els !! n.
Proof.
  intros ((Hl & Hn & Hx) & Ht & _) Hle. destruct n as [|n]; cbn [ptr_at]; [by rewrite get_table|].
  destruct (lookup_lt_is_Some_2 idxs n) as [j Hj]; [lia|].
  rewrite get_extras, (nth_lookup_Some _ _ _ _ Hj). by apply Hx.
Qed.

(** Writing through it. *)
Lemma set_ptr m s idxs els n e :
  slot_ok (table m) (ex_of m) s idxs els -> NoDup idxs -> (n <= length idxs)%nat ->
  exists t1 ex1, set_elem m (ptr_at (InTable (Z.of_nat s)) idxs n) e = Some (put m t1 ex1)
    /\ length t1 = length (table m) /\ length ex1 = length (ex_of m)
    /\ (forall s', s' <> s -> t1 !! s' = table m !! s')
    /\ t1 !! s = <[n := e]> els !! 0%nat
    /\ (forall i, i ∉ idxs -> ex1 !! i = ex_of m !! i)
    /\ (forall n' i, idxs !! n' = Some i -> ex1 !! i = <[n := e]> els !! S n').
Proof.
  intros ((Hl & Hn & Hx) & Ht & _) Hnd Hle.
  assert (s < length (table m))%nat as Hs.
  { apply lookup_lt_is_Some. rewrite Ht. apply lookup_lt_is_Some. lia. }
  destruct n as [|n]; simpl ptr_at.
  - rewrite set_table by done. eexists _, _. split; [done|]. rewrite length_insert.
    split; [done|]. split; [done|]. split; [intros s' Hne; by apply list_lookup_insert_ne|].
    split; [|split; [done|]].
    + rewrite !list_lookup_insert_eq; [done|lia|done].
    + intros n' i Hi. rewrite list_lookup_insert_ne by done. by apply Hx.
  - destruct (lookup_lt_is_Some_2 idxs n) as [j Hj]; [lia|].
    rewrite (nth_lookup_Some _ _ _ _ Hj). destruct (Hx n j Hj) as [Hpos Hxj].
    assert (j < length (ex_of m))%nat as Hjl.
    { apply lookup_lt_is_Some. rewrite Hxj. apply lookup_lt_is_Some. lia. }
    rewrite set_extras by done. eexists _, _. split; [done|]. rewrite length_insert.
    split; [done|]. split; [done|]. split; [done|]. split; [|split].
    + by rewrite list_lookup_insert_ne by done.
    + intros i Hi. apply list_lookup_insert_ne. intros ->. apply Hi. by eapply list_elem_of_lookup_2.
    + intros n' i Hi. destruct (decide (n' = n)) as [->|Hne].
      * assert (i = j) as -> by congruence. rewrite !list_lookup_insert_eq; [done|lia|done].
      * rewrite (list_lookup_insert_ne els) by congruence.
        rewrite list_lookup_insert_ne; [by apply Hx|].
        intros ->. apply Hne. by eapply NoDup_lookup.
Qed.

(** *** Searching *)

Definition key_is (k : K) e : bool :=
  match p_key e with Some k' => eq_val k' k | None => false end.

(** The position of the first element with the key. *)
Fixpoint find_pos (k : K) els : option nat :=
  match els with
  | [] => None
  | e :: els => if key_is k e then Some 0%nat else S <$> find_pos k els
  end.

Lemma find_pos_Some k els n :
  find_pos k els = Some n -> exists e, els !! n = Some e /\ key_is k e = true.
Proof.
  revert n. induction els as [|e els IH]; intros n; simpl; [done|].
  destruct (key_is k e) eqn:E; [intros [= <-]; by exists e|].
  intros Hf. apply fmap_Some in Hf as (n' & Hn' & ->). by apply IH.
Qed.

Lemma find_chain_ok m k fuel p idxs els :
  linked (ex_of m) idxs els -> get_elem m p = els !! 0%nat -> Forall has_key els ->
  (length idxs < fuel)%nat ->
  find_chain eq_val fuel m p k
  = Some (match find_pos k els with
          | Some n => inl (ptr_at p idxs n)
          | None => inr (ptr_at p idxs (length idxs))
          end).
Proof.
  revert p idxs els. induction fuel as [|fuel IH]; intros p idxs els Hl Hp Hk Hf; [lia|].
  destruct els as [|e els]; [by destruct Hl|]. simpl in Hp.
  apply Forall_cons in Hk as [[ek Hek] Hk]. simpl. rewrite Hp. cbn [mbind option_bind].
  unfold key_is. rewrite Hek. cbn [mbind option_bind].
  destruct (eq_val ek k); [done|].
  destruct (next e =? 0) eqn:E; reflect_Z.
  { by destruct (linked_last _ _ _ _ Hl E) as [-> ->]. }
  destruct (linked_first _ _ _ _ Hl E) as (j & idxs' & e' & es' & -> & -> & -> & Hpos & Hj).
  rewrite (IH _ idxs' (e' :: es')); [|by eapply linked_tail|by rewrite get_extras|done|simpl in Hf; lia].
  f_equal. destruct (find_pos k (e' :: es')) as [n|]; cbn [fmap option_fmap option_map length];
    by rewrite ptr_at_S.
Qed.

Lemma find_prev_ok m k fuel p idxs els :
  linked (ex_of m) idxs els -> get_elem m p = els !! 0%nat -> Forall has_key (tail els) ->
  (length idxs < fuel)%nat ->
  find_prev eq_val fuel m p k
  = Some ((fun n => (ptr_at p idxs n, Z.of_nat (nth n idxs 0%nat))) <$> find_pos k (tail els)).
Proof.
  revert p idxs els. induction fuel as [|fuel IH]; intros p idxs els Hl Hp Hk Hf; [lia|].
  destruct els as [|e els]; [by destruct Hl|]. cbn [tail] in Hk |- *.
  cbn [find_prev]. change ((e :: els) !! 0%nat) with (Some e) in Hp. rewrite Hp. cbn [mbind option_bind].
  destruct (next e =? 0) eqn:E; reflect_Z.
  { by destruct (linked_last _ _ _ _ Hl E) as [-> ->]. }
  destruct (linked_first _ _ _ _ Hl E) as (j & idxs' & e' & es' & -> & -> & -> & Hpos & Hj).
  rewrite get_extras, Hj. cbn [mbind option_bind]. apply Forall_cons in Hk as [[ek Hek] Hk].
  rewrite Hek. cbn [mbind option_bind find_pos]. unfold key_is at 1. rewrite Hek.
  destruct (eq_val ek k); [done|].
  rewrite (IH _ idxs' (e' :: es')); [|by eapply linked_tail|by rewrite get_extras|done|simpl in Hf; lia].
  f_equal. simpl tail. destruct (find_pos k es') as [n|]; [|done].
  cbn [fmap option_fmap option_map]. by rewrite ptr_at_S.
Qed.

End Arrays.

(** ** Well-formed maps *)

Section WellFormed.
Context {K V : Type}.
Abbreviation elem := (as_hashmap_element K V).
Implicit Types (m : as_hashmap K V) (t ex els : list elem) (e : elem) (idxs fl : list nat).

Definition hm_sizes m : Prop :=
  blen (table m) = table_capacity m /\ 0 < table_capacity m < 2 ^ 32
  /\ 2 <= capacity_step m /\ blen (ex_of m) = extra_capacity m /\ extra_capacity m < 2 ^ 32.

Definition hm_wf m ch fl (A : list (list elem)) : Prop :=
  chains (table m) (ex_of m) (insert_at m) (free_q m) ch fl A /\ hm_sizes m.

(** What the chains other than [s] and the free list do not share with it. *)
Lemma wf_disjoint m ch fl A s idxs :
  hm_wf m ch fl A -> ch !! s = Some idxs ->
  NoDup idxs
  /\ (forall j, j ∈ mjoin (delete s ch) -> (j ∉ idxs) /\ (j ∉ fl) /\ 1 <= Z.of_nat j < insert_at m)
  /\ (forall j, j ∈ fl -> (j ∉ idxs) /\ 1 <= Z.of_nat j < insert_at m)
  /\ (forall j, j ∈ idxs -> 1 <= Z.of_nat j < insert_at m).
Proof.
  intros [Hc _] Hs. destruct (chains_parts _ _ _ _ _ _ _ _ _ Hc Hs) as (_ & Hnd & Hr).
  apply NoDup_app in Hnd as (Hnd1 & Hd1 & Hnd2). apply NoDup_app in Hnd2 as (_ & Hd2 & _).
  split; [done|]. split; [|split].
  - intros j Hj. split; [intros Hi; apply (Hd1 j Hi), elem_of_app; by left|].
    split; [by apply Hd2|]. apply Hr. rewrite !elem_of_app. auto.
  - intros j Hj. split; [intros Hi; apply (Hd1 j Hi), elem_of_app; by right|].
    apply Hr. rewrite !elem_of_app. auto.
  - intros j Hj. apply Hr. rewrite elem_of_app. auto.
Qed.

Lemma wf_slot m ch fl A s idxs :
  hm_wf m ch fl A -> ch !! s = Some idxs ->
  exists els, A !! s = Some els /\ slot_ok (table m) (ex_of m) s idxs els
    /\ (s < length (table m))%nat.
Proof.
  intros [[] _] Hs. pose proof (lookup_lt_Some _ _ _ Hs).
  destruct (lookup_lt_is_Some_2 A s) as [els Hels]; [lia|].
  exists els. split; [done|]. split; [by apply c_slots0|lia].
Qed.

Lemma Forall_tail_insert n e els :
  has_key (V := V) (K := K) e -> Forall has_key (tail els) -> Forall has_key (tail (<[n := e]> els)).
Proof.
  intros He Ht. destruct els as [|e0 els]; [done|]. destruct n as [|n]; [done|]. simpl in *.
  by apply Forall_insert.
Qed.

(** Replacing the key and value of an element. *)
Lemma wf_overwrite m ch fl A s idxs els n e e' :
  hm_wf m ch fl A -> ch !! s = Some idxs -> A !! s = Some els -> els !! n = Some e ->
  next e' = next e -> has_key e' ->
  exists m', set_elem m (ptr_at (InTable (Z.of_nat s)) idxs n) e' = Some m'
    /\ hm_wf m' ch fl (<[s := <[n := e']> els]> A)
    /\ count m' = count m /\ table_capacity m' = table_capacity m
    /\ capacity_step m' = capacity_step m /\ extra_capacity m' = extra_capacity m
    /\ insert_at m' = insert_at m.
Proof.
  intros Hwf Hs HA He Hne Hk. destruct (wf_disjoint m ch fl A s idxs Hwf Hs) as (Hnd & Hd & Hdf & Hr).
  pose proof Hwf as [Hc Hsz]. pose proof (c_slots _ _ _ _ _ _ _ Hc s idxs els Hs HA) as Hslot.
  pose proof Hslot as (Hlk & Ht & Hnk & Htl).
  assert (n <= length idxs)%nat as Hn by (apply lookup_lt_Some in He; destruct Hlk; lia).
  destruct (set_ptr m s idxs els n e' Hslot Hnd Hn) as (t1 & ex1 & -> & Hlt & Hlx & Ht1 & Hts & Hx1 & Hx2).
  eexists. split; [done|]. split; [|done].
  assert (ex_of (put m t1 ex1) = ex1) as Hex by (by apply ex_of_put).
  split; [|unfold hm_sizes in *; rewrite Hex; simpl; rewrite Hlt, Hlx; exact Hsz].
  rewrite Hex. simpl.
  rewrite <- (list_insert_id ch s idxs Hs).
  eapply chains_replace; try done; try by destruct Hc.
  - intros j Hj. apply Hx1. by apply Hd.
  - split; [by eapply linked_overwrite|]. split; [done|]. split; [|by apply Forall_tail_insert].
    intros e0 H0 Hno. destruct n as [|n].
    + destruct els; [done|]. injection H0 as <-. destruct Hk as [k' Hk']. unfold no_key in Hno. congruence.
    + rewrite list_lookup_insert_ne in H0 by done. by apply (Hnk e0).
  - destruct (c_free _ _ _ _ _ _ _ Hc) as (fs & Hf1 & Hf2). exists fs. split; [|done].
    apply (linked_frame (ex_of m)); [done|]. intros j Hj. apply Hx1. by apply Hdf.
  - rewrite Hlx. by destruct Hc.
  - by destruct (chains_parts _ _ _ _ _ _ _ _ _ Hc Hs).
  - intros j e1 Hj Hje. rewrite Hx1 in Hje; [|intros Hin; apply Hr in Hin; lia].
    by eapply (c_zero _ _ _ _ _ _ _ Hc).
Qed.

(** Linking the slot [j] to the end of a chain, with the new element in it. *)
Lemma chains_append m ch fl A s idxs els prev (j : nat) e1 t1 ex1 ex3 ins' fq' fl' :
  hm_wf m ch fl A -> ch !! s = Some idxs -> A !! s = Some els ->
  els !! length idxs = Some prev -> has_key prev -> has_key e1 -> next e1 = 0 ->
  (0 < j)%nat -> j ∉ idxs -> j ∉ mjoin (delete s ch) ->
  length t1 = length (table m) -> (forall s', s' <> s -> t1 !! s' = table m !! s') ->
  t1 !! s = <[length idxs := with_next prev (Z.of_nat j)]> els !! 0%nat ->
  (forall i, i ∉ idxs -> ex1 !! i = ex_of m !! i) ->
  (forall n' i, idxs !! n' = Some i ->
     ex1 !! i = <[length idxs := with_next prev (Z.of_nat j)]> els !! S n') ->
  ex3 !! j = Some e1 -> (forall i, i <> j -> 1 <= Z.of_nat i < insert_at m -> ex3 !! i = ex1 !! i) ->
  free_ok ex3 fq' fl' -> 1 <= ins' <= Z.max 1 (blen ex3) ->
  j :: idxs ++ mjoin (delete s ch) ++ fl' ≡ₚ seq 1 (Z.to_nat (ins' - 1)) ->
  (forall i e, ins' <= Z.of_nat i -> ex3 !! i = Some e -> e = zero_element) ->
  chains t1 ex3 ins' fq' (<[s := idxs ++ [j]]> ch) fl'
    (<[s := <[length idxs := with_next prev (Z.of_nat j)]> els ++ [e1]]> A).
Proof.
  intros Hwf Hs HA Hprev Hkp Hk1 Hn1 Hj Hji Hjr Hlt Ht Hts Hx1 Hx2 H3j H3 Hfree Hins Hperm Hz.
  destruct (wf_disjoint m ch fl A s idxs Hwf Hs) as (Hnd & Hd & Hdf & Hr).
  pose proof Hwf as [Hc Hsz].
  pose proof (c_slots _ _ _ _ _ _ _ Hc s idxs els Hs HA) as (Hlk & Hth & Hnk & Htl).
  assert (length els = S (length idxs)) as Hlen by apply Hlk.
  eapply chains_replace; try done; try lia.
  - intros i Hi. destruct (Hd i Hi) as (Hi1 & _ & Hi2). rewrite H3; [by apply Hx1|by intros ->|lia].
  - split; [|split; [|split]].
    + eapply linked_snoc; try done. intros n i Hi.
      assert (i ∈ idxs) as Hin by (by eapply list_elem_of_lookup_2).
      rewrite H3; [by apply Hx2|by intros ->|apply Hr in Hin; lia].
    + rewrite lookup_app_l by (rewrite length_insert; lia). done.
    + intros e0 H0 Hno. rewrite lookup_app_l in H0 by (rewrite length_insert; lia).
      apply list_lookup_insert_Some in H0 as [(Heq & <- & _)|[_ H0]].
      * destruct Hkp as [k Hkp]. unfold no_key in Hno. simpl in Hno. congruence.
      * rewrite (Hnk e0 H0 Hno) in Hprev. simpl in Hprev. rewrite H0 in Hprev. injection Hprev as ->.
        destruct Hkp as [k Hkp]. unfold no_key in Hno. congruence.
    + assert (tail (<[length idxs := with_next prev (Z.of_nat j)]> els ++ [e1])
              = tail (<[length idxs := with_next prev (Z.of_nat j)]> els) ++ [e1]) as ->.
      { destruct els as [|e0 els]; [done|]. by destruct (length idxs). }
      apply Forall_app. split; [|by apply Forall_singleton]. apply Forall_tail_insert; [|done].
      destruct Hkp as [k Hkp]. by exists k.
  - rewrite <- Hperm. solve_Permutation.
Qed.

End WellFormed.

(** *** The three ways to add an element *)

Section Adding.
Context {K V : Type}.
Abbreviation elem := (as_hashmap_element K V).
Implicit Types (m : as_hashmap K V) (els : list elem) (e : elem) (idxs fl : list nat) (k : K).

Definition same_shape m m' : Prop :=
  table_capacity m' = table_capacity m /\ capacity_step m' = capacity_step m.

(** An empty table slot. *)
Lemma wf_fill m ch fl A s idxs e k v :
  hm_wf m ch fl A -> ch !! s = Some idxs -> table m !! s = Some e -> no_key e ->
  exists m', set_elem m (InTable (Z.of_nat s)) (mk_element (Some k) v (next e)) = Some m'
    /\ hm_wf m' ch fl (<[s := [mk_element (Some k) v (next e)]]> A)
    /\ A !! s = Some [e]
    /\ count m' = count m /\ same_shape m m' /\ insert_at m' = insert_at m
    /\ extra_capacity m' = extra_capacity m.
Proof.
  intros Hwf Hs He Hno. destruct (wf_slot m ch fl A s idxs Hwf Hs) as (els & HA & Hslot & Hlt).
  pose proof Hslot as (Hlk & Ht & Hnk & Htl). pose proof Hwf as [Hc Hsz].
  rewrite He in Ht. destruct els as [|e0 els]; [done|]. injection Ht as <-.
  assert (idxs = []) as -> by (by apply (Hnk e)).
  assert (els = []) as -> by (destruct Hlk as [Hl _], els; [done|simpl in Hl; lia]).
  rewrite set_table by done. eexists. split; [done|].
  assert (ex_of (put m (<[s := mk_element (Some k) v (next e)]> (table m)) (ex_of m)) = ex_of m) as Hex
    by (by apply ex_of_put).
  split; [|by split_and!].
  split; [|unfold hm_sizes in *; rewrite Hex; simpl; rewrite length_insert; exact Hsz].
  rewrite Hex. simpl. rewrite <- (list_insert_id ch s [] Hs).
  eapply chains_replace; try done; try by destruct Hc.
  - by rewrite length_insert.
  - intros s' Hne. by apply list_lookup_insert_ne.
  - split; [|split; [by apply list_lookup_insert_eq|split; [done|by constructor]]].
    destruct Hlk as (Hl & Hn & Hx). split; [done|]. split; [|done].
    intros [|n] e1 H1; [|done]. injection H1 as <-. by apply (Hn 0%nat e).
  - by destruct (chains_parts _ _ _ _ _ _ _ _ _ Hc Hs).
Qed.

(** A slot from the free list, at the end of a chain. *)
Lemma wf_append_free m ch fl A s idxs els prev k v :
  hm_wf m ch fl A -> ch !! s = Some idxs -> A !! s = Some els ->
  els !! length idxs = Some prev -> has_key prev -> free_q m <> 0 ->
  exists m1 m2 fe j fl',
    set_elem m (ptr_at (InTable (Z.of_nat s)) idxs (length idxs))
      (mk_element (p_key prev) (p_val prev) (free_q m)) = Some m1
    /\ get_elem m1 (InExtras (free_q m)) = Some fe
    /\ set_elem (with_free_q m1 (next fe)) (InExtras (free_q m)) (mk_element (Some k) v 0) = Some m2
    /\ hm_wf m2 (<[s := idxs ++ [j]]> ch) fl'
         (<[s := <[length idxs := with_next prev (Z.of_nat j)]> els ++ [mk_element (Some k) v 0]]> A)
    /\ count m2 = count m /\ same_shape m m2 /\ insert_at m2 = insert_at m
    /\ extra_capacity m2 = extra_capacity m.
Proof.
  intros Hwf Hs HA Hprev Hkp Hfq.
  destruct (wf_disjoint m ch fl A s idxs Hwf Hs) as (Hnd & Hd & Hdf & Hr).
  pose proof Hwf as [Hc Hsz]. pose proof (c_slots _ _ _ _ _ _ _ Hc s idxs els Hs HA) as Hslot.
  destruct (c_free _ _ _ _ _ _ _ Hc) as (fs & Hfl & Hfn).
  destruct (linked_first _ _ _ _ Hfl Hfq) as (j & fl' & fe & fs' & -> & -> & Hj & Hpos & Hxj).
  simpl in Hj. rewrite Hj.
  destruct (set_ptr m s idxs els (length idxs) (with_next prev (Z.of_nat j)) Hslot Hnd) as
    (t1 & ex1 & Hset & Hlt & Hlx & Ht1 & Hts & Hx1 & Hx2); [done|].
  assert (j ∉ idxs) as Hji by (apply Hdf; by left).
  assert (ex_of (put m t1 ex1) = ex1) as Hex by (by apply ex_of_put).
  assert (ex1 !! j = Some fe) as H1j by (by rewrite Hx1).
  assert (j < length ex1)%nat as Hjl by (by eapply lookup_lt_Some).
  exists (put m t1 ex1). rewrite get_extras, Hex.
  eexists _, fe, j, fl'. split; [exact Hset|]. split; [done|]. split.
  { apply set_extras. change (ex_of (with_free_q _ _)) with (ex_of (put m t1 ex1)). by rewrite Hex. }
  change (ex_of (with_free_q (put m t1 ex1) (next fe))) with (ex_of (put m t1 ex1)). rewrite Hex.
  set (m2 := put _ _ _). assert (ex_of m2 = <[j := mk_element (Some k) v 0]> ex1) as Hex2.
  { apply ex_of_put. rewrite length_insert. change (ex_of (with_free_q _ _)) with (ex_of (put m t1 ex1)).
    by rewrite Hex. }
  split; [|by split_and!].
  split; [|unfold hm_sizes in *; rewrite Hex2; simpl; rewrite length_insert, Hlt, Hlx; exact Hsz].
  rewrite Hex2. simpl.
  assert (NoDup (j :: fl')) as Hndf.
  { destruct (chains_parts _ _ _ _ _ _ _ _ _ Hc Hs) as (_ & Hn & _).
    apply NoDup_app in Hn as (_ & _ & Hn). by apply NoDup_app in Hn as (_ & _ & Hn). }
  eapply chains_append; try done.
  - by eexists.
  - intros Hin. apply Hd in Hin as (_ & Hin & _). apply Hin. by left.
  - by apply list_lookup_insert_eq.
  - intros i Hne _. by apply list_lookup_insert_ne.
  - exists fs'. split; [|by apply Forall_cons in Hfn as [_ ?]].
    apply (linked_frame (ex_of m)).
    + destruct (linked_tail _ _ _ _ _ Hfl) as (Hl & Hn & Hx). split; [done|]. split; [|done].
      intros [|n] e1 H1; [injection H1 as <-; by apply (Hn 0%nat fe)|by apply (Hn (S n))].
    + intros i Hi. apply NoDup_cons in Hndf as [Hnj _].
      rewrite list_lookup_insert_ne by (by intros ->). apply Hx1, Hdf. by right.
  - rewrite length_insert, Hlx. by destruct Hc.
  - destruct (chains_parts _ _ _ _ _ _ _ _ _ Hc Hs) as (<- & _ & _). solve_Permutation.
  - intros i e1 Hi Hie. rewrite list_lookup_insert_ne in Hie.
    + rewrite Hx1 in Hie by (intros Hin; apply Hr in Hin; lia).
      by eapply (c_zero _ _ _ _ _ _ _ Hc).
    + intros ->. assert (1 <= Z.of_nat i < insert_at m) by (apply Hdf; by left). lia.
Qed.

(** More extra slots, when they are used up. *)
Lemma grow_ok m t1 ex1 :
  length ex1 = length (ex_of m) -> hm_sizes m -> 1 <= insert_at m <= Z.max 1 (extra_capacity m) ->
  extra_capacity m + capacity_step m < 2 ^ 32 ->
  exists m2 n, (if extra_capacity m <=? insert_at m then grow_extras true (put m t1 ex1)
                else Some (Some (put m t1 ex1))) = Some (Some m2)
    /\ table m2 = t1 /\ ex_of m2 = ex1 ++ replicate n zero_element
    /\ blen (ex_of m2) = extra_capacity m2 /\ insert_at m < extra_capacity m2 < 2 ^ 32
    /\ extra_capacity m2 <= Z.max (extra_capacity m) (insert_at m + capacity_step m)
    /\ count m2 = count m /\ same_shape m m2 /\ insert_at m2 = insert_at m /\ free_q m2 = free_q m.
Proof.
  intros Hlen (Ht & Htc & Hst & Hx & Hxb) Hins Hmax. unfold grow_extras. simpl.
  rewrite u32_id by (unfold is_u32; lia). destruct (_ <=? _) eqn:E; reflect_Z.
  - unfold ex_of in *. destruct (extras m) as [ex|]; simpl in *.
    + rewrite (proj2 (Z.ltb_ge _ _)) by lia. eexists _, _. split; [done|]. simpl.
      split; [done|]. split; [done|]. rewrite length_app, length_replicate, Hlen.
      split_and!; (done || lia).
    + destruct ex1; [|done]. eexists _, _. split; [done|]. simpl. split; [done|]. split; [done|].
      rewrite length_replicate. split_and!; (done || lia).
  - exists (put m t1 ex1), 0%nat. rewrite ex_of_put by done. simpl. rewrite app_nil_r, Hlen.
    split_and!; (done || lia).
Qed.

(** A new extra slot, at the end of a chain. *)
Lemma wf_append_new m ch fl A s idxs els prev k v :
  hm_wf m ch fl A -> ch !! s = Some idxs -> A !! s = Some els ->
  els !! length idxs = Some prev -> has_key prev -> free_q m = 0 ->
  extra_capacity m + capacity_step m < 2 ^ 32 ->
  exists m1 m2 e m3 j,
    set_elem m (ptr_at (InTable (Z.of_nat s)) idxs (length idxs))
      (mk_element (p_key prev) (p_val prev) (insert_at m)) = Some m1
    /\ (if extra_capacity m <=? insert_at m then grow_extras true m1 else Some (Some m1)) = Some (Some m2)
    /\ get_elem m2 (InExtras (insert_at m2)) = Some e
    /\ set_elem (with_count m2 (u32 (count m2 + 1))) (InExtras (insert_at m2))
         (mk_element (Some k) v (next e)) = Some m3
    /\ hm_wf (with_insert_at m3 (u32 (insert_at m3 + 1))) (<[s := idxs ++ [j]]> ch) fl
         (<[s := <[length idxs := with_next prev (Z.of_nat j)]> els ++ [mk_element (Some k) v 0]]> A)
    /\ count m3 = u32 (count m + 1) /\ same_shape m m3 /\ insert_at m3 = insert_at m
    /\ u32 (insert_at m3 + 1) = insert_at m + 1
    /\ extra_capacity m3 <= Z.max (extra_capacity m) (insert_at m + capacity_step m).
Proof.
  intros Hwf Hs HA Hprev Hkp Hfq Hmax.
  destruct (wf_disjoint m ch fl A s idxs Hwf Hs) as (Hnd & Hd & Hdf & Hr).
  pose proof Hwf as [Hc Hsz]. pose proof (c_slots _ _ _ _ _ _ _ Hc s idxs els Hs HA) as Hslot.
  destruct (c_free _ _ _ _ _ _ _ Hc) as (fs & Hfl & _).
  destruct (linked_last _ _ _ _ Hfl Hfq) as [-> ->].
  pose proof (c_ins _ _ _ _ _ _ _ Hc) as Hins. pose proof (c_bound _ _ _ _ _ _ _ Hc) as Hbd.
  pose proof Hsz as (Ht & Htc & Hst & Hx & Hxb). rewrite Hx in Hbd.
  set (j := Z.to_nat (insert_at m)). assert (insert_at m = Z.of_nat j) as Hj by (unfold j; lia).
  destruct (set_ptr m s idxs els (length idxs) (with_next prev (Z.of_nat j)) Hslot Hnd) as
    (t1 & ex1 & Hset & Hlt & Hlx & Ht1 & Hts & Hx1 & Hx2); [done|].
  destruct (grow_ok m t1 ex1 Hlx Hsz) as
    (m2 & n & Hgrow & Htab & Hex & Hxl & Hroom & Hle & Hcount & Hshape & Hins2 & Hfq2); [lia..|].
  assert (ex_of m2 !! j = Some zero_element) as Hzero.
  { rewrite Hex. destruct (lookup_lt_is_Some_2 (ex1 ++ replicate n zero_element) j) as [e He].
    - rewrite <- Hex. lia.
    - rewrite He. f_equal. apply lookup_app_Some in He as [He|[_ He]].
      + rewrite Hx1 in He by (intros Hin; apply Hr in Hin; lia).
        eapply (c_zero _ _ _ _ _ _ _ Hc j); [lia|done].
      + by apply lookup_replicate in He as [-> _]. }
  exists (put m t1 ex1), m2, zero_element. eexists _, j.
  rewrite Hins2, Hj. split; [exact Hset|]. split; [rewrite <- Hj; exact Hgrow|].
  split; [by rewrite get_extras|]. split.
  { apply set_extras. change (ex_of (with_count _ _)) with (ex_of m2). lia. }
  change (ex_of (with_count m2 _)) with (ex_of m2). change (table (with_count m2 _)) with (table m2).
  set (m3 := put _ _ _).
  assert (ex_of m3 = <[j := mk_element (Some k) v (next (zero_element (K := K) (V := V)))]> (ex_of m2)) as Hex3.
  { apply ex_of_put. by rewrite length_insert. }
  assert (u32 (insert_at m3 + 1) = Z.of_nat j + 1) as Hu.
  { simpl. rewrite Hins2, u32_id by (unfold is_u32; lia). lia. }
  destruct Hshape as [Hs1 Hs2].
  split; [|by split_and!; simpl; rewrite ?Hcount; (done || lia)].
  split; [|unfold hm_sizes; change (ex_of (with_insert_at m3 _)) with (ex_of m3);
           rewrite Hex3, length_insert; simpl; rewrite Htab, Hlt; split_and!; (done || lia)].
  change (ex_of (with_insert_at m3 _)) with (ex_of m3). rewrite Hex3. simpl.
  change (insert_at m3) with (insert_at m2) in Hu. rewrite Hu, Htab, Hfq2, Hfq.
  eapply (chains_append m); try done.
  - by eexists.
  - lia.
  - intros Hin. apply Hr in Hin. lia.
  - intros Hin. apply Hd in Hin. lia.
  - apply list_lookup_insert_eq. lia.
  - intros i Hne Hi. rewrite list_lookup_insert_ne by done. rewrite Hex.
    apply lookup_app_l. rewrite Hlx. lia.
  - apply free_nil.
  - rewrite length_insert. lia.
  - rewrite app_nil_r. destruct (chains_parts _ _ _ _ _ _ _ _ _ Hc Hs) as (Hp & _ & _).
    rewrite app_nil_r in Hp. rewrite Hp.
    replace (Z.to_nat (Z.of_nat j + 1 - 1)) with (S (Z.to_nat (insert_at m - 1))) by lia.
    rewrite seq_S. replace (1 + Z.to_nat (insert_at m - 1))%nat with j by lia. solve_Permutation.
  - intros i e1 Hi Hie. rewrite list_lookup_insert_ne in Hie by lia. rewrite Hex in Hie.
    apply lookup_app_Some in Hie as [Hie|[_ Hie]].
    + rewrite Hx1 in Hie by (intros Hin; apply Hr in Hin; lia).
      eapply (c_zero _ _ _ _ _ _ _ Hc i); [lia|done].
    + by apply lookup_replicate in Hie as [-> _].
Qed.

(** *** The two ways to remove one *)

(** The only element of a slot. *)
Lemma wf_empty m ch fl A s idxs e :
  hm_wf m ch fl A -> ch !! s = Some idxs -> table m !! s = Some e -> next e = 0 ->
  exists m', set_elem m (InTable (Z.of_nat s)) (mk_element None None (next e)) = Some m'
    /\ hm_wf m' ch fl (<[s := [mk_element None None 0]]> A) /\ A !! s = Some [e]
    /\ count m' = count m /\ same_shape m m' /\ insert_at m' = insert_at m
    /\ extra_capacity m' = extra_capacity m.
Proof.
  intros Hwf Hs He Hz. destruct (wf_slot m ch fl A s idxs Hwf Hs) as (els & HA & Hslot & Hlt).
  pose proof Hslot as (Hlk & Ht & Hnk & Htl). pose proof Hwf as [Hc Hsz].
  rewrite He in Ht. destruct els as [|e0 els]; [done|]. injection Ht as <-.
  destruct (linked_last _ _ _ _ Hlk Hz) as [-> ->].
  rewrite Hz, set_table by done. eexists. split; [done|].
  assert (ex_of (put m (<[s := mk_element None None 0]> (table m)) (ex_of m)) = ex_of m) as Hex
    by (by apply ex_of_put).
  split; [|by split_and!].
  split; [|unfold hm_sizes in *; rewrite Hex; simpl; rewrite length_insert; exact Hsz].
  rewrite Hex. simpl. rewrite <- (list_insert_id ch s [] Hs).
  eapply chains_replace; try done; try by destruct Hc.
  - by rewrite length_insert.
  - intros s' Hne. by apply list_lookup_insert_ne.
  - split; [|split; [by apply list_lookup_insert_eq|split; [done|by constructor]]].
    by apply linked_single.
  - by destruct (chains_parts _ _ _ _ _ _ _ _ _ Hc Hs).
Qed.

(** Unlinking the extra slot [j] that follows the [n]th element of a chain, which
    becomes [pe]; the slot goes to the free list. *)
Lemma wf_unlink m ch fl A s idxs els n j e pe :
  hm_wf m ch fl A -> ch !! s = Some idxs -> A !! s = Some els ->
  idxs !! n = Some j -> els !! S n = Some e -> next pe = next e -> has_key pe ->
  exists m1 m2,
    set_elem m (ptr_at (InTable (Z.of_nat s)) idxs n) pe = Some m1
    /\ set_elem m1 (InExtras (Z.of_nat j)) (mk_element None None (free_q m1)) = Some m2
    /\ hm_wf (with_free_q m2 (Z.of_nat j)) (<[s := delete n idxs]> ch) (j :: fl)
         (<[s := delete (S n) (<[n := pe]> els)]> A)
    /\ count m2 = count m /\ same_shape m m2 /\ insert_at m2 = insert_at m
    /\ extra_capacity m2 = extra_capacity m.
Proof.
  intros Hwf Hs HA Hj He Hne Hkp.
  destruct (wf_disjoint m ch fl A s idxs Hwf Hs) as (Hnd & Hd & Hdf & Hr).
  pose proof Hwf as [Hc Hsz]. pose proof (c_slots _ _ _ _ _ _ _ Hc s idxs els Hs HA) as Hslot.
  pose proof Hslot as (Hlk & Ht & Hnk & Htl).
  assert (j ∈ idxs) as Hjin by (by eapply list_elem_of_lookup_2).
  pose proof (lookup_lt_Some _ _ _ Hj) as Hnlt.
  destruct (set_ptr m s idxs els n pe Hslot Hnd) as
    (t1 & ex1 & Hset & Hlt & Hlx & Ht1 & Hts & Hx1 & Hx2); [lia|].
  assert (ex_of (put m t1 ex1) = ex1) as Hex by (by apply ex_of_put).
  assert (j < length ex1)%nat as Hjl.
  { apply lookup_lt_is_Some. rewrite (Hx2 n j Hj). apply lookup_lt_is_Some.
    rewrite length_insert. by eapply lookup_lt_Some. }
  exists (put m t1 ex1). eexists. split; [exact Hset|]. split; [apply set_extras; by rewrite Hex|].
  rewrite Hex. set (free := mk_element _ _ _). set (m2 := put _ _ _).
  assert (ex_of m2 = <[j := free]> ex1) as Hex2 by (apply ex_of_put; by rewrite length_insert, Hex).
  split; [|by split_and!].
  split; [|unfold hm_sizes in *; change (ex_of (with_free_q m2 _)) with (ex_of m2);
           rewrite Hex2; simpl; rewrite length_insert, Hlt, Hlx; exact Hsz].
  change (ex_of (with_free_q m2 _)) with (ex_of m2). rewrite Hex2. simpl.
  eapply chains_replace; try done; try by destruct Hc.
  - intros i Hi. destruct (Hd i Hi) as (Hi1 & _ & _).
    rewrite list_lookup_insert_ne by (by intros ->). by apply Hx1.
  - split; [|split; [|split]].
    + eapply linked_delete; try done. intros n' i Hnn Hi.
      rewrite list_lookup_insert_ne; [by apply Hx2|]. intros ->. apply Hnn. by eapply NoDup_lookup.
    + rewrite list_lookup_delete_lt by lia. done.
    + intros e0 H0 Hno. exfalso. rewrite list_lookup_delete_lt in H0 by lia.
      apply list_lookup_insert_Some in H0 as [(_ & <- & _)|[_ H0]].
      * destruct Hkp as [k Hkp]. unfold no_key in Hno. congruence.
      * by rewrite (Hnk e0 H0 Hno) in Hj.
    + pose proof (Forall_tail_insert n pe els Hkp Htl) as Hf.
      destruct (<[n := pe]> els) as [|e0 es]; [done|]. simpl in *. by apply Forall_delete.
  - destruct (c_free _ _ _ _ _ _ _ Hc) as (fs & (Hfl & Hfn & Hfx) & Hfk).
    exists (free :: fs). split; [|by constructor].
    apply (linked_cons (ex_of m)); [|by apply Hr in Hjin; lia|by apply list_lookup_insert_eq|done|].
    + split; [done|]. split; [|done]. intros [|n'] e1 H1; [injection H1 as <-|by apply (Hfn (S n'))].
      by apply (Hfn 0%nat (mk_element None None (free_q m))).
    + intros i Hi. destruct (Hdf i Hi) as [Hii _].
      rewrite list_lookup_insert_ne by (by intros ->). by apply Hx1.
  - rewrite length_insert, Hlx. by destruct Hc.
  - destruct (chains_parts _ _ _ _ _ _ _ _ _ Hc Hs) as (<- & _ & _).
    rewrite <- (take_drop_middle idxs n j Hj) at 2. rewrite delete_take_drop. solve_Permutation.
  - intros i e1 Hi Hie. rewrite list_lookup_insert_ne in Hie by (intros ->; apply Hr in Hjin; lia).
    rewrite Hx1 in Hie by (intros Hin; apply Hr in Hin; lia).
    by eapply (c_zero _ _ _ _ _ _ _ Hc).
Qed.

End Adding.

(** ** Buckets *)

Section Buckets.
Context {K V : Type}.
Context (hash : K -> option Z) (eq_val : K -> K -> bool) (is_valid_key_type : K -> bool).
Abbreviation elem := (as_hashmap_element K V).
Implicit Types (m : as_hashmap K V) (els : list elem) (e : elem) (idxs fl : list nat).
Implicit Types (b : list (K * option V)) (B : list (list (K * option V))) (k : K) (v : option V).

(** The position of a key in a bucket. *)
Fixpoint b_find k b : option nat :=
  match b with
  | [] => None
  | kv :: b => if eq_val kv.1 k then Some 0%nat else S <$> b_find k b
  end.

Definition bset k v b : list (K * option V) :=
  match b_find k b with Some n => <[n := (k, v)]> b | None => b ++ [(k, v)] end.
Definition bremove k b : list (K * option V) :=
  match b_find k b with Some n => delete n b | None => b end.
Definition bget k b : option V := n ← b_find k b; kv ← b !! n; kv.2.
(** The entry that [bset] replaces and [bremove] removes. *)
Definition bold k b : list (K * option V) := option_list (n ← b_find k b; b !! n).

Lemma entries_cons e els k v :
  entry e = Some (k, v) -> entries_of (e :: els) = (k, v) :: entries_of els.
Proof. intros He. unfold entries_of. cbn [omap list_omap]. by rewrite He. Qed.

Lemma entries_skip e els : no_key e -> entries_of (e :: els) = entries_of els.
Proof. intros He. unfold entries_of. cbn [omap list_omap]. unfold entry. by rewrite He. Qed.

Lemma entry_key e k : p_key e = Some k -> entry e = Some (k, p_val e).
Proof. unfold entry. by intros ->. Qed.

Lemma entries_lookup els n :
  Forall has_key els -> entries_of els !! n = els !! n ≫= entry.
Proof.
  intros Hk. revert n. induction Hk as [|e els [k Hk] _ IH]; intros n; [done|].
  rewrite (entries_cons e els k _ (entry_key e k Hk)).
  destruct n as [|n]; simpl; [by rewrite (entry_key e k Hk)|apply IH].
Qed.

Lemma entries_length els : Forall has_key els -> length (entries_of els) = length els.
Proof.
  induction 1 as [|e els [k Hk] _ IH]; [done|].
  rewrite (entries_cons e els k _ (entry_key e k Hk)). simpl. by rewrite IH.
Qed.

Lemma entries_insert els n e k v :
  Forall has_key els -> entry e = Some (k, v) ->
  entries_of (<[n := e]> els) = <[n := (k, v)]> (entries_of els).
Proof.
  intros Hk He. revert n. induction Hk as [|e0 els [k0 Hk] _ IH]; intros n; [by destruct n|].
  rewrite (entries_cons e0 els k0 _ (entry_key e0 k0 Hk)). destruct n as [|n].
  - exact (entries_cons e els k v He).
  - change (<[S n := e]> (e0 :: els)) with (e0 :: <[n := e]> els).
    rewrite (entries_cons e0 _ k0 _ (entry_key e0 k0 Hk)), IH. done.
Qed.

Lemma entries_with_next els n e j :
  els !! n = Some e -> entries_of (<[n := with_next e j]> els) = entries_of els.
Proof.
  revert n. induction els as [|e0 els IH]; intros [|n] He; try done; unfold entries_of in *.
  - by injection He as ->.
  - change (<[S n := with_next e j]> (e0 :: els)) with (e0 :: <[n := with_next e j]> els).
    cbn [omap list_omap]. by rewrite IH.
Qed.

Lemma entries_delete els n e :
  els !! n = Some e -> Forall has_key els ->
  entries_of (delete n els) = delete n (entries_of els).
Proof.
  intros He Hk. revert n He. induction Hk as [|e0 els [k0 Hk] _ IH]; intros n He; [done|].
  rewrite (entries_cons e0 els k0 _ (entry_key e0 k0 Hk)). destruct n as [|n]; [done|].
  change (delete (S n) (e0 :: els)) with (e0 :: delete n els).
  rewrite (entries_cons e0 _ k0 _ (entry_key e0 k0 Hk)), IH; done.
Qed.

Lemma entries_app els1 els2 : entries_of (els1 ++ els2) = entries_of els1 ++ entries_of (els2 : list elem).
Proof. apply omap_app. Qed.

Lemma find_pos_entries k els : Forall has_key els -> find_pos eq_val k els = b_find k (entries_of els).
Proof.
  induction 1 as [|e els [k0 Hk] _ IH]; [done|].
  rewrite (entries_cons e els k0 _ (entry_key e k0 Hk)). simpl.
  unfold key_is. rewrite Hk. by rewrite IH.
Qed.

Lemma b_find_lt k b n : b_find k b = Some n -> (n < length b)%nat.
Proof.
  revert n. induction b as [|kv b IH]; intros n; simpl; [done|].
  case_if; [intros [= <-]; lia|]. intros Hf. apply fmap_Some in Hf as (n' & Hn' & ->).
  apply IH in Hn'. lia.
Qed.

(** What the hash map promises of its buckets: valid keys, in the bucket of
    their hash code, no two equal. *)
Definition bucket_ok (cap : Z) (s : nat) b : Prop :=
  Forall (fun kv => is_valid_key_type kv.1 = true
                    /\ exists h, hash kv.1 = Some h /\ h mod cap = Z.of_nat s) b.

Definition uniq b : Prop :=
  forall i j kv kv', b !! i = Some kv -> b !! j = Some kv' -> eq_val kv.1 kv'.1 = true -> i = j.

Definition hm_rep m B : Prop :=
  (exists ch fl A, hm_wf m ch fl A /\ B = entries_of <$> A)
  /\ count m = blen (mjoin B) /\ extra_capacity m <= insert_at m + capacity_step m
  /\ (forall s b, B !! s = Some b -> bucket_ok (table_capacity m) s b /\ uniq b).

End Buckets.

(** ** Operations on buckets *)

Section Operations.
Context {K V : Type}.
Context (hash : K -> option Z) (eq_val : K -> K -> bool) (is_valid_key_type : K -> bool).
Context (eq_val_refl : forall k, eq_val k k = true).
Context (eq_val_sym : forall k1 k2, eq_val k1 k2 = true -> eq_val k2 k1 = true).
Context (eq_val_trans : forall k1 k2 k3, eq_val k1 k2 = true -> eq_val k2 k3 = true -> eq_val k1 k3 = true).
Abbreviation elem := (as_hashmap_element K V).
Abbreviation rep := (hm_rep hash eq_val is_valid_key_type).
Implicit Types (m : as_hashmap K V) (els : list elem) (e : elem) (idxs fl : list nat).
Implicit Types (b : list (K * option V)) (B : list (list (K * option V))) (k : K) (v : option V).

Lemma b_find_Some k b n :
  b_find eq_val k b = Some n -> exists kv, b !! n = Some kv /\ eq_val kv.1 k = true.
Proof.
  revert n. induction b as [|kv b IH]; intros n; simpl; [done|].
  case_if; [intros [= <-]; by exists kv|]. intros Hf. apply fmap_Some in Hf as (n' & Hn' & ->).
  by apply IH.
Qed.

Lemma b_find_None k b kv : b_find eq_val k b = None -> kv ∈ b -> eq_val kv.1 k = false.
Proof.
  induction b as [|kv' b IH]; simpl; intros Hf Hin; [by apply not_elem_of_nil in Hin|].
  destruct (eq_val kv'.1 k) eqn:E; [done|]. apply fmap_None in Hf.
  apply elem_of_cons in Hin as [->|Hin]; [done|by apply IH].
Qed.

Lemma bset_uniq k v b : uniq eq_val b -> uniq eq_val (bset eq_val k v b).
Proof.
  intros Hu. unfold bset. destruct (b_find eq_val k b) as [n|] eqn:Ef.
  - destruct (b_find_Some _ _ _ Ef) as (kv & Hn & Heq).
    intros i j kv1 kv2 H1 H2 H12.
    apply list_lookup_insert_Some in H1 as [(<- & <- & _)|[Hne1 H1]];
    apply list_lookup_insert_Some in H2 as [(<- & <- & _)|[Hne2 H2]]; simpl in *.
    + done.
    + apply (Hu n j kv kv2); eauto.
    + apply (Hu i n kv1 kv); eauto.
    + by apply (Hu i j kv1 kv2).
  - intros i j kv1 kv2 H1 H2 H12.
    apply lookup_app_Some in H1 as [H1|[Hge1 H1]]; apply lookup_app_Some in H2 as [H2|[Hge2 H2]].
    + by apply (Hu i j kv1 kv2).
    + apply list_lookup_singleton_Some in H2 as [_ <-].
      apply list_elem_of_lookup_2 in H1. simpl in H12. by rewrite (b_find_None k b kv1) in H12.
    + apply list_lookup_singleton_Some in H1 as [_ <-].
      apply list_elem_of_lookup_2 in H2. simpl in H12. apply eq_val_sym in H12.
      by rewrite (b_find_None k b kv2) in H12.
    + apply lookup_lt_Some in H1, H2. simpl in *. lia.
Qed.

Lemma bremove_uniq k b : uniq eq_val b -> uniq eq_val (bremove eq_val k b).
Proof.
  intros Hu. unfold bremove. destruct (b_find eq_val k b) as [n|]; [|done].
  assert (forall i kv, delete n b !! i = Some kv ->
    b !! (if decide (i < n)%nat then i else S i) = Some kv) as Hd.
  { intros i kv Hi. case_decide.
    - by rewrite list_lookup_delete_lt in Hi.
    - by rewrite list_lookup_delete_ge in Hi by lia. }
  intros i j kv1 kv2 H1 H2 H12. apply Hd in H1, H2.
  pose proof (Hu _ _ _ _ H1 H2 H12). repeat case_decide; lia.
Qed.

Lemma bset_ok cap s k v b h :
  bucket_ok hash is_valid_key_type cap s b -> is_valid_key_type k = true -> hash k = Some h ->
  h mod cap = Z.of_nat s -> bucket_ok hash is_valid_key_type cap s (bset eq_val k v b).
Proof.
  intros Hb Hv Hh Hs. unfold bset. destruct (b_find eq_val k b).
  - apply Forall_insert; [done|]. eauto.
  - apply Forall_app. split; [done|]. apply Forall_singleton. eauto.
Qed.

Lemma bremove_ok cap s k b :
  bucket_ok hash is_valid_key_type cap s b -> bucket_ok hash is_valid_key_type cap s (bremove eq_val k b).
Proof.
  intros Hb. unfold bremove. destruct (b_find eq_val k b); [|done].
  by apply Forall_delete.
Qed.

(** *** Finding the bucket of a key *)

(** The bucket of hash code [h]: its slots [idxs] and its elements [els]. *)
Definition at_bucket m B h ch fl (A : list (list elem)) idxs els (s : nat) : Prop :=
  h mod table_capacity m = Z.of_nat s /\ hm_wf m ch fl A /\ B = entries_of <$> A
  /\ ch !! s = Some idxs /\ A !! s = Some els /\ B !! s = Some (entries_of els)
  /\ slot_ok (table m) (ex_of m) s idxs els /\ (length idxs < chain_fuel m)%nat.

Lemma rep_bucket m B h :
  rep m B -> exists ch fl A idxs els s, at_bucket m B h ch fl A idxs els s.
Proof.
  intros ((ch & fl & A & Hwf & ->) & _). pose proof Hwf as [Hc (Ht & Htc & _ & Hx & _)].
  pose proof (Z.mod_pos_bound h (table_capacity m) ltac:(lia)) as Hm.
  set (s := Z.to_nat (h mod table_capacity m)).
  destruct (lookup_lt_is_Some_2 ch s) as [idxs Hs]; [destruct Hc; unfold s; lia|].
  destruct (wf_slot m ch fl A s idxs Hwf Hs) as (els & HA & Hslot & Hlt).
  exists ch, fl, A, idxs, els, s.
  split; [unfold s; lia|]. do 2 (split; [done|]). split; [done|]. split; [done|].
  split; [by rewrite list_lookup_fmap, HA|]. split; [done|].
  destruct (wf_disjoint m ch fl A s idxs Hwf Hs) as (Hnd & _ & _ & Hr).
  unfold chain_fuel. fold (ex_of m).
  assert (length idxs <= Z.to_nat (insert_at m - 1))%nat as Hle.
  { rewrite <- (length_seq (Z.to_nat (insert_at m - 1)) 1). apply submseteq_length.
    apply NoDup_submseteq; [done|]. intros j Hj. apply elem_of_seq. apply Hr in Hj. lia. }
  pose proof (c_ins _ _ _ _ _ _ _ Hc). pose proof (c_bound _ _ _ _ _ _ _ Hc). lia.
Qed.

(** A slot whose first element has a key has only elements with keys. *)
Lemma slot_keys t ex s idxs els e :
  slot_ok t ex s idxs els -> t !! s = Some e -> has_key (K := K) (V := V) e -> Forall has_key els.
Proof.
  intros (_ & Ht & _ & Htl) He Hk. destruct els as [|e0 els]; [done|].
  rewrite He in Ht. injection Ht as <-. by constructor.
Qed.

Lemma get_ok m B k h :
  rep m B -> is_valid_key_type k = true -> hash k = Some h ->
  as_hashmap_get hash eq_val is_valid_key_type m (Some k)
  = Some (b ← B !! Z.to_nat (h mod table_capacity m); bget eq_val k b).
Proof.
  intros Hrep Hv Hh.
  destruct (rep_bucket m B h Hrep) as (ch & fl & A & idxs & els & s & Hs & Hwf & -> & Hch & HA & HB & Hslot & Hfuel).
  unfold as_hashmap_get. rewrite Hv, Hh. cbn [negb mbind option_bind]. rewrite Hs, get_table, Nat2Z.id, HB.
  pose proof Hslot as (Hlk & Ht & Hnk & Htl). destruct els as [|e els]; [by destruct Hlk|].
  change ((e :: els) !! 0%nat) with (Some e) in Ht. rewrite Ht. cbn [mbind option_bind].
  destruct (p_key e) as [ek|] eqn:Ek.
  - assert (Forall has_key (e :: els)) as Hall by (eapply slot_keys; [done..|by eexists]).
    rewrite (find_chain_ok eq_val m k _ _ idxs (e :: els)); [|done|by rewrite get_table|done|done].
    rewrite (find_pos_entries eq_val) by done. cbn [mbind option_bind].
    unfold bget. destruct (b_find eq_val k (entries_of (e :: els))) as [n|] eqn:Ef; [|done].
    cbn [mbind option_bind]. pose proof (b_find_lt _ _ _ _ Ef) as Hn.
    rewrite entries_length in Hn by done. destruct Hlk as [Hlen _].
    rewrite (get_ptr m s idxs (e :: els)) by (done || simpl in *; lia).
    rewrite entries_lookup by done.
    destruct (lookup_lt_is_Some_2 (e :: els) n Hn) as [en Hen]. rewrite Hen. cbn [mbind option_bind].
    destruct (proj1 (Forall_lookup _ _) Hall n en Hen) as [kn Hkn]. by rewrite (entry_key en kn Hkn).
  - rewrite entries_skip by done.
    assert (els = []) as -> by (destruct Hlk as [Hl _]; rewrite (Hnk e eq_refl Ek) in Hl; by destruct els).
    done.
Qed.

(** *** Set *)

Lemma join_length {X} (c : list (list X)) s (l x : list X) :
  c !! s = Some l -> (length (mjoin (<[s := x]> c)) + length l = length (mjoin c) + length x)%nat.
Proof.
  intros Hs. rewrite (Permutation_length (join_insert c s l x Hs)).
  rewrite (Permutation_length (join_delete c s l Hs)), !length_app. lia.
Qed.

Lemma rep_update m m' B s b b' ch' fl' A' :
  rep m B -> B !! s = Some b ->
  hm_wf m' ch' fl' A' -> entries_of <$> A' = <[s := b']> B -> table_capacity m' = table_capacity m ->
  count m' = count m + blen b' - blen b -> extra_capacity m' <= insert_at m' + capacity_step m' ->
  bucket_ok hash is_valid_key_type (table_capacity m) s b' -> uniq eq_val b' ->
  rep m' (<[s := b']> B).
Proof.
  intros (_ & Hc & _ & Hb) Hs Hwf HA Htc Hcount Hex Hok Hu. split; [|split; [|split; [done|]]].
  - exists ch', fl', A'. by split.
  - pose proof (join_length B s b b' Hs). lia.
  - intros s' b1 H1. rewrite Htc. destruct (decide (s' = s)) as [->|Hne].
    + rewrite list_lookup_insert_eq in H1 by (by eapply lookup_lt_Some). by injection H1 as <-.
    + rewrite list_lookup_insert_ne in H1 by done. by apply Hb.
Qed.

Lemma hm_wf_count m n ch fl A : hm_wf m ch fl A -> hm_wf (with_count m n) ch fl A.
Proof. done. Qed.

(** What a set needs of the sizes: the 32-bit counters do not wrap. *)
Definition set_fits m : Prop := count m + 1 < 2 ^ 32 /\ insert_at m + 2 * capacity_step m < 2 ^ 32.

(** What a set promises of the bucket. *)
Definition set_result m B k v s els (r : option (hm_result K V)) : Prop :=
  exists m', r = Some (0, m', bold eq_val k (entries_of els))
    /\ rep m' (<[s := bset eq_val k v (entries_of els)]> B) /\ same_shape m m'
    /\ insert_at m' <= insert_at m + 1 /\ count m' <= count m + 1.

Lemma set_replace m B k v h ch fl A idxs els s n :
  rep m B -> at_bucket m B h ch fl A idxs els s -> Forall has_key els ->
  is_valid_key_type k = true -> hash k = Some h ->
  b_find eq_val k (entries_of els) = Some n ->
  set_result m B k v s els
    (e ← get_elem m (ptr_at (InTable (Z.of_nat s)) idxs n);
     m ← set_elem m (ptr_at (InTable (Z.of_nat s)) idxs n) (mk_element (Some k) v (next e));
     Some (0, m, dropped e)).
Proof.
  intros Hrep (Hs & Hwf & HBA & Hch & HA & HB & Hslot & Hfuel) Hall Hv Hh Ef.
  pose proof Hrep as (_ & _ & Hxi & Hbk). destruct (Hbk s _ HB) as [Hok Hu].
  pose proof (bset_ok _ s k v _ h Hok Hv Hh Hs) as Hok'. pose proof (bset_uniq k v _ Hu) as Hu'.
  pose proof (b_find_lt _ _ _ _ Ef) as Hn. rewrite entries_length in Hn by done.
  destruct (lookup_lt_is_Some_2 els n Hn) as [en Hen]. pose proof Hslot as ((Hlen & _) & _).
  rewrite (get_ptr m s idxs els) by (done || lia). rewrite Hen. cbn [mbind option_bind].
  destruct (wf_overwrite m ch fl A s idxs els n en (mk_element (Some k) v (next en)) Hwf Hch HA Hen)
    as (m' & -> & Hwf' & Hc' & Htc' & Hst' & Hx' & Hi'); [done|by eexists|].
  destruct (proj1 (Forall_lookup _ _) Hall n en Hen) as [kn Hkn].
  exists m'. unfold bold, bset in *. rewrite Ef in *. split; [|split; [|split; [by split|lia]]].
  - cbn [mbind option_bind]. rewrite entries_lookup, Hen by done.
    cbn [mbind option_bind]. unfold dropped. by rewrite (entry_key en kn Hkn), Hkn.
  - eapply (rep_update m m' B s); [done|done|exact Hwf'| |done| |lia|done|done].
    + by rewrite list_fmap_insert, HBA, (entries_insert _ _ _ k v).
    + rewrite length_insert. lia.
Qed.

Lemma set_append m B k v h ch fl A idxs els s :
  rep m B -> at_bucket m B h ch fl A idxs els s -> Forall has_key els ->
  is_valid_key_type k = true -> hash k = Some h -> set_fits m ->
  b_find eq_val k (entries_of els) = None ->
  let p := ptr_at (InTable (Z.of_nat s)) idxs (length idxs) in
  set_result m B k v s els (set_at_end true m k v p).
Proof.
  intros Hrep (Hs & Hwf & HBA & Hch & HA & HB & Hslot & Hfuel) Hall Hv Hh [Hfc Hfi] Ef p.
  pose proof Hrep as (_ & Hcount & Hxi & Hbk). destruct (Hbk s _ HB) as [Hok Hu].
  pose proof (bset_ok _ s k v _ h Hok Hv Hh Hs) as Hok'. pose proof (bset_uniq k v _ Hu) as Hu'.
  pose proof Hwf as [Hc (Htl' & Htc & Hst & Hx & Hxb)]. pose proof (c_ins _ _ _ _ _ _ _ Hc) as Hins.
  assert (u32 (count m + 1) = count m + 1) as Hu32 by (rewrite u32_id; unfold is_u32; lia).
  pose proof Hslot as ((Hlen & _) & _). unfold set_at_end, set_result, p, bset, bold in *. rewrite Ef in *.
  destruct (lookup_lt_is_Some_2 els (length idxs)) as [prev Hprev]; [lia|].
  rewrite (get_ptr m s idxs els) by done. rewrite Hprev. cbn [mbind option_bind].
  assert (has_key prev) as Hkp by (by apply (proj1 (Forall_lookup _ _) Hall (length idxs))).
  assert (forall j, entries_of <$> <[s := <[length idxs := with_next prev (Z.of_nat j)]> els
            ++ [mk_element (Some k) v 0]]> A = <[s := entries_of els ++ [(k, v)]]> B) as HA'.
  { intros j. rewrite list_fmap_insert, HBA, entries_app, entries_with_next by done.
    by rewrite (entries_cons _ [] k v). }
  destruct (free_q m =? 0) eqn:Efq; reflect_Z; cbn [negb].
  - destruct (wf_append_new m ch fl A s idxs els prev k v Hwf Hch HA Hprev Hkp Efq)
      as (m1 & m2 & ez & m3 & j & -> & Hg & Hget & Hset & Hwf' & Hc' & [Hsh1 Hsh2] & Hi3 & Hi' & Hx'); [lia|].
    cbn [mbind option_bind]. rewrite Hg. cbn [mbind option_bind]. rewrite Hget.
    cbn [mbind option_bind]. rewrite Hset. eexists. split; [done|].
    split; [|split; [by split|simpl; lia]].
    eapply (rep_update m _ B s); [done|done|exact Hwf'|apply HA'|done| | |done|done].
    + simpl. rewrite length_app. simpl. lia.
    + simpl. lia.
  - destruct (wf_append_free (with_count m (u32 (count m + 1))) ch fl A s idxs els prev k v
      (hm_wf_count _ _ _ _ _ Hwf) Hch HA Hprev Hkp Efq)
      as (m1 & m2 & fe & j & fl' & Hset & Hget & Hset2 & Hwf' & Hc' & [Hsh1 Hsh2] & Hi' & Hx').
    simpl free_q in Hset, Hget, Hset2. rewrite Hset. cbn [mbind option_bind]. rewrite Hget.
    cbn [mbind option_bind]. rewrite Hset2. eexists. split; [done|].
    simpl in Hi', Hx', Hc', Hsh1, Hsh2. split; [|split; [by split|lia]].
    eapply (rep_update m _ B s); [done|done|exact Hwf'|apply HA'|done| | |done|done].
    + rewrite length_app. simpl. lia.
    + lia.
Qed.

Lemma set_empty m B k v h ch fl A idxs els s e :
  rep m B -> at_bucket m B h ch fl A idxs els s -> table m !! s = Some e -> no_key e ->
  is_valid_key_type k = true -> hash k = Some h -> set_fits m ->
  set_result m B k v s els
    (m ← set_elem (with_count m (u32 (count m + 1))) (InTable (Z.of_nat s)) (mk_element (Some k) v (next e));
     Some (0, m, [])).
Proof.
  intros Hrep (Hs & Hwf & HBA & Hch & HA & HB & Hslot & Hfuel) Ht Ek Hv Hh [Hfc Hfi].
  pose proof Hrep as (_ & Hcount & Hxi & Hbk). destruct (Hbk s _ HB) as [Hok Hu].
  pose proof (bset_ok _ s k v _ h Hok Hv Hh Hs) as Hok'. pose proof (bset_uniq k v _ Hu) as Hu'.
  assert (u32 (count m + 1) = count m + 1) as Hu32 by (rewrite u32_id; unfold is_u32; lia).
  destruct (wf_fill (with_count m (u32 (count m + 1))) ch fl A s idxs e k v
    (hm_wf_count _ _ _ _ _ Hwf) Hch Ht Ek) as (m' & -> & Hwf' & HAe & Hc' & [Hsh1 Hsh2] & Hi' & Hx').
  cbn [mbind option_bind]. rewrite HA in HAe. injection HAe as ->.
  simpl in Hi', Hx', Hc', Hsh1, Hsh2. unfold set_result. rewrite entries_skip in * by done.
  eexists. split; [done|]. split; [|split; [by split|lia]].
  eapply (rep_update m _ B s); [done|done|exact Hwf'| |done| | |done|done].
  - by rewrite list_fmap_insert, HBA, (entries_cons _ [] k v).
  - simpl. lia.
  - lia.
Qed.

Lemma set_ok m B k v h :
  rep m B -> is_valid_key_type k = true -> hash k = Some h -> set_fits m ->
  exists s els, B !! s = Some (entries_of els) /\ h mod table_capacity m = Z.of_nat s
    /\ set_result m B k v s els (as_hashmap_set hash eq_val is_valid_key_type true m (Some k) v).
Proof.
  intros Hrep Hv Hh Hfit.
  destruct (rep_bucket m B h Hrep) as (ch & fl & A & idxs & els & s & Hb).
  pose proof Hb as (Hs & Hwf & HBA & Hch & HA & HB & Hslot & Hfuel).
  exists s, els. split; [done|]. split; [done|].
  unfold as_hashmap_set. rewrite Hv, Hh. cbn [negb mbind option_bind]. rewrite Hs, get_table.
  pose proof Hslot as (Hlk & Ht & _). destruct els as [|e els]; [by destruct Hlk|].
  change ((e :: els) !! 0%nat) with (Some e) in Ht. rewrite Ht. cbn [mbind option_bind].
  destruct (p_key e) as [ek|] eqn:Ek; [|by eapply set_empty].
  assert (Forall has_key (e :: els)) as Hall by (eapply slot_keys; [done..|by eexists]).
  rewrite (find_chain_ok eq_val m k _ _ idxs (e :: els)); [|done|by rewrite get_table|done|done].
  rewrite (find_pos_entries eq_val) by done. cbn [mbind option_bind].
  destruct (b_find eq_val k (entries_of (e :: els))) as [n|] eqn:Ef.
  - by eapply set_replace.
  - by eapply set_append.
Qed.

(** *** Remove *)

Definition remove_result m B k s els (r : option (hm_result K V)) : Prop :=
  exists m', r = Some (0, m', bold eq_val k (entries_of els))
    /\ rep m' (<[s := bremove eq_val k (entries_of els)]> B) /\ same_shape m m'
    /\ insert_at m' = insert_at m /\ count m' <= count m.

Lemma count_pos m B s els kv :
  rep m B -> B !! s = Some (entries_of els) -> kv ∈ entries_of els -> 0 < count m.
Proof.
  intros (_ & -> & _) Hs Hin. rewrite (Permutation_length (join_delete B s _ Hs)), length_app.
  destruct (entries_of els); [by apply not_elem_of_nil in Hin|]. simpl. lia.
Qed.

Lemma bremove_at k els n e ch' fl' A' m m' B s :
  rep m B -> count m < 2 ^ 32 -> B !! s = Some (entries_of els) -> Forall has_key els ->
  b_find eq_val k (entries_of els) = Some n -> els !! n = Some e ->
  hm_wf m' ch' fl' A' -> entries_of <$> A' = <[s := delete n (entries_of els)]> B ->
  same_shape m m' -> count m' = u32 (count m - 1) -> insert_at m' = insert_at m ->
  extra_capacity m' = extra_capacity m ->
  remove_result m B k s els (Some (0, m', dropped e)).
Proof.
  intros Hrep Hc32 HB Hall Ef He Hwf' HA' [Hsh1 Hsh2] Hc' Hi' Hx'.
  pose proof Hrep as (_ & Hcount & Hxi & Hbk). destruct (Hbk s _ HB) as [Hok Hu].
  pose proof (bremove_ok _ s k _ Hok) as Hok'. pose proof (bremove_uniq k _ Hu) as Hu'.
  destruct (proj1 (Forall_lookup _ _) Hall n e He) as [kn Hkn].
  assert (entries_of els !! n = Some (kn, p_val e)) as Hn.
  { rewrite entries_lookup, He by done. by apply entry_key. }
  assert (0 < count m) as Hpos.
  { eapply (count_pos m B s els (kn, p_val e)); [done..|]. by eapply list_elem_of_lookup_2. }
  rewrite u32_id in Hc' by (unfold is_u32; lia).
  exists m'. unfold bold, bremove in *. rewrite Ef in *. split; [|split; [|split; [by split|lia]]].
  - cbn [mbind option_bind]. rewrite Hn. unfold dropped. by rewrite Hkn.
  - eapply (rep_update m m' B s); [done|done|exact Hwf'|done|done| |lia|done|done].
    rewrite length_delete by (by eexists). pose proof (lookup_lt_Some _ _ _ Hn). lia.
Qed.

(** Removing the element of the table slot, the first of its chain. *)
Lemma remove_head m B k h ch fl A idxs e els s :
  rep m B -> count m < 2 ^ 32 -> at_bucket m B h ch fl A idxs (e :: els) s -> Forall has_key (e :: els) ->
  key_is eq_val k e = true ->
  remove_result m B k s (e :: els)
    (let m := with_count m (u32 (count m - 1)) in
     if next e =? 0 then
       m ← set_elem m (InTable (Z.of_nat s)) (mk_element None None (next e));
       Some (0, m, dropped e)
     else
       let free_i := next e in
       free_e ← get_elem m (InExtras free_i);
       m ← set_elem m (InTable (Z.of_nat s)) free_e;
       m ← set_elem m (InExtras free_i) (mk_element None None (free_q m));
       Some (0, with_free_q m free_i, dropped e)).
Proof.
  intros Hrep Hc32 (Hs & Hwf & HBA & Hch & HA & HB & Hslot & Hfuel) Hall Hk. cbv zeta.
  assert (b_find eq_val k (entries_of (e :: els)) = Some 0%nat) as Ef.
  { rewrite <- find_pos_entries by done. simpl. by rewrite Hk. }
  pose proof Hslot as (Hlk & Ht & _). change ((e :: els) !! 0%nat) with (Some e) in Ht.
  set (mc := with_count m _). assert (hm_wf mc ch fl A) as Hwfc by done.
  destruct (next e =? 0) eqn:En; reflect_Z.
  - destruct (wf_empty mc ch fl A s idxs e Hwfc Hch Ht En)
      as (m' & -> & Hwf' & HAe & Hc' & [Hsh1 Hsh2] & Hi' & Hx').
    rewrite HA in HAe. injection HAe as ->. cbn [mbind option_bind].
    eapply (bremove_at k [e] 0 e); try done.
    + rewrite list_fmap_insert, HBA. apply Forall_cons in Hall as [[k0 Hk0] _].
      by rewrite (entries_cons e [] k0 _ (entry_key e k0 Hk0)).
  - destruct (linked_first _ _ _ _ Hlk En) as (j & idxs' & e1 & es & -> & -> & Hj & Hpos & Hxj).
    rewrite Hj, get_extras. change (ex_of mc) with (ex_of m). rewrite Hxj. cbn [mbind option_bind].
    assert (has_key e1) as Hk1 by (apply (proj1 (Forall_lookup _ _) Hall 1%nat); done).
    destruct (wf_unlink mc ch fl A s (j :: idxs') (e :: e1 :: es) 0 j e1 e1 Hwfc Hch HA)
      as (m1 & m2 & Hset1 & Hset2 & Hwf' & Hc' & [Hsh1 Hsh2] & Hi' & Hx'); [done..|].
    simpl ptr_at in Hset1. rewrite Hset1. cbn [mbind option_bind]. rewrite Hset2. cbn [mbind option_bind].
    eapply (bremove_at k (e :: e1 :: es) 0 e); try done.
    rewrite list_fmap_insert, HBA. apply Forall_cons in Hall as [[k0 Hk0] _].
    by rewrite (entries_cons e _ k0 _ (entry_key e k0 Hk0)).
Qed.

(** Removing an element further down the chain. *)
Lemma remove_inner m B k h ch fl A idxs els s n e :
  rep m B -> count m < 2 ^ 32 -> at_bucket m B h ch fl A idxs els s -> Forall has_key els ->
  b_find eq_val k (entries_of els) = Some (S n) -> els !! S n = Some e ->
  remove_result m B k s els
    (pe ← get_elem m (ptr_at (InTable (Z.of_nat s)) idxs n);
     e ← get_elem m (InExtras (Z.of_nat (nth n idxs 0%nat)));
     let m := with_count m (u32 (count m - 1)) in
     m ← set_elem m (ptr_at (InTable (Z.of_nat s)) idxs n) (mk_element (p_key pe) (p_val pe) (next e));
     m ← set_elem m (InExtras (Z.of_nat (nth n idxs 0%nat))) (mk_element None None (free_q m));
     Some (0, with_free_q m (Z.of_nat (nth n idxs 0%nat)), dropped e)).
Proof.
  intros Hrep Hc32 (Hs & Hwf & HBA & Hch & HA & HB & Hslot & Hfuel) Hall Ef He.
  pose proof Hslot as ((Hlen & Hnx & Hx) & _). pose proof (lookup_lt_Some _ _ _ He) as Hlt.
  destruct (lookup_lt_is_Some_2 idxs n) as [j Hj]; [lia|]. destruct (Hx n j Hj) as [_ Hxj].
  destruct (lookup_lt_is_Some_2 els n) as [pe Hpe]; [lia|].
  rewrite (get_ptr m s idxs els) by (done || lia). rewrite Hpe. cbn [mbind option_bind].
  rewrite (nth_lookup_Some _ _ _ _ Hj), get_extras, Hxj, He. cbn [mbind option_bind]. cbv zeta.
  set (mc := with_count m _). assert (hm_wf mc ch fl A) as Hwfc by done.
  assert (has_key pe) as Hkp by (by apply (proj1 (Forall_lookup _ _) Hall n)).
  destruct (wf_unlink mc ch fl A s idxs els n j e (with_next pe (next e)) Hwfc Hch HA Hj He)
    as (m1 & m2 & Hset1 & Hset2 & Hwf' & Hc' & [Hsh1 Hsh2] & Hi' & Hx'); [done|by destruct Hkp as [k0 ?]; exists k0|].
  fold (with_next pe (next e)). rewrite Hset1. cbn [mbind option_bind]. rewrite Hset2. cbn [mbind option_bind].
  eapply (bremove_at k els (S n) e); try done.
  rewrite list_fmap_insert, HBA, (entries_delete _ _ e).
  - by rewrite entries_with_next.
  - by rewrite list_lookup_insert_ne.
  - apply Forall_insert; [done|]. destruct Hkp as [k0 ?]. by exists k0.
Qed.

Lemma remove_ok m B k h :
  rep m B -> is_valid_key_type k = true -> hash k = Some h -> count m < 2 ^ 32 ->
  exists s els, B !! s = Some (entries_of els) /\ h mod table_capacity m = Z.of_nat s
    /\ remove_result m B k s els (as_hashmap_remove hash eq_val is_valid_key_type m (Some k)).
Proof.
  intros Hrep Hv Hh Hfit. destruct (rep_bucket m B h Hrep) as (ch & fl & A & idxs & els & s & Hb).
  pose proof Hb as (Hs & Hwf & HBA & Hch & HA & HB & Hslot & Hfuel).
  exists s, els. split; [done|]. split; [done|].
  assert (b_find eq_val k (entries_of els) = None -> remove_result m B k s els (Some (0, m, []))) as Hmiss.
  { intros Ef. exists m. unfold bold, bremove. rewrite Ef. split; [done|]. by rewrite list_insert_id. }
  unfold as_hashmap_remove. rewrite Hv, Hh. cbn [negb mbind option_bind]. rewrite Hs, get_table.
  pose proof Hslot as (Hlk & Ht & Hnk & Htl). destruct els as [|e els]; [by destruct Hlk|].
  change ((e :: els) !! 0%nat) with (Some e) in Ht. rewrite Ht. cbn [mbind option_bind].
  destruct (p_key e) as [ek|] eqn:Ek.
  2:{ apply Hmiss. rewrite entries_skip by done.
      assert (els = []) as -> by (destruct Hlk as [Hl _]; rewrite (Hnk e eq_refl Ek) in Hl; by destruct els).
      done. }
  assert (Forall has_key (e :: els)) as Hall by (eapply slot_keys; [done..|by eexists]).
  destruct (eq_val ek k) eqn:Eeq.
  { eapply remove_head; try done. unfold key_is. by rewrite Ek. }
  rewrite (find_prev_ok eq_val m k _ _ idxs (e :: els)); [|done|by rewrite get_table|done|done].
  cbn [mbind option_bind]. simpl tail. rewrite find_pos_entries by done.
  assert (b_find eq_val k (entries_of (e :: els)) = S <$> b_find eq_val k (entries_of els)) as Ef.
  { rewrite (entries_cons e els ek _ (entry_key e ek Ek)). simpl. by rewrite Eeq. }
  destruct (b_find eq_val k (entries_of els)) as [n|] eqn:Ef'; [|by apply Hmiss].
  pose proof (b_find_lt _ _ _ _ Ef') as Hn. rewrite entries_length in Hn by done.
  destruct (lookup_lt_is_Some_2 els n Hn) as [en Hen]. by eapply remove_inner.
Qed.

(** ** The abstract map

    A list of entries, in no particular order.  Setting a key replaces the
    entries with an equal key. *)

Definition matching k (l : list (K * option V)) : list (K * option V) :=
  filter (fun kv => eq_val kv.1 k = true) l.
Definition others k (l : list (K * option V)) : list (K * option V) :=
  filter (fun kv => eq_val kv.1 k = false) l.

Lemma uniq_cons kv b :
  uniq eq_val (kv :: b) -> uniq eq_val b /\ Forall (fun kv' => eq_val kv.1 kv'.1 = false) b.
Proof.
  intros Hu. split.
  - intros i j kv1 kv2 H1 H2 H12. by injection (Hu (S i) (S j) kv1 kv2 H1 H2 H12).
  - apply Forall_lookup. intros i kv' Hi. destruct (eq_val kv.1 kv'.1) eqn:E; [|done].
    by specialize (Hu 0%nat (S i) kv kv' eq_refl Hi E).
Qed.

Lemma matching_none k b : Forall (fun kv => eq_val kv.1 k = false) b -> matching k b = [] /\ others k b = b.
Proof.
  unfold matching, others. induction 1 as [|kv b Hkv _ [IH1 IH2]]; [done|].
  rewrite filter_cons_False by congruence. rewrite filter_cons_True by done. by rewrite IH2.
Qed.

Lemma b_find_matching k b :
  uniq eq_val b ->
  bold eq_val k b = matching k b /\ bremove eq_val k b = others k b
  /\ forall v, bset eq_val k v b ≡ₚ (k, v) :: others k b.
Proof.
  unfold bold, bremove, bset, matching, others.
  induction b as [|kv b IH]; intros Hu; [done|]. apply uniq_cons in Hu as [Hu Hne]. simpl b_find.
  destruct (eq_val kv.1 k) eqn:E.
  - assert (Forall (fun kv' => eq_val kv'.1 k = false) b) as Hn.
    { eapply Forall_impl; [exact Hne|]. intros kv' Hkv'. simpl in *.
      destruct (eq_val kv'.1 k) eqn:E'; [|done].
      by rewrite (eq_val_trans kv.1 k kv'.1) in Hkv' by auto. }
    destruct (matching_none k b Hn) as [Hm Ho]. unfold matching, others in *.
    rewrite filter_cons_True, filter_cons_False by congruence. rewrite Hm, Ho. done.
  - specialize (IH Hu). rewrite filter_cons_False, filter_cons_True by congruence.
    destruct (b_find eq_val k b) as [n|]; simpl in *; destruct IH as (IH1 & IH2 & IH3).
    + split; [done|]. split; [by rewrite IH2|]. intros v. rewrite (IH3 v). solve_Permutation.
    + split; [done|]. split; [by rewrite <- IH2|]. intros v. rewrite (IH3 v). solve_Permutation.
Qed.

Lemma bget_matching k b :
  uniq eq_val b -> bget eq_val k b = head (matching k b) ≫= snd.
Proof.
  intros Hu. destruct (b_find_matching k b Hu) as [<- _]. unfold bget, bold.
  destruct (b_find eq_val k b) as [n|]; [|done]. simpl. by destruct (b !! n).
Qed.

Context (hash_eq : forall k1 k2, eq_val k1 k2 = true -> hash k1 = hash k2).

(** The entries of the other buckets have other keys. *)
Lemma other_buckets m B k h s :
  rep m B -> hash k = Some h -> h mod table_capacity m = Z.of_nat s ->
  matching k (mjoin (delete s B)) = [] /\ others k (mjoin (delete s B)) = mjoin (delete s B).
Proof.
  intros (_ & _ & _ & Hb) Hh Hs. apply matching_none, Forall_join, Forall_lookup.
  intros i b Hi. apply Forall_forall. intros kv Hin.
  destruct (eq_val kv.1 k) eqn:E; [|done]. exfalso. apply hash_eq in E.
  assert (exists i', i' <> s /\ B !! i' = Some b) as (i' & Hne & Hi').
  { destruct (decide (i < s)%nat).
    - rewrite list_lookup_delete_lt in Hi by done. exists i. split; [lia|done].
    - rewrite list_lookup_delete_ge in Hi by lia. exists (S i). split; [lia|done]. }
  destruct (Hb i' b Hi') as [Hok _]. unfold bucket_ok in Hok. rewrite Forall_forall in Hok.
  destruct (Hok kv Hin) as (_ & h' & Hh' & Hm). rewrite E, Hh in Hh'. injection Hh' as <-. lia.
Qed.

Lemma whole_map m B k h s b :
  rep m B -> hash k = Some h -> h mod table_capacity m = Z.of_nat s -> B !! s = Some b ->
  bold eq_val k b ≡ₚ matching k (mjoin B) /\ bget eq_val k b = head (matching k (mjoin B)) ≫= snd
  /\ mjoin (<[s := bremove eq_val k b]> B) ≡ₚ others k (mjoin B)
  /\ forall v, mjoin (<[s := bset eq_val k v b]> B) ≡ₚ (k, v) :: others k (mjoin B).
Proof.
  intros Hrep Hh Hs HB. destruct (other_buckets m B k h s Hrep Hh Hs) as [Hm Ho].
  pose proof Hrep as (_ & _ & _ & Hb). destruct (Hb s b HB) as [_ Hu].
  destruct (b_find_matching k b Hu) as (H1 & H2 & H3).
  assert (matching k (mjoin B) ≡ₚ matching k b) as Hmm.
  { unfold matching in *. by rewrite (join_delete B s b HB), filter_app, Hm, app_nil_r. }
  assert (others k (mjoin B) ≡ₚ others k b ++ mjoin (delete s B)) as Hoo.
  { unfold others in *. by rewrite (join_delete B s b HB), filter_app, Ho. }
  split; [by rewrite Hmm, H1|]. split; [|split].
  - rewrite bget_matching by done.
    assert (length (matching k b) <= 1)%nat as Hle.
    { rewrite <- H1. unfold bold. by destruct (b_find eq_val k b ≫= _); simpl; lia. }
    destruct (matching k b) as [|kv [|? ?]]; [| |simpl in Hle; lia].
    + apply Permutation_nil_r in Hmm. by rewrite Hmm.
    + apply Permutation_singleton_r in Hmm. by rewrite Hmm.
  - by rewrite (join_insert B s b) by done; rewrite Hoo, H2.
  - intros v. rewrite (join_insert B s b) by done. by rewrite Hoo, (H3 v).
Qed.

End Operations.

(** ** Visiting all the elements *)

Section Visits.
Context {K V : Type}.
Abbreviation elem := (as_hashmap_element K V).
Implicit Types (m : as_hashmap K V) (t ex els : list elem) (e : elem) (idxs fl : list nat).

(** The entries in the order of the arrays. *)
Definition hm_entries m : list (K * option V) :=
  entries_of (table m) ++ entries_of (take (Z.to_nat (insert_at m - 1)) (drop 1 (ex_of m))).

Lemma linked_tail_els ex idxs e es : linked ex idxs (e :: es) -> es = omap (ex !!.) idxs.
Proof.
  revert e es. induction idxs as [|j idxs IH]; intros e es Hl; pose proof Hl as (Hlen & Hn & Hx).
  - by destruct es.
  - destruct es as [|e1 es]; [done|]. destruct (Hx 0%nat j eq_refl) as [_ Hj].
    change ((e :: e1 :: es) !! 1%nat) with (Some e1) in Hj. cbn [omap list_omap]. rewrite Hj.
    f_equal. by eapply IH, linked_tail.
Qed.

Lemma slots_join t ex ch (A : list (list elem)) :
  length ch = length t -> length A = length t ->
  (forall s idxs els, ch !! s = Some idxs -> A !! s = Some els -> slot_ok t ex s idxs els) ->
  mjoin A ≡ₚ t ++ omap (ex !!.) (mjoin ch).
Proof.
  revert ch A. induction t as [|e t IH]; intros [|idxs ch] [|els A] Hlc HlA Hslot; try done.
  destruct (Hslot 0%nat idxs els eq_refl eq_refl) as (Hlk & Ht & _).
  destruct els as [|e0 els]; [done|]. injection Ht as <-.
  simpl. rewrite omap_app, (linked_tail_els _ _ _ _ Hlk), (IH ch A); [solve_Permutation|..].
  - by injection Hlc.
  - by injection HlA.
  - intros s idxs1 els1 H1 H2. by destruct (Hslot (S s) idxs1 els1 H1 H2).
Qed.

Lemma omap_seq ex (n i : nat) :
  (i + n <= length ex)%nat -> omap (ex !!.) (seq i n) = take n (drop i ex).
Proof.
  revert i. induction n as [|n IH]; intros i Hle; [done|].
  destruct (lookup_lt_is_Some_2 ex i) as [e He]; [lia|].
  cbn [seq omap list_omap]. rewrite He, (drop_S ex e i He). simpl. f_equal. apply IH. lia.
Qed.

Lemma entries_no_key els : Forall no_key els -> entries_of els = [].
Proof. induction 1; [done|]. by rewrite entries_skip. Qed.

Lemma entries_join (A : list (list elem)) : entries_of (mjoin A) = mjoin (entries_of <$> A).
Proof. induction A as [|els A IH]; [done|]. simpl. by rewrite entries_app, IH. Qed.

Lemma wf_bounds m ch fl A :
  hm_wf m ch fl A ->
  blen (table m) = table_capacity m /\ 1 <= insert_at m
  /\ ((1 + Z.to_nat (insert_at m - 1) <= length (ex_of m))%nat \/ insert_at m = 1).
Proof.
  intros [Hc (Ht & Htc & Hst & Hx & Hxb)].
  pose proof (c_ins _ _ _ _ _ _ _ Hc). pose proof (c_bound _ _ _ _ _ _ _ Hc).
  split; [done|]. split; [done|]. lia.
Qed.

Lemma wf_entries m ch fl A : hm_wf m ch fl A -> hm_entries m ≡ₚ mjoin (entries_of <$> A).
Proof.
  intros Hwf. pose proof (wf_bounds m ch fl A Hwf) as (_ & Hi & Hb). pose proof Hwf as [Hc _].
  rewrite <- entries_join. unfold entries_of.
  rewrite (slots_join _ _ _ _ (c_len_ch _ _ _ _ _ _ _ Hc) (c_len_A _ _ _ _ _ _ _ Hc) (c_slots _ _ _ _ _ _ _ Hc)).
  rewrite omap_app. unfold hm_entries, entries_of.
  f_equiv.
  replace (take (Z.to_nat (insert_at m - 1)) (drop 1 (ex_of m)))
    with (omap (ex_of m !!.) (seq 1 (Z.to_nat (insert_at m - 1)))).
  - rewrite <- (c_perm _ _ _ _ _ _ _ Hc), omap_app, omap_app.
    destruct (c_free _ _ _ _ _ _ _ Hc) as (fs & Hlk & Hno). rewrite <- (linked_tail_els _ _ _ _ Hlk).
    fold (entries_of fs). by rewrite (entries_no_key fs Hno), app_nil_r.
  - destruct Hb as [Hb| ->]; [by apply omap_seq|done].
Qed.

(** *** Loops over slots *)

Lemma slots_from_ok n els (i : nat) :
  (i + n <= length els)%nat -> slots_from n els (Z.of_nat i) = Some (take n (drop i els)).
Proof.
  revert i. induction n as [|n IH]; intros i Hle; [done|]. cbn [slots_from].
  destruct (lookup_lt_is_Some_2 els i) as [e He]; [lia|]. rewrite aget_lookup, He. cbn [mbind option_bind].
  replace (Z.of_nat i + 1) with (Z.of_nat (S i)) by lia. rewrite IH by lia.
  by rewrite (drop_S els e i He).
Qed.

Fixpoint foreach_entries {U} (cb : K -> option V -> U -> bool * U) (l : list (K * option V)) (u : U)
  : bool * U :=
  match l with
  | [] => (true, u)
  | (k, v) :: l =>
      let '(go, u) := cb k v u in if (go : bool) then foreach_entries cb l u else (false, u)
  end.

Lemma foreach_app {U} (cb : K -> option V -> U -> bool * U) l1 l2 u :
  foreach_entries cb (l1 ++ l2) u
  = let '(go, u) := foreach_entries cb l1 u in if (go : bool) then foreach_entries cb l2 u else (false, u).
Proof.
  revert u. induction l1 as [|[k v] l1 IH]; intros u; [done|]. simpl.
  destruct (cb k v u) as [[] u']; [apply IH|done].
Qed.

Lemma foreach_slots_ok {U} (cb : K -> option V -> U -> bool * U) n els (i : nat) u :
  (i + n <= length els)%nat ->
  foreach_slots cb n els (Z.of_nat i) u = Some (foreach_entries cb (entries_of (take n (drop i els))) u).
Proof.
  revert i u. induction n as [|n IH]; intros i u Hle; [done|]. cbn [foreach_slots].
  destruct (lookup_lt_is_Some_2 els i) as [e He]; [lia|]. rewrite aget_lookup, He. cbn [mbind option_bind].
  replace (Z.of_nat i + 1) with (Z.of_nat (S i)) by lia.
  rewrite (drop_S els e i He). simpl take. destruct (p_key e) as [k|] eqn:Ek.
  - rewrite (entries_cons e _ k _ (entry_key e k Ek)). simpl.
    destruct (cb k (p_val e) u) as [[] u']; [|done]. by rewrite IH by lia.
  - rewrite entries_skip by done. by rewrite IH by lia.
Qed.

Lemma wf_foreach {U} (cb : K -> option V -> U -> bool * U) m ch fl A u :
  hm_wf m ch fl A -> as_hashmap_foreach cb m u = Some (foreach_entries cb (hm_entries m) u).
Proof.
  intros Hwf. pose proof (wf_bounds m ch fl A Hwf) as (Ht & Hi & Hb).
  unfold as_hashmap_foreach, hm_entries. fold (ex_of m). change 0 with (Z.of_nat 0). change 1 with (Z.of_nat 1) at 2.
  rewrite foreach_slots_ok, drop_0, take_ge, foreach_app by lia. cbn [mbind option_bind].
  destruct (foreach_entries cb (entries_of (table m)) u) as [[] u']; [|done].
  destruct Hb as [Hb| ->]; [by rewrite foreach_slots_ok by lia|done].
Qed.

Lemma wf_visited m ch fl A :
  hm_wf m ch fl A -> exists es, visited m = Some es /\ mjoin (map dropped es) = hm_entries m.
Proof.
  intros Hwf. pose proof (wf_bounds m ch fl A Hwf) as (Ht & Hi & Hb). unfold visited, hm_entries.
  assert (forall els, mjoin (map dropped els) = entries_of els) as Hd.
  { induction els as [|e els IH]; [done|].
    change (mjoin (map dropped (e :: els))) with (dropped e ++ mjoin (map dropped els)). rewrite IH.
    unfold dropped. destruct (p_key e) as [k|] eqn:Ek; [|by rewrite entries_skip].
    by rewrite (entries_cons e _ k _ (entry_key e k Ek)). }
  fold (ex_of m). rewrite (slots_from_ok _ (table m) 0) by lia.
  rewrite drop_0, (take_ge (table m)) by lia. cbn [mbind option_bind].
  destruct Hb as [Hb| ->].
  - rewrite (slots_from_ok _ (ex_of m) 1) by lia. eexists. split; [done|]. by rewrite Hd, entries_app.
  - eexists. split; [done|]. rewrite Hd, entries_app. done.
Qed.

(** *** The iterator *)

Lemma seek_loop_ok n els (i : nat) :
  (i + n <= length els)%nat ->
  match entries_of (take n (drop i els)) with
  | [] => seek_loop n els (Z.of_nat i) = Some (None, Z.of_nat (i + n))
  | kv :: l => exists e (i' : nat), seek_loop n els (Z.of_nat i) = Some (Some e, Z.of_nat i')
      /\ entry e = Some kv /\ (i < i' <= i + n)%nat /\ entries_of (take (i + n - i') (drop i' els)) = l
  end.
Proof.
  revert i. induction n as [|n IH]; intros i Hle.
  { simpl. by rewrite Nat.add_0_r. }
  destruct (lookup_lt_is_Some_2 els i) as [e He]; [lia|].
  cbn [seek_loop]. rewrite aget_lookup, He, (drop_S els e i He). cbn [mbind option_bind take].
  replace (Z.of_nat i + 1) with (Z.of_nat (S i)) by lia. destruct (p_key e) as [k|] eqn:Ek.
  - rewrite (entries_cons e _ k _ (entry_key e k Ek)). exists e, (S i).
    split; [done|]. split; [by apply entry_key|]. split; [lia|].
    by replace (i + S n - S i)%nat with n by lia.
  - rewrite entries_skip by done. specialize (IH (S i)). destruct (entries_of _) as [|kv l].
    + rewrite IH by lia. do 3 f_equal. lia.
    + destruct IH as (e' & i' & -> & H1 & H2 & H3); [lia|]. exists e', i'. split; [done|].
      split; [done|]. split; [lia|]. by replace (i + S n - i')%nat with (S i + n - i')%nat by lia.
Qed.

(** The entries the iterator has still to give. *)
Definition it_rest m (tp xp : nat) : list (K * option V) :=
  entries_of (drop tp (table m)) ++ entries_of (take (Z.to_nat (insert_at m) - xp) (drop xp (ex_of m))).

Lemma seek_ok m ch fl A cnt (tp xp : nat) :
  hm_wf m ch fl A -> count m < 2 ^ 32 -> 0 <= cnt -> (tp <= length (table m))%nat ->
  (1 <= xp <= Z.to_nat (insert_at m))%nat -> cnt + blen (it_rest m tp xp) = count m ->
  match it_rest m tp xp with
  | [] => exists it, as_hashmap_iterator_seek (mk_iterator m None cnt (Z.of_nat tp) (Z.of_nat xp)) = Some (false, it)
  | kv :: l => exists e tp' xp',
      as_hashmap_iterator_seek (mk_iterator m None cnt (Z.of_nat tp) (Z.of_nat xp))
      = Some (true, mk_iterator m (Some e) (cnt + 1) (Z.of_nat tp') (Z.of_nat xp'))
      /\ entry e = Some kv /\ l = it_rest m tp' xp' /\ (tp' <= length (table m))%nat
      /\ (1 <= xp' <= Z.to_nat (insert_at m))%nat
  end.
Proof.
  intros Hwf Hc Hcnt Htp Hxp Hsum. pose proof (wf_bounds m ch fl A Hwf) as (Ht & Hi & Hb).
  unfold as_hashmap_iterator_seek. cbn [it_curr it_map it_count it_table_pos it_extras_pos].
  fold (ex_of m). destruct (it_rest m tp xp) as [|kv l] eqn:Er.
  { simpl in Hsum. rewrite (proj2 (Z.leb_le _ _)) by lia. by eexists. }
  simpl in Hsum. rewrite (proj2 (Z.leb_gt _ _)), u32_id by (unfold is_u32; lia).
  pose proof (seek_loop_ok (Z.to_nat (table_capacity m - Z.of_nat tp)) (table m) tp) as Hs.
  rewrite (take_ge (drop tp (table m))) in Hs by (rewrite length_drop; lia).
  unfold it_rest in Er. destruct (entries_of (drop tp (table m))) as [|kv' l'].
  - rewrite Hs by lia. cbn [mbind option_bind]. simpl in Er.
    destruct Hb as [Hb|Hb]; [|by replace (Z.to_nat (insert_at m) - xp)%nat with 0%nat in Er by lia].
    pose proof (seek_loop_ok (Z.to_nat (insert_at m - Z.of_nat xp)) (ex_of m) xp) as Hx.
    replace (Z.to_nat (insert_at m - Z.of_nat xp)) with (Z.to_nat (insert_at m) - xp)%nat in * by lia.
    rewrite Er in Hx. destruct Hx as (e & xp' & -> & He & Hxp' & Hl); [lia|]. cbn [mbind option_bind].
    eexists e, _, xp'. split; [done|]. split; [done|]. split; [|lia].
    unfold it_rest. rewrite (drop_ge (table m)) by lia. simpl. rewrite <- Hl. do 2 f_equal. lia.
  - injection Er as -> Hl. destruct Hs as (e & tp' & -> & He & Htp' & Hl'); [lia|]. cbn [mbind option_bind].
    exists e, tp', xp. split; [done|]. split; [done|]. split; [|lia].
    unfold it_rest. rewrite <- Hl, <- Hl'. rewrite take_ge by (rewrite length_drop; lia). done.
Qed.

(** What a client does with an iterator: next, as long as there is one. *)
Fixpoint drain (fuel : nat) (it : as_hashmap_iterator (K := K) (V := V))
  : option (list (option K * option V)) :=
  match fuel with
  | O => None
  | S fuel =>
      '(more, it) ← as_hashmap_iterator_has_next it;
      if (more : bool) then
        '(kv, it) ← as_hashmap_iterator_next it;
        kv ← kv;
        kvs ← drain fuel it;
        Some (kv :: kvs)
      else Some []
  end.

Lemma drain_ok m ch fl A fuel cnt (tp xp : nat) :
  hm_wf m ch fl A -> count m < 2 ^ 32 -> 0 <= cnt -> (tp <= length (table m))%nat ->
  (1 <= xp <= Z.to_nat (insert_at m))%nat -> cnt + blen (it_rest m tp xp) = count m ->
  (length (it_rest m tp xp) < fuel)%nat ->
  drain fuel (mk_iterator m None cnt (Z.of_nat tp) (Z.of_nat xp))
  = Some (prod_map Some id <$> it_rest m tp xp).
Proof.
  intros Hwf Hc. revert cnt tp xp. induction fuel as [|fuel IH]; intros cnt tp xp Hcnt Htp Hxp Hsum Hf; [lia|].
  cbn [drain]. unfold as_hashmap_iterator_has_next.
  pose proof (seek_ok m ch fl A cnt tp xp Hwf Hc Hcnt Htp Hxp Hsum) as Hs.
  destruct (it_rest m tp xp) as [|[k v] l].
  - by destruct Hs as [it ->].
  - destruct Hs as (e & tp' & xp' & -> & He & -> & Htp' & Hxp'). cbn [mbind option_bind].
    unfold as_hashmap_iterator_next, as_hashmap_iterator_seek.
    cbn [it_curr mbind option_bind negb it_map it_count it_table_pos it_extras_pos].
    simpl in Hsum, Hf. rewrite IH by (lia || done). simpl.
    unfold entry in He. destruct (p_key e) as [k'|]; [|done]. by injection He as -> ->.
Qed.

Lemma wf_drain m ch fl A fuel :
  hm_wf m ch fl A -> count m = blen (hm_entries m) -> count m < 2 ^ 32 -> (Z.to_nat (count m) < fuel)%nat ->
  drain fuel (as_hashmap_iterator_init m) = Some (prod_map Some id <$> hm_entries m).
Proof.
  intros Hwf Hcount Hc Hf. pose proof (wf_bounds m ch fl A Hwf) as (Ht & Hi & Hb).
  assert (hm_entries m = it_rest m 0 1) as Heq.
  { unfold hm_entries, it_rest. rewrite drop_0. do 3 f_equal. lia. }
  rewrite Heq in *. by apply (drain_ok m ch fl A fuel 0 0 1); (done || lia).
Qed.

(** *** Clearing *)

Lemma wf_clear m ch fl A :
  hm_wf m ch fl A ->
  exists m', as_hashmap_clear m = Some (0, m', hm_entries m) /\ count m' = 0 /\ same_shape m m'
    /\ insert_at m' = 1 /\ extra_capacity m' = 0
    /\ exists A', hm_wf m' (replicate (length (table m)) []) [] A'
         /\ entries_of <$> A' = replicate (length (table m)) [].
Proof.
  intros Hwf. destruct (wf_visited m ch fl A Hwf) as (es & Hv & Hd). unfold as_hashmap_clear.
  rewrite Hv. cbn [mbind option_bind]. rewrite Hd. eexists. split; [done|].
  split; [done|]. split; [by split|]. split; [done|]. split; [done|].
  exists ((fun e => [clear_slot e]) <$> table m).
  pose proof Hwf as [Hc (Ht & Htc & Hst & Hx & Hxb)].
  assert (Forall (fun e => no_key (clear_slot e) /\ next (clear_slot e) = 0) (table m)) as Hcl.
  { apply Forall_lookup. intros s e He.
    destruct (lookup_lt_is_Some_2 ch s) as [idxs Hs];
      [rewrite (c_len_ch _ _ _ _ _ _ _ Hc); by eapply lookup_lt_Some|].
    destruct (wf_slot m ch fl A s idxs Hwf Hs) as (els & HA & ((Hl & Hn & Hxx) & Hth & Hnk & _) & _).
    unfold clear_slot, no_key. destruct (p_key e) eqn:Ek; [done|]. split; [done|].
    rewrite He in Hth. symmetry in Hth. rewrite (Hn 0%nat e Hth). by rewrite (Hnk e Hth Ek). }
  split.
  - split; [|unfold hm_sizes, ex_of; simpl; rewrite length_map; split_and!; (done || lia)].
    unfold ex_of. simpl. split; simpl; try done; try lia.
    + by rewrite length_replicate, length_map.
    + by rewrite length_fmap, length_map.
    + intros s idxs els Hi He. apply lookup_replicate in Hi as [-> _].
      rewrite list_lookup_fmap in He. apply fmap_Some in He as (e & He & ->).
      destruct (proj1 (Forall_lookup _ _) Hcl s e He) as [Hno Hz].
      split; [|split; [|split; [done|by constructor]]].
      * by apply linked_single.
      * change (map clear_slot (table m)) with (clear_slot <$> table m).
        by rewrite list_lookup_fmap, He.
    + apply free_nil.
    + by rewrite app_nil_r, join_nils.
  - clear -Hcl. induction Hcl as [|e t [Hno _] _ IH]; [done|].
    rewrite !fmap_cons, IH. by rewrite entries_skip.
Qed.

End Visits.

(** ** The contract *)

(** What the map asks of its keys: which are allowed, a hash code, and an
    equality that respects it. *)
Class HashKey (K : Type) := {
  hk_hash : K -> option Z;
  hk_eq : K -> K -> bool;
  hk_valid : K -> bool
}.

Class HashKeyLaws (K : Type) `{HashKey K} : Prop := {
  hk_sym : forall k1 k2 : K, hk_eq k1 k2 = true -> hk_eq k2 k1 = true;
  hk_trans : forall k1 k2 k3 : K, hk_eq k1 k2 = true -> hk_eq k2 k3 = true -> hk_eq k1 k3 = true;
  hk_hash_eq : forall k1 k2 : K, hk_eq k1 k2 = true -> hk_hash k1 = hk_hash k2
}.

Section Contract.
Context {K V : Type} `{HK : HashKey K} {HL : HashKeyLaws K}.
Implicit Types (m : as_hashmap K V) (k : K) (v : option V) (l : list (K * option V)).

(** The map [m] holds the entries [l]. *)
Definition hm_models m l : Prop :=
  exists B, hm_rep hk_hash hk_eq hk_valid m B /\ mjoin B ≡ₚ l.

Inductive hmop :=
  | MSet (key : option K) (v : option V)
  | MGet (key : option K)
  | MRemove (key : option K)
  | MSize.

(** An answer: the status (or the size), the value found, what was destroyed. *)
Definition answer : Type := Z * option V * list (K * option V).

Definition hm_exec m (op : hmop) : option (answer * as_hashmap K V) :=
  match op with
  | MSet key v => '(rc, m, d) ← as_hashmap_set hk_hash hk_eq hk_valid true m key v; Some (rc, None, d, m)
  | MGet key => r ← as_hashmap_get hk_hash hk_eq hk_valid m key; Some (0, r, [], m)
  | MRemove key => '(rc, m, d) ← as_hashmap_remove hk_hash hk_eq hk_valid m key; Some (rc, None, d, m)
  | MSize => Some (as_hashmap_size m, None, [], m)
  end.

Definition valid_key (key : option K) : option K := k ← key; if hk_valid k then Some k else None.

Definition hm_spec l (op : hmop) : answer * list (K * option V) :=
  match op with
  | MSet key v =>
      match valid_key key with
      | Some k => (0, None, matching hk_eq k l, (k, v) :: others hk_eq k l)
      | None => (-1, None, [], l)
      end
  | MGet key =>
      match valid_key key with
      | Some k => (0, head (matching hk_eq k l) ≫= snd, [], l)
      | None => (0, None, [], l)
      end
  | MRemove key =>
      match valid_key key with
      | Some k => (0, None, matching hk_eq k l, others hk_eq k l)
      | None => (-1, None, [], l)
      end
  | MSize => (blen l, None, [], l)
  end.

(** The hash code of the key is defined. *)
Definition op_hashed (op : hmop) : Prop :=
  match op with
  | MSet key _ | MGet key | MRemove key =>
      match valid_key key with Some k => is_Some (hk_hash k) | None => True end
  | MSize => True
  end.

(** Room in the 32-bit counters for [n] more elements. *)
Definition hm_fits m (n : Z) : Prop :=
  count m + n < 2 ^ 32 /\ insert_at m + n + 2 * capacity_step m < 2 ^ 32.

Lemma valid_key_Some key k : valid_key key = Some k -> key = Some k /\ hk_valid k = true.
Proof. unfold valid_key. destruct key as [k'|]; simpl; [|done]. case_if; by intros [= ->]. Qed.

Lemma valid_key_None m key v :
  valid_key key = None ->
  as_hashmap_set hk_hash hk_eq hk_valid true m key v = Some (-1, m, [])
  /\ as_hashmap_get hk_hash hk_eq hk_valid m key = Some None
  /\ as_hashmap_remove hk_hash hk_eq hk_valid m key = Some (-1, m, []).
Proof.
  unfold valid_key. destruct key as [k|]; [|done]. simpl. by case_if.
Qed.

Lemma short_perm_eq {X} (l l' : list X) : (length l <= 1)%nat -> l ≡ₚ l' -> l = l'.
Proof.
  intros Hl Hp. destruct l as [|x [|? ?]]; [| |simpl in Hl; lia].
  - by apply Permutation_nil_l in Hp.
  - by apply Permutation_singleton_l in Hp.
Qed.

(** The parts of the bucket that an operation works on, in the whole map. *)
Lemma models_bucket m B k h s b l :
  hm_rep hk_hash hk_eq hk_valid m B -> mjoin B ≡ₚ l ->
  hk_hash k = Some h -> h mod table_capacity m = Z.of_nat s -> B !! s = Some b ->
  bold hk_eq k b = matching hk_eq k l /\ bget hk_eq k b = head (matching hk_eq k l) ≫= snd
  /\ mjoin (<[s := bremove hk_eq k b]> B) ≡ₚ others hk_eq k l
  /\ forall v, mjoin (<[s := bset hk_eq k v b]> B) ≡ₚ (k, v) :: others hk_eq k l.
Proof.
  intros Hrep Hl Hh Hs HB.
  destruct (whole_map hk_hash hk_eq hk_valid hk_sym hk_trans hk_hash_eq m B k h s b Hrep Hh Hs HB)
    as (H1 & H2 & H3 & H4).
  assert (matching hk_eq k (mjoin B) ≡ₚ matching hk_eq k l) as Hm by (unfold matching; by rewrite Hl).
  assert (others hk_eq k (mjoin B) ≡ₚ others hk_eq k l) as Ho by (unfold others; by rewrite Hl).
  assert (length (bold hk_eq k b) <= 1)%nat as Hle
    by (unfold bold; by destruct (b_find hk_eq k b ≫= _); simpl; lia).
  assert (matching hk_eq k (mjoin B) = matching hk_eq k l) as Heq.
  { apply short_perm_eq; [|done]. by rewrite <- (Permutation_length H1). }
  split; [apply short_perm_eq; [done|by rewrite H1, Hm]|].
  split; [by rewrite H2, Heq|]. split; [by rewrite H3|]. intros v. by rewrite (H4 v), Ho.
Qed.

Lemma hm_step_refines m l op n :
  hm_models m l -> op_hashed op -> 0 <= n -> hm_fits m (n + 1) ->
  exists m', hm_exec m op = Some ((hm_spec l op).1, m') /\ hm_models m' (hm_spec l op).2 /\ hm_fits m' n.
Proof.
  intros (B & Hrep & Hl) Hop Hn [Hf1 Hf2]. pose proof Hrep as ((ch & fl & A & Hwf & HB) & Hcount & _).
  assert (hm_fits m n) as Hfn by (split; lia).
  assert (hm_models m l) as Hm by (by exists B).
  destruct op as [key v|key|key|]; cbn [hm_exec hm_spec op_hashed] in *.
  - destruct (valid_key key) as [k|] eqn:Ev.
    + destruct (valid_key_Some key k Ev) as [-> Hv]. destruct Hop as [h Hh].
      destruct (set_ok hk_hash hk_eq hk_valid hk_sym hk_trans m B k v h Hrep Hv Hh)
        as (s & els & HBs & Hs & m' & -> & Hrep' & [Hsh1 Hsh2] & Hi & Hc); [split; lia|].
      destruct (models_bucket m B k h s _ l Hrep Hl Hh Hs HBs) as (-> & _ & _ & H4).
      exists m'. split; [done|]. split; [by eexists|]. split; lia.
    + exists m. by rewrite (proj1 (valid_key_None m key v Ev)).
  - destruct (valid_key key) as [k|] eqn:Ev.
    + destruct (valid_key_Some key k Ev) as [-> Hv]. destruct Hop as [h Hh].
      rewrite (get_ok hk_hash hk_eq hk_valid m B k h Hrep Hv Hh).
      destruct (rep_bucket hk_hash hk_eq hk_valid m B h Hrep) as (ch' & fl' & A' & idxs & els & s & Hs & _ & _ & _ & _ & HBs & _).
      rewrite Hs, Nat2Z.id, HBs. cbn [mbind option_bind].
      destruct (models_bucket m B k h s _ l Hrep Hl Hh Hs HBs) as (_ & -> & _). by exists m.
    + exists m. by destruct (valid_key_None m key None Ev) as (_ & -> & _).
  - destruct (valid_key key) as [k|] eqn:Ev.
    + destruct (valid_key_Some key k Ev) as [-> Hv]. destruct Hop as [h Hh].
      destruct (remove_ok hk_hash hk_eq hk_valid m B k h Hrep Hv Hh)
        as (s & els & HBs & Hs & m' & -> & Hrep' & [Hsh1 Hsh2] & Hi & Hc); [lia|].
      destruct (models_bucket m B k h s _ l Hrep Hl Hh Hs HBs) as (-> & _ & H3 & _).
      exists m'. split; [done|]. split; [by eexists|]. split; lia.
    + exists m. by destruct (valid_key_None m key None Ev) as (_ & _ & ->).
  - exists m. split; [|done]. unfold as_hashmap_size. by rewrite Hcount, (Permutation_length Hl).
Qed.

Fixpoint hm_run m (ops : list hmop) : option (list answer * as_hashmap K V) :=
  match ops with
  | [] => Some ([], m)
  | op :: ops => '(a, m) ← hm_exec m op; '(outs, m) ← hm_run m ops; Some (a :: outs, m)
  end.

Fixpoint hm_run_spec l (ops : list hmop) : list answer * list (K * option V) :=
  match ops with
  | [] => ([], l)
  | op :: ops =>
      let '(a, l) := hm_spec l op in
      let '(outs, l) := hm_run_spec l ops in (a :: outs, l)
  end.

Lemma hm_run_refines m l ops :
  hm_models m l -> Forall op_hashed ops -> hm_fits m (blen ops) ->
  exists m', hm_run m ops = Some ((hm_run_spec l ops).1, m') /\ hm_models m' (hm_run_spec l ops).2.
Proof.
  revert m l. induction ops as [|op ops IH]; intros m l Hm Hops Hfit; simpl; [by exists m|].
  apply Forall_cons in Hops as [Hop Hops].
  destruct (hm_step_refines m l op (blen ops) Hm Hop) as (m1 & -> & Hm1 & Hf1);
    [lia|by replace (blen ops + 1) with (blen (op :: ops)) by (simpl; lia)|].
  cbn [mbind option_bind]. destruct (hm_spec l op) as [a l1]. simpl in *.
  destruct (IH m1 l1 Hm1 Hops Hf1) as (m2 & -> & Hm2). exists m2. simpl.
  by destruct (hm_run_spec l1 ops).
Qed.

Lemma cons_models cap m :
  as_hashmap_cons true cap = Some m -> cap < 2 ^ 32 -> hm_models m [] /\ insert_at m = 1 /\ count m = 0.
Proof.
  unfold as_hashmap_cons, MIN_CAPACITY. intros [= <-] Hcap.
  set (c := if 1 <? cap then cap else 1). assert (0 < c < 2 ^ 32) as Hc by (unfold c; case_if; reflect_Z; lia).
  split; [|done]. exists (replicate (Z.to_nat c) []). split.
  - split; [|split; [|split]].
    + exists (replicate (Z.to_nat c) []), [], (replicate (Z.to_nat c) [zero_element]).
      split; [|by rewrite fmap_replicate].
      split; [|unfold hm_sizes, ex_of; simpl; rewrite length_replicate; case_if; reflect_Z; split_and!; (done || lia)].
      unfold ex_of. simpl. split; simpl; rewrite ?length_replicate; try done; try lia.
      * intros s idxs els Hi He. apply lookup_replicate in Hi as [-> Hlt]. apply lookup_replicate in He as [-> _].
        split; [|split; [by rewrite lookup_replicate_2|split; [done|by constructor]]].
        by apply linked_single.
      * apply free_nil.
      * by rewrite app_nil_r, join_nils.
    + simpl. by rewrite join_nils.
    + simpl. case_if; reflect_Z; lia.
    + intros s b Hb. apply lookup_replicate in Hb as [-> _]. split; [by constructor|]. intros i j kv kv' Hi. done.
  - by rewrite join_nils.
Qed.

(** C8: Refinement.  Any sequence of set, get, remove and size calls answers as
    on a finite map: the status codes, the values found, the sizes, and the keys
    and values handed to [as_val_destroy] are those of the map without order;
    NULL keys and keys of other types are refused.  Collisions, the free list
    and the growth of the extra slots do not show, and no slot outside the
    arrays is touched. *)
Theorem hashmap_refines_map m l ops :
  hm_models m l -> Forall op_hashed ops -> hm_fits m (blen ops) ->
  exists m', hm_run m ops = Some ((hm_run_spec l ops).1, m') /\ hm_models m' (hm_run_spec l ops).2.
Proof. apply hm_run_refines. Qed.

(** Iteration.  [as_hashmap_foreach] and the iterator visit the same entries
    in the same order, every entry of the map exactly once, and the iterator
    stops after the last one. *)
Theorem hashmap_visits {U} (cb : K -> option V -> U -> bool * U) m l u :
  hm_models m l -> count m < 2 ^ 32 ->
  exists es, es ≡ₚ l /\ as_hashmap_foreach cb m u = Some (foreach_entries cb es u)
    /\ drain (S (length l)) (as_hashmap_iterator_init m) = Some (prod_map Some id <$> es).
Proof.
  intros (B & ((ch & fl & A & Hwf & ->) & Hcount & _) & Hl) Hc.
  pose proof (wf_entries m ch fl A Hwf) as He. exists (hm_entries m).
  split; [by rewrite He|]. split; [by eapply wf_foreach|].
  rewrite <- (Permutation_length He) in Hcount. rewrite <- He in Hl.
  eapply wf_drain; [done..|]. rewrite <- (Permutation_length Hl). lia.
Qed.

(** Clearing hands every key and value to [as_val_destroy] exactly once and
    leaves an empty map of the same capacity, ready for use. *)
Theorem hashmap_clear_empties m l :
  hm_models m l ->
  exists m' d, as_hashmap_clear m = Some (0, m', d) /\ d ≡ₚ l /\ hm_models m' []
    /\ table_capacity m' = table_capacity m.
Proof.
  intros (B & ((ch & fl & A & Hwf & ->) & Hcount & Hx & Hb) & Hl).
  destruct (wf_clear m ch fl A Hwf) as (m' & Hcl & Hc' & [Hs1 Hs2] & Hi' & Hx' & A' & Hwf' & HA').
  exists m', (hm_entries m). split; [done|]. split; [by rewrite (wf_entries m ch fl A Hwf)|].
  split; [|done]. exists (entries_of <$> A'). rewrite HA', join_nils. split; [|done].
  pose proof Hwf as [_ (_ & _ & Hst & _)].
  split; [by eexists _, _, A'|]. rewrite join_nils. split; [done|]. split; [lia|].
  intros s b Hsb. apply lookup_replicate in Hsb as [-> _]. split; [by constructor|]. by intros i j kv kv' Hi.
Qed.

End Contract.
Arguments hmop : clear implicits.

(** ** Failed allocations *)

Section AllocFailure.
Context {K V : Type} (hash : K -> option Z) (eq_val : K -> K -> bool) (is_valid_key_type : K -> bool).
Implicit Types (m : as_hashmap K V) (e : as_hashmap_element K V).

Lemma set_elem_restore m m1 p e e1 :
  get_elem m p = Some e -> set_elem m p e1 = Some m1 -> set_elem m1 p e = Some m.
Proof.
  assert (forall (l l1 : list (as_hashmap_element K V)) i,
    aget l i = Some e -> aset l i e1 = Some l1 -> aset l1 i e = Some l) as Hl.
  { intros l l1 i Hg Hs. pose proof (aget_Some _ _ _ Hg). rewrite aset_Some in Hs by done.
    injection Hs as <-. rewrite aset_Some by (by rewrite length_insert).
    rewrite list_insert_insert_eq, list_insert_id; [done|].
    by rewrite aget_nonneg in Hg by lia. }
  destruct p as [i|i]; simpl; intros Hg Hs.
  - apply bind_Some in Hs as (t & Ht & [= <-]). simpl. rewrite (Hl _ _ _ Hg Ht). by destruct m.
  - destruct m as [? ? ? ? ? [ex|] ? ?]; simpl in *; [|done].
    apply bind_Some in Hs as (ex1 & Hx & [= <-]). simpl. by rewrite (Hl _ _ _ Hg Hx).
Qed.

(** A set whose allocation fails answers -1 and leaves the map exactly as it
    was; a set that needs no allocation does not depend on it. *)
Theorem hashmap_alloc_failure m key v :
  as_hashmap_set hash eq_val is_valid_key_type false m key v
  = as_hashmap_set hash eq_val is_valid_key_type true m key v
  \/ as_hashmap_set hash eq_val is_valid_key_type false m key v = Some (-1, m, []).
Proof.
  unfold as_hashmap_set. destruct key as [k|]; [|by left]. case_if; [by left|].
  destruct (hash k) as [h|]; [|by left]. cbn [mbind option_bind].
  destruct (get_elem m _) as [e|]; [|by left]. cbn [mbind option_bind].
  destruct (p_key e); [|by left].
  destruct (find_chain _ _ _ _ _) as [[p|p]|]; [by left| |by left]. cbn [mbind option_bind].
  unfold set_at_end. destruct (get_elem m p) as [prev|] eqn:Ep; [|by left]. cbn [mbind option_bind].
  case_if; [by left|].
  destruct (set_elem m p (mk_element _ _ (insert_at m))) as [m1|] eqn:Es; [|by left].
  cbn [mbind option_bind]. case_if; [|by left]. right.
  unfold grow_extras. destruct (extras m1); simpl; by rewrite (set_elem_restore m m1 p prev _ Ep Es).
Qed.

End AllocFailure.

(** ** Concrete maps *)

#[export] Instance Z_key : HashKey Z :=
  {| hk_hash := fun k => Some (u32 k); hk_eq := Z.eqb; hk_valid := fun k => 0 <=? k |}.

#[export] Instance Z_key_laws : HashKeyLaws Z.
Proof.
  split; simpl.
  - intros k1 k2 H. by rewrite Z.eqb_sym.
  - intros k1 k2 k3 H1 H2. apply Z.eqb_eq in H1, H2. subst. apply Z.eqb_refl.
  - intros k1 k2 H. apply Z.eqb_eq in H. by subst.
Qed.

(** A map with two table slots, so that keys collide. *)
Definition small_map : as_hashmap Z Z :=
  mk_hashmap 0 2 (replicate 2 zero_element) 2 0 None 1 0.

Lemma small_map_models : hm_models small_map [].
Proof. by apply (cons_models 2). Qed.

Definition sample_hm_ops : list (hmop Z Z) :=
  [MSet (Some 1) (Some 10); MSet (Some 3) (Some 30); MSet (Some 5) (Some 50); MSet (Some 7) (Some 70);
   MRemove (Some 3); MSet (Some 9) (Some 90); MSet (Some 5) (Some 55); MRemove (Some 1);
   MGet (Some 5); MGet (Some 1); MGet (Some 9); MSet None (Some 0); MRemove (Some (-4)); MSize].

Lemma hashmap_refines_map_witness :
  exists m', hm_run small_map sample_hm_ops
    = Some ([(0, None, []); (0, None, []); (0, None, []); (0, None, []); (0, None, [(3, Some 30)]);
             (0, None, []); (0, None, [(5, Some 50)]); (0, None, [(1, Some 10)]);
             (0, Some 55, []); (0, None, []); (0, Some 90, []); (-1, None, []); (-1, None, []);
             (3, None, [])], m')
    /\ hm_models m' [(5, Some 55); (9, Some 90); (7, Some 70)].
Proof.
  apply (hashmap_refines_map small_map [] sample_hm_ops small_map_models).
  - repeat constructor; by eexists.
  - split; simpl; lia.
Defined.

(** Four colliding keys, one of them removed again. *)
Definition filled_ops : list (hmop Z Z) := take 5 sample_hm_ops.
Definition filled_map : as_hashmap Z Z :=
  match hm_run small_map filled_ops with Some (_, m) => m | None => small_map end.

Lemma filled_map_models : hm_models filled_map [(7, Some 70); (5, Some 50); (1, Some 10)].
Proof.
  destruct (hm_run_refines small_map [] filled_ops small_map_models) as (m' & Hrun & Hm).
  - repeat constructor; by eexists.
  - split; simpl; lia.
  - unfold filled_map. by rewrite Hrun.
Qed.

Lemma hashmap_visits_witness :
  let cb := fun k (_ : option Z) u => (true, u ++ [k]) in
  exists es, es ≡ₚ [(7, Some 70); (5, Some 50); (1, Some 10)]
    /\ as_hashmap_foreach cb filled_map [] = Some (foreach_entries cb es [])
    /\ drain 4 (as_hashmap_iterator_init filled_map) = Some (prod_map Some id <$> es).
Proof.
  intros cb. apply (hashmap_visits cb filled_map _ [] filled_map_models). vm_compute. congruence.
Defined.

Lemma hashmap_clear_empties_witness :
  exists m' d, as_hashmap_clear filled_map = Some (0, m', d)
    /\ d ≡ₚ [(7, Some 70); (5, Some 50); (1, Some 10)] /\ hm_models m' []
    /\ table_capacity m' = table_capacity filled_map.
Proof. apply (hashmap_clear_empties filled_map _ filled_map_models). Defined.
