(* ===== verification/Value.v ===== *)
(** * Values

    Models the value types of [modules/common/src/main/aerospike]: the tags of
    [as_val.h], the hash codes of [as_val.c], [as_nil.c], [as_boolean.c],
    [as_integer.c], [as_string.c], [as_bytes.c], [as_list.c] and [as_map.c], and
    the key equality of [as_hashmap.c], with which values are the keys of the
    map of file [HashMap].

    A string is its first [len] bytes, after which a NUL follows.  Its value
    pointer, like that of a byte array, is not NULL.  A list is the sequence of
    its elements, a map the sequence of its entries in the order in which
    [foreach] visits them.  Of a record only the answer of its hash-code hook is
    used here. *)

From S2P Require Import Prelude ByteOrder HashMap.

(** What the C implementation fixes: the byte order and the signedness of
    [char]. *)
Class Platform := { host_endian : endian; char_signed : bool }.

Inductive as_val :=
  | VNil
  | VBoolean (b : bool)
  | VInteger (value : Z)
  | VString (value : list Z)
  | VBytes (type : Z) (value : list Z)
  | VList (l : list (option as_val))
  | VMap (m : list (as_val * option as_val))
  | VRec (rec_hash : Z)
  | VPair (v1 v2 : option as_val)
  | VUndef.

Definition AS_UNDEF : Z := 0.
Definition AS_NIL : Z := 1.
Definition AS_BOOLEAN : Z := 2.
Definition AS_INTEGER : Z := 3.
Definition AS_STRING : Z := 4.
Definition AS_LIST : Z := 5.
Definition AS_MAP : Z := 6.
Definition AS_REC : Z := 7.
Definition AS_PAIR : Z := 8.
Definition AS_BYTES : Z := 9.

Definition as_val_type (v : as_val) : Z :=
  match v with
  | VNil => AS_NIL
  | VBoolean _ => AS_BOOLEAN
  | VInteger _ => AS_INTEGER
  | VString _ => AS_STRING
  | VBytes _ _ => AS_BYTES
  | VList _ => AS_LIST
  | VMap _ => AS_MAP
  | VRec _ => AS_REC
  | VPair _ _ => AS_PAIR
  | VUndef => AS_UNDEF
  end.

Definition AS_BYTES_STRING : Z := 3.
Definition AS_BYTES_BLOB : Z := 4.

(** The characters before the first NUL: what [strcmp] and [strlen] see. *)
Fixpoint c_str (s : list Z) : list Z :=
  match s with
  | [] => []
  | c :: s => if c =? 0 then [] else c :: c_str s
  end.

Section Hash.
Context `{Platform}.

Definition as_nil_val_hashcode : Z := 0.

Definition as_boolean_val_hashcode (b : bool) : Z := if b then 1 else 0.

Definition as_integer_val_hashcode (value : Z) : Z := u32 value.

(** [int c = *str]. *)
Definition char_to_int (c : Z) : Z := if char_signed then i8 c else c.

(** [hash = c + (hash << 6) + (hash << 16) - hash] on 32 bits. *)
Definition hash_step (hash c : Z) : Z :=
  u32 (c + u32 (Z.shiftl hash 6) + u32 (Z.shiftl hash 16) - hash).

Definition as_string_val_hashcode (value : list Z) : Z :=
  fold_left (fun hash c => hash_step hash (char_to_int c)) (c_str value) 0.

(** [while (--len)]: for [len = 0] the counter becomes negative and the loop
    runs past the end of the buffer, which is undefined. *)
Definition as_bytes_val_hashcode (value : list Z) : option Z :=
  match value with
  | [] => None
  | _ => Some (fold_left hash_step (take (length value - 1) value) 0)
  end.

Definition as_val_hashcode (v : as_val) : option Z :=
  match v with
  | VNil => Some as_nil_val_hashcode
  | VBoolean b => Some (as_boolean_val_hashcode b)
  | VInteger value => Some (as_integer_val_hashcode value)
  | VString value => Some (as_string_val_hashcode value)
  | VBytes _ value => as_bytes_val_hashcode value
  | VList _ => Some 0
  | VMap _ => Some 1
  | VRec rec_hash => Some rec_hash
  | VPair _ _ => Some 0
  | VUndef => Some 0
  end.
End Hash.

Definition is_valid_key_type (k : as_val) : bool :=
  match k with
  | VNil | VBoolean _ | VInteger _ | VString _ | VBytes _ _ => true
  | _ => false
  end.

Definition eq_val (v1 v2 : as_val) : bool :=
  if negb (as_val_type v1 =? as_val_type v2) then false
  else
    match v1, v2 with
    | VNil, VNil => true
    | VBoolean b1, VBoolean b2 => eqb b1 b2
    | VInteger z1, VInteger z2 => z1 =? z2
    | VString s1, VString s2 => bool_decide (c_str s1 = c_str s2)
    | VBytes _ b1, VBytes _ b2 => (blen b1 =? blen b2) && bool_decide (b1 = b2)
    | _, _ => false
    end.

(** ** Values as keys *)

Section Keys.
Context `{Platform}.

#[export] Instance as_val_key : HashKey as_val :=
  {| hk_hash := as_val_hashcode; hk_eq := eq_val; hk_valid := is_valid_key_type |}.

(** What equality of keys means. *)
Lemma eq_val_true v1 v2 :
  eq_val v1 v2 = true ->
  match v1, v2 with
  | VNil, VNil => True
  | VBoolean b1, VBoolean b2 => b1 = b2
  | VInteger z1, VInteger z2 => z1 = z2
  | VString s1, VString s2 => c_str s1 = c_str s2
  | VBytes _ b1, VBytes _ b2 => b1 = b2
  | _, _ => False
  end.
Proof.
  unfold eq_val. destruct v1, v2; simpl; try done.
  - apply eqb_prop.
  - apply Z.eqb_eq.
  - apply bool_decide_eq_true_1.
  - intros [_ ?%bool_decide_eq_true_1]%andb_true_iff. done.
Qed.

Lemma eq_val_refl v : is_valid_key_type v = true -> eq_val v v = true.
Proof.
  destruct v; try done; unfold eq_val; simpl; intros _.
  - apply eqb_reflx.
  - apply Z.eqb_refl.
  - by apply bool_decide_eq_true_2.
  - rewrite Z.eqb_refl. by apply bool_decide_eq_true_2.
Qed.

#[export] Instance as_val_key_laws : HashKeyLaws as_val.
Proof.
  split; simpl.
  - intros k1 k2 E%eq_val_true. destruct k1, k2; try done; unfold eq_val; simpl; subst.
    + apply eqb_reflx.
    + apply Z.eqb_refl.
    + by apply bool_decide_eq_true_2.
    + rewrite Z.eqb_refl. by apply bool_decide_eq_true_2.
  - intros k1 k2 k3 E1%eq_val_true E2%eq_val_true. destruct k1, k2, k3; try done; unfold eq_val; simpl; subst.
    + apply eqb_reflx.
    + apply Z.eqb_refl.
    + apply bool_decide_eq_true_2. congruence.
    + rewrite Z.eqb_refl. by apply bool_decide_eq_true_2.
  - intros k1 k2 E%eq_val_true. destruct k1, k2; try done; simpl; subst; try done.
    unfold as_string_val_hashcode. by rewrite E.
Qed.

End Keys.

(** ** Induction on values *)

Definition opt_all (P : as_val -> Prop) (v : option as_val) : Prop :=
  match v with Some v => P v | None => True end.

Section Induction.
Context (P : as_val -> Prop).
Context (HNil : P VNil) (HBool : forall b, P (VBoolean b)) (HInt : forall z, P (VInteger z)).
Context (HStr : forall s, P (VString s)) (HBytes : forall t b, P (VBytes t b)).
Context (HList : forall l, Forall (opt_all P) l -> P (VList l)).
Context (HMap : forall m, Forall (fun kv => P kv.1 /\ opt_all P kv.2) m -> P (VMap m)).
Context (HRec : forall h, P (VRec h)) (HPair : forall v1 v2, opt_all P v1 -> opt_all P v2 -> P (VPair v1 v2)).
Context (HUndef : P VUndef).

Definition opt_all_by (f : forall v, P v) (v : option as_val) : opt_all P v :=
  match v with Some v => f v | None => I end.

Fixpoint as_val_rect' (v : as_val) : P v :=
  match v with
  | VNil => HNil
  | VBoolean b => HBool b
  | VInteger z => HInt z
  | VString s => HStr s
  | VBytes t b => HBytes t b
  | VList l =>
      HList l ((fix go l : Forall (opt_all P) l :=
        match l with
        | [] => List.Forall_nil _
        | v :: l => List.Forall_cons _ _ _ (opt_all_by as_val_rect' v) (go l)
        end) l)
  | VMap m =>
      HMap m ((fix go m : Forall (fun kv => P kv.1 /\ opt_all P kv.2) m :=
        match m with
        | [] => List.Forall_nil _
        | kv :: m => List.Forall_cons _ _ _
                       (conj (as_val_rect' kv.1) (opt_all_by as_val_rect' kv.2)) (go m)
        end) m)
  | VRec h => HRec h
  | VPair v1 v2 => HPair v1 v2 (opt_all_by as_val_rect' v1) (opt_all_by as_val_rect' v2)
  | VUndef => HUndef
  end.

Lemma as_val_ind' v : P v.
Proof. apply as_val_rect'. Qed.
End Induction.

(** ** Maps of values *)

(** The key is not an empty byte array. *)
Definition hashable (key : option as_val) : bool :=
  match key with Some (VBytes _ []) => false | _ => true end.

Definition op_hashable (op : hmop as_val as_val) : bool :=
  match op with
  | MSet key _ | MGet key | MRemove key => hashable key
  | MSize => true
  end.

Lemma hash_defined `{Platform} k : hashable (Some k) = true -> is_Some (as_val_hashcode k).
Proof. destruct k as [| | | |t [|x b]| | | | |]; try done; by eexists. Qed.

Lemma hashable_hashed `{Platform} op : op_hashable op = true -> op_hashed op.
Proof.
  assert (forall key, hashable key = true ->
    match valid_key key with Some k => is_Some (hk_hash k) | None => True end) as Hk.
  { intros [k|] Hk; [|done]. unfold valid_key. simpl. case_if; [|done]. by apply hash_defined. }
  destruct op as [key v|key|key|]; [apply Hk..|done].
Qed.

(** Values as keys.  On every platform, a map keyed by values answers any
    sequence of calls as a finite map up to [eq_val], as long as no key is an
    empty byte array: nil, booleans, integers, strings up to their first NUL and
    byte arrays whatever their type are keys, other values and NULL are refused. *)
Theorem value_map_refines `{Platform} (m : as_hashmap as_val as_val) l ops :
  hm_models m l -> forallb op_hashable ops = true -> hm_fits m (blen ops) ->
  exists m', hm_run m ops = Some ((hm_run_spec l ops).1, m') /\ hm_models m' (hm_run_spec l ops).2.
Proof.
  intros Hm Hops Hfit. apply hm_run_refines; [done| |done].
  apply Forall_forall. intros op Hin. apply hashable_hashed.
  by apply (proj1 (forallb_forall _ _) Hops), list_elem_of_In.
Qed.

(** The hash code of a byte array does not depend on its last byte, and it is
    not defined on an empty array. *)
Theorem bytes_hash_skips_last b x y :
  as_bytes_val_hashcode (b ++ [x]) = as_bytes_val_hashcode (b ++ [y]) /\ as_bytes_val_hashcode [] = None.
Proof.
  split; [|done]. unfold as_bytes_val_hashcode.
  assert (forall z, take (length (b ++ [z]) - 1) (b ++ [z]) = b) as Ht.
  { intros z. rewrite length_app. simpl. by rewrite take_app_length' by lia. }
  rewrite !Ht. by destruct b.
Qed.

(** ** A concrete platform and map *)

Definition x86_64 : Platform := {| host_endian := LittleEndian; char_signed := true |}.
Definition ppc64 : Platform := {| host_endian := BigEndian; char_signed := false |}.

Definition value_map : as_hashmap as_val as_val :=
  mk_hashmap 0 32 (replicate 32 zero_element) 16 0 None 1 0.

Lemma value_map_models `{Platform} : hm_models value_map [].
Proof. by apply (cons_models 32). Qed.

Lemma value_map_refines_witness :
  let ops := [MSet (Some (VString [97])) (Some (VInteger 1)); MSet (Some (VBytes 4 [1; 2])) (Some VNil);
              MGet (Some (VString [97])); MSet (Some (VList [])) None;
              MSet (Some (VString [97; 0; 98])) (Some (VInteger 2)); MGet (Some (VString [97]))] in
  exists m', @hm_run _ _ (@as_val_key x86_64) value_map ops
    = Some ([(0, None, []); (0, None, []); (0, Some (VInteger 1), []); (-1, None, []);
             (0, None, [(VString [97], Some (VInteger 1))]); (0, Some (VInteger 2), [])], m')
    /\ @hm_models _ _ (@as_val_key x86_64) m'
         [(VString [97; 0; 98], Some (VInteger 2)); (VBytes 4 [1; 2], Some VNil)].
Proof.
  intros ops. apply (@value_map_refines x86_64 value_map [] ops (@value_map_models x86_64)).
  - reflexivity.
  - split; simpl; lia.
Defined.
