(* ===== verification/Bytes.v ===== *)
(** * Byte arrays

    Models [modules/common/src/main/aerospike/as_bytes.c] and the inline
    functions of [as_bytes.h]: creation, bounded reads and writes of bytes and
    integers at an index, the variable-length integers, appending, truncating,
    growing, and the hexadecimal text.

    A [uint8_t *] is the block it points to; NULL is [None].  What a new block
    holds is up to the allocator and comes with its answer. *)

From S2P Require Import Prelude ByteOrder Value.

Record as_bytes := mk_bytes {
  by_capacity : Z;
  by_size : Z;
  by_value : option (list Z);
  by_free : bool;
  by_type : Z
}.

Section Bytes.
Context `{Platform}.

(** ** Instances *)

(** [alloc] is the answer of [cf_calloc].  The type is always
    [AS_BYTES_BLOB], whatever the caller asks for. *)
Definition as_bytes_cons (alloc : bool) (capacity size : Z) (value : option (list Z)) (value_free : bool)
    (type : Z) : as_bytes :=
  let value :=
    match value with
    | None => if (size =? 0) && (0 <? capacity)
              then if alloc then Some (replicate (Z.to_nat capacity) 0) else None
              else None
    | Some v => Some v
    end in
  mk_bytes capacity size value value_free AS_BYTES_BLOB.

Definition as_bytes_init (alloc : bool) (capacity : Z) : as_bytes :=
  as_bytes_cons alloc capacity 0 None true AS_BYTES_BLOB.

Definition as_bytes_init_wrap (value : list Z) (size : Z) (free : bool) : as_bytes :=
  as_bytes_cons true size size (Some value) free AS_BYTES_BLOB.

Definition as_bytes_new (h : heap) (capacity : Z) : option as_bytes :=
  let '(ok, h) := cf_malloc h in
  if negb ok then None
  else Some (as_bytes_cons (fst (cf_malloc h)) capacity 0 None true AS_BYTES_BLOB).

Definition as_bytes_new_wrap (h : heap) (value : list Z) (size : Z) (free : bool) : option as_bytes :=
  if negb (fst (cf_malloc h)) then None
  else Some (as_bytes_cons true size size (Some value) free AS_BYTES_BLOB).

(** ** Properties of a value; a NULL object is [None] *)

Definition as_bytes_size (b : option as_bytes) : Z := match b with Some b => by_size b | None => 0 end.
Definition as_bytes_capacity (b : option as_bytes) : Z := match b with Some b => by_capacity b | None => 0 end.
Definition as_bytes_get_type (b : option as_bytes) : Z := match b with Some b => by_type b | None => 0 end.
Definition as_bytes_set_type (b : as_bytes) (type : Z) : as_bytes :=
  mk_bytes (by_capacity b) (by_size b) (by_value b) (by_free b) type.
Definition as_bytes_getorelse (b : option as_bytes) (fallback : option (list Z)) : option (list Z) :=
  match b with Some b => by_value b | None => fallback end.
Definition as_bytes_get (b : option as_bytes) : option (list Z) := as_bytes_getorelse b None.

(** ** Reading at an index *)

(** The number of bytes copied, and the destination. *)
Definition as_bytes_copy (b : as_bytes) (index : Z) (value : list Z) (size : Z) : option (Z * list Z) :=
  let sz := if by_size b <? u32 (index + size) then 0 else size in
  if sz =? 0 then Some (sz, value)
  else
    src ← by_value b;
    bytes ← mslice src index sz;
    value ← mwrite value 0 bytes;
    Some (sz, value).

Definition as_bytes_get_byte (b : as_bytes) (index value : Z) : option (Z * Z) :=
  '(sz, mem) ← as_bytes_copy b index (mem_of host_endian 1 value) 1; Some (sz, of_mem host_endian mem).

(** The bytes of the integer are those of the host. *)
Definition as_bytes_get_int16 (b : as_bytes) (index value : Z) : option (Z * Z) :=
  '(sz, mem) ← as_bytes_copy b index (mem_of host_endian 2 value) 2; Some (sz, i16 (of_mem host_endian mem)).
Definition as_bytes_get_int32 (b : as_bytes) (index value : Z) : option (Z * Z) :=
  '(sz, mem) ← as_bytes_copy b index (mem_of host_endian 4 value) 4; Some (sz, i32 (of_mem host_endian mem)).
Definition as_bytes_get_int64 (b : as_bytes) (index value : Z) : option (Z * Z) :=
  '(sz, mem) ← as_bytes_copy b index (mem_of host_endian 8 value) 8; Some (sz, i64 (of_mem host_endian mem)).

(** [do { b = *p++; val |= (b & 0x7F) << shift; shift += 7; } while (b & 0x80)];
    the count of bytes read so far is [n].  A shift by 32 or more is undefined,
    and so is reading past the block: the size is not looked at. *)
Fixpoint var_int_loop (p : list Z) (val shift n : Z) : option (Z * Z) :=
  match p with
  | [] => None
  | b :: p =>
      if 32 <=? shift then None
      else
        let val := Z.lor val (u32 (Z.shiftl (Z.land b 0x7F) shift)) in
        if Z.land b 0x80 =? 0 then Some (n + 1, val)
        else var_int_loop p val (shift + 7) (n + 1)
  end.

Definition as_bytes_get_var_int (b : as_bytes) (index : Z) : option (Z * Z) :=
  src ← by_value b;
  if decide (0 <= index <= blen src) then var_int_loop (drop (Z.to_nat index) src) 0 0 0 else None.

(** ** Writing at an index *)

Definition with_value (b : as_bytes) (size : Z) (value : list Z) : as_bytes :=
  mk_bytes (by_capacity b) size (Some value) (by_free b) (by_type b).

(** [value] is the source, of which [size] bytes are copied. *)
Definition as_bytes_set (b : as_bytes) (index : Z) (value : list Z) (size : Z) : option (bool * as_bytes) :=
  if by_capacity b <? u32 (index + size) then Some (false, b)
  else
    dst ← by_value b;
    bytes ← mslice value 0 size;
    dst ← mwrite dst index bytes;
    Some (true, with_value b (if by_size b <? u32 (index + size) then u32 (index + size) else by_size b) dst).

Definition as_bytes_set_byte (b : as_bytes) (index value : Z) : option (bool * as_bytes) :=
  as_bytes_set b index (mem_of host_endian 1 value) 1.
Definition as_bytes_set_int16 (b : as_bytes) (index value : Z) : option (bool * as_bytes) :=
  as_bytes_set b index (mem_of host_endian 2 value) 2.
Definition as_bytes_set_int32 (b : as_bytes) (index value : Z) : option (bool * as_bytes) :=
  as_bytes_set b index (mem_of host_endian 4 value) 4.
Definition as_bytes_set_int64 (b : as_bytes) (index value : Z) : option (bool * as_bytes) :=
  as_bytes_set b index (mem_of host_endian 8 value) 8.

(** [while (p < end && value >= 0x80)], at most five times for 32 bits: [n]
    counts the steps left. *)
Fixpoint set_var_int_loop (n : nat) (dst : list Z) (p fin value : Z) : option (list Z * Z * Z) :=
  match n with
  | O => Some (dst, p, value)
  | S n =>
      if (p <? fin) && (0x80 <=? value) then
        dst ← aset dst p (u8 (Z.lor value 0x80));
        set_var_int_loop n dst (p + 1) fin (Z.shiftr value 7)
      else Some (dst, p, value)
  end.

(** The number of bytes written; the size of the array does not change. *)
Definition as_bytes_set_var_int (b : as_bytes) (index value : Z) : option (Z * as_bytes) :=
  dst ← by_value b;
  '(dst, p, value) ← set_var_int_loop 5 dst index (by_capacity b) value;
  if p <? by_capacity b then
    dst ← aset dst p (u8 value);
    Some (u32 (p + 1 - index), with_value b (by_size b) dst)
  else Some (0, with_value b (by_size b) dst).

(** ** Appending *)

Definition as_bytes_append (b : as_bytes) (value : list Z) (size : Z) : option (bool * as_bytes) :=
  as_bytes_set b (by_size b) value size.

Definition as_bytes_append_byte (b : as_bytes) (value : Z) : option (bool * as_bytes) :=
  as_bytes_append b (mem_of host_endian 1 value) 1.
Definition as_bytes_append_int16 (b : as_bytes) (value : Z) : option (bool * as_bytes) :=
  as_bytes_append b (mem_of host_endian 2 value) 2.
Definition as_bytes_append_int32 (b : as_bytes) (value : Z) : option (bool * as_bytes) :=
  as_bytes_append b (mem_of host_endian 4 value) 4.
Definition as_bytes_append_int64 (b : as_bytes) (value : Z) : option (bool * as_bytes) :=
  as_bytes_append b (mem_of host_endian 8 value) 8.

(** ** The buffer *)

Definition as_bytes_truncate (b : as_bytes) (n : Z) : bool * as_bytes :=
  if by_size b <? n then (false, b)
  else (true, mk_bytes (by_capacity b) (by_size b - n) (by_value b) (by_free b) (by_type b)).

(** [block] is the answer of the allocator, a block of [capacity] bytes: a
    [cf_realloc] keeps the old bytes at its front. *)
Definition as_bytes_ensure (block : option (list Z)) (b : as_bytes) (capacity : Z) (resize : bool)
  : option (bool * as_bytes) :=
  if capacity <=? by_capacity b then Some (true, b)
  else if negb resize then Some (false, b)
  else
    match block with
    | None => Some (false, b)
    | Some new =>
        buffer ← (if by_free b then
                    let old := default [] (by_value b) in Some (old ++ drop (length old) new)
                  else
                    old ← by_value b; bytes ← mslice old 0 (by_size b); mwrite new 0 bytes);
        Some (true, mk_bytes capacity (by_size b) (Some buffer) true (by_type b))
    end.

(** ** As a value *)

(** Whether [cf_free] is called on the bytes. *)
Definition as_bytes_val_destroy (b : as_bytes) : bool :=
  by_free b && match by_value b with Some _ => true | None => false end.

Definition hex_chars : list Z := [48; 49; 50; 51; 52; 53; 54; 55; 56; 57; 65; 66; 67; 68; 69; 70].

(** [str[j] = ..; str[j+1] = ..; str[j+2] = ' '; j += 3] for each byte. *)
Fixpoint tostring_loop (s : list Z) (str : list Z) (j : Z) : option (list Z * Z) :=
  match s with
  | [] => Some (str, j)
  | c :: s =>
      hi ← aget hex_chars (Z.shiftr c 4);
      lo ← aget hex_chars (Z.land c 0xf);
      str ← aset str j hi;
      str ← aset str (j + 1) lo;
      str ← aset str (j + 2) 32;
      tostring_loop s str (j + 3)
  end.

(** The text without its terminating NUL; [Some None] is NULL.  [new] is the
    allocator's answer for [st] bytes; the size is computed with 32 bits. *)
Definition as_bytes_val_tostring (new : Z -> option (list Z)) (b : as_bytes) : option (option (list Z)) :=
  match by_value b with
  | None => Some None
  | Some s =>
      if by_size b =? 0 then Some None
      else
        match new (u32 (4 * by_size b + 3)) with
        | None => Some None
        | Some str =>
            bytes ← mslice s 0 (by_size b);
            '(str, j) ← tostring_loop bytes str 0;
            str ← aset str (j - 1) 0;
            Some (Some (c_str str))
        end
  end.

End Bytes.

(** ** A byte array is a bounded list of bytes *)

(** [b] holds [l] and has room for [by_capacity b] bytes. *)
Definition by_rep (b : as_bytes) (l : list Z) : Prop :=
  exists rest, by_value b = Some (l ++ rest) /\ by_size b = blen l
    /\ by_capacity b = blen (l ++ rest) /\ by_capacity b < 2 ^ 32.

Inductive byop :=
  | BSet (index : Z) (value : list Z)
  | BAppend (value : list Z)
  | BTruncate (n : Z)
  | BEnsure (capacity : Z) (resize : bool) (block : option (list Z))
  | BCopy (index : Z) (dst : list Z) (n : Z).

(** An answer: whether it was done or how much was copied, and the destination
    of a copy. *)
Definition by_exec (b : as_bytes) (op : byop) : option (Z * list Z * as_bytes) :=
  match op with
  | BSet index value => '(r, b) ← as_bytes_set b index value (blen value); Some (Z.b2z r, [], b)
  | BAppend value => '(r, b) ← as_bytes_append b value (blen value); Some (Z.b2z r, [], b)
  | BTruncate n => let '(r, b) := as_bytes_truncate b n in Some (Z.b2z r, [], b)
  | BEnsure capacity resize block => '(r, b) ← as_bytes_ensure block b capacity resize; Some (Z.b2z r, [], b)
  | BCopy index dst n => '(sz, dst) ← as_bytes_copy b index dst n; Some (sz, dst, b)
  end.

(** The same on a list [l] that may hold up to [cap] bytes. *)
Definition by_spec (l : list Z) (cap : Z) (op : byop) : Z * list Z * (list Z * Z) :=
  match op with
  | BSet index value =>
      if cap <? index + blen value then (0, [], (l, cap))
      else (1, [], (take (Z.to_nat index) l ++ value ++ drop (Z.to_nat index + length value) l, cap))
  | BAppend value =>
      if cap <? blen l + blen value then (0, [], (l, cap)) else (1, [], (l ++ value, cap))
  | BTruncate n =>
      if blen l <? n then (0, [], (l, cap)) else (1, [], (take (Z.to_nat (blen l - n)) l, cap))
  | BEnsure capacity resize block =>
      if capacity <=? cap then (1, [], (l, cap))
      else if resize && bool_decide (is_Some block) then (1, [], (l, capacity)) else (0, [], (l, cap))
  | BCopy index dst n =>
      if (blen l <? index + n) || (n =? 0) then (0, dst, (l, cap))
      else (n, take (Z.to_nat n) (drop (Z.to_nat index) l) ++ drop (Z.to_nat n) dst, (l, cap))
  end.

(** Writes start inside the array, indices do not wrap, a new block has the size
    that was asked for, a copy fits its destination. *)
Definition by_pre (l : list Z) (op : byop) : Prop :=
  match op with
  | BSet index value => 0 <= index <= blen l /\ index + blen value < 2 ^ 32
  | BAppend value => blen l + blen value < 2 ^ 32
  | BTruncate n => 0 <= n
  | BEnsure capacity _ block =>
      capacity < 2 ^ 32 /\ match block with Some new => blen new = capacity | None => True end
  | BCopy index dst n => 0 <= index /\ 0 <= n <= blen dst /\ index + n < 2 ^ 32
  end.

Lemma set_bytes_ok b l index value :
  by_rep b l -> by_pre l (BSet index value) ->
  exists b', by_exec b (BSet index value)
             = Some ((by_spec l (by_capacity b) (BSet index value)).1, b')
    /\ by_rep b' (by_spec l (by_capacity b) (BSet index value)).2.1
    /\ by_capacity b' = (by_spec l (by_capacity b) (BSet index value)).2.2.
Proof.
  intros (rest & Hv & Hs & Hc & Hmax) [Hi Hw]. cbn [by_exec by_spec]. unfold as_bytes_set.
  rewrite u32_id by (unfold is_u32; lia).
  destruct (by_capacity b <? index + blen value) eqn:E; reflect_Z.
  { exists b. split; [done|]. split; [by exists rest|done]. }
  rewrite Hv. cbn [mbind option_bind]. rewrite mslice_take by lia. rewrite Nat2Z.id, firstn_all.
  cbn [mbind option_bind]. rewrite length_app in Hc. unfold mwrite. rewrite decide_True by (rewrite length_app; lia).
  cbn [mbind option_bind]. eexists. split; [done|]. split; [|done]. simpl.
  exists (drop (length value - (length l - Z.to_nat index)) rest). simpl.
  rewrite take_app_le by lia. rewrite drop_app.
  split; [rewrite <- !app_assoc; do 5 f_equal; lia|].
  rewrite !length_app, !length_take, !length_drop. split_and!; [case_if; reflect_Z; lia|lia|lia].
Qed.

Lemma append_bytes_ok b l value :
  by_rep b l -> by_pre l (BAppend value) ->
  exists b', by_exec b (BAppend value) = Some ((by_spec l (by_capacity b) (BAppend value)).1, b')
    /\ by_rep b' (by_spec l (by_capacity b) (BAppend value)).2.1
    /\ by_capacity b' = (by_spec l (by_capacity b) (BAppend value)).2.2.
Proof.
  intros Hrep Hp. pose proof Hrep as (rest & _ & Hs & _). simpl in Hp.
  destruct (set_bytes_ok b l (blen l) value Hrep) as (b' & He & Hr & Hc); [split; lia|].
  exists b'. cbn [by_exec by_spec] in *. unfold as_bytes_append. rewrite Hs.
  rewrite Nat2Z.id, firstn_all, drop_ge, app_nil_r in * by lia. by destruct (by_capacity b <? _).
Qed.

Lemma ensure_bytes_ok b l capacity resize block :
  by_rep b l -> by_pre l (BEnsure capacity resize block) ->
  exists b', by_exec b (BEnsure capacity resize block)
             = Some ((by_spec l (by_capacity b) (BEnsure capacity resize block)).1, b')
    /\ by_rep b' (by_spec l (by_capacity b) (BEnsure capacity resize block)).2.1
    /\ by_capacity b' = (by_spec l (by_capacity b) (BEnsure capacity resize block)).2.2.
Proof.
  intros Hrep [Hcap Hb]. pose proof Hrep as (rest & Hv & Hs & Hc & Hmax).
  cbn [by_exec by_spec]. unfold as_bytes_ensure.
  destruct (capacity <=? by_capacity b) eqn:E; reflect_Z; [by exists b|].
  destruct resize; [|by exists b]. destruct block as [new|]; [|by exists b]. cbn [negb andb].
  rewrite bool_decide_eq_true_2 by by eexists. rewrite length_app in Hc. rewrite Hv. simpl default.
  destruct (by_free b); cbn [mbind option_bind]; [|rewrite mslice_take by (rewrite length_app; lia)].
  - eexists. split; [done|]. split; [|done]. eexists. simpl. rewrite <- app_assoc. split; [done|].
    split; [done|]. rewrite !length_app, length_drop. lia.
  - rewrite Hs, Nat2Z.id, take_app_length. cbn [mbind option_bind].
    unfold mwrite. rewrite decide_True by lia. cbn [mbind option_bind].
    eexists. split; [done|]. split; [|done]. eexists. simpl. split; [done|]. split; [done|].
    rewrite !length_app, length_drop. lia.
Qed.

Lemma by_step_refines b l op :
  by_rep b l -> by_pre l op ->
  exists b', by_exec b op = Some ((by_spec l (by_capacity b) op).1, b')
    /\ by_rep b' (by_spec l (by_capacity b) op).2.1 /\ by_capacity b' = (by_spec l (by_capacity b) op).2.2.
Proof.
  intros Hrep. destruct op as [index value|value|n|capacity resize block|index dst n].
  - by apply set_bytes_ok.
  - by apply append_bytes_ok.
  - intros Hn. simpl in Hn. pose proof Hrep as (rest & Hv & Hs & Hc & Hmax).
    cbn [by_exec by_spec]. unfold as_bytes_truncate. rewrite Hs.
    destruct (blen l <? n) eqn:E; reflect_Z; [by exists b|].
    eexists. split; [done|]. split; [|done]. exists (drop (Z.to_nat (blen l - n)) l ++ rest). simpl.
    rewrite app_assoc, take_drop. split; [done|]. rewrite length_take. split_and!; [lia|done|done].
  - by apply ensure_bytes_ok.
  - intros (Hi & Hn & Hw). pose proof Hrep as (rest & Hv & Hs & Hc & Hmax).
    cbn [by_exec by_spec]. unfold as_bytes_copy. rewrite u32_id by (unfold is_u32; lia). rewrite Hs.
    destruct (blen l <? index + n) eqn:E; reflect_Z; [by exists b|]. cbn [orb].
    destruct (n =? 0) eqn:E0; reflect_Z; [subst; by exists b|]. rewrite Hv. cbn [mbind option_bind].
    unfold mslice. rewrite decide_True by (rewrite length_app; lia). cbn [mbind option_bind].
    rewrite drop_app_le, take_app_le by (rewrite ?length_drop; lia).
    unfold mwrite. rewrite decide_True by (rewrite length_take, length_drop; lia). cbn [mbind option_bind].
    exists b. rewrite length_take, length_drop, Nat.min_l by lia. by split.
Qed.

Fixpoint by_run (b : as_bytes) (ops : list byop) : option (list (Z * list Z) * as_bytes) :=
  match ops with
  | [] => Some ([], b)
  | op :: ops => '(a, b) ← by_exec b op; '(outs, b) ← by_run b ops; Some (a :: outs, b)
  end.

Fixpoint by_run_spec (l : list Z) (cap : Z) (ops : list byop) : list (Z * list Z) * (list Z * Z) :=
  match ops with
  | [] => ([], (l, cap))
  | op :: ops =>
      let '(a, (l, cap)) := by_spec l cap op in
      let '(outs, r) := by_run_spec l cap ops in (a :: outs, r)
  end.

Fixpoint by_run_pre (l : list Z) (cap : Z) (ops : list byop) : Prop :=
  match ops with
  | [] => True
  | op :: ops => by_pre l op /\ let '(_, (l, cap)) := by_spec l cap op in by_run_pre l cap ops
  end.


(** ** Integers *)

(** What is written at an index is read there. *)
Lemma set_get b l index mem :
  by_rep b l -> 0 <= index <= blen l -> 0 < blen mem -> index + blen mem <= by_capacity b ->
  exists b', as_bytes_set b index mem (blen mem) = Some (true, b')
    /\ forall dst, blen dst = blen mem -> as_bytes_copy b' index dst (blen mem) = Some (blen mem, mem).
Proof.
  intros Hrep Hi Hm Hc. pose proof Hrep as (_ & _ & _ & _ & Hmax).
  destruct (by_step_refines b l (BSet index mem) Hrep) as (b' & He & Hr & _); [split; lia|].
  cbn [by_exec by_spec] in *. rewrite (proj2 (Z.ltb_ge _ _)) in * by lia. simpl in Hr.
  destruct (as_bytes_set _ _ _ _) as [[r b1]|]; [|done]. simpl in He. injection He as Hr1 <-.
  exists b1. split; [by destruct r|]. intros dst Hd.
  destruct (by_step_refines b1 _ (BCopy index dst (blen mem)) Hr) as (b2 & He & _ & _); [simpl; lia|].
  cbn [by_exec by_spec] in He. rewrite !length_app, length_take, length_drop in He.
  rewrite (proj2 (Z.ltb_ge _ _)), (proj2 (Z.eqb_neq _ _)) in He by lia. cbn [orb] in He.
  destruct (as_bytes_copy _ _ _ _) as [[sz d]|]; [|done]. simpl in He. injection He as -> -> _.
  rewrite (drop_ge dst) by lia. rewrite app_nil_r.
  rewrite drop_app_length' by (rewrite length_take; lia). by rewrite Nat2Z.id, take_app_length.
Qed.

Section Integers.
Context `{Platform}.

Definition trip (set : as_bytes -> Z -> Z -> option (bool * as_bytes)) (get : as_bytes -> Z -> Z -> option (Z * Z))
    (b : as_bytes) (index n v : Z) : Prop :=
  exists b', set b index v = Some (true, b') /\ forall x, get b' index x = Some (n, v).

Lemma trip_ok n (set : as_bytes -> Z -> Z -> option (bool * as_bytes)) get conv b l index v :
  by_rep b l -> 0 <= index <= blen l -> index + Z.of_nat n <= by_capacity b -> (0 < n)%nat ->
  (forall b index v, set b index v = as_bytes_set b index (mem_of host_endian n v) (Z.of_nat n)) ->
  (forall b index x, get b index x = '(sz, mem) ← as_bytes_copy b index (mem_of host_endian n x) (Z.of_nat n);
                                     Some (sz, conv (of_mem host_endian mem))) ->
  conv (v mod 256 ^ Z.of_nat n) = v ->
  trip set get b index (Z.of_nat n) v.
Proof.
  intros Hrep Hi Hc Hn Hset Hget Hv. pose proof (mem_of_length host_endian n) as Hl.
  destruct (set_get b l index (mem_of host_endian n v) Hrep Hi) as (b' & Hs & Hg); [rewrite Hl; lia..|].
  rewrite Hl in *. exists b'. split; [by rewrite Hset|]. intros x. rewrite Hget, Hg by (by rewrite Hl).
  cbn [mbind option_bind]. by rewrite of_mem_mem_of, Hv.
Qed.

(** Integers.  A byte and signed integers of 16, 32 and 64 bits are read back
    as they were written, whatever the byte order of the host. *)
Theorem bytes_int_roundtrip b l index v :
  by_rep b l -> 0 <= index <= blen l -> index + 8 <= by_capacity b ->
  (is_byte v -> trip as_bytes_set_byte as_bytes_get_byte b index 1 v)
  /\ (- 2 ^ 15 <= v < 2 ^ 15 -> trip as_bytes_set_int16 as_bytes_get_int16 b index 2 v)
  /\ (- 2 ^ 31 <= v < 2 ^ 31 -> trip as_bytes_set_int32 as_bytes_get_int32 b index 4 v)
  /\ (is_i64 v -> trip as_bytes_set_int64 as_bytes_get_int64 b index 8 v).
Proof.
  intros Hrep Hi Hc. split; [|split; [|split]]; intros Hv.
  - apply (trip_ok 1 _ _ id b l); try done; [lia|lia|]. by apply u8_id.
  - apply (trip_ok 2 _ _ i16 b l); try done; [lia|lia|]. change (i16 (u16 v) = v).
    by rewrite i16_u16, i16_id by lia.
  - apply (trip_ok 4 _ _ i32 b l); try done; [lia|lia|]. change (i32 (u32 v) = v).
    by rewrite i32_u32, i32_id by lia.
  - apply (trip_ok 8 _ _ i64 b l); try done; [lia|]. change (i64 (u64 v) = v).
    by rewrite i64_u64, i64_id.
Qed.

End Integers.

(** ** Variable-length integers *)

(** Seven bits to a byte, the low ones first; the high bit says that more follow. *)
Fixpoint var_bytes (n : nat) (v : Z) : list Z :=
  match n with
  | O => [u8 v]
  | S n => if 0x80 <=? v then u8 (Z.lor v 0x80) :: var_bytes n (Z.shiftr v 7) else [u8 v]
  end.

Lemma var_byte v :
  Z.land (u8 (Z.lor v 0x80)) 0x7F = v mod 128 /\ Z.land (u8 (Z.lor v 0x80)) 0x80 = 0x80.
Proof.
  unfold u8. change 0x7F with (Z.ones 7). change (v mod 128) with (v mod 2 ^ 7). rewrite <- (Z.land_ones v 7) by lia. split.
  - apply Z.bits_inj'. intros i Hi. rewrite !Z.land_spec, Z.testbit_ones_nonneg by lia.
    destruct (i <? 7) eqn:E; reflect_Z; [|by rewrite !andb_false_r]. rewrite !andb_true_r.
    rewrite Z.mod_pow2_bits_low by lia. rewrite Z.lor_spec.
    change 0x80 with (2 ^ 7). by rewrite Z.pow2_bits_false, orb_false_r by lia.
  - change 0x80 with (2 ^ 7) at 2 3. apply Z.bits_inj'. intros i Hi. rewrite Z.land_spec.
    destruct (decide (i = 7)) as [->|Hne].
    + rewrite Z.pow2_bits_true, andb_true_r, Z.mod_pow2_bits_low, Z.lor_spec by lia.
      change 0x80 with (2 ^ 7). by rewrite Z.pow2_bits_true, orb_true_r by lia.
    + by rewrite Z.pow2_bits_false, andb_false_r by lia.
Qed.

(** The bits of [v] from [s] on: the low seven, and the rest. *)
Lemma shiftl_split v s :
  0 <= s -> Z.lor (Z.shiftl (v mod 128) s) (Z.shiftl (Z.shiftr v 7) (s + 7)) = Z.shiftl v s.
Proof.
  intros Hs. change 128 with (2 ^ 7). rewrite <- Z.land_ones by lia. apply Z.bits_inj'. intros i Hi.
  rewrite Z.lor_spec, !Z.shiftl_spec by lia.
  destruct (decide (i < s)) as [H0|H0].
  { by rewrite !Z.testbit_neg_r by lia. }
  rewrite Z.land_spec. destruct (decide (i < s + 7)) as [H1|H1].
  - rewrite (Z.testbit_neg_r _ (i - (s + 7))), orb_false_r by lia.
    by rewrite Z.ones_spec_low, andb_true_r by lia.
  - rewrite Z.ones_spec_high, andb_false_r, Z.shiftr_spec by lia. cbn [orb]. f_equal. lia.
Qed.

Lemma small_byte v : 0 <= v < 128 -> u8 v = v /\ Z.land v 0x80 = 0 /\ Z.land v 0x7F = v.
Proof.
  intros Hv. split; [apply u8_id; unfold is_byte; lia|].
  split; [by apply (range_check_eq 0 128 (fun v => Z.land v 0x80) (fun _ => 0))|].
  by apply (range_check_eq 0 128 (fun v => Z.land v 0x7F) id).
Qed.

(** The last byte of an integer. *)
Lemma get_var_int_last v rest acc s k :
  0 <= v < 128 -> 0 <= s < 32 -> v * 2 ^ s < 2 ^ 32 ->
  var_int_loop (u8 v :: rest) acc s k = Some (k + 1, Z.lor acc (Z.shiftl v s)).
Proof.
  intros Hv Hs Hmax. destruct (small_byte v Hv) as (-> & E1 & E2). cbn [var_int_loop].
  rewrite (proj2 (Z.leb_gt _ _)), E1, E2 by lia. cbn [Z.eqb].
  by rewrite u32_id by (unfold is_u32; rewrite Z.shiftl_mul_pow2 by lia; nia).
Qed.

Lemma get_var_int_loop n v rest acc s k :
  0 <= v -> v * 2 ^ s < 2 ^ 32 -> (n <= 4)%nat -> s = 7 * (4 - Z.of_nat n) ->
  var_int_loop (var_bytes n v ++ rest) acc s k
  = Some (k + blen (var_bytes n v), Z.lor acc (Z.shiftl v s)).
Proof.
  revert v acc s k. induction n as [|n IH]; intros v acc s k Hv Hmax Hn Es.
  { change (7 * (4 - Z.of_nat 0)) with 28 in Es. subst s. apply get_var_int_last; lia. }
  assert (0 <= s < 32) as Hs by lia. cbn [var_bytes].
  destruct (0x80 <=? v) eqn:E; reflect_Z; [|apply get_var_int_last; lia].
  cbn [app var_int_loop]. rewrite (proj2 (Z.leb_gt _ _)) by lia. destruct (var_byte v) as [-> ->]. cbn [Z.eqb].
  assert (v mod 128 * 2 ^ s < 2 ^ 32) as Hlow by (pose proof (Z.mod_le v 128); nia).
  rewrite u32_id by (unfold is_u32; rewrite Z.shiftl_mul_pow2 by lia; pose proof (Z.mod_pos_bound v 128); nia).
  rewrite IH; [|apply Z.shiftr_nonneg; lia| |lia|lia].
  - rewrite <- Z.lor_assoc, shiftl_split by lia. rewrite length_cons. do 2 f_equal. lia.
  - rewrite Z.shiftr_div_pow2, Z.pow_add_r by lia. change (2 ^ 7) with 128.
    pose proof (Z.mul_div_le v 128). nia.
Qed.

(** The loop writes all bytes but the last, or stops at the end of the array. *)
Lemma set_var_int_loop_ok n v pre old fin :
  0 <= v < 2 ^ (7 * (Z.of_nat n + 1)) -> fin = blen (pre ++ old) ->
  exists dst' p v', set_var_int_loop (S n) (pre ++ old) (blen pre) fin v = Some (dst', p, v')
    /\ length dst' = length (pre ++ old)
    /\ if (length (var_bytes n v) <=? length old)%nat
       then p < fin /\ p + 1 = blen pre + blen (var_bytes n v)
            /\ aset dst' p (u8 v') = Some (pre ++ var_bytes n v ++ drop (length (var_bytes n v)) old)
       else p = fin.
Proof.
  revert v pre old. induction n as [|n IH]; intros v pre old Hv Hfin;
    (destruct old as [|o old];
     [exists pre, (blen pre), v; rewrite app_nil_r in *; cbn [set_var_int_loop var_bytes];
      rewrite (proj2 (Z.ltb_ge _ _)) by lia; repeat case_if; done|]);
    assert (blen pre < fin) as Hlt by (subst; rewrite length_app; simpl; lia).
  - exists (pre ++ o :: old), (blen pre), v. cbn [set_var_int_loop var_bytes].
    rewrite (proj2 (Z.leb_gt 0x80 v)), andb_false_r by lia. split; [done|]. split; [done|]. simpl.
    split; [done|]. split; [done|]. by apply aset_middle.
  - cbn [set_var_int_loop var_bytes]. rewrite (proj2 (Z.ltb_lt _ fin) Hlt). cbn [andb].
    destruct (0x80 <=? v) eqn:E; reflect_Z.
    + rewrite aset_middle by done. cbn [mbind option_bind]. set (b := u8 (Z.lor v 0x80)).
      replace (pre ++ b :: old) with ((pre ++ [b]) ++ old) by (by rewrite <- app_assoc).
      destruct (IH (Z.shiftr v 7) (pre ++ [b]) old) as (dst' & p & v' & Hloop & Hlen & Hcase).
      * split; [apply Z.shiftr_nonneg; lia|]. rewrite Z.shiftr_div_pow2 by lia.
        apply Z.div_lt_upper_bound; [lia|]. rewrite <- Z.pow_add_r by lia. eapply Z.lt_le_trans; [apply Hv|].
        apply Z.pow_le_mono_r; lia.
      * subst fin. rewrite !length_app. simpl. lia.
      * replace (blen (pre ++ [b])) with (blen pre + 1) in Hloop by (rewrite length_app; simpl; lia).
        exists dst', p, v'. split; [exact Hloop|]. split; [rewrite Hlen, !length_app; simpl; lia|].
        cbn [length Nat.leb drop]. rewrite length_app in Hcase. simpl length in Hcase.
        destruct (length (var_bytes n (Z.shiftr v 7)) <=? length old)%nat; [|done].
        destruct Hcase as (H1 & H2 & H3). split; [done|]. split; [lia|]. by rewrite H3, <- app_assoc.
    + exists (pre ++ o :: old), (blen pre), v. split; [done|]. split; [done|]. simpl.
      split; [done|]. split; [done|]. by apply aset_middle.
Qed.

Lemma var_bytes_length n v : (length (var_bytes n v) <= S n)%nat.
Proof. revert v. induction n as [|n IH]; intros v; simpl; [lia|]. case_if; simpl; [specialize (IH (Z.shiftr v 7))|]; lia. Qed.

Lemma var_bytes_pos n v : (1 <= length (var_bytes n v))%nat.
Proof. destruct n; cbn [var_bytes]; [|case_if]; simpl; lia. Qed.

(** Variable-length integers.  Writing a 32-bit integer takes at most five
    bytes, which are read back as the same integer, wherever they lie in the
    array; when they do not fit, the answer is 0. *)
Theorem var_int_roundtrip b l index value :
  by_rep b l -> 0 <= index <= by_capacity b -> is_u32 value ->
  exists n b', as_bytes_set_var_int b index value = Some (n, b')
    /\ 0 <= n <= 5 /\ by_size b' = by_size b
    /\ (n = 0 <-> by_capacity b < index + blen (var_bytes 4 value))
    /\ (n <> 0 -> as_bytes_get_var_int b' index = Some (n, value)).
Proof.
  intros (rest & Hv & Hs & Hc & Hmax) Hi Hval. unfold is_u32 in Hval.
  unfold as_bytes_set_var_int. rewrite Hv. cbn [mbind option_bind].
  set (pre := take (Z.to_nat index) (l ++ rest)). set (old := drop (Z.to_nat index) (l ++ rest)).
  assert (l ++ rest = pre ++ old) as Ed by (symmetry; apply take_drop). rewrite Ed in *.
  assert (blen pre = index) as Hp by (unfold pre; rewrite Ed, length_take; lia).
  destruct (set_var_int_loop_ok 4 value pre old (by_capacity b)) as (dst & p & v & Hloop & Hlen & Hcase); [lia|done|].
  rewrite Hp in Hloop. rewrite Hloop. cbn [mbind option_bind].
  pose proof (var_bytes_length 4 value) as Hn.
  pose proof (var_bytes_pos 4 value) as Hn1.
  rewrite length_app in Hc.
  destruct (length (var_bytes 4 value) <=? length old)%nat eqn:E.
  - apply Nat.leb_le in E. destruct Hcase as (H1 & H2 & H3). rewrite (proj2 (Z.ltb_lt _ _) H1), H3.
    cbn [mbind option_bind]. rewrite u32_id by (unfold is_u32; lia).
    exists (p + 1 - index), (with_value b (by_size b) (pre ++ var_bytes 4 value ++ drop (length (var_bytes 4 value)) old)).
    split; [done|]. split; [lia|]. split; [done|]. split; [lia|]. intros _.
    unfold as_bytes_get_var_int. cbn [by_value with_value mbind option_bind].
    rewrite decide_True by (rewrite length_app; lia). rewrite drop_app_length' by lia.
    rewrite get_var_int_loop by (simpl; lia). rewrite Z.shiftl_0_r, Z.lor_0_l. do 2 f_equal. lia.
  - apply Nat.leb_gt in E. subst p. rewrite Z.ltb_irrefl. exists 0, (with_value b (by_size b) dst).
    split; [done|]. split; [lia|]. split; [done|]. split; [lia|done].
Qed.

(** ** Indices that wrap *)

(** Indices that wrap.  The end [index + size] is computed with 32 bits: when
    it wraps, the check passes and both the write and the read leave the block. *)
Theorem bytes_index_wraps b l index value :
  by_rep b l -> 0 <= index < 2 ^ 32 -> 2 ^ 32 <= index + blen value < 2 ^ 32 + by_capacity b ->
  as_bytes_set b index value (blen value) = None
  /\ (index + blen value <= 2 ^ 32 + by_size b -> as_bytes_copy b index value (blen value) = None).
Proof.
  intros (rest & Hv & Hs & Hc & Hmax) Hi Hw.
  assert (u32 (index + blen value) = index + blen value - 2 ^ 32) as Hu by width_lia. split.
  - unfold as_bytes_set. rewrite Hu, (proj2 (Z.ltb_ge _ _)), Hv by lia. cbn [mbind option_bind].
    rewrite mslice_take by lia. rewrite Nat2Z.id, firstn_all. cbn [mbind option_bind].
    unfold mwrite. by rewrite decide_False by lia.
  - intros Hsz. unfold as_bytes_copy. rewrite Hu, (proj2 (Z.ltb_ge _ _)), (proj2 (Z.eqb_neq _ _)), Hv by lia.
    cbn [mbind option_bind]. unfold mslice. by rewrite decide_False by lia.
Qed.

(** ** The text *)

Definition hex_digit (d : Z) : Z := if d <? 10 then 48 + d else 55 + d.

(** Two digits for every byte, separated by spaces. *)
Fixpoint hex_text (l : list Z) : list Z :=
  match l with
  | [] => []
  | [c] => [hex_digit (c / 16); hex_digit (c mod 16)]
  | c :: l => hex_digit (c / 16) :: hex_digit (c mod 16) :: 32 :: hex_text l
  end.

Definition hex_spaced (l : list Z) : list Z :=
  flat_map (fun c => [hex_digit (c / 16); hex_digit (c mod 16); 32]) l.

Lemma hex_digits c :
  is_byte c ->
  aget hex_chars (Z.shiftr c 4) = Some (hex_digit (c / 16)) /\ aget hex_chars (Z.land c 0xf) = Some (hex_digit (c mod 16)).
Proof.
  intros Hc. change 0xf with (Z.ones 4). rewrite Z.shiftr_div_pow2, Z.land_ones by lia.
  change (2 ^ 4) with 16. unfold is_byte in Hc.
  assert (forall d, 0 <= d < 16 -> aget hex_chars d = Some (hex_digit d)) as Hd.
  { intros d Hd. assert (d = 0 \/ d = 1 \/ d = 2 \/ d = 3 \/ d = 4 \/ d = 5 \/ d = 6 \/ d = 7 \/ d = 8 \/ d = 9
      \/ d = 10 \/ d = 11 \/ d = 12 \/ d = 13 \/ d = 14 \/ d = 15) as Hds by lia.
    by repeat destruct Hds as [->|Hds]; subst. }
  split; apply Hd; Z.div_mod_to_equations; lia.
Qed.

Lemma tostring_loop_ok l pre old :
  Forall is_byte l -> (3 * length l <= length old)%nat ->
  tostring_loop l (pre ++ old) (blen pre)
  = Some (pre ++ hex_spaced l ++ drop (3 * length l) old, blen pre + 3 * blen l).
Proof.
  intros Hl. revert pre old. induction Hl as [|c l Hc Hl IH]; intros pre old Hold.
  { simpl. rewrite drop_0. do 2 f_equal. lia. }
  destruct old as [|o1 [|o2 [|o3 old]]]; simpl in Hold; try lia.
  destruct (hex_digits c Hc) as [E1 E2]. cbn [tostring_loop]. rewrite E1, E2. cbn [mbind option_bind].
  set (h1 := hex_digit (c / 16)). set (h2 := hex_digit (c mod 16)).
  rewrite aset_middle by done. cbn [mbind option_bind].
  replace (pre ++ h1 :: o2 :: o3 :: old) with ((pre ++ [h1]) ++ o2 :: o3 :: old) by (by rewrite <- app_assoc).
  rewrite aset_middle by (rewrite length_app; simpl; lia). cbn [mbind option_bind].
  replace ((pre ++ [h1]) ++ h2 :: o3 :: old) with ((pre ++ [h1; h2]) ++ o3 :: old) by (by rewrite <- !app_assoc).
  rewrite aset_middle by (rewrite length_app; simpl; lia). cbn [mbind option_bind].
  replace ((pre ++ [h1; h2]) ++ 32 :: old) with ((pre ++ [h1; h2; 32]) ++ old) by (by rewrite <- !app_assoc).
  replace (blen pre + 3) with (blen (pre ++ [h1; h2; 32])) by (rewrite length_app; simpl; lia).
  rewrite IH by lia. rewrite length_app, <- app_assoc. simpl length.
  replace (3 * S (length l))%nat with (S (S (S (3 * length l)))) by lia. cbn [drop].
  do 2 f_equal. lia.
Qed.

(** All but the last space. *)
Lemma hex_spaced_text l : l <> [] -> hex_spaced l = hex_text l ++ [32].
Proof.
  induction l as [|c [|d l] IH]; intros Hl; [done|done|].
  change (hex_spaced (c :: d :: l))
    with (hex_digit (c / 16) :: hex_digit (c mod 16) :: 32 :: hex_spaced (d :: l)).
  by rewrite IH.
Qed.

Lemma c_str_app s post : Forall (fun c => c <> 0) s -> c_str (s ++ 0 :: post) = s.
Proof. induction 1 as [|c s Hc Hs IH]; [done|]. cbn [app c_str]. rewrite (proj2 (Z.eqb_neq _ _) Hc). by rewrite IH. Qed.

Lemma hex_text_chars l : Forall is_byte l -> Forall (fun c => c <> 0) (hex_text l).
Proof.
  assert (forall d, 0 <= d -> hex_digit d <> 0) as Hd by (intros d Hd; unfold hex_digit; case_if; reflect_Z; lia).
  assert (forall c, is_byte c -> hex_digit (c / 16) <> 0 /\ hex_digit (c mod 16) <> 0) as Hc.
  { intros c Hc. unfold is_byte in Hc. split; apply Hd; Z.div_mod_to_equations; lia. }
  induction 1 as [|c l H1 Hl IH]; [constructor|]. destruct (Hc c H1). destruct l; repeat constructor; done.
Qed.

(** The text of a byte array is its bytes in hexadecimal, two digits each,
    separated by spaces; it always fits the block allocated for it. *)
Theorem bytes_tostring new b l :
  by_rep b l -> Forall is_byte l -> l <> [] -> blen l < 2 ^ 30 - 1 ->
  (forall n str, 0 <= n -> new n = Some str -> blen str = n) ->
  as_bytes_val_tostring new b
  = Some ((fun _ => hex_text l) <$> new (4 * blen l + 3)).
Proof.
  intros (rest & Hv & Hs & Hc & Hmax) Hb Hl Hsz Hnew. unfold as_bytes_val_tostring. rewrite Hv, Hs.
  assert (0 < blen l) as Hpos by (destruct l; [done|simpl; lia]).
  rewrite (proj2 (Z.eqb_neq _ _)) by lia. rewrite u32_id by (unfold is_u32; lia).
  destruct (new (4 * blen l + 3)) as [str|] eqn:En; [|done]. apply Hnew in En; [|lia].
  rewrite mslice_take by (rewrite length_app; lia). rewrite Nat2Z.id, take_app_length. cbn [mbind option_bind].
  pose proof (tostring_loop_ok l [] str Hb ltac:(lia)) as Ht. cbn [app length] in Ht.
  change (Z.of_nat 0) with 0 in Ht. rewrite Ht. cbn [mbind option_bind].
  rewrite hex_spaced_text, <- app_assoc by done. cbn [app]. rewrite aset_middle.
  - cbn [mbind option_bind]. rewrite c_str_app by (by apply hex_text_chars). done.
  - assert (length (hex_spaced l) = 3 * length l)%nat as Hlen by (clear; induction l; simpl; lia).
    rewrite hex_spaced_text, length_app in Hlen by done. simpl in Hlen. lia.
Qed.

(** ** Witnesses *)

Definition stack_bytes : as_bytes := as_bytes_init_wrap [10; 20; 30; 40; 50; 60; 70; 80; 90; 100; 110; 120] 12 false.

Lemma stack_bytes_rep : by_rep stack_bytes [10; 20; 30; 40; 50; 60; 70; 80; 90; 100; 110; 120].
Proof. exists []. by split_and!. Qed.


Lemma bytes_int_roundtrip_witness :
  @trip (@as_bytes_set_int32 ppc64) (@as_bytes_get_int32 ppc64) stack_bytes 3 4 (-70000).
Proof.
  apply (@bytes_int_roundtrip ppc64 stack_bytes _ 3 (-70000) stack_bytes_rep); [simpl; lia|simpl; lia|lia].
Defined.

Lemma var_int_roundtrip_witness :
  exists n b', as_bytes_set_var_int stack_bytes 9 70000 = Some (n, b')
    /\ 0 <= n <= 5 /\ by_size b' = by_size stack_bytes
    /\ (n = 0 <-> by_capacity stack_bytes < 9 + blen (var_bytes 4 70000))
    /\ (n <> 0 -> as_bytes_get_var_int b' 9 = Some (n, 70000)).
Proof.
  apply (var_int_roundtrip stack_bytes _ 9 70000 stack_bytes_rep); [simpl; lia|unfold is_u32; lia].
Defined.

Lemma bytes_index_wraps_witness : as_bytes_set stack_bytes (2 ^ 32 - 1) [1; 2; 3] 3 = None.
Proof.
  apply (bytes_index_wraps stack_bytes _ (2 ^ 32 - 1) [1; 2; 3] stack_bytes_rep); simpl; lia.
Defined.

Lemma bytes_tostring_witness :
  as_bytes_val_tostring (fun n => Some (replicate (Z.to_nat n) 7)) (mk_bytes 2 2 (Some [0xab; 5]) true AS_BYTES_BLOB)
  = Some (Some [65; 66; 32; 48; 53]).
Proof.
  apply (bytes_tostring (fun n => Some (replicate (Z.to_nat n) 7)) (mk_bytes 2 2 (Some [0xab; 5]) true AS_BYTES_BLOB) [0xab; 5]).
  - exists []. by split_and!.
  - repeat constructor; unfold is_byte; lia.
  - discriminate.
  - simpl. lia.
  - intros n str Hn [= <-]. rewrite length_replicate. lia.
Defined.
