(* ===== verification/Msgpack.v ===== *)
(** * MessagePack

    Models [modules/common/src/main/aerospike/as_msgpack.c] and
    [as_msgpack_serializer.c]: packing a value into a chain of buffers, the
    size-only run, joining the buffers, and unpacking.

    The packer's allocations follow the oracle in its state.  The unpacker's
    allocations succeed; what it does with lengths that the wire makes negative
    or larger than the input is modelled. *)

From S2P Require Import Prelude ByteOrder ArrayList HashMap Value.

(** Addition of [int]s: overflow is undefined. *)
Definition iadd (a b : Z) : option Z :=
  if decide (- 2 ^ 31 <= a + b <= INT_MAX) then Some (a + b) else None.

(** ** The packer *)

Definition AS_PACKER_BUFFER_SIZE : Z := 8192.

Record as_packer_buffer := { pb_buffer : list Z; pb_length : Z }.

(** [pk_head] is the linked list of full buffers, [pk_heap] the outcomes of the
    allocations to come. *)
Record as_packer := mk_packer {
  pk_head : list as_packer_buffer;
  pk_buffer : option (list Z);
  pk_offset : Z;
  pk_capacity : Z;
  pk_heap : heap
}.

(** The bytes of a new block are arbitrary (0 here); none is read before it is
    written. *)
Definition fresh (size : Z) : list Z := replicate (Z.to_nat size) 0.

Definition as_pack_resize (pk : as_packer) (length : Z) : Z * as_packer :=
  let '(ok, h) := cf_malloc (pk_heap pk) in
  if negb ok then (-1, mk_packer (pk_head pk) (pk_buffer pk) (pk_offset pk) (pk_capacity pk) h)
  else
    let entry := {| pb_buffer := default [] (pk_buffer pk); pb_length := pk_offset pk |} in
    let size := if pk_capacity pk <? length then length else pk_capacity pk in
    let '(ok, h) := cf_malloc h in
    if negb ok then (-1, mk_packer (pk_head pk) None (pk_offset pk) (pk_capacity pk) h)
    else (0, mk_packer (pk_head pk ++ [entry]) (Some (fresh size)) 0 size h).

(** The common shape of the writers: make room for [length] bytes, copy them
    with [write], advance.  Without a buffer only the size is counted. *)
Definition pack_with (pk : as_packer) (length : Z) (src : option (list Z)) : option (Z * as_packer) :=
  match pk_buffer pk with
  | Some _ =>
      o ← iadd (pk_offset pk) length;
      let '(rc, pk) := if pk_capacity pk <? o then as_pack_resize pk length else (0, pk) in
      if negb (rc =? 0) then Some (-1, pk)
      else
        buf ← pk_buffer pk;
        bytes ← src;
        buf ← mwrite buf (pk_offset pk) bytes;
        o ← iadd (pk_offset pk) length;
        Some (0, mk_packer (pk_head pk) (Some buf) o (pk_capacity pk) (pk_heap pk))
  | None =>
      o ← iadd (pk_offset pk) length;
      Some (0, mk_packer (pk_head pk) None o (pk_capacity pk) (pk_heap pk))
  end.

Section Pack.
Context `{Platform}.

(** [memcpy] of a negative length or from beyond the source is undefined. *)
Definition as_pack_append (pk : as_packer) (src : list Z) (length : Z) : option (Z * as_packer) :=
  pack_with pk length (mslice src 0 length).

Definition as_pack_byte (pk : as_packer) (val : Z) : option (Z * as_packer) :=
  pack_with pk 1 (Some [val]).

Definition as_pack_int8 (pk : as_packer) (type val : Z) : option (Z * as_packer) :=
  pack_with pk 2 (Some [type; val]).

Definition as_pack_int16 (pk : as_packer) (type val : Z) : option (Z * as_packer) :=
  pack_with pk 3 (Some (type :: put_be16 host_endian val)).

Definition as_pack_int32 (pk : as_packer) (type val : Z) : option (Z * as_packer) :=
  pack_with pk 5 (Some (type :: put_be32 host_endian val)).

Definition as_pack_int64 (pk : as_packer) (type val : Z) : option (Z * as_packer) :=
  pack_with pk 9 (Some (type :: put_be64 host_endian val)).

Definition as_pack_boolean (pk : as_packer) (b : bool) : option (Z * as_packer) :=
  as_pack_byte pk (if b then 0xc3 else 0xc2).

(** The constant 0x80000000 is unsigned: the test for 32-bit negative numbers
    compares with 2147483648. *)
Definition as_pack_integer (pk : as_packer) (val : Z) : option (Z * as_packer) :=
  if 0 <=? val then
    if val <? 128 then as_pack_byte pk (u8 val)
    else if val <? 256 then as_pack_int8 pk 0xcc (u8 val)
    else if val <? 65536 then as_pack_int16 pk 0xcd (u16 val)
    else if val <? 4294967296 then as_pack_int32 pk 0xce (u32 val)
    else as_pack_int64 pk 0xcf (u64 val)
  else
    if -32 <=? val then as_pack_byte pk (u8 (Z.lor 0xe0 (val + 32)))
    else if -128 <=? val then as_pack_int8 pk 0xd0 (u8 val)
    else if -32768 <=? val then as_pack_int16 pk 0xd1 (u16 val)
    else if 0x80000000 <=? val then as_pack_int32 pk 0xd2 (u32 val)
    else as_pack_int64 pk 0xd3 (u64 val).

Definition as_pack_byte_array_header (pk : as_packer) (length type : Z) : option (Z * as_packer) :=
  let length := u32 (length + 1) in
  '(rc, pk) ← (if length <? 32 then as_pack_byte pk (u8 (Z.lor 0xa0 length))
               else if length <? 65536 then as_pack_int16 pk 0xda (u16 length)
               else as_pack_int32 pk 0xdb length);
  if rc =? 0 then as_pack_byte pk type else Some (rc, pk).

Definition as_pack_string (pk : as_packer) (value : list Z) : option (Z * as_packer) :=
  let length := u32 (blen value) in
  '(rc, pk) ← as_pack_byte_array_header pk length AS_BYTES_STRING;
  if rc =? 0 then as_pack_append pk value (i32 length) else Some (rc, pk).

Definition as_pack_bytes (pk : as_packer) (type : Z) (value : list Z) : option (Z * as_packer) :=
  let size := u32 (blen value) in
  '(rc, pk) ← as_pack_byte_array_header pk size (u8 type);
  if rc =? 0 then as_pack_append pk value (i32 size) else Some (rc, pk).

(** The header of a list (of a map): [small] for fewer than 16 elements, else
    [t16] or [t32] with the size. *)
Definition pack_container_header (pk : as_packer) (size small t16 t32 : Z) : option (Z * as_packer) :=
  if size <? 16 then as_pack_byte pk (u8 (Z.lor small size))
  else if size <? 65536 then as_pack_int16 pk t16 (u16 size)
  else as_pack_int32 pk t32 size.

(** [as_list_foreach] with [as_pack_list_foreach]. *)
Fixpoint pack_elements (pack : option as_val -> as_packer -> option (Z * as_packer))
    (l : list (option as_val)) (pk : as_packer) : option (bool * as_packer) :=
  match l with
  | [] => Some (true, pk)
  | v :: l =>
      '(rc, pk) ← pack v pk;
      if rc =? 0 then pack_elements pack l pk else Some (false, pk)
  end.

(** [as_map_foreach] with [as_pack_map_foreach]. *)
Fixpoint pack_entries (pack : option as_val -> as_packer -> option (Z * as_packer))
    (m : list (as_val * option as_val)) (pk : as_packer) : option (bool * as_packer) :=
  match m with
  | [] => Some (true, pk)
  | (k, v) :: m =>
      '(rc, pk) ← pack (Some k) pk;
      '(rc, pk) ← (if rc =? 0 then pack v pk else Some (rc, pk));
      if rc =? 0 then pack_entries pack m pk else Some (false, pk)
  end.

Definition as_pack_rec : Z := 1.

Fixpoint pack_val (v : as_val) (pk : as_packer) {struct v} : option (Z * as_packer) :=
  let pack_opt (v : option as_val) pk :=
    match v with Some v => pack_val v pk | None => Some (1, pk) end in
  match v with
  | VNil => as_pack_byte pk 0xc0
  | VBoolean b => as_pack_boolean pk b
  | VInteger val => as_pack_integer pk val
  | VString value => as_pack_string pk value
  | VBytes type value => as_pack_bytes pk type value
  | VList l =>
      '(rc, pk) ← pack_container_header pk (u32 (blen l)) 0x90 0xdc 0xdd;
      if rc =? 0 then
        '(go, pk) ← pack_elements pack_opt l pk;
        Some (if (go : bool) then 0 else 1, pk)
      else Some (rc, pk)
  | VMap m =>
      '(rc, pk) ← pack_container_header pk (u32 (blen m)) 0x80 0xde 0xdf;
      if rc =? 0 then
        '(go, pk) ← pack_entries pack_opt m pk;
        Some (if (go : bool) then 0 else 1, pk)
      else Some (rc, pk)
  | VRec _ => Some (as_pack_rec, pk)
  | VPair v1 v2 =>
      '(rc, pk) ← as_pack_append pk [Z.lor 0x90 2] 1;
      if rc =? 0 then
        '(rc, pk) ← pack_opt v1 pk;
        if rc =? 0 then pack_opt v2 pk else Some (rc, pk)
      else Some (rc, pk)
  | VUndef => Some (2, pk)
  end.

(** NULL is refused with 1. *)
Definition as_pack_val (v : option as_val) (pk : as_packer) : option (Z * as_packer) :=
  match v with Some v => pack_val v pk | None => Some (1, pk) end.

(** ** The serializer *)

Record as_buffer := { bf_data : list Z; bf_size : Z; bf_capacity : Z }.

(** No buffer: the run only counts. *)
Definition as_msgpack_serializer_serialize_getsize (v : option as_val) : option Z :=
  '(rc, pk) ← as_pack_val v (mk_packer [] None 0 0 []);
  Some (if negb (rc =? 0) then 0 else u32 (pk_offset pk)).

Fixpoint total_size (chunks : list as_packer_buffer) (size : Z) : option Z :=
  match chunks with
  | [] => Some size
  | p :: chunks => size ← iadd size (pb_length p); total_size chunks size
  end.

(** [memcpy(target + offset, p->buffer, p->length)] for each entry. *)
Fixpoint copy_chunks (chunks : list as_packer_buffer) (target : list Z) (offset : Z)
  : option (list Z * Z) :=
  match chunks with
  | [] => Some (target, offset)
  | p :: chunks =>
      bytes ← mslice (pb_buffer p) 0 (pb_length p);
      target ← mwrite target offset bytes;
      offset ← iadd offset (pb_length p);
      copy_chunks chunks target offset
  end.

(** The result of the allocation of [target] is not tested: writing to NULL is
    undefined. *)
Definition as_msgpack_serializer_serialize (h : heap) (v : option as_val)
  : option (Z * option as_buffer) :=
  let '(ok, h) := cf_malloc h in
  if negb ok then Some (1, None)
  else
    '(rc, pk) ← as_pack_val v
                  (mk_packer [] (Some (fresh AS_PACKER_BUFFER_SIZE)) 0 AS_PACKER_BUFFER_SIZE h);
    if negb (rc =? 0) then Some (rc, None)
    else
      buf ← pk_buffer pk;
      match pk_head pk with
      | [] => Some (0, Some {| bf_data := buf; bf_size := pk_offset pk; bf_capacity := pk_capacity pk |})
      | chunks =>
          size ← total_size chunks (pk_offset pk);
          if negb (fst (cf_malloc (pk_heap pk))) then None
          else
            '(target, offset) ← copy_chunks chunks (fresh size) 0;
            bytes ← mslice buf 0 (pk_offset pk);
            target ← mwrite target offset bytes;
            Some (0, Some {| bf_data := target; bf_size := size; bf_capacity := size |})
      end.

End Pack.

(** ** The unpacker *)

(** [strndup(p, n)] at [off]: the characters before a NUL, [n] at most. *)
Fixpoint strn (s : list Z) (n : Z) : option (list Z) :=
  if n =? 0 then Some []
  else
    match s with
    | [] => None
    | c :: s => if c =? 0 then Some [] else r ← strn s (n - 1); Some (c :: r)
    end.

Definition strndup (buf : list Z) (off n : Z) : option (list Z) :=
  if decide (0 <= off <= blen buf) then strn (drop (Z.to_nat off) buf) n else None.

(** [(int64_t)v] for an IEEE number of [mb] mantissa and [eb] exponent bits;
    undefined when the truncated number does not fit. *)
Definition ieee_trunc (mb eb : Z) (bits : Z) : option Z :=
  let m := bits mod 2 ^ mb in
  let e := Z.shiftr bits mb mod 2 ^ eb in
  let s := Z.shiftr bits (mb + eb) in
  let bias := 2 ^ (eb - 1) - 1 in
  if e =? 2 ^ eb - 1 then None
  else
    let mant := if e =? 0 then m else 2 ^ mb + m in
    let sh := (if e =? 0 then 1 else e) - bias - mb in
    let mag := if 0 <=? sh then mant * 2 ^ sh else Z.shiftr mant (- sh) in
    let z := if s =? 0 then mag else - mag in
    if decide (- 2 ^ 63 <= z < 2 ^ 63) then Some z else None.

(** Where the switch on the type byte goes. *)
Inductive unpack_case :=
  | CNil | CBool (b : bool) | CFloat | CDouble
  | CInt8 | CUint8 | CInt16 | CUint16 | CInt32 | CUint32 | CInt64 | CUint64
  | CBlob16 | CBlob32 | CList16 | CList32 | CMap16 | CMap32
  | CBlob (size : Z) | CMap (size : Z) | CList (size : Z) | CFix (i : Z) | CUnknown.

Definition dispatch (type : Z) : unpack_case :=
  if type =? 0xc0 then CNil
  else if type =? 0xc3 then CBool true
  else if type =? 0xc2 then CBool false
  else if type =? 0xca then CFloat
  else if type =? 0xcb then CDouble
  else if type =? 0xd0 then CInt8
  else if type =? 0xcc then CUint8
  else if type =? 0xd1 then CInt16
  else if type =? 0xcd then CUint16
  else if type =? 0xd2 then CInt32
  else if type =? 0xce then CUint32
  else if type =? 0xd3 then CInt64
  else if type =? 0xcf then CUint64
  else if type =? 0xda then CBlob16
  else if type =? 0xdb then CBlob32
  else if type =? 0xdc then CList16
  else if type =? 0xdd then CList32
  else if type =? 0xde then CMap16
  else if type =? 0xdf then CMap32
  else if Z.land type 0xe0 =? 0xa0 then CBlob (Z.land type 0x1f)
  else if Z.land type 0xf0 =? 0x80 then CMap (Z.land type 0x0f)
  else if Z.land type 0xf0 =? 0x90 then CList (Z.land type 0x0f)
  else if type <? 0x80 then CFix type
  else if 0xe0 <=? type then CFix (type - 0xe0 - 32)
  else CUnknown.

Section Unpack.
Context `{Platform}.
Context (buf : list Z).

(** The result of unpacking a value: the status, the value ([None] when it was
    not set), the offset after it. *)
Definition uresult : Type := ures (Z * option as_val * Z).

Definition as_extract_uint8 (off : Z) : option (Z * Z) :=
  b ← mread buf off; off ← iadd off 1; Some (b, off).
Definition as_extract_uint16 (off : Z) : option (Z * Z) :=
  l ← mslice buf off 2; off ← iadd off 2; Some (get_be16 host_endian l, off).
Definition as_extract_uint32 (off : Z) : option (Z * Z) :=
  l ← mslice buf off 4; off ← iadd off 4; Some (get_be32 host_endian l, off).
Definition as_extract_uint64 (off : Z) : option (Z * Z) :=
  l ← mslice buf off 8; off ← iadd off 8; Some (get_be64 host_endian l, off).
Definition as_extract_float (off : Z) : option (Z * Z) :=
  '(swapped, off) ← as_extract_uint32 off; Some (swapped, off).
Definition as_extract_double (off : Z) : option (Z * Z) :=
  '(swapped, off) ← as_extract_uint64 off; Some (swapped, off).

Definition as_unpack_integer (i : Z) (off : Z) : option (Z * option as_val * Z) :=
  Some (0, Some (VInteger (i64 i)), off).

(** A negative [size] is a huge [size_t]: the string copy then runs to the next
    NUL, the byte copy is undefined. *)
Definition as_unpack_blob (size off : Z) : option (Z * option as_val * Z) :=
  '(type, off) ← as_extract_uint8 off;
  size ← iadd size (-1);
  v ← (if type =? AS_BYTES_STRING then s ← strndup buf off (u64 size); Some (VString s)
       else b ← mslice buf off size; Some (VBytes type b));
  off ← iadd off size;
  Some (0, Some v, off).

(** The list built so far, as a value. *)
Definition list_val (a : as_arraylist as_val) : as_val :=
  VList (map (default None) (take (Z.to_nat (size a)) (elements a))).

Section Containers.
Context (unpack : Z -> uresult).

Fixpoint unpack_list_loop (n : nat) (i : Z) (a : as_arraylist as_val) (off : Z)
  : ures (as_arraylist as_val * Z) :=
  match n with
  | O => URet (a, off)
  | S n =>
      let* (_, v, off) := unpack off in
      match v with
      | Some v =>
          let* (_, a, _) := lift (as_arraylist_set true a i (Some v)) in
          unpack_list_loop n (i + 1) a off
      | None => unpack_list_loop n (i + 1) a off
      end
  end.

Definition as_unpack_list (size off : Z) : uresult :=
  let* a := lift (fst (as_arraylist_new [] (u32 size) 8)) in
  let* (a, off) := unpack_list_loop (Z.to_nat size) 0 a off in
  URet (0, Some (list_val a), off).

Fixpoint unpack_map_loop (n : nat) (m : as_hashmap as_val as_val) (off : Z)
  : ures (as_hashmap as_val as_val * Z) :=
  match n with
  | O => URet (m, off)
  | S n =>
      let* (_, k, off) := unpack off in
      let* (_, v, off) := unpack off in
      match k, v with
      | Some k, Some v =>
          let* (_, m, _) := lift (as_hashmap_set as_val_hashcode eq_val is_valid_key_type true m
                                 (Some k) (Some v)) in
          unpack_map_loop n m off
      | _, _ => unpack_map_loop n m off
      end
  end.

Definition as_unpack_map (size off : Z) : uresult :=
  let* m := lift (as_hashmap_new [] (u32 (if 32 <? size then size else 32))) in
  let* (m, off) := unpack_map_loop (Z.to_nat size) m off in
  URet (0, Some (VMap (hm_entries m)), off).
End Containers.

(** A 32-bit length is narrowed to [int] when it is passed on. *)
Fixpoint as_unpack_val (fuel : nat) (off : Z) : uresult :=
  match fuel with
  | O => Deep
  | S fuel =>
      let* (type, off) := lift (as_extract_uint8 off) in
      match dispatch type with
      | CNil => URet (0, Some VNil, off)
      | CBool b => URet (0, Some (VInteger (if b then 1 else 0)), off)
      | CFloat => lift ('(v, off) ← as_extract_float off; i ← ieee_trunc 23 8 v; as_unpack_integer i off)
      | CDouble => lift ('(v, off) ← as_extract_double off; i ← ieee_trunc 52 11 v; as_unpack_integer i off)
      | CInt8 => lift ('(v, off) ← as_extract_uint8 off; as_unpack_integer (i8 v) off)
      | CUint8 => lift ('(v, off) ← as_extract_uint8 off; as_unpack_integer v off)
      | CInt16 => lift ('(v, off) ← as_extract_uint16 off; as_unpack_integer (i16 v) off)
      | CUint16 => lift ('(v, off) ← as_extract_uint16 off; as_unpack_integer v off)
      | CInt32 => lift ('(v, off) ← as_extract_uint32 off; as_unpack_integer (i32 v) off)
      | CUint32 => lift ('(v, off) ← as_extract_uint32 off; as_unpack_integer v off)
      | CInt64 => lift ('(v, off) ← as_extract_uint64 off; as_unpack_integer (i64 v) off)
      | CUint64 => lift ('(v, off) ← as_extract_uint64 off; as_unpack_integer v off)
      | CBlob16 => lift ('(n, off) ← as_extract_uint16 off; as_unpack_blob n off)
      | CBlob32 => lift ('(n, off) ← as_extract_uint32 off; as_unpack_blob (i32 n) off)
      | CList16 => let* (n, off) := lift (as_extract_uint16 off) in as_unpack_list (as_unpack_val fuel) n off
      | CList32 => let* (n, off) := lift (as_extract_uint32 off) in as_unpack_list (as_unpack_val fuel) (i32 n) off
      | CMap16 => let* (n, off) := lift (as_extract_uint16 off) in as_unpack_map (as_unpack_val fuel) n off
      | CMap32 => let* (n, off) := lift (as_extract_uint32 off) in as_unpack_map (as_unpack_val fuel) (i32 n) off
      | CBlob n => lift (as_unpack_blob n off)
      | CMap n => as_unpack_map (as_unpack_val fuel) n off
      | CList n => as_unpack_list (as_unpack_val fuel) n off
      | CFix i => lift (as_unpack_integer i off)
      | CUnknown => URet (2, None, off)
      end
  end.

Definition as_msgpack_serializer_deserialize (fuel : nat) : ures (Z * option as_val) :=
  let* (rc, v, _) := as_unpack_val fuel 0 in URet (rc, v).
End Unpack.

(** ** The reference encoder

    The bytes of a value, and the status: 0, or the code with which packing
    stops after these bytes. *)

Definition enc_uint (type : Z) (n : nat) (val : Z) : list Z := type :: be_bytes n val.

Definition enc_int (z : Z) : list Z :=
  if 0 <=? z then
    if z <? 128 then [z]
    else if z <? 256 then [0xcc; z]
    else if z <? 65536 then enc_uint 0xcd 2 z
    else if z <? 2 ^ 32 then enc_uint 0xce 4 z
    else enc_uint 0xcf 8 z
  else if -32 <=? z then [z + 256]
  else if -128 <=? z then [0xd0; z + 256]
  else if -32768 <=? z then enc_uint 0xd1 2 z
  else enc_uint 0xd3 8 z.

Definition enc_blob (type : Z) (value : list Z) : list Z :=
  let n := blen value + 1 in
  (if n <? 32 then [0xa0 + n] else if n <? 65536 then enc_uint 0xda 2 n else enc_uint 0xdb 4 n)
  ++ type :: value.

Definition enc_header (n small t16 t32 : Z) : list Z :=
  if n <? 16 then [small + n] else if n <? 65536 then enc_uint t16 2 n else enc_uint t32 4 n.

(** One after the other, up to the first failure. *)
Fixpoint enc_seq (rs : list (list Z * Z)) : list Z * bool :=
  match rs with
  | [] => ([], true)
  | (bs, rc) :: rs =>
      if rc =? 0 then let '(bs', ok) := enc_seq rs in (bs ++ bs', ok) else (bs, false)
  end.

Definition enc_all (hdr : list Z) (rs : list (list Z * Z)) : list Z * Z :=
  let '(bs, ok) := enc_seq rs in (hdr ++ bs, if (ok : bool) then 0 else 1).

Fixpoint enc (v : as_val) : list Z * Z :=
  let enc_opt (v : option as_val) := match v with Some v => enc v | None => ([], 1) end in
  match v with
  | VNil => ([0xc0], 0)
  | VBoolean b => ([if b then 0xc3 else 0xc2], 0)
  | VInteger z => (enc_int z, 0)
  | VString value => (enc_blob AS_BYTES_STRING value, 0)
  | VBytes type value => (enc_blob type value, 0)
  | VList l => enc_all (enc_header (u32 (blen l)) 0x90 0xdc 0xdd) (map enc_opt l)
  | VMap m => enc_all (enc_header (u32 (blen m)) 0x80 0xde 0xdf)
                (flat_map (fun kv => [enc kv.1; enc_opt kv.2]) m)
  | VRec _ => ([], 1)
  | VPair v1 v2 =>
      let '(b1, rc1) := enc_opt v1 in
      if rc1 =? 0 then let '(b2, rc2) := enc_opt v2 in (0x92 :: b1 ++ b2, rc2) else (0x92 :: b1, rc1)
  | VUndef => ([], 2)
  end.

Definition enc_opt (v : option as_val) : list Z * Z :=
  match v with Some v => enc v | None => ([], 1) end.

(** The value is one the C types can hold. *)
Definition scalar_ok (v : as_val) : Prop :=
  match v with
  | VInteger z => is_i64 z
  | VBytes type _ => is_byte type
  | _ => True
  end.

Fixpoint val_ok (v : as_val) : Prop :=
  let opt_ok (v : option as_val) := match v with Some v => val_ok v | None => True end in
  match v with
  | VList l => fold_right (fun v P => opt_ok v /\ P) True l
  | VMap m => fold_right (fun kv P => (val_ok kv.1 /\ opt_ok kv.2) /\ P) True m
  | VPair v1 v2 => opt_ok v1 /\ opt_ok v2
  | v => scalar_ok v
  end.

(** ** Packing writes the encoding *)

(** The largest encoding the theorems speak of: the [int] offsets of the packer
    stay below 2^31. *)
Definition LIMIT : Z := 2 ^ 30 - 1.

Definition all_ok (h : heap) : Prop := Forall (fun b => b = true) h.

Definition chunk_bytes (p : as_packer_buffer) : list Z := take (Z.to_nat (pb_length p)) (pb_buffer p).

(** Everything written so far. *)
Definition pk_out (pk : as_packer) : list Z :=
  mjoin (map chunk_bytes (pk_head pk)) ++ take (Z.to_nat (pk_offset pk)) (default [] (pk_buffer pk)).

Definition chunk_ok (p : as_packer_buffer) : Prop := 0 <= pb_length p <= blen (pb_buffer p).

Definition pk_ok (pk : as_packer) : Prop :=
  match pk_buffer pk with
  | Some buf => 0 <= pk_offset pk <= pk_capacity pk /\ pk_capacity pk = blen buf
                /\ 0 < pk_capacity pk <= LIMIT /\ Forall chunk_ok (pk_head pk)
  | None => 0 <= pk_offset pk
  end.

(** [n] more bytes can be counted. *)
Definition pk_fits (pk : as_packer) (n : Z) : Prop :=
  n <= LIMIT /\ (pk_buffer pk = None -> pk_offset pk + n <= INT_MAX).

Definition advanced (pk pk' : as_packer) (bs : list Z) : Prop :=
  pk_ok pk' /\ pk_heap pk' `suffix_of` pk_heap pk
  /\ match pk_buffer pk with
     | Some _ => is_Some (pk_buffer pk') /\ pk_out pk' = pk_out pk ++ bs
     | None => pk_buffer pk' = None /\ pk_offset pk' = pk_offset pk + blen bs /\ pk_head pk' = pk_head pk
     end.

(** [f] writes [bs] and answers [rc], unless an allocation fails. *)
Definition packs (f : as_packer -> option (Z * as_packer)) (bs : list Z) (rc : Z) : Prop :=
  forall pk, pk_ok pk -> pk_fits pk (blen bs) ->
  exists rc' pk', f pk = Some (rc', pk')
    /\ ((rc' = rc /\ advanced pk pk' bs)
        \/ (rc' <> 0 /\ ~ all_ok (pk_heap pk) /\ is_Some (pk_buffer pk))).

Lemma iadd_ok a b : - 2 ^ 31 <= a + b <= INT_MAX -> iadd a b = Some (a + b).
Proof. intros Hab. unfold iadd. by rewrite decide_True. Qed.

Lemma advanced_refl pk : pk_ok pk -> advanced pk pk [].
Proof.
  intros Hok. split; [done|]. split; [done|]. destruct (pk_buffer pk); [by rewrite app_nil_r|].
  simpl. by rewrite Z.add_0_r.
Qed.

Lemma advanced_trans pk1 pk2 pk3 b1 b2 :
  advanced pk1 pk2 b1 -> advanced pk2 pk3 b2 -> advanced pk1 pk3 (b1 ++ b2).
Proof.
  intros (H1 & H2 & H3) (H4 & H5 & H6). split; [done|]. split; [by etrans|].
  destruct (pk_buffer pk1).
  - destruct H3 as [[buf2 E2] H3]. rewrite E2 in H6. destruct H6 as [H6 H7]. split; [done|].
    by rewrite H7, H3, app_assoc.
  - destruct H3 as (E2 & H3 & H3'). rewrite E2 in H6. destruct H6 as (H6 & H7 & H7').
    split; [done|]. rewrite length_app. split; [lia|congruence].
Qed.

Lemma advanced_fits pk pk' b1 b2 :
  advanced pk pk' b1 -> pk_fits pk (blen (b1 ++ b2)) -> pk_fits pk' (blen b2).
Proof.
  intros (_ & _ & H3) [Hf1 Hf2]. rewrite length_app in *. split; [lia|]. intros E.
  destruct (pk_buffer pk); [destruct H3 as [[? H3] _]; congruence|].
  destruct H3 as (_ & H3 & _). specialize (Hf2 eq_refl). lia.
Qed.

Lemma suffix_all_ok h h' : h' `suffix_of` h -> all_ok h -> all_ok h'.
Proof. intros [k ->] Hok. by apply Forall_app in Hok as [_ ?]. Qed.

(** Sequencing two packing steps, and stopping after a failed one. *)
Lemma packs_seq f g b1 b2 rc :
  packs f b1 0 -> packs g b2 rc ->
  packs (fun pk => '(rc, pk) ← f pk; if rc =? 0 then g pk else Some (rc, pk)) (b1 ++ b2) rc.
Proof.
  intros Hf Hg pk Hok Hfit.
  destruct (Hf pk Hok) as (rc1 & pk1 & -> & [[-> Ha]|(Hne & Hh & Hb)]).
  - destruct Hfit as [Hf1 Hf2]. rewrite length_app in *. split; [lia|]. intros E. specialize (Hf2 E). lia.
  - cbn [mbind option_bind]. change (0 =? 0) with true. cbv iota.
    destruct (Hg pk1 (proj1 Ha)) as (rc2 & pk2 & -> & [[-> Ha2]|(Hne & Hh & Hb)]); [by eapply advanced_fits| |].
    + eexists _, _. split; [done|]. left. split; [done|]. by eapply advanced_trans.
    + eexists _, _. split; [done|]. right. split; [done|]. destruct Ha as (_ & Hs & Hbuf). split.
      * intros Hall. apply Hh. by eapply suffix_all_ok.
      * destruct (pk_buffer pk); [done|]. destruct Hbuf as [E _]. rewrite E in Hb. by destruct Hb.
  - cbn [mbind option_bind]. rewrite (proj2 (Z.eqb_neq _ _)) by done. eexists _, _. split; [done|]. by right.
Qed.

Lemma packs_stop f g b1 rc :
  rc <> 0 -> packs f b1 rc ->
  packs (fun pk => '(rc, pk) ← f pk; if rc =? 0 then g pk else Some (rc, pk)) b1 rc.
Proof.
  intros Hrc Hf pk Hok Hfit.
  destruct (Hf pk Hok Hfit) as (rc1 & pk1 & -> & Hcase). cbn [mbind option_bind].
  rewrite (proj2 (Z.eqb_neq _ _)) by (by destruct Hcase as [[-> _]|[? _]]).
  by eexists _, _.
Qed.

Lemma packs_ext f g bs rc : (forall pk, f pk = g pk) -> packs f bs rc -> packs g bs rc.
Proof. intros He Hf pk Hok Hfit. rewrite <- He. by apply Hf. Qed.

Lemma pk_write pk bs buf :
  pk_ok pk -> pk_buffer pk = Some buf -> pk_offset pk + blen bs <= pk_capacity pk ->
  exists buf', mwrite buf (pk_offset pk) bs = Some buf'
    /\ advanced pk (mk_packer (pk_head pk) (Some buf') (pk_offset pk + blen bs) (pk_capacity pk) (pk_heap pk)) bs.
Proof.
  intros Hok Eb Hle. unfold pk_ok in Hok. rewrite Eb in Hok. destruct Hok as (Ho & Hc & Hl & Hch).
  set (o := Z.to_nat (pk_offset pk)).
  assert (buf = take o buf ++ take (length bs) (drop o buf) ++ drop (o + length bs) buf) as Hsplit.
  { rewrite <- drop_drop, take_drop, take_drop. done. }
  assert (length (take o buf) = o) as Lo by (rewrite length_take; lia).
  assert (mwrite buf (pk_offset pk) bs = Some (take o buf ++ bs ++ drop (o + length bs) buf)) as Hw.
  { rewrite Hsplit at 1. apply mwrite_app; [lia|]. rewrite length_take, length_drop. lia. }
  rewrite Hw. eexists. split; [done|]. split; [|split; [done|]].
  - unfold pk_ok. simpl. rewrite !length_app, Lo, length_drop. split_and!; (done || lia).
  - rewrite Eb. split; [by eexists|]. unfold pk_out. simpl. rewrite Eb. simpl.
    replace (Z.to_nat (pk_offset pk + blen bs)) with (o + length bs)%nat by lia.
    rewrite (app_assoc (take o buf)), take_app_length' by (rewrite length_app; lia).
    by rewrite app_assoc.
Qed.

Lemma cf_malloc_spec h ok h' :
  cf_malloc h = (ok, h') -> h' `suffix_of` h /\ (ok = false -> ~ all_ok h).
Proof.
  destruct h as [|b h]; simpl; intros [= <- <-]; [done|]. split; [by exists [b]|].
  intros -> Hall. by apply Forall_cons in Hall as [? _].
Qed.

Lemma pack_resize_ok pk n buf rc pk' :
  pk_ok pk -> pk_buffer pk = Some buf -> 0 <= n <= LIMIT -> as_pack_resize pk n = (rc, pk') ->
  (rc = 0 /\ advanced pk pk' [] /\ pk_offset pk' = 0 /\ n <= pk_capacity pk')
  \/ (rc = -1 /\ ~ all_ok (pk_heap pk)).
Proof.
  intros Hok Eb Hn. unfold pk_ok in Hok. rewrite Eb in Hok. destruct Hok as (Ho & Hc & Hl & Hch).
  unfold as_pack_resize. rewrite Eb. simpl default.
  destruct (cf_malloc (pk_heap pk)) as [ok1 h1] eqn:E1. apply cf_malloc_spec in E1 as [Hs1 Hf1].
  destruct ok1; cbn [negb]; [|intros [= <- <-]; right; auto].
  destruct (cf_malloc h1) as [ok2 h2] eqn:E2. apply cf_malloc_spec in E2 as [Hs2 Hf2].
  destruct ok2; cbn [negb]; intros [= <- <-].
  2:{ right. split; [done|]. intros Hall. apply Hf2; [done|]. by eapply suffix_all_ok. }
  left. split; [done|]. split; [|split; [done|simpl; case_if; reflect_Z; lia]].
  split; [|split; [simpl; by etrans|]].
  - unfold pk_ok, fresh. simpl. rewrite length_replicate.
    do 3 (split; [case_if; reflect_Z; lia|]). apply Forall_app. split; [done|]. apply Forall_singleton. unfold chunk_ok. simpl. lia.
  - rewrite Eb. split; [by eexists|]. unfold pk_out. simpl. rewrite map_app, join_app, Eb, app_nil_r.
    simpl. by rewrite !app_nil_r.
Qed.

Lemma packs_with bs n : n = blen bs -> packs (fun pk => pack_with pk n (Some bs)) bs 0.
Proof.
  intros -> pk Hok [Hf1 Hf2]. unfold pack_with. destruct (pk_buffer pk) as [buf|] eqn:Eb.
  - pose proof Hok as Hok'. unfold pk_ok in Hok'. rewrite Eb in Hok'. destruct Hok' as (Ho & Hc & Hl & Hch).
    unfold LIMIT in *. rewrite iadd_ok by (unfold INT_MAX; lia). cbn [mbind option_bind].
    destruct (pk_capacity pk <? pk_offset pk + blen bs) eqn:E; reflect_Z.
    + destruct (as_pack_resize pk (blen bs)) as [rc pk1] eqn:Er.
      destruct (pack_resize_ok pk (blen bs) buf rc pk1 Hok Eb ltac:(unfold LIMIT; lia) Er)
        as [(-> & Ha & H0 & Hcap)|[-> Hh]].
      * cbn [negb Z.eqb]. pose proof Ha as (Hok1 & Hs1 & Hb1). rewrite Eb in Hb1.
        destruct Hb1 as [[buf1 Eb1] Hout]. rewrite Eb1. cbn [mbind option_bind].
        destruct (pk_write pk1 bs buf1 Hok1 Eb1) as (buf2 & -> & Ha2); [lia|].
        cbn [mbind option_bind]. rewrite iadd_ok by (unfold INT_MAX; lia). cbn [mbind option_bind].
        eexists _, _. split; [done|]. left. split; [done|]. apply (advanced_trans pk pk1 _ [] bs Ha Ha2).
      * eexists _, _. split; [done|]. right. by split_and!; [done|done|eexists].
    + cbn [negb Z.eqb]. rewrite Eb. cbn [mbind option_bind].
      destruct (pk_write pk bs buf Hok Eb) as (buf2 & -> & Ha2); [lia|].
      cbn [mbind option_bind]. rewrite iadd_ok by (unfold INT_MAX; lia). cbn [mbind option_bind].
      eexists _, _. split; [done|]. by left.
  - specialize (Hf2 eq_refl). unfold pk_ok in Hok. rewrite Eb in Hok.
    rewrite iadd_ok by (unfold INT_MAX in *; lia). cbn [mbind option_bind].
    eexists _, _. split; [done|]. left. split; [done|]. split; [unfold pk_ok; simpl; lia|].
    split; [done|]. rewrite Eb. done.
Qed.

Section PackProofs.
Context `{Platform}.

Lemma be_bytes_u16 z : be_bytes 2 (u16 z) = be_bytes 2 z.
Proof. apply (be_bytes_mod 2 2). lia. Qed.
Lemma be_bytes_u32 z : be_bytes 4 (u32 z) = be_bytes 4 z.
Proof. apply (be_bytes_mod 4 4). lia. Qed.
Lemma be_bytes_u64 z : be_bytes 8 (u64 z) = be_bytes 8 z.
Proof. apply (be_bytes_mod 8 8). lia. Qed.

Lemma packs_byte val : packs (fun pk => as_pack_byte pk val) [val] 0.
Proof. by apply packs_with. Qed.
Lemma packs_int8 type val : packs (fun pk => as_pack_int8 pk type val) [type; val] 0.
Proof. by apply packs_with. Qed.
Lemma packs_int16 type val : packs (fun pk => as_pack_int16 pk type val) (enc_uint type 2 val) 0.
Proof. unfold as_pack_int16. rewrite put_be16_eq. by apply packs_with. Qed.
Lemma packs_int32 type val : packs (fun pk => as_pack_int32 pk type val) (enc_uint type 4 val) 0.
Proof. unfold as_pack_int32. rewrite put_be32_eq. by apply packs_with. Qed.
Lemma packs_int64 type val : packs (fun pk => as_pack_int64 pk type val) (enc_uint type 8 val) 0.
Proof. unfold as_pack_int64. rewrite put_be64_eq. by apply packs_with. Qed.

Lemma packs_append bs n : n = blen bs -> packs (fun pk => as_pack_append pk bs n) bs 0.
Proof.
  intros ->. unfold as_pack_append. rewrite mslice_take by lia. rewrite Nat2Z.id, firstn_all.
  by apply packs_with.
Qed.

(** Small numbers or-ed into a header byte. *)
Lemma lor_map n : 0 <= n < 16 -> u8 (Z.lor 0x80 n) = 0x80 + n.
Proof. by apply (range_check_eq 0 16 (fun n => u8 (Z.lor 0x80 n)) (fun n => 0x80 + n)). Qed.
Lemma lor_list n : 0 <= n < 16 -> u8 (Z.lor 0x90 n) = 0x90 + n.
Proof. by apply (range_check_eq 0 16 (fun n => u8 (Z.lor 0x90 n)) (fun n => 0x90 + n)). Qed.
Lemma lor_blob n : 0 <= n < 32 -> u8 (Z.lor 0xa0 n) = 0xa0 + n.
Proof. by apply (range_check_eq 0 32 (fun n => u8 (Z.lor 0xa0 n)) (fun n => 0xa0 + n)). Qed.
Lemma lor_fix n : -32 <= n < 0 -> u8 (Z.lor 0xe0 (n + 32)) = n + 256.
Proof. by apply (range_check_eq (-32) 32 (fun n => u8 (Z.lor 0xe0 (n + 32))) (fun n => n + 256)). Qed.

Lemma packs_integer z : is_i64 z -> packs (fun pk => as_pack_integer pk z) (enc_int z) 0.
Proof.
  intros Hz. unfold is_i64 in Hz. unfold as_pack_integer, enc_int.
  change 4294967296 with (2 ^ 32).
  destruct (0 <=? z) eqn:E0; reflect_Z.
  - destruct (z <? 128) eqn:E1; reflect_Z; [rewrite u8_id by (unfold is_byte; lia); apply packs_byte|].
    destruct (z <? 256) eqn:E2; reflect_Z; [rewrite u8_id by (unfold is_byte; lia); apply packs_int8|].
    destruct (z <? 65536) eqn:E3; reflect_Z; [rewrite u16_id by lia; apply packs_int16|].
    destruct (z <? 2 ^ 32) eqn:E4; reflect_Z; [rewrite u32_id by (unfold is_u32; lia); apply packs_int32|].
    rewrite u64_id by lia. apply packs_int64.
  - destruct (-32 <=? z) eqn:E1; reflect_Z; [rewrite lor_fix by lia; apply packs_byte|].
    destruct (-128 <=? z) eqn:E2; reflect_Z.
    { replace (u8 z) with (z + 256) by width_lia. apply packs_int8. }
    destruct (-32768 <=? z) eqn:E3; reflect_Z.
    { unfold enc_uint. rewrite <- be_bytes_u16. apply packs_int16. }
    rewrite (proj2 (Z.leb_gt 0x80000000 z)) by lia.
    unfold enc_uint. rewrite <- be_bytes_u64. apply packs_int64.
Qed.

Lemma packs_blob_header n type :
  0 <= n < LIMIT ->
  packs (fun pk => as_pack_byte_array_header pk n type)
    ((if n + 1 <? 32 then [0xa0 + (n + 1)]
      else if n + 1 <? 65536 then enc_uint 0xda 2 (n + 1) else enc_uint 0xdb 4 (n + 1)) ++ [type]) 0.
Proof.
  intros Hn. unfold LIMIT in *. unfold as_pack_byte_array_header.
  rewrite (u32_id (n + 1)) by (unfold is_u32; lia).
  apply (packs_seq _ (fun pk => as_pack_byte pk type)); [|apply packs_byte].
  destruct (n + 1 <? 32) eqn:E1; reflect_Z; [rewrite lor_blob by lia; apply packs_byte|].
  destruct (n + 1 <? 65536) eqn:E2; reflect_Z; [rewrite u16_id by lia; apply packs_int16|].
  apply packs_int32.
Qed.

Lemma packs_blob n type value :
  n = blen value -> blen (enc_blob type value) <= LIMIT ->
  packs (fun pk => '(rc, pk) ← as_pack_byte_array_header pk (u32 n) type;
           if rc =? 0 then as_pack_append pk value (i32 (u32 n)) else Some (rc, pk)) (enc_blob type value) 0.
Proof.
  intros -> Hl. assert (blen value < LIMIT) as Hv.
  { unfold enc_blob in Hl. rewrite length_app in Hl. simpl in Hl. repeat case_if; simpl in *; lia. }
  pose proof Hv as Hv'. unfold LIMIT in Hv'.
  rewrite u32_id, i32_id by (unfold is_u32; lia). unfold enc_blob.
  change (type :: value) with ([type] ++ value). rewrite app_assoc.
  apply (packs_seq _ (fun pk => as_pack_append pk value (blen value))); [apply packs_blob_header; lia|].
  by apply packs_append.
Qed.

Lemma packs_header n small t16 t32 :
  0 <= n < 2 ^ 32 -> small = 0x80 \/ small = 0x90 ->
  packs (fun pk => pack_container_header pk n small t16 t32) (enc_header n small t16 t32) 0.
Proof.
  intros Hn Hs. unfold pack_container_header, enc_header.
  destruct (n <? 16) eqn:E1; reflect_Z.
  { destruct Hs as [-> | ->]; [rewrite lor_map by lia|rewrite lor_list by lia]; apply packs_byte. }
  destruct (n <? 65536) eqn:E2; reflect_Z; [rewrite u16_id by lia; apply packs_int16|apply packs_int32].
Qed.

(** *** Sequences of values *)

Definition pack_opt (v : option as_val) (pk : as_packer) : option (Z * as_packer) :=
  match v with Some v => pack_val v pk | None => Some (1, pk) end.

Definition opt_ok (v : option as_val) : Prop := match v with Some v => val_ok v | None => True end.

(** Packing [v] writes its encoding. *)
Definition pack_spec (v : as_val) : Prop := val_ok v -> packs (pack_val v) (enc v).1 (enc v).2.

Lemma packs_rc rc : packs (fun pk => Some (rc, pk)) [] rc.
Proof. intros pk Hok _. eexists _, _. split; [done|]. left. split; [done|]. by apply advanced_refl. Qed.

Lemma packs_opt v : opt_all pack_spec v -> opt_ok v -> packs (pack_opt v) (enc_opt v).1 (enc_opt v).2.
Proof. destruct v as [v|]; [auto|]. intros _ _. apply packs_rc. Qed.

(** The size of the encoding is bounded anyway. *)
Lemma packs_limit f bs rc : (blen bs <= LIMIT -> packs f bs rc) -> packs f bs rc.
Proof. intros Hf pk Hok Hfit. apply Hf; [apply Hfit|done|done]. Qed.

Lemma packs_then f g b1 rc1 b2 rc2 :
  packs f b1 rc1 -> (rc1 = 0 -> packs g b2 rc2) ->
  packs (fun pk => '(rc, pk) ← f pk; if rc =? 0 then g pk else Some (rc, pk))
    (if rc1 =? 0 then b1 ++ b2 else b1) (if rc1 =? 0 then rc2 else rc1).
Proof.
  intros Hf Hg. destruct (rc1 =? 0) eqn:E; reflect_Z.
  - subst rc1. apply packs_seq; auto.
  - by apply packs_stop.
Qed.

(** The loops answer whether all went well; their caller turns that into 0 or 1. *)
Definition loop_rc (f : as_packer -> option (bool * as_packer)) (pk : as_packer) : option (Z * as_packer) :=
  '(go, pk) ← f pk; Some (if (go : bool) then 0 else 1, pk).

(** One step of a loop: a value, then the rest if the value went well. *)
Lemma packs_loop_step f g bs rc bs' (ok : bool) :
  packs f bs rc -> (rc = 0 -> packs (loop_rc g) bs' (if ok then 0 else 1)) ->
  packs (loop_rc (fun pk => '(rc, pk) ← f pk; if rc =? 0 then g pk else Some (false, pk)))
    (if rc =? 0 then bs ++ bs' else bs) (if (if rc =? 0 then ok else false) then 0 else 1).
Proof.
  intros Hf Hg pk Hok Hfit.
  destruct (packs_then f (loop_rc g) bs rc bs' _ Hf Hg pk Hok Hfit) as (rc' & pk' & He & Hcase).
  unfold loop_rc in *. destruct (Hf pk Hok) as (rc1 & pk1 & Hf1 & Hc1).
  { destruct Hfit as [Hf1 Hf2]. case_if; rewrite ?length_app in *; (split; [lia|]);
      intros Eb; specialize (Hf2 Eb); lia. }
  rewrite Hf1 in *. cbn [mbind option_bind] in *. destruct (rc1 =? 0) eqn:E1; reflect_Z.
  - rewrite He. eexists _, _. split; [done|]. destruct Hcase as [[-> Ha]|Hcase]; [|by right]. left.
    split; [|done]. destruct (rc =? 0) eqn:E; reflect_Z; [done|].
    destruct Hc1 as [[? _]|[? _]]; congruence.
  - cbn [mbind option_bind]. eexists _, _. split; [done|]. injection He as <- <-.
    destruct Hc1 as [[-> Ha]|(_ & Hh & Hb)]; [|by right]. left.
    by rewrite (proj2 (Z.eqb_neq _ _)) by done.
Qed.

Lemma enc_seq_cons bs rc rs :
  enc_seq ((bs, rc) :: rs)
  = (if rc =? 0 then bs ++ (enc_seq rs).1 else bs, if rc =? 0 then (enc_seq rs).2 else false).
Proof. simpl. destruct (rc =? 0); [|done]. by destruct (enc_seq rs). Qed.

Lemma packs_elements l :
  Forall (opt_all pack_spec) l -> Forall opt_ok l ->
  packs (loop_rc (pack_elements pack_opt l)) (enc_seq (map enc_opt l)).1
    (if (enc_seq (map enc_opt l)).2 then 0 else 1).
Proof.
  induction 1 as [|v l Hv Hl IH]; intros Hok; [apply packs_rc|]. apply Forall_cons in Hok as [Hov Hol].
  cbn [map]. destruct (enc_opt v) as [bs rc] eqn:Ev. rewrite enc_seq_cons.
  apply packs_loop_step; [|auto].
  pose proof (packs_opt v Hv Hov) as Hp. by rewrite Ev in Hp.
Qed.

Lemma packs_entries m :
  Forall (fun kv => pack_spec kv.1 /\ opt_all pack_spec kv.2) m ->
  Forall (fun kv => val_ok kv.1 /\ opt_ok kv.2) m ->
  let rs := flat_map (fun kv => [enc kv.1; enc_opt kv.2]) m in
  packs (loop_rc (pack_entries pack_opt m)) (enc_seq rs).1 (if (enc_seq rs).2 then 0 else 1).
Proof.
  induction 1 as [|[k v] m [Hk Hv] Hm IH]; intros Hok rs; [apply packs_rc|].
  apply Forall_cons in Hok as [[Hok Hov] Hom]. unfold rs. cbn [flat_map app fst snd] in *.
  specialize (Hk Hok). pose proof (packs_opt v Hv Hov) as Hpv. specialize (IH Hom).
  destruct (enc k) as [b1 rc1], (enc_opt v) as [b2 rc2]. cbn [fst snd] in *. rewrite !enc_seq_cons. cbn [fst snd].
  pose proof (packs_loop_step _ _ _ _ _ _ (packs_then _ _ _ _ _ _ Hk (fun _ => Hpv)) (fun _ => IH)) as Hstep.
  eapply packs_ext; [|].
  2:{ destruct (rc1 =? 0) eqn:E1; rewrite ?E1 in Hstep; [|exact Hstep].
      destruct (rc2 =? 0) eqn:E2; [rewrite <- app_assoc in Hstep|]; exact Hstep. }
  intros pk. unfold loop_rc. cbn [pack_entries pack_opt].
  destruct (pack_val k pk) as [[rc pk1]|]; [|done]. cbn [mbind option_bind].
  destruct (rc =? 0) eqn:E; [done|]. cbn [mbind option_bind]. by rewrite E.
Qed.

Lemma fold_right_and {A} (P : A -> Prop) l : fold_right (fun x Q => P x /\ Q) True l -> Forall P l.
Proof. induction l; simpl; [constructor|]. intros [? ?]. constructor; auto. Qed.

Lemma pack_val_packs v : pack_spec v.
Proof.
  induction v as [|b|z|s|t b|l IH|m IH|h|v1 v2 IH1 IH2|] using as_val_ind'; intros Hok; cbn [pack_val enc fst snd].
  - apply packs_byte.
  - apply packs_byte.
  - by apply packs_integer.
  - apply packs_limit. intros Hl. by apply (packs_blob (blen s)).
  - apply packs_limit. intros Hl. simpl in Hok. unfold as_pack_bytes. rewrite (u8_id t) by done.
    by apply (packs_blob (blen b)).
  - apply fold_right_and in Hok. pose proof (packs_elements l IH Hok) as He.
    unfold enc_all. fold enc_opt. destruct (enc_seq (map enc_opt l)) as [bs ok].
    apply (packs_seq _ (loop_rc (pack_elements pack_opt l))); [|done].
    apply packs_header; [apply u32_range|by right].
  - apply fold_right_and in Hok. pose proof (packs_entries m IH Hok) as He. simpl in He.
    unfold enc_all. fold enc_opt. destruct (enc_seq _) as [bs ok].
    apply (packs_seq _ (loop_rc (pack_entries pack_opt m))); [|done].
    apply packs_header; [apply u32_range|by left].
  - apply packs_rc.
  - destruct Hok as [Ho1 Ho2]. pose proof (packs_opt v1 IH1 Ho1) as H1. pose proof (packs_opt v2 IH2 Ho2) as H2.
    fold (enc_opt v1) (enc_opt v2). destruct (enc_opt v1) as [b1 rc1], (enc_opt v2) as [b2 rc2]. cbn [fst snd] in *.
    pose proof (packs_then _ _ _ _ _ _ H1 (fun _ => H2)) as H12.
    pose proof (packs_seq _ _ _ _ _ (packs_append [0x92] 1 eq_refl) H12) as Hseq.
    destruct (rc1 =? 0); exact Hseq.
  - apply packs_rc.
Qed.

(** *** The serializer collects the chunks *)

Lemma total_size_spec chunks size :
  Forall chunk_ok chunks -> 0 <= size ->
  size + blen (mjoin (map chunk_bytes chunks)) <= INT_MAX ->
  total_size chunks size = Some (size + blen (mjoin (map chunk_bytes chunks))).
Proof.
  intros Hc. revert size. induction Hc as [|p chunks Hp Hc IH]; intros size H0 Hle; simpl in *; [f_equal; lia|].
  unfold chunk_ok in Hp. unfold chunk_bytes in Hle at 1. unfold chunk_bytes at 1.
  rewrite length_app, length_take in *. rewrite iadd_ok by lia. cbn [mbind option_bind].
  rewrite IH by lia. f_equal. lia.
Qed.

Lemma copy_chunks_spec chunks pre junk :
  Forall chunk_ok chunks -> blen pre + blen junk <= INT_MAX ->
  (length (mjoin (map chunk_bytes chunks)) <= length junk)%nat ->
  copy_chunks chunks (pre ++ junk) (blen pre)
  = Some ((pre ++ mjoin (map chunk_bytes chunks)) ++ drop (length (mjoin (map chunk_bytes chunks))) junk,
          blen (pre ++ mjoin (map chunk_bytes chunks))).
Proof.
  intros Hc. revert pre junk. induction Hc as [|p chunks Hp Hc IH]; intros pre junk Hmax Hle; cbn [copy_chunks].
  { simpl. by rewrite drop_0, !app_nil_r. }
  assert (blen (chunk_bytes p) = pb_length p) as Hlen.
  { unfold chunk_ok in Hp. unfold chunk_bytes. rewrite length_take. lia. }
  rewrite mslice_take by (unfold chunk_ok in Hp; lia). fold (chunk_bytes p). cbn [mbind option_bind].
  change (mjoin (map chunk_bytes (p :: chunks))) with (chunk_bytes p ++ mjoin (map chunk_bytes chunks)) in *.
  rewrite length_app in *. rewrite <- (take_drop (length (chunk_bytes p)) junk) at 1.
  rewrite (mwrite_app pre _ _ (chunk_bytes p)) by (rewrite ?length_take; lia). cbn [mbind option_bind].
  rewrite iadd_ok by lia. cbn [mbind option_bind].
  rewrite (app_assoc pre (chunk_bytes p) (drop _ _)). replace (blen pre + pb_length p) with (blen (pre ++ chunk_bytes p)) by (rewrite length_app; lia).
  rewrite (IH (pre ++ chunk_bytes p)) by (rewrite ?length_app, ?length_drop; lia).
  by rewrite drop_drop, <- !app_assoc.
Qed.

(** What [serialize] answers when packing succeeded with [pk]. *)
Lemma collect_spec pk buf :
  pk_ok pk -> pk_buffer pk = Some buf -> blen (pk_out pk) <= LIMIT ->
  total_size (pk_head pk) (pk_offset pk) = Some (blen (pk_out pk))
  /\ ('(target, offset) ← copy_chunks (pk_head pk) (fresh (blen (pk_out pk))) 0;
     bytes ← mslice buf 0 (pk_offset pk);
     mwrite target offset bytes) = Some (pk_out pk).
Proof.
  intros Hok Eb Hl. unfold pk_ok in Hok. rewrite Eb in Hok. destruct Hok as (Ho & Hc & Hcap & Hch).
  assert (blen (pk_out pk) = pk_offset pk + blen (mjoin (map chunk_bytes (pk_head pk)))) as Hlen.
  { unfold pk_out. rewrite Eb, length_app, length_take. simpl. lia. }
  unfold LIMIT in *. split; [rewrite Hlen; apply total_size_spec; (done || unfold INT_MAX; lia)|].
  pose proof (copy_chunks_spec (pk_head pk) [] (fresh (blen (pk_out pk))) Hch) as Hcopy.
  cbn [app length] in Hcopy. change (Z.of_nat 0) with 0 in Hcopy. unfold fresh in *. rewrite length_replicate in Hcopy.
  rewrite Hcopy by (unfold INT_MAX; lia). cbn [mbind option_bind].
  rewrite mslice_take by lia. cbn [mbind option_bind].
  rewrite drop_replicate.
  rewrite <- (app_nil_r (replicate _ _)), mwrite_app; [|done|].
  - unfold pk_out. by rewrite Eb, app_nil_r.
  - rewrite length_replicate, length_take. lia.
Qed.

(** The answers for a value: its encoding in a buffer; a refusal, with the code
    of the encoder or because an allocation failed; undefined behaviour. *)
Definition serialized (h : heap) (v : as_val) (r : option (Z * option as_buffer)) : Prop :=
  match r with
  | Some (rc, Some buf) =>
      rc = 0 /\ (enc v).2 = 0 /\ bf_size buf = blen (enc v).1
      /\ take (Z.to_nat (bf_size buf)) (bf_data buf) = (enc v).1
      /\ blen (bf_data buf) = bf_capacity buf
  | Some (rc, None) => rc <> 0 /\ (rc = (enc v).2 \/ ~ all_ok h)
  | None => (enc v).2 = 0 /\ ~ all_ok h
  end.

Lemma serialize_spec h v :
  val_ok v -> blen (enc v).1 <= LIMIT ->
  serialized h v (as_msgpack_serializer_serialize h (Some v)).
Proof.
  intros Hok Hl. unfold serialized, as_msgpack_serializer_serialize.
  destruct (cf_malloc h) as [ok h1] eqn:E1. apply cf_malloc_spec in E1 as [Hs1 Hf1].
  destruct ok; cbn [negb]; [|auto].
  set (pk0 := mk_packer _ _ _ _ _).
  assert (pk_ok pk0) as Hpk0 by (cbv; split_and!; (done || constructor)).
  destruct (pack_val_packs v Hok pk0 Hpk0) as (rc & pk & Hp & Hcase); [by split|].
  cbn [as_pack_val]. rewrite Hp. cbn [mbind option_bind].
  destruct (rc =? 0) eqn:Erc; reflect_Z; cbn [negb].
  - subst rc. destruct Hcase as [[Hrc (Hok1 & Hs & [buf Eb] & Hout)]|[? _]]; [|done].
    change (pk_out pk0) with (@nil Z) in Hout. cbn [app] in Hout. symmetry in Hrc.
    rewrite Eb. cbn [mbind option_bind]. rewrite <- Hout in *.
    destruct (collect_spec pk buf Hok1 Eb Hl) as [Hts Hcopy].
    destruct (pk_head pk) as [|c cs] eqn:Eh.
    + unfold pk_ok in Hok1. rewrite Eb in Hok1. simpl. unfold pk_out. rewrite Eb, Eh. simpl.
      rewrite length_take. split_and!; (done || lia).
    + rewrite Hts. cbn [mbind option_bind]. destruct (cf_malloc (pk_heap pk)) as [ok2 h2] eqn:E2.
      apply cf_malloc_spec in E2 as [_ Hf2]. destruct ok2; cbn [negb fst].
      * destruct (copy_chunks _ _ _) as [[target offset]|]; [|done]. cbn [mbind option_bind] in *.
        destruct (mslice buf 0 _); [|done]. cbn [mbind option_bind] in *. rewrite Hcopy.
        cbn [mbind option_bind bf_size bf_data bf_capacity]. by rewrite Nat2Z.id, firstn_all.
      * split; [done|]. intros Hall. apply Hf2; [done|]. by do 2 (eapply suffix_all_ok; [done|]).
  - split; [done|]. destruct Hcase as [[-> _]|(_ & Hh & _)]; [by left|right].
    intros Hall. apply Hh. by eapply suffix_all_ok.
Qed.

(** the serializer is the reference encoder, however many chunks the packer
    needed and wherever an allocation fails: if it answers 0 then the encoder
    accepts the value and the buffer holds exactly its encoding; if it refuses,
    it is with the encoder's code or because an allocation failed; and the only
    undefined behaviour is the untested allocation of the final target. *)
Theorem serialize_writes_encoding h v :
  val_ok v -> blen (enc v).1 <= LIMIT ->
  serialized h v (as_msgpack_serializer_serialize h (Some v)).
Proof. apply serialize_spec. Qed.

(** the size announced beforehand is the size of the encoding, and 0 for a
    value the encoder refuses. *)
Theorem getsize_measures_encoding v :
  val_ok v -> blen (enc v).1 <= LIMIT ->
  as_msgpack_serializer_serialize_getsize (Some v)
  = Some (if (enc v).2 =? 0 then blen (enc v).1 else 0).
Proof.
  intros Hok Hl. unfold as_msgpack_serializer_serialize_getsize. set (pk0 := mk_packer _ _ _ _ _).
  unfold LIMIT in Hl. destruct (pack_val_packs v Hok pk0) as (rc & pk & Hp & Hcase).
  { simpl. done. }
  { split; [done|]. intros _. simpl. unfold INT_MAX. lia. }
  cbn [as_pack_val]. rewrite Hp. cbn [mbind option_bind].
  destruct Hcase as [[-> (_ & _ & _ & Hoff & _)]|(_ & _ & [? Hb])]; [|done]. rewrite Hoff.
  destruct ((enc v).2 =? 0); [|done]. simpl. rewrite u32_id; [done|unfold is_u32; lia].
Qed.

End PackProofs.

(** packing an integer takes the shortest form the format has, except that
    the 32-bit signed form is never used: 0x80000000 is a positive constant, so
    every integer below -32768 takes nine bytes. *)
Theorem integer_forms `{Platform} z :
  is_i64 z ->
  packs (fun pk => as_pack_integer pk z) (enc_int z) 0
  /\ blen (enc_int z) = (if (-32 <=? z) && (z <? 128) then 1 else
                         if (-128 <=? z) && (z <? 256) then 2 else
                         if (-32768 <=? z) && (z <? 65536) then 3 else
                         if (0 <=? z) && (z <? 2 ^ 32) then 5 else 9).
Proof.
  intros Hz. split; [by apply packs_integer|]. unfold enc_int.
  repeat case_if; rewrite ?andb_true_iff, ?andb_false_iff in *; unfold enc_uint; cbn [be_bytes length Z.of_nat];
    reflect_Z; try done; lia.
Qed.

(** ** Witnesses *)

Definition sample_val : as_val :=
  VMap [(VString [97; 98], Some (VList [Some (VInteger (-5)); Some (VBoolean true); Some VNil]));
        (VInteger 70000, Some (VBytes 4 [1; 0; 2]));
        (VBytes 4 [7], Some (VPair (Some (VInteger (2 ^ 40))) (Some (VString []))))].

Lemma sample_val_ok : val_ok sample_val.
Proof. cbv. split_and!; done. Qed.

Lemma serialize_writes_encoding_witness :
  serialized [true] sample_val (@as_msgpack_serializer_serialize x86_64 [true] (Some sample_val)).
Proof.
  apply (@serialize_writes_encoding x86_64 [true] sample_val sample_val_ok).
  vm_compute. discriminate.
Defined.

Lemma getsize_measures_encoding_witness :
  @as_msgpack_serializer_serialize_getsize ppc64 (Some sample_val) = Some 34.
Proof.
  rewrite (@getsize_measures_encoding ppc64 sample_val sample_val_ok); [reflexivity|].
  vm_compute. discriminate.
Defined.

Lemma integer_forms_witness :
  packs (fun pk => @as_pack_integer x86_64 pk (-40000)) [0xd3; 255; 255; 255; 255; 255; 255; 99; 192] 0.
Proof. apply (@integer_forms x86_64 (-40000)). unfold is_i64. lia. Defined.
