(* ===== verification/Roundtrip.v ===== *)
(** * MessagePack round trips

    What [as_msgpack_serializer_deserialize] makes of the bytes that
    [as_msgpack_serializer_serialize] wrote, possibly on a host of the other
    byte order; and what it makes of bytes that no serializer wrote. *)

From S2P Require Import Prelude ByteOrder ArrayList HashMap Value Msgpack.

(** ** The values that survive *)

(** The key that arrives: a boolean travels as an integer. *)
Definition sent_key (k : as_val) : as_val :=
  match k with VBoolean b => VInteger (if b then 1 else 0) | k => k end.

Fixpoint distinct (keys : list as_val) : bool :=
  match keys with
  | [] => true
  | k :: keys => forallb (fun k' => negb (eq_val k k')) keys && distinct keys
  end.

(** Strings have no NUL inside, byte arrays are not of the type of strings, keys
    are of a type the map accepts, not empty, and distinct after the trip;
    nothing is NULL. *)
Fixpoint decodable (v : as_val) : bool :=
  let opt (v : option as_val) := match v with Some v => decodable v | None => false end in
  match v with
  | VNil | VBoolean _ => true
  | VInteger z => bool_decide (is_i64 z)
  | VString s => bool_decide (c_str s = s)
  | VBytes type _ => bool_decide (is_byte type) && negb (type =? AS_BYTES_STRING)
  | VList l => forallb opt l
  | VMap m => forallb (fun kv => (is_valid_key_type kv.1 && hashable (Some kv.1))
                                 && (decodable kv.1 && opt kv.2)) m
              && distinct (map (fun kv => sent_key kv.1) m)
  | VPair v1 v2 => opt v1 && opt v2
  | VRec _ | VUndef => false
  end.

Definition opt_decodable (v : option as_val) : bool :=
  match v with Some v => decodable v | None => false end.

(** What arrives for a value: booleans become integers, pairs become lists, and
    the entries of a map come in some order. *)
Inductive decodes : as_val -> as_val -> Prop :=
  | D_nil : decodes VNil VNil
  | D_boolean b : decodes (VBoolean b) (VInteger (if b then 1 else 0))
  | D_integer z : decodes (VInteger z) (VInteger z)
  | D_string s : decodes (VString s) (VString s)
  | D_bytes type b : decodes (VBytes type b) (VBytes type b)
  | D_list l l' : Forall2 decodes l l' -> decodes (VList (map Some l)) (VList (map Some l'))
  | D_pair v1 v2 w1 w2 :
      decodes v1 w1 -> decodes v2 w2 ->
      decodes (VPair (Some v1) (Some v2)) (VList [Some w1; Some w2])
  | D_map m m' m'' :
      Forall2 (fun kv kv' => decodes kv.1 kv'.1 /\ decodes kv.2 kv'.2) m m' ->
      m'' ≡ₚ map (prod_map id Some) m' ->
      decodes (VMap (map (prod_map id Some) m)) (VMap m'').

Lemma decodes_key k w : is_valid_key_type k = true -> decodes k w -> w = sent_key k.
Proof. intros Hk Hd. by destruct Hd. Qed.

(** ** Encodings that do not fail *)

Definition bytes_of (v : as_val) : list Z := (enc v).1.

Lemma enc_seq_ok rs :
  Forall (fun r => r.2 = 0) rs -> enc_seq rs = (mjoin (map fst rs), true).
Proof.
  induction 1 as [|[bs rc] rs Hrc Hrs IH]; [done|]. simpl in Hrc. subst rc.
  rewrite enc_seq_cons, IH. done.
Qed.

Definition enc_ok (v : as_val) : Prop := decodable v = true -> (enc v).2 = 0 /\ val_ok v.

(** The elements of a decodable list. *)
Lemma opt_all_list (P : as_val -> Prop) l :
  Forall (opt_all P) l -> forallb opt_decodable l = true ->
  exists vs, l = map Some vs /\ Forall P vs /\ Forall (fun v => decodable v = true) vs.
Proof.
  induction 1 as [|v l Hv Hl IH]; simpl; intros Hd.
  { exists []. split; [done|]. split; constructor. }
  apply andb_true_iff in Hd as [Hdv Hd]. destruct (IH Hd) as (vs & -> & HP & HD).
  destruct v as [v|]; [|done]. exists (v :: vs). split; [done|]. split; constructor; done.
Qed.

Lemma opt_all_map (P : as_val -> Prop) m :
  Forall (fun kv => P kv.1 /\ opt_all P kv.2) m ->
  forallb (fun kv => (is_valid_key_type kv.1 && hashable (Some kv.1))
                     && (decodable kv.1 && opt_decodable kv.2)) m = true ->
  exists es, m = map (prod_map id Some) es
    /\ Forall (fun kv => P kv.1 /\ P kv.2) es
    /\ Forall (fun kv => decodable kv.1 = true /\ decodable kv.2 = true) es
    /\ Forall (fun kv => is_valid_key_type kv.1 = true /\ hashable (Some kv.1) = true) es.
Proof.
  induction 1 as [|[k v] m [Hk Hv] Hm IH]; simpl; intros Hd.
  { exists []. split; [done|]. by split_and!. }
  apply andb_true_iff in Hd as [[[Hd1 Hd2]%andb_true_iff [Hd3 Hd4]%andb_true_iff]%andb_true_iff Hd].
  destruct (IH Hd) as (es & -> & HP & HD & HK).
  destruct v as [v|]; [|done]. exists ((k, v) :: es). split; [done|].
  split; [|split]; constructor; done.
Qed.

Lemma Forall_fold_right_and {A} (P : A -> Prop) l : Forall P l -> fold_right (fun x Q => P x /\ Q) True l.
Proof. induction 1; simpl; auto. Qed.

Lemma enc_seq_list vs :
  Forall (fun v => (enc v).2 = 0) vs -> enc_seq (map enc_opt (map Some vs)) = (mjoin (map bytes_of vs), true).
Proof.
  intros Hv. rewrite enc_seq_ok; [by rewrite !map_map|].
  rewrite map_map. apply Forall_map. exact Hv.
Qed.

Lemma enc_seq_map es :
  Forall (fun kv => (enc kv.1).2 = 0 /\ (enc kv.2).2 = 0) es ->
  enc_seq (flat_map (fun kv => [enc kv.1; enc_opt kv.2]) (map (prod_map id Some) es))
  = (mjoin (map (fun kv => bytes_of kv.1 ++ bytes_of kv.2) es), true).
Proof.
  induction 1 as [|[k v] es [Hk Hv] Hes IH]; [done|]. cbn [map flat_map app prod_map fst snd id enc_opt] in *.
  unfold bytes_of in *. destruct (enc k) as [bk rk], (enc v) as [bv rv]. simpl in Hk, Hv. subst.
  rewrite !enc_seq_cons, IH. simpl. by rewrite <- app_assoc.
Qed.

Lemma decodable_enc v : enc_ok v.
Proof.
  induction v as [|b|z|s|t b|l IH|m IH|h|v1 v2 IH1 IH2|] using as_val_ind'; intros Hd; cbn [decodable] in Hd;
    try done.
  - split; [done|]. by apply bool_decide_eq_true_1 in Hd.
  - apply andb_true_iff in Hd as [Ht%bool_decide_eq_true_1 _]. done.
  - fold opt_decodable in Hd. destruct (opt_all_list _ l IH Hd) as (vs & -> & HP & HD).
    assert (Forall (fun v => (enc v).2 = 0 /\ val_ok v) vs) as Hall.
    { apply Forall_forall. intros v Hv. rewrite Forall_forall in HP, HD. by apply HP, HD. }
    split.
    + cbn [enc]. fold enc_opt. unfold enc_all. rewrite enc_seq_list; [done|].
      eapply Forall_impl; [exact Hall|]. by intros ? [? _].
    + apply Forall_fold_right_and, Forall_map. eapply Forall_impl; [exact Hall|]. by intros ? [_ ?].
  - fold opt_decodable in Hd. apply andb_true_iff in Hd as [Hd _].
    destruct (opt_all_map _ m IH Hd) as (es & -> & HP & HD & _).
    assert (Forall (fun kv => ((enc kv.1).2 = 0 /\ (enc kv.2).2 = 0) /\ val_ok kv.1 /\ val_ok kv.2) es) as Hall.
    { apply Forall_forall. intros kv Hkv. rewrite Forall_forall in HP, HD.
      destruct (HP kv Hkv) as [H1 H2], (HD kv Hkv) as [D1 D2], (H1 D1), (H2 D2). done. }
    split.
    + cbn [enc]. fold enc_opt. unfold enc_all. rewrite enc_seq_map; [done|].
      eapply Forall_impl; [exact Hall|]. by intros ? [? _].
    + apply Forall_fold_right_and, Forall_map. eapply Forall_impl; [exact Hall|]. by intros ? [_ ?].
  - apply andb_true_iff in Hd as [Hd1 Hd2]. destruct v1 as [v1|], v2 as [v2|]; try done.
    destruct (IH1 Hd1) as [E1 O1], (IH2 Hd2) as [E2 O2]. split; [|done].
    cbn [enc]. destruct (enc v1) as [b1 r1], (enc v2) as [b2 r2]. simpl in *. by subst.
Qed.

(** Every value takes a byte at least. *)
Lemma bytes_of_pos v : decodable v = true -> 1 <= blen (bytes_of v).
Proof.
  unfold bytes_of. destruct v; cbn [decodable enc fst]; intros Hd; try done.
  - unfold enc_int. repeat case_if; simpl; lia.
  - unfold enc_blob. rewrite length_app. simpl. lia.
  - unfold enc_blob. rewrite length_app. simpl. lia.
  - unfold enc_all, enc_header. destruct (enc_seq _). simpl. rewrite length_app. repeat case_if; simpl; lia.
  - unfold enc_all, enc_header. destruct (enc_seq _). simpl. rewrite length_app. repeat case_if; simpl; lia.
  - destruct v1 as [v1|], v2 as [v2|]; rewrite ?andb_false_r in Hd; try done.
    destruct (enc v1), (enc v2). repeat case_if; simpl; lia.
Qed.

Lemma enc_header_pos n small t16 t32 : 1 <= blen (enc_header n small t16 t32).
Proof. unfold enc_header, enc_uint. repeat case_if; simpl; lia. Qed.

Lemma join_lower {A} (f : A -> list Z) n l :
  Forall (fun x => n <= blen (f x)) l -> n * blen l <= blen (mjoin (map f l)).
Proof.
  induction 1 as [|x l Hx Hl IH]; [simpl; lia|].
  change (mjoin (map f (x :: l))) with (f x ++ mjoin (map f l)). rewrite length_app. simpl. lia.
Qed.

(** ** Reading *)

Section Reading.
Context `{Platform}.

(** The bytes [bs] lie at [off]. *)
Definition holds (buf : list Z) (off : Z) (bs : list Z) : Prop :=
  exists pre post, buf = pre ++ bs ++ post /\ off = blen pre /\ off + blen bs <= INT_MAX.

Lemma holds_app buf off b1 b2 :
  holds buf off (b1 ++ b2) -> holds buf off b1 /\ holds buf (off + blen b1) b2.
Proof.
  intros (pre & post & -> & -> & Hm). rewrite length_app in Hm. split.
  - exists pre, (b2 ++ post). rewrite app_assoc. split; [by rewrite !app_assoc|]. split; [done|lia].
  - exists (pre ++ b1), post. rewrite !app_assoc. split; [done|]. rewrite length_app. lia.
Qed.

Lemma holds_cons buf off b bs :
  holds buf off (b :: bs) -> as_extract_uint8 buf off = Some (b, off + 1) /\ holds buf (off + 1) bs.
Proof.
  intros Hh. change (b :: bs) with ([b] ++ bs) in Hh. apply holds_app in Hh as [Hb Hh]. split; [|done].
  destruct Hb as (pre & post & -> & Ho & Hm). simpl in Hm. unfold as_extract_uint8.
  simpl. rewrite mread_app by done. cbn [mbind option_bind]. rewrite iadd_ok by lia. done.
Qed.

Lemma holds_slice buf off bs : holds buf off bs -> mslice buf off (blen bs) = Some bs.
Proof. intros (pre & post & -> & Ho & _). by apply mslice_app. Qed.

Lemma holds_range buf off bs : holds buf off bs -> 0 <= off /\ off + blen bs <= INT_MAX /\ off <= blen buf.
Proof. intros (pre & post & -> & -> & Hm). rewrite !length_app. lia. Qed.

Lemma extract16 buf off z :
  holds buf off (be_bytes 2 z) -> as_extract_uint16 buf off = Some (u16 z, off + 2).
Proof.
  intros Hh. pose proof (holds_range _ _ _ Hh) as (H0 & H1 & _). apply holds_slice in Hh.
  rewrite be_bytes_length in *. unfold as_extract_uint16. change (Z.of_nat 2) with 2 in *. rewrite Hh. cbn [mbind option_bind].
  rewrite iadd_ok by lia. cbn [mbind option_bind]. by rewrite get_be16_be_bytes.
Qed.
Lemma extract32 buf off z :
  holds buf off (be_bytes 4 z) -> as_extract_uint32 buf off = Some (u32 z, off + 4).
Proof.
  intros Hh. pose proof (holds_range _ _ _ Hh) as (H0 & H1 & _). apply holds_slice in Hh.
  rewrite be_bytes_length in *. unfold as_extract_uint32. change (Z.of_nat 4) with 4 in *. rewrite Hh. cbn [mbind option_bind].
  rewrite iadd_ok by lia. cbn [mbind option_bind]. by rewrite get_be32_be_bytes.
Qed.
Lemma extract64 buf off z :
  holds buf off (be_bytes 8 z) -> as_extract_uint64 buf off = Some (u64 z, off + 8).
Proof.
  intros Hh. pose proof (holds_range _ _ _ Hh) as (H0 & H1 & _). apply holds_slice in Hh.
  rewrite be_bytes_length in *. unfold as_extract_uint64. change (Z.of_nat 8) with 8 in *. rewrite Hh. cbn [mbind option_bind].
  rewrite iadd_ok by lia. cbn [mbind option_bind]. by rewrite get_be64_be_bytes.
Qed.

(** *** Where the type bytes lead *)

Lemma dispatch_range lo n f :
  forallb (fun k => match dispatch k, f k with
                    | CBlob a, CBlob b | CMap a, CMap b | CList a, CList b | CFix a, CFix b => a =? b
                    | _, _ => false
                    end) (map (fun i => lo + Z.of_nat i) (seq 0 n)) = true ->
  forall k, lo <= k < lo + Z.of_nat n -> dispatch k = f k.
Proof.
  intros Hall k Hk. rewrite forallb_forall in Hall.
  assert (In k (map (fun i => lo + Z.of_nat i) (seq 0 n))) as Hin.
  { apply in_map_iff. exists (Z.to_nat (k - lo)). split; [lia|]. apply in_seq. lia. }
  specialize (Hall k Hin). destruct (dispatch k), (f k); try done; f_equal; lia.
Qed.

Lemma dispatch_fix z : 0 <= z < 128 -> dispatch z = CFix z.
Proof. by apply (dispatch_range 0 128 CFix). Qed.
Lemma dispatch_negfix z : -32 <= z < 0 -> dispatch (z + 256) = CFix z.
Proof.
  intros Hz. rewrite (dispatch_range 224 32 (fun k => CFix (k - 256))) by (done || lia). f_equal. lia.
Qed.
Lemma dispatch_blob n : 0 <= n < 32 -> dispatch (0xa0 + n) = CBlob n.
Proof.
  intros Hn. rewrite (dispatch_range 0xa0 32 (fun k => CBlob (k - 0xa0))) by (done || lia). f_equal. lia.
Qed.
Lemma dispatch_map n : 0 <= n < 16 -> dispatch (0x80 + n) = CMap n.
Proof.
  intros Hn. rewrite (dispatch_range 0x80 16 (fun k => CMap (k - 0x80))) by (done || lia). f_equal. lia.
Qed.
Lemma dispatch_list n : 0 <= n < 16 -> dispatch (0x90 + n) = CList n.
Proof.
  intros Hn. rewrite (dispatch_range 0x90 16 (fun k => CList (k - 0x90))) by (done || lia). f_equal. lia.
Qed.

(** *** Scalars *)

Lemma ret_int z z' off off' :
  i64 z = z' -> off = off' -> lift (as_unpack_integer z off) = URet (0, Some (VInteger z'), off').
Proof. by intros <- <-. Qed.

Lemma unpack_int buf fuel off z :
  is_i64 z -> holds buf off (enc_int z) ->
  as_unpack_val buf (S fuel) off = URet (0, Some (VInteger z), off + blen (enc_int z)).
Proof.
  intros Hz. unfold enc_int, enc_uint. cbn [as_unpack_val].
  pose proof Hz as Hz'. unfold is_i64 in Hz'.
  destruct (0 <=? z) eqn:E0; reflect_Z; repeat case_if; reflect_Z; intros Hh;
    apply holds_cons in Hh as [-> Hh]; cbn [lift ubind].
  - rewrite dispatch_fix by lia. by apply ret_int; [apply i64_id|].
  - apply holds_cons in Hh as [Hx _]. simpl dispatch. cbv iota. rewrite Hx.
    apply ret_int; [by apply i64_id|simpl; lia].
  - simpl dispatch. cbv iota. rewrite (extract16 _ _ _ Hh). rewrite u16_id by lia.
    apply ret_int; [by apply i64_id|simpl; lia].
  - simpl dispatch. cbv iota. rewrite (extract32 _ _ _ Hh). rewrite u32_id by (unfold is_u32; lia).
    apply ret_int; [by apply i64_id|simpl; lia].
  - simpl dispatch. cbv iota. rewrite (extract64 _ _ _ Hh). rewrite u64_id by lia.
    apply ret_int; [by apply i64_id|simpl; lia].
  - rewrite dispatch_negfix by lia. by apply ret_int; [apply i64_id|].
  - apply holds_cons in Hh as [Hx _]. simpl dispatch. cbv iota. rewrite Hx.
    apply ret_int; [|simpl; lia]. replace (i8 (z + 256)) with z by width_lia. by apply i64_id.
  - simpl dispatch. cbv iota. rewrite (extract16 _ _ _ Hh).
    apply ret_int; [|simpl; lia]. rewrite i16_u16, i16_id by lia. by apply i64_id.
  - simpl dispatch. cbv iota. rewrite (extract64 _ _ _ Hh).
    apply ret_int; [|simpl; lia]. by rewrite i64_u64, !i64_id by (rewrite ?i64_id; done).
Qed.

Lemma strn_spec s post : c_str s = s -> strn (s ++ post) (blen s) = Some s.
Proof.
  induction s as [|c s IH]; [by destruct post|]. cbn [c_str]. destruct (c =? 0) eqn:E; [done|]. intros [= Hs].
  cbn [strn app]. rewrite (proj2 (Z.eqb_neq _ 0)) by (simpl; lia). rewrite E.
  replace (blen (c :: s) - 1) with (blen s) by (simpl; lia). by rewrite IH.
Qed.

Lemma unpack_blob_at buf off type value :
  holds buf off (type :: value) -> blen value < LIMIT -> (type = AS_BYTES_STRING -> c_str value = value) ->
  as_unpack_blob buf (blen value + 1) off
  = Some (0, Some (if type =? AS_BYTES_STRING then VString value else VBytes type value),
          off + (blen value + 1)).
Proof.
  intros Hh Hl Hs. unfold LIMIT in Hl. apply holds_cons in Hh as [He Hh]. unfold as_unpack_blob. rewrite He.
  cbn [mbind option_bind]. rewrite iadd_ok by (unfold INT_MAX; lia). cbn [mbind option_bind].
  replace (blen value + 1 + -1) with (blen value) by lia.
  pose proof (holds_range _ _ _ Hh) as (H0 & H1 & H2).
  rewrite (iadd_ok (off + 1)) by lia. rewrite (holds_slice _ _ _ Hh).
  destruct (type =? AS_BYTES_STRING) eqn:E; cbn [mbind option_bind]; [|do 2 f_equal; lia].
  unfold strndup. rewrite decide_True by lia. rewrite u64_id by lia.
  destruct Hh as (pre & post & -> & Ho & _). rewrite Ho, Nat2Z.id, drop_app_length, strn_spec by (apply Hs; lia).
  cbn [mbind option_bind]. do 2 f_equal. lia.
Qed.

Lemma unpack_blob buf fuel off type value :
  holds buf off (enc_blob type value) -> blen (enc_blob type value) <= LIMIT ->
  (type = AS_BYTES_STRING -> c_str value = value) ->
  as_unpack_val buf (S fuel) off
  = URet (0, Some (if type =? AS_BYTES_STRING then VString value else VBytes type value),
          off + blen (enc_blob type value)).
Proof.
  unfold enc_blob. intros Hh Hl Hs. apply holds_app in Hh as [Hhd Hh]. rewrite length_app in *.
  rewrite length_cons in *. assert (blen value < LIMIT) as Hv by lia. pose proof Hv as Hv'. unfold LIMIT in Hv'.
  pose proof (unpack_blob_at _ _ _ _ Hh Hv Hs) as Hb. cbn [as_unpack_val]. unfold enc_uint in *.
  destruct (blen value + 1 <? 32) eqn:E1; [|destruct (blen value + 1 <? 65536) eqn:E2]; reflect_Z;
    apply holds_cons in Hhd as [-> Hhd]; cbn [lift ubind].
  - rewrite dispatch_blob by lia. cbn [length] in Hb. change (Z.of_nat 1) with 1 in Hb. rewrite Hb. cbn [lift]. do 2 f_equal. simpl. lia.
  - simpl dispatch. cbv iota. rewrite (extract16 _ _ _ Hhd), u16_id by lia. cbn [mbind option_bind].
    rewrite length_cons, be_bytes_length in *. replace (off + 1 + 2) with (off + Z.of_nat 3) by lia. rewrite Hb.
    cbn [lift]. do 2 f_equal. lia.
  - simpl dispatch. cbv iota. rewrite (extract32 _ _ _ Hhd), u32_id by (unfold is_u32; lia).
    cbn [mbind option_bind]. rewrite i32_id by lia.
    rewrite length_cons, be_bytes_length in *. replace (off + 1 + 4) with (off + Z.of_nat 5) by lia. rewrite Hb.
    cbn [lift]. do 2 f_equal. lia.
Qed.

(** *** Containers *)

Lemma unpack_list_header buf fuel off n :
  0 <= n <= LIMIT -> holds buf off (enc_header n 0x90 0xdc 0xdd) ->
  as_unpack_val buf (S fuel) off
  = as_unpack_list (as_unpack_val buf fuel) n (off + blen (enc_header n 0x90 0xdc 0xdd)).
Proof.
  unfold LIMIT. intros Hn. unfold enc_header, enc_uint. cbn [as_unpack_val].
  repeat case_if; reflect_Z; intros Hh; apply holds_cons in Hh as [-> Hh]; cbn [lift ubind].
  - by rewrite dispatch_list by lia.
  - simpl dispatch. cbv iota. rewrite (extract16 _ _ _ Hh), u16_id by lia. cbn [lift ubind].
    f_equal. simpl. lia.
  - simpl dispatch. cbv iota. rewrite (extract32 _ _ _ Hh), u32_id by (unfold is_u32; lia). cbn [lift ubind].
    rewrite i32_id by lia. f_equal. simpl. lia.
Qed.

Lemma unpack_map_header buf fuel off n :
  0 <= n <= LIMIT -> holds buf off (enc_header n 0x80 0xde 0xdf) ->
  as_unpack_val buf (S fuel) off
  = as_unpack_map (as_unpack_val buf fuel) n (off + blen (enc_header n 0x80 0xde 0xdf)).
Proof.
  unfold LIMIT. intros Hn. unfold enc_header, enc_uint. cbn [as_unpack_val].
  repeat case_if; reflect_Z; intros Hh; apply holds_cons in Hh as [-> Hh]; cbn [lift ubind].
  - by rewrite dispatch_map by lia.
  - simpl dispatch. cbv iota. rewrite (extract16 _ _ _ Hh), u16_id by lia. cbn [lift ubind].
    f_equal. simpl. lia.
  - simpl dispatch. cbv iota. rewrite (extract32 _ _ _ Hh), u32_id by (unfold is_u32; lia). cbn [lift ubind].
    rewrite i32_id by lia. f_equal. simpl. lia.
Qed.

Definition unpack_spec (v : as_val) : Prop :=
  decodable v = true -> forall buf off fuel,
  holds buf off (bytes_of v) -> blen (bytes_of v) <= LIMIT -> (length (bytes_of v) <= fuel)%nat ->
  exists w, as_unpack_val buf fuel off = URet (0, Some w, off + blen (bytes_of v)) /\ decodes v w.

Lemma mjoin_cons {A B} (f : A -> list B) x l : mjoin (map f (x :: l)) = f x ++ mjoin (map f l).
Proof. done. Qed.

Lemma set_at_end {P} (acc : list (option P)) v : ArrayList.set_at (length acc) v acc = acc ++ [v].
Proof.
  unfold ArrayList.set_at, ArrayList.pad. replace (S (length acc) - length acc)%nat with 1%nat by lia.
  rewrite insert_app_r_alt by done. by rewrite Nat.sub_diag.
Qed.

Lemma unpack_list_ok vs buf fuel :
  Forall unpack_spec vs -> Forall (fun v => decodable v = true) vs ->
  (length (mjoin (map bytes_of vs)) <= fuel)%nat -> blen (mjoin (map bytes_of vs)) <= LIMIT ->
  forall off a acc, holds buf off (mjoin (map bytes_of vs)) ->
  al_rep a acc -> block_size a = 8 -> blen acc + blen vs <= LIMIT ->
  exists a' ws, unpack_list_loop (as_unpack_val buf fuel) (length vs) (blen acc) a off
                = URet (a', off + blen (mjoin (map bytes_of vs)))
    /\ al_rep a' (acc ++ map Some ws) /\ Forall2 decodes vs ws.
Proof.
  intros Hs Hd. revert Hs. induction Hd as [|v vs Hdv Hd IH]; intros Hs Hf Hl off a acc Hh Ha Hb Hn.
  { exists a, []. simpl. rewrite app_nil_r, Z.add_0_r. by split_and!. }
  apply Forall_cons in Hs as [Hv Hs]. rewrite mjoin_cons, length_app in *. apply holds_app in Hh as [Hh1 Hh2].
  destruct (Hv Hdv buf off fuel Hh1) as (w & Hu & Hw); [lia..|].
  cbn [unpack_list_loop length]. rewrite Hu. cbn [ubind]. unfold LIMIT in *.
  destruct (list_set_ok a acc (length acc) (Some w) Ha) as (a1 & -> & Ha1 & Hb1).
  { split; simpl in *; lia. }
  cbn [lift ubind]. rewrite set_at_end in Ha1.
  replace (blen acc + 1) with (blen (acc ++ [Some w])) by (rewrite length_app; simpl; lia).
  destruct (IH Hs ltac:(lia) ltac:(lia) _ a1 (acc ++ [Some w]) Hh2 Ha1) as (a' & ws & -> & Ha' & Hws);
    [congruence|rewrite length_app; simpl in *; lia|].
  exists a', (w :: ws). split; [do 2 f_equal; lia|]. split; [by rewrite <- app_assoc in Ha'|by constructor].
Qed.

Lemma list_val_rep (a : as_arraylist as_val) l : al_rep a l -> list_val a = VList l.
Proof.
  intros (Hs & Hc & _ & He). unfold list_val. f_equal. rewrite Hs, He, Nat2Z.id, fmap_app, take_app_length'.
  - change (Some <$> l) with (map Some l). rewrite map_map. apply map_id.
  - by rewrite length_fmap.
Qed.

Lemma unpack_list buf fuel off vs :
  Forall unpack_spec vs -> Forall (fun v => decodable v = true) vs ->
  blen vs <= LIMIT -> blen (mjoin (map bytes_of vs)) <= LIMIT ->
  holds buf off (mjoin (map bytes_of vs)) -> (length (mjoin (map bytes_of vs)) <= fuel)%nat ->
  exists ws, as_unpack_list (as_unpack_val buf fuel) (blen vs) off
             = URet (0, Some (VList (map Some ws)), off + blen (mjoin (map bytes_of vs)))
    /\ Forall2 decodes vs ws.
Proof.
  intros Hs Hd Hn Hl Hh Hf. unfold as_unpack_list. pose proof Hn as Hn'. unfold LIMIT in Hn'.
  rewrite u32_id by (unfold is_u32; lia).
  destruct (ArrayList.new_ok (P := as_val) (blen vs) 8) as (a & -> & Ea); [lia..|]. cbn [lift ubind].
  destruct (unpack_list_ok vs buf fuel Hs Hd Hf Hl off a [] Hh) as (a' & ws & Hu & Ha' & Hws).
  - subst a. unfold al_rep. simpl. rewrite Z.sub_0_r. split_and!; (done || lia).
  - by subst a.
  - simpl. lia.
  - exists ws. rewrite Nat2Z.id. cbn [length] in Hu. change (Z.of_nat 0) with 0 in Hu. rewrite Hu. cbn [ubind].
    by rewrite (list_val_rep _ _ Ha').
Qed.

(** *** Maps *)

Definition entry_bytes (kv : as_val * as_val) : list Z := bytes_of kv.1 ++ bytes_of kv.2.

Definition key_ok (kv : as_val * as_val) : Prop :=
  is_valid_key_type kv.1 = true /\ hashable (Some kv.1) = true.

Definition entry_decodes (kv kv' : as_val * as_val) : Prop := decodes kv.1 kv'.1 /\ decodes kv.2 kv'.2.

Lemma sent_key_ok kv :
  key_ok kv -> is_valid_key_type (sent_key kv.1) = true /\ hashable (Some (sent_key kv.1)) = true.
Proof. intros [Hv Hh]. by destruct (kv.1). Qed.

(** Adding a key that is not there. *)
Lemma set_new_key (m : as_hashmap as_val as_val) L k v n :
  hm_models m L -> is_valid_key_type k = true -> hashable (Some k) = true ->
  0 <= n -> hm_fits m (n + 1) -> Forall (fun kv => eq_val kv.1 k = false) L ->
  exists m', as_hashmap_set as_val_hashcode eq_val is_valid_key_type true m (Some k) v = Some (0, m', [])
    /\ hm_models m' ((k, v) :: L) /\ hm_fits m' n.
Proof.
  intros Hm Hv Hh Hn Hf HL.
  assert (op_hashed (MSet (Some k) v : hmop as_val as_val)) as Hop by (by apply hashable_hashed).
  destruct (hm_step_refines m L _ n Hm Hop Hn Hf) as (m' & He & Hm' & Hf'). exists m'.
  destruct (matching_none eq_val k L HL) as [Hmt Hot].
  cbn [hm_exec hm_spec] in *. unfold valid_key in *. cbn [mbind option_bind hk_valid as_val_key] in *.
  rewrite Hv in *. cbn [fst snd hk_eq hk_hash hk_valid as_val_key] in *. rewrite Hmt in He. rewrite Hot in Hm'.
  split; [|done].
  destruct (as_hashmap_set _ _ _ _ _ _ _) as [[[rc m1] d]|]; [|done]. cbn [mbind option_bind] in He.
  by injection He as -> -> ->.
Qed.

Lemma unpack_map_ok es buf fuel :
  Forall (fun kv => unpack_spec kv.1 /\ unpack_spec kv.2) es ->
  Forall (fun kv => decodable kv.1 = true /\ decodable kv.2 = true) es -> Forall key_ok es ->
  distinct (map (fun kv => sent_key kv.1) es) = true ->
  (length (mjoin (map entry_bytes es)) <= fuel)%nat -> blen (mjoin (map entry_bytes es)) <= LIMIT ->
  forall off m L, holds buf off (mjoin (map entry_bytes es)) ->
  hm_models m L -> hm_fits m (blen es) ->
  Forall (fun e => Forall (fun kv => eq_val kv.1 (sent_key e.1) = false) L) es ->
  exists m' es', unpack_map_loop (as_unpack_val buf fuel) (length es) m off
                 = URet (m', off + blen (mjoin (map entry_bytes es)))
    /\ hm_models m' (map (prod_map id Some) es' ++ L) /\ Forall2 entry_decodes es es'.
Proof.
  intros Hs Hd. revert Hs.
  induction Hd as [|[k v] es [Hdk Hdv] Hd IH]; intros Hs Hk Hdist Hf Hl off m L Hh Hm Hfit Hnew.
  { exists m, []. simpl. rewrite Z.add_0_r. by split_and!. }
  apply Forall_cons in Hs as [[Hsk Hsv] Hs], Hk as [Hk Hks], Hnew as [Hnk Hnew].
  cbn [map distinct fst] in Hdist. apply andb_true_iff in Hdist as [Hdk1 Hdist].
  rewrite mjoin_cons, length_app in *. unfold entry_bytes at 1 in Hf. unfold entry_bytes at 1 in Hl.
  unfold entry_bytes at 1. cbn [fst snd] in *. rewrite length_app in *.
  apply holds_app in Hh as [Hh1 Hh3]. unfold entry_bytes at 1 in Hh1.
  apply holds_app in Hh1 as [Hh1 Hh2]. cbn [fst snd] in *.
  destruct (Hsk Hdk buf off fuel Hh1) as (k' & Huk & Hwk); [lia..|].
  destruct (Hsv Hdv buf _ fuel Hh2) as (v' & Huv & Hwv); [lia..|].
  pose proof (decodes_key k k' (proj1 Hk) Hwk) as ->.
  destruct (sent_key_ok _ Hk) as [Hvk Hhk]. cbn [fst] in *.
  destruct (set_new_key m L (sent_key k) (Some v') (blen es) Hm Hvk Hhk) as (m1 & Hset & Hm1 & Hf1);
    [lia|by replace (blen es + 1) with (blen ((k, v) :: es)) by (simpl; lia)|done|].
  destruct (IH Hs Hks Hdist ltac:(lia) ltac:(lia) (off + blen (entry_bytes (k, v))) m1
              ((sent_key k, Some v') :: L) Hh3 Hm1 Hf1) as (m' & es' & Hloop & Hm' & Hes').
  { rewrite forallb_forall in Hdk1. rewrite Forall_forall in Hnew. apply Forall_forall. intros e He.
    constructor; [|by apply Hnew]. cbn [fst]. apply negb_true_iff, Hdk1, in_map_iff. exists e. split; [done|].
    by apply list_elem_of_In. }
  unfold entry_bytes in Hloop at 1. cbn [fst snd] in Hloop. rewrite length_app in Hloop.
  exists m', ((sent_key k, v') :: es'). split; [|split; [|by constructor]].
  - cbn [unpack_map_loop length]. rewrite Huk. cbn [ubind]. rewrite Huv. cbn [ubind]. rewrite Hset. cbn [lift ubind].
    rewrite <- Z.add_assoc, <- Nat2Z.inj_add, Hloop. do 2 f_equal.
    pose proof (length_app (bytes_of k) (bytes_of v) : length (entry_bytes (k, v)) = _). lia.
  - destruct Hm' as (B & HB & Hp). exists B. split; [done|]. rewrite Hp. simpl. by rewrite Permutation_middle.
Qed.

Lemma models_entries (m : as_hashmap as_val as_val) L : hm_models m L -> hm_entries m ≡ₚ L.
Proof.
  intros (B & ((ch & fl & A & Hwf & ->) & _) & Hl). rewrite <- Hl. by apply (wf_entries m ch fl A).
Qed.

Lemma unpack_map buf fuel off es :
  Forall (fun kv => unpack_spec kv.1 /\ unpack_spec kv.2) es ->
  Forall (fun kv => decodable kv.1 = true /\ decodable kv.2 = true) es -> Forall key_ok es ->
  distinct (map (fun kv => sent_key kv.1) es) = true ->
  blen es <= LIMIT -> blen (mjoin (map entry_bytes es)) <= LIMIT ->
  holds buf off (mjoin (map entry_bytes es)) -> (length (mjoin (map entry_bytes es)) <= fuel)%nat ->
  exists es' m'', as_unpack_map (as_unpack_val buf fuel) (blen es) off
             = URet (0, Some (VMap m''), off + blen (mjoin (map entry_bytes es)))
    /\ Forall2 entry_decodes es es' /\ m'' ≡ₚ map (prod_map id Some) es'.
Proof.
  intros Hs Hd Hk Hdist Hn Hl Hh Hf. unfold as_unpack_map. unfold LIMIT in Hn.
  set (cap := if 32 <? blen es then blen es else 32).
  assert (32 <= cap < 2 ^ 30) as Hcap by (unfold cap; case_if; reflect_Z; lia).
  rewrite u32_id by (unfold is_u32; lia). unfold as_hashmap_new. cbn [cf_malloc negb fst].
  destruct (as_hashmap_cons (K := as_val) (V := as_val) true cap) as [m|] eqn:Em; [|done]. cbn [lift ubind].
  destruct (cons_models cap m Em) as (Hm & Hi & Hc); [lia|].
  destruct (unpack_map_ok es buf fuel Hs Hd Hk Hdist Hf Hl off m [] Hh Hm) as (m' & es' & Hu & Hm' & Hes').
  - unfold hm_fits. rewrite Hi, Hc. unfold as_hashmap_cons in Em. injection Em as <-. simpl.
    unfold MIN_CAPACITY. rewrite (proj2 (Z.ltb_lt 1 cap)) by lia.
    case_if; reflect_Z; Z.div_mod_to_equations; lia.
  - by apply Forall_forall.
  - exists es', (hm_entries m'). rewrite Nat2Z.id, Hu. split; [done|]. split; [done|].
    rewrite (models_entries m' _ Hm'). by rewrite app_nil_r.
Qed.

(** *** All values *)

Lemma bytes_of_list vs :
  Forall (fun v => decodable v = true) vs ->
  bytes_of (VList (map Some vs)) = enc_header (u32 (blen vs)) 0x90 0xdc 0xdd ++ mjoin (map bytes_of vs).
Proof.
  intros HD. unfold bytes_of at 1. cbn [enc]. fold enc_opt. unfold enc_all.
  rewrite enc_seq_list; [by rewrite length_map|].
  eapply Forall_impl; [exact HD|]. intros v Hv. by apply decodable_enc.
Qed.

Lemma bytes_of_map es :
  Forall (fun kv => decodable kv.1 = true /\ decodable kv.2 = true) es ->
  bytes_of (VMap (map (prod_map id Some) es))
  = enc_header (u32 (blen es)) 0x80 0xde 0xdf ++ mjoin (map entry_bytes es).
Proof.
  intros HD. unfold bytes_of at 1. cbn [enc]. fold enc_opt. unfold enc_all.
  rewrite enc_seq_map; [by rewrite length_map|].
  eapply Forall_impl; [exact HD|]. intros kv [Hk Hv]. by split; apply decodable_enc.
Qed.

Lemma bytes_of_pair v1 v2 :
  decodable v1 = true -> decodable v2 = true ->
  bytes_of (VPair (Some v1) (Some v2))
  = enc_header (u32 (blen [v1; v2])) 0x90 0xdc 0xdd ++ mjoin (map bytes_of [v1; v2]).
Proof.
  intros Hd1 Hd2. unfold bytes_of. cbn [enc].
  destruct (decodable_enc v1 Hd1) as [E1 _], (decodable_enc v2 Hd2) as [E2 _].
  destruct (enc v1) as [b1 r1] eqn:Q1, (enc v2) as [b2 r2] eqn:Q2. simpl in *. subst. simpl.
  by rewrite Q1, Q2, app_nil_r.
Qed.

(** A header for the elements [vs], and the elements. *)
Lemma unpack_list_value buf fuel off vs bs :
  bs = enc_header (u32 (blen vs)) 0x90 0xdc 0xdd ++ mjoin (map bytes_of vs) ->
  Forall unpack_spec vs -> Forall (fun v => decodable v = true) vs ->
  holds buf off bs -> blen bs <= LIMIT -> (length bs <= S fuel)%nat ->
  exists ws, as_unpack_val buf (S fuel) off = URet (0, Some (VList (map Some ws)), off + blen bs)
    /\ Forall2 decodes vs ws.
Proof.
  intros -> HP HD Hh Hl Hf. assert (blen vs <= blen (mjoin (map bytes_of vs))) as Hn.
  { rewrite <- (Z.mul_1_l (blen vs)). apply join_lower. eapply Forall_impl; [exact HD|]. apply bytes_of_pos. }
  rewrite length_app in *. pose proof Hl as Hl'. unfold LIMIT in Hl'.
  rewrite (u32_id (blen vs)) in * by (unfold is_u32; lia).
  apply holds_app in Hh as [Hh1 Hh2]. rewrite (unpack_list_header _ _ _ (blen vs) ltac:(lia) Hh1).
  pose proof (enc_header_pos (blen vs) 0x90 0xdc 0xdd).
  destruct (unpack_list buf fuel _ vs HP HD ltac:(lia) ltac:(lia) Hh2 ltac:(lia)) as (ws & -> & Hws).
  exists ws. split; [|done]. do 2 f_equal. lia.
Qed.

Lemma unpack_map_value buf fuel off es bs :
  bs = enc_header (u32 (blen es)) 0x80 0xde 0xdf ++ mjoin (map entry_bytes es) ->
  Forall (fun kv => unpack_spec kv.1 /\ unpack_spec kv.2) es ->
  Forall (fun kv => decodable kv.1 = true /\ decodable kv.2 = true) es -> Forall key_ok es ->
  distinct (map (fun kv => sent_key kv.1) es) = true ->
  holds buf off bs -> blen bs <= LIMIT -> (length bs <= S fuel)%nat ->
  exists m'', as_unpack_val buf (S fuel) off = URet (0, Some (VMap m''), off + blen bs)
    /\ decodes (VMap (map (prod_map id Some) es)) (VMap m'').
Proof.
  intros -> HP HD HK Hdist Hh Hl Hf. assert (blen es <= blen (mjoin (map entry_bytes es))) as Hn.
  { rewrite <- (Z.mul_1_l (blen es)). apply join_lower. eapply Forall_impl; [exact HD|]. intros kv [Hk _].
    unfold entry_bytes. rewrite length_app. pose proof (bytes_of_pos _ Hk). lia. }
  rewrite length_app in *. pose proof Hl as Hl'. unfold LIMIT in Hl'.
  rewrite (u32_id (blen es)) in * by (unfold is_u32; lia).
  apply holds_app in Hh as [Hh1 Hh2]. rewrite (unpack_map_header _ _ _ (blen es) ltac:(lia) Hh1).
  pose proof (enc_header_pos (blen es) 0x80 0xde 0xdf).
  destruct (unpack_map buf fuel _ es HP HD HK Hdist ltac:(lia) ltac:(lia) Hh2 ltac:(lia))
    as (es' & m'' & -> & Hes & Hp).
  exists m''. split; [|by econstructor]. do 2 f_equal. lia.
Qed.

Lemma unpack_val_ok v : unpack_spec v.
Proof.
  induction v as [|b|z|s|t b|l IH|m IH|h|v1 v2 IH1 IH2|] using as_val_ind'; intros Hd buf off fuel Hh Hl Hf;
    (destruct fuel as [|fuel]; [pose proof (bytes_of_pos _ Hd); lia|]); cbn [decodable] in Hd; try done.
  - apply holds_cons in Hh as [He _]. exists VNil. cbn [as_unpack_val]. rewrite He. by split; [|constructor].
  - apply holds_cons in Hh as [He _]. exists (VInteger (if b then 1 else 0)). cbn [as_unpack_val]. rewrite He.
    split; [|constructor]. by destruct b.
  - apply bool_decide_eq_true_1 in Hd. exists (VInteger z). split; [by apply unpack_int|constructor].
  - apply bool_decide_eq_true_1 in Hd. exists (VString s). split; [|constructor].
    by rewrite (unpack_blob _ _ _ _ _ Hh Hl).
  - apply andb_true_iff in Hd as [_ Ht%negb_true_iff]. exists (VBytes t b). split; [|constructor].
    rewrite (unpack_blob _ _ _ _ _ Hh Hl); [by rewrite Ht|]. intros ->. done.
  - fold opt_decodable in Hd. destruct (opt_all_list _ l IH Hd) as (vs & -> & HP & HD).
    destruct (unpack_list_value buf fuel off vs _ (bytes_of_list vs HD) HP HD Hh Hl Hf) as (ws & Hu & Hws).
    eexists. split; [exact Hu|by constructor].
  - fold opt_decodable in Hd. apply andb_true_iff in Hd as [Hd Hdist]. 
    destruct (opt_all_map _ m IH Hd) as (es & -> & HP & HD & HK). rewrite map_map in Hdist.
    destruct (unpack_map_value buf fuel off es _ (bytes_of_map es HD) HP HD HK Hdist Hh Hl Hf) as (m'' & Hu & Hm).
    by eexists.
  - apply andb_true_iff in Hd as [Hd1 Hd2]. destruct v1 as [v1|], v2 as [v2|]; try done.
    destruct (unpack_list_value buf fuel off [v1; v2] _ (bytes_of_pair v1 v2 Hd1 Hd2)) as (ws & Hu & Hws);
      [by repeat constructor..|done|done|done|].
    inversion Hws as [|? w1 ? ? Hw1 Hws']; subst. inversion Hws' as [|? w2 ? ? Hw2 Hn]; subst. inversion Hn; subst.
    eexists. split; [exact Hu|by constructor].
Qed.

End Reading.

(** ** More fuel changes nothing *)

Section Fuel.
Context `{Platform}.

(** [r'] is [r], unless that ran out of fuel. *)
Definition refuels {A} (r r' : ures A) : Prop := r = Deep \/ r' = r.

Lemma refuels_bind {A B} (f g : A -> ures B) r r' :
  refuels r r' -> (forall x, refuels (f x) (g x)) -> refuels (ubind f r) (ubind g r').
Proof. intros [->| ->] Hf; [by left|]. destruct r; [apply Hf|by right..]. Qed.

Lemma refuels_refl {A} (r : ures A) : refuels r r.
Proof. by right. Qed.

Section Loops.
Context (u u' : Z -> uresult) (Hu : forall off, refuels (u off) (u' off)).

Lemma refuels_list_loop n i a off : refuels (unpack_list_loop u n i a off) (unpack_list_loop u' n i a off).
Proof.
  revert i a off. induction n as [|n IH]; intros i a off; [by right|]. cbn [unpack_list_loop].
  apply refuels_bind; [apply Hu|]. intros [[rc [v|]] off']; [|apply IH].
  apply refuels_bind; [apply refuels_refl|]. intros [[? ?] ?]. apply IH.
Qed.

Lemma refuels_map_loop n m off : refuels (unpack_map_loop u n m off) (unpack_map_loop u' n m off).
Proof.
  revert m off. induction n as [|n IH]; intros m off; [by right|]. cbn [unpack_map_loop].
  apply refuels_bind; [apply Hu|]. intros [[rc k] off1]. apply refuels_bind; [apply Hu|]. intros [[rc' v] off2].
  destruct k as [k|], v as [v|]; [|apply IH..].
  apply refuels_bind; [apply refuels_refl|]. intros [[? ?] ?]. apply IH.
Qed.

Lemma refuels_list n off : refuels (as_unpack_list u n off) (as_unpack_list u' n off).
Proof.
  apply refuels_bind; [apply refuels_refl|]. intros a.
  apply refuels_bind; [apply refuels_list_loop|]. intros [? ?]. apply refuels_refl.
Qed.

Lemma refuels_map n off : refuels (as_unpack_map u n off) (as_unpack_map u' n off).
Proof.
  apply refuels_bind; [apply refuels_refl|]. intros m.
  apply refuels_bind; [apply refuels_map_loop|]. intros [? ?]. apply refuels_refl.
Qed.
End Loops.

Lemma refuels_val buf n n' off :
  (n <= n')%nat -> refuels (as_unpack_val buf n off) (as_unpack_val buf n' off).
Proof.
  revert n' off. induction n as [|n IH]; intros n' off Hn; [by left|].
  destruct n' as [|n']; [lia|]. assert (forall off, refuels (as_unpack_val buf n off) (as_unpack_val buf n' off))
    as Hu by (intros; apply IH; lia).
  cbn [as_unpack_val]. apply refuels_bind; [apply refuels_refl|]. intros [type off1].
  destruct (dispatch type); try apply refuels_refl;
    first [by apply refuels_list | by apply refuels_map
          | apply refuels_bind; [apply refuels_refl|]; intros [? ?]; by first [apply refuels_list | apply refuels_map]].
Qed.

End Fuel.

(** ** Short input *)

Lemma mslice_short {A} (m : list A) off n : blen m < off + n -> mslice m off n = None.
Proof. intros Hs. unfold mslice. by rewrite decide_False by lia. Qed.

(** A type byte that announces more than there is. *)
Lemma short_extract `{Platform} t bs k :
  (k < length bs)%nat ->
  (length bs = 1%nat -> as_extract_uint8 (t :: take k bs) 1 = None)
  /\ (length bs = 2%nat -> as_extract_uint16 (t :: take k bs) 1 = None)
  /\ (length bs = 4%nat -> as_extract_uint32 (t :: take k bs) 1 = None)
  /\ (length bs = 8%nat -> as_extract_uint64 (t :: take k bs) 1 = None).
Proof.
  intros Hk. unfold as_extract_uint8, as_extract_uint16, as_extract_uint32, as_extract_uint64.
  split; [|split; [|split]]; intros Hl;
    [|rewrite mslice_short by (rewrite length_cons, length_take; lia); done..].
  by replace k with 0%nat by lia.
Qed.

(** ** Properties *)

(** C7: Round trip.  A value written on one host and read on another comes back
    as the same value: booleans as integers, pairs as lists of two, maps with
    their entries in some order, everything else unchanged.  Fuel for the
    recursion is the number of bytes; the bytes behind them are not looked at. *)
Theorem msgpack_roundtrip (P1 P2 : Platform) h v :
  decodable v = true -> blen (enc v).1 <= LIMIT -> all_ok h ->
  exists buf w, @as_msgpack_serializer_serialize P1 h (Some v) = Some (0, Some buf)
    /\ decodes v w
    /\ forall fuel, (Z.to_nat (bf_size buf) <= fuel)%nat ->
         @as_msgpack_serializer_deserialize P2 (bf_data buf) fuel = URet (0, Some w).
Proof.
  intros Hd Hl Hh. destruct (decodable_enc v Hd) as [Hrc Hok].
  pose proof (@serialize_spec P1 h v Hok Hl) as Hs. unfold serialized in Hs.
  destruct (@as_msgpack_serializer_serialize P1 h (Some v)) as [[rc [buf|]]|]; rewrite ?Hrc in Hs; [|tauto..].
  destruct Hs as (-> & _ & Hsz & Htake & _). rewrite Hsz in Htake.
  assert (holds (bf_data buf) 0 (bytes_of v)) as Hb.
  { exists [], (drop (length (bytes_of v)) (bf_data buf)). unfold LIMIT, bytes_of, INT_MAX in *.
    rewrite Nat2Z.id in Htake. split; [|split; [done|lia]].
    rewrite <- (take_drop (length (enc v).1) (bf_data buf)) at 1. by rewrite Htake. }
  destruct (@unpack_val_ok P2 v Hd _ 0 (length (bytes_of v)) Hb Hl (le_n _)) as (w & Hu & Hw).
  exists buf, w. split; [done|]. split; [done|]. intros fuel Hf. unfold as_msgpack_serializer_deserialize.
  destruct (@refuels_val P2 (bf_data buf) (length (bytes_of v)) fuel 0) as [He|He].
  - unfold bytes_of. lia.
  - by rewrite Hu in He.
  - by rewrite He, Hu.
Qed.

(** Truncated input.  The length of the input is never consulted: an integer
    cut short anywhere makes the unpacker read outside the buffer. *)
Theorem truncated_integer_undefined `{Platform} z k fuel :
  is_i64 z -> (k < length (enc_int z))%nat ->
  as_unpack_val (take k (enc_int z)) (S fuel) 0 = UB.
Proof.
  intros Hz. destruct k as [|k]; [done|]. unfold enc_int, enc_uint, is_i64 in *. cbn [as_unpack_val].
  assert (forall t bs, as_extract_uint8 (t :: bs) 0 = Some (t, 1)) as Hx by done.
  repeat case_if; cbn [length take]; intros Hk; try lia; rewrite Hx; cbn [lift ubind]; simpl dispatch; cbv iota.
  - by replace k with 0%nat by lia.
  - destruct (short_extract 0xcd (be_bytes 2 z) k) as (_ & Ex & _); [simpl in *; lia|]. by rewrite Ex.
  - destruct (short_extract 0xce (be_bytes 4 z) k) as (_ & _ & Ex & _); [simpl in *; lia|]. by rewrite Ex.
  - destruct (short_extract 0xcf (be_bytes 8 z) k) as (_ & _ & _ & Ex); [simpl in *; lia|]. by rewrite Ex.
  - by replace k with 0%nat by lia.
  - destruct (short_extract 0xd1 (be_bytes 2 z) k) as (_ & Ex & _); [simpl in *; lia|]. by rewrite Ex.
  - destruct (short_extract 0xd3 (be_bytes 8 z) k) as (_ & _ & _ & Ex); [simpl in *; lia|]. by rewrite Ex.
Qed.

(** A list of two whose first element is a string of length -6: the string ends
    where the list begins. *)
Definition looping_input : list Z := [0x92; 0xdb; 255; 255; 255; 250; 3; 0].

(** Unbounded recursion.  A length of 2^31 or more is negative once it is an
    [int], and moves the offset backwards: these eight bytes, all of them inside
    the buffer, make the unpacker recurse for ever. *)
Theorem looping_input_never_returns `{Platform} fuel : as_unpack_val looping_input fuel 0 = Deep.
Proof.
  induction fuel as [|[|fuel] IH]; [done|done|].
  assert (as_unpack_val looping_input (S fuel) 1 = URet (0, Some (VString []), 0)) as Hfirst.
  { assert (as_extract_uint32 looping_input 2 = Some (0xfffffffa, 6)) as Hx.
    { unfold as_extract_uint32. simpl. by destruct host_endian. }
    cbn [as_unpack_val]. change (as_extract_uint8 looping_input 1) with (Some (0xdb, 2)).
    cbn [lift ubind]. simpl dispatch. cbv iota. by rewrite Hx. }
  change (as_unpack_list (as_unpack_val looping_input (S fuel)) 2 1 = Deep).
  set (u := as_unpack_val looping_input (S fuel)) in *. clearbody u. unfold as_unpack_list. simpl.
  rewrite Hfirst. simpl. by rewrite IH.
Qed.

(** ** Witnesses *)

Lemma msgpack_roundtrip_witness :
  exists buf w, @as_msgpack_serializer_serialize x86_64 [true] (Some sample_val) = Some (0, Some buf)
    /\ decodes sample_val w
    /\ forall fuel, (Z.to_nat (bf_size buf) <= fuel)%nat ->
         @as_msgpack_serializer_deserialize ppc64 (bf_data buf) fuel = URet (0, Some w).
Proof.
  apply (msgpack_roundtrip x86_64 ppc64 [true] sample_val).
  - vm_compute. reflexivity.
  - vm_compute. discriminate.
  - by constructor.
Defined.

Lemma truncated_integer_undefined_witness :
  @as_unpack_val x86_64 [0xce; 0; 1; 17] 5 0 = UB.
Proof.
  apply (@truncated_integer_undefined x86_64 70000 4 4); [unfold is_i64; lia|vm_compute; lia].
Defined.
