(* ===== verification/Wire.v ===== *)
(** * Keys and the commands sent to the server

    Models [src/main/aerospike/as_key.c], the writing half of
    [src/main/aerospike/as_command.c] and [as_command.h], and the command that
    each function of [src/main/aerospike/aerospike_key.c] builds.

    A command is written through a pointer into a block of the size computed
    beforehand; here the pointer is an offset and every store is checked.
    [hpux] selects the [#ifdef __hpux] branches; HP-UX hosts are big-endian.
    Allocations succeed in this file. *)

From S2P Require Import Prelude ByteOrder Value Msgpack.

(** ** Constants and types *)

Definition AEROSPIKE_OK : Z := 0.
Definition AEROSPIKE_ERR_PARAM : Z := -2.

Definition AS_FIELD_NAMESPACE : Z := 0.
Definition AS_FIELD_SETNAME : Z := 1.
Definition AS_FIELD_KEY : Z := 2.
Definition AS_FIELD_DIGEST : Z := 4.
Definition AS_FIELD_UDF_PACKAGE_NAME : Z := 30.
Definition AS_FIELD_UDF_FUNCTION : Z := 31.
Definition AS_FIELD_UDF_ARGLIST : Z := 32.

Definition AS_MSG_INFO1_READ : Z := 1.
Definition AS_MSG_INFO1_GET_ALL : Z := 2.
Definition AS_MSG_INFO1_GET_NOBINDATA : Z := 32.
Definition AS_MSG_INFO1_CONSISTENCY_ALL : Z := 64.
Definition AS_MSG_INFO2_WRITE : Z := 1.
Definition AS_MSG_INFO2_DELETE : Z := 2.
Definition AS_MSG_INFO2_GENERATION : Z := 4.
Definition AS_MSG_INFO2_GENERATION_GT : Z := 8.
Definition AS_MSG_INFO2_CREATE_ONLY : Z := 32.
Definition AS_MSG_INFO3_COMMIT_MASTER : Z := 2.
Definition AS_MSG_INFO3_UPDATE_ONLY : Z := 8.
Definition AS_MSG_INFO3_CREATE_OR_REPLACE : Z := 16.
Definition AS_MSG_INFO3_REPLACE_ONLY : Z := 32.

Definition AS_MESSAGE_VERSION : Z := 2.
Definition AS_MESSAGE_TYPE : Z := 3.
Definition AS_HEADER_SIZE : Z := 30.
Definition AS_FIELD_HEADER_SIZE : Z := 5.
Definition AS_OPERATION_HEADER_SIZE : Z := 8.

Definition AS_NAMESPACE_MAX_SIZE : Z := 32.
Definition AS_SET_MAX_SIZE : Z := 64.
Definition AS_DIGEST_VALUE_SIZE : Z := 20.
Definition AS_BIN_NAME_MAX_LEN : Z := 14.

Definition AS_BYTES_UNDEF : Z := 0.
Definition AS_BYTES_INTEGER : Z := 1.
Definition AS_BYTES_MAP : Z := 19.
Definition AS_BYTES_LIST : Z := 20.

Definition AS_OPERATOR_READ : Z := 1.
Definition AS_OPERATOR_WRITE : Z := 2.

Inductive as_policy_retry := RETRY_NONE | RETRY_ONCE.
Inductive as_policy_gen := GEN_IGNORE | GEN_EQ | GEN_GT.
Inductive as_policy_key := KEY_DIGEST | KEY_SEND.
Inductive as_policy_exists :=
  EXISTS_IGNORE | EXISTS_CREATE | EXISTS_UPDATE | EXISTS_REPLACE | EXISTS_CREATE_OR_REPLACE.
Inductive as_policy_replica := REPLICA_MASTER | REPLICA_ANY.
Inductive as_policy_consistency_level := CONSISTENCY_ONE | CONSISTENCY_ALL.
Inductive as_policy_commit_level := COMMIT_ALL | COMMIT_MASTER.

Record as_policy_read := {
  read_timeout : Z; read_key : as_policy_key; read_replica : as_policy_replica;
  read_consistency : as_policy_consistency_level }.
Record as_policy_write := {
  write_timeout : Z; write_retry : as_policy_retry; write_key : as_policy_key; write_gen : as_policy_gen;
  write_exists : as_policy_exists; write_commit : as_policy_commit_level }.
Record as_policy_operate := {
  operate_timeout : Z; operate_retry : as_policy_retry; operate_key : as_policy_key;
  operate_gen : as_policy_gen; operate_replica : as_policy_replica;
  operate_consistency : as_policy_consistency_level; operate_commit : as_policy_commit_level }.
Record as_policy_remove := {
  remove_timeout : Z; remove_generation : Z; remove_retry : as_policy_retry; remove_key : as_policy_key;
  remove_gen : as_policy_gen; remove_commit : as_policy_commit_level }.
Record as_policy_apply := {
  apply_timeout : Z; apply_key : as_policy_key; apply_commit : as_policy_commit_level }.

(** [ns] and [set] are NUL-terminated; the value pointer may be NULL. *)
Record as_key := mk_key {
  key_ns : list Z;
  key_set : list Z;
  key_valuep : option as_val;
  digest_init : bool;
  digest_value : list Z
}.

Record as_bin := mk_bin { bin_name : list Z; bin_valuep : option as_val }.

Record as_binop := mk_binop { binop_op : Z; binop_bin : as_bin }.

Section Wire.
Context `{Platform}.
Context (hpux : bool).

(** OpenSSL's hash of a sequence of bytes. *)
Context (ripemd160 : list Z -> list Z).

(** What a new block of [n] bytes holds. *)
Context (uninit : Z -> list Z).

Definition strlen (s : list Z) : Z := blen (c_str s).

(** ** Keys *)

Definition cf_digest_compute2 (data1 data2 : list Z) : list Z :=
  if blen data1 =? 0 then ripemd160 data2 else ripemd160 (data1 ++ data2).

(** A NULL [set] is [None].  The result is [None] when the key is refused. *)
Definition as_key_cons (ns : option (list Z)) (set : option (list Z)) (valuep : option as_val)
    (digest : option (list Z)) : option as_key :=
  let set := default [] set in
  match ns with
  | Some ns =>
      if negb (strlen ns =? 0) && (strlen ns <? AS_NAMESPACE_MAX_SIZE) && (strlen set <? AS_SET_MAX_SIZE) then
        match digest with
        | None => Some (mk_key (c_str ns) (c_str set) valuep false
                          (replicate (Z.to_nat AS_DIGEST_VALUE_SIZE) 0))
        | Some d => Some (mk_key (c_str ns) (c_str set) valuep true d)
        end
      else None
  | None => None
  end.

(** [Some (status, key)]; a NULL value is dereferenced. *)
Definition as_key_set_digest (key : as_key) : option (Z * as_key) :=
  if digest_init key then Some (AEROSPIKE_OK, key)
  else
    val ← key_valuep key;
    let done buf :=
      Some (AEROSPIKE_OK,
            mk_key (key_ns key) (key_set key) (key_valuep key) true
              (cf_digest_compute2 (c_str (key_set key)) buf)) in
    match val with
    | VInteger v => done (AS_BYTES_INTEGER :: put_be64 host_endian v)
    | VString s => done (AS_BYTES_STRING :: s)
    | VBytes type b => done (u8 type :: b)
    | _ => Some (AEROSPIKE_ERR_PARAM, key)
    end.

(** ** Sizes *)

Definition as_command_user_key_size (key : as_key) : option Z :=
  let size := AS_FIELD_HEADER_SIZE + 1 in
  val ← key_valuep key;
  Some match val with
       | VInteger _ => size + 8
       | VString s => size + blen s
       | VBytes _ b => size + blen b
       | _ => size
       end.

(** The size and the number of fields. *)
Definition as_command_key_size (policy : as_policy_key) (key : as_key) : option (Z * Z) :=
  let n_fields := 3 in
  let size := strlen (key_ns key) + strlen (key_set key) + 20 + 45 in
  match policy with
  | KEY_SEND => n ← as_command_user_key_size key; Some (size + n, n_fields + 1)
  | KEY_DIGEST => Some (size, n_fields)
  end.

Definition as_command_string_field_size (value : list Z) : Z := strlen value + AS_FIELD_HEADER_SIZE.
Definition as_command_field_size (size : Z) : Z := size + AS_FIELD_HEADER_SIZE.

Definition no_buffer : as_buffer := {| bf_data := []; bf_size := 0; bf_capacity := 0 |}.

(** The status of the serializer is not looked at: when it refuses the value the
    buffer stays empty. *)
Definition serialize_into (val : as_val) (buffer : as_buffer) : option as_buffer :=
  '(_, b) ← as_msgpack_serializer_serialize [] (Some val); Some (default buffer b).

Definition as_command_value_size (val : as_val) (buffer : as_buffer) : option (Z * as_buffer) :=
  match val with
  | VNil => Some (0, buffer)
  | VInteger _ => Some (8, buffer)
  | VString s => Some (blen s, buffer)
  | VBytes _ b => Some (blen b, buffer)
  | VList _ | VMap _ => buffer ← serialize_into val buffer; Some (bf_size buffer, buffer)
  | _ => Some (0, buffer)
  end.

Definition as_command_bin_size (bin : as_bin) (buffer : as_buffer) : option (Z * as_buffer) :=
  val ← bin_valuep bin;
  '(n, buffer) ← as_command_value_size val buffer;
  Some (strlen (bin_name bin) + n + 8, buffer).

(** [Some (inl status)] when the name is too long. *)
Definition as_command_bin_name_size (name : list Z) (size : Z) : Z + Z :=
  let s := strlen name in
  if AS_BIN_NAME_MAX_LEN <? s then inl AEROSPIKE_ERR_PARAM else inr (size + (s + AS_OPERATION_HEADER_SIZE)).

(** ** Writing *)

(** The block and the pointer after the write. *)
Definition wres : Type := option (list Z * Z).

Definition store_be32 (buf : list Z) (p x : Z) : option (list Z) := mwrite buf p (put_be32 host_endian x).
Definition store_be16 (buf : list Z) (p x : Z) : option (list Z) := mwrite buf p (put_be16 host_endian x).

(** On HP-UX: [memcpy(p, &val, 8); *p = cf_swap_to_be64( *p)], where [*p] is the
    first byte. *)
Definition store_be64 (buf : list Z) (p x : Z) : option (list Z) :=
  if hpux then
    buf ← mwrite buf p (mem_of host_endian 8 x);
    b ← aget buf p;
    aset buf p (u8 (cf_swap_to_be64 host_endian b))
  else mwrite buf p (put_be64 host_endian x).

Definition as_command_write_header (buf : list Z) (read_attr write_attr : Z)
    (commit_level : as_policy_commit_level) (consistency : as_policy_consistency_level)
    (exists_ : as_policy_exists) (gen_policy : as_policy_gen) (gen ttl timeout_ms n_fields n_bins : Z)
  : wres :=
  let info_attr :=
    match exists_ with
    | EXISTS_UPDATE => AS_MSG_INFO3_UPDATE_ONLY
    | EXISTS_CREATE_OR_REPLACE => AS_MSG_INFO3_CREATE_OR_REPLACE
    | EXISTS_REPLACE => AS_MSG_INFO3_REPLACE_ONLY
    | EXISTS_IGNORE | EXISTS_CREATE => 0
    end in
  let write_attr :=
    match exists_ with EXISTS_CREATE => Z.lor write_attr AS_MSG_INFO2_CREATE_ONLY | _ => write_attr end in
  let '(generation, write_attr) :=
    match gen_policy with
    | GEN_IGNORE => (0, write_attr)
    | GEN_EQ => (gen, Z.lor write_attr AS_MSG_INFO2_GENERATION)
    | GEN_GT => (gen, Z.lor write_attr AS_MSG_INFO2_GENERATION_GT)
    end in
  let info_attr :=
    match commit_level with COMMIT_MASTER => Z.lor info_attr AS_MSG_INFO3_COMMIT_MASTER | COMMIT_ALL => info_attr end in
  let read_attr :=
    match consistency with
    | CONSISTENCY_ALL => Z.lor read_attr AS_MSG_INFO1_CONSISTENCY_ALL
    | CONSISTENCY_ONE => read_attr
    end in
  buf ← aset buf 8 22;
  buf ← aset buf 9 read_attr;
  buf ← aset buf 10 write_attr;
  buf ← aset buf 11 info_attr;
  buf ← store_be16 buf 12 0;
  buf ← store_be32 buf 14 generation;
  buf ← store_be32 buf 18 ttl;
  buf ← store_be32 buf 22 timeout_ms;
  buf ← store_be16 buf 26 n_fields;
  buf ← store_be16 buf 28 n_bins;
  Some (buf, AS_HEADER_SIZE).

Definition as_command_write_header_read (buf : list Z) (read_attr : Z)
    (consistency : as_policy_consistency_level) (timeout_ms n_fields n_bins : Z) : wres :=
  let read_attr :=
    match consistency with
    | CONSISTENCY_ALL => Z.lor read_attr AS_MSG_INFO1_CONSISTENCY_ALL
    | CONSISTENCY_ONE => read_attr
    end in
  buf ← aset buf 8 22;
  buf ← aset buf 9 read_attr;
  buf ← mwrite buf 10 (replicate 12 0);
  buf ← store_be32 buf 22 timeout_ms;
  buf ← store_be16 buf 26 n_fields;
  buf ← store_be16 buf 28 n_bins;
  Some (buf, AS_HEADER_SIZE).

Definition as_command_write_field_header (buf : list Z) (p id size : Z) : wres :=
  buf ← store_be32 buf p (u32 (size + 1));
  buf ← aset buf (p + 4) id;
  Some (buf, p + 5).

(** [while ( *val) *p++ = *val++]. *)
Fixpoint write_chars (buf : list Z) (p : Z) (val : list Z) : wres :=
  match val with
  | [] => Some (buf, p)
  | c :: val => if c =? 0 then Some (buf, p) else buf ← aset buf p c; write_chars buf (p + 1) val
  end.

Definition as_command_write_field_string (buf : list Z) (begin id : Z) (val : list Z) : wres :=
  '(buf, p) ← write_chars buf (begin + AS_FIELD_HEADER_SIZE) val;
  '(buf, _) ← as_command_write_field_header buf begin id (u32 (p - begin - AS_FIELD_HEADER_SIZE));
  Some (buf, p).

Definition as_command_write_field_uint64 (buf : list Z) (p id val : Z) : wres :=
  '(buf, p) ← as_command_write_field_header buf p id 8;
  buf ← store_be64 buf p val;
  Some (buf, p + 8).

Definition as_command_write_field_buffer (buf : list Z) (p id : Z) (buffer : as_buffer) : wres :=
  '(buf, p) ← as_command_write_field_header buf p id (bf_size buffer);
  bytes ← mslice (bf_data buffer) 0 (bf_size buffer);
  buf ← mwrite buf p bytes;
  Some (buf, p + bf_size buffer).

Definition as_command_write_field_digest (buf : list Z) (p : Z) (digest : list Z) : wres :=
  '(buf, p) ← as_command_write_field_header buf p AS_FIELD_DIGEST AS_DIGEST_VALUE_SIZE;
  bytes ← mslice digest 0 AS_DIGEST_VALUE_SIZE;
  buf ← mwrite buf p bytes;
  Some (buf, p + AS_DIGEST_VALUE_SIZE).

(** The [switch] on the type of the key: the block, the pointer and the length. *)
Definition write_key_value (buf : list Z) (p : Z) (val : as_val) : option (list Z * Z * Z) :=
  match val with
  | VInteger v =>
      buf ← aset buf p AS_BYTES_INTEGER; buf ← store_be64 buf (p + 1) v; Some (buf, p + 1 + 8, 8)
  | VString s =>
      buf ← aset buf p AS_BYTES_STRING; buf ← mwrite buf (p + 1) s; Some (buf, p + 1 + blen s, u32 (blen s))
  | VBytes type b =>
      buf ← aset buf p (u8 type); buf ← mwrite buf (p + 1) b; Some (buf, p + 1 + blen b, blen b)
  | _ => buf ← aset buf p AS_BYTES_UNDEF; Some (buf, p + 1, 0)
  end.

Definition as_command_write_user_key (buf : list Z) (begin : Z) (key : as_key) : wres :=
  let p := begin + AS_FIELD_HEADER_SIZE in
  val ← key_valuep key;
  '(buf, p, len) ← write_key_value buf p val;
  '(buf, _) ← as_command_write_field_header buf begin AS_FIELD_KEY (u32 (len + 1));
  Some (buf, p).

Definition as_command_write_key (buf : list Z) (p : Z) (policy : as_policy_key) (key : as_key) : wres :=
  '(buf, p) ← as_command_write_field_string buf p AS_FIELD_NAMESPACE (key_ns key);
  '(buf, p) ← as_command_write_field_string buf p AS_FIELD_SETNAME (key_set key);
  '(buf, p) ← as_command_write_field_digest buf p (digest_value key);
  match policy with
  | KEY_SEND => as_command_write_user_key buf p key
  | KEY_DIGEST => Some (buf, p)
  end.

Definition as_command_write_bin_name (buf : list Z) (cmd : Z) (name : list Z) : wres :=
  '(buf, p) ← write_chars buf (cmd + AS_OPERATION_HEADER_SIZE) name;
  let name_len := u8 (p - cmd - AS_OPERATION_HEADER_SIZE) in
  buf ← store_be32 buf cmd (name_len + 4);
  buf ← aset buf (cmd + 4) AS_OPERATOR_READ;
  buf ← aset buf (cmd + 5) 0;
  buf ← aset buf (cmd + 6) 0;
  buf ← aset buf (cmd + 7) name_len;
  Some (buf, p).

(** The [switch] on the type of the value: the block, the pointer, the length and
    the type of the value. *)
Definition write_bin_value (buf : list Z) (p : Z) (val : as_val) (buffer : as_buffer)
  : option (list Z * Z * Z * Z) :=
  match val with
  | VInteger v => buf ← store_be64 buf p v; Some (buf, p + 8, 8, AS_BYTES_INTEGER)
  | VString s => buf ← mwrite buf p s; Some (buf, p + blen s, u32 (blen s), AS_BYTES_STRING)
  | VBytes type b => buf ← mwrite buf p b; Some (buf, p + blen b, blen b, u8 type)
  | VList _ =>
      bytes ← mslice (bf_data buffer) 0 (bf_size buffer); buf ← mwrite buf p bytes;
      Some (buf, p + bf_size buffer, bf_size buffer, AS_BYTES_LIST)
  | VMap _ =>
      bytes ← mslice (bf_data buffer) 0 (bf_size buffer); buf ← mwrite buf p bytes;
      Some (buf, p + bf_size buffer, bf_size buffer, AS_BYTES_MAP)
  | _ => Some (buf, p, 0, AS_BYTES_UNDEF)
  end.

Definition as_command_write_bin (buf : list Z) (begin operation_type : Z) (bin : as_bin) (buffer : as_buffer)
  : wres :=
  '(buf, p) ← write_chars buf (begin + AS_OPERATION_HEADER_SIZE) (bin_name bin);
  let name_len := u8 (p - begin - AS_OPERATION_HEADER_SIZE) in
  val ← bin_valuep bin;
  '(buf, p, val_len, val_type) ← write_bin_value buf p val buffer;
  buf ← store_be32 buf begin (u32 (name_len + val_len + 4));
  buf ← aset buf (begin + 4) operation_type;
  buf ← aset buf (begin + 5) val_type;
  buf ← aset buf (begin + 6) 0;
  buf ← aset buf (begin + 7) name_len;
  Some (buf, p).

(** The block with its first eight bytes, and the length of the command. *)
Definition as_command_write_end (buf : list Z) (fin : Z) : wres :=
  let len := fin in
  let proto := Z.lor (Z.lor (u64 (len - 8)) (Z.shiftl AS_MESSAGE_VERSION 56)) (Z.shiftl AS_MESSAGE_TYPE 48) in
  buf ← mwrite buf 0 (put_be64 host_endian proto);
  Some (buf, len).

(** ** The commands of [aerospike_key.c]

    The bytes handed to [as_command_execute]. *)

Definition sent (r : wres) : option (list Z) := '(buf, len) ← r; mslice buf 0 len.

Definition key_get_command (policy : as_policy_read) (key : as_key) : option (list Z) :=
  '(size, n_fields) ← as_command_key_size (read_key policy) key;
  '(buf, p) ← as_command_write_header_read (uninit size) (Z.lor AS_MSG_INFO1_READ AS_MSG_INFO1_GET_ALL)
                (read_consistency policy) (read_timeout policy) n_fields 0;
  '(buf, p) ← as_command_write_key buf p (read_key policy) key;
  sent (as_command_write_end buf p).

(** [bins] ends at a NULL or at an empty name. *)
Fixpoint select_size (bins : list (list Z)) (size : Z) (nvalues : Z) : Z + (Z * Z) :=
  match bins with
  | [] => inr (size, nvalues)
  | name :: bins =>
      if strlen name =? 0 then inr (size, nvalues)
      else match as_command_bin_name_size name size with
           | inl status => inl status
           | inr size => select_size bins size (nvalues + 1)
           end
  end.

Fixpoint write_bin_names (buf : list Z) (p : Z) (bins : list (list Z)) : wres :=
  match bins with
  | [] => Some (buf, p)
  | name :: bins => '(buf, p) ← as_command_write_bin_name buf p name; write_bin_names buf p bins
  end.

Definition key_select_command (policy : as_policy_read) (key : as_key) (bins : list (list Z))
  : option (Z + list Z) :=
  '(size, n_fields) ← as_command_key_size (read_key policy) key;
  match select_size bins size 0 with
  | inl status => Some (inl status)
  | inr (size, nvalues) =>
      '(buf, p) ← as_command_write_header_read (uninit size) AS_MSG_INFO1_READ
                    (read_consistency policy) (read_timeout policy) n_fields (u16 nvalues);
      '(buf, p) ← as_command_write_key buf p (read_key policy) key;
      '(buf, p) ← write_bin_names buf p (take (Z.to_nat nvalues) bins);
      cmd ← sent (as_command_write_end buf p);
      Some (inr cmd)
  end.

Definition key_exists_command (policy : as_policy_read) (key : as_key) : option (list Z) :=
  '(size, n_fields) ← as_command_key_size (read_key policy) key;
  '(buf, p) ← as_command_write_header_read (uninit size)
                (Z.lor AS_MSG_INFO1_READ AS_MSG_INFO1_GET_NOBINDATA)
                (read_consistency policy) (read_timeout policy) n_fields 0;
  '(buf, p) ← as_command_write_key buf p (read_key policy) key;
  sent (as_command_write_end buf p).

(** The size of the bins and their serialized values. *)
Fixpoint bins_size (bins : list as_bin) (size : Z) : option (Z * list as_buffer) :=
  match bins with
  | [] => Some (size, [])
  | bin :: bins =>
      '(n, buffer) ← as_command_bin_size bin no_buffer;
      '(size, buffers) ← bins_size bins (size + n);
      Some (size, buffer :: buffers)
  end.

Fixpoint write_ops (buf : list Z) (p : Z) (ops : list as_binop) (buffers : list as_buffer) : wres :=
  match ops, buffers with
  | op :: ops, buffer :: buffers =>
      '(buf, p) ← as_command_write_bin buf p (u8 (binop_op op)) (binop_bin op) buffer;
      write_ops buf p ops buffers
  | _, _ => Some (buf, p)
  end.

(** [gen] and [ttl] are those of the record. *)
Definition key_put_command (policy : as_policy_write) (key : as_key) (bins : list as_bin) (gen ttl : Z)
  : option (list Z) :=
  '(size, n_fields) ← as_command_key_size (write_key policy) key;
  '(size, buffers) ← bins_size bins size;
  '(buf, p) ← as_command_write_header (uninit size) 0 AS_MSG_INFO2_WRITE (write_commit policy)
                CONSISTENCY_ONE (write_exists policy) (write_gen policy) gen ttl (write_timeout policy)
                n_fields (u16 (blen bins));
  '(buf, p) ← as_command_write_key buf p (write_key policy) key;
  '(buf, p) ← write_ops buf p (map (mk_binop AS_OPERATOR_WRITE) bins) buffers;
  sent (as_command_write_end buf p).

(** The generation of the policy is not used. *)
Definition key_remove_command (policy : as_policy_remove) (key : as_key) : option (list Z) :=
  '(size, n_fields) ← as_command_key_size (remove_key policy) key;
  '(buf, p) ← as_command_write_header (replicate (Z.to_nat size) 0) 0
                (Z.lor AS_MSG_INFO2_WRITE AS_MSG_INFO2_DELETE) (remove_commit policy)
                CONSISTENCY_ONE EXISTS_IGNORE (remove_gen policy) 0 0 (remove_timeout policy) n_fields 0;
  '(buf, p) ← as_command_write_key buf p (remove_key policy) key;
  sent (as_command_write_end buf p).

Definition op_attrs (attrs : Z * Z) (op : as_binop) : Z * Z :=
  if binop_op op =? AS_OPERATOR_READ then (Z.lor attrs.1 AS_MSG_INFO1_READ, attrs.2)
  else (attrs.1, Z.lor attrs.2 AS_MSG_INFO2_WRITE).

Definition key_operate_command (policy : as_policy_operate) (key : as_key) (ops : list as_binop) (gen ttl : Z)
  : option (list Z) :=
  '(size, n_fields) ← as_command_key_size (operate_key policy) key;
  let '(read_attr, write_attr) := fold_left op_attrs ops (0, 0) in
  '(size, buffers) ← bins_size (map binop_bin ops) size;
  '(buf, p) ← as_command_write_header (replicate (Z.to_nat size) 0) read_attr write_attr
                (operate_commit policy) (operate_consistency policy) EXISTS_IGNORE (operate_gen policy)
                gen ttl (operate_timeout policy) n_fields (u16 (blen ops));
  '(buf, p) ← as_command_write_key buf p (operate_key policy) key;
  '(buf, p) ← write_ops buf p ops buffers;
  sent (as_command_write_end buf p).

Definition key_apply_command (policy : as_policy_apply) (key : as_key) (module_ function : list Z)
    (arglist : as_val) : option (list Z) :=
  '(size, n_fields) ← as_command_key_size (apply_key policy) key;
  let size := size + as_command_string_field_size module_ + as_command_string_field_size function in
  args ← serialize_into arglist no_buffer;
  let size := size + as_command_field_size (bf_size args) in
  '(buf, p) ← as_command_write_header (uninit size) 0 AS_MSG_INFO2_WRITE (apply_commit policy)
                CONSISTENCY_ONE EXISTS_IGNORE GEN_IGNORE 0 0 (apply_timeout policy) (n_fields + 3) 0;
  '(buf, p) ← as_command_write_key buf p (apply_key policy) key;
  '(buf, p) ← as_command_write_field_string buf p AS_FIELD_UDF_PACKAGE_NAME module_;
  '(buf, p) ← as_command_write_field_string buf p AS_FIELD_UDF_FUNCTION function;
  '(buf, p) ← as_command_write_field_buffer buf p AS_FIELD_UDF_ARGLIST args;
  sent (as_command_write_end buf p).

End Wire.

(** ** The wire format *)

Definition wire_field (id : Z) (bs : list Z) : list Z := be_bytes 4 (blen bs + 1) ++ id :: bs.

Definition wire_op (op type : Z) (name bs : list Z) : list Z :=
  be_bytes 4 (blen name + blen bs + 4) ++ [op; type; 0; blen name] ++ name ++ bs.

(** The 22 bytes of the message header. *)
Definition wire_header (info1 info2 info3 gen ttl timeout n_fields n_ops : Z) : list Z :=
  [22; info1; info2; info3; 0; 0] ++ be_bytes 4 gen ++ be_bytes 4 ttl ++ be_bytes 4 timeout
  ++ be_bytes 2 n_fields ++ be_bytes 2 n_ops.

Definition wire_message (header body : list Z) : list Z :=
  [AS_MESSAGE_VERSION; AS_MESSAGE_TYPE] ++ be_bytes 6 (blen (header ++ body)) ++ header ++ body.

(** The serialized form of a list or map: nothing when it cannot be serialized. *)
Definition packed (v : as_val) : list Z := if (enc v).2 =? 0 then (enc v).1 else [].

(** The type byte and the bytes of a value, as the server stores them. *)
Definition particle (v : as_val) : Z * list Z :=
  match v with
  | VInteger z => (AS_BYTES_INTEGER, be_bytes 8 z)
  | VString s => (AS_BYTES_STRING, s)
  | VBytes type b => (u8 type, b)
  | VList _ => (AS_BYTES_LIST, packed v)
  | VMap _ => (AS_BYTES_MAP, packed v)
  | _ => (AS_BYTES_UNDEF, [])
  end.

(** Of a key only integers, strings and byte arrays are sent. *)
Definition key_particle (v : as_val) : Z * list Z :=
  match v with VList _ | VMap _ => (AS_BYTES_UNDEF, []) | v => particle v end.

Definition wire_key (policy : as_policy_key) (key : as_key) : list Z :=
  wire_field AS_FIELD_NAMESPACE (c_str (key_ns key)) ++ wire_field AS_FIELD_SETNAME (c_str (key_set key))
  ++ wire_field AS_FIELD_DIGEST (digest_value key)
  ++ match policy, key_valuep key with
     | KEY_SEND, Some v => wire_field AS_FIELD_KEY ((key_particle v).1 :: (key_particle v).2)
     | _, _ => []
     end.

Definition n_key_fields (policy : as_policy_key) : Z := match policy with KEY_SEND => 4 | KEY_DIGEST => 3 end.

Definition wire_bin (op : as_binop) : list Z :=
  match bin_valuep (binop_bin op) with
  | Some v => wire_op (u8 (binop_op op)) (particle v).1 (c_str (bin_name (binop_bin op))) (particle v).2
  | None => []
  end.

(** ** Writing is what the format says *)

(** [f] overwrites the bytes at its pointer with [bs] and moves past them. *)
Definition writes (f : list Z -> Z -> wres) (bs : list Z) : Prop :=
  forall pre old post, length old = length bs ->
  f (pre ++ old ++ post) (blen pre) = Some (pre ++ bs ++ post, blen pre + blen bs).

Lemma writes_nil : writes (fun buf p => Some (buf, p)) [].
Proof. intros pre [|] post Hl; [|done]. simpl. by rewrite Z.add_0_r. Qed.

Lemma writes_seq f g b1 b2 :
  writes f b1 -> writes g b2 -> writes (fun buf p => '(buf, p) ← f buf p; g buf p) (b1 ++ b2).
Proof.
  intros Hf Hg pre old post Hl. rewrite length_app in *.
  rewrite <- (take_drop (length b1) old), <- app_assoc.
  rewrite Hf by (rewrite length_take; lia). cbn [mbind option_bind].
  rewrite (app_assoc pre b1). replace (blen pre + blen b1) with (blen (pre ++ b1)) by (rewrite length_app; lia).
  rewrite Hg by (rewrite length_drop; lia). rewrite <- !app_assoc, length_app. do 2 f_equal. lia.
Qed.

Lemma writes_ext f g bs : (forall buf p, f buf p = g buf p) -> writes f bs -> writes g bs.
Proof. intros He Hf pre old post Hl. rewrite <- He. by apply Hf. Qed.

(** Stores at a known place. *)
Lemma mwrite_at {A} (pre old post src : list A) off :
  off = blen pre -> length src = length old -> mwrite (pre ++ old ++ post) off src = Some (pre ++ src ++ post).
Proof. intros. by apply mwrite_app. Qed.

Lemma writes_mwrite bs : writes (fun buf p => buf ← mwrite buf p bs; Some (buf, p + blen bs)) bs.
Proof. intros pre old post Hl. by rewrite mwrite_at. Qed.

Lemma writes_chars val : writes (fun buf p => write_chars buf p val) (c_str val).
Proof.
  induction val as [|c val IH]; intros pre old post Hl; cbn [c_str write_chars] in *.
  { destruct old; [|done]. simpl. by rewrite Z.add_0_r. }
  destruct (c =? 0); [destruct old; [|done]; simpl; by rewrite Z.add_0_r|].
  destruct old as [|o old]; [done|]. cbn [app]. rewrite aset_middle by done. cbn [mbind option_bind].
  replace (pre ++ c :: old ++ post) with ((pre ++ [c]) ++ old ++ post) by (by rewrite <- app_assoc).
  replace (blen pre + 1) with (blen (pre ++ [c])) by (rewrite length_app; simpl; lia).
  rewrite IH by (simpl in Hl; lia). rewrite <- app_assoc, length_app. simpl. do 2 f_equal. lia.
Qed.

Section WireProofs.
Context `{Platform}.
Context (hpux : bool) (hpux_big : hpux = true -> host_endian = BigEndian).

Lemma be_bytes_4_eq x y : x mod 2 ^ 32 = y mod 2 ^ 32 -> be_bytes 4 x = be_bytes 4 y.
Proof. intros E. rewrite <- (be_bytes_u32 x), <- (be_bytes_u32 y). unfold u32. by rewrite E. Qed.

Lemma mod_add_eq m a x y b : x mod m = y mod m -> (a + x + b) mod m = (a + y + b) mod m.
Proof.
  intros E. rewrite (Z.add_comm a x), (Z.add_comm a y), <- !Z.add_assoc.
  by rewrite <- (Zplus_mod_idemp_l x), E, Zplus_mod_idemp_l.
Qed.

Lemma store_be32_at pre old post off x :
  off = blen pre -> length old = 4%nat -> store_be32 (pre ++ old ++ post) off x = Some (pre ++ be_bytes 4 x ++ post).
Proof. intros -> Ho. unfold store_be32. rewrite put_be32_eq. apply mwrite_at; [done|by rewrite be_bytes_length]. Qed.

Lemma store_be16_at pre old post off x :
  off = blen pre -> length old = 2%nat -> store_be16 (pre ++ old ++ post) off x = Some (pre ++ be_bytes 2 x ++ post).
Proof. intros -> Ho. unfold store_be16. rewrite put_be16_eq. apply mwrite_at; [done|by rewrite be_bytes_length]. Qed.

(** On the big-endian HP-UX hosts the swap of the one byte changes nothing. *)
Lemma store_be64_at pre old post off x :
  off = blen pre -> length old = 8%nat ->
  store_be64 hpux (pre ++ old ++ post) off x = Some (pre ++ be_bytes 8 x ++ post).
Proof.
  intros -> Ho. unfold store_be64. destruct hpux.
  - rewrite hpux_big by done. cbn [mem_of cf_swap_to_be64].
    rewrite mwrite_at by (rewrite ?be_bytes_length; done). cbn [mbind option_bind].
    pose proof (be_bytes_bytes 8 x) as Hb. pose proof (be_bytes_length 8 x) as Hl.
    destruct (be_bytes 8 x) as [|b bs]; [done|]. apply Forall_cons in Hb as [Hb _].
    cbn [app]. rewrite aget_lookup, list_lookup_middle by done. cbn [mbind option_bind].
    rewrite aset_middle by done. unfold is_byte in Hb.
    by rewrite u64_id, u8_id by (unfold is_byte; lia).
  - rewrite put_be64_eq. apply mwrite_at; [done|by rewrite be_bytes_length].
Qed.

Lemma writes_field_header id n :
  writes (fun buf p => as_command_write_field_header buf p id n) (be_bytes 4 (n + 1) ++ [id]).
Proof.
  intros pre old post Hl. rewrite length_app, be_bytes_length in Hl. simpl in Hl.
  unfold as_command_write_field_header.
  destruct (split_at_nat 4 old) as (o1 & o2 & -> & H1); [lia|]. rewrite length_app in Hl.
  destruct o2 as [|o [|? ?]]; simpl in Hl; try lia.
  rewrite <- app_assoc, store_be32_at by done. cbn [mbind option_bind].
  rewrite (app_assoc pre). cbn [app]. rewrite aset_middle by (rewrite length_app, be_bytes_length; lia).
  cbn [mbind option_bind]. rewrite <- !app_assoc, (be_bytes_4_eq (u32 (n + 1)) (n + 1)) by (unfold u32; by rewrite Z.mod_mod).
  rewrite length_app, be_bytes_length. by do 2 f_equal.
Qed.

(** A field header written in front of [bs], once [bs] is there. *)
Lemma field_header_back id bs n pre old post (q : Z) :
  length old = 5%nat -> n mod 2 ^ 32 = blen bs mod 2 ^ 32 ->
  ('(buf, _) ← as_command_write_field_header (pre ++ old ++ bs ++ post) (blen pre) id n; Some (buf, q))
  = Some (pre ++ wire_field id bs ++ post, q).
Proof.
  intros Ho Hn. rewrite writes_field_header by (by rewrite length_app, be_bytes_length).
  cbn [mbind option_bind]. unfold wire_field. rewrite (be_bytes_4_eq (n + 1) (blen bs + 1)).
  - by rewrite <- !app_assoc.
  - by rewrite <- Z.add_mod_idemp_l, Hn, Z.add_mod_idemp_l by lia.
Qed.

Lemma wire_field_length id bs : length (wire_field id bs) = (5 + length bs)%nat.
Proof. unfold wire_field. rewrite length_app, be_bytes_length. simpl. lia. Qed.

(** [bs] is written behind room for a field header. *)
Lemma write_behind f bs n pre old post :
  writes f bs -> length old = (n + length bs)%nat ->
  exists o1 o2, old = o1 ++ o2 /\ length o1 = n
    /\ f (pre ++ old ++ post) (blen pre + Z.of_nat n)
       = Some (pre ++ o1 ++ bs ++ post, blen pre + Z.of_nat n + blen bs).
Proof.
  intros Hf Ho. destruct (split_at_nat n old) as (o1 & o2 & -> & H1); [lia|]. rewrite length_app in Ho.
  exists o1, o2. split; [done|]. split; [done|].
  rewrite <- app_assoc, (app_assoc pre). replace (blen pre + Z.of_nat n) with (blen (pre ++ o1)) by (rewrite length_app; lia).
  rewrite Hf by lia. by rewrite <- app_assoc.
Qed.

Lemma writes_field_string id val :
  writes (fun buf p => as_command_write_field_string buf p id val) (wire_field id (c_str val)).
Proof.
  intros pre old post Hl. rewrite wire_field_length in *. unfold as_command_write_field_string, AS_FIELD_HEADER_SIZE.
  destruct (write_behind _ _ 5 pre old post (writes_chars val) Hl) as (o1 & o2 & -> & H1 & Hw).
  change (Z.of_nat 5) with 5 in Hw. rewrite Hw. cbn [mbind option_bind].
  rewrite field_header_back; [do 2 f_equal; lia|done|]. unfold u32. rewrite Z.mod_mod by lia. f_equal. lia.
Qed.

Lemma writes_field_buffer id buffer bs :
  bf_size buffer = blen bs -> mslice (bf_data buffer) 0 (bf_size buffer) = Some bs ->
  writes (fun buf p => as_command_write_field_buffer buf p id buffer) (wire_field id bs).
Proof.
  intros Hs Hd.
  replace (wire_field id bs) with ((be_bytes 4 (blen bs + 1) ++ [id]) ++ bs)
    by (unfold wire_field; by rewrite <- app_assoc).
  eapply writes_ext; [|apply (writes_seq _ _ _ _ (writes_field_header id (blen bs)) (writes_mwrite bs))].
  intros buf p. unfold as_command_write_field_buffer. rewrite Hd, Hs.
  by destruct (as_command_write_field_header buf p id (blen bs)) as [[buf' p']|].
Qed.

Lemma writes_field_digest digest :
  length digest = 20%nat ->
  writes (fun buf p => as_command_write_field_digest buf p digest) (wire_field AS_FIELD_DIGEST digest).
Proof.
  intros Hd. eapply writes_ext; [|apply (writes_field_buffer _ (Build_as_buffer digest 20 20))]; [done| |];
    cbn [bf_size bf_data]; [lia|]. rewrite mslice_take by lia. f_equal. by apply take_ge; lia.
Qed.

Lemma writes_store_be64 x : writes (fun buf p => buf ← store_be64 hpux buf p x; Some (buf, p + 8)) (be_bytes 8 x).
Proof.
  intros pre old post Hl. rewrite be_bytes_length in *. by rewrite store_be64_at.
Qed.

(** The type byte, then the bytes. *)
Lemma writes_typed t f bs : writes f bs -> writes (fun buf p => buf ← aset buf p t; f buf (p + 1)) (t :: bs).
Proof.
  intros Hf pre old post Hl. destruct old as [|o old]; [done|]. cbn [app]. rewrite aset_middle by done.
  cbn [mbind option_bind].
  replace (pre ++ t :: old ++ post) with ((pre ++ [t]) ++ old ++ post) by (by rewrite <- app_assoc).
  replace (blen pre + 1) with (blen (pre ++ [t])) by (rewrite length_app; simpl; lia).
  rewrite Hf by (simpl in Hl; lia). rewrite <- app_assoc, length_app. simpl. do 2 f_equal. lia.
Qed.

Lemma write_key_value_spec v :
  exists f len, writes f ((key_particle v).1 :: (key_particle v).2)
    /\ (len + 1) mod 2 ^ 32 = blen ((key_particle v).1 :: (key_particle v).2) mod 2 ^ 32
    /\ forall buf p, write_key_value hpux buf p v = '(buf, q) ← f buf p; Some (buf, q, len).
Proof.
  destruct v as [|b|z|s|t b|l|m|h|v1 v2|]; cbn [key_particle particle fst snd].
  3:{ exists (fun buf p => buf ← aset buf p AS_BYTES_INTEGER; buf ← store_be64 hpux buf (p + 1) z; Some (buf, p + 1 + 8)), 8.
      split; [apply (writes_typed _ _ _ (writes_store_be64 z))|].
      split; [rewrite length_cons, be_bytes_length; done|]. intros buf p. cbn [write_key_value].
      destruct (aset buf p _) as [buf1|]; [|done]. cbn [mbind option_bind]. by destruct (store_be64 _ _ _ _). }
  3:{ exists (fun buf p => buf ← aset buf p AS_BYTES_STRING; buf ← mwrite buf (p + 1) s; Some (buf, p + 1 + blen s)), (u32 (blen s)).
      split; [apply (writes_typed _ _ _ (writes_mwrite s))|].
      split; [unfold u32; rewrite Z.add_mod_idemp_l, length_cons by lia; f_equal; lia|]. intros buf p. cbn [write_key_value].
      destruct (aset buf p _) as [buf1|]; [|done]. cbn [mbind option_bind]. by destruct (mwrite _ _ _). }
  3:{ exists (fun buf p => buf ← aset buf p (u8 t); buf ← mwrite buf (p + 1) b; Some (buf, p + 1 + blen b)), (blen b).
      split; [apply (writes_typed _ _ _ (writes_mwrite b))|].
      split; [rewrite length_cons; f_equal; lia|]. intros buf p. cbn [write_key_value].
      destruct (aset buf p _) as [buf1|]; [|done]. cbn [mbind option_bind]. by destruct (mwrite _ _ _). }
  all: exists (fun buf p => buf ← aset buf p AS_BYTES_UNDEF; Some (buf, p + 1)), 0;
    (split; [apply (writes_typed _ _ _ writes_nil)|]; split; [done|]); intros buf p; cbn [write_key_value];
    by destruct (aset buf p _).
Qed.

Lemma writes_user_key key v :
  key_valuep key = Some v ->
  writes (fun buf p => as_command_write_user_key hpux buf p key)
    (wire_field AS_FIELD_KEY ((key_particle v).1 :: (key_particle v).2)).
Proof.
  intros Hv pre old post Hl. rewrite wire_field_length in *. unfold as_command_write_user_key, AS_FIELD_HEADER_SIZE.
  rewrite Hv. cbn [mbind option_bind]. destruct (write_key_value_spec v) as (f & len & Hf & Hlen & He).
  destruct (write_behind _ _ 5 pre old post Hf Hl) as (o1 & o2 & -> & H1 & Hw).
  change (Z.of_nat 5) with 5 in Hw. rewrite He, Hw. cbn [mbind option_bind].
  rewrite field_header_back; [do 2 f_equal; lia|done|]. unfold u32. by rewrite Z.mod_mod.
Qed.

Lemma writes_key policy key :
  length (digest_value key) = 20%nat -> (policy = KEY_SEND -> is_Some (key_valuep key)) ->
  writes (fun buf p => as_command_write_key hpux buf p policy key) (wire_key policy key).
Proof.
  intros Hd Hv. unfold as_command_write_key, wire_key.
  apply (writes_seq _ _ _ _ (writes_field_string _ _)), (writes_seq _ _ _ _ (writes_field_string _ _)),
    (writes_seq _ _ _ _ (writes_field_digest _ Hd)).
  destruct policy; [apply writes_nil|]. destruct (Hv eq_refl) as [v Ev]. rewrite Ev. by apply writes_user_key.
Qed.

(** *** Bins *)

(** The eight bytes in front of a bin. *)
Lemma op_header_back x op type n pre old post (q : Z) :
  length old = 8%nat ->
  (buf ← store_be32 (pre ++ old ++ post) (blen pre) x;
   buf ← aset buf (blen pre + 4) op; buf ← aset buf (blen pre + 5) type;
   buf ← aset buf (blen pre + 6) 0; buf ← aset buf (blen pre + 7) n; Some (buf, q))
  = Some (pre ++ be_bytes 4 x ++ [op; type; 0; n] ++ post, q).
Proof.
  intros Ho. destruct (split_at_nat 4 old) as (o1 & o2 & -> & H1); [lia|]. rewrite length_app in Ho.
  destruct o2 as [|a [|b [|c [|d [|? ?]]]]]; simpl in Ho; try lia.
  rewrite <- app_assoc, store_be32_at by done. cbn [mbind option_bind app].
  rewrite (app_assoc pre). set (pre' := pre ++ be_bytes 4 x).
  assert (blen pre' = blen pre + 4) as Hp by (unfold pre'; rewrite length_app, be_bytes_length; lia).
  rewrite (aset_middle pre' (b :: c :: d :: post)) by lia. cbn [mbind option_bind].
  rewrite (cons_middle op), (app_assoc pre'), aset_middle by (rewrite length_app; simpl; lia). cbn [mbind option_bind].
  rewrite (cons_middle type), (app_assoc (pre' ++ [op])), aset_middle by (rewrite !length_app; simpl; lia).
  cbn [mbind option_bind].
  rewrite (cons_middle 0), (app_assoc ((pre' ++ [op]) ++ [type])), aset_middle by (rewrite !length_app; simpl; lia).
  cbn [mbind option_bind]. unfold pre'. by rewrite <- !app_assoc.
Qed.

Lemma wire_op_length op type name bs : length (wire_op op type name bs) = (8 + length (name ++ bs))%nat.
Proof. unfold wire_op. rewrite !length_app, be_bytes_length. simpl. lia. Qed.

Lemma writes_bin_name name :
  strlen name < 256 ->
  writes (fun buf p => as_command_write_bin_name buf p name) (wire_op AS_OPERATOR_READ 0 (c_str name) []).
Proof.
  unfold strlen. intros Hn pre old post Hl. rewrite wire_op_length, app_nil_r in *.
  unfold as_command_write_bin_name, AS_OPERATION_HEADER_SIZE.
  destruct (write_behind _ _ 8 pre old post (writes_chars name) Hl) as (o1 & o2 & -> & H1 & Hw).
  change (Z.of_nat 8) with 8 in Hw. rewrite Hw. cbn [mbind option_bind].
  replace (blen pre + 8 + blen (c_str name) - blen pre - 8) with (blen (c_str name)) by lia.
  rewrite u8_id by (unfold is_byte; lia). rewrite op_header_back by done.
  unfold wire_op. rewrite app_nil_r, <- !app_assoc, Z.add_0_r. cbn [app]. do 2 f_equal. lia.
Qed.

(** The buffer that goes with a value: for a list or a map, its serialized form. *)
Definition buffer_for (v : as_val) (buffer : as_buffer) : Prop :=
  match v with
  | VList _ | VMap _ => bf_size buffer = blen (packed v) /\ mslice (bf_data buffer) 0 (bf_size buffer) = Some (packed v)
  | _ => True
  end.

Lemma write_bin_value_spec v buffer :
  buffer_for v buffer ->
  exists f len, writes f (particle v).2 /\ len mod 2 ^ 32 = blen (particle v).2 mod 2 ^ 32
    /\ forall buf p, write_bin_value hpux buf p v buffer
                     = '(buf, q) ← f buf p; Some (buf, q, len, (particle v).1).
Proof.
  intros Hb. destruct v as [|b|z|s|t b|l|m|h|v1 v2|]; cbn [particle fst snd buffer_for] in *.
  3:{ exists (fun buf p => buf ← store_be64 hpux buf p z; Some (buf, p + 8)), 8.
      split; [apply writes_store_be64|]. split; [by rewrite be_bytes_length|]. intros buf p. cbn [write_bin_value].
      by destruct (store_be64 _ _ _ _). }
  3:{ exists (fun buf p => buf ← mwrite buf p s; Some (buf, p + blen s)), (u32 (blen s)).
      split; [apply writes_mwrite|]. split; [unfold u32; by rewrite Z.mod_mod|]. intros buf p.
      cbn [write_bin_value]. by destruct (mwrite _ _ _). }
  3:{ exists (fun buf p => buf ← mwrite buf p b; Some (buf, p + blen b)), (blen b).
      split; [apply writes_mwrite|]. split; [done|]. intros buf p. cbn [write_bin_value]. by destruct (mwrite _ _ _). }
  3,4: destruct Hb as [Hs Hb]; match goal with |- context [packed ?x] => set (bs := packed x) in * end;
    (exists (fun buf p => buf ← mwrite buf p bs; Some (buf, p + blen bs)), (bf_size buffer));
    (split; [apply writes_mwrite|]); (split; [by rewrite Hs|]); intros buf p; cbn [write_bin_value];
    rewrite Hb, Hs; cbn [mbind option_bind]; by destruct (mwrite _ _ _).
  all: exists (fun buf p => Some (buf, p)), 0; by split; [apply writes_nil|].
Qed.

Lemma writes_bin op bin v buffer :
  bin_valuep bin = Some v -> strlen (bin_name bin) < 256 -> buffer_for v buffer ->
  writes (fun buf p => as_command_write_bin hpux buf p (u8 op) bin buffer) (wire_bin (mk_binop op bin)).
Proof.
  intros Hv Hn Hb pre old post Hl. unfold wire_bin in *. cbn [binop_op binop_bin] in *. rewrite Hv in *.
  unfold strlen in Hn. rewrite wire_op_length in *. unfold as_command_write_bin, AS_OPERATION_HEADER_SIZE.
  destruct (write_bin_value_spec v buffer Hb) as (f & len & Hf & Hlen & He).
  destruct (write_behind _ _ 8 pre old post (writes_seq _ _ _ _ (writes_chars (bin_name bin)) Hf) Hl)
    as (o1 & o2 & -> & H1 & Hw).
  change (Z.of_nat 8) with 8 in Hw.
  assert (exists buf1 q1, write_chars (pre ++ (o1 ++ o2) ++ post) (blen pre + 8) (bin_name bin) = Some (buf1, q1)
    /\ q1 = blen pre + 8 + blen (c_str (bin_name bin))) as (buf1 & q1 & Hc & Hq).
  { rewrite !length_app in Hl. replace (pre ++ (o1 ++ o2) ++ post) with ((pre ++ o1) ++ take (length (c_str (bin_name bin))) o2
      ++ (drop (length (c_str (bin_name bin))) o2 ++ post)) by (by rewrite (app_assoc (take _ _)), take_drop, <- !app_assoc).
    replace (blen pre + 8) with (blen (pre ++ o1)) by (rewrite length_app; lia).
    rewrite writes_chars by (rewrite length_take; lia). by eexists _, _. }
  rewrite Hc in *. cbn [mbind option_bind] in *. rewrite Hv. cbn [mbind option_bind]. rewrite He, Hw.
  cbn [mbind option_bind]. replace (q1 - blen pre - 8) with (blen (c_str (bin_name bin))) by lia.
  rewrite u8_id by (unfold is_byte; lia). rewrite op_header_back by done.
  unfold wire_op. rewrite (be_bytes_4_eq _ (blen (c_str (bin_name bin)) + blen (particle v).2 + 4)).
  - rewrite <- !app_assoc. f_equal. f_equal. lia.
  - unfold u32. rewrite Z.mod_mod by lia. by apply mod_add_eq.
Qed.

(** *** Headers *)

Definition info1_bits (attr : Z) (consistency : as_policy_consistency_level) : Z :=
  match consistency with CONSISTENCY_ALL => Z.lor attr AS_MSG_INFO1_CONSISTENCY_ALL | CONSISTENCY_ONE => attr end.

Definition info2_bits (attr : Z) (exists_ : as_policy_exists) (gen : as_policy_gen) : Z :=
  let attr := match exists_ with EXISTS_CREATE => Z.lor attr AS_MSG_INFO2_CREATE_ONLY | _ => attr end in
  match gen with
  | GEN_IGNORE => attr
  | GEN_EQ => Z.lor attr AS_MSG_INFO2_GENERATION
  | GEN_GT => Z.lor attr AS_MSG_INFO2_GENERATION_GT
  end.

Definition info3_bits (exists_ : as_policy_exists) (commit : as_policy_commit_level) : Z :=
  Z.lor match exists_ with
        | EXISTS_UPDATE => AS_MSG_INFO3_UPDATE_ONLY
        | EXISTS_CREATE_OR_REPLACE => AS_MSG_INFO3_CREATE_OR_REPLACE
        | EXISTS_REPLACE => AS_MSG_INFO3_REPLACE_ONLY
        | EXISTS_IGNORE | EXISTS_CREATE => 0
        end
        match commit with COMMIT_MASTER => AS_MSG_INFO3_COMMIT_MASTER | COMMIT_ALL => 0 end.

Definition sent_gen (policy : as_policy_gen) (gen : Z) : Z := match policy with GEN_IGNORE => 0 | _ => gen end.

Lemma writes_store_be32 x : writes (fun buf p => buf ← store_be32 buf p x; Some (buf, p + 4)) (be_bytes 4 x).
Proof. intros pre old post Hl. rewrite be_bytes_length in *. by rewrite store_be32_at. Qed.
Lemma writes_store_be16 x : writes (fun buf p => buf ← store_be16 buf p x; Some (buf, p + 2)) (be_bytes 2 x).
Proof. intros pre old post Hl. rewrite be_bytes_length in *. by rewrite store_be16_at. Qed.

(** What both kinds of header do. *)
(** Steps through stores at constant positions, common to both sides. *)
Ltac store_steps :=
  repeat match goal with
    | |- context [Z.pos ?x + Z.pos ?y] =>
        let r := eval vm_compute in (Z.pos x + Z.pos y) in change (Z.pos x + Z.pos y) with r
    | |- context [aset ?l ?i ?x] => is_var l; destruct (aset l i x); cbn [mbind option_bind]; [|done]
    | |- context [mwrite ?l ?i ?x] => is_var l; destruct (mwrite l i x); cbn [mbind option_bind]; [|done]
    | |- context [store_be16 ?l ?i ?x] => is_var l; destruct (store_be16 l i x); cbn [mbind option_bind]; [|done]
    | |- context [store_be32 ?l ?i ?x] => is_var l; destruct (store_be32 l i x); cbn [mbind option_bind]; [|done]
    end.

Lemma writes_header_bytes a b c gen ttl timeout nf nb :
  exists f, writes f (wire_header a b c gen ttl timeout nf nb)
    /\ forall buf, f buf 8
      = (buf ← aset buf 8 22; buf ← aset buf 9 a; buf ← aset buf 10 b; buf ← aset buf 11 c;
         buf ← store_be16 buf 12 0; buf ← store_be32 buf 14 gen; buf ← store_be32 buf 18 ttl;
         buf ← store_be32 buf 22 timeout; buf ← store_be16 buf 26 nf; buf ← store_be16 buf 28 nb;
         Some (buf, 30)).
Proof.
  eexists. split.
  - unfold wire_header.
    change ([22; a; b; c; 0; 0] ++ ?x) with (22 :: a :: b :: c :: be_bytes 2 0 ++ x).
    do 4 eapply writes_typed. eapply writes_seq; [apply (writes_store_be16 0)|].
    eapply writes_seq; [apply (writes_store_be32 gen)|]. eapply writes_seq; [apply (writes_store_be32 ttl)|].
    eapply writes_seq; [apply (writes_store_be32 timeout)|]. eapply writes_seq; [apply (writes_store_be16 nf)|].
    apply writes_store_be16.
  - intros buf. cbv beta.
    store_steps. done.
Qed.

(** [fh] writes the header [hdr] into a command. *)
Definition heads (fh : list Z -> wres) (hdr : list Z) : Prop :=
  forall o8 old post, length o8 = 8%nat -> length old = 22%nat ->
  fh (o8 ++ old ++ post) = Some (o8 ++ hdr ++ post, 30).

Lemma wire_header_length a b c gen ttl timeout nf nb :
  length (wire_header a b c gen ttl timeout nf nb) = 22%nat.
Proof. unfold wire_header. by rewrite !length_app, !be_bytes_length. Qed.

Lemma writes_heads f hdr : writes f hdr -> length hdr = 22%nat -> heads (fun buf => f buf 8) hdr.
Proof.
  intros Hf Hl o8 old post Ho8 Ho. pose proof (Hf o8 old post) as He. rewrite Ho8, Hl in He.
  change (Z.of_nat 8) with 8 in He. change (8 + Z.of_nat 22) with 30 in He. by apply He.
Qed.

Lemma heads_ext f g hdr : (forall buf, f buf = g buf) -> heads f hdr -> heads g hdr.
Proof. intros He Hf o8 old post H1 H2. rewrite <- He. by apply Hf. Qed.

Lemma heads_write r w commit consistency exists_ gp gen ttl timeout nf nb :
  heads (fun buf => as_command_write_header buf r w commit consistency exists_ gp gen ttl timeout nf nb)
    (wire_header (info1_bits r consistency) (info2_bits w exists_ gp) (info3_bits exists_ commit)
       (sent_gen gp gen) ttl timeout nf nb).
Proof.
  destruct (writes_header_bytes (info1_bits r consistency) (info2_bits w exists_ gp) (info3_bits exists_ commit)
              (sent_gen gp gen) ttl timeout nf nb) as (f & Hf & He).
  eapply heads_ext; [|apply writes_heads; [exact Hf|apply wire_header_length]].
  intros buf. cbv beta. rewrite He. by destruct commit, consistency, exists_, gp.
Qed.

Lemma heads_read r consistency timeout nf nb :
  heads (fun buf => as_command_write_header_read buf r consistency timeout nf nb)
    (wire_header (info1_bits r consistency) 0 0 0 0 timeout nf nb).
Proof.
  assert (exists f, writes f (wire_header (info1_bits r consistency) 0 0 0 0 timeout nf nb)
            /\ forall buf, f buf 8 = as_command_write_header_read buf r consistency timeout nf nb) as (f & Hf & He).
  { eexists. split.
    - change (wire_header (info1_bits r consistency) 0 0 0 0 timeout nf nb)
        with (22 :: info1_bits r consistency :: replicate 12 0 ++ be_bytes 4 timeout ++ be_bytes 2 nf ++ be_bytes 2 nb).
      do 2 eapply writes_typed. eapply writes_seq; [apply (writes_mwrite (replicate 12 0))|].
      eapply writes_seq; [apply (writes_store_be32 timeout)|]. eapply writes_seq; [apply (writes_store_be16 nf)|].
      apply writes_store_be16.
    - intros buf. unfold as_command_write_header_read. cbv beta.
      change (blen (replicate 12 0)) with 12.
      destruct consistency; cbn [info1_bits]; store_steps; done. }
  eapply heads_ext; [exact He|]. apply writes_heads; [exact Hf|apply wire_header_length].
Qed.

(** *** The first eight bytes *)

Lemma lor_high n k s : 0 <= s -> 0 <= n < 2 ^ s -> Z.lor n (Z.shiftl k s) = n + k * 2 ^ s.
Proof.
  intros Hs Hn. rewrite <- Z.shiftl_mul_pow2 by done. symmetry. apply Z.add_nocarry_lor.
  apply Z.bits_inj'. intros i Hi. rewrite Z.land_spec, Z.bits_0, Z.shiftl_spec by done.
  destruct (decide (i < s)) as [Hlt|Hge].
  - rewrite (Z.testbit_neg_r k (i - s)) by lia. apply andb_false_r.
  - rewrite <- (Z.mod_small n (2 ^ s)) by done. by rewrite Z.mod_pow2_bits_high by lia.
Qed.

Lemma proto_word_bytes v t n :
  is_byte v -> is_byte t -> 0 <= n < 2 ^ 48 ->
  be_bytes 8 (Z.lor (Z.lor n (Z.shiftl v 56)) (Z.shiftl t 48)) = [v; t] ++ be_bytes 6 n.
Proof.
  intros Hv Ht Hn. unfold is_byte in *. rewrite <- Z.lor_assoc, (Z.lor_comm (Z.shiftl v 56)), Z.lor_assoc.
  rewrite (lor_high n), lor_high by lia. set (l := [v; t] ++ be_bytes 6 n).
  assert (n + t * 2 ^ 48 + v * 2 ^ 56 = be_val l) as ->.
  { unfold l. cbn [app]. rewrite !be_val_cons, be_val_be_bytes, !length_cons, be_bytes_length.
    change (256 ^ Z.of_nat 6) with (2 ^ 48). rewrite Z.mod_small by done. lia. }
  change 8%nat with (length l). apply be_bytes_be_val. unfold l.
  apply Forall_app. split; [|apply be_bytes_bytes]. do 2 (apply Forall_cons; split; [done|]). apply Forall_nil_2.
Qed.

Lemma proto_bytes n :
  0 <= n < 2 ^ 48 ->
  be_bytes 8 (Z.lor (Z.lor (u64 n) (Z.shiftl AS_MESSAGE_VERSION 56)) (Z.shiftl AS_MESSAGE_TYPE 48))
  = [AS_MESSAGE_VERSION; AS_MESSAGE_TYPE] ++ be_bytes 6 n.
Proof.
  intros Hn. rewrite u64_id by lia. apply proto_word_bytes; [| |done]; unfold is_byte, AS_MESSAGE_VERSION, AS_MESSAGE_TYPE; lia.
Qed.

(** A header, a body and the first eight bytes make a message that fills its
    block. *)
Lemma message_built fh hdr wb body mem :
  heads fh hdr -> length hdr = 22%nat -> writes wb body ->
  blen mem = 30 + blen body -> blen body < 2 ^ 47 ->
  ('(buf, p) ← fh mem; '(buf, p) ← wb buf p; sent (as_command_write_end buf p)) = Some (wire_message hdr body).
Proof.
  intros Hh Hl Hw Hm Hmax.
  destruct (split_at_nat 8 mem) as (o8 & r & -> & H8); [lia|]. rewrite length_app in Hm.
  destruct (split_at_nat 22 r) as (o22 & ob & -> & H22); [lia|]. rewrite length_app in Hm.
  rewrite Hh by done. cbn [mbind option_bind].
  pose proof (Hw (o8 ++ hdr) ob [] ltac:(lia)) as He. rewrite length_app, H8, Hl in He.
  change (Z.of_nat (8 + 22)) with 30 in He. rewrite !app_nil_r, <- !app_assoc in He. rewrite He. cbn [mbind option_bind].
  unfold as_command_write_end. rewrite put_be64_eq, proto_bytes by lia.
  rewrite (mwrite_at [] o8 (hdr ++ body)) by (done || by rewrite length_app, be_bytes_length).
  cbn [mbind option_bind app sent]. unfold sent. cbn [mbind option_bind].
  rewrite mslice_take by (rewrite !length_cons, !length_app, be_bytes_length; lia).
  rewrite take_ge by (rewrite !length_cons, !length_app, be_bytes_length; lia).
  unfold wire_message. cbn [app]. do 4 f_equal. rewrite length_app. f_equal. lia.
Qed.

(** *** Sizes *)

(** A key whose digest is known, and whose value is there when it is to be sent. *)
Definition key_ready (policy : as_policy_key) (key : as_key) : Prop :=
  length (digest_value key) = 20%nat /\ (policy = KEY_SEND -> is_Some (key_valuep key)).

(** A value whose encoding fits the packer. *)
Definition sendable (v : as_val) : Prop := val_ok v /\ blen (enc v).1 <= LIMIT.

Definition bin_ready (bin : as_bin) : Prop :=
  exists v, bin_valuep bin = Some v /\ strlen (bin_name bin) < 256 /\ sendable v.

Lemma key_size_ok policy key :
  key_ready policy key ->
  as_command_key_size policy key = Some (30 + blen (wire_key policy key), n_key_fields policy).
Proof.
  intros [Hd Hv]. unfold as_command_key_size, wire_key, strlen.
  assert (forall id bs, blen (wire_field id bs) = 5 + blen bs) as Hf by (intros; rewrite wire_field_length; lia).
  rewrite !length_app, !Nat2Z.inj_add, !Hf, Hd. change (Z.of_nat 20) with 20.
  destruct policy; [simpl; do 2 f_equal; lia|]. destruct (Hv eq_refl) as [v Ev]. unfold as_command_user_key_size.
  rewrite Ev. cbn [mbind option_bind]. rewrite Hf, length_cons. unfold AS_FIELD_HEADER_SIZE, n_key_fields. do 2 f_equal.
  destruct v; cbn [key_particle particle fst snd]; rewrite ?be_bytes_length; cbn [length]; lia.
Qed.

Lemma serialize_into_ok v :
  sendable v -> exists b, serialize_into v no_buffer = Some b
    /\ bf_size b = blen (packed v) /\ mslice (bf_data b) 0 (bf_size b) = Some (packed v).
Proof.
  intros [Hok Hl]. pose proof (serialize_spec [] v Hok Hl) as Hs. unfold serialize_into, packed.
  assert (all_ok []) as Hall by constructor.
  destruct (as_msgpack_serializer_serialize [] (Some v)) as [[rc [b|]]|]; unfold serialized in Hs;
    cbn [mbind option_bind default].
  - destruct Hs as (_ & -> & Hsz & Ht & Hc). exists b. split_and!; [done|done|].
    cbn [Z.eqb]. pose proof (f_equal length Ht) as Hlen. rewrite length_take in Hlen.
    rewrite <- Ht. apply mslice_take. lia.
  - destruct Hs as [Hrc [->|?]]; [|done]. apply Z.eqb_neq in Hrc. rewrite Hrc. by exists no_buffer.
  - by destruct Hs.
Qed.

Lemma bin_size_ok bin op :
  bin_ready bin -> exists v b, bin_valuep bin = Some v /\ strlen (bin_name bin) < 256 /\ buffer_for v b
    /\ as_command_bin_size bin no_buffer = Some (blen (wire_bin (mk_binop op bin)), b).
Proof.
  intros (v & Ev & Hn & Hs).
  assert (exists b, buffer_for v b /\ as_command_value_size v no_buffer = Some (blen (particle v).2, b)) as (b & Hb & Hsz).
  { destruct (serialize_into_ok v Hs) as (b & Hi & Hb).
    destruct v; cbn [as_command_value_size particle snd buffer_for];
      try (exists no_buffer; by rewrite ?be_bytes_length);
      exists b; rewrite Hi; cbn [mbind option_bind]; destruct Hb as [Hb ?]; (split; [done|by rewrite Hb]). }
  exists v, b. split_and!; [done..|]. unfold as_command_bin_size, wire_bin, strlen. cbn [binop_bin binop_op].
  rewrite Ev. cbn [mbind option_bind]. rewrite Hsz. cbn [mbind option_bind]. rewrite wire_op_length, length_app.
  do 2 f_equal. lia.
Qed.

Definition wire_bins (ops : list as_binop) : list Z := mjoin (map wire_bin ops).

Lemma bins_size_ok ops size :
  Forall bin_ready (map binop_bin ops) ->
  exists bs, bins_size (map binop_bin ops) size = Some (size + blen (wire_bins ops), bs)
    /\ writes (fun buf p => write_ops hpux buf p ops bs) (wire_bins ops).
Proof.
  revert size. induction ops as [|[op bin] ops IH]; intros size Hr; cbn [map bins_size].
  - exists []. split; [do 2 f_equal; simpl; lia|apply writes_nil].
  - apply Forall_cons in Hr as [Hb Hr]. cbn [binop_bin] in *.
    destruct (bin_size_ok bin op Hb) as (v & b & Ev & Hn & Hbf & ->). cbn [mbind option_bind].
    destruct (IH (size + blen (wire_bin (mk_binop op bin))) Hr) as (bs & -> & Hw). cbn [mbind option_bind].
    exists (b :: bs). unfold wire_bins in *. rewrite map_cons, join_cons, length_app. split; [do 2 f_equal; lia|].
    cbn [write_ops binop_op binop_bin]. eapply writes_seq; [by eapply writes_bin|exact Hw].
Qed.

Lemma select_size_ok bins size n :
  Forall (fun name => 0 < strlen name <= AS_BIN_NAME_MAX_LEN) bins ->
  select_size bins size n
  = inr (size + blen (mjoin (map (fun name => wire_op AS_OPERATOR_READ 0 (c_str name) []) bins)), n + blen bins).
Proof.
  revert size n. induction bins as [|name bins IH]; intros size n Hb; cbn [select_size].
  - simpl. do 2 f_equal; lia.
  - apply Forall_cons in Hb as [[H0 H14] Hb]. destruct (Z.eqb_spec (strlen name) 0); [lia|].
    unfold as_command_bin_name_size. destruct (Z.ltb_spec AS_BIN_NAME_MAX_LEN (strlen name)); [lia|].
    rewrite IH by done. rewrite map_cons, join_cons, length_app, wire_op_length, app_nil_r, length_cons.
    unfold strlen, AS_OPERATION_HEADER_SIZE. do 2 f_equal; lia.
Qed.

Lemma writes_bin_names bins :
  Forall (fun name => strlen name <= AS_BIN_NAME_MAX_LEN) bins ->
  writes (fun buf p => write_bin_names buf p bins)
    (mjoin (map (fun name => wire_op AS_OPERATOR_READ 0 (c_str name) []) bins)).
Proof.
  unfold AS_BIN_NAME_MAX_LEN. induction bins as [|name bins IH]; intros Hb; [apply writes_nil|].
  apply Forall_cons in Hb as [Hn Hb]. rewrite map_cons, join_cons. cbn [write_bin_names].
  eapply writes_seq; [apply writes_bin_name; lia|by apply IH].
Qed.

(** The body of every command starts with the key. *)
Lemma key_message fh hdr policy key wb body mem :
  heads fh hdr -> length hdr = 22%nat -> key_ready policy key -> writes wb body ->
  blen mem = 30 + blen (wire_key policy key ++ body) -> blen (wire_key policy key ++ body) < 2 ^ 47 ->
  ('(buf, p) ← fh mem; '(buf, p) ← as_command_write_key hpux buf p policy key; '(buf, p) ← wb buf p;
   sent (as_command_write_end buf p))
  = Some (wire_message hdr (wire_key policy key ++ body)).
Proof.
  intros Hh Hl [Hd Hv] Hw Hm Hmax.
  rewrite <- (message_built fh hdr _ _ mem Hh Hl (writes_seq _ _ _ _ (writes_key policy key Hd Hv) Hw) Hm Hmax).
  destruct (fh mem) as [[buf p]|]; [|done]. cbn [mbind option_bind].
  by destruct (as_command_write_key hpux buf p policy key) as [[buf1 p1]|].
Qed.

(** ** The commands *)

(** The names in front of the first empty one. *)
Fixpoint until_empty (bins : list (list Z)) : list (list Z) :=
  match bins with
  | [] => []
  | name :: bins => if strlen name =? 0 then [] else name :: until_empty bins
  end.

Definition wire_names (names : list (list Z)) : list Z :=
  mjoin (map (fun name => wire_op AS_OPERATOR_READ 0 (c_str name) []) names).

Lemma select_size_prefix bins size n : select_size bins size n = select_size (until_empty bins) size n.
Proof.
  revert size n. induction bins as [|name bins IH]; intros size n; [done|]. cbn [select_size until_empty].
  destruct (strlen name =? 0) eqn:E; [done|]. cbn [select_size]. rewrite E.
  by destruct (as_command_bin_name_size name size).
Qed.

Lemma take_until_empty bins : take (length (until_empty bins)) bins = until_empty bins.
Proof.
  induction bins as [|name bins IH]; [done|]. cbn [until_empty]. destruct (strlen name =? 0); [done|].
  cbn [length firstn]. by rewrite IH.
Qed.

Lemma until_empty_pos bins : Forall (fun name => 0 < strlen name) (until_empty bins).
Proof.
  induction bins as [|name bins IH]; cbn [until_empty]; [constructor|].
  destruct (Z.eqb_spec (strlen name) 0); [constructor|]. constructor; [unfold strlen in *; lia|done].
Qed.

Lemma select_size_long bins size n :
  Exists (fun name => AS_BIN_NAME_MAX_LEN < strlen name) (until_empty bins) ->
  select_size bins size n = inl AEROSPIKE_ERR_PARAM.
Proof.
  rewrite select_size_prefix. pose proof (until_empty_pos bins) as Hp. revert Hp.
  generalize (until_empty bins) as names. clear bins. intros names. revert size n.
  induction names as [|name names IH]; intros size n Hp Hl; [by apply Exists_nil in Hl|].
  apply Forall_cons in Hp as [H0 Hp]. cbn [select_size]. destruct (Z.eqb_spec (strlen name) 0); [lia|].
  unfold as_command_bin_name_size. destruct (Z.ltb_spec AS_BIN_NAME_MAX_LEN (strlen name)); [done|].
  apply Exists_cons in Hl as [?|Hl]; [lia|]. by apply IH.
Qed.

(** What is known of a new block. *)
Definition block_size (uninit : Z -> list Z) : Prop := forall n, 0 <= n -> blen (uninit n) = n.

Lemma read_message uninit policy key r wb body :
  block_size uninit -> key_ready (read_key policy) key -> writes wb body ->
  blen (wire_key (read_key policy) key ++ body) < 2 ^ 47 ->
  forall size nb, size = 30 + blen (wire_key (read_key policy) key ++ body) ->
  ('(buf, p) ← as_command_write_header_read (uninit size) r (read_consistency policy) (read_timeout policy)
                 (n_key_fields (read_key policy)) nb;
   '(buf, p) ← as_command_write_key hpux buf p (read_key policy) key; '(buf, p) ← wb buf p;
   sent (as_command_write_end buf p))
  = Some (wire_message (wire_header (info1_bits r (read_consistency policy)) 0 0 0 0 (read_timeout policy)
                          (n_key_fields (read_key policy)) nb) (wire_key (read_key policy) key ++ body)).
Proof.
  intros Hu Hk Hw Hmax size nb ->.
  rewrite (key_message (fun buf => as_command_write_header_read buf r (read_consistency policy) (read_timeout policy)
             (n_key_fields (read_key policy)) nb) (wire_header (info1_bits r (read_consistency policy)) 0 0 0 0
             (read_timeout policy) (n_key_fields (read_key policy)) nb) (read_key policy) key wb body);
    [done|apply heads_read|apply wire_header_length|done..| |done].
  apply Hu. lia.
Qed.

Lemma get_exists_message uninit policy key r :
  block_size uninit -> key_ready (read_key policy) key -> blen (wire_key (read_key policy) key) < 2 ^ 47 ->
  ('(size, n_fields) ← as_command_key_size (read_key policy) key;
   '(buf, p) ← as_command_write_header_read (uninit size) r (read_consistency policy) (read_timeout policy) n_fields 0;
   '(buf, p) ← as_command_write_key hpux buf p (read_key policy) key;
   sent (as_command_write_end buf p))
  = Some (wire_message (wire_header (info1_bits r (read_consistency policy)) 0 0 0 0 (read_timeout policy)
                          (n_key_fields (read_key policy)) 0) (wire_key (read_key policy) key)).
Proof.
  intros Hu Hk Hmax. rewrite key_size_ok by done. cbn [mbind option_bind].
  pose proof (read_message uninit policy key r _ [] Hu Hk writes_nil) as Hm. rewrite app_nil_r in Hm.
  rewrite <- (Hm Hmax _ 0 eq_refl).
  destruct (as_command_write_header_read _ _ _ _ _ _) as [[buf p]|]; [|done]. cbn [mbind option_bind].
  by destruct (as_command_write_key _ _ _ _ _) as [[? ?]|].
Qed.

(** [aerospike_key_get], [aerospike_key_select] and [aerospike_key_exists] send
    exactly the message of the wire format, in a block of exactly the size computed
    for it: the header with the bits of the operation and of the consistency level,
    the fields of the key, and for a selection one read operation for every name in
    front of the first empty one.  A name longer than fourteen bytes makes the
    selection fail before anything is written. *)
Theorem read_commands_messages uninit policy key bins :
  block_size uninit -> key_ready (read_key policy) key ->
  blen (wire_key (read_key policy) key ++ wire_names (until_empty bins)) < 2 ^ 47 ->
  let header attr n_ops := wire_header (info1_bits attr (read_consistency policy)) 0 0 0 0 (read_timeout policy)
                             (n_key_fields (read_key policy)) n_ops in
  key_get_command hpux uninit policy key = Some (wire_message (header 3 0) (wire_key (read_key policy) key))
  /\ key_exists_command hpux uninit policy key = Some (wire_message (header 33 0) (wire_key (read_key policy) key))
  /\ key_select_command hpux uninit policy key bins
     = Some (if decide (Forall (fun name => strlen name <= AS_BIN_NAME_MAX_LEN) (until_empty bins))
             then inr (wire_message (header 1 (u16 (blen (until_empty bins))))
                         (wire_key (read_key policy) key ++ wire_names (until_empty bins)))
             else inl AEROSPIKE_ERR_PARAM).
Proof.
  intros Hu Hk Hmax header. pose proof Hmax as Hmax'. rewrite length_app in Hmax'.
  split; [apply get_exists_message; (done || lia)|]. split; [apply get_exists_message; (done || lia)|].
  unfold key_select_command. rewrite key_size_ok by done. cbn [mbind option_bind].
  destruct (decide _) as [Hb|Hb].
  - assert (Forall (fun name => 0 < strlen name <= AS_BIN_NAME_MAX_LEN) (until_empty bins)) as Hb'.
    { apply Forall_and. split; [apply until_empty_pos|done]. }
    rewrite select_size_prefix, select_size_ok by done. rewrite Z.add_0_l, Nat2Z.id, take_until_empty.
    pose proof (read_message uninit policy key AS_MSG_INFO1_READ _ _ Hu Hk (writes_bin_names _ Hb) Hmax
                  _ (u16 (blen (until_empty bins))) eq_refl) as Hm.
    rewrite length_app, Nat2Z.inj_add, Z.add_assoc in Hm.
    destruct (as_command_write_header_read _ _ _ _ _ _) as [[b1 p1]|]; [|done]. cbn [mbind option_bind] in *.
    destruct (as_command_write_key _ _ _ _ _) as [[b2 p2]|]; [|done]. cbn [mbind option_bind] in *.
    destruct (write_bin_names _ _ _) as [[b3 p3]|]; [|done]. cbn [mbind option_bind] in *.
    destruct (sent _); [|done]. cbn [mbind option_bind]. by simplify_eq.
  - rewrite select_size_long; [done|]. apply not_Forall_Exists in Hb; [|intros x; apply _].
    eapply Exists_impl; [exact Hb|]. intros x Hx. cbv beta in Hx. unfold compose in Hx. lia.
Qed.

Lemma write_message mem r w commit consistency exists_ gp gen ttl timeout nf nb policy key wb body :
  key_ready policy key -> writes wb body ->
  blen mem = 30 + blen (wire_key policy key ++ body) -> blen (wire_key policy key ++ body) < 2 ^ 47 ->
  ('(buf, p) ← as_command_write_header mem r w commit consistency exists_ gp gen ttl timeout nf nb;
   '(buf, p) ← as_command_write_key hpux buf p policy key; '(buf, p) ← wb buf p; sent (as_command_write_end buf p))
  = Some (wire_message
      (wire_header (info1_bits r consistency) (info2_bits w exists_ gp) (info3_bits exists_ commit)
         (sent_gen gp gen) ttl timeout nf nb) (wire_key policy key ++ body)).
Proof.
  intros Hk Hw Hm Hmax.
  exact (key_message _ _ policy key wb body mem (heads_write r w commit consistency exists_ gp gen ttl timeout nf nb)
           (wire_header_length _ _ _ _ _ _ _ _) Hk Hw Hm Hmax).
Qed.

Lemma zeros_size n : 0 <= n -> blen (replicate (Z.to_nat n) 0) = n.
Proof. rewrite length_replicate. lia. Qed.

(** The message of a put. *)
Definition put_request (policy : as_policy_write) (key : as_key) (bins : list as_bin) (gen ttl : Z) : list Z :=
  wire_message
    (wire_header 0 (info2_bits AS_MSG_INFO2_WRITE (write_exists policy) (write_gen policy))
       (info3_bits (write_exists policy) (write_commit policy)) (sent_gen (write_gen policy) gen) ttl
       (write_timeout policy) (n_key_fields (write_key policy)) (u16 (blen bins)))
    (wire_key (write_key policy) key ++ wire_bins (map (mk_binop AS_OPERATOR_WRITE) bins)).

Lemma put_command_ok uninit policy key bins gen ttl :
  let body := wire_key (write_key policy) key ++ wire_bins (map (mk_binop AS_OPERATOR_WRITE) bins) in
  block_size uninit -> key_ready (write_key policy) key -> Forall bin_ready bins -> blen body < 2 ^ 47 ->
  key_put_command hpux uninit policy key bins gen ttl = Some (put_request policy key bins gen ttl).
Proof.
  set (ops := map (mk_binop AS_OPERATOR_WRITE) bins). intros body Hu Hk Hb Hmax.
  unfold key_put_command. rewrite key_size_ok by done. cbn [mbind option_bind].
  assert (map binop_bin ops = bins) as Eb by (unfold ops; rewrite map_map; apply map_id).
  destruct (bins_size_ok ops (30 + blen (wire_key (write_key policy) key))) as (bs & Hs & Hw); [by rewrite Eb|].
  rewrite Eb in Hs. rewrite Hs. cbn [mbind option_bind]. unfold put_request. fold ops.
  rewrite <- (write_message (uninit (30 + blen body)) 0 AS_MSG_INFO2_WRITE (write_commit policy) CONSISTENCY_ONE
    _ _ gen ttl _ _ (u16 (blen bins)) _ key _ _ Hk Hw); [|rewrite Hu by lia; done|done].
  unfold body. by rewrite length_app, Nat2Z.inj_add, Z.add_assoc.
Qed.

(** C6: [aerospike_key_put] sends the message whose header carries the bits of the
    write policy and the generation and time-to-live of the record, and whose body is
    the key and one write operation for every bin, in a block of exactly the computed
    size. *)
Theorem put_message uninit policy key bins gen ttl :
  let ops := map (mk_binop AS_OPERATOR_WRITE) bins in
  let body := wire_key (write_key policy) key ++ wire_bins ops in
  block_size uninit -> key_ready (write_key policy) key -> Forall bin_ready bins -> blen body < 2 ^ 47 ->
  key_put_command hpux uninit policy key bins gen ttl
  = Some (wire_message
      (wire_header 0 (info2_bits AS_MSG_INFO2_WRITE (write_exists policy) (write_gen policy))
         (info3_bits (write_exists policy) (write_commit policy)) (sent_gen (write_gen policy) gen) ttl
         (write_timeout policy) (n_key_fields (write_key policy)) (u16 (blen bins))) body).
Proof. apply put_command_ok. Qed.

Lemma op_attrs_bits ops r w :
  fold_left op_attrs ops (r, w)
  = (if existsb (fun op => binop_op op =? AS_OPERATOR_READ) ops then Z.lor r AS_MSG_INFO1_READ else r,
     if existsb (fun op => negb (binop_op op =? AS_OPERATOR_READ)) ops then Z.lor w AS_MSG_INFO2_WRITE else w).
Proof.
  revert r w. induction ops as [|op ops IH]; intros r w; [done|]. cbn [fold_left existsb]. unfold op_attrs at 2.
  cbn [fst snd]. destruct (binop_op op =? AS_OPERATOR_READ); cbn [negb orb]; rewrite IH.
  - destruct (existsb (fun op => binop_op op =? AS_OPERATOR_READ) ops); [|done]. by rewrite <- Z.lor_assoc.
  - destruct (existsb (fun op => negb (binop_op op =? AS_OPERATOR_READ)) ops); [|done]. by rewrite <- Z.lor_assoc.
Qed.

(** [aerospike_key_operate] sends one operation for every entry in order; the
    read bit of the header is set when some entry reads and the write bit when some
    entry does anything else. *)
Theorem operate_message policy key ops gen ttl :
  let body := wire_key (operate_key policy) key ++ wire_bins ops in
  key_ready (operate_key policy) key -> Forall bin_ready (map binop_bin ops) -> blen body < 2 ^ 47 ->
  key_operate_command hpux policy key ops gen ttl
  = Some (wire_message
      (wire_header
         (info1_bits (if existsb (fun op => binop_op op =? AS_OPERATOR_READ) ops then AS_MSG_INFO1_READ else 0)
            (operate_consistency policy))
         (info2_bits (if existsb (fun op => negb (binop_op op =? AS_OPERATOR_READ)) ops then AS_MSG_INFO2_WRITE else 0)
            EXISTS_IGNORE (operate_gen policy))
         (info3_bits EXISTS_IGNORE (operate_commit policy)) (sent_gen (operate_gen policy) gen) ttl
         (operate_timeout policy) (n_key_fields (operate_key policy)) (u16 (blen ops))) body).
Proof.
  intros body Hk Hb Hmax. unfold key_operate_command. rewrite key_size_ok by done. cbn [mbind option_bind].
  rewrite op_attrs_bits. destruct (bins_size_ok ops (30 + blen (wire_key (operate_key policy) key)) Hb) as (bs & Hs & Hw).
  rewrite Hs. cbn [mbind option_bind].
  rewrite <- (write_message (replicate (Z.to_nat (30 + blen body)) 0) _ _ _ _ EXISTS_IGNORE _ gen ttl _ _
    (u16 (blen ops)) _ key _ _ Hk Hw); [|by rewrite zeros_size by lia|done].
  unfold body. by rewrite length_app, Nat2Z.inj_add, Z.add_assoc.
Qed.

(** [aerospike_key_remove] sends the delete bit and the key only, and the
    generation it sends is 0 under every policy: the generation of the policy is not
    part of the message, also when the policy asks for it to be compared. *)
Theorem remove_message policy key :
  key_ready (remove_key policy) key -> blen (wire_key (remove_key policy) key) < 2 ^ 47 ->
  key_remove_command hpux policy key
  = Some (wire_message
      (wire_header 0 (info2_bits 3 EXISTS_IGNORE (remove_gen policy)) (info3_bits EXISTS_IGNORE (remove_commit policy))
         0 0 (remove_timeout policy) (n_key_fields (remove_key policy)) 0) (wire_key (remove_key policy) key)).
Proof.
  intros Hk Hmax. unfold key_remove_command. rewrite key_size_ok by done. cbn [mbind option_bind].
  pose proof (write_message (replicate (Z.to_nat (30 + blen (wire_key (remove_key policy) key))) 0) 0 3
    (remove_commit policy) CONSISTENCY_ONE EXISTS_IGNORE (remove_gen policy) 0 0 (remove_timeout policy)
    (n_key_fields (remove_key policy)) 0 _ key _ _ Hk writes_nil) as Hm.
  rewrite app_nil_r in Hm. rewrite zeros_size in Hm by lia. specialize (Hm eq_refl Hmax).
  change (Z.lor AS_MSG_INFO2_WRITE AS_MSG_INFO2_DELETE) with 3.
  destruct (as_command_write_header _ _ _ _ _ _ _ _ _ _ _) as [[b1 p1]|]; [|done]. cbn [mbind option_bind] in *.
  destruct (as_command_write_key _ _ _ _ _) as [[b2 p2]|]; [|done]. cbn [mbind option_bind] in *. rewrite Hm.
  by destruct (remove_gen policy).
Qed.

(** [aerospike_key_apply] sends the key followed by the names of the package and
    of the function and the serialized arguments, in a block of exactly the computed
    size; arguments that cannot be serialized are sent as an empty field. *)
Theorem apply_message uninit policy key module_ function arglist :
  let body := wire_key (apply_key policy) key ++ wire_field AS_FIELD_UDF_PACKAGE_NAME (c_str module_)
                ++ wire_field AS_FIELD_UDF_FUNCTION (c_str function) ++ wire_field AS_FIELD_UDF_ARGLIST (packed arglist) in
  block_size uninit -> key_ready (apply_key policy) key -> sendable arglist -> blen body < 2 ^ 47 ->
  key_apply_command hpux uninit policy key module_ function arglist
  = Some (wire_message
      (wire_header 0 AS_MSG_INFO2_WRITE (info3_bits EXISTS_IGNORE (apply_commit policy)) 0 0
         (apply_timeout policy) (n_key_fields (apply_key policy) + 3) 0) body).
Proof.
  intros body Hu Hk Ha Hmax. unfold key_apply_command. rewrite key_size_ok by done. cbn [mbind option_bind].
  destruct (serialize_into_ok arglist Ha) as (args & -> & Hs & Hd). cbn [mbind option_bind].
  rewrite <- (write_message (uninit (30 + blen body)) 0 AS_MSG_INFO2_WRITE (apply_commit policy) CONSISTENCY_ONE
    EXISTS_IGNORE GEN_IGNORE 0 0 _ _ 0 _ key _ _ Hk
    (writes_seq _ _ _ _ (writes_field_string AS_FIELD_UDF_PACKAGE_NAME module_)
       (writes_seq _ _ _ _ (writes_field_string AS_FIELD_UDF_FUNCTION function)
          (writes_field_buffer AS_FIELD_UDF_ARGLIST args (packed arglist) Hs Hd)))); [|by rewrite Hu by lia|done].
  replace (30 + blen (wire_key (apply_key policy) key) + as_command_string_field_size module_
             + as_command_string_field_size function + as_command_field_size (bf_size args)) with (30 + blen body).
  2:{ unfold body, as_command_string_field_size, as_command_field_size, strlen, AS_FIELD_HEADER_SIZE.
      rewrite Hs, !length_app, !wire_field_length. lia. }
  destruct (as_command_write_header _ _ _ _ _ _ _ _ _ _ _ _) as [[b1 p1]|]; [|done]. cbn [mbind option_bind].
  destruct (as_command_write_key _ _ _ _ _) as [[b2 p2]|]; [|done]. cbn [mbind option_bind].
  destruct (as_command_write_field_string b2 _ _ _) as [[b3 p3]|]; [|done]. cbn [mbind option_bind].
  by destruct (as_command_write_field_string b3 _ _ _) as [[b4 p4]|].
Qed.

(** Sending the value of a key that has none (a key made from a digest) is
    undefined behaviour in every command, whatever else the policy says: the sizing
    function dereferences the NULL pointer. *)
Theorem send_without_value uninit key rp wp op rmp ap bins ops gen ttl module_ function arglist :
  key_valuep key = None ->
  (read_key rp = KEY_SEND -> key_get_command hpux uninit rp key = None
                             /\ key_exists_command hpux uninit rp key = None
                             /\ key_select_command hpux uninit rp key [] = None)
  /\ (write_key wp = KEY_SEND -> key_put_command hpux uninit wp key bins gen ttl = None)
  /\ (operate_key op = KEY_SEND -> key_operate_command hpux op key ops gen ttl = None)
  /\ (remove_key rmp = KEY_SEND -> key_remove_command hpux rmp key = None)
  /\ (apply_key ap = KEY_SEND -> key_apply_command hpux uninit ap key module_ function arglist = None).
Proof.
  intros Hv. assert (as_command_key_size KEY_SEND key = None) as Hn.
  { unfold as_command_key_size, as_command_user_key_size. by rewrite Hv. }
  unfold key_get_command, key_exists_command, key_select_command, key_put_command, key_operate_command,
    key_remove_command, key_apply_command.
  split_and!; intros ->; rewrite Hn; done.
Qed.

Lemma c_str_idem st : c_str (c_str st) = c_str st.
Proof.
  induction st as [|c st IH]; [done|]. cbn [c_str]. destruct (c =? 0) eqn:E; [done|]. cbn [c_str]. by rewrite E, IH.
Qed.

(** A key made of a namespace, a set and an integer, string or byte value gets,
    on every platform, the hash of the set's name, the type byte and the value's bytes
    (integers big-endian); it is then ready under both key policies, and its digest is
    computed only once.  A key given by its digest keeps it.  A value of any other kind
    is refused and the key is left as it was. *)
Theorem key_digest ripemd160 ns set v key :
  (forall bs, length (ripemd160 bs) = 20%nat) ->
  as_key_cons (Some ns) (Some set) (Some v) None = Some key ->
  match v with
  | VInteger _ | VString _ | VBytes _ _ =>
      exists key', as_key_set_digest ripemd160 key = Some (AEROSPIKE_OK, key')
      /\ digest_value key' = ripemd160 (c_str set ++ (key_particle v).1 :: (key_particle v).2)
      /\ (key_ns key', key_set key', key_valuep key') = (c_str ns, c_str set, Some v)
      /\ (forall policy, key_ready policy key')
      /\ as_key_set_digest ripemd160 key' = Some (AEROSPIKE_OK, key')
  | _ => as_key_set_digest ripemd160 key = Some (AEROSPIKE_ERR_PARAM, key)
  end.
Proof.
  intros Hr Hc. unfold as_key_cons in Hc. cbn [default from_option] in Hc.
  destruct (_ && _); [|done]. cbn in Hc. injection Hc as <-.
  assert (forall x y, cf_digest_compute2 ripemd160 x y = ripemd160 (x ++ y)) as Hd.
  { intros [|c x] y; done. }
  assert (c_str (c_str set) = c_str set) as Hcc by apply c_str_idem.
  unfold as_key_set_digest. cbn [digest_init key_valuep mbind option_bind].
  destruct v as [|b|z|st|t b|l|m|h|v1 v2|]; try done; eexists; (split; [reflexivity|]);
    cbn [digest_value key_ns key_set key_valuep key_particle particle fst snd]; rewrite Hd, Hcc, ?put_be64_eq;
    (split_and!; [done|done| |done]); intros policy; (split; [apply Hr|done]).
Qed.

End WireProofs.

(** ** Examples *)

Definition sample_block (n : Z) : list Z := replicate (Z.to_nat n) 170.

Lemma sample_block_size : block_size sample_block.
Proof. intros n Hn. unfold sample_block. rewrite length_replicate. lia. Qed.

(** The key [("test", "demo", 7)]. *)
Definition sample_key : as_key :=
  mk_key [116; 101; 115; 116] [100; 101; 109; 111] (Some (VInteger 7)) true (map Z.of_nat (seq 1 20)).

Lemma sample_key_ready policy : key_ready policy sample_key.
Proof. split; [reflexivity|intros _; by eexists]. Qed.

Definition sample_bins : list as_bin :=
  [mk_bin [97] (Some (VInteger (-1))); mk_bin [98; 0; 99] (Some (VList [Some (VInteger 5)]))].

Lemma sample_bins_ready : Forall bin_ready sample_bins.
Proof.
  repeat constructor; eexists; (split; [reflexivity|]); (split; [reflexivity|]); split; cbv; intuition discriminate.
Qed.

Lemma big_x86 : false = true -> @host_endian x86_64 = BigEndian.
Proof. done. Qed.

Lemma big_ppc : true = true -> @host_endian ppc64 = BigEndian.
Proof. done. Qed.

Lemma read_commands_messages_witness :
  (let p := Build_as_policy_read 1000 KEY_SEND REPLICA_MASTER CONSISTENCY_ALL in
   @key_select_command ppc64 true sample_block p sample_key [[97]; [98; 98]; [0]; [99]]
   = Some (inr (wire_message (wire_header 65 0 0 0 0 1000 4 2)
                  (wire_key KEY_SEND sample_key ++ wire_names [[97]; [98; 98]])))).
Proof.
  intros p.
  destruct (@read_commands_messages ppc64 true big_ppc sample_block p sample_key [[97]; [98; 98]; [0]; [99]]
              sample_block_size (sample_key_ready _) ltac:(reflexivity)) as (_ & _ & ->).
  reflexivity.
Defined.

Lemma put_message_witness :
  @key_put_command x86_64 false sample_block
    (Build_as_policy_write 1000 RETRY_NONE KEY_DIGEST GEN_EQ EXISTS_CREATE COMMIT_MASTER) sample_key sample_bins 3 60
  = Some (wire_message (wire_header 0 37 2 3 60 1000 3 2)
            (wire_key KEY_DIGEST sample_key
             ++ [0; 0; 0; 13; 2; 1; 0; 1; 97; 255; 255; 255; 255; 255; 255; 255; 255]
             ++ [0; 0; 0; 7; 2; 20; 0; 1; 98; 145; 5])).
Proof.
  rewrite (@put_message x86_64 false big_x86 sample_block _ sample_key sample_bins 3 60);
    [reflexivity|apply sample_block_size|apply sample_key_ready|apply sample_bins_ready|reflexivity].
Defined.

Lemma operate_message_witness :
  @key_operate_command x86_64 false
    (Build_as_policy_operate 0 RETRY_NONE KEY_DIGEST GEN_IGNORE REPLICA_ANY CONSISTENCY_ONE COMMIT_ALL) sample_key
    [mk_binop 5 (mk_bin [97] (Some (VInteger 1))); mk_binop AS_OPERATOR_READ (mk_bin [97] (Some VNil))] 0 0
  = Some (wire_message (wire_header 1 1 0 0 0 0 3 2)
            (wire_key KEY_DIGEST sample_key ++ [0; 0; 0; 13; 5; 1; 0; 1; 97; 0; 0; 0; 0; 0; 0; 0; 1]
             ++ [0; 0; 0; 5; 1; 0; 0; 1; 97])).
Proof.
  rewrite (@operate_message x86_64 false big_x86); [reflexivity|apply sample_key_ready| |reflexivity].
  repeat constructor; eexists; (split; [reflexivity|]); (split; [reflexivity|]); split; cbv; intuition discriminate.
Defined.

Lemma remove_message_witness :
  @key_remove_command x86_64 false
    (Build_as_policy_remove 0 9 RETRY_NONE KEY_DIGEST GEN_EQ COMMIT_ALL) sample_key
  = Some (wire_message (wire_header 0 7 0 0 0 0 3 0) (wire_key KEY_DIGEST sample_key)).
Proof.
  rewrite (@remove_message x86_64 false big_x86); [reflexivity|apply sample_key_ready|reflexivity].
Defined.

Lemma apply_message_witness :
  @key_apply_command x86_64 false sample_block (Build_as_policy_apply 0 KEY_DIGEST COMMIT_ALL) sample_key
    [109] [102] (VList [Some (VRec 0)])
  = Some (wire_message (wire_header 0 1 0 0 0 0 6 0)
            (wire_key KEY_DIGEST sample_key ++ [0; 0; 0; 2; 30; 109] ++ [0; 0; 0; 2; 31; 102] ++ [0; 0; 0; 1; 32])).
Proof.
  rewrite (@apply_message x86_64 false big_x86 sample_block _ sample_key [109] [102] (VList [Some (VRec 0)]));
    [reflexivity|apply sample_block_size|apply sample_key_ready| |reflexivity].
  split; cbv; intuition discriminate.
Defined.

Lemma send_without_value_witness :
  @key_remove_command x86_64 false (Build_as_policy_remove 0 0 RETRY_NONE KEY_SEND GEN_IGNORE COMMIT_ALL)
    (mk_key [116] [] None true (replicate 20 0)) = None.
Proof.
  pose (p := Build_as_policy_read 0 KEY_SEND REPLICA_ANY CONSISTENCY_ONE).
  pose (w := Build_as_policy_write 0 RETRY_NONE KEY_SEND GEN_EQ EXISTS_IGNORE COMMIT_ALL).
  pose (o := Build_as_policy_operate 0 RETRY_NONE KEY_SEND GEN_IGNORE REPLICA_ANY CONSISTENCY_ONE COMMIT_ALL).
  pose (a := Build_as_policy_apply 0 KEY_SEND COMMIT_ALL).
  destruct (@send_without_value x86_64 false sample_block (mk_key [116] [] None true (replicate 20 0)) p w o
              (Build_as_policy_remove 0 0 RETRY_NONE KEY_SEND GEN_IGNORE COMMIT_ALL) a [] [] 0 0 [] [] VNil eq_refl)
    as (_ & _ & _ & Hr & _).
  by apply Hr.
Defined.

Lemma key_digest_witness :
  let hash (bs : list Z) := take 20 (bs ++ replicate 20 0) in
  exists key', @as_key_set_digest x86_64 hash (mk_key [116] [100; 101] (Some (VInteger 258)) false (replicate 20 0))
               = Some (AEROSPIKE_OK, key')
    /\ digest_value key' = [100; 101; 1; 0; 0; 0; 0; 0; 0; 1; 2] ++ replicate 9 0.
Proof.
  intros hash.
  destruct (@key_digest x86_64 hash [116] [100; 101] (VInteger 258)
              (mk_key [116] [100; 101] (Some (VInteger 258)) false (replicate 20 0))) as (key' & He & Hd & _).
  - intros bs. unfold hash. rewrite length_take, length_app, length_replicate. lia.
  - reflexivity.
  - exists key'. split; [exact He|]. rewrite Hd. reflexivity.
Defined.
