(* ===== verification/Socket.v ===== *)
(** * Sockets

    Models the reading and writing loops of [src/main/aerospike/as_socket.c] and
    [as_socket.h].

    The loops see the operating system as a list of turns: the clock, the answer of
    [select] and what the transfer did.  A transfer moves bytes from the stream of
    the peer or to it.  [Deep] stands for a list of turns that ran out: the loop is
    still waiting.  File [Node] creates and connects sockets. *)

From S2P Require Import Prelude ByteOrder Value Msgpack Wire.

Definition AEROSPIKE_ERR_TIMEOUT : Z := 9.
Definition AEROSPIKE_ERR_CLIENT : Z := -1.

Definition FD_SETSIZE : Z := 1024.
Definition STACK_LIMIT : Z := 16 * 1024.

Inductive errno := ETIMEDOUT | EWOULDBLOCK | EINPROGRESS | EAGAIN | EBADF | EOTHER.

(** What [read] or [write] did: up to [n] bytes moved, or an error. *)
Inductive transfer := Moved (n : Z) | Failed (e : errno).

Record turn := { now : Z; select_rv : Z; fd_isset : bool; io : transfer }.

(** The flags of the descriptor as [fcntl] reports them, whether it can change
    them, and whether a large descriptor set can be allocated. *)
Record sock := mk_sock {
  fd : Z;
  nonblocking : bool;
  setfl_ok : bool;
  fdset_ok : bool;
  incoming : list Z;
  outgoing : list Z;
  turns : list turn
}.

(** [read] and [write] move at most this many bytes in one call. *)
Definition IO_MAX : Z := 0x7ffff000.

Definition moved (n count : Z) : Z := Z.max 0 (Z.min (Z.min n count) IO_MAX).

Definition as_fdset_size (fd : Z) : Z := (fd / FD_SETSIZE + 1) * FD_SETSIZE / 8.

(** The byte of the set that [as_fd_set] changes. *)
Definition as_fd_set (fd : Z) : Z := fd / FD_SETSIZE * (FD_SETSIZE / 8) + fd mod FD_SETSIZE / 8.

Definition as_socket_deadline (getms timeout_ms : Z) : Z :=
  if negb (timeout_ms =? 0) && (timeout_ms <=? 2 ^ 31 - 1) then u64 (getms + timeout_ms) else 0.

(** [errno] says that the transfer is to be tried again. *)
Definition again (e : errno) : bool := match e with EBADF | EOTHER => false | _ => true end.

Definition with_turns (s : sock) (ts : list turn) : sock :=
  mk_sock (fd s) (nonblocking s) (setfl_ok s) (fdset_ok s) (incoming s) (outgoing s) ts.
Definition received (s : sock) (n : Z) : sock :=
  mk_sock (fd s) (nonblocking s) (setfl_ok s) (fdset_ok s) (drop (Z.to_nat n) (incoming s)) (outgoing s) (turns s).
Definition put_out (s : sock) (bs : list Z) : sock :=
  mk_sock (fd s) (nonblocking s) (setfl_ok s) (fdset_ok s) (incoming s) (outgoing s ++ bs) (turns s).
Definition set_blocking (s : sock) (b : bool) : sock :=
  mk_sock (fd s) b (setfl_ok s) (fdset_ok s) (incoming s) (outgoing s) (turns s).

(** The status, the buffer and the socket. *)
Definition sres : Type := ures (Z * list Z * sock).

(** [buf] from [pos] on receives the next bytes of the stream. *)
Fixpoint read_limit_loop (ts : list turn) (deadline buf_len : Z) (buf : list Z) (pos : Z) (s : sock) : sres :=
  match ts with
  | [] => Deep
  | t :: ts =>
      let s := with_turns s ts in
      let next buf pos s :=
        if pos <? buf_len then read_limit_loop ts deadline buf_len buf pos s else URet (AEROSPIKE_OK, buf, s) in
      if deadline <? now t then URet (AEROSPIKE_ERR_TIMEOUT, buf, s)
      else if (0 <? select_rv t) && fd_isset t then
        match io t with
        | Moved n =>
            let r_bytes := Z.min (moved n (buf_len - pos)) (blen (incoming s)) in
            if 0 <? r_bytes then
              let* buf := lift (mwrite buf pos (take (Z.to_nat r_bytes) (incoming s))) in
              next buf (pos + r_bytes) (received s r_bytes)
            else URet (AEROSPIKE_ERR_CLIENT, buf, s)
        | Failed e => if again e then next buf pos s else URet (AEROSPIKE_ERR_CLIENT, buf, s)
        end
      else if select_rv t =? 0 then next buf pos s
      else if select_rv t =? -1 then URet (AEROSPIKE_ERR_CLIENT, buf, s)
      else next buf pos s
  end.

(** Whether the descriptor set can be had. *)
Definition fdset_alloc (s : sock) : bool :=
  if STACK_LIMIT <? as_fdset_size (fd s) then fdset_ok s else true.

Definition as_socket_read_limit (s : sock) (buf : list Z) (buf_len deadline : Z) : sres :=
  if negb (nonblocking s) && negb (setfl_ok s) then URet (AEROSPIKE_ERR_CLIENT, buf, s)
  else
    let s := set_blocking s true in
    if negb (fdset_alloc s) then URet (AEROSPIKE_ERR_CLIENT, buf, s)
    else read_limit_loop (turns s) deadline buf_len buf 0 s.

Fixpoint read_forever_loop (ts : list turn) (buf_len : Z) (buf : list Z) (pos : Z) (s : sock) : sres :=
  match ts with
  | [] => Deep
  | t :: ts =>
      let s := with_turns s ts in
      let next buf pos s :=
        if pos <? buf_len then read_forever_loop ts buf_len buf pos s else URet (AEROSPIKE_OK, buf, s) in
      match io t with
      | Moved n =>
          let r_bytes := Z.min (moved n (buf_len - pos)) (blen (incoming s)) in
          if r_bytes =? 0 then URet (AEROSPIKE_ERR_CLIENT, buf, s)
          else
            let* buf := lift (mwrite buf pos (take (Z.to_nat r_bytes) (incoming s))) in
            next buf (pos + r_bytes) (received s r_bytes)
      | Failed ETIMEDOUT => next buf pos s
      | Failed _ => URet (AEROSPIKE_ERR_CLIENT, buf, s)
      end
  end.

Definition as_socket_read_forever (s : sock) (buf : list Z) (buf_len : Z) : sres :=
  if nonblocking s && negb (setfl_ok s) then URet (AEROSPIKE_ERR_CLIENT, buf, s)
  else
    let s := set_blocking s false in
    read_forever_loop (turns s) buf_len buf 0 s.

Definition as_socket_read_deadline (s : sock) (buf : list Z) (buf_len deadline : Z) : sres :=
  if negb (deadline =? 0) then as_socket_read_limit s buf buf_len deadline
  else as_socket_read_forever s buf buf_len.

(** The bytes of [buf] from [pos] on are sent. *)
Fixpoint write_limit_loop (ts : list turn) (deadline buf_len : Z) (buf : list Z) (pos : Z) (s : sock) : sres :=
  match ts with
  | [] => Deep
  | t :: ts =>
      let s := with_turns s ts in
      let next pos s :=
        if pos <? buf_len then write_limit_loop ts deadline buf_len buf pos s else URet (AEROSPIKE_OK, buf, s) in
      if deadline <? now t then URet (AEROSPIKE_ERR_TIMEOUT, buf, s)
      else if (0 <? select_rv t) && fd_isset t then
        match io t with
        | Moved n =>
            let r_bytes := moved n (buf_len - pos) in
            if 0 <? r_bytes then
              let* bytes := lift (mslice buf pos r_bytes) in
              if buf_len <=? pos + r_bytes then URet (AEROSPIKE_OK, buf, put_out s bytes)
              else next (pos + r_bytes) (put_out s bytes)
            else URet (AEROSPIKE_ERR_CLIENT, buf, s)
        | Failed e => if again e then next pos s else URet (AEROSPIKE_ERR_CLIENT, buf, s)
        end
      else if select_rv t =? 0 then next pos s
      else if select_rv t =? -1 then URet (AEROSPIKE_ERR_CLIENT, buf, s)
      else next pos s
  end.

Definition as_socket_write_limit (s : sock) (buf : list Z) (buf_len deadline : Z) : sres :=
  if negb (nonblocking s) && negb (setfl_ok s) then URet (AEROSPIKE_ERR_CLIENT, buf, s)
  else
    let s := set_blocking s true in
    if negb (fdset_alloc s) then URet (AEROSPIKE_ERR_CLIENT, buf, s)
    else write_limit_loop (turns s) deadline buf_len buf 0 s.

(** [as_socket_write_timeout] with a minute. *)
Definition as_socket_write_forever (getms : Z) (s : sock) (buf : list Z) (buf_len : Z) : sres :=
  as_socket_write_limit s buf buf_len (u64 (getms + 60000)).

Definition as_socket_write_timeout (getms : Z) (s : sock) (buf : list Z) (buf_len timeout_ms : Z) : sres :=
  if negb (timeout_ms =? 0) && (timeout_ms <=? 2 ^ 31 - 1)
  then as_socket_write_limit s buf buf_len (u64 (getms + timeout_ms))
  else as_socket_write_forever getms s buf buf_len.

Definition as_socket_read_timeout (getms : Z) (s : sock) (buf : list Z) (buf_len timeout_ms : Z) : sres :=
  if negb (timeout_ms =? 0) && (timeout_ms <=? 2 ^ 31 - 1)
  then as_socket_read_limit s buf buf_len (u64 (getms + timeout_ms))
  else as_socket_read_forever s buf buf_len.

Definition as_socket_write_deadline (getms : Z) (s : sock) (buf : list Z) (buf_len deadline : Z) : sres :=
  if negb (deadline =? 0) then as_socket_write_limit s buf buf_len deadline
  else as_socket_write_forever getms s buf buf_len.

(** ** Descriptor sets *)

(** The byte of a descriptor lies inside its set, however large the descriptor. *)
Lemma fd_set_inside fd : 0 <= fd -> 0 <= as_fd_set fd < as_fdset_size fd.
Proof.
  intros Hfd. unfold as_fd_set, as_fdset_size, FD_SETSIZE.
  change (1024 / 8) with 128. replace ((fd / 1024 + 1) * 1024 / 8) with ((fd / 1024 + 1) * 128)
    by (replace ((fd / 1024 + 1) * 1024) with ((fd / 1024 + 1) * 128 * 8) by lia; by rewrite Z.div_mul).
  pose proof (Z.mod_pos_bound fd 1024 ltac:(lia)). pose proof (Z.div_pos fd 1024 Hfd ltac:(lia)).
  assert (0 <= fd mod 1024 / 8 < 128) by (split; [apply Z.div_pos; lia|apply Z.div_lt_upper_bound; lia]). lia.
Qed.

(** ** Reading *)

(** The buffer when the first [k] bytes of the stream have arrived. *)
Definition got (inc buf : list Z) (k : Z) : list Z := take (Z.to_nat k) inc ++ drop (Z.to_nat k) buf.

Lemma got_more inc buf pos r :
  0 <= pos -> 0 <= r -> pos + r <= blen inc -> pos + r <= blen buf ->
  mwrite (got inc buf pos) pos (take (Z.to_nat r) (drop (Z.to_nat pos) inc)) = Some (got inc buf (pos + r)).
Proof.
  intros H0 Hr Hi Hb. unfold got.
  rewrite <- (take_drop (Z.to_nat r) (drop (Z.to_nat pos) buf)) at 1. rewrite drop_drop.
  rewrite mwrite_at; [|rewrite length_take; lia|rewrite !length_take, !length_drop; lia].
  rewrite app_assoc, take_take_drop. do 3 f_equal; lia.
Qed.

(** What every run of a reading loop has done: [k] bytes of the stream are in the
    buffer and gone from the stream; with success, all that were asked for. *)
Definition read_upto (inc buf : list Z) (n lo : Z) (r : sres) (waiting : Prop) : Prop :=
  match r with
  | URet (st, buf', s') => exists k, lo <= k <= n /\ k <= blen inc /\ buf' = got inc buf k
      /\ incoming s' = drop (Z.to_nat k) inc
      /\ (st = AEROSPIKE_OK /\ k = n \/ (st = AEROSPIKE_ERR_TIMEOUT \/ st = AEROSPIKE_ERR_CLIENT) /\ k < n)
  | UB => False
  | Deep => waiting
  end.

Lemma read_upto_mono inc buf n lo lo' r (W W' : Prop) :
  lo' <= lo -> (W -> W') -> read_upto inc buf n lo r W -> read_upto inc buf n lo' r W'.
Proof.
  intros Hlo HW. destruct r as [[[st buf'] s']| |]; [|done..]. intros (k & Hk & Hrest). exists k. split; [lia|done].
Qed.

Lemma moved_range n count : 0 <= count -> 0 <= moved n count <= count.
Proof. unfold moved, IO_MAX. lia. Qed.

Section Reads.
Context (inc buf : list Z) (n : Z) (Hn : n <= blen buf).

(** Stopping early. *)
Lemma read_stops pos st s (W : Prop) :
  0 <= pos < n -> pos <= blen inc -> incoming s = drop (Z.to_nat pos) inc ->
  st = AEROSPIKE_ERR_TIMEOUT \/ st = AEROSPIKE_ERR_CLIENT ->
  read_upto inc buf n pos (URet (st, got inc buf pos, s)) W.
Proof. intros Hp Hi Hs Hst. exists pos. split_and!; (done || lia || by right). Qed.

Lemma read_limit_loop_ok ts deadline pos s :
  0 <= pos < n -> pos <= blen inc -> incoming s = drop (Z.to_nat pos) inc ->
  read_upto inc buf n pos (read_limit_loop ts deadline n (got inc buf pos) pos s)
    (Forall (fun t => now t <= deadline) ts).
Proof.
  revert pos s. induction ts as [|t ts IH]; intros pos s Hp Hi Hs; [constructor|]. cbn [read_limit_loop].
  destruct (Z.ltb_spec deadline (now t)) as [|Hnow]; [apply read_stops; by auto|].
  assert (forall s', incoming s' = drop (Z.to_nat pos) inc ->
    read_upto inc buf n pos (if pos <? n then read_limit_loop ts deadline n (got inc buf pos) pos s'
      else URet (AEROSPIKE_OK, got inc buf pos, s')) (Forall (fun t => now t <= deadline) (t :: ts))) as Hnext.
  { intros s' Hs'. destruct (Z.ltb_spec pos n); [|lia]. eapply read_upto_mono; [reflexivity| |by apply IH].
    intros HF. by constructor. }
  destruct ((0 <? select_rv t) && fd_isset t).
  - destruct (io t) as [m|e].
    + cbn [with_turns incoming]. set (r := Z.min _ _). destruct (Z.ltb_spec 0 r) as [Hr|]; [|apply read_stops; by auto].
      pose proof (moved_range m (n - pos) ltac:(lia)) as Hm. rewrite Hs.
      assert (pos + r <= n /\ pos + r <= blen inc) as [Hrn Hri].
      { split; [lia|]. unfold r. rewrite Hs, length_drop. lia. }
      rewrite got_more by lia. cbn [lift ubind].
      assert (incoming (received (with_turns s ts) r) = drop (Z.to_nat (pos + r)) inc) as Hinc.
      { cbn [received with_turns incoming]. rewrite Hs, drop_drop. f_equal. lia. }
      destruct (Z.ltb_spec (pos + r) n).
      * eapply read_upto_mono; [| |apply IH; [lia|lia|exact Hinc]]; [lia|]. intros HF. by constructor.
      * exists (pos + r). split_and!; (done || lia || by left; split; [|lia]).
    + destruct (again e); [by apply Hnext|apply read_stops; by auto].
  - destruct (select_rv t =? 0); [by apply Hnext|].
    destruct (select_rv t =? -1); [apply read_stops; by auto|by apply Hnext].
Qed.

Lemma read_forever_loop_ok ts pos s :
  0 <= pos < n -> pos <= blen inc -> incoming s = drop (Z.to_nat pos) inc ->
  read_upto inc buf n pos (read_forever_loop ts n (got inc buf pos) pos s) True.
Proof.
  revert pos s. induction ts as [|t ts IH]; intros pos s Hp Hi Hs; [done|]. cbn [read_forever_loop].
  destruct (io t) as [m|e].
  - cbn [with_turns incoming]. set (r := Z.min _ _). destruct (Z.eqb_spec r 0) as [|Hr]; [apply read_stops; by auto|].
    pose proof (moved_range m (n - pos) ltac:(lia)) as Hm. rewrite Hs.
    assert (0 <= r /\ pos + r <= n /\ pos + r <= blen inc) as (Hr0 & Hrn & Hri).
    { unfold r. rewrite Hs, length_drop. lia. }
    rewrite got_more by lia. cbn [lift ubind].
    assert (incoming (received (with_turns s ts) r) = drop (Z.to_nat (pos + r)) inc) as Hinc.
    { cbn [received with_turns incoming]. rewrite Hs, drop_drop. f_equal. lia. }
    destruct (Z.ltb_spec (pos + r) n).
    + eapply read_upto_mono; [| |apply IH; [lia|lia|exact Hinc]]; [lia|done].
    + exists (pos + r). split_and!; (done || lia || by left; split; [|lia]).
  - destruct e; try (apply read_stops; by auto). destruct (Z.ltb_spec pos n); [by apply IH|lia].
Qed.

End Reads.

(** A turn in which the peer delivers in time. *)
Definition prompt (deadline : Z) (t : turn) : Prop :=
  now t <= deadline /\ 0 < select_rv t /\ fd_isset t = true /\ exists m, io t = Moved m /\ 1 <= m.

Lemma read_limit_loop_prompt inc buf n ts deadline pos s :
  n <= blen buf -> n <= blen inc -> 0 <= pos < n -> incoming s = drop (Z.to_nat pos) inc ->
  Forall (prompt deadline) ts -> n - pos <= blen ts ->
  exists buf' s', read_limit_loop ts deadline n (got inc buf pos) pos s = URet (AEROSPIKE_OK, buf', s').
Proof.
  intros Hb Hi. revert pos s. induction ts as [|t ts IH]; intros pos s Hp Hs Ht Hl; [simpl in Hl; lia|].
  apply Forall_cons in Ht as [(Hnow & Hrv & Hset & m & Hio & Hm) Ht]. cbn [read_limit_loop].
  destruct (Z.ltb_spec deadline (now t)); [lia|]. destruct (Z.ltb_spec 0 (select_rv t)); [|lia].
  rewrite Hset, Hio. cbn [andb with_turns incoming]. set (r := Z.min _ _).
  assert (0 < r <= n - pos) as Hr by (unfold r, moved, IO_MAX; rewrite Hs, length_drop; lia).
  destruct (Z.ltb_spec 0 r); [|lia]. rewrite Hs, got_more by lia. cbn [lift ubind].
  destruct (Z.ltb_spec (pos + r) n); [|by eexists _, _]. rewrite length_cons in Hl. apply IH; [lia| |done|lia].
  cbn [received with_turns incoming]. rewrite Hs, drop_drop. f_equal. lia.
Qed.

(** Whether the descriptor can be put into the mode the call needs. *)
Definition usable (s : sock) : Prop := (nonblocking s = true \/ setfl_ok s = true) /\ fdset_alloc s = true.

Lemma got_0 inc buf : got inc buf 0 = buf.
Proof. done. Qed.

Lemma read_limit_ok s buf n deadline :
  0 < n <= blen buf ->
  read_upto (incoming s) buf n 0 (as_socket_read_limit s buf n deadline) (Forall (fun t => now t <= deadline) (turns s)).
Proof.
  intros Hn. unfold as_socket_read_limit.
  destruct (negb (nonblocking s) && negb (setfl_ok s)); [apply (read_stops _ _ _ 0); by auto with lia|].
  destruct (negb (fdset_alloc _)); [apply (read_stops _ _ _ 0); by auto with lia|].
  apply (read_limit_loop_ok (incoming s) buf n ltac:(lia) _ _ 0); by auto with lia.
Qed.

Lemma read_forever_ok s buf n :
  0 < n <= blen buf -> read_upto (incoming s) buf n 0 (as_socket_read_forever s buf n) True.
Proof.
  intros Hn. unfold as_socket_read_forever.
  destruct (nonblocking s && negb (setfl_ok s)); [apply (read_stops _ _ _ 0); by auto with lia|].
  apply (read_forever_loop_ok (incoming s) buf n ltac:(lia) _ 0); by auto with lia.
Qed.

Lemma read_deadline_ok s buf n deadline :
  0 < n <= blen buf ->
  read_upto (incoming s) buf n 0 (as_socket_read_deadline s buf n deadline)
    (deadline <> 0 -> Forall (fun t => now t <= deadline) (turns s)).
Proof.
  intros Hn. unfold as_socket_read_deadline. destruct (Z.eqb_spec deadline 0) as [->|Hd]; cbn [negb].
  - eapply read_upto_mono; [reflexivity| |by apply read_forever_ok]. done.
  - eapply read_upto_mono; [reflexivity| |by apply read_limit_ok]. done.
Qed.

(** C31: Reading from a socket never overruns the buffer, whatever the operating
    system answers: the buffer receives the first bytes of the stream in order, those
    bytes and no others are taken from the stream, and success means that all of them
    came.  A read with a deadline or a timeout that is still waiting has not seen the
    clock past it, so it ends when the clock gets there. *)
Theorem socket_read getms s buf n deadline timeout_ms :
  0 < n <= blen buf ->
  read_upto (incoming s) buf n 0 (as_socket_read_deadline s buf n deadline)
    (deadline <> 0 -> Forall (fun t => now t <= deadline) (turns s))
  /\ read_upto (incoming s) buf n 0 (as_socket_read_timeout getms s buf n timeout_ms)
       (0 < timeout_ms < 2 ^ 31 -> Forall (fun t => now t <= u64 (getms + timeout_ms)) (turns s)).
Proof.
  intros Hn. split; [by apply read_deadline_ok|]. unfold as_socket_read_timeout.
  destruct (negb (timeout_ms =? 0) && (timeout_ms <=? 2 ^ 31 - 1)) eqn:E.
  - eapply read_upto_mono; [reflexivity| |by apply read_limit_ok]. done.
  - eapply read_upto_mono; [reflexivity| |by apply read_forever_ok]. intros _ Ht.
    destruct (Z.eqb_spec timeout_ms 0); [lia|]. destruct (Z.leb_spec timeout_ms (2 ^ 31 - 1)); [done|lia].
Qed.

(** A peer that delivers at least one byte in every turn before the deadline is
    read to the end: the call succeeds within as many turns as there are bytes. *)
Theorem socket_read_completes s buf n deadline :
  0 < n <= blen buf -> n <= blen (incoming s) -> deadline <> 0 -> usable s ->
  Forall (prompt deadline) (turns s) -> n <= blen (turns s) ->
  exists s', as_socket_read_deadline s buf n deadline
             = URet (AEROSPIKE_OK, take (Z.to_nat n) (incoming s) ++ drop (Z.to_nat n) buf, s')
    /\ incoming s' = drop (Z.to_nat n) (incoming s).
Proof.
  intros Hn Hi Hd [Hu Hf] Ht Hl. unfold as_socket_read_deadline, as_socket_read_limit.
  destruct (Z.eqb_spec deadline 0); [done|]. cbn [negb].
  replace (negb (nonblocking s) && negb (setfl_ok s)) with false
    by (destruct Hu as [->| ->]; [done|by rewrite andb_false_r]).
  replace (fdset_alloc (set_blocking s true)) with true by done. cbn [negb].
  destruct (read_limit_loop_prompt (incoming s) buf n (turns s) deadline 0 (set_blocking s true))
    as (buf' & s' & He); [lia|lia|lia|done|done|lia|].
  pose proof (read_limit_loop_ok (incoming s) buf n ltac:(lia) (turns s) deadline 0 (set_blocking s true)) as Hok.
  rewrite got_0 in *. change (turns (set_blocking s true)) with (turns s). rewrite He in *.
  destruct Hok as (k & Hk & _ & -> & Hs & [[_ ->]|[[?|?] _]]); [lia|lia|done| |done|done].
  by exists s'.
Qed.

(** ** Writing *)

(** [k] bytes of the buffer, in order, have gone to the peer. *)
Definition wrote_upto (out buf : list Z) (n lo : Z) (r : sres) (waiting : Prop) : Prop :=
  match r with
  | URet (st, buf', s') => buf' = buf /\ exists k, lo <= k <= n /\ outgoing s' = out ++ take (Z.to_nat k) buf
      /\ (st = AEROSPIKE_OK /\ k = n \/ (st = AEROSPIKE_ERR_TIMEOUT \/ st = AEROSPIKE_ERR_CLIENT) /\ k < n)
  | UB => False
  | Deep => waiting
  end.

Lemma wrote_upto_mono out buf n lo lo' r (W W' : Prop) :
  lo' <= lo -> (W -> W') -> wrote_upto out buf n lo r W -> wrote_upto out buf n lo' r W'.
Proof.
  intros Hlo HW. destruct r as [[[st buf'] s']| |]; [|done..]. intros (Hb & k & Hk & Hrest).
  split; [done|]. exists k. split; [lia|done].
Qed.

Lemma write_stops out buf n pos st s (W : Prop) :
  0 <= pos < n -> outgoing s = out ++ take (Z.to_nat pos) buf ->
  st = AEROSPIKE_ERR_TIMEOUT \/ st = AEROSPIKE_ERR_CLIENT ->
  wrote_upto out buf n pos (URet (st, buf, s)) W.
Proof. intros Hp Hs Hst. split; [done|]. exists pos. split_and!; (done || lia || by right). Qed.

Lemma write_limit_loop_ok out buf n ts deadline pos s :
  n <= blen buf -> 0 <= pos < n -> outgoing s = out ++ take (Z.to_nat pos) buf ->
  wrote_upto out buf n pos (write_limit_loop ts deadline n buf pos s) (Forall (fun t => now t <= deadline) ts).
Proof.
  intros Hn. revert pos s. induction ts as [|t ts IH]; intros pos s Hp Hs; [constructor|]. cbn [write_limit_loop].
  destruct (Z.ltb_spec deadline (now t)) as [|Hnow]; [apply write_stops; by auto|].
  assert (forall s', outgoing s' = out ++ take (Z.to_nat pos) buf ->
    wrote_upto out buf n pos (if pos <? n then write_limit_loop ts deadline n buf pos s'
      else URet (AEROSPIKE_OK, buf, s')) (Forall (fun t => now t <= deadline) (t :: ts))) as Hnext.
  { intros s' Hs'. destruct (Z.ltb_spec pos n); [|lia]. eapply wrote_upto_mono; [reflexivity| |by apply IH].
    intros HF. by constructor. }
  destruct ((0 <? select_rv t) && fd_isset t).
  - destruct (io t) as [m|e]; [|destruct (again e); [by apply Hnext|apply write_stops; by auto]].
    pose proof (moved_range m (n - pos) ltac:(lia)) as Hm. set (r := moved m (n - pos)) in *.
    destruct (Z.ltb_spec 0 r) as [Hr|]; [|apply write_stops; by auto].
    unfold mslice. rewrite decide_True by lia. cbn [lift ubind].
    assert (outgoing (put_out (with_turns s ts) (take (Z.to_nat r) (drop (Z.to_nat pos) buf)))
            = out ++ take (Z.to_nat (pos + r)) buf) as Ho.
    { cbn [put_out with_turns outgoing]. rewrite Hs, <- app_assoc, take_take_drop. do 2 f_equal. lia. }
    destruct (Z.leb_spec n (pos + r)).
    + split; [done|]. exists (pos + r). split_and!; (done || lia || by left; split; [|lia]).
    + destruct (Z.ltb_spec (pos + r) n); [|lia].
      eapply wrote_upto_mono; [| |apply IH; [lia|exact Ho]]; [lia|]. intros HF. by constructor.
  - destruct (select_rv t =? 0); [by apply Hnext|].
    destruct (select_rv t =? -1); [apply write_stops; by auto|by apply Hnext].
Qed.

(** The deadline a write works with: a minute from now when none is given. *)
Definition write_deadline (getms deadline : Z) : Z := if deadline =? 0 then u64 (getms + 60000) else deadline.

(** Writing to a socket sends the bytes of the buffer once and in order: the peer
    gets a prefix of them, on success all of them, and the buffer is only read.  A write
    that is still waiting has not seen the clock past its deadline, or past one minute
    when it was given none. *)
Theorem socket_write getms s buf n deadline :
  0 < n <= blen buf ->
  wrote_upto (outgoing s) buf n 0 (as_socket_write_deadline getms s buf n deadline)
    (Forall (fun t => now t <= write_deadline getms deadline) (turns s)).
Proof.
  intros Hn. unfold as_socket_write_deadline, as_socket_write_forever, write_deadline.
  assert (forall d, wrote_upto (outgoing s) buf n 0 (as_socket_write_limit s buf n d)
            (Forall (fun t => now t <= d) (turns s))) as Hl.
  { intros d. assert (outgoing s = outgoing s ++ take (Z.to_nat 0) buf) as He by (by rewrite app_nil_r).
    unfold as_socket_write_limit.
    destruct (negb (nonblocking s) && negb (setfl_ok s)); [apply write_stops; by auto with lia|].
    destruct (negb (fdset_alloc _)); [apply write_stops; by auto with lia|].
    apply write_limit_loop_ok; by auto with lia. }
  destruct (deadline =? 0); apply Hl.
Qed.

(** ** Examples *)

(** A peer that sends five bytes, two at a time, with a pause. *)
Definition sample_sock : sock :=
  mk_sock 2000 false true true [1; 2; 3; 4; 5] []
    [{| now := 10; select_rv := 1; fd_isset := true; io := Moved 2 |};
     {| now := 11; select_rv := 0; fd_isset := false; io := Moved 0 |};
     {| now := 12; select_rv := 1; fd_isset := true; io := Failed EAGAIN |};
     {| now := 13; select_rv := 1; fd_isset := true; io := Moved 2 |}].

Lemma socket_read_witness :
  read_upto [1; 2; 3; 4; 5] [0; 0; 0; 0] 3 0 (as_socket_read_deadline sample_sock [0; 0; 0; 0] 3 20)
    (20 <> 0 -> Forall (fun t => now t <= 20) (turns sample_sock))
  /\ exists s, as_socket_read_deadline sample_sock [0; 0; 0; 0] 3 20 = URet (0, [1; 2; 3; 0], s).
Proof.
  split; [apply (socket_read 0 sample_sock [0; 0; 0; 0] 3 20 0); simpl; lia|].
  eexists. reflexivity.
Defined.

Definition prompt_sock : sock :=
  mk_sock 3 true true true [1; 2; 3] []
    (repeat {| now := 10; select_rv := 1; fd_isset := true; io := Moved 2 |} 3).

Lemma socket_read_completes_witness :
  exists s', as_socket_read_deadline prompt_sock [0; 0; 0] 3 20 = URet (AEROSPIKE_OK, [1; 2; 3], s')
    /\ incoming s' = [].
Proof.
  apply (socket_read_completes prompt_sock [0; 0; 0] 3 20); [simpl; lia|simpl; lia|lia| | |simpl; lia].
  - split; [by left|reflexivity].
  - repeat constructor; try (simpl; lia). all: exists 2; split; [reflexivity|lia].
Defined.

Lemma socket_write_witness :
  wrote_upto [] [7; 8; 9] 3 0 (as_socket_write_deadline 0 sample_sock [7; 8; 9] 3 20)
    (Forall (fun t => now t <= 20) (turns sample_sock))
  /\ exists s, as_socket_write_deadline 0 sample_sock [7; 8; 9] 3 20 = URet (0, [7; 8; 9], s)
       /\ outgoing s = [7; 8; 9].
Proof.
  split; [apply (socket_write 0 sample_sock [7; 8; 9] 3 20); simpl; lia|].
  eexists. split; reflexivity.
Defined.
