(* ===== verification/Parse.v ===== *)
(** * The answers of the server

    Models the parsing half of [src/main/aerospike/as_command.c]: the headers read
    from the socket, the fields of a key, the operations that carry bins, results of
    UDFs, and the record that is filled with them.

    Parsers read through a pointer into the received block; the pointer is an offset
    and every access is checked.  A connection is anything that answers reads the way
    [Reader] promises; the socket of the file [Socket] does.  [Deep] stands for a
    read still waiting or for recursion deeper than [fuel].  Allocations succeed,
    except those of 2^63 bytes and more, which [malloc] always refuses. *)

From S2P Require Import Prelude ByteOrder Value Msgpack Roundtrip Wire Socket.

Definition AEROSPIKE_ERR_RECORD_NOT_FOUND : Z := 2.
Definition AEROSPIKE_ERR_UDF : Z := 100.
Definition AEROSPIKE_ERR_LARGE_ITEM_NOT_FOUND : Z := 125.

(** ** Connections *)

(** Reading [n] bytes: a status, the bytes and the connection.  On success the bytes
    are the next ones of the stream. *)
Class Reader (C : Type) := {
  rd : C -> Z -> ures (Z * list Z * C);
  pending : C -> list Z;
  rd_exact c n : 0 < n ->
    match rd c n with
    | URet (st, bs, c') => blen bs = n /\ (st = AEROSPIKE_OK ->
        bs = take (Z.to_nat n) (pending c) /\ n <= blen (pending c) /\ pending c' = drop (Z.to_nat n) (pending c))
    | UB => False
    | Deep => True
    end
}.

(** ** Errors and records *)

Inductive message :=
  | MNone
  | MString (code : Z)
  | MText (s : list Z)
  | MSocket
  | MUnexpectedData (size : Z)
  | MNullFailure
  | MExpectedString (type : Z)
  | MNoBin
  | MInvalidKey (type : Z)
  | MBinTooLong
  | MZeroSized
  | MEmptyCluster
  | MOtherNamespace
  | MInvalidNode (name : list Z)
  | MNoNode
  | MNoConnection (node : list Z)
  | MScopedPrivilege
  | MStreamFailed (status : Z) (value : option as_val)
  | MClientTimeout (timeout iterations failed_nodes failed_conns : Z).

Record as_error := mk_error { err_code : Z; err_message : message }.

Definition no_error : as_error := mk_error AEROSPIKE_OK MNone.

(** The error of a failed transfer: a timeout only sets the code. *)
Definition socket_error (err : as_error) (status : Z) : as_error :=
  mk_error status (if status =? AEROSPIKE_ERR_TIMEOUT then err_message err else MSocket).

(** [Some (entries)] has the length of the allocated array. *)
Record as_record := mk_record {
  rec_key : as_key;
  rec_gen : Z;
  rec_ttl : Z;
  bins_free : bool;
  bins_capacity : Z;
  bins_size : Z;
  bins_entries : list as_bin
}.

Definition SUCCESS : list Z := [83; 85; 67; 67; 69; 83; 83].
Definition FAILURE : list Z := [70; 65; 73; 76; 85; 82; 69].

(** The two branches of [cf_server_void_time_to_ttl]; [now] is the clock. *)
Definition cf_server_void_time_to_ttl (now server_void_time : Z) : Z :=
  if server_void_time =? 0 then u32 (-1)
  else if now <? server_void_time then u32 (server_void_time - now) else 1.

(** [strrchr(s, c)]: what follows the last [c]. *)
Fixpoint strrchr (s : list Z) (c : Z) : option (list Z) :=
  match s with
  | [] => None
  | x :: s => match strrchr s c with
              | Some r => Some r
              | None => if x =? c then Some (x :: s) else None
              end
  end.

Definition is_digit (c : Z) : bool := (48 <=? c) && (c <=? 57).
Definition is_space (c : Z) : bool := (c =? 32) || ((9 <=? c) && (c <=? 13)).

Fixpoint atoi_digits (s : list Z) (acc : Z) : Z :=
  match s with
  | c :: s => if is_digit c then atoi_digits s (10 * acc + (c - 48)) else acc
  | [] => acc
  end.

Fixpoint skip_spaces (s : list Z) : list Z :=
  match s with
  | c :: s' => if is_space c then skip_spaces s' else s
  | [] => []
  end.

(** [None] when the number does not fit an [int]. *)
Definition atoi (s : list Z) : option Z :=
  let s := skip_spaces s in
  let z := match s with
           | c :: s' => if c =? 45 then - atoi_digits s' 0
                        else if c =? 43 then atoi_digits s' 0 else atoi_digits s 0
           | [] => 0
           end in
  if decide (- 2 ^ 31 <= z < 2 ^ 31) then Some z else None.

Section Parse.
Context `{Platform} `{Reader C}.
Context (fuel : nat).

(** The clock, in seconds of the server's epoch. *)
Context (clepoch : Z).

(** What a new array of [n] bins holds. *)
Context (uninit_bins : Z -> list as_bin).

(** ** Pieces of a message *)

(** The positive branch: at most seven bytes. *)
Definition be_loop (bytes : list Z) : Z := fold_left (fun v b => Z.lor (Z.shiftl v 8) b) bytes 0.

(** The status and the value, when it is set.  A negative number of fewer than eight
    bytes is copied behind its sign bytes, but the eight bytes that are then read are
    those at [buf]. *)
Definition as_command_bytes_to_int (buf : list Z) (p sz : Z) : option (Z * option Z) :=
  if sz =? 8 then l ← mslice buf p 8; Some (0, Some (i64 (get_be64 host_endian l)))
  else if sz =? 0 then Some (0, Some 0)
  else if 8 <? sz then Some (-1, None)
  else
    b ← mread buf p;
    if (sz =? 1) && (b <? 0x7f) then Some (0, Some b)
    else if negb (Z.land b 0x80 =? 0) then
      _ ← mslice buf p sz;
      l ← mslice buf p 8; Some (0, Some (i64 (get_be64 host_endian l)))
    else bytes ← (if sz <? 0 then Some [] else mslice buf p sz); Some (0, Some (be_loop bytes)).

Definition load_be32 (buf : list Z) (p : Z) : option Z :=
  l ← mslice buf p 4; Some (get_be32 host_endian l).

Fixpoint ignore_fields_loop (n : nat) (buf : list Z) (p : Z) : option Z :=
  match n with
  | O => Some p
  | S n => len ← load_be32 buf p; ignore_fields_loop n buf (p + u32 (len + 4))
  end.

Definition as_command_ignore_fields (buf : list Z) (p n_fields : Z) : option Z :=
  ignore_fields_loop (Z.to_nat n_fields) buf p.

Definition set_value (key : as_key) (v : as_val) : as_key :=
  mk_key (key_ns key) (key_set key) (Some v) (digest_init key) (digest_value key).

(** The [switch] on the type of a user key of [len] bytes at [p]. *)
Definition parse_key_value (buf : list Z) (p type len : Z) (key : as_key) : option as_key :=
  if type =? AS_BYTES_INTEGER then
    '(rc, v) ← as_command_bytes_to_int buf p (i32 len);
    Some match v with
         | Some v => if rc =? 0 then set_value key (VInteger v) else key
         | None => key
         end
  else if type =? AS_BYTES_STRING then s ← mslice buf p len; Some (set_value key (VString s))
  else if type =? AS_BYTES_BLOB then b ← mslice buf p len; Some (set_value key (VBytes AS_BYTES_BLOB b))
  else Some key.

(** One field: the key, and the pointer behind the field. *)
Definition parse_key_field (buf : list Z) (p : Z) (key : as_key) : option (as_key * Z) :=
  len ← load_be32 buf p;
  let len := u32 (len - 1) in
  let p := p + 4 in
  id ← mread buf p;
  let p := p + 1 in
  if id =? AS_FIELD_DIGEST then
    bytes ← mslice buf p (Z.min len AS_DIGEST_VALUE_SIZE);
    digest ← mwrite (digest_value key) 0 bytes;
    Some (mk_key (key_ns key) (key_set key) (key_valuep key) (digest_init key) digest, p + len)
  else if id =? AS_FIELD_NAMESPACE then
    bytes ← mslice buf p (Z.min len (AS_NAMESPACE_MAX_SIZE - 1));
    Some (mk_key (c_str bytes) (key_set key) (key_valuep key) (digest_init key) (digest_value key), p + len)
  else if id =? AS_FIELD_SETNAME then
    bytes ← mslice buf p (Z.min len (AS_SET_MAX_SIZE - 1));
    Some (mk_key (key_ns key) (c_str bytes) (key_valuep key) (digest_init key) (digest_value key), p + len)
  else if id =? AS_FIELD_KEY then
    let len := u32 (len - 1) in
    type ← mread buf p;
    let p := p + 1 in
    key ← parse_key_value buf p type len key;
    Some (key, p + len)
  else Some (key, p + len).

Fixpoint parse_key_loop (n : nat) (buf : list Z) (p : Z) (key : as_key) : option (as_key * Z) :=
  match n with
  | O => Some (key, p)
  | S n => '(key, p) ← parse_key_field buf p key; parse_key_loop n buf p key
  end.

Definition as_command_parse_key (buf : list Z) (p n_fields : Z) (key : as_key) : option (as_key * Z) :=
  parse_key_loop (Z.to_nat n_fields) buf p key.

(** The unpacker works on the block of the message, from [p] on. *)
Definition deserialize_at (buf : list Z) (p : Z) : ures (option as_val) :=
  let* (_, v, _) := as_unpack_val buf fuel p in URet v.

(** [None] when the value was not set. *)
Definition as_command_parse_value (buf : list Z) (p type value_size : Z) : ures (option as_val) :=
  if type =? AS_BYTES_UNDEF then URet (Some VNil)
  else if type =? AS_BYTES_INTEGER then
    let* (_, v) := lift (as_command_bytes_to_int buf p (i32 value_size)) in
    URet (Some (VInteger (default 0 v)))
  else if type =? AS_BYTES_STRING then
    let* s := lift (mslice buf p value_size) in URet (Some (VString s))
  else if (type =? AS_BYTES_LIST) || (type =? AS_BYTES_MAP) then deserialize_at buf p
  else let* b := lift (mslice buf p value_size) in URet (Some (VBytes AS_BYTES_BLOB b)).

(** The front of an operation: the type, the name, the pointer to the value and the
    size of the value. *)
Definition parse_op (buf : list Z) (p : Z) : option (Z * list Z * Z * Z) :=
  op_size ← load_be32 buf p;
  type ← mread buf (p + 5);
  name_size ← mread buf (p + 7);
  let name_len := if name_size <=? AS_BIN_NAME_MAX_LEN then name_size else AS_BIN_NAME_MAX_LEN in
  name ← mslice buf (p + 8) name_len;
  Some (type, c_str name, p + 8 + name_size, u32 (op_size - (name_size + 4))).

(** ** Results of UDFs *)

(** The pointer behind the bin, NULL when there is no value. *)
Fixpoint success_failure_loop (n : nat) (buf : list Z) (p : Z) (err : as_error) (value : option (option as_val))
  : ures (option Z * as_error * option (option as_val)) :=
  match n with
  | O => URet (None, mk_error AEROSPIKE_ERR_CLIENT MNoBin, value)
  | S n =>
      let* (type, name, p, value_size) := lift (parse_op buf p) in
      if decide (name = SUCCESS) then
        match value with
        | Some old =>
            let* v := as_command_parse_value buf p type value_size in
            URet (Some (p + value_size), err, Some (match v with Some v => Some v | None => old end))
        | None => URet (Some (p + value_size), err, None)
        end
      else if decide (name = FAILURE) then
        let* v := as_command_parse_value buf p type value_size in
        URet (None, mk_error AEROSPIKE_ERR_CLIENT
                match v with
                | None => MNullFailure
                | Some (VString s) => MText (c_str s)
                | Some v => MExpectedString (as_val_type v)
                end, value)
      else success_failure_loop n buf (p + value_size) err value
  end.

(** The pointer, the error and what [value] points to; [None] for a NULL [value]. *)
Definition as_command_parse_success_failure_bins (buf : list Z) (p : Z) (err : as_error) (msg : as_msg)
    (value : option (option as_val)) : ures (option Z * as_error * option (option as_val)) :=
  let* p := lift (as_command_ignore_fields buf p (n_fields msg)) in
  success_failure_loop (Z.to_nat (n_ops msg)) buf p err value.

(** The status and the error. *)
Definition as_command_parse_udf_error (status : Z) (val : option as_val) : option (Z * as_error) :=
  match val with
  | Some (VString s) =>
      let begin := c_str s in
      code ← match strrchr begin 58 with
             | Some p => match strrchr (drop 1 p) 58 with
                         | Some p => atoi (drop 1 p)
                         | None => Some 0
                         end
             | None => Some 0
             end;
      if 0 <? code then Some (code, mk_error code (MText begin)) else Some (status, mk_error status (MText begin))
  | _ => Some (status, mk_error status (MString status))
  end.

Fixpoint udf_failure_loop (n : nat) (buf : list Z) (p status : Z) : ures (Z * as_error) :=
  match n with
  | O => URet (status, mk_error status (MString status))
  | S n =>
      let* (type, name, p, value_size) := lift (parse_op buf p) in
      if decide (name = FAILURE) then
        let* v := as_command_parse_value buf p type value_size in lift (as_command_parse_udf_error status v)
      else udf_failure_loop n buf (p + value_size) status
  end.

Definition as_command_parse_udf_failure (buf : list Z) (p : Z) (msg : as_msg) (status : Z) : ures (Z * as_error) :=
  let* p := lift (as_command_ignore_fields buf p (n_fields msg)) in
  udf_failure_loop (Z.to_nat (n_ops msg)) buf p status.

(** ** Records *)

(** The [switch] on the type of a bin: what its value pointer becomes, [old] when it
    is left alone. *)
Definition parse_bin_value (deserialize : bool) (buf : list Z) (p type value_size : Z) (old : option as_val)
  : ures (option as_val) :=
  if type =? AS_BYTES_UNDEF then URet (Some VNil)
  else if type =? AS_BYTES_INTEGER then
    let* (rc, v) := lift (as_command_bytes_to_int buf p (i32 value_size)) in
    URet (match v with Some v => if rc =? 0 then Some (VInteger v) else old | None => old end)
  else if type =? AS_BYTES_STRING then
    let* s := lift (mslice buf p value_size) in URet (Some (VString s))
  else if ((type =? AS_BYTES_LIST) || (type =? AS_BYTES_MAP)) && deserialize then deserialize_at buf p
  else let* b := lift (mslice buf p value_size) in URet (Some (VBytes type b)).

(** The bins from the [i]th on. *)
Fixpoint parse_bins_loop (n : nat) (deserialize : bool) (buf : list Z) (p i : Z) (rec : as_record)
  : ures (as_record * Z) :=
  match n with
  | O => URet (rec, p)
  | S n =>
      let* (type, name, p, value_size) := lift (parse_op buf p) in
      let* old := lift (aget (bins_entries rec) i) in
      let* v := parse_bin_value deserialize buf p type value_size (bin_valuep old) in
      let* entries := lift (aset (bins_entries rec) i (mk_bin name v)) in
      parse_bins_loop n deserialize buf (p + value_size) (i + 1)
        (mk_record (rec_key rec) (rec_gen rec) (rec_ttl rec) (bins_free rec) (bins_capacity rec)
           (u16 (bins_size rec + 1)) entries)
  end.

Definition as_command_parse_bins (rec : as_record) (buf : list Z) (p n_bins : Z) (deserialize : bool)
  : ures (as_record * Z) :=
  parse_bins_loop (Z.to_nat n_bins) deserialize buf p 0 rec.

Definition new_key : as_key := mk_key [] [] None false (replicate (Z.to_nat AS_DIGEST_VALUE_SIZE) 0).

Definition as_record_new (nbins : Z) : as_record :=
  if 0 <? nbins then mk_record new_key 0 0 true nbins 0 (uninit_bins nbins)
  else mk_record new_key 0 0 false 0 0 [].

(** ** Answers *)

(** The structure received: its two parts as they lie in memory. *)
Definition proto_msg_of_bytes (l : list Z) : option (as_proto * as_msg) :=
  pr ← as_proto_of_bytes host_endian (take 8 l);
  m ← as_msg_of_bytes host_endian (drop 8 l);
  Some (pr, m).

(** The status, the error, the header and the connection. *)
Definition as_command_parse_header (c : C) (err : as_error) : ures (Z * as_error * option as_msg * C) :=
  let* (status, bytes, c) := rd c AS_HEADER_SIZE in
  if negb (status =? 0) then URet (status, socket_error err status, None, c)
  else
    let* (pr, m) := lift (proto_msg_of_bytes bytes) in
    let pr := as_proto_swap_from_be host_endian pr in
    let size := u64 (proto_sz pr - header_sz m) in
    let finish c :=
      if negb (result_code m =? 0) && negb (result_code m =? AEROSPIKE_ERR_RECORD_NOT_FOUND)
      then URet (result_code m, mk_error (result_code m) (MString (result_code m)), Some m, c)
      else URet (result_code m, err, Some m, c) in
    if 0 <? size then
      if 100000 <? size
      then URet (AEROSPIKE_ERR_CLIENT, mk_error AEROSPIKE_ERR_CLIENT (MUnexpectedData size), Some m, c)
      else
        let* (status, _, c) := rd c size in
        if negb (status =? 0) then URet (status, socket_error err status, Some m, c) else finish c
    else finish c.

(** Header and body as the two following functions read them: [inl] the status of a
    failed read. *)
Definition read_message (c : C) : ures ((Z + as_msg * list Z) * C) :=
  let* (status, bytes, c) := rd c AS_HEADER_SIZE in
  if negb (status =? 0) then URet (inl status, c)
  else
    let* (pr, m) := lift (proto_msg_of_bytes bytes) in
    let pr := as_proto_swap_from_be host_endian pr in
    let m := as_msg_swap_header_from_be host_endian m in
    let size := u64 (proto_sz pr - header_sz m) in
    if 0 <? size then
      if 2 ^ 63 <=? size then UB
      else
        let* (status, buf, c) := rd c size in
        if negb (status =? 0) then URet (inl status, c) else URet (inr (m, buf), c)
    else URet (inr (m, []), c).

(** The record to fill: the one given, with a larger array when its own is too small,
    or a new one. *)
Definition record_for (m : as_msg) (rec : option as_record) : as_record :=
  match rec with
  | Some rec =>
      if bins_capacity rec <? n_ops m
      then mk_record (rec_key rec) (rec_gen rec) (rec_ttl rec) true (n_ops m) 0 (uninit_bins (n_ops m))
      else rec
  | None => as_record_new (n_ops m)
  end.

Definition with_header (rec : as_record) (m : as_msg) : as_record :=
  mk_record (rec_key rec) (u16 (generation m)) (cf_server_void_time_to_ttl clepoch (record_ttl m))
    (bins_free rec) (bins_capacity rec) (bins_size rec) (bins_entries rec).

(** [record]: [None] when no record is wanted, else what the pointer holds. *)
Definition as_command_parse_result (c : C) (err : as_error) (record : option (option as_record))
  : ures (Z * as_error * option (option as_record) * C) :=
  let* (r, c) := read_message c in
  match r with
  | inl status => URet (status, socket_error err status, record, c)
  | inr (m, buf) =>
      let status := result_code m in
      if status =? AEROSPIKE_OK then
        match record with
        | Some rec =>
            let rec := with_header (record_for m rec) m in
            let* p := lift (as_command_ignore_fields buf 0 (n_fields m)) in
            let* (rec, _) := as_command_parse_bins rec buf p (n_ops m) true in
            URet (status, err, Some (Some rec), c)
        | None => URet (status, err, record, c)
        end
      else if status =? AEROSPIKE_ERR_UDF then
        let* (status, err) := as_command_parse_udf_failure buf 0 m status in URet (status, err, record, c)
      else if (status =? AEROSPIKE_ERR_RECORD_NOT_FOUND) || (status =? AEROSPIKE_ERR_LARGE_ITEM_NOT_FOUND)
      then URet (status, err, record, c)
      else URet (status, mk_error status (MString status), record, c)
  end.

(** [val]: [None] for a NULL pointer, which is written through on every error. *)
Definition as_command_parse_success_failure (c : C) (err : as_error) (val : option (option as_val))
  : ures (Z * as_error * option (option as_val) * C) :=
  let clear (status : Z) (err : as_error) (c : C) :=
    match val with Some _ => URet (status, err, Some None, c) | None => UB end in
  let* (r, c) := read_message c in
  match r with
  | inl status => URet (status, socket_error err status, val, c)
  | inr (m, buf) =>
      let status := result_code m in
      if status =? AEROSPIKE_OK then
        let* (_, err, val) := as_command_parse_success_failure_bins buf 0 err m val in URet (status, err, val, c)
      else if status =? AEROSPIKE_ERR_UDF then
        let* (status, err) := as_command_parse_udf_failure buf 0 m status in clear status err c
      else if (status =? AEROSPIKE_ERR_RECORD_NOT_FOUND) || (status =? AEROSPIKE_ERR_LARGE_ITEM_NOT_FOUND)
      then clear status err c
      else clear status (mk_error status (MString status)) c
  end.

End Parse.

(** ** The socket is a connection *)

(** Reads into a new buffer, with the deadline of the command. *)
#[export, refine] Instance sock_reader (deadline : Z) : Reader sock :=
  {| rd s n := as_socket_read_deadline s (fresh n) n deadline; pending := incoming |}.
Proof.
  intros s n Hn. assert (blen (fresh n) = n) as Hf by (unfold fresh; rewrite length_replicate; lia).
  pose proof (read_deadline_ok s (fresh n) n deadline ltac:(lia)) as Hr.
  destruct (as_socket_read_deadline s (fresh n) n deadline) as [[[st bs] s']| |]; [|done|done].
  destruct Hr as (k & Hk & Hki & -> & Hs & Hst). unfold got. rewrite length_app, length_take, length_drop.
  split; [lia|]. intros ->. destruct Hst as [[_ ->]|[[?|?] _]]; [|done|done].
  rewrite drop_ge by lia. rewrite app_nil_r. split; [done|]. by split.
Defined.

(** ** Reading what the format says *)

Section ParseProofs.
Context `{Platform}.

Lemma holds_read buf off b bs : holds buf off (b :: bs) -> mread buf off = Some b /\ holds buf (off + 1) bs.
Proof.
  intros Hh. change (b :: bs) with ([b] ++ bs) in Hh. apply holds_app in Hh as [Hb Hh]. split; [|done].
  destruct Hb as (pre & post & -> & Ho & _). by apply mread_app.
Qed.

Lemma holds_be32 buf off z : holds buf off (be_bytes 4 z) -> load_be32 buf off = Some (u32 z).
Proof.
  intros Hh%holds_slice. rewrite be_bytes_length in Hh. unfold load_be32. change (Z.of_nat 4) with 4 in Hh.
  rewrite Hh. cbn [mbind option_bind]. by rewrite get_be32_be_bytes.
Qed.

Lemma parse_op_ok buf p op type name bs :
  c_str name = name -> blen name <= AS_BIN_NAME_MAX_LEN -> holds buf p (wire_op op type name bs) ->
  parse_op buf p = Some (type, name, p + 8 + blen name, blen bs) /\ holds buf (p + 8 + blen name) bs.
Proof.
  intros Hc Hn Hh. pose proof (holds_range _ _ _ Hh) as (H0 & H1 & _). rewrite wire_op_length, length_app in H1.
  unfold AS_BIN_NAME_MAX_LEN, INT_MAX in *. unfold wire_op in Hh. apply holds_app in Hh as [Hs Hh].
  rewrite be_bytes_length in Hh. change (Z.of_nat 4) with 4 in Hh. cbn [app] in Hh.
  apply holds_read in Hh as [_ Hh]. apply holds_read in Hh as [Ht Hh]. apply holds_read in Hh as [_ Hh].
  apply holds_read in Hh as [Hl Hh]. apply holds_app in Hh as [Hname Hb]. apply holds_slice in Hname.
  unfold parse_op. rewrite (holds_be32 _ _ _ Hs). cbn [mbind option_bind].
  replace (p + 5) with (p + 4 + 1) by lia. rewrite Ht. cbn [mbind option_bind].
  replace (p + 7) with (p + 4 + 1 + 1 + 1) by lia. rewrite Hl. cbn [mbind option_bind].
  replace (p + 4 + 1 + 1 + 1 + 1) with (p + 8) in * by lia.
  unfold AS_BIN_NAME_MAX_LEN. destruct (Z.leb_spec (blen name) 14); [|lia]. rewrite Hname. cbn [mbind option_bind].
  split; [|done]. rewrite Hc, (u32_id (blen name + blen bs + 4)) by (unfold is_u32; lia).
  rewrite u32_id by (unfold is_u32; lia). do 2 f_equal. lia.
Qed.

Lemma bytes_to_int_8 buf p z :
  is_i64 z -> holds buf p (be_bytes 8 z) -> as_command_bytes_to_int buf p 8 = Some (0, Some z).
Proof.
  intros Hz Hh%holds_slice. rewrite be_bytes_length in Hh. change (Z.of_nat 8) with 8 in Hh.
  unfold as_command_bytes_to_int. cbn [Z.eqb]. rewrite Hh. cbn [mbind option_bind].
  rewrite get_be64_be_bytes. do 3 f_equal. by rewrite i64_u64, i64_id.
Qed.

(** Values that a bin can hold and that come back as they were. *)
Definition storable (v : as_val) : Prop :=
  match v with
  | VNil | VString _ => True
  | VInteger z => is_i64 z
  | VBytes t _ => is_byte t /\ t ∉ [AS_BYTES_UNDEF; AS_BYTES_INTEGER; AS_BYTES_STRING; AS_BYTES_LIST; AS_BYTES_MAP]
  | VList _ | VMap _ => decodable v = true /\ blen (bytes_of v) <= LIMIT
  | _ => False
  end.

(** What is read for a value: itself, with the changes of serialization inside lists
    and maps. *)
Definition reads_back (v w : as_val) : Prop :=
  match v with VList _ | VMap _ => decodes v w | v => w = v end.

(** Scans may leave lists and maps as the bytes they were sent as. *)
Definition reads_as (deserialize : bool) (v w : as_val) : Prop :=
  match v with
  | VList _ | VMap _ => if deserialize then decodes v w else w = VBytes (particle v).1 (packed v)
  | v => w = v
  end.

Lemma deserialize_ok fuel buf p v :
  decodable v = true -> blen (bytes_of v) <= LIMIT -> holds buf p (packed v) -> (length (packed v) <= fuel)%nat ->
  exists w, deserialize_at fuel buf p = URet (Some w) /\ decodes v w.
Proof.
  intros Hd Hl Hh Hf. unfold packed in *. rewrite (proj1 (decodable_enc v Hd)) in *.
  destruct (unpack_val_ok v Hd buf p fuel Hh Hl Hf) as (w & Hu & Hw). exists w. unfold deserialize_at. by rewrite Hu.
Qed.

(** Steps over the tests of a type byte [t] that is none of those excluded by [Hv]. *)
Ltac other_type t Hv :=
  repeat match goal with
    |- context [t =? ?x] => destruct (Z.eqb_spec t x) as [->|?]; [by (exfalso; apply Hv; repeat constructor)|]
  end.

Lemma parse_bin_value_ok fuel d buf p v old :
  storable v -> holds buf p (particle v).2 -> (length (particle v).2 <= fuel)%nat ->
  exists w, parse_bin_value fuel d buf p (particle v).1 (blen (particle v).2) old = URet (Some w) /\ reads_as d v w.
Proof.
  intros Hv Hh Hf. unfold parse_bin_value.
  destruct v as [|b|z|s|t b|l|m|h|v1 v2|]; cbn [storable particle fst snd reads_as] in *; try done.
  - by exists VNil.
  - exists (VInteger z). rewrite be_bytes_length. change (i32 (Z.of_nat 8)) with 8. simpl.
    by rewrite (bytes_to_int_8 _ _ z).
  - exists (VString s). simpl. by rewrite (holds_slice _ _ _ Hh).
  - exists (VBytes t b). destruct Hv as [Ht Hv]. rewrite u8_id by done. other_type t Hv. simpl.
    by rewrite (holds_slice _ _ _ Hh).
  - destruct d; [destruct Hv as [Hd Hl]; by apply deserialize_ok|]. simpl. rewrite (holds_slice _ _ _ Hh). by eexists.
  - destruct d; [destruct Hv as [Hd Hl]; by apply deserialize_ok|]. simpl. rewrite (holds_slice _ _ _ Hh). by eexists.
Qed.

(** The result of a UDF: byte arrays lose their type. *)
Definition result_back (v w : as_val) : Prop :=
  match v with VBytes _ b => w = VBytes AS_BYTES_BLOB b | v => reads_back v w end.

Lemma parse_value_ok fuel buf p v :
  storable v -> holds buf p (particle v).2 -> (length (particle v).2 <= fuel)%nat ->
  exists w, as_command_parse_value fuel buf p (particle v).1 (blen (particle v).2) = URet (Some w) /\ result_back v w.
Proof.
  intros Hv Hh Hf. unfold as_command_parse_value.
  destruct v as [|b|z|s|t b|l|m|h|v1 v2|]; cbn [storable particle fst snd result_back reads_back] in *; try done.
  - by exists VNil.
  - exists (VInteger z). rewrite be_bytes_length. change (i32 (Z.of_nat 8)) with 8. simpl.
    by rewrite (bytes_to_int_8 _ _ z).
  - exists (VString s). simpl. by rewrite (holds_slice _ _ _ Hh).
  - exists (VBytes AS_BYTES_BLOB b). destruct Hv as [Ht Hv]. rewrite u8_id by done. other_type t Hv. simpl.
    by rewrite (holds_slice _ _ _ Hh).
  - destruct Hv as [Hd Hl]. by apply deserialize_ok.
  - destruct Hv as [Hd Hl]. by apply deserialize_ok.
Qed.

(** ** Bins *)

Definition bin_storable (bin : as_bin) : Prop :=
  strlen (bin_name bin) <= AS_BIN_NAME_MAX_LEN /\ exists v, bin_valuep bin = Some v /\ storable v.

Definition bin_back (bin bin' : as_bin) : Prop :=
  bin_name bin' = c_str (bin_name bin)
  /\ exists v w, bin_valuep bin = Some v /\ bin_valuep bin' = Some w /\ reads_back v w.

Definition bin_back_as (deserialize : bool) (bin bin' : as_bin) : Prop :=
  bin_name bin' = c_str (bin_name bin)
  /\ exists v w, bin_valuep bin = Some v /\ bin_valuep bin' = Some w /\ reads_as deserialize v w.

Definition with_bins (rec : as_record) (size : Z) (entries : list as_bin) : as_record :=
  mk_record (rec_key rec) (rec_gen rec) (rec_ttl rec) (bins_free rec) (bins_capacity rec) size entries.

(** The entries when [bins] are stored from the [i]th on. *)
Definition stored (entries bins : list as_bin) (i : nat) : list as_bin :=
  take i entries ++ bins ++ drop (i + length bins) entries.

Lemma stored_cons entries b bins i :
  (i < length entries)%nat -> stored (<[i := b]> entries) bins (S i) = stored entries (b :: bins) i.
Proof.
  intros Hi. unfold stored. rewrite (take_S_r _ _ b) by (by apply list_lookup_insert_eq).
  rewrite take_insert_ge, drop_insert_lt by lia. rewrite <- app_assoc. cbn [app length]. do 4 f_equal. lia.
Qed.

Lemma parse_bins_loop_ok fuel d buf ops p i rec :
  Forall (fun op => bin_storable (binop_bin op)) ops -> holds buf p (wire_bins ops) ->
  (length (wire_bins ops) <= fuel)%nat -> (i + length ops <= length (bins_entries rec))%nat ->
  0 <= bins_size rec < 65536 ->
  exists bins, Forall2 (bin_back_as d) (map binop_bin ops) bins
    /\ parse_bins_loop fuel (length ops) d buf p (Z.of_nat i) rec
       = URet (with_bins rec (u16 (bins_size rec + blen ops)) (stored (bins_entries rec) bins i),
               p + blen (wire_bins ops)).
Proof.
  revert p i rec. induction ops as [|[op bin] ops IH]; intros p i rec Hs Hh Hf Hi Hsz.
  - exists []. split; [constructor|]. cbn [length parse_bins_loop]. unfold stored. cbn [app length].
    rewrite Nat.add_0_r, take_drop, Z.add_0_r, u16_id by done. destruct rec. unfold with_bins. cbn. do 3 f_equal. lia.
  - apply Forall_cons in Hs as [(Hn & v & Ev & Hv) Hs]. unfold wire_bins in *. rewrite map_cons, join_cons in *.
    rewrite length_app in Hf. apply holds_app in Hh as [Hh1 Hh2]. unfold strlen in Hn. cbn [binop_bin] in *.
    set (wb := wire_bin (mk_binop op bin)) in *. assert (wb = wire_op (u8 op) (particle v).1 (c_str (bin_name bin)) (particle v).2)
      as Ew by (unfold wb, wire_bin; cbn [binop_bin binop_op]; by rewrite Ev).
    assert (length wb = (8 + length (c_str (bin_name bin)) + length (particle v).2)%nat) as Hwl
      by (rewrite Ew, wire_op_length, length_app; lia).
    rewrite Ew in Hh1. apply parse_op_ok in Hh1 as [Hop Hval]; [|apply c_str_idem|done].
    cbn [length parse_bins_loop] in *. rewrite Hop. cbn [lift ubind].
    destruct (lookup_lt_is_Some_2 (bins_entries rec) i) as [old Eold]; [lia|].
    unfold aget. rewrite decide_True, Nat2Z.id, Eold by lia. cbn [lift ubind].
    destruct (parse_bin_value_ok fuel d buf _ v (bin_valuep old) Hv Hval) as (w & -> & Hw); [lia|]. cbn [lift ubind].
    unfold aset. rewrite decide_True, Nat2Z.id by lia. cbn [lift ubind].
    replace (p + 8 + blen (c_str (bin_name bin)) + blen (particle v).2) with (p + blen wb) by lia.
    replace (Z.of_nat i + 1) with (Z.of_nat (S i)) by lia.
    match goal with |- context [parse_bins_loop _ _ _ _ _ _ ?r] => set (rec1 := r) end.
    destruct (IH (p + blen wb) (S i) rec1) as (bins & Hb & He).
    { done. } { done. } { lia. } { unfold rec1. cbn [bins_entries]. rewrite length_insert. lia. }
    { unfold rec1. cbn [bins_size]. apply Z.mod_pos_bound. lia. }
    exists (mk_bin (c_str (bin_name bin)) (Some w) :: bins). split.
    { cbn [map]. constructor; [|done]. split; [done|]. by exists v, w. }
    rewrite He. unfold rec1. cbn [bins_size bins_entries]. rewrite stored_cons by lia. unfold with_bins at 1 2.
    cbn [rec_key rec_gen rec_ttl bins_free bins_capacity]. rewrite map_cons, join_cons, length_app. fold wb. f_equal. f_equal; [f_equal|lia].
    unfold u16. rewrite Z.add_mod_idemp_l by lia. f_equal. lia.
Qed.

(** ** Messages *)

Definition wire_fields (fields : list (Z * list Z)) : list Z := mjoin (map (fun f => wire_field f.1 f.2) fields).

Lemma ignore_fields_ok buf fields p :
  holds buf p (wire_fields fields) ->
  ignore_fields_loop (length fields) buf p = Some (p + blen (wire_fields fields)).
Proof.
  revert p. induction fields as [|[id bs] fields IH]; intros p Hh; unfold wire_fields in *.
  - cbn. f_equal. lia.
  - rewrite map_cons, join_cons in *. cbn [fst snd] in *. apply holds_app in Hh as [Hf Hh]. rewrite length_app.
    pose proof (holds_range _ _ _ Hf) as (Hp0 & Hr & _). rewrite wire_field_length in *. unfold INT_MAX in Hr.
    unfold wire_field in Hf. apply holds_app in Hf as [Hl _]. cbn [length ignore_fields_loop].
    rewrite (holds_be32 _ _ _ Hl). cbn [mbind option_bind].
    rewrite (u32_id (blen bs + 1)) by (unfold is_u32; lia). rewrite u32_id by (unfold is_u32; lia).
    replace (p + (blen bs + 1 + 4)) with (p + Z.of_nat (5 + length bs)) by lia. rewrite (IH _ Hh). f_equal. lia.
Qed.

(** What the server sends: the first eight bytes, the header and the body. *)
Definition answer (version type : Z) (m : as_msg) (body : list Z) : list Z :=
  (version :: type :: be_bytes 6 (22 + blen body)) ++ msg_wire m ++ body.

Lemma msg_wire_length m : length (msg_wire m) = 22%nat.
Proof. unfold msg_wire. by rewrite !length_app, !be_bytes_length. Qed.

Lemma proto_msg_ok version type m body :
  msg_in_range m -> 22 + blen body < 2 ^ 48 ->
  exists pr m0, proto_msg_of_bytes (take 30 (answer version type m body)) = Some (pr, m0)
    /\ proto_sz (as_proto_swap_from_be host_endian pr) = 22 + blen body
    /\ as_msg_of_bytes host_endian (msg_wire m) = Some m0
    /\ as_msg_swap_header_from_be host_endian m0 = m.
Proof.
  intros Hm Hs. pose proof (as_proto_received host_endian version type (22 + blen body) ltac:(lia)) as Hp.
  pose proof (as_msg_received host_endian m Hm) as Hr. unfold answer.
  set (head := version :: type :: be_bytes 6 (22 + blen body)) in *.
  assert (length head = 8%nat) as Hh by (unfold head; cbn [length]; by rewrite be_bytes_length).
  rewrite app_assoc, take_app_length' by (rewrite length_app, msg_wire_length; lia).
  unfold proto_msg_of_bytes. rewrite take_app_length', drop_app_length' by lia.
  destruct (as_proto_of_bytes host_endian head) as [pr|]; [|done]. cbn [fmap option_fmap option_map] in Hp. apply (inj Some) in Hp.
  destruct (as_msg_of_bytes host_endian (msg_wire m)) as [m0|]; [|done]. cbn [fmap option_fmap option_map] in Hr. apply (inj Some) in Hr.
  exists pr, m0. split_and!; [done| |done|done]. by rewrite Hp.
Qed.

Section Connections.
Context `{Reader C}.

(** A successful read. *)
Definition delivers (c : C) (n : Z) (c' : C) : Prop := exists bs, rd c n = URet (AEROSPIKE_OK, bs, c').

Lemma delivers_exact c n c' l rest :
  delivers c n c' -> 0 < n -> n = blen l -> pending c = l ++ rest ->
  rd c n = URet (AEROSPIKE_OK, l, c') /\ pending c' = rest.
Proof.
  intros [bs He] Hn Hl Hp. pose proof (rd_exact c n Hn) as Hx. rewrite He in Hx. destruct Hx as [_ Hx].
  destruct (Hx eq_refl) as (-> & _ & Hc). rewrite Hp in *. subst n.
  rewrite Nat2Z.id, take_app_length in He. rewrite Hc, Nat2Z.id, drop_app_length. done.
Qed.

(** The answer lies in the stream, and both reads of it succeed. *)
Definition answered (c c2 : C) (version type : Z) (m : as_msg) (body rest : list Z) : Prop :=
  msg_in_range m /\ header_sz m = 22 /\ 0 < blen body < 2 ^ 47
  /\ pending c = answer version type m body ++ rest
  /\ exists c1, delivers c AS_HEADER_SIZE c1 /\ delivers c1 (blen body) c2.

Lemma read_message_ok c c2 version type m body rest :
  answered c c2 version type m body rest -> read_message c = URet (inr (m, body), c2) /\ pending c2 = rest.
Proof.
  intros (Hm & Hhdr & Hb & Hp & c1 & Hd1 & Hd2). unfold answer in Hp. rewrite app_assoc, <- (app_assoc _ body) in Hp.
  assert (blen ((version :: type :: be_bytes 6 (22 + blen body)) ++ msg_wire m) = 30) as Hl
    by (rewrite length_app, msg_wire_length; cbn [length]; rewrite be_bytes_length; done).
  destruct (delivers_exact _ _ _ _ _ Hd1 ltac:(done) (eq_sym Hl) Hp) as [Hr1 Hp1].
  destruct (delivers_exact _ _ _ _ _ Hd2 ltac:(lia) eq_refl Hp1) as [Hr2 Hp2].
  destruct (proto_msg_ok version type m body Hm ltac:(lia)) as (pr & m0 & Hpm & Hsz & _ & Hm0).
  unfold answer in Hpm. rewrite app_assoc, take_app_length' in Hpm by lia.
  unfold read_message. rewrite Hr1. cbn [ubind Z.eqb negb]. rewrite Hpm. cbn [lift ubind].
  assert (header_sz m0 = 22) as Hh0 by (by rewrite <- Hm0 in Hhdr). rewrite Hsz, Hm0, Hhdr.
  replace (22 + blen body - 22) with (blen body) by lia. rewrite u64_id by lia.
  destruct (Z.ltb_spec 0 (blen body)); [|lia]. destruct (Z.leb_spec (2 ^ 63) (blen body)); [lia|].
  rewrite Hr2. done.
Qed.

(** A record whose array has the length it claims. *)
Definition record_ok (rec : option as_record) : Prop :=
  match rec with
  | Some rec => blen (bins_entries rec) = bins_capacity rec /\ 0 <= bins_size rec < 65536
  | None => True
  end.

(** The number of bins that the record to fill already counts. *)
Definition counted (m : as_msg) (rec : option as_record) : Z :=
  match rec with Some rec => if bins_capacity rec <? n_ops m then 0 else bins_size rec | None => 0 end.

Lemma record_for_ok uninit_bins m rec :
  (forall n, 0 <= n -> blen (uninit_bins n) = n) -> 0 <= n_ops m -> record_ok rec ->
  n_ops m <= blen (bins_entries (record_for uninit_bins m rec))
  /\ bins_size (record_for uninit_bins m rec) = counted m rec /\ 0 <= counted m rec < 65536.
Proof.
  intros Hu Hn Hr. unfold record_for, as_record_new, counted. destruct rec as [rec|]; cbn [record_ok] in *.
  - destruct (Z.ltb_spec (bins_capacity rec) (n_ops m)); cbn [bins_entries bins_size]; [rewrite Hu by done; lia|lia].
  - destruct (Z.ltb_spec 0 (n_ops m)); cbn [bins_entries bins_size]; [rewrite Hu by done; lia|cbn [length]; lia].
Qed.

Lemma result_read fuel clepoch uninit_bins c c2 version type m fields ops rest rec err :
  (forall n, 0 <= n -> blen (uninit_bins n) = n) -> record_ok rec ->
  result_code m = AEROSPIKE_OK -> n_fields m = blen fields -> n_ops m = blen ops ->
  Forall (fun op => bin_storable (binop_bin op)) ops ->
  answered c c2 version type m (wire_fields fields ++ wire_bins ops) rest ->
  blen (wire_fields fields ++ wire_bins ops) <= INT_MAX ->
  (length (wire_fields fields ++ wire_bins ops) <= fuel)%nat ->
  exists rec' bins, as_command_parse_result fuel clepoch uninit_bins c err (Some rec)
                    = URet (AEROSPIKE_OK, err, Some (Some rec'), c2)
    /\ pending c2 = rest
    /\ rec_gen rec' = u16 (generation m)
    /\ rec_ttl rec' = cf_server_void_time_to_ttl clepoch (record_ttl m)
    /\ bins_size rec' = u16 (counted m rec + blen ops)
    /\ bins_capacity rec' = bins_capacity (record_for uninit_bins m rec)
    /\ take (length ops) (bins_entries rec') = bins /\ Forall2 bin_back (map binop_bin ops) bins.
Proof.
  intros Hu Hrec Hrc Hnf Hno Hs Ha Hmax Hf. destruct (read_message_ok _ _ _ _ _ _ _ Ha) as [Hr Hp].
  destruct (record_for_ok uninit_bins m rec Hu ltac:(lia) Hrec) as (He & Hsz & Hc).
  set (body := wire_fields fields ++ wire_bins ops) in *.
  assert (holds body 0 body) as Hh by (exists [], []; rewrite app_nil_r; split; [done|split; [done|lia]]).
  unfold body in Hh at 2. apply holds_app in Hh as [Hh1 Hh2].
  unfold as_command_parse_result. rewrite Hr. cbn [ubind]. rewrite Hrc. cbn [Z.eqb AEROSPIKE_OK].
  unfold as_command_ignore_fields. rewrite Hnf, Nat2Z.id, (ignore_fields_ok _ _ _ Hh1). cbn [lift ubind].
  unfold as_command_parse_bins. rewrite Hno, Nat2Z.id.
  set (rec0 := with_header clepoch (record_for uninit_bins m rec) m).
  destruct (parse_bins_loop_ok fuel true body ops _ 0 rec0 Hs Hh2) as (bins & Hb & Hpb).
  { unfold body in Hf. rewrite length_app in Hf. lia. }
  { unfold rec0. cbn [with_header bins_entries]. lia. }
  { unfold rec0. cbn [with_header bins_size]. lia. }
  change (Z.of_nat 0) with 0 in Hpb. rewrite Hpb. cbn [ubind]. eexists _, bins. split; [reflexivity|].
  apply Forall2_length in Hb as Hbl. rewrite length_map in Hbl.
  unfold with_bins. cbn [rec_gen rec_ttl bins_size bins_capacity bins_entries]. unfold rec0 at 1 2 3 4.
  cbn [with_header rec_gen rec_ttl bins_size bins_capacity].
  split_and!; [done|done|done|by rewrite Hsz|done| |done].
  unfold stored. rewrite take_0. cbn [app]. by rewrite take_app_length' by lia.
Qed.

(** Reading a record.  When the answer to a read lies in the stream and both reads
    of it succeed, the record gets exactly the bins of the answer: their names and the
    values that were stored (lists and maps through the unpacker), the generation, and
    the time to live computed from the void time; fields are skipped, and the stream
    is left at the end of the answer.  The record is a new one, or one given with no
    bins in it, whose array is replaced when it is too small. *)
Theorem record_read fuel clepoch uninit_bins c c2 version type m fields ops rest rec err :
  (forall n, 0 <= n -> blen (uninit_bins n) = n) -> record_ok rec -> counted m rec = 0 ->
  result_code m = AEROSPIKE_OK -> n_fields m = blen fields -> n_ops m = blen ops ->
  Forall (fun op => bin_storable (binop_bin op)) ops ->
  answered c c2 version type m (wire_fields fields ++ wire_bins ops) rest ->
  blen (wire_fields fields ++ wire_bins ops) <= INT_MAX ->
  (length (wire_fields fields ++ wire_bins ops) <= fuel)%nat ->
  exists rec', as_command_parse_result fuel clepoch uninit_bins c err (Some rec)
               = URet (AEROSPIKE_OK, err, Some (Some rec'), c2)
    /\ pending c2 = rest
    /\ rec_gen rec' = u16 (generation m)
    /\ rec_ttl rec' = cf_server_void_time_to_ttl clepoch (record_ttl m)
    /\ bins_size rec' = blen ops
    /\ Forall2 bin_back (map binop_bin ops) (take (length ops) (bins_entries rec')).
Proof.
  intros Hu Hrec Hc Hrc Hnf Hno Hs Ha Hmax Hf.
  destruct (result_read fuel clepoch uninit_bins c c2 version type m fields ops rest rec err)
    as (rec' & bins & He & Hp & Hg & Ht & Hz & _ & Hb & Hbb); [done..|].
  exists rec'. split_and!; [done..| |by rewrite Hb]. rewrite Hz, Hc. apply u16_id.
  destruct Ha as ((_ & _ & _ & _ & Hn) & _). lia.
Qed.

(** A record that is read into a second time keeps its count of bins when its
    array is large enough: the new bins overwrite the first ones, but the count is the
    old one plus theirs.  With a full array it then exceeds the array. *)
Theorem reused_record_overcounts fuel clepoch uninit_bins c c2 version type m ops rest rec err :
  record_ok (Some rec) -> n_ops m <= bins_capacity rec -> bins_capacity rec < bins_size rec + n_ops m < 65536 ->
  (forall n, 0 <= n -> blen (uninit_bins n) = n) ->
  result_code m = AEROSPIKE_OK -> n_fields m = 0 -> n_ops m = blen ops ->
  Forall (fun op => bin_storable (binop_bin op)) ops ->
  answered c c2 version type m (wire_bins ops) rest ->
  blen (wire_bins ops) <= INT_MAX -> (length (wire_bins ops) <= fuel)%nat ->
  exists rec', as_command_parse_result fuel clepoch uninit_bins c err (Some (Some rec))
               = URet (AEROSPIKE_OK, err, Some (Some rec'), c2)
    /\ bins_size rec' = bins_size rec + n_ops m /\ bins_capacity rec' = bins_capacity rec
    /\ bins_capacity rec' < bins_size rec'.
Proof.
  intros Hrec Hcap Hover Hu Hrc Hnf Hno Hs Ha Hmax Hf.
  destruct (result_read fuel clepoch uninit_bins c c2 version type m [] ops rest (Some rec) err)
    as (rec' & bins & He & _ & _ & _ & Hz & Hc & _); [done..|].
  exists rec'. unfold counted, record_for in *. destruct (Z.ltb_spec (bins_capacity rec) (n_ops m)); [lia|].
  rewrite u16_id in Hz by lia. split_and!; [done|lia|done|lia].
Qed.

(** The error that goes with a result code after a write. *)
Definition header_error (code : Z) (err : as_error) : as_error :=
  if (code =? AEROSPIKE_OK) || (code =? AEROSPIKE_ERR_RECORD_NOT_FOUND) then err else mk_error code (MString code).

Lemma as_msg_loaded e m m0 :
  msg_in_range m -> as_msg_of_bytes e (msg_wire m) = Some m0 ->
  result_code m0 = result_code m /\ header_sz m0 = header_sz m
  /\ generation m0 = match e with BigEndian => generation m | LittleEndian => my_swab32 (generation m) end
  /\ record_ttl m0 = match e with BigEndian => record_ttl m | LittleEndian => my_swab32 (record_ttl m) end.
Proof.
  intros (Hg & Hr & _) Hof. assert (forall x, is_u32 x -> of_mem e (be_bytes 4 x)
      = match e with BigEndian => x | LittleEndian => my_swab32 x end) as Hm.
  { intros x Hx. destruct e; cbn [of_mem].
    - rewrite <- my_swab32_bytes, be_val_be_bytes. apply Z.mod_small. unfold my_swab32. apply u32_range.
    - rewrite be_val_be_bytes. by apply Z.mod_small. }
  assert (Some m0 = Some {| header_sz := header_sz m; info1 := info1 m; info2 := info2 m; info3 := info3 m;
    unused := unused m; result_code := result_code m; generation := of_mem e (be_bytes 4 (generation m));
    record_ttl := of_mem e (be_bytes 4 (record_ttl m)); transaction_ttl := of_mem e (be_bytes 4 (transaction_ttl m));
    n_fields := of_mem e (be_bytes 2 (n_fields m)); n_ops := of_mem e (be_bytes 2 (n_ops m)) |}) as He
    by (rewrite <- Hof; reflexivity).
  apply (inj Some) in He. subst m0. cbn [result_code header_sz generation record_ttl]. by rewrite !Hm.
Qed.

(** The answer to a write, a removal or an existence check.  The result code of the
    server is the status, with an error for every code but OK and not-found.  The
    structure handed back is the received one: its generation and void time are still
    in network order, so that on a little-endian host their bytes are reversed. *)
Lemma header_answer c c1 version type m rest err :
  msg_in_range m -> header_sz m = 22 -> pending c = answer version type m [] ++ rest ->
  delivers c AS_HEADER_SIZE c1 ->
  exists m0, as_command_parse_header c err
             = URet (result_code m, header_error (result_code m) err, Some m0, c1)
    /\ pending c1 = rest
    /\ generation m0 = match host_endian with BigEndian => generation m | LittleEndian => my_swab32 (generation m) end
    /\ record_ttl m0 = match host_endian with BigEndian => record_ttl m | LittleEndian => my_swab32 (record_ttl m) end.
Proof.
  intros Hm Hhdr Hp Hd. assert (blen (answer version type m []) = 30) as Hl.
  { unfold answer. rewrite !length_app, msg_wire_length. cbn [length]. by rewrite be_bytes_length. }
  destruct (delivers_exact _ _ _ _ _ Hd ltac:(done) (eq_sym Hl) Hp) as [Hr Hp1].
  destruct (proto_msg_ok version type m [] Hm ltac:(simpl; lia)) as (pr & m0 & Hpm & Hsz & Hof & _).
  rewrite take_ge in Hpm by lia. destruct (as_msg_loaded _ _ _ Hm Hof) as (Hrc & Hh0 & Hg & Ht).
  exists m0. split; [|done]. unfold as_command_parse_header. rewrite Hr. cbn [ubind Z.eqb negb]. rewrite Hpm.
  cbn [lift ubind]. rewrite Hsz, Hh0, Hhdr. change (u64 (22 + blen [] - 22)) with 0. cbn [Z.ltb Z.compare]. rewrite Hrc.
  unfold header_error. change AEROSPIKE_OK with 0. by destruct (result_code m =? 0), (result_code m =? _).
Qed.

End Connections.

(** ** Results of UDFs *)

Lemma strrchr_last s c r : strrchr s c = Some r -> strrchr (drop 1 r) c = None.
Proof.
  revert r. induction s as [|x s IH]; intros r; [done|]. cbn [strrchr].
  destruct (strrchr s c) as [r'|] eqn:E; [intros [= <-]; by apply IH|].
  destruct (x =? c); [|done]. intros [= <-]. cbn [drop]. by rewrite drop_0.
Qed.

(** The status of a failed UDF is never taken from its message: the code that the
    message carries behind its last colon is looked for behind that colon's own colon,
    which does not exist.  The caller always gets the status of the answer. *)
Theorem udf_error_code_unused status val :
  exists err, as_command_parse_udf_error status val = Some (status, err) /\ err_code err = status.
Proof.
  unfold as_command_parse_udf_error. destruct val as [[|b|z|s|t b|l|m|h|v1 v2|]|]; try by eexists.
  destruct (strrchr (c_str s) 58) as [p|] eqn:E; [|by eexists]. rewrite (strrchr_last _ _ _ E). by eexists.
Qed.

(** A bin with a name that can be read; its value may be anything. *)
Definition named (op : as_binop) : Prop :=
  strlen (bin_name (binop_bin op)) <= AS_BIN_NAME_MAX_LEN /\ is_Some (bin_valuep (binop_bin op)).

Definition name_of (op : as_binop) : list Z := c_str (bin_name (binop_bin op)).

(** The front of the first of several bins, and where the others are. *)
Lemma parse_op_bin buf p op ops :
  named op -> holds buf p (wire_bins (op :: ops)) ->
  exists v q, bin_valuep (binop_bin op) = Some v
    /\ parse_op buf p = Some ((particle v).1, name_of op, q, blen (particle v).2)
    /\ holds buf q (particle v).2 /\ (length (particle v).2 <= length (wire_bins (op :: ops)))%nat
    /\ holds buf (q + blen (particle v).2) (wire_bins ops).
Proof.
  intros [Hn [v Ev]] Hh. unfold wire_bins in *. rewrite map_cons, join_cons in *. apply holds_app in Hh as [Hh1 Hh2].
  unfold wire_bin in Hh1, Hh2 |- *. rewrite Ev in *. rewrite length_app, wire_op_length, length_app in *.
  fold (name_of op) in *. apply parse_op_ok in Hh1 as [Hop Hval]; [|apply c_str_idem|done].
  exists v, (p + 8 + blen (name_of op)). split_and!; [done|done|done|lia|].
  replace (p + 8 + blen (name_of op) + blen (particle v).2) with
    (p + Z.of_nat (8 + (length (name_of op) + length (particle v).2))) by lia. done.
Qed.

(** Bins of other names are passed over. *)
Lemma success_failure_skips fuel buf before ops p err value :
  Forall named before -> Forall (fun op => name_of op <> SUCCESS /\ name_of op <> FAILURE) before ->
  holds buf p (wire_bins (before ++ ops)) ->
  exists q, holds buf q (wire_bins ops)
    /\ success_failure_loop fuel (length (before ++ ops)) buf p err value
       = success_failure_loop fuel (length ops) buf q err value.
Proof.
  revert p. induction before as [|op before IH]; intros p Hn Ho Hh; [by exists p|].
  apply Forall_cons in Hn as [Hn1 Hn]. apply Forall_cons in Ho as [[Hs Hf] Ho].
  destruct (parse_op_bin buf p op (before ++ ops) Hn1 Hh) as (v & q & _ & Hop & _ & _ & Hh').
  destruct (IH _ Hn Ho Hh') as (q' & Hq & He). exists q'. split; [done|].
  cbn [app length success_failure_loop]. rewrite Hop. cbn [lift ubind]. by rewrite !decide_False.
Qed.

Lemma body_holds (fields : list (Z * list Z)) ops :
  blen (wire_fields fields ++ wire_bins ops) <= INT_MAX ->
  holds (wire_fields fields ++ wire_bins ops) 0 (wire_fields fields)
  /\ holds (wire_fields fields ++ wire_bins ops) (0 + blen (wire_fields fields)) (wire_bins ops).
Proof.
  intros Hm. apply holds_app. exists [], []. rewrite app_nil_r. split; [done|]. split; [done|lia].
Qed.

(** What the caller of a UDF gets for the first bin named SUCCESS or FAILURE. *)
Definition udf_outcome (v : as_val) (name : list Z) (err : as_error) (old : option as_val)
    (r : as_error * option (option as_val)) : Prop :=
  (name = SUCCESS /\ exists w, result_back v w /\ r = (err, Some (Some w)))
  \/ (name = FAILURE /\ exists msg, r = (mk_error AEROSPIKE_ERR_CLIENT msg, Some old)
        /\ forall s, v = VString s -> msg = MText (c_str s)).

(** The result of a UDF.  Of the bins of an answer with result code OK the first
    one named SUCCESS or FAILURE counts.  SUCCESS gives its value (a byte array without
    its type).  FAILURE sets the error to its text, but the status returned is OK all
    the same, and the caller's value is left as it was. *)
Theorem udf_answer `{Reader C} fuel (c c2 : C) version type m fields before op after v rest err old :
  result_code m = AEROSPIKE_OK -> n_fields m = blen fields -> n_ops m = blen (before ++ op :: after) ->
  Forall named before -> Forall (fun op => name_of op <> SUCCESS /\ name_of op <> FAILURE) before ->
  name_of op = SUCCESS \/ name_of op = FAILURE -> bin_valuep (binop_bin op) = Some v -> storable v ->
  answered c c2 version type m (wire_fields fields ++ wire_bins (before ++ op :: after)) rest ->
  blen (wire_fields fields ++ wire_bins (before ++ op :: after)) <= INT_MAX ->
  (length (wire_fields fields ++ wire_bins (before ++ op :: after)) <= fuel)%nat ->
  exists r, as_command_parse_success_failure fuel c err (Some old) = URet (AEROSPIKE_OK, r.1, r.2, c2)
    /\ pending c2 = rest /\ udf_outcome v (name_of op) err old r.
Proof.
  intros Hrc Hnf Hno Hn Ho Hname Ev Hv Ha Hmax Hf. destruct (read_message_ok _ _ _ _ _ _ _ Ha) as [Hr Hp].
  destruct (body_holds fields (before ++ op :: after) Hmax) as [Hh1 Hh2].
  set (body := wire_fields fields ++ wire_bins (before ++ op :: after)) in *.
  unfold as_command_parse_success_failure. rewrite Hr. cbn [ubind]. rewrite Hrc. cbn [Z.eqb AEROSPIKE_OK].
  unfold as_command_parse_success_failure_bins, as_command_ignore_fields.
  rewrite Hnf, Nat2Z.id, (ignore_fields_ok _ _ _ Hh1). cbn [lift ubind]. rewrite Hno, Nat2Z.id.
  destruct (success_failure_skips fuel body before (op :: after) _ err (Some old) Hn Ho Hh2) as (q & Hq & ->).
  assert (named op) as Hop.
  { split; [|by eexists]. unfold strlen. change (blen (name_of op) <= 14). by destruct Hname as [-> | ->]. }
  destruct (parse_op_bin body q op after Hop Hq) as (v' & q' & Ev' & Hpo & Hval & Hlv & _).
  assert (v' = v) as -> by congruence. cbn [length success_failure_loop]. rewrite Hpo. cbn [lift ubind].
  destruct (parse_value_ok fuel body q' v Hv Hval) as (w & Hw & Hback).
  { apply holds_range in Hq as (_ & _ & _). unfold body in Hf. rewrite length_app in Hf.
    assert (length (wire_bins (op :: after)) <= length (wire_bins (before ++ op :: after)))%nat.
    { unfold wire_bins. rewrite map_app, join_app, length_app. lia. }
    lia. }
  destruct Hname as [Hname|Hname]; rewrite Hname.
  - rewrite decide_True by done. rewrite Hw. cbn [ubind]. eexists (_, _). split; [reflexivity|]. split; [done|].
    left. split; [done|]. by exists w.
  - rewrite decide_False, decide_True by done. rewrite Hw. cbn [ubind]. eexists (_, _). split; [reflexivity|].
    split; [done|]. right. split; [done|]. eexists. split; [reflexivity|]. intros s ->.
    cbn [result_back reads_back] in Hback. by subst w.
Qed.

(** A caller that wants no result must pass a pointer all the same: with NULL every
    answer with an error code is undefined behaviour, although success with NULL is
    handled. *)
Theorem udf_null_result `{Reader C} fuel (c c2 : C) version type m body rest err :
  answered c c2 version type m body rest ->
  result_code m <> AEROSPIKE_OK -> result_code m <> AEROSPIKE_ERR_UDF ->
  as_command_parse_success_failure fuel c err None = UB.
Proof.
  intros Ha Hok Hudf. destruct (read_message_ok _ _ _ _ _ _ _ Ha) as [Hr _].
  unfold as_command_parse_success_failure. rewrite Hr. cbn [ubind].
  apply Z.eqb_neq in Hok, Hudf. rewrite Hok, Hudf.
  by destruct ((result_code m =? AEROSPIKE_ERR_RECORD_NOT_FOUND) || (result_code m =? AEROSPIKE_ERR_LARGE_ITEM_NOT_FOUND)).
Qed.

(** ** Keys *)

(** The length, the type and the bytes of a field. *)
Lemma field_at buf p id bs :
  holds buf p (wire_field id bs) ->
  load_be32 buf p = Some (blen bs + 1) /\ mread buf (p + 4) = Some id /\ holds buf (p + 4 + 1) bs
  /\ 0 <= blen bs < 2 ^ 31.
Proof.
  intros Hh. pose proof (holds_range _ _ _ Hh) as (Hp0 & Hr & _). rewrite wire_field_length in Hr. unfold INT_MAX in Hr.
  unfold wire_field in Hh. apply holds_app in Hh as [Hl Hh]. rewrite be_bytes_length in Hh.
  change (Z.of_nat 4) with 4 in Hh. apply holds_read in Hh as [Hid Hb].
  split; [rewrite (holds_be32 _ _ _ Hl), u32_id by (unfold is_u32; lia); done|]. split_and!; [done|done|lia|lia].
Qed.

(** What a field does to the key. *)
Definition field_read (key : as_key) (id : Z) (bs : list Z) : option as_key :=
  if id =? AS_FIELD_DIGEST then
    digest ← mwrite (digest_value key) 0 (take 20 bs);
    Some (mk_key (key_ns key) (key_set key) (key_valuep key) (digest_init key) digest)
  else if id =? AS_FIELD_NAMESPACE then
    Some (mk_key (c_str (take 31 bs)) (key_set key) (key_valuep key) (digest_init key) (digest_value key))
  else if id =? AS_FIELD_SETNAME then
    Some (mk_key (key_ns key) (c_str (take 63 bs)) (key_valuep key) (digest_init key) (digest_value key))
  else Some key.

Lemma holds_min buf p bs n :
  holds buf p bs -> 0 <= n -> mslice buf p (Z.min (blen bs) n) = Some (take (Z.to_nat n) bs).
Proof.
  intros Hh Hn. rewrite <- (take_drop (Z.to_nat n) bs) in Hh. apply holds_app in Hh as [Hh _]. apply holds_slice in Hh.
  rewrite length_take in Hh. by replace (Z.min (blen bs) n) with (Z.of_nat (Z.to_nat n `min` length bs)) by lia.
Qed.

Lemma parse_key_field_ok buf p key id bs :
  id <> AS_FIELD_KEY -> holds buf p (wire_field id bs) ->
  parse_key_field buf p key = key ← field_read key id bs; Some (key, p + blen (wire_field id bs)).
Proof.
  intros Hid Hh. apply field_at in Hh as (Hl & Hi & Hb & Hr). unfold parse_key_field. rewrite Hl. cbn [mbind option_bind].
  rewrite Hi. cbn [mbind option_bind]. rewrite u32_id by (unfold is_u32; lia).
  replace (blen bs + 1 - 1) with (blen bs) by lia. unfold field_read.
  replace (p + blen (wire_field id bs)) with (p + 4 + 1 + blen bs) by (rewrite wire_field_length; lia).
  destruct (id =? AS_FIELD_DIGEST).
  { rewrite (holds_min _ _ _ AS_DIGEST_VALUE_SIZE Hb) by done. cbn [mbind option_bind].
    change (Z.to_nat AS_DIGEST_VALUE_SIZE) with 20%nat. by destruct (mwrite _ _ _). }
  destruct (id =? AS_FIELD_NAMESPACE); [by rewrite (holds_min _ _ _ (AS_NAMESPACE_MAX_SIZE - 1) Hb)|].
  destruct (id =? AS_FIELD_SETNAME); [by rewrite (holds_min _ _ _ (AS_SET_MAX_SIZE - 1) Hb)|].
  by destruct (Z.eqb_spec id AS_FIELD_KEY).
Qed.

(** The values of keys that are read. *)
Definition key_value_ok (v : as_val) : Prop :=
  match v with VInteger z => is_i64 z | VString _ => True | VBytes t _ => t = AS_BYTES_BLOB | _ => False end.

Lemma parse_key_value_field buf p key v :
  key_value_ok v -> holds buf p (wire_field AS_FIELD_KEY ((key_particle v).1 :: (key_particle v).2)) ->
  parse_key_field buf p key
  = Some (set_value key v, p + blen (wire_field AS_FIELD_KEY ((key_particle v).1 :: (key_particle v).2))).
Proof.
  intros Hv Hh. rewrite wire_field_length. apply field_at in Hh as (Hl & Hi & Hb & Hr). rewrite length_cons in *.
  apply holds_read in Hb as [Ht Hb]. unfold parse_key_field. rewrite Hl. cbn [mbind option_bind]. rewrite Hi.
  cbn [mbind option_bind]. simpl (AS_FIELD_KEY =? _). cbv iota. rewrite Ht. cbn [mbind option_bind].
  rewrite (u32_id (Z.of_nat (S (length (key_particle v).2)) + 1 - 1)) by (unfold is_u32; lia).
  rewrite u32_id by (unfold is_u32; lia).
  replace (Z.of_nat (S (length (key_particle v).2)) + 1 - 1 - 1) with (blen (key_particle v).2) by lia.
  assert (parse_key_value buf (p + 4 + 1 + 1) (key_particle v).1 (blen (key_particle v).2) key = Some (set_value key v))
    as ->; [|cbn [mbind option_bind]; do 2 f_equal; lia].
  unfold parse_key_value. destruct v as [|b|z|s|t b|l|m|h|v1 v2|]; cbn [key_value_ok key_particle particle fst snd] in *;
    try done.
  - rewrite be_bytes_length. change (i32 (Z.of_nat 8)) with 8. simpl. by rewrite (bytes_to_int_8 _ _ z).
  - simpl. by rewrite (holds_slice _ _ _ Hb).
  - subst t. simpl. by rewrite (holds_slice _ _ _ Hb).
Qed.

Lemma mwrite_whole (old bs : list Z) : length old = length bs -> mwrite old 0 bs = Some bs.
Proof.
  intros Hl. pose proof (mwrite_at [] old [] bs 0 eq_refl (eq_sym Hl)) as Hw. cbn [app] in Hw. by rewrite !app_nil_r in Hw.
Qed.

(** The fields of a key, as they were written. *)
Lemma parse_key_ok buf p policy key key0 :
  key_ready policy key -> length (digest_value key0) = 20%nat ->
  strlen (key_ns key) < AS_NAMESPACE_MAX_SIZE -> strlen (key_set key) < AS_SET_MAX_SIZE ->
  (forall v, policy = KEY_SEND -> key_valuep key = Some v -> key_value_ok v) ->
  holds buf p (wire_key policy key) ->
  as_command_parse_key buf p (n_key_fields policy) key0
  = Some (mk_key (c_str (key_ns key)) (c_str (key_set key))
            (match policy with KEY_SEND => key_valuep key | KEY_DIGEST => key_valuep key0 end)
            (digest_init key0) (digest_value key), p + blen (wire_key policy key)).
Proof.
  intros [Hd Hs] Hd0 Hns Hset Hv Hh. unfold strlen, AS_NAMESPACE_MAX_SIZE, AS_SET_MAX_SIZE in *.
  unfold wire_key in *. apply holds_app in Hh as [H1 Hh]. apply holds_app in Hh as [H2 Hh]. apply holds_app in Hh as [H3 Hh].
  assert (forall f, parse_key_loop (3 + f) buf p key0
     = parse_key_loop f buf (p + blen (wire_field AS_FIELD_NAMESPACE (c_str (key_ns key)))
         + blen (wire_field AS_FIELD_SETNAME (c_str (key_set key))) + blen (wire_field AS_FIELD_DIGEST (digest_value key)))
         (mk_key (c_str (key_ns key)) (c_str (key_set key)) (key_valuep key0) (digest_init key0) (digest_value key))) as H3f.
  { intros f. cbn [Nat.add parse_key_loop]. rewrite (parse_key_field_ok _ _ _ AS_FIELD_NAMESPACE _ ltac:(done) H1).
    unfold field_read at 1. simpl (AS_FIELD_NAMESPACE =? _). cbv iota. cbn [mbind option_bind].
    rewrite (parse_key_field_ok _ _ _ AS_FIELD_SETNAME _ ltac:(done) H2).
    unfold field_read at 1. simpl (AS_FIELD_SETNAME =? _). cbv iota. cbn [mbind option_bind].
    rewrite (parse_key_field_ok _ _ _ AS_FIELD_DIGEST _ ltac:(done) H3).
    unfold field_read at 1. simpl (AS_FIELD_DIGEST =? _). cbv iota. cbn [digest_value key_ns key_set key_valuep digest_init].
    rewrite (take_ge (digest_value key)), mwrite_whole by lia. cbn [mbind option_bind].
    by rewrite (take_ge (c_str (key_ns key))), (take_ge (c_str (key_set key))), !c_str_idem by lia. }
  unfold as_command_parse_key. rewrite !length_app. destruct policy.
  - change (Z.to_nat (n_key_fields KEY_DIGEST)) with (3 + 0)%nat. rewrite H3f. cbn [parse_key_loop length]. do 2 f_equal. lia.
  - change (Z.to_nat (n_key_fields KEY_SEND)) with (3 + 1)%nat. rewrite H3f. destruct (Hs eq_refl) as [v Ev]. rewrite Ev in *.
    cbn [parse_key_loop]. rewrite (parse_key_value_field _ _ _ v); [|by apply Hv|exact Hh]. cbn [mbind option_bind].
    do 2 f_equal. lia.
Qed.

(** The fields of a key are read back as they were written: the namespace, the set,
    the digest, and the value when it was sent.  But the mark that the digest is known
    is not set: a key received without its value, as scans and queries deliver it,
    makes the next command compute the digest from a value that is not there. *)
Theorem key_read_back ripemd160 buf p policy key key0 :
  key_ready policy key -> length (digest_value key0) = 20%nat ->
  strlen (key_ns key) < AS_NAMESPACE_MAX_SIZE -> strlen (key_set key) < AS_SET_MAX_SIZE ->
  (forall v, policy = KEY_SEND -> key_valuep key = Some v -> key_value_ok v) ->
  holds buf p (wire_key policy key) ->
  let value := match policy with KEY_SEND => key_valuep key | KEY_DIGEST => key_valuep key0 end in
  let key' := mk_key (c_str (key_ns key)) (c_str (key_set key)) value (digest_init key0) (digest_value key) in
  as_command_parse_key buf p (n_key_fields policy) key0 = Some (key', p + blen (wire_key policy key))
  /\ (value = None -> digest_init key0 = false -> as_key_set_digest ripemd160 key' = None).
Proof.
  intros Hr Hd0 Hns Hset Hv Hh value key'. split; [by apply parse_key_ok|].
  intros Hn Hi. unfold as_key_set_digest, key'. cbn [digest_init key_valuep]. by rewrite Hi, Hn.
Qed.

(** ** Integers of other sizes *)

Lemma be_loop_val bs : Forall is_byte bs -> be_loop bs = be_val bs.
Proof.
  intros Hb. unfold be_loop, be_val. generalize 0 as v. induction Hb as [|b bs Hb Hbs IH]; intros v; [done|].
  cbn [fold_left]. rewrite IH. f_equal. rewrite Z.lor_comm, lor_high by (unfold is_byte in Hb; lia). lia.
Qed.

Lemma high_bit b : is_byte b -> Z.land b 0x80 = if b <? 0x80 then 0 else 0x80.
Proof.
  intros Hb. assert (Forall (fun b => Z.land b 0x80 = if b <? 0x80 then 0 else 0x80) (map Z.of_nat (seq 0 256))) as HF
    by (vm_compute; repeat constructor).
  apply (proj1 (List.Forall_forall _ _) HF), in_map_iff. exists (Z.to_nat b). unfold is_byte in Hb.
  split; [lia|]. apply in_seq. lia.
Qed.

(** Integers of one to seven bytes.  A number without the sign bit is the big-endian
    value of its bytes.  With the sign bit the eight bytes from its first one are taken
    as the number, so the bytes that follow it become part of the value, and a number at
    the end of the message is read beyond it.  More than eight bytes are refused. *)
Theorem short_integers buf p b bs :
  Forall is_byte (b :: bs) -> blen (b :: bs) < 8 -> holds buf p (b :: bs) ->
  as_command_bytes_to_int buf p (blen (b :: bs))
  = (if b <? 0x80 then Some (0, Some (be_val (b :: bs)))
     else l ← mslice buf p 8; Some (0, Some (i64 (get_be64 host_endian l))))
  /\ forall sz, 8 < sz -> as_command_bytes_to_int buf p sz = Some (-1, None).
Proof.
  intros Hb Hl Hh. pose proof (holds_slice _ _ _ Hh) as Hs. apply holds_read in Hh as [Hr _]. split.
  2:{ intros sz Hsz. unfold as_command_bytes_to_int. destruct (Z.eqb_spec sz 8); [lia|].
      destruct (Z.eqb_spec sz 0); [lia|]. by destruct (Z.ltb_spec 8 sz); [|lia]. }
  rewrite length_cons in *. set (n := Z.of_nat (S (length bs))) in *. unfold as_command_bytes_to_int.
  destruct (Z.eqb_spec n 8); [lia|]. destruct (Z.eqb_spec n 0); [lia|]. destruct (Z.ltb_spec 8 n); [lia|].
  rewrite Hr. cbn [mbind option_bind]. pose proof (Forall_inv Hb) as Hbyte. rewrite (high_bit b Hbyte), Hs.
  destruct ((n =? 1) && (b <? 127)) eqn:E1.
  - apply andb_true_iff in E1 as [En Eb]. apply Z.eqb_eq in En. apply Z.ltb_lt in Eb.
    destruct (Z.ltb_spec b 128); [|lia]. destruct bs; [|simpl in n; lia]. by rewrite be_val_cons, Z.mul_1_r, Z.add_0_r.
  - destruct (Z.ltb_spec b 128); cbn [Z.eqb negb mbind option_bind]; [|done].
    destruct (Z.ltb_spec n 0); [lia|]. cbn [mbind option_bind]. by rewrite be_loop_val.
Qed.

End ParseProofs.

(** ** Examples *)

(** A connection on which everything is there at once: [n] reads succeed. *)
Definition ready_sock (n : nat) (inc : list Z) : sock :=
  mk_sock 3 true true true inc [] (repeat {| now := 10; select_rv := 1; fd_isset := true; io := Moved 5000 |} n).

Definition sample_msg (code fields ops : Z) : as_msg :=
  {| header_sz := 22; info1 := 0; info2 := 0; info3 := 0; unused := 0; result_code := code;
     generation := 3; record_ttl := 1000; transaction_ttl := 0; n_fields := fields; n_ops := ops |}.

(** The reads of a closed answer succeed. *)
Ltac answer_ready :=
  split; [split_and!; unfold is_u32; simpl; lia|]; split; [reflexivity|]; split; [vm_compute; by split|];
  split; [reflexivity|]; eexists (ready_sock 1 _); split; eexists; vm_compute; reflexivity.

Definition sample_ops : list as_binop :=
  [mk_binop 2 (mk_bin [97] (Some (VInteger (-1)))); mk_binop 2 (mk_bin [98] (Some (VList [Some (VInteger 5)])))].

Lemma sample_ops_storable : Forall (fun op => bin_storable (binop_bin op)) sample_ops.
Proof. repeat constructor; try done; (eexists; split; [reflexivity|]; vm_compute; by split). Qed.

Definition blank_bins (n : Z) : list as_bin := replicate (Z.to_nat n) (mk_bin [] None).

Lemma blank_bins_size n : 0 <= n -> blen (blank_bins n) = n.
Proof. unfold blank_bins. rewrite length_replicate. lia. Qed.

Definition sample_body : list Z := wire_fields [(11, [1; 2])] ++ wire_bins sample_ops.

Lemma record_read_witness :
  exists rec', @as_command_parse_result x86_64 sock (sock_reader 20) 100 400 blank_bins
      (ready_sock 2 (answer 2 3 (sample_msg 0 1 2) sample_body ++ [7])) no_error (Some None)
      = URet (AEROSPIKE_OK, no_error, Some (Some rec'), ready_sock 0 [7])
    /\ incoming (ready_sock 0 [7]) = [7] /\ rec_gen rec' = 3 /\ rec_ttl rec' = 600 /\ bins_size rec' = 2
    /\ Forall2 bin_back (map binop_bin sample_ops) (take 2 (bins_entries rec')).
Proof.
  apply (@record_read x86_64 sock (sock_reader 20) 100 400 blank_bins _ _ 2 3 (sample_msg 0 1 2) [(11, [1; 2])] sample_ops
           [7] None no_error blank_bins_size I eq_refl eq_refl eq_refl eq_refl sample_ops_storable).
  - answer_ready.
  - vm_compute. discriminate.
  - vm_compute. lia.
Defined.

(** A record with two bins in an array of two. *)
Definition full_record : as_record :=
  mk_record new_key 0 0 true 2 2 [mk_bin [97] (Some (VInteger 1)); mk_bin [98] (Some (VInteger 2))].

Lemma reused_record_overcounts_witness :
  exists rec', @as_command_parse_result x86_64 sock (sock_reader 20) 100 400 blank_bins
      (ready_sock 2 (answer 2 3 (sample_msg 0 0 2) (wire_bins sample_ops) ++ [])) no_error (Some (Some full_record))
      = URet (AEROSPIKE_OK, no_error, Some (Some rec'), ready_sock 0 [])
    /\ bins_size rec' = 4 /\ bins_capacity rec' = 2 /\ bins_capacity rec' < bins_size rec'.
Proof.
  apply (@reused_record_overcounts x86_64 sock (sock_reader 20) 100 400 blank_bins _ _ 2 3 (sample_msg 0 0 2) sample_ops
           [] full_record no_error).
  all: try reflexivity.
  - split; simpl; lia.
  - simpl. lia.
  - apply blank_bins_size.
  - apply sample_ops_storable.
  - answer_ready.
  - vm_compute. discriminate.
  - vm_compute. lia.
Defined.

(** The text "no" in a bin named FAILURE, behind another bin. *)
Lemma udf_answer_witness :
  let before := [mk_binop 2 (mk_bin [97] (Some VNil))] in
  let op := mk_binop 2 (mk_bin FAILURE (Some (VString [110; 111]))) in
  exists r, @as_command_parse_success_failure x86_64 sock (sock_reader 20) 100
      (ready_sock 2 (answer 2 3 (sample_msg 0 0 2) (wire_fields [] ++ wire_bins (before ++ [op])) ++ [])) no_error (Some None)
      = URet (AEROSPIKE_OK, r.1, r.2, ready_sock 0 [])
    /\ incoming (ready_sock 0 []) = [] /\ udf_outcome (VString [110; 111]) (name_of op) no_error None r.
Proof.
  intros before op.
  apply (@udf_answer x86_64 sock (sock_reader 20) 100 _ _ 2 3 (sample_msg 0 0 2) [] before op [] (VString [110; 111])
           [] no_error None); try reflexivity.
  - repeat constructor; [done|by eexists].
  - repeat constructor; done.
  - by right.
  - answer_ready.
  - vm_compute. discriminate.
  - vm_compute. lia.
Defined.

Lemma udf_null_result_witness :
  @as_command_parse_success_failure x86_64 sock (sock_reader 20) 100
    (ready_sock 2 (answer 2 3 (sample_msg 2 0 2) (wire_bins sample_ops) ++ [])) no_error None = UB.
Proof.
  apply (@udf_null_result x86_64 sock (sock_reader 20) 100 _ (ready_sock 0 []) 2 3 (sample_msg 2 0 2)
           (wire_bins sample_ops) [] no_error); [answer_ready|done|done].
Defined.

Lemma key_read_back_witness :
  let key' := mk_key [116; 101; 115; 116] [100; 101; 109; 111] None false (map Z.of_nat (seq 1 20)) in
  @as_command_parse_key x86_64 (wire_key KEY_DIGEST sample_key) 0 3 new_key = Some (key', 43)
  /\ @as_key_set_digest x86_64 (fun _ => replicate 20 0) key' = None.
Proof.
  destruct (@key_read_back x86_64 (fun _ => replicate 20 0) (wire_key KEY_DIGEST sample_key) 0 KEY_DIGEST sample_key new_key
              (sample_key_ready _)) as [Hk Hn]; [reflexivity..|done| |].
  - exists [], []. rewrite app_nil_r. split; [done|]. split; [done|]. vm_compute. discriminate.
  - split; [exact Hk|by apply Hn].
Defined.

(** The byte 255 alone is -1; with seven bytes behind it, it is not. *)
Lemma short_integers_witness :
  @as_command_bytes_to_int x86_64 [255; 0; 0; 0; 0; 0; 0; 0] 0 1 = Some (0, Some (- 2 ^ 56))
  /\ @as_command_bytes_to_int x86_64 [255] 0 1 = None.
Proof.
  split.
  - destruct (@short_integers x86_64 [255; 0; 0; 0; 0; 0; 0; 0] 0 255 []) as [He _].
    + repeat constructor; unfold is_byte; lia.
    + done.
    + exists [], [0; 0; 0; 0; 0; 0; 0]. split; [done|]. split; [done|]. vm_compute. discriminate.
    + change (blen [255]) with 1 in He. rewrite He. reflexivity.
  - reflexivity.
Defined.
