(* ===== verification/Execute.v ===== *)
(** * Executing a command

    Models [as_command_execute] of [src/main/aerospike/as_command.c] and the
    functions of [src/main/aerospike/aerospike_key.c] that are built on it.

    What the loop calls (nodes, their connection pools, sockets, the clock) is the
    class [Services]; reads of a connection obey the law of [Reader].  The loop
    records what it takes and gives back as a list of events.  [Deep] stands for a
    service that does not answer. *)

From S2P Require Import Prelude ByteOrder Value Msgpack Roundtrip Wire Socket Parse.

Definition AEROSPIKE_ERR_SCAN_ABORTED : Z := 15.
Definition AEROSPIKE_ERR_QUERY_ABORTED : Z := 210.

Definition retry_count (r : as_policy_retry) : Z := match r with RETRY_NONE => 0 | RETRY_ONCE => 1 end.

Record as_command_node := mk_cn {
  cn_node : option Z;
  cn_ns : list Z;
  cn_digest : list Z;
  cn_replica : as_policy_replica;
  cn_write : bool
}.

(** Nodes and descriptors are numbers.  [send] and [recv] are
    [as_socket_write_deadline] and [as_socket_read_deadline] on a descriptor. *)
Class Services (W : Type) := {
  as_node_get : W -> as_command_node -> ures (option Z * W);
  as_node_get_connection : W -> Z -> ures (Z * Z * W);
  as_node_put_connection : W -> Z -> Z -> ures W;
  as_node_release : W -> Z -> ures W;
  as_close : W -> Z -> ures W;
  cf_getms : W -> Z * W;
  usleep : W -> Z -> W;
  send : W -> Z -> list Z -> Z -> ures (Z * W);
  recv : W -> Z -> Z -> Z -> ures (Z * list Z * W);
  stream : W -> Z -> list Z;
  recv_exact w fd n deadline : 0 < n ->
    match recv w fd n deadline with
    | URet (st, bs, w') => blen bs = n /\ (st = AEROSPIKE_OK ->
        bs = take (Z.to_nat n) (stream w fd) /\ n <= blen (stream w fd)
        /\ stream w' fd = drop (Z.to_nat n) (stream w fd))
    | UB => False
    | Deep => True
    end
}.

(** A descriptor of the services is a connection. *)
#[export, refine] Instance fd_reader `{Services W} (fd deadline : Z) : Reader W :=
  {| rd w n := recv w fd n deadline; pending w := stream w fd |}.
Proof. intros w n Hn. apply (recv_exact w fd n deadline Hn). Defined.

(** What the loop takes, gives back, sends and waits for. *)
Inductive event :=
  | NodeGet (node : Z) | NodeRelease (node : Z)
  | ConnGet (node fd : Z) | ConnPut (node fd : Z) | ConnClose (fd : Z)
  | Sent (fd : Z) (command : list Z)
  | Slept (ms : Z).

Section Execute.
Context `{Platform} `{Services W} {D : Type}.

(** [parse_results_fn] on a descriptor with a deadline. *)
Context (parse : W -> Z -> Z -> as_error -> D -> ures (Z * as_error * D * W)).

Record exec := mk_exec {
  x_w : W;
  x_command : list Z;
  x_err : as_error;
  x_data : D;
  x_iterations : Z;
  x_failed_nodes : Z;
  x_failed_conns : Z;
  x_trace : list event
}.

(** [x] after [evs], with the services in state [w]. *)
Definition step (x : exec) (w : W) (evs : list event) : exec :=
  mk_exec w (x_command x) (x_err x) (x_data x) (x_iterations x) (x_failed_nodes x) (x_failed_conns x)
    (x_trace x ++ evs).
Definition failed_node (x : exec) : exec :=
  mk_exec (x_w x) (x_command x) (x_err x) (x_data x) (x_iterations x) (u32 (x_failed_nodes x + 1))
    (x_failed_conns x) (x_trace x).
Definition failed_conn (x : exec) : exec :=
  mk_exec (x_w x) (x_command x) (x_err x) (x_data x) (x_iterations x) (x_failed_nodes x)
    (u32 (x_failed_conns x + 1)) (x_trace x).
Definition parsed (x : exec) (w : W) (err : as_error) (data : D) : exec :=
  mk_exec w (x_command x) err data (x_iterations x) (x_failed_nodes x) (x_failed_conns x) (x_trace x).
Definition with_code (x : exec) (status : Z) : exec :=
  parsed x (x_w x) (mk_error status (err_message (x_err x))) (x_data x).

Definition release (release_node : bool) (node : Z) (x : exec) : ures exec :=
  if release_node then let* w := as_node_release (x_w x) node in URet (step x w [NodeRelease node]) else URet x.
(** The connection is closed, then the node released. *)
Definition close (fd : Z) (release_node : bool) (node : Z) (x : exec) : ures exec :=
  let* w := as_close (x_w x) fd in release release_node node (step x w [ConnClose fd]).

(** What follows an attempt: [return status], or [goto Retry] with the time to sleep. *)
Inductive verdict := Return (status : Z) | Retry (sleep_ms : Z).

Definition pick_node (cn : as_command_node) (x : exec) : ures (option Z * bool * exec) :=
  match cn_node cn with
  | Some node => URet (Some node, false, x)
  | None =>
      let* (node, w) := as_node_get (x_w x) cn in
      URet (node, true, step x w match node with Some n => [NodeGet n] | None => [] end)
  end.

(** The body of the loop, up to the label. *)
Definition attempt (cn : as_command_node) (deadline_ms : Z) (x : exec) : ures (exec * verdict) :=
  let* (node, release_node, x) := pick_node cn x in
  match node with
  | None => URet (failed_node x, Retry 10)
  | Some node =>
      let* (status, fd, w) := as_node_get_connection (x_w x) node in
      if negb (status =? 0) then
        let* x := release release_node node (step x w []) in URet (failed_conn x, Retry 1)
      else
        let x := step x w [ConnGet node fd] in
        let* (status, w) := send (x_w x) fd (x_command x) deadline_ms in
        let x := step x w [Sent fd (x_command x)] in
        if negb (status =? 0) then
          let* x := close fd release_node node (parsed x (x_w x) (socket_error (x_err x) status) (x_data x)) in
          URet (x, Retry 0)
        else
          let* (status, err, data, w) := parse (x_w x) fd deadline_ms (x_err x) (x_data x) in
          let x := parsed x w err data in
          if negb (status =? 0) && (status =? AEROSPIKE_ERR_TIMEOUT)
          then let* x := close fd release_node node x in URet (x, Retry 0)
          else if (status =? AEROSPIKE_ERR_QUERY_ABORTED) || (status =? AEROSPIKE_ERR_SCAN_ABORTED)
                  || (status =? AEROSPIKE_ERR_CLIENT)
          then let* x := close fd release_node node x in URet (with_code x status, Return status)
          else
            let x := if status =? 0 then x else with_code x status in
            let* w := as_node_put_connection (x_w x) node fd in
            let* x := release release_node node (step x w [ConnPut node fd]) in
            URet (x, Return status)
  end.

(** From the label to the end of the loop: [None] for [break]. *)
Definition retry_step (max_retries deadline_ms sleep_ms : Z) (x : exec) : ures (option exec * exec) :=
  let x := mk_exec (x_w x) (x_command x) (x_err x) (x_data x) (u32 (x_iterations x + 1)) (x_failed_nodes x)
             (x_failed_conns x) (x_trace x) in
  if max_retries <? x_iterations x then URet (None, x)
  else
    let slept x := if 0 <? sleep_ms then step x (usleep (x_w x) (sleep_ms * 1000)) [Slept sleep_ms] else x in
    if 0 <? deadline_ms then
      let '(ms, w) := cf_getms (x_w x) in
      let x := step x w [] in
      let remaining_ms := i32 (u64 (deadline_ms - ms - sleep_ms)) in
      if remaining_ms <=? 0 then URet (None, x)
      else
        let* command := lift (store_be32 (x_command x) 22 remaining_ms) in
        let x := slept (mk_exec (x_w x) command (x_err x) (x_data x) (x_iterations x) (x_failed_nodes x)
                          (x_failed_conns x) (x_trace x)) in
        URet (Some x, x)
    else let x := slept x in URet (Some x, x).

(** The loop.  It makes at most [max_retries + 1] attempts, so that this much fuel is
    never used up. *)
Fixpoint execute_loop (fuel : nat) (cn : as_command_node) (timeout_ms max_retries deadline_ms : Z) (x : exec)
  : ures (Z * exec) :=
  match fuel with
  | O => Deep
  | S fuel =>
      let* (x, v) := attempt cn deadline_ms x in
      match v with
      | Return status => URet (status, x)
      | Retry sleep_ms =>
          let* (next, x) := retry_step max_retries deadline_ms sleep_ms x in
          match next with
          | Some x => execute_loop fuel cn timeout_ms max_retries deadline_ms x
          | None =>
              URet (AEROSPIKE_ERR_TIMEOUT,
                    parsed x (x_w x)
                      (mk_error AEROSPIKE_ERR_TIMEOUT
                         (MClientTimeout timeout_ms (x_iterations x) (x_failed_nodes x) (x_failed_conns x)))
                      (x_data x))
          end
      end
  end.

(** [as_socket_deadline]: the clock is only read for a timeout. *)
Definition start_clock (w : W) (timeout_ms : Z) : Z * W :=
  if negb (timeout_ms =? 0) && (timeout_ms <=? 2 ^ 31 - 1)
  then let '(ms, w) := cf_getms w in (as_socket_deadline ms timeout_ms, w) else (0, w).

Definition as_command_execute (w : W) (err : as_error) (cn : as_command_node) (command : list Z)
    (timeout_ms : Z) (retry : as_policy_retry) (data : D) : ures (Z * exec) :=
  let '(deadline_ms, w) := start_clock w timeout_ms in
  let max_retries := retry_count retry + 1 in
  execute_loop (Z.to_nat (max_retries + 1)) cn timeout_ms max_retries deadline_ms
    (mk_exec w command err data 0 0 0 []).

End Execute.

(** ** The operations on a key

    Each takes the policy (NULL for the configured one) and gives the status, the error,
    the key with its digest, what the result pointer holds, the services and the
    events. *)

Section Operations.
Context `{Platform} `{Services W}.
Context (hpux : bool) (ripemd160 : list Z -> list Z) (uninit : Z -> list Z).
Context (fuel : nat) (clepoch : Z) (uninit_bins : Z -> list as_bin).

Definition parse_result_fn (w : W) (fd deadline : Z) (err : as_error) (rec : option (option as_record)) :=
  as_command_parse_result (H0 := fd_reader fd deadline) fuel clepoch uninit_bins w err rec.
Definition parse_header_fn (w : W) (fd deadline : Z) (err : as_error) (msg : option as_msg)
  : ures (Z * as_error * option as_msg * W) :=
  let* (status, err, m, w) := as_command_parse_header (H0 := fd_reader fd deadline) w err in
  URet (status, err, match m with Some m => Some m | None => msg end, w).
Definition parse_success_failure_fn (w : W) (fd deadline : Z) (err : as_error) (val : option (option as_val)) :=
  as_command_parse_success_failure (H0 := fd_reader fd deadline) fuel w err val.

Definition opres (R : Type) : Type := ures (Z * as_error * as_key * R * W * list event).

(** The digest is set first; a key of another type is refused. *)
Definition with_digest {R} (w : W) (key : as_key) (r : R) (k : as_key -> opres R) : opres R :=
  let* (status, key) := lift (as_key_set_digest ripemd160 key) in
  if negb (status =? AEROSPIKE_OK)
  then URet (status, mk_error status (MInvalidKey (default 0 (as_val_type <$> key_valuep key))), key, r, w, [])
  else k key.

(** [as_command_node_init] and [as_command_execute] on a finished command. *)
Definition run {R} (parse : W -> Z -> Z -> as_error -> R -> ures (Z * as_error * R * W)) (w : W) (key : as_key)
    (replica : as_policy_replica) (write : bool) (cmd : list Z) (timeout : Z) (retry : as_policy_retry) (r : R)
  : opres R :=
  let* (status, x) := as_command_execute parse w no_error
                        (mk_cn None (key_ns key) (digest_value key) replica write) cmd timeout retry r in
  URet (status, x_err x, key, x_data x, x_w x, x_trace x).

Definition aerospike_key_get (config : as_policy_read) (w : W) (policy : option as_policy_read) (key : as_key)
    (rec : option (option as_record)) : opres (option (option as_record)) :=
  let policy := default config policy in
  with_digest w key rec (fun key =>
    let* cmd := lift (key_get_command hpux uninit policy key) in
    run parse_result_fn w key (read_replica policy) false cmd (read_timeout policy) RETRY_NONE rec).

Definition aerospike_key_select (config : as_policy_read) (w : W) (policy : option as_policy_read) (key : as_key)
    (bins : list (list Z)) (rec : option (option as_record)) : opres (option (option as_record)) :=
  let policy := default config policy in
  with_digest w key rec (fun key =>
    let* cmd := lift (key_select_command hpux uninit policy key bins) in
    match cmd with
    | inl status => URet (status, mk_error status MBinTooLong, key, rec, w, [])
    | inr cmd => run parse_result_fn w key (read_replica policy) false cmd (read_timeout policy) RETRY_NONE rec
    end).

(** The header is not in host order here, and the void time is not converted. *)
Definition exists_record (status : Z) (msg : option as_msg) (rec : option (option as_record))
  : option (option (option as_record)) :=
  match rec with
  | None => Some None
  | Some r =>
      if status =? AEROSPIKE_OK then
        m ← msg;
        let r := default (as_record_new uninit_bins 0) r in
        Some (Some (Some (mk_record (rec_key r) (u16 (generation m)) (record_ttl m) (bins_free r)
                            (bins_capacity r) (bins_size r) (bins_entries r))))
      else Some (Some None)
  end.

Definition aerospike_key_exists (config : as_policy_read) (w : W) (policy : option as_policy_read) (key : as_key)
    (rec : option (option as_record)) : opres (option (option as_record)) :=
  let policy := default config policy in
  with_digest w key rec (fun key =>
    let* cmd := lift (key_exists_command hpux uninit policy key) in
    let* (status, err, key, msg, w, t) :=
      run parse_header_fn w key (read_replica policy) false cmd (read_timeout policy) RETRY_NONE None in
    let* rec := lift (exists_record status msg rec) in
    URet (status, err, key, rec, w, t)).

Definition aerospike_key_put (config : as_policy_write) (w : W) (policy : option as_policy_write) (key : as_key)
    (bins : list as_bin) (gen ttl : Z) : opres (option as_msg) :=
  let policy := default config policy in
  with_digest w key None (fun key =>
    let* cmd := lift (key_put_command hpux uninit policy key bins gen ttl) in
    run parse_header_fn w key REPLICA_MASTER true cmd (write_timeout policy) (write_retry policy) None).

(** Removing what is not there is a success. *)
Definition aerospike_key_remove (config : as_policy_remove) (w : W) (policy : option as_policy_remove) (key : as_key)
  : opres (option as_msg) :=
  let policy := default config policy in
  with_digest w key None (fun key =>
    let* cmd := lift (key_remove_command hpux policy key) in
    let* (status, err, key, msg, w, t) :=
      run parse_header_fn w key REPLICA_MASTER true cmd (remove_timeout policy) (remove_retry policy) None in
    let status := if (status =? AEROSPIKE_OK) || (status =? AEROSPIKE_ERR_RECORD_NOT_FOUND)
                  then AEROSPIKE_OK else status in
    URet (status, err, key, msg, w, t)).

Definition aerospike_key_operate (config : as_policy_operate) (w : W) (policy : option as_policy_operate)
    (key : as_key) (ops : list as_binop) (gen ttl : Z) (rec : option (option as_record))
  : opres (option (option as_record)) :=
  let policy := default config policy in
  with_digest w key rec (fun key =>
    let* cmd := lift (key_operate_command hpux policy key ops gen ttl) in
    run parse_result_fn w key (operate_replica policy) (negb ((fold_left op_attrs ops (0, 0)).2 =? 0)) cmd
      (operate_timeout policy) (operate_retry policy) rec).

Definition aerospike_key_apply (config : as_policy_apply) (w : W) (policy : option as_policy_apply) (key : as_key)
    (module_ function : list Z) (arglist : as_val) (result : option (option as_val)) : opres (option (option as_val)) :=
  let policy := default config policy in
  with_digest w key result (fun key =>
    let* cmd := lift (key_apply_command hpux uninit policy key module_ function arglist) in
    run parse_success_failure_fn w key REPLICA_MASTER true cmd (apply_timeout policy) RETRY_NONE result).

End Operations.

(** ** What a call does *)

(** The node is taken and released around [evs], unless it was given. *)
Definition bracket (rel : bool) (node : Z) (evs : list event) : list event :=
  if rel then NodeGet node :: evs ++ [NodeRelease node] else evs.

(** An attempt that is given up: no node, no connection, or a connection that is
    closed after the command was sent. *)
Inductive failed_attempt (rel : bool) (command : list Z) : list event -> Prop :=
  | F_no_node : rel = true -> failed_attempt rel command []
  | F_no_connection node : failed_attempt rel command (bracket rel node [])
  | F_closed node fd :
      failed_attempt rel command (bracket rel node [ConnGet node fd; Sent fd command; ConnClose fd]).

Definition aborted (status : Z) : bool :=
  (status =? AEROSPIKE_ERR_QUERY_ABORTED) || (status =? AEROSPIKE_ERR_SCAN_ABORTED) || (status =? AEROSPIKE_ERR_CLIENT).

(** An attempt that ends the call: the connection goes back to its pool, or is closed
    when data may be left in it. *)
Inductive final_attempt (rel : bool) (command : list Z) (status : Z) : list event -> Prop :=
  | A_put node fd : aborted status = false -> status <> AEROSPIKE_ERR_TIMEOUT ->
      final_attempt rel command status (bracket rel node [ConnGet node fd; Sent fd command; ConnPut node fd])
  | A_closed node fd : aborted status = true ->
      final_attempt rel command status (bracket rel node [ConnGet node fd; Sent fd command; ConnClose fd]).

Definition pause (evs : list event) : Prop := evs = [] \/ exists ms, evs = [Slept ms].

(** The command as it was, or with another timeout in its header. *)
Definition retimed `{Platform} (command command' : list Z) : Prop :=
  command' = command \/ exists ms, 0 < ms < 2 ^ 31 /\ store_be32 command 22 ms = Some command'.

(** [n] attempts that end with [status]. *)
Inductive session `{Platform} (rel : bool) (status : Z) : list Z -> nat -> list event -> Prop :=
  | S_ended command t : final_attempt rel command status t -> session rel status command 1 t
  | S_gave_up command t : status = AEROSPIKE_ERR_TIMEOUT -> failed_attempt rel command t ->
      session rel status command 1 t
  | S_retried command command' n t p t' :
      failed_attempt rel command t -> pause p -> retimed command command' ->
      session rel status command' n t' -> session rel status command (S n) (t ++ p ++ t').

Definition releases (cn : as_command_node) : bool := match cn_node cn with Some _ => false | None => true end.

(** A command for a given node takes no connection of another. *)
Definition at_node (cn : as_command_node) (e : event) : Prop :=
  match cn_node cn, e with
  | Some n, ConnGet m _ | Some n, ConnPut m _ => m = n
  | _, _ => True
  end.

Section ExecuteProofs.
Context `{Platform} `{Services W} {D : Type}.
Context (parse : W -> Z -> Z -> as_error -> D -> ures (Z * as_error * D * W)).

(** [x'] is [x] some events later. *)
Definition follows (x x' : exec (W := W) (D := D)) (t : list event) : Prop :=
  x_trace x' = x_trace x ++ t /\ x_command x' = x_command x /\ x_iterations x' = x_iterations x.

Lemma follows_step x x' w t evs : follows x x' t -> follows x (step x' w evs) (t ++ evs).
Proof. intros (Ht & Hc & Hi). unfold follows. cbn. by rewrite Ht, app_assoc. Qed.

Lemma follows_same x x' x'' t :
  x_trace x'' = x_trace x' -> x_command x'' = x_command x' -> x_iterations x'' = x_iterations x' ->
  follows x x' t -> follows x x'' t.
Proof. intros Ht Hc Hi (Ht' & Hc' & Hi'). unfold follows. by rewrite Ht, Hc, Hi. Qed.

Lemma release_spec x x' x'' (rel : bool) node evs :
  follows x x' ((if rel then [NodeGet node] else []) ++ evs) -> release rel node x' = URet x'' ->
  follows x x'' (bracket rel node evs).
Proof.
  unfold release, bracket. destruct rel; [|by intros ? [= <-]]. intros Hf.
  destruct (as_node_release (x_w x') node) as [w| |]; [|done..]. intros [= <-]. eapply follows_step in Hf.
  rewrite <- app_assoc in Hf. exact Hf.
Qed.

Lemma close_spec x x' x'' fd (rel : bool) node evs :
  follows x x' ((if rel then [NodeGet node] else []) ++ evs) -> close fd rel node x' = URet x'' ->
  follows x x'' (bracket rel node (evs ++ [ConnClose fd])).
Proof.
  unfold close. intros Hf. destruct (as_close (x_w x') fd) as [w| |]; [|done..]. cbn [ubind]. intros Hr.
  eapply release_spec; [|exact Hr]. rewrite app_assoc. by apply follows_step.
Qed.

Lemma pick_node_spec cn x node rel x' :
  pick_node cn x = URet (node, rel, x') ->
  rel = releases cn /\ follows x x' match node with Some n => if rel then [NodeGet n] else [] | None => [] end
  /\ (node = None -> rel = true) /\ (rel = false -> cn_node cn = node).
Proof.
  unfold pick_node, releases. destruct (cn_node cn) as [n|].
  - intros [= <- <- <-]. split; [done|]. split; [|done]. unfold follows. by rewrite app_nil_r.
  - destruct (as_node_get (x_w x) cn) as [[[n|] w]| |]; [| |done..]; intros [= <- <- <-]; (split; [done|]; split; [|done]);
      unfold follows; cbn; by rewrite ?app_nil_r.
Qed.

Lemma bracket_at cn node evs :
  (releases cn = false -> cn_node cn = Some node) -> Forall (fun e => forall m fd, e = ConnGet m fd \/ e = ConnPut m fd -> m = node) evs ->
  Forall (at_node cn) (bracket (releases cn) node evs).
Proof.
  intros Hn Hev. unfold bracket, releases, at_node in *. destruct (cn_node cn) as [n|].
  - specialize (Hn eq_refl) as [= ->]. eapply Forall_impl; [exact Hev|]. intros e He. destruct e; try done; eapply He; auto.
  - apply Forall_true. by intros [].
Qed.

Lemma attempt_spec cn deadline x x' v :
  attempt parse cn deadline x = URet (x', v) ->
  exists t, follows x x' t
    /\ match v with
       | Retry _ => failed_attempt (releases cn) (x_command x) t
       | Return status => final_attempt (releases cn) (x_command x) status t
       end
    /\ Forall (at_node cn) t.
Proof.
  unfold attempt. destruct (pick_node cn x) as [[[node rel] x1]| |] eqn:Ep; [|done..]. cbn [ubind].
  apply pick_node_spec in Ep as (-> & Hf1 & Hno & Hgiven). destruct node as [node|].
  2:{ intros [= <- <-]. exists []. split; [by eapply follows_same|]. split; [|constructor]. constructor. by apply Hno. }
  assert (forall fd evs, evs = [] \/ evs = [ConnGet node fd; Sent fd (x_command x); ConnClose fd]
    \/ evs = [ConnGet node fd; Sent fd (x_command x); ConnPut node fd] -> Forall (at_node cn) (bracket (releases cn) node evs)) as Hat.
  { intros fd evs Hev. apply bracket_at; [done|]. destruct Hev as [->|[->| ->]]; repeat constructor; intros m d [E|E]; congruence. }
  destruct (as_node_get_connection (x_w x1) node) as [[[st fd] w2]| |]; [|done..]. cbn [ubind]. set (rel := releases cn) in *.
  destruct (negb (st =? 0)).
  { destruct (release rel node (step x1 w2 [])) as [x2| |] eqn:Er; [|done..]. intros [= <- <-].
    exists (bracket rel node []). split; [|split; [constructor|apply (Hat 0); by left]]. eapply follows_same; [..|eapply release_spec; [|exact Er]]; [done..|].
    by apply follows_step. }
  pose proof (follows_step _ _ w2 _ [ConnGet node fd] Hf1) as Hf2. set (x2 := step x1 w2 _) in *. clearbody x2.
  destruct (send (x_w x2) fd (x_command x2) deadline) as [[st2 w3]| |]; [|done..]. cbn [ubind].
  assert (x_command x2 = x_command x) as Hc by apply Hf2. rewrite Hc.
  pose proof (follows_step _ _ w3 _ [Sent fd (x_command x)] Hf2) as Hf3. rewrite <- app_assoc in Hf3. set (x3 := step x2 w3 _) in *. clearbody x3.
  assert (forall y z, follows x y ((if rel then [NodeGet node] else []) ++ [ConnGet node fd; Sent fd (x_command x)]) ->
    close fd rel node y = URet z -> follows x z (bracket rel node [ConnGet node fd; Sent fd (x_command x); ConnClose fd])) as Hclose.
  { intros y z Hy Hz. exact (close_spec _ _ _ _ _ _ _ Hy Hz). }
  destruct (negb (st2 =? 0)).
  { destruct (close fd rel node _) as [z| |] eqn:Ez; [|done..]. intros [= <- <-].
    eexists. split; [eapply Hclose, Ez; by eapply follows_same|]. split; [constructor|apply (Hat fd); auto]. }
  destruct (parse _ _ _ _ _) as [[[[st3 err] data] w4]| |]; [|done..]. cbn [ubind].
  eapply (follows_same _ _ (parsed x3 w4 err data)) in Hf3; [|done..]. set (x4 := parsed x3 w4 err data) in *. clearbody x4.
  destruct (negb (st3 =? 0) && (st3 =? AEROSPIKE_ERR_TIMEOUT)) eqn:Et.
  { destruct (close fd rel node x4) as [z| |] eqn:Ez; [|done..]. intros [= <- <-].
    eexists. split; [by eapply Hclose|]. split; [constructor|apply (Hat fd); auto]. }
  fold (aborted st3). destruct (aborted st3) eqn:Ea.
  { destruct (close fd rel node x4) as [z| |] eqn:Ez; [|done..]. intros [= <- <-].
    eexists. split; [|split; [by constructor|apply (Hat fd); auto]]. eapply (follows_same _ z); [done..|by eapply Hclose]. }
  eapply (follows_same _ _ (if st3 =? 0 then x4 else with_code x4 st3)) in Hf3; [|by destruct (st3 =? 0)..].
  set (x5 := if st3 =? 0 then _ else _) in *. clearbody x5.
  destruct (as_node_put_connection (x_w x5) node fd) as [w6| |]; [|done..]. cbn [ubind].
  destruct (release rel node _) as [z| |] eqn:Ez; [|done..]. intros [= <- <-].
  exists (bracket rel node [ConnGet node fd; Sent fd (x_command x); ConnPut node fd]). split.
  - eapply release_spec; [|exact Ez]. eapply follows_step in Hf3. rewrite <- app_assoc in Hf3. exact Hf3.
  - split; [|apply (Hat fd); auto]. constructor; [done|]. intros ->. by rewrite (Z.eqb_refl _) in Et.
Qed.

Lemma retry_step_spec max_retries deadline sleep_ms (x : exec (W := W) (D := D)) r x2 :
  retry_step max_retries deadline sleep_ms x = URet (r, x2) ->
  match r with
  | Some x1 => exists p, pause p /\ x_trace x1 = x_trace x ++ p /\ retimed (x_command x) (x_command x1)
      /\ x_iterations x1 = u32 (x_iterations x + 1) /\ x_iterations x1 <= max_retries
  | None => x_trace x2 = x_trace x /\ x_command x2 = x_command x
  end.
Proof.
  unfold retry_step. cbn [x_iterations x_w x_command]. destruct (Z.ltb_spec max_retries (u32 (x_iterations x + 1))).
  { by intros [= <- <-]. }
  destruct (0 <? deadline).
  - destruct (cf_getms (x_w x)) as [ms w]. cbn [step x_command]. set (rem := i32 _).
    destruct (Z.leb_spec rem 0) as [|Hrem]; [intros [= <- <-]; cbn; by rewrite app_nil_r|].
    destruct (store_be32 (x_command x) 22 rem) as [command|] eqn:Es; [|done]. cbn [lift ubind].
    assert (retimed (x_command x) command) as Hr.
    { right. exists rem. split; [|done]. split; [done|]. apply i32_range. }
    destruct (0 <? sleep_ms); intros [= <- <-]; [exists [Slept sleep_ms]|exists []]; cbn;
      rewrite !app_nil_r; (split; [by (left + (right; eexists))|]); done.
  - destruct (0 <? sleep_ms); intros [= <- <-]; [exists [Slept sleep_ms]|exists []]; cbn;
      rewrite ?app_nil_r; (split; [by (left + (right; eexists))|]); (split; [done|]); (split; [by left|]); done.
Qed.

Lemma execute_loop_session fuel cn timeout_ms max_retries deadline x st x' :
  execute_loop parse fuel cn timeout_ms max_retries deadline x = URet (st, x') ->
  exists n t, (n <= fuel)%nat /\ session (releases cn) st (x_command x) n t /\ x_trace x' = x_trace x ++ t
    /\ Forall (at_node cn) t.
Proof.
  revert x. induction fuel as [|fuel IH]; intros x; [done|]. cbn [execute_loop].
  destruct (attempt parse cn deadline x) as [[x1 v]| |] eqn:Ea; [|done..]. cbn [ubind].
  apply attempt_spec in Ea as (t & (Ht & Hc & _) & Hv & Hat). destruct v as [status|sleep_ms].
  { intros [= <- <-]. exists 1%nat, t. split; [lia|]. by split; [constructor|]. }
  destruct (retry_step max_retries deadline sleep_ms x1) as [[r x2]| |] eqn:Er; [|done..]. cbn [ubind].
  apply retry_step_spec in Er. destruct r as [x3|].
  - destruct Er as (p & Hp & Htp & Hr & _). intros Hl. apply IH in Hl as (n & t' & Hn & Hs & Ht' & Hat').
    exists (S n), (t ++ p ++ t'). split; [lia|]. rewrite Hc in Hr. split; [by econstructor|].
    split; [by rewrite Ht', Htp, Ht, !app_assoc|]. repeat apply Forall_app_2; [done| |done]. unfold at_node.
    destruct Hp as [->|[k ->]]; repeat constructor; by destruct (cn_node cn).
  - destruct Er as [Er _]. intros [= <- <-]. exists 1%nat, t. split; [lia|]. split; [by constructor|]. cbn. by rewrite Er, Ht.
Qed.

(** What holds of the command, whatever its timeout, holds afterwards. *)
Lemma execute_loop_command (I : list Z -> Prop) fuel cn timeout_ms max_retries deadline x st x' :
  (forall c c', I c -> retimed c c' -> I c') -> I (x_command x) ->
  execute_loop parse fuel cn timeout_ms max_retries deadline x = URet (st, x') -> I (x_command x').
Proof.
  intros HI. revert x. induction fuel as [|fuel IH]; intros x Hx; [done|]. cbn [execute_loop].
  destruct (attempt parse cn deadline x) as [[x1 v]| |] eqn:Ea; [|done..]. cbn [ubind].
  apply attempt_spec in Ea as (t & (_ & Hc & _) & _). rewrite <- Hc in Hx. destruct v as [status|sleep_ms]; [by intros [= <- <-]|].
  destruct (retry_step max_retries deadline sleep_ms x1) as [[r x2]| |] eqn:Er; [|done..]. cbn [ubind].
  apply retry_step_spec in Er. destruct r as [x3|].
  - destruct Er as (p & _ & _ & Hr & _). apply IH. by eapply HI.
  - destruct Er as [_ Er]. intros [= _ <-]. cbn. by rewrite Er.
Qed.

(** What the services promise to a call of the loop that asks for [cn]: [idle] holds while
    the call holds nothing, [has_node] while it holds a node, [has_conn] while it holds a
    connection of the node too.  Everything but a wait for the network returns; [answers]
    says that the network does. *)
Record promise (answers : Prop) (cn : as_command_node) (idle : W -> Prop) (has_node : W -> Z -> Prop)
    (has_conn : W -> Z -> Z -> Prop) : Prop := {
  p_get w : idle w -> cn_node cn = None ->
    settles answers (as_node_get w cn) (fun r => match fst r with Some n => has_node (snd r) n | None => idle (snd r) end);
  p_given w n : cn_node cn = Some n -> idle w <-> has_node w n;
  p_connect w n : has_node w n ->
    settles answers (as_node_get_connection w n) (fun r =>
      let '(status, fd, w') := r in if status =? 0 then has_conn w' n fd else has_node w' n);
  p_put w n fd : has_conn w n fd -> settles answers (as_node_put_connection w n fd) (fun w' => has_node w' n);
  p_close w n fd : has_conn w n fd -> settles answers (as_close w fd) (fun w' => has_node w' n);
  p_release w n : has_node w n -> cn_node cn = None -> settles answers (as_node_release w n) idle;
  p_clock w : idle w -> idle (snd (cf_getms w));
  p_sleep w us : idle w -> idle (usleep w us);
  p_send w n fd command deadline : has_conn w n fd ->
    settles answers (send w fd command deadline) (fun r => has_conn (snd r) n fd);
  p_parse w n fd deadline err data : has_conn w n fd ->
    settles answers (parse w fd deadline err data) (fun r => has_conn (snd r) n fd)
}.

Section Promised.
Context (answers : Prop) (cn : as_command_node) (idle : W -> Prop) (has_node : W -> Z -> Prop) (has_conn : W -> Z -> Z -> Prop).
Context (P : promise answers cn idle has_node has_conn).
Implicit Types (x : exec (W := W) (D := D)).

Lemma release_safe node x :
  has_node (x_w x) node -> (releases cn = false -> cn_node cn = Some node) ->
  settles answers (release (releases cn) node x) (fun x' => idle (x_w x')).
Proof.
  intros Hn Hg. unfold release. destruct (releases cn) eqn:Er.
  - apply settles_bind. eapply settles_mono; [|done|].
    + apply (p_release _ _ _ _ _ P); [done|]. unfold releases in Er. by destruct (cn_node cn).
    + done.
  - cbn. by apply (p_given _ _ _ _ _ P _ node (Hg eq_refl)).
Qed.

Lemma close_safe fd node x :
  has_conn (x_w x) node fd -> (releases cn = false -> cn_node cn = Some node) ->
  settles answers (close fd (releases cn) node x) (fun x' => idle (x_w x')).
Proof.
  intros Hn Hg. unfold close. apply settles_bind. eapply settles_mono; [by apply (p_close _ _ _ _ _ P)|done|].
  intros w Hw. by apply release_safe.
Qed.

Lemma attempt_safe deadline x :
  idle (x_w x) -> settles answers (attempt parse cn deadline x) (fun r => idle (x_w (fst r))).
Proof.
  intros Hi. unfold attempt. apply settles_bind.
  apply (settles_mono answers answers _ (fun '(o, rel, x1) => rel = releases cn /\ (releases cn = false -> cn_node cn = o)
    /\ match o with Some n => has_node (x_w x1) n | None => idle (x_w x1) end)); [|done|].
  { unfold pick_node, releases. destruct (cn_node cn) as [n|] eqn:En.
    - cbn. split_and!; [done|done|by apply (p_given _ _ _ _ _ P)].
    - apply settles_bind. eapply settles_mono; [by apply (p_get _ _ _ _ _ P)|done|]. intros [o w] Ho. cbn in *. by split_and!. }
  intros [[[node|] rel] x1] (-> & Hg & Hn); [|done]. apply settles_bind.
  eapply settles_mono; [by apply (p_connect _ _ _ _ _ P)|done|]. intros [[st fd] w2] Hc.
  destruct (st =? 0); cbn [negb].
  2:{ apply settles_bind. eapply settles_mono; [by apply release_safe|done|]. done. }
  apply settles_bind. eapply settles_mono; [by apply (p_send _ _ _ _ _ P _ node)|done|]. intros [st2 w3] Hc3. cbn [snd] in Hc3.
  destruct (negb (st2 =? 0)).
  { apply settles_bind. eapply settles_mono; [by apply close_safe|done|]. done. }
  apply settles_bind. eapply settles_mono; [by apply (p_parse _ _ _ _ _ P _ node)|done|].
  intros [[[st3 err] data] w4] Hc4. cbn [snd] in Hc4.
  destruct (_ && _); [|destruct (_ || _)].
  1,2: apply settles_bind; eapply settles_mono; [by apply close_safe|done|]; done.
  apply settles_bind. eapply settles_mono; [apply (p_put _ _ _ _ _ P)|done|].
  { by destruct (st3 =? 0). }
  intros w5 Hn5. apply settles_bind. eapply settles_mono; [by apply release_safe|done|]. done.
Qed.
End Promised.

Lemma store_timeout command ms :
  26 <= blen command ->
  store_be32 command 22 ms = Some (take 22 command ++ be_bytes 4 ms ++ drop 26 command).
Proof.
  intros Hl. unfold store_be32, mwrite. rewrite put_be32_eq, be_bytes_length, decide_True by lia. done.
Qed.

Lemma retimed_length command command' : 26 <= blen command -> retimed command command' -> 26 <= blen command'.
Proof.
  intros Hl [->|(ms & _ & Hs)]; [done|]. rewrite store_timeout in Hs by done. apply (inj Some) in Hs. subst command'.
  rewrite !length_app, length_take, length_drop, be_bytes_length. lia.
Qed.

Lemma retry_step_safe answers (idle : W -> Prop) max_retries deadline sleep_ms (x : exec (W := W) (D := D)) :
  (forall w, idle w -> idle (snd (cf_getms w))) -> (forall w us, idle w -> idle (usleep w us)) ->
  26 <= blen (x_command x) -> idle (x_w x) ->
  settles answers (retry_step max_retries deadline sleep_ms x)
    (fun r => idle (x_w (snd r)) /\ match fst r with Some x1 => idle (x_w x1) | None => True end).
Proof.
  intros Hclock Hsleep Hl Hi. unfold retry_step. cbn [x_w x_command x_iterations]. destruct (max_retries <? _); [done|].
  destruct (0 <? deadline).
  2:{ case_match; cbn; by auto. }
  pose proof (Hclock _ Hi) as Hi'. destruct (cf_getms (x_w x)) as [ms w]. cbn [snd] in Hi'. cbn [step x_command].
  destruct (_ <=? 0); [done|]. rewrite store_timeout by done. cbn [lift ubind]. case_match; cbn; by auto.
Qed.

Lemma execute_loop_safe answers cn idle has_node has_conn fuel timeout_ms max_retries deadline x :
  promise answers cn idle has_node has_conn -> idle (x_w x) ->
  26 <= blen (x_command x) -> 0 <= x_iterations x <= max_retries -> max_retries < 2 ^ 31 ->
  max_retries - x_iterations x < Z.of_nat fuel ->
  settles answers (execute_loop parse fuel cn timeout_ms max_retries deadline x) (fun r => idle (x_w (snd r))).
Proof.
  intros P. revert x. induction fuel as [|fuel IH]; intros x Hx Hc Hi Hm Hf; [lia|]. cbn [execute_loop]. apply settles_bind.
  eapply settles_eq; [by eapply attempt_safe|]. intros [x1 v] Ea Hx1. cbn [fst] in Hx1.
  apply attempt_spec in Ea as (t & (_ & Hc1 & Hi1) & _). destruct v as [status|sleep_ms]; [done|]. apply settles_bind.
  eapply settles_eq; [apply (retry_step_safe _ idle)|].
  - apply (p_clock _ _ _ _ _ P).
  - apply (p_sleep _ _ _ _ _ P).
  - by rewrite Hc1.
  - done.
  - intros [r x2] Er [Hx2 Hr2]. cbn [fst snd] in *. apply retry_step_spec in Er. destruct r as [x3|]; [|done].
    destruct Er as (p & _ & _ & Hr & Hi3 & Hle). rewrite Hi1, u32_id in Hi3 by (unfold is_u32; lia).
    apply IH; [done| |lia|done|lia]. eapply retimed_length; [|exact Hr]. by rewrite Hc1.
Qed.

(** What a call that returned did. *)
Lemma execute_facts (I : list Z -> Prop) w err cn command timeout_ms retry data st x :
  (forall c c', I c -> retimed c c' -> I c') -> I command ->
  as_command_execute parse w err cn command timeout_ms retry data = URet (st, x) ->
  exists n, Z.of_nat n <= retry_count retry + 2 /\ session (releases cn) st command n (x_trace x)
    /\ Forall (at_node cn) (x_trace x) /\ I (x_command x).
Proof.
  unfold as_command_execute. destruct (start_clock w timeout_ms) as [deadline w1]. intros HI Hc He.
  pose proof He as Hx. apply (execute_loop_command I) in Hx; [|done..].
  assert (0 <= retry_count retry <= 1) as Hr by (destruct retry; cbn; lia).
  apply execute_loop_session in He as (n & t & Hn & Hs & Ht & Hat). cbn in Ht. subst t. exists n. split_and!; [lia|done..].
Qed.

Lemma execute_settles answers idle has_node has_conn w err cn command timeout_ms retry data :
  promise answers cn idle has_node has_conn -> idle w -> 26 <= blen command ->
  settles answers (as_command_execute parse w err cn command timeout_ms retry data) (fun r =>
    idle (x_w (snd r))
    /\ exists n, Z.of_nat n <= retry_count retry + 2 /\ session (releases cn) (fst r) command n (x_trace (snd r))).
Proof.
  intros P Hw Hc.
  apply (settles_eq _ _ (fun r => idle (x_w (snd r)))).
  - unfold as_command_execute. destruct (start_clock w timeout_ms) as [deadline w1] eqn:Ek.
    assert (idle w1) as Hw1.
    { unfold start_clock in Ek. case_match; [|by injection Ek as _ <-]. pose proof (p_clock _ _ _ _ _ P w Hw) as Hk.
      destruct (cf_getms w) as [ms w']. by injection Ek as _ <-. }
    assert (0 <= retry_count retry <= 1) as Hr by (destruct retry; cbn; lia).
    eapply (execute_loop_safe _ _ _ _ _ _ _ _ _ _ P); [done|done|cbn; lia|lia|cbn [x_iterations]; lia].
  - intros [st x] He Hx. cbn [fst snd] in *. split; [done|].
    apply (execute_facts (fun _ => True)) in He as (n & Hn & Hs & _); [by exists n|done..].
Qed.

(** C14: Executing a command.  When the services keep their promises, the call is safe and
    returns when the network does, after at most one attempt more than its retries (two
    with no retry, three with one), and it holds nothing afterwards.  Every attempt but
    the last is a failed one.  In each attempt the node is released exactly when the loop
    took it, and the connection is closed or put back exactly once, after the command was
    sent on it; it is put back only by the last attempt, with the answer of the server as
    the status.  Giving up is a timeout. *)
Theorem execute_ends answers idle has_node has_conn w err cn command timeout_ms retry data :
  promise answers cn idle has_node has_conn -> idle w -> 26 <= blen command ->
  settles answers (as_command_execute parse w err cn command timeout_ms retry data) (fun r =>
    idle (x_w (snd r))
    /\ exists n, Z.of_nat n <= retry_count retry + 2 /\ session (releases cn) (fst r) command n (x_trace (snd r))).
Proof. apply execute_settles. Qed.

(** ** Commands on the wire *)

(** A message whose timeout can be another. *)
Definition timed_message (i1 i2 i3 gen ttl nf nops : Z) (body : list Z) (timeout : Z) : list Z :=
  wire_message (wire_header i1 i2 i3 gen ttl timeout nf nops) body.

Lemma store_timed i1 i2 i3 gen ttl nf nops body timeout ms :
  store_be32 (timed_message i1 i2 i3 gen ttl nf nops body timeout) 22 ms
  = Some (timed_message i1 i2 i3 gen ttl nf nops body ms).
Proof.
  unfold timed_message, wire_message, wire_header, store_be32. rewrite put_be32_eq, !length_app, !be_bytes_length.
  rewrite <- !app_assoc. do 4 rewrite (app_assoc _ _ (be_bytes 4 timeout ++ _)).
  rewrite mwrite_at; [|rewrite !length_app, !be_bytes_length; reflexivity|by rewrite !be_bytes_length].
  by rewrite <- !app_assoc.
Qed.

(** The first timeout, or one that a retry wrote. *)
Definition timed (f : Z -> list Z) (timeout : Z) (command : list Z) : Prop :=
  exists ms, command = f ms /\ (ms = timeout \/ 0 < ms < 2 ^ 31).

Lemma retimed_timed i1 i2 i3 gen ttl nf nops body timeout c c' :
  let f := timed_message i1 i2 i3 gen ttl nf nops body in timed f timeout c -> retimed c c' -> timed f timeout c'.
Proof.
  intros f (ms & -> & Hms) [->|(k & Hk & Hs)]; [by exists ms|]. unfold f in Hs. rewrite store_timed in Hs. apply (inj Some) in Hs as <-.
  exists k. split; [done|by right].
Qed.

(** The events send only such messages. *)
Definition sends_timed (f : Z -> list Z) (timeout : Z) (e : event) : Prop :=
  match e with
  | Sent _ command => timed f timeout command
  | _ => True
  end.

Lemma session_sends i1 i2 i3 gen ttl nf nops body rel st n t ms timeout :
  session rel st (timed_message i1 i2 i3 gen ttl nf nops body ms) n t -> ms = timeout \/ 0 < ms < 2 ^ 31 ->
  Forall (sends_timed (timed_message i1 i2 i3 gen ttl nf nops body) timeout) t.
Proof.
  set (f := timed_message i1 i2 i3 gen ttl nf nops body).
  assert (forall ms node fd e, ms = timeout \/ 0 < ms < 2 ^ 31 ->
    sends_timed f timeout e -> Forall (sends_timed f timeout) (bracket rel node [ConnGet node fd; Sent fd (f ms); e])) as Hb.
  { intros k node fd e Hk He. assert (sends_timed f timeout (Sent fd (f k))) by (by exists k).
    destruct rel; cbn [bracket app]; repeat constructor; done. }
  assert (forall ms t, ms = timeout \/ 0 < ms < 2 ^ 31 -> failed_attempt rel (f ms) t -> Forall (sends_timed f timeout) t) as Hfail.
  { intros k t' Hk Ht. destruct Ht as [| |]; [constructor|destruct rel; repeat constructor|by apply Hb]. }
  intros Hs. remember (f ms) as command eqn:E. revert ms E. induction Hs as [? ? Ht|? ? _ Ht|? c' n t p t' Ht Hp Hr Hs IH];
    intros ms -> Hms; [destruct Ht; by apply Hb|by eapply Hfail|].
  repeat apply Forall_app_2; [by eapply Hfail| |].
  - destruct Hp as [->|[k ->]]; repeat constructor.
  - destruct Hr as [->|(k & Hk & Hst)]; [by eapply IH|]. unfold f in Hst. rewrite store_timed in Hst. apply (inj Some) in Hst.
    eapply IH; [done|by right].
Qed.

(** Whatever happens, the loop sends nothing but the message it was given, with
    another positive timeout in its header after a retry: everything else of the command,
    its length included, stays as it was built. *)
Theorem sent_only_retimed w err cn i1 i2 i3 gen ttl timeout nf nops body timeout_ms retry data st x :
  as_command_execute parse w err cn (timed_message i1 i2 i3 gen ttl nf nops body timeout) timeout_ms retry data
  = URet (st, x) ->
  Forall (sends_timed (timed_message i1 i2 i3 gen ttl nf nops body) timeout) (x_trace x).
Proof.
  intros He. apply (execute_facts (fun _ => True)) in He as (n & _ & Hs & _); [|done..].
  eapply session_sends; [exact Hs|by left].
Qed.

End ExecuteProofs.

(** ** A request and its answer *)

Section Requests.
Context `{Platform} `{Services W}.
Context (hpux : bool) (hpux_big : hpux = true -> host_endian = BigEndian).
Context (ripemd160 : list Z -> list Z) (uninit : Z -> list Z) (uninit_size : block_size uninit).
Context (fuel : nat) (clepoch : Z) (uninit_bins : Z -> list as_bin).
Context (uninit_bins_size : forall n, 0 <= n -> blen (uninit_bins n) = n).

(** The cluster has a node for the key, the node a connection, and the command is
    written: the services are then in state [w']. *)
Definition served (w : W) (cn : as_command_node) (timeout : Z) (command : list Z) (node fd deadline : Z) (w' : W) : Prop :=
  exists w1 w2 w3, start_clock w timeout = (deadline, w1) /\ as_node_get w1 cn = URet (Some node, w2)
    /\ as_node_get_connection w2 node = URet (AEROSPIKE_OK, fd, w3)
    /\ send w3 fd command deadline = URet (AEROSPIKE_OK, w').

(** What such a call leaves behind: the connection is put back, the node released. *)
Definition finished (w : W) (node fd : Z) (w' : W) : Prop :=
  exists w1, as_node_put_connection w node fd = URet w1 /\ as_node_release w1 node = URet w'.
Definition one_request (node fd : Z) (command : list Z) : list event :=
  [NodeGet node; ConnGet node fd; Sent fd command; ConnPut node fd; NodeRelease node].

Lemma run_served {R} parse w key replica write command timeout retry (r : R) node fd deadline w' status err r' w'' w3 :
  served w (mk_cn None (key_ns key) (digest_value key) replica write) timeout command node fd deadline w' ->
  parse w' fd deadline no_error r = URet (status, err, r', w'') ->
  aborted status = false -> status <> AEROSPIKE_ERR_TIMEOUT -> finished w'' node fd w3 ->
  run parse w key replica write command timeout retry r
  = URet (status, if status =? 0 then err else mk_error status (err_message err), key, r', w3,
          one_request node fd command).
Proof.
  intros (w1 & w2 & w4 & Hc & Hn & Hg & Hs) Hp Ha Ht (w5 & Hput & Hrel). unfold run, as_command_execute. rewrite Hc.
  assert (exists f, Z.to_nat (retry_count retry + 1 + 1) = S f) as [f ->] by (destruct retry; by eexists).
  cbn [execute_loop]. unfold attempt, pick_node. cbn [cn_node x_w]. rewrite Hn. cbn [ubind step x_w]. rewrite Hg.
  cbn [ubind negb Z.eqb AEROSPIKE_OK step x_w x_command]. rewrite Hs. cbn [ubind negb Z.eqb AEROSPIKE_OK step x_w x_err x_data].
  rewrite Hp. cbn [ubind]. destruct (Z.eqb_spec status AEROSPIKE_ERR_TIMEOUT); [done|]. rewrite andb_false_r.
  fold (aborted status). rewrite Ha. destruct (status =? 0); cbn [x_w with_code parsed]; rewrite Hput;
    cbn [ubind release step x_w]; rewrite Hrel; done.
Qed.

Lemma with_digest_ok {R} (w : W) key key' (r : R) k :
  as_key_set_digest ripemd160 key = Some (AEROSPIKE_OK, key') -> with_digest ripemd160 w key r k = k key'.
Proof. intros Hd. unfold with_digest. by rewrite Hd. Qed.

(** The message of a read without operations. *)
Definition read_request (policy : as_policy_read) (key : as_key) (attr : Z) : list Z :=
  wire_message (wire_header (info1_bits attr (read_consistency policy)) 0 0 0 0 (read_timeout policy)
                  (n_key_fields (read_key policy)) 0) (wire_key (read_key policy) key).

(** C1: Getting a record, from the call to the record.  The digest of the key is set,
    the request goes out on a connection of the node that has the key, and when the
    server's answer comes in, the record holds exactly the bins of the answer; the
    connection is back in its pool, the node is released, and the stream is left behind
    the answer. *)
Theorem get_returns_record w config policy key key' rec node fd deadline w1 w2 w3 version type m fields ops rest :
  let pol := default config policy in
  let request := read_request pol key' 3 in
  as_key_set_digest ripemd160 key = Some (AEROSPIKE_OK, key') -> key_ready (read_key pol) key' ->
  blen (wire_key (read_key pol) key') < 2 ^ 47 ->
  served w (mk_cn None (key_ns key') (digest_value key') (read_replica pol) false) (read_timeout pol) request
    node fd deadline w1 ->
  answered (H0 := fd_reader fd deadline) w1 w2 version type m (wire_fields fields ++ wire_bins ops) rest ->
  finished w2 node fd w3 ->
  result_code m = AEROSPIKE_OK -> n_fields m = blen fields -> n_ops m = blen ops ->
  Forall (fun op => bin_storable (binop_bin op)) ops -> record_ok rec -> counted m rec = 0 ->
  blen (wire_fields fields ++ wire_bins ops) <= INT_MAX ->
  (length (wire_fields fields ++ wire_bins ops) <= fuel)%nat ->
  exists rec', aerospike_key_get hpux ripemd160 uninit fuel clepoch uninit_bins config w policy key (Some rec)
      = URet (AEROSPIKE_OK, no_error, key', Some (Some rec'), w3, one_request node fd request)
    /\ stream w2 fd = rest
    /\ rec_gen rec' = u16 (generation m) /\ rec_ttl rec' = cf_server_void_time_to_ttl clepoch (record_ttl m)
    /\ bins_size rec' = blen ops
    /\ Forall2 bin_back (map binop_bin ops) (take (length ops) (bins_entries rec')).
Proof.
  intros pol request Hd Hk Hmax Hs Ha Hfin Hrc Hnf Hno Hst Hrec Hcnt Hb Hf.
  destruct (result_read (H0 := fd_reader fd deadline) fuel clepoch uninit_bins w1 w2 version type m fields ops rest rec no_error)
    as (rec' & bins & Hp & Hpend & Hg & Ht & Hz & _ & Hbins & Hback); [done..|].
  exists rec'. unfold aerospike_key_get. rewrite (with_digest_ok _ _ _ _ _ Hd). fold pol. unfold key_get_command.
  rewrite get_exists_message by done. cbn [lift ubind]. fold request. change AEROSPIKE_OK with 0 in Hp.
  split.
  - rewrite (run_served _ _ _ _ _ _ _ _ _ _ _ _ _ _ _ _ _ w3 Hs Hp); done.
  - split; [exact Hpend|]. split_and!; [done|done| |by rewrite Hbins]. rewrite Hz, Hcnt. apply u16_id.
    destruct Ha as ((_ & _ & _ & _ & Hn) & _). lia.
Qed.

(** Checking that a record exists.  The status is the server's; with OK the record
    gets the generation and the void time, but as they lie in the header: in network
    order, and as an absolute time where every other call gives a time to live. *)
Theorem exists_reports_header w config policy key key' rec node fd deadline w1 w2 w3 version type m rest :
  let pol := default config policy in
  let request := read_request pol key' 33 in
  let host x := match host_endian with BigEndian => x | LittleEndian => my_swab32 x end in
  as_key_set_digest ripemd160 key = Some (AEROSPIKE_OK, key') -> key_ready (read_key pol) key' ->
  blen (wire_key (read_key pol) key') < 2 ^ 47 ->
  served w (mk_cn None (key_ns key') (digest_value key') (read_replica pol) false) (read_timeout pol) request
    node fd deadline w1 ->
  msg_in_range m -> header_sz m = 22 -> stream w1 fd = answer version type m [] ++ rest ->
  delivers (H0 := fd_reader fd deadline) w1 AS_HEADER_SIZE w2 -> finished w2 node fd w3 ->
  result_code m = AEROSPIKE_OK ->
  exists rec', aerospike_key_exists hpux ripemd160 uninit uninit_bins config w policy key (Some rec)
      = URet (AEROSPIKE_OK, no_error, key', Some (Some rec'), w3, one_request node fd request)
    /\ rec_gen rec' = u16 (host (generation m)) /\ rec_ttl rec' = host (record_ttl m).
Proof.
  intros pol request host Hd Hk Hmax Hs Hm Hh Hp Hdel Hfin Hrc.
  destruct (header_answer (H0 := fd_reader fd deadline) w1 w2 version type m rest no_error Hm Hh Hp Hdel)
    as (m0 & Hpa & _ & Hg & Ht).
  rewrite Hrc in Hpa. cbn [header_error Z.eqb AEROSPIKE_OK orb] in Hpa.
  unfold aerospike_key_exists. rewrite (with_digest_ok _ _ _ _ _ Hd). fold pol. unfold key_exists_command.
  rewrite get_exists_message by done. cbn [lift ubind].
  assert (parse_header_fn w1 fd deadline no_error None = URet (AEROSPIKE_OK, no_error, Some m0, w2)) as Hpf.
  { unfold parse_header_fn. by rewrite Hpa. }
  change (run parse_header_fn w key' (read_replica pol) false (wire_message _ _)) with
    (run parse_header_fn w key' (read_replica pol) false request).
  rewrite (run_served _ _ _ _ _ _ _ _ _ _ _ _ _ _ _ _ _ w3 Hs Hpf) by done.
  cbn [ubind lift exists_record Z.eqb AEROSPIKE_OK mbind option_bind]. eexists. split; [reflexivity|].
  cbn [rec_gen rec_ttl]. by rewrite Hg, Ht.
Qed.

End Requests.

(** ** Examples *)

(** A cluster of one node with one socket. *)
#[refine] Instance one_socket : Services sock :=
  {| as_node_get s _ := URet (Some 1, s); as_node_get_connection s _ := URet (AEROSPIKE_OK, 3, s);
     as_node_put_connection s _ _ := URet s; as_node_release s _ := URet s; as_close s _ := URet s;
     cf_getms s := (5, s); usleep s _ := s;
     send s _ command deadline :=
       let* (st, _, s) := as_socket_write_deadline 5 s command (blen command) deadline in URet (st, s);
     recv s _ n deadline := as_socket_read_deadline s (fresh n) n deadline;
     stream s _ := incoming s |}.
Proof. intros s _ n deadline Hn. apply (rd_exact (Reader := sock_reader deadline) s n Hn). Defined.

(** A server that never answers. *)
#[refine] Instance silent : Services unit :=
  {| as_node_get w _ := URet (Some 1, w); as_node_get_connection w _ := URet (AEROSPIKE_OK, 3, w);
     as_node_put_connection w _ _ := URet w; as_node_release w _ := URet w; as_close w _ := URet w;
     cf_getms w := (5, w); usleep w _ := w;
     send w _ _ _ := URet (AEROSPIKE_OK, w);
     recv w _ n _ := URet (AEROSPIKE_ERR_TIMEOUT, fresh n, w);
     stream _ _ := [] |}.
Proof. intros w _ n _ Hn. unfold fresh. rewrite length_replicate. split; [lia|done]. Defined.

(** A write with the policy [AS_POLICY_RETRY_NONE], documented as a single attempt,
    is sent twice when the first answer does not come. *)
Theorem retry_none_sends_twice command :
  let attempt := [NodeGet 1; ConnGet 1 3; Sent 3 command; ConnClose 3; NodeRelease 1] in
  exists x, @as_command_execute x86_64 unit silent _ (@parse_header_fn x86_64 unit silent) tt no_error
              (mk_cn None [] [] REPLICA_MASTER true) command 0 RETRY_NONE None = URet (AEROSPIKE_ERR_TIMEOUT, x)
    /\ x_trace x = attempt ++ attempt.
Proof. intros attempt. eexists. split; [vm_compute; reflexivity|reflexivity]. Qed.

Lemma execute_ends_witness :
  settles True (@as_command_execute x86_64 unit silent _ (@parse_header_fn x86_64 unit silent) tt no_error
      (mk_cn None [] [] REPLICA_MASTER true) (replicate 30 0) 0 RETRY_ONCE None) (fun r =>
    True /\ exists n, Z.of_nat n <= 3 /\ @session x86_64 true (fst r) (replicate 30 0) n (x_trace (snd r))).
Proof.
  apply (@execute_ends x86_64 unit silent _ (@parse_header_fn x86_64 unit silent) True (fun _ => True) (fun _ _ => True) (fun _ _ _ => True)
           tt no_error (mk_cn None [] [] REPLICA_MASTER true) (replicate 30 0) 0 RETRY_ONCE None).
  - constructor; done.
  - exact I.
  - vm_compute. discriminate.
Defined.

Lemma sent_only_retimed_witness :
  let m := timed_message 1 0 0 0 0 3 0 [7] in
  exists x, @as_command_execute x86_64 unit silent _ (@parse_header_fn x86_64 unit silent) tt no_error
      (mk_cn None [] [] REPLICA_MASTER true) (m 50) 100 RETRY_NONE None = URet (AEROSPIKE_ERR_TIMEOUT, x)
    /\ Forall (sends_timed m 50) (x_trace x).
Proof.
  cbv zeta. eexists. split; [vm_compute; reflexivity|].
  eapply (@sent_only_retimed x86_64 unit silent _ (@parse_header_fn x86_64 unit silent) tt no_error
            (mk_cn None [] [] REPLICA_MASTER true) 1 0 0 0 0 50 3 0 [7] 100 RETRY_NONE None).
  vm_compute. reflexivity.
Defined.

Definition sample_policy : as_policy_read := Build_as_policy_read 1000 KEY_DIGEST REPLICA_MASTER CONSISTENCY_ONE.

Lemma get_returns_record_witness :
  let s inc := mk_sock 3 true true true inc [] in
  let t := {| now := 10; select_rv := 1; fd_isset := true; io := Moved 5000 |} in
  let request := read_request sample_policy sample_key 3 in
  exists rec' w', @aerospike_key_get x86_64 sock one_socket false (fun _ => replicate 20 0) sample_block 100 400 blank_bins
      sample_policy (s (answer 2 3 (sample_msg 0 1 2) sample_body ++ [7]) [t; t; t]) None sample_key (Some None)
      = URet (AEROSPIKE_OK, no_error, sample_key, Some (Some rec'), w', one_request 1 3 request)
    /\ incoming w' = [7] /\ rec_gen rec' = 3 /\ rec_ttl rec' = 600 /\ bins_size rec' = 2
    /\ Forall2 bin_back (map binop_bin sample_ops) (take 2 (bins_entries rec')).
Proof.
  intros s t request.
  pose (w1 := mk_sock 3 true true true (answer 2 3 (sample_msg 0 1 2) sample_body ++ [7]) request [t; t]).
  pose (w2 := mk_sock 3 true true true [7] request []).
  destruct (@get_returns_record x86_64 sock one_socket false big_x86 (fun _ => replicate 20 0) sample_block sample_block_size
              100 400 blank_bins blank_bins_size (s (answer 2 3 (sample_msg 0 1 2) sample_body ++ [7]) [t; t; t])
              sample_policy None sample_key sample_key None 1 3 1005 w1 w2 w2 2 3 (sample_msg 0 1 2) [(11, [1; 2])] sample_ops [7])
    as (rec' & He & Hrest).
  - reflexivity.
  - apply sample_key_ready.
  - reflexivity.
  - eexists _, _, _. split; [reflexivity|]. split; [reflexivity|]. split; [reflexivity|]. vm_compute. reflexivity.
  - split; [split_and!; unfold is_u32; simpl; lia|]. split; [reflexivity|]. split; [vm_compute; by split|].
    split; [reflexivity|]. eexists (mk_sock 3 true true true _ request [t]). split; eexists; vm_compute; reflexivity.
  - by exists w2.
  - reflexivity.
  - reflexivity.
  - reflexivity.
  - apply sample_ops_storable.
  - exact I.
  - reflexivity.
  - vm_compute. discriminate.
  - vm_compute. lia.
  - exists rec', w2. split; [exact He|exact Hrest].
Defined.

(** On a little-endian host generation 3 becomes 0, the low half of 3 * 2^24. *)
Lemma exists_reports_header_witness :
  let s inc := mk_sock 3 true true true inc [] in
  let t := {| now := 10; select_rv := 1; fd_isset := true; io := Moved 5000 |} in
  let request := read_request sample_policy sample_key 33 in
  exists rec' w', @aerospike_key_exists x86_64 sock one_socket false (fun _ => replicate 20 0) sample_block blank_bins
      sample_policy (s (answer 2 3 (sample_msg 0 0 0) [] ++ [7]) [t; t]) None sample_key (Some None)
      = URet (AEROSPIKE_OK, no_error, sample_key, Some (Some rec'), w', one_request 1 3 request)
    /\ rec_gen rec' = 0 /\ rec_ttl rec' = 0xe8030000.
Proof.
  intros s t request.
  pose (w1 := mk_sock 3 true true true (answer 2 3 (sample_msg 0 0 0) [] ++ [7]) request [t]).
  pose (w2 := mk_sock 3 true true true [7] request []).
  destruct (@exists_reports_header x86_64 sock one_socket false big_x86 (fun _ => replicate 20 0) sample_block
              sample_block_size blank_bins (s (answer 2 3 (sample_msg 0 0 0) [] ++ [7]) [t; t]) sample_policy None
              sample_key sample_key None 1 3 1005 w1 w2 w2 2 3 (sample_msg 0 0 0) [7]) as (rec' & He & Hrest).
  - reflexivity.
  - apply sample_key_ready.
  - reflexivity.
  - eexists _, _, _. split; [reflexivity|]. split; [reflexivity|]. split; [reflexivity|]. vm_compute. reflexivity.
  - split_and!; unfold is_u32; simpl; lia.
  - reflexivity.
  - reflexivity.
  - eexists. vm_compute. reflexivity.
  - by exists w2.
  - reflexivity.
  - exists rec', w2. split; [exact He|exact Hrest].
Defined.
