(* ===== verification/Record.v ===== *)
(** * Records, operations and keys

    Models [as_record.c], [as_record_iterator.c], [as_record_hooks.c], [_bin.c],
    [as_operations.c] and the constructors of [as_key.c]: what a program fills in before
    it calls the functions of [aerospike_key.c], and what it reads afterwards.

    Values are trees here; what an operation passes to [as_val_destroy] is part of its
    result, so that the theorems say which references a record owns.  File [Objects] has
    the counters behind them. *)

From S2P Require Import Prelude ByteOrder Value Msgpack Roundtrip Wire Socket Parse Execute.
From stdpp Require Import gmap.
Open Scope Z_scope.

Definition AS_BIN_NAME_MAX_SIZE : Z := 15.

(** ** Bins *)

(** [strcpy] into [bin->name]. *)
Definition as_bin_defaults (name : list Z) (valuep : option as_val) : option as_bin :=
  if strlen name <? AS_BIN_NAME_MAX_SIZE then Some (mk_bin (c_str name) valuep) else None.

Definition as_bin_init (value : option as_val) (name : list Z) : option as_bin := as_bin_defaults name value.
Definition as_bin_init_int64 (value : Z) (name : list Z) : option as_bin := as_bin_defaults name (Some (VInteger value)).
Definition as_bin_init_str (value : list Z) (name : list Z) : option as_bin := as_bin_defaults name (Some (VString value)).
Definition as_bin_init_raw (value : list Z) (name : list Z) : option as_bin :=
  as_bin_defaults name (Some (VBytes AS_BYTES_BLOB value)).
Definition as_bin_init_nil (name : list Z) : option as_bin := as_bin_defaults name (Some VNil).

(** The bin without its value, and what is destroyed. *)
Definition as_bin_destroy (b : as_bin) : as_bin * list as_val := (mk_bin [] None, option_list (bin_valuep b)).

(** ** Records *)

Section Record.
Context `{Platform}.

(** What a new array of [n] bins holds. *)
Context (uninit_bins : Z -> list as_bin).

Definition as_record_init (nbins : Z) : as_record := as_record_new uninit_bins nbins.

Definition with_entries (rec : as_record) (size : Z) (entries : list as_bin) : as_record :=
  mk_record (rec_key rec) (rec_gen rec) (rec_ttl rec) (bins_free rec) (bins_capacity rec) size entries.

(** The loop over [rec->bins]: the first of the [n] entries from [i] on that has this
    name. *)
Fixpoint find_bin (n i : nat) (entries : list as_bin) (name : list Z) : option (option (nat * as_bin)) :=
  match n with
  | O => Some None
  | S n =>
      b ← entries !! i;
      if bool_decide (c_str (bin_name b) = c_str name) then Some (Some (i, b)) else find_bin n (S i) entries name
  end.

(** The index of the bin, NULL when there is none; the destroyed value. *)
Definition as_record_bin_forupdate (rec : as_record) (name : option (list Z)) : option (option nat * as_record * list as_val) :=
  match name with
  | None => Some (None, rec, [])
  | Some name =>
      if negb (strlen name <? AS_BIN_NAME_MAX_SIZE) then Some (None, rec, [])
      else
        found ← find_bin (Z.to_nat (bins_size rec)) 0 (bins_entries rec) name;
        match found with
        | Some (i, b) =>
            Some (Some i, with_entries rec (bins_size rec) (<[i := mk_bin (bin_name b) None]> (bins_entries rec)),
                  option_list (bin_valuep b))
        | None =>
            if bins_size rec <? bins_capacity rec
            then Some (Some (Z.to_nat (bins_size rec)), with_entries rec (u16 (bins_size rec + 1)) (bins_entries rec), [])
            else Some (None, rec, [])
        end
  end.

(** The body that all setters share; [init] fills the bin. *)
Definition update_bin (rec : as_record) (name : option (list Z)) (init : list Z -> option as_bin)
  : option (bool * as_record * list as_val) :=
  '(bin, rec, gone) ← as_record_bin_forupdate rec name;
  match bin, name with
  | Some i, Some name =>
      b ← init name;
      if decide (i < length (bins_entries rec))%nat
      then Some (true, with_entries rec (bins_size rec) (<[i := b]> (bins_entries rec)), gone)
      else None
  | _, _ => Some (false, rec, gone)
  end.

Definition as_record_set (rec : as_record) name (value : option as_val) := update_bin rec name (as_bin_init value).
Definition as_record_set_int64 (rec : as_record) name (value : Z) := update_bin rec name (as_bin_init_int64 value).
Definition as_record_set_strp (rec : as_record) name (value : list Z) := update_bin rec name (as_bin_init_str value).
Definition as_record_set_rawp (rec : as_record) name (value : list Z) := update_bin rec name (as_bin_init_raw value).

(** [as_bin_init_raw], and then the type is set. *)
Definition as_record_set_raw_typep (rec : as_record) name (value : list Z) (type : Z) :=
  update_bin rec name (fun name =>
    b ← as_bin_init_raw value name;
    Some (mk_bin (bin_name b) (match bin_valuep b with Some (VBytes _ v) => Some (VBytes type v) | v => v end))).

Definition as_record_set_nil (rec : as_record) name := as_record_set rec name (Some VNil).

Definition as_record_get (rec : as_record) (name : list Z) : option (option as_val) :=
  found ← find_bin (Z.to_nat (bins_size rec)) 0 (bins_entries rec) name;
  Some (match found with Some (_, b) => bin_valuep b | None => None end).

(** [as_integer_fromval] and its kin are NULL for a value of another type. *)
Definition as_record_get_int64 (rec : as_record) (name : list Z) (fallback : Z) : option Z :=
  v ← as_record_get rec name; Some (match v with Some (VInteger i) => i | _ => fallback end).
Definition as_record_get_str (rec : as_record) (name : list Z) : option (option (list Z)) :=
  v ← as_record_get rec name; Some (match v with Some (VString s) => Some s | _ => None end).

Definition of_type (type : Z) (v : option as_val) : option as_val :=
  match v with Some w => if as_val_type w =? type then Some w else None | None => None end.
Definition as_record_get_typed (type : Z) (rec : as_record) (name : list Z) : option (option as_val) :=
  of_type type <$> as_record_get rec name.

Definition as_record_numbins (rec : as_record) : Z := bins_size rec.

(** The bins of a record: the entries in use. *)
Definition record_bins (rec : as_record) : list as_bin := take (Z.to_nat (bins_size rec)) (bins_entries rec).

(** Every value is destroyed, that of the key last. *)
Definition as_record_release (rec : as_record) : as_record * list as_val :=
  let key := rec_key rec in
  (mk_record (mk_key [] [] None false (digest_value key)) (rec_gen rec) (rec_ttl rec) (bins_free rec) 0 0 [],
   omap bin_valuep (record_bins rec) ++ option_list (key_valuep key)).

(** The callback has a state and tells whether to go on. *)
Fixpoint foreach_bin {S} (callback : list Z -> option as_val -> S -> bool * S) (bins : list as_bin) (udata : S) : bool * S :=
  match bins with
  | [] => (true, udata)
  | b :: bins =>
      let '(go, udata) := callback (bin_name b) (bin_valuep b) udata in
      if go then foreach_bin callback bins udata else (false, udata)
  end.
Definition as_record_foreach {S} (rec : as_record) (callback : list Z -> option as_val -> S -> bool * S) (udata : S) : bool * S :=
  foreach_bin callback (record_bins rec) udata.

(** *** Iterators *)

Record as_record_iterator := mk_record_iterator { it_record : option as_record; it_pos : Z }.

Definition as_record_iterator_init (rec : as_record) : as_record_iterator := mk_record_iterator (Some rec) 0.
Definition as_record_iterator_destroy (it : as_record_iterator) : as_record_iterator := mk_record_iterator None 0.

Definition as_record_iterator_has_next (it : as_record_iterator) : bool :=
  match it_record it with Some rec => it_pos it <? bins_size rec | None => false end.

(** The bin, NULL at the end. *)
Definition as_record_iterator_next (it : as_record_iterator) : option (option as_bin * as_record_iterator) :=
  match it_record it with
  | Some rec =>
      if it_pos it <? bins_size rec then
        b ← bins_entries rec !! Z.to_nat (it_pos it); Some (Some b, mk_record_iterator (Some rec) (u32 (it_pos it + 1)))
      else Some (None, it)
  | None => Some (None, it)
  end.

(** *** The hooks of a record *)

Definition as_record_rec_get (rec : as_record) (name : list Z) : option (option as_val) := as_record_get rec name.

(** [true] is 1. *)
Definition as_record_rec_set (rec : as_record) (name : list Z) (value : option as_val) : option (Z * as_record * list as_val) :=
  '(ok, rec, gone) ← as_record_set rec (Some name) value; Some (if ok : bool then 1 else 0, rec, gone).
Definition as_record_rec_remove (rec : as_record) (name : list Z) : option (Z * as_record * list as_val) :=
  '(ok, rec, gone) ← as_record_set_nil rec (Some name); Some (if ok : bool then 1 else 0, rec, gone).

Definition name_hash (hash : Z) (name : list Z) : Z :=
  fold_left (fun hash c => u32 (hash + char_to_int c + u32 (Z.shiftl hash 6) + u32 (Z.shiftl hash 16) - hash)) (c_str name) hash.

Fixpoint rec_hash_loop (bins : list as_bin) (hash : Z) : option Z :=
  match bins with
  | [] => Some hash
  | b :: bins =>
      let hash := name_hash hash (bin_name b) in
      h ← match bin_valuep b with Some v => as_val_hashcode v | None => Some 0 end;
      rec_hash_loop bins (u32 (hash + h))
  end.
Definition as_record_rec_hashcode (rec : as_record) : option Z := rec_hash_loop (record_bins rec) 0.
End Record.

(** ** Operations *)

Definition AS_OPERATOR_INCR : Z := 5.
Definition AS_OPERATOR_APPEND : Z := 9.
Definition AS_OPERATOR_PREPEND : Z := 10.
Definition AS_OPERATOR_TOUCH : Z := 11.

Record as_operations := mk_operations {
  ops_free : bool; ops_gen : Z; ops_ttl : Z;
  binops_free : bool; binops_capacity : Z; binops_size : Z; binops_entries : list as_binop
}.

(** [entries] is what [malloc] returns for the array. *)
Definition as_operations_default (free : bool) (nops : Z) (entries : option (list as_binop)) : as_operations :=
  match (if 0 <? nops then entries else None) with
  | Some entries => mk_operations free 0 0 true nops 0 entries
  | None => mk_operations free 0 0 false 0 0 []
  end.

Definition as_operations_init (nops : Z) (entries : option (list as_binop)) : as_operations := as_operations_default false nops entries.
Definition as_operations_new (nops : Z) (entries : option (list as_binop)) : as_operations := as_operations_default false nops entries.

(** The index of the new entry; the operator is already set there. *)
Definition as_binop_forappend (ops : as_operations) (operator : Z) (name : option (list Z)) : option (option (nat * as_operations)) :=
  match name with
  | None => Some None
  | Some name =>
      if (binops_size ops <? binops_capacity ops) && (strlen name <? AS_BIN_NAME_MAX_SIZE) then
        let i := Z.to_nat (binops_size ops) in
        e ← binops_entries ops !! i;
        Some (Some (i, mk_operations (ops_free ops) (ops_gen ops) (ops_ttl ops) (binops_free ops) (binops_capacity ops)
                         (u16 (binops_size ops + 1)) (<[i := mk_binop operator (binop_bin e)]> (binops_entries ops))))
      else Some None
  end.

(** The body that all the functions share; [init] fills the bin. *)
Definition add_binop (ops : as_operations) (operator : Z) (name : option (list Z)) (init : list Z -> option as_bin)
  : option (bool * as_operations) :=
  binop ← as_binop_forappend ops operator name;
  match binop, name with
  | Some (i, ops), Some name =>
      b ← init name;
      Some (true, mk_operations (ops_free ops) (ops_gen ops) (ops_ttl ops) (binops_free ops) (binops_capacity ops)
                    (binops_size ops) (<[i := mk_binop operator b]> (binops_entries ops)))
  | _, _ => Some (false, ops)
  end.

Definition as_operations_add_write ops name value := add_binop ops AS_OPERATOR_WRITE name (as_bin_init value).
Definition as_operations_add_write_int64 ops name value := add_binop ops AS_OPERATOR_WRITE name (as_bin_init_int64 value).
Definition as_operations_add_write_strp ops name value := add_binop ops AS_OPERATOR_WRITE name (as_bin_init_str value).
Definition as_operations_add_write_rawp ops name value := add_binop ops AS_OPERATOR_WRITE name (as_bin_init_raw value).
Definition as_operations_add_read ops name := add_binop ops AS_OPERATOR_READ name as_bin_init_nil.
Definition as_operations_add_incr ops name value := add_binop ops AS_OPERATOR_INCR name (as_bin_init_int64 value).
Definition as_operations_add_prepend_strp ops name value := add_binop ops AS_OPERATOR_PREPEND name (as_bin_init_str value).
Definition as_operations_add_prepend_rawp ops name value := add_binop ops AS_OPERATOR_PREPEND name (as_bin_init_raw value).
Definition as_operations_add_append_strp ops name value := add_binop ops AS_OPERATOR_APPEND name (as_bin_init_str value).
Definition as_operations_add_append_rawp ops name value := add_binop ops AS_OPERATOR_APPEND name (as_bin_init_raw value).
Definition as_operations_add_touch ops := add_binop ops AS_OPERATOR_TOUCH (Some []) as_bin_init_nil.

Definition operations_list (ops : as_operations) : list as_binop := take (Z.to_nat (binops_size ops)) (binops_entries ops).

(** What is destroyed; whether the array and the structure itself are freed. *)
Definition as_operations_destroy (ops : as_operations) : as_operations * list as_val * bool * bool :=
  (mk_operations (ops_free ops) (ops_gen ops) (ops_ttl ops) false 0 0 [],
   mjoin (map (fun op => (as_bin_destroy (binop_bin op)).2) (operations_list ops)), binops_free ops, ops_free ops).

(** ** Keys *)

Definition as_key_init_int64 ns set (value : Z) : option as_key := as_key_cons ns set (Some (VInteger value)) None.
Definition as_key_init_strp ns set (value : list Z) : option as_key := as_key_cons ns set (Some (VString value)) None.
Definition as_key_init_rawp ns set (value : list Z) : option as_key := as_key_cons ns set (Some (VBytes AS_BYTES_BLOB value)) None.
Definition as_key_init_digest ns set (digest : list Z) : option as_key := as_key_cons ns set None (Some digest).
Definition as_key_init_value ns set (value : option as_val) : option as_key := as_key_cons ns set value None.

(** What is destroyed, and whether the structure is freed, which happens only with
    [free] and a value. *)
Definition as_key_destroy (key : as_key) (free : bool) : list as_val * bool :=
  match key_valuep key with
  | None => ([], false)
  | Some v => ([v], free)
  end.

Definition as_key_digest `{Platform} ripemd160 (key : as_key) : option (option (list Z) * as_key) :=
  '(status, key) ← as_key_set_digest ripemd160 key;
  Some (if status =? AEROSPIKE_OK then Some (digest_value key) else None, key).

(** ** What a record promises

    A finite map from names to values, with the order in which the names were first set. *)

Record bin_map := mk_bin_map { bm_order : list (list Z); bm_vals : gmap (list Z) (option as_val) }.

Definition no_bins : bin_map := mk_bin_map [] ∅.

(** Setting a bin of a record for [cap] bins: the answer and the value that goes. *)
Definition map_set (cap : Z) (m : bin_map) (name : list Z) (value : option as_val) : bool * bin_map * list as_val :=
  if negb (blen name <? AS_BIN_NAME_MAX_SIZE) then (false, m, [])
  else
    match bm_vals m !! name with
    | Some old => (true, mk_bin_map (bm_order m) (<[name := value]> (bm_vals m)), option_list old)
    | None =>
        if Z.of_nat (size (bm_vals m)) <? cap
        then (true, mk_bin_map (bm_order m ++ [name]) (<[name := value]> (bm_vals m)), [])
        else (false, m, [])
    end.

Definition map_get (m : bin_map) (name : list Z) : option as_val := mjoin (bm_vals m !! name).

(** The bins in their order. *)
Definition map_bins (m : bin_map) : list as_bin := map (fun n => mk_bin n (map_get m n)) (bm_order m).

Definition map_ok (m : bin_map) : Prop :=
  NoDup (bm_order m) /\ (forall n, n ∈ bm_order m <-> is_Some (bm_vals m !! n))
  /\ Forall (fun n => c_str n = n /\ blen n < AS_BIN_NAME_MAX_SIZE) (bm_order m).

Definition record_rep (cap : Z) (rec : as_record) (m : bin_map) : Prop :=
  map_ok m /\ bins_capacity rec = cap /\ blen (bins_entries rec) = cap /\ 0 <= cap < 2 ^ 16
  /\ bins_size rec = blen (bm_order m) /\ blen (bm_order m) <= cap
  /\ exists rest, bins_entries rec = map_bins m ++ rest.

Lemma map_size m : map_ok m -> size (bm_vals m) = length (bm_order m).
Proof.
  intros (Hnd & Hdom & _). rewrite <- size_dom. rewrite <- (size_list_to_set (C := gset (list Z)) (bm_order m)) by done.
  f_equal. apply set_eq. intros n. rewrite elem_of_dom, elem_of_list_to_set. symmetry. apply Hdom.
Qed.

Lemma map_bins_length m : length (map_bins m) = length (bm_order m).
Proof. apply length_map. Qed.

Lemma rep_bins cap rec m : record_rep cap rec m -> record_bins rec = map_bins m.
Proof.
  intros (_ & _ & _ & _ & Hs & _ & rest & He). unfold record_bins. rewrite Hs, He, Nat2Z.id, <- (map_bins_length m).
  apply take_app_length.
Qed.

(** Looking a name up in the part of the list from [i] on. *)
Lemma find_bin_ok (bins rest pre : list as_bin) name :
  (exists i b, find_bin (length bins) (length pre) (pre ++ bins ++ rest) name = Some (Some ((length pre + i)%nat, b))
     /\ bins !! i = Some b /\ c_str (bin_name b) = c_str name)
  \/ (find_bin (length bins) (length pre) (pre ++ bins ++ rest) name = Some None
      /\ Forall (fun b => c_str (bin_name b) <> c_str name) bins).
Proof.
  revert pre. induction bins as [|b bins IH]; intros pre; cbn [length find_bin]; [by right|].
  rewrite (list_lookup_middle pre (bins ++ rest) b (length pre) eq_refl : (pre ++ (b :: bins) ++ rest) !! length pre = Some b).
  cbn [mbind option_bind]. case_bool_decide as Hn.
  - left. exists O, b. split_and!; [|done|done]. by rewrite Nat.add_0_r.
  - specialize (IH (pre ++ [b])). rewrite length_app, Nat.add_1_r, <- app_assoc in IH. cbn [app] in IH.
    destruct IH as [(i & b' & Hf & Hi & Hc)|[Hf Ha]].
    + left. exists (S i), b'. change ((b :: bins) ++ rest) with (b :: bins ++ rest). rewrite Hf. split_and!; [|done|done].
      do 3 f_equal. lia.
    + right. change ((b :: bins) ++ rest) with (b :: bins ++ rest). rewrite Hf. split; [done|by constructor].
Qed.

Lemma order_names m n : map_ok m -> n ∈ bm_order m -> c_str n = n.
Proof. intros (_ & _ & Hall) Hn. rewrite Forall_forall in Hall. by apply Hall. Qed.

(** The look-up of a name in a record. *)
Lemma find_rep cap rec m name : record_rep cap rec m ->
  (exists i v, find_bin (Z.to_nat (bins_size rec)) 0 (bins_entries rec) name = Some (Some (i, mk_bin (c_str name) v))
     /\ bm_order m !! i = Some (c_str name) /\ bm_vals m !! c_str name = Some v)
  \/ (find_bin (Z.to_nat (bins_size rec)) 0 (bins_entries rec) name = Some None /\ bm_vals m !! c_str name = None).
Proof.
  intros (Hok & _ & _ & _ & Hs & _ & rest & He). rewrite Hs, He, Nat2Z.id, <- (map_bins_length m).
  destruct (find_bin_ok (map_bins m) rest [] name) as [(i & b & Hf & Hi & Hc)|[Hf Ha]]; cbn [app length] in Hf.
  - left. unfold map_bins in Hi. rewrite list_lookup_fmap in Hi. apply fmap_Some in Hi as (n & Hn & ->). cbn [bin_name] in Hc.
    pose proof (list_elem_of_lookup_2 _ _ _ Hn) as Hin. rewrite (order_names m n Hok Hin) in Hc. subst n.
    destruct Hok as (_ & Hdom & _). apply Hdom in Hin as [v Hv]. exists i, v. rewrite Hf. unfold map_get. by rewrite Hv.
  - right. split; [done|]. destruct (bm_vals m !! c_str name) as [v|] eqn:Hv; [|done]. exfalso.
    assert (c_str name ∈ bm_order m) as Hin by (apply Hok; by eexists).
    rewrite Forall_forall in Ha. apply (Ha (mk_bin (c_str name) (map_get m (c_str name)))).
    + unfold map_bins. apply list_elem_of_fmap. eauto.
    + cbn [bin_name]. by apply (order_names m).
Qed.

Lemma map_bins_set m n i v : map_ok m -> bm_order m !! i = Some n ->
  <[i := mk_bin n v]> (map_bins m) = map_bins (mk_bin_map (bm_order m) (<[n := v]> (bm_vals m))).
Proof.
  intros (Hnd & _ & _) Hi. apply list_eq. intros j. unfold map_bins. cbn [bm_order]. destruct (decide (i = j)) as [<-|Hne].
  - rewrite list_lookup_insert_eq by (rewrite length_map; by eapply lookup_lt_Some). rewrite list_lookup_fmap, Hi. cbn.
    unfold map_get. cbn [bm_vals]. by rewrite lookup_insert_eq.
  - rewrite list_lookup_insert_ne, !list_lookup_fmap by done. destruct (bm_order m !! j) as [n'|] eqn:Hj; [|done]. cbn.
    unfold map_get. cbn [bm_vals]. rewrite lookup_insert_ne; [done|]. intros <-. apply Hne. by eapply NoDup_lookup.
Qed.

Lemma map_bins_add m n v : map_ok m -> bm_vals m !! n = None ->
  map_bins (mk_bin_map (bm_order m ++ [n]) (<[n := v]> (bm_vals m))) = map_bins m ++ [mk_bin n v].
Proof.
  intros (_ & Hdom & _) Hn. unfold map_bins. cbn [bm_order]. rewrite map_app. f_equal.
  - apply map_ext_in. intros n' Hin. apply list_elem_of_In, Hdom in Hin. unfold map_get. cbn [bm_vals].
    rewrite lookup_insert_ne; [done|]. intros <-. rewrite Hn in Hin. by destruct Hin.
  - cbn. unfold map_get. cbn [bm_vals]. by rewrite lookup_insert_eq.
Qed.

Lemma map_ok_set m n v : map_ok m -> is_Some (bm_vals m !! n) -> map_ok (mk_bin_map (bm_order m) (<[n := v]> (bm_vals m))).
Proof.
  intros (Hnd & Hdom & Hall) Hn. split_and!; [done| |done]. cbn [bm_order bm_vals]. intros n'. rewrite Hdom.
  destruct (decide (n = n')) as [<-|Hne]; [rewrite lookup_insert_eq|by rewrite lookup_insert_ne]. split; [by eexists|done].
Qed.

Lemma map_ok_add m n v : map_ok m -> bm_vals m !! n = None -> c_str n = n -> blen n < AS_BIN_NAME_MAX_SIZE ->
  map_ok (mk_bin_map (bm_order m ++ [n]) (<[n := v]> (bm_vals m))).
Proof.
  intros (Hnd & Hdom & Hall) Hn Hc Hl. split_and!; cbn [bm_order bm_vals].
  - apply NoDup_app. split_and!; [done| |apply NoDup_singleton]. intros x Hx Hx'. apply list_elem_of_singleton in Hx'. subst x.
    apply Hdom in Hx. rewrite Hn in Hx. by destruct Hx.
  - intros n'. rewrite elem_of_app, list_elem_of_singleton, Hdom. destruct (decide (n = n')) as [<-|Hne].
    + rewrite lookup_insert_eq. split; [by eexists|by right].
    + rewrite lookup_insert_ne by done. split; [intros [?| ->]; done|by left].
  - apply Forall_app. split; [done|]. by constructor.
Qed.

(** Every setter but the one for [as_nil]'s kin is this one: the bin gets its name and
    some value. *)
Definition fills (init : list Z -> option as_bin) (v : option as_val) : Prop :=
  forall name, strlen name < AS_BIN_NAME_MAX_SIZE -> init name = Some (mk_bin (c_str name) v).

Lemma update_ok cap rec m name init v : record_rep cap rec m -> fills init v ->
  exists rec', update_bin rec (Some name) init
    = Some ((map_set cap m (c_str name) v).1.1, rec', (map_set cap m (c_str name) v).2)
  /\ record_rep cap rec' (map_set cap m (c_str name) v).1.2
  /\ rec_key rec' = rec_key rec /\ rec_gen rec' = rec_gen rec /\ rec_ttl rec' = rec_ttl rec.
Proof.
  intros Hrep Hinit. pose proof Hrep as (Hok & Hcap & Hlen & Hb & Hs & Hle & rest & He).
  unfold update_bin, as_record_bin_forupdate, map_set. fold (strlen name).
  destruct (Z.ltb_spec (strlen name) AS_BIN_NAME_MAX_SIZE) as [Hn|Hn]; cbn [negb].
  2: { cbn [mbind option_bind]. exists rec. split_and!; done. }
  destruct (find_rep cap rec m name Hrep) as [(i & old & Hf & Hi & Hv)|[Hf Hv]]; rewrite Hf, Hv; cbn [mbind option_bind fst snd].
  - rewrite Hinit by done. cbn [mbind option_bind with_entries bins_entries bins_size bin_valuep bin_name].
    rewrite length_insert, list_insert_insert_eq.
    assert (i < length (map_bins m))%nat as Hlt by (rewrite map_bins_length; by eapply lookup_lt_Some).
    rewrite decide_True by (rewrite He, length_app; lia). eexists. split; [done|]. split; [|done].
    split_and!; cbn [with_entries bins_capacity bins_size bins_entries bm_order]; rewrite ?length_insert; try (done || lia).
    + by apply map_ok_set.
    + exists rest. by rewrite He, insert_app_l, map_bins_set.
  - rewrite map_size, Hcap, Hs by done. destruct (Z.ltb_spec (blen (bm_order m)) cap) as [Hlt|Hge]; cbn [mbind option_bind fst snd].
    2: { exists rec. split_and!; done. }
    rewrite Hinit by done. cbn [mbind option_bind with_entries bins_entries bins_size]. rewrite Nat2Z.id.
    assert (u16 (blen (bm_order m) + 1) = blen (bm_order m) + 1) as -> by (apply Z.mod_small; lia).
    rewrite decide_True by lia. eexists. split; [done|]. split; [|done].
    destruct rest as [|r rest]; [rewrite app_nil_r in He; rewrite He, map_bins_length in Hlen; lia|].
    split_and!; cbn [with_entries bins_capacity bins_size bins_entries bm_order]; try done; rewrite ?length_insert, ?length_app; cbn [length]; try lia.
    + apply map_ok_add; [done..|apply c_str_idem|done].
    + exists rest. rewrite map_bins_add, He, <- (map_bins_length m), <- app_assoc by done. cbn [app].
      by rewrite insert_app_r_alt, Nat.sub_diag by lia.
Qed.

(** ** Sequences of calls *)

Inductive recop :=
| RSet (name : list Z) (value : option as_val)
| RSetInt64 (name : list Z) (value : Z)
| RSetStr (name : list Z) (value : list Z)
| RSetRaw (name : list Z) (value : list Z)
| RSetRawType (name : list Z) (value : list Z) (type : Z)
| RSetNil (name : list Z)
| RGet (name : list Z)
| RGetInt64 (name : list Z) (fallback : Z)
| RGetStr (name : list Z)
| RNumbins.

Inductive recres := RBool (b : bool) | RVal (v : option as_val) | RInt (z : Z) | RText (s : option (list Z)).

Definition run_recop (rec : as_record) (op : recop) : option (recres * as_record * list as_val) :=
  let setter r := '(b, rec, gone) ← r; Some (RBool b, rec, gone) in
  match op with
  | RSet name value => setter (as_record_set rec (Some name) value)
  | RSetInt64 name value => setter (as_record_set_int64 rec (Some name) value)
  | RSetStr name value => setter (as_record_set_strp rec (Some name) value)
  | RSetRaw name value => setter (as_record_set_rawp rec (Some name) value)
  | RSetRawType name value type => setter (as_record_set_raw_typep rec (Some name) value type)
  | RSetNil name => setter (as_record_set_nil rec (Some name))
  | RGet name => v ← as_record_get rec name; Some (RVal v, rec, [])
  | RGetInt64 name fallback => z ← as_record_get_int64 rec name fallback; Some (RInt z, rec, [])
  | RGetStr name => s ← as_record_get_str rec name; Some (RText s, rec, [])
  | RNumbins => Some (RInt (as_record_numbins rec), rec, [])
  end.

Fixpoint run_recops (rec : as_record) (ops : list recop) : option (list recres * as_record * list as_val) :=
  match ops with
  | [] => Some ([], rec, [])
  | op :: ops =>
      '(r, rec, gone) ← run_recop rec op;
      '(rs, rec, gone') ← run_recops rec ops;
      Some (r :: rs, rec, gone ++ gone')
  end.

(** The name and the value that a setter sets. *)
Definition op_sets (op : recop) : option (list Z * option as_val) :=
  match op with
  | RSet name value => Some (name, value)
  | RSetInt64 name value => Some (name, Some (VInteger value))
  | RSetStr name value => Some (name, Some (VString value))
  | RSetRaw name value => Some (name, Some (VBytes AS_BYTES_BLOB value))
  | RSetRawType name value type => Some (name, Some (VBytes type value))
  | RSetNil name => Some (name, Some VNil)
  | _ => None
  end.

(** What the calls answer, the map they leave, the values they hand to the record and
    the values it destroys. *)
Definition spec_recop (cap : Z) (m : bin_map) (op : recop) : recres * bin_map * list as_val * list as_val :=
  match op_sets op with
  | Some (name, v) =>
      let '(ok, m, gone) := map_set cap m (c_str name) v in
      (RBool ok, m, if ok : bool then option_list v else [], gone)
  | None =>
      (match op with
       | RGet name => RVal (map_get m (c_str name))
       | RGetInt64 name fallback => RInt (match map_get m (c_str name) with Some (VInteger z) => z | _ => fallback end)
       | RGetStr name => RText (match map_get m (c_str name) with Some (VString s) => Some s | _ => None end)
       | _ => RInt (Z.of_nat (size (bm_vals m)))
       end, m, [], [])
  end.

Fixpoint spec_recops (cap : Z) (m : bin_map) (ops : list recop) : list recres * bin_map * list as_val * list as_val :=
  match ops with
  | [] => ([], m, [], [])
  | op :: ops =>
      let '(r, m, given, gone) := spec_recop cap m op in
      let '(rs, m, given', gone') := spec_recops cap m ops in
      (r :: rs, m, given ++ given', gone ++ gone')
  end.

Lemma fills_init v : fills (as_bin_init v) v.
Proof. intros name Hn. unfold as_bin_init, as_bin_defaults. by destruct (Z.ltb_spec (strlen name) AS_BIN_NAME_MAX_SIZE); [|lia]. Qed.

Lemma fills_raw_type value type : fills (fun name => b ← as_bin_init_raw value name;
    Some (mk_bin (bin_name b) (match bin_valuep b with Some (VBytes _ v) => Some (VBytes type v) | v => v end))) (Some (VBytes type value)).
Proof. intros name Hn. change (as_bin_init_raw value name) with (as_bin_init (Some (VBytes AS_BYTES_BLOB value)) name). by rewrite fills_init. Qed.

Lemma get_rep cap rec m name : record_rep cap rec m -> as_record_get rec name = Some (map_get m (c_str name)).
Proof.
  intros Hrep. unfold as_record_get, map_get. destruct (find_rep cap rec m name Hrep) as [(i & v & -> & _ & ->)|[-> ->]]; done.
Qed.

Lemma recop_ok cap rec m op : record_rep cap rec m ->
  let '(r, m', _, gone) := spec_recop cap m op in
  exists rec', run_recop rec op = Some (r, rec', gone) /\ record_rep cap rec' m'
  /\ rec_key rec' = rec_key rec /\ rec_gen rec' = rec_gen rec /\ rec_ttl rec' = rec_ttl rec.
Proof.
  intros Hrep.
  assert (forall name init v, fills init v ->
    let '(ok, m', gone) := map_set cap m (c_str name) v in
    exists rec', ('(b, rec, gone) ← update_bin rec (Some name) init; Some (RBool b, rec, gone)) = Some (RBool ok, rec', gone) /\ record_rep cap rec' m'
    /\ rec_key rec' = rec_key rec /\ rec_gen rec' = rec_gen rec /\ rec_ttl rec' = rec_ttl rec) as Hset.
  { intros name init v Hf. pose proof (update_ok cap rec m name init v Hrep Hf) as Hu.
    destruct (map_set cap m (c_str name) v) as [[ok m'] gone]. cbn [fst snd] in Hu. destruct Hu as (rec' & -> & Hr & Hk).
    by exists rec'. }
  unfold spec_recop. destruct op as [name v|name z|name s|name s|name s t|name|name|name z|name|]; cbn [op_sets].
  1: specialize (Hset name _ _ (fills_init v)).
  2: specialize (Hset name _ _ (fills_init (Some (VInteger z)))).
  3: specialize (Hset name _ _ (fills_init (Some (VString s)))).
  4: specialize (Hset name _ _ (fills_init (Some (VBytes AS_BYTES_BLOB s)))).
  5: specialize (Hset name _ _ (fills_raw_type s t)).
  6: specialize (Hset name _ _ (fills_init (Some VNil))).
  1-6: destruct (map_set cap m (c_str name) _) as [[ok m'] gone]; exact Hset.
  all: exists rec; split; [|done]; cbn [run_recop].
  - by rewrite (get_rep cap rec m).
  - unfold as_record_get_int64. by rewrite (get_rep cap rec m).
  - unfold as_record_get_str. by rewrite (get_rep cap rec m).
  - unfold as_record_numbins. destruct Hrep as (Hok & _ & _ & _ & Hs & _). by rewrite Hs, map_size.
Qed.

(** The values of the bins. *)
Definition held_values (bins : list as_bin) : list as_val := omap bin_valuep bins.

Lemma held_values_cons b bins : held_values (b :: bins) = option_list (bin_valuep b) ++ held_values bins.
Proof. unfold held_values. cbn [omap list_omap]. by destruct (bin_valuep b). Qed.

Lemma held_values_insert bins i b b' : bins !! i = Some b ->
  held_values (<[i := b']> bins) ++ option_list (bin_valuep b) ≡ₚ option_list (bin_valuep b') ++ held_values bins.
Proof.
  revert i. induction bins as [|c bins IH]; intros i Hi; [by rewrite lookup_nil in Hi|]. destruct i as [|i]; cbn in Hi.
  - simplify_eq. change (<[O := b']> (b :: bins)) with (b' :: bins). rewrite !held_values_cons. solve_Permutation.
  - change (<[S i := b']> (c :: bins)) with (c :: <[i := b']> bins). rewrite !held_values_cons, <- app_assoc, (IH i Hi). solve_Permutation.
Qed.

Lemma set_conserves cap m name v ok m' gone : map_ok m -> map_set cap m name v = (ok, m', gone) ->
  held_values (map_bins m') ++ gone ≡ₚ (if ok then option_list v else []) ++ held_values (map_bins m).
Proof.
  intros Hok. unfold map_set. destruct (blen name <? AS_BIN_NAME_MAX_SIZE); cbn [negb].
  2: { intros [= <- <- <-]. by rewrite app_nil_r. }
  destruct (bm_vals m !! name) as [old|] eqn:Hv.
  - intros [= <- <- <-]. assert (name ∈ bm_order m) as [i Hi]%list_elem_of_lookup by (apply Hok; by rewrite Hv).
    rewrite <- (map_bins_set m name i v Hok Hi).
    apply (held_values_insert _ i (mk_bin name old)). unfold map_bins. rewrite list_lookup_fmap, Hi. cbn. unfold map_get. by rewrite Hv.
  - destruct (Z.of_nat (size (bm_vals m)) <? cap); intros [= <- <- <-]; [|by rewrite app_nil_r].
    rewrite map_bins_add, app_nil_r by done. unfold held_values. rewrite omap_app. cbn [omap list_omap bin_valuep].
    destruct v; cbn; [|by rewrite app_nil_r]. solve_Permutation.
Qed.

Lemma map_set_ok cap m name v : map_ok m -> map_ok (map_set cap m (c_str name) v).1.2.
Proof.
  intros Hok. unfold map_set. destruct (Z.ltb_spec (blen (c_str name)) AS_BIN_NAME_MAX_SIZE); cbn [negb]; [|done].
  destruct (bm_vals m !! c_str name) eqn:Hv; [by apply map_ok_set; [|rewrite Hv]|].
  case_match; [|done]. apply map_ok_add; [done..|apply c_str_idem|done].
Qed.

Lemma recops_ok cap ops rec m : record_rep cap rec m ->
  let '(rs, m', given, gone) := spec_recops cap m ops in
  exists rec', run_recops rec ops = Some (rs, rec', gone) /\ record_rep cap rec' m'
  /\ held_values (map_bins m') ++ gone ≡ₚ given ++ held_values (map_bins m)
  /\ rec_key rec' = rec_key rec /\ rec_gen rec' = rec_gen rec /\ rec_ttl rec' = rec_ttl rec.
Proof.
  revert rec m. induction ops as [|op ops IH]; intros rec m Hrep; cbn [spec_recops run_recops].
  { exists rec. split_and!; try done. by rewrite app_nil_r. }
  pose proof (recop_ok cap rec m op Hrep) as Hop. destruct (spec_recop cap m op) as [[[r m1] given] gone] eqn:Hspec.
  destruct Hop as (rec1 & -> & Hr1 & Hk1). cbn [mbind option_bind].
  assert (held_values (map_bins m1) ++ gone ≡ₚ given ++ held_values (map_bins m)) as Hc.
  { revert Hspec. unfold spec_recop. destruct (op_sets op) as [[name v]|].
    - destruct (map_set cap m (c_str name) v) as [[ok m'] gone'] eqn:Hs. intros [= <- <- <- <-].
      apply (set_conserves cap m (c_str name) v); [apply Hrep|done].
    - intros [= _ <- <- <-]. by rewrite app_nil_r. }
  specialize (IH rec1 m1 Hr1). destruct (spec_recops cap m1 ops) as [[[rs m'] given'] gone'].
  destruct IH as (rec' & -> & Hr' & Hc' & Hk'). cbn [mbind option_bind]. exists rec'. split_and!; [done|done| | | |].
  2-4: destruct Hk1 as (? & ? & ?), Hk' as (? & ? & ?); congruence.
  rewrite (Permutation_app_comm gone gone'), app_assoc, Hc', <- app_assoc, Hc, !app_assoc.
  apply Permutation_app_tail, Permutation_app_comm.
Qed.

Lemma init_rep uninit_bins nbins : 0 <= nbins < 2 ^ 16 -> (0 < nbins -> blen (uninit_bins nbins) = nbins) ->
  record_rep nbins (as_record_init uninit_bins nbins) no_bins.
Proof.
  intros Hn Hlen. unfold as_record_init, as_record_new.
  assert (map_ok no_bins) as Hok.
  { split_and!; [constructor| |constructor]. intros n. cbn. rewrite lookup_empty. split; [intros Hn'; inversion Hn'|intros [? [=]]]. }
  destruct (Z.ltb_spec 0 nbins).
  - split_and!; cbn; try done; try lia. by eexists.
  - assert (nbins = 0) as -> by lia. split_and!; cbn; try done. by eexists.
Qed.

(** C28: A record is a finite map from names to values, in the order in which the names
    were first set, with room for as many names as it was made for.  For any sequence of
    calls on a new record, every setter answers whether the name fits and there is room
    or the name is already there, every getter answers the value of the map, and the
    bins that [aerospike_key_put] sends are the entries of the map in order.  The values
    handed to the record are the ones it holds and the ones it destroyed, each once, and
    releasing the record destroys the ones it holds. *)
Theorem record_refines_map uninit_bins nbins ops :
  0 <= nbins < 2 ^ 16 -> (0 < nbins -> blen (uninit_bins nbins) = nbins) ->
  let '(rs, m, given, gone) := spec_recops nbins no_bins ops in
  exists rec, run_recops (as_record_init uninit_bins nbins) ops = Some (rs, rec, gone)
  /\ record_bins rec = map_bins m
  /\ as_record_numbins rec = Z.of_nat (size (bm_vals m)) /\ as_record_numbins rec <= nbins
  /\ (forall name, as_record_get rec name = Some (map_get m (c_str name)))
  /\ (as_record_release rec).2 ++ gone ≡ₚ given.
Proof.
  intros Hn Hlen. pose proof (recops_ok nbins ops _ _ (init_rep uninit_bins nbins Hn Hlen)) as Hr.
  destruct (spec_recops nbins no_bins ops) as [[[rs m] given] gone]. destruct Hr as (rec & Hrun & Hrep & Hc & Hk & _).
  exists rec. pose proof (rep_bins _ _ _ Hrep) as Hb. split_and!; [done|done| | | |].
  - destruct Hrep as (Hok & _ & _ & _ & Hs & _). unfold as_record_numbins. by rewrite Hs, map_size.
  - destruct Hrep as (_ & _ & _ & _ & Hs & Hle & _). unfold as_record_numbins. lia.
  - intros name. by apply (get_rep nbins).
  - cbn [as_record_release snd]. rewrite Hb, Hk. fold (held_values (map_bins m)).
    assert (option_list (key_valuep (rec_key (as_record_init uninit_bins nbins))) = []) as ->.
    { unfold as_record_init, as_record_new. by destruct (0 <? nbins). }
    rewrite app_nil_r, Hc. cbn. by rewrite app_nil_r.
Qed.

(** ** What operations promise *)

Inductive opsop :=
| OWrite (name : list Z) (value : option as_val)
| OWriteInt64 (name : list Z) (value : Z)
| OWriteStr (name value : list Z)
| OWriteRaw (name value : list Z)
| ORead (name : list Z)
| OIncr (name : list Z) (value : Z)
| OPrependStr (name value : list Z)
| OPrependRaw (name value : list Z)
| OAppendStr (name value : list Z)
| OAppendRaw (name value : list Z)
| OTouch.

Definition run_opsop (ops : as_operations) (op : opsop) : option (bool * as_operations) :=
  match op with
  | OWrite name value => as_operations_add_write ops (Some name) value
  | OWriteInt64 name value => as_operations_add_write_int64 ops (Some name) value
  | OWriteStr name value => as_operations_add_write_strp ops (Some name) value
  | OWriteRaw name value => as_operations_add_write_rawp ops (Some name) value
  | ORead name => as_operations_add_read ops (Some name)
  | OIncr name value => as_operations_add_incr ops (Some name) value
  | OPrependStr name value => as_operations_add_prepend_strp ops (Some name) value
  | OPrependRaw name value => as_operations_add_prepend_rawp ops (Some name) value
  | OAppendStr name value => as_operations_add_append_strp ops (Some name) value
  | OAppendRaw name value => as_operations_add_append_rawp ops (Some name) value
  | OTouch => as_operations_add_touch ops
  end.

Fixpoint run_opsops (ops : as_operations) (l : list opsop) : option (list bool * as_operations) :=
  match l with
  | [] => Some ([], ops)
  | op :: l => '(b, ops) ← run_opsop ops op; '(bs, ops) ← run_opsops ops l; Some (b :: bs, ops)
  end.

(** The operation that a call asks for. *)
Definition op_means (op : opsop) : as_binop :=
  match op with
  | OWrite name value => mk_binop AS_OPERATOR_WRITE (mk_bin (c_str name) value)
  | OWriteInt64 name value => mk_binop AS_OPERATOR_WRITE (mk_bin (c_str name) (Some (VInteger value)))
  | OWriteStr name value => mk_binop AS_OPERATOR_WRITE (mk_bin (c_str name) (Some (VString value)))
  | OWriteRaw name value => mk_binop AS_OPERATOR_WRITE (mk_bin (c_str name) (Some (VBytes AS_BYTES_BLOB value)))
  | ORead name => mk_binop AS_OPERATOR_READ (mk_bin (c_str name) (Some VNil))
  | OIncr name value => mk_binop AS_OPERATOR_INCR (mk_bin (c_str name) (Some (VInteger value)))
  | OPrependStr name value => mk_binop AS_OPERATOR_PREPEND (mk_bin (c_str name) (Some (VString value)))
  | OPrependRaw name value => mk_binop AS_OPERATOR_PREPEND (mk_bin (c_str name) (Some (VBytes AS_BYTES_BLOB value)))
  | OAppendStr name value => mk_binop AS_OPERATOR_APPEND (mk_bin (c_str name) (Some (VString value)))
  | OAppendRaw name value => mk_binop AS_OPERATOR_APPEND (mk_bin (c_str name) (Some (VBytes AS_BYTES_BLOB value)))
  | OTouch => mk_binop AS_OPERATOR_TOUCH (mk_bin [] (Some VNil))
  end.

(** It is added when its name fits and there is room. *)
Fixpoint spec_opsops (cap : Z) (l : list as_binop) (calls : list opsop) : list bool * list as_binop :=
  match calls with
  | [] => ([], l)
  | op :: calls =>
      let fits := (blen l <? cap) && (blen (bin_name (binop_bin (op_means op))) <? AS_BIN_NAME_MAX_SIZE) in
      let '(bs, l) := spec_opsops cap (if fits then l ++ [op_means op] else l) calls in
      (fits :: bs, l)
  end.

Definition ops_rep (cap : Z) (ops : as_operations) (l : list as_binop) : Prop :=
  binops_capacity ops = cap /\ blen (binops_entries ops) = cap /\ 0 <= cap < 2 ^ 16 /\ binops_size ops = blen l /\ blen l <= cap
  /\ exists rest, binops_entries ops = l ++ rest.

Lemma ops_rep_list cap ops l : ops_rep cap ops l -> operations_list ops = l.
Proof. intros (_ & _ & _ & Hs & _ & rest & He). unfold operations_list. rewrite Hs, He, Nat2Z.id. apply take_app_length. Qed.

Lemma add_ok cap ops l operator name init v : ops_rep cap ops l -> fills init v ->
  let fits := (blen l <? cap) && (strlen name <? AS_BIN_NAME_MAX_SIZE) in
  exists ops', add_binop ops operator (Some name) init = Some (fits, ops')
  /\ ops_rep cap ops' (if fits then l ++ [mk_binop operator (mk_bin (c_str name) v)] else l)
  /\ binops_free ops' = binops_free ops /\ ops_free ops' = ops_free ops.
Proof.
  intros Hrep Hinit. pose proof Hrep as (Hcap & Hlen & Hb & Hs & Hle & rest & He). cbv zeta.
  unfold add_binop, as_binop_forappend. rewrite Hs, Hcap.
  destruct (Z.ltb_spec (blen l) cap) as [Hlt|Hge]; cbn [andb mbind option_bind]; [|by exists ops].
  destruct (Z.ltb_spec (strlen name) AS_BIN_NAME_MAX_SIZE) as [Hn|Hn]; cbn [mbind option_bind]; [|by exists ops].
  destruct rest as [|r rest]; [rewrite app_nil_r in He; rewrite He in Hlen; lia|].
  rewrite Nat2Z.id, He, list_lookup_middle by done. cbn [mbind option_bind]. rewrite Hinit by done. cbn [mbind option_bind].
  assert (u16 (blen l + 1) = blen l + 1) as -> by (apply Z.mod_small; lia).
  eexists. split; [done|]. split; [|done]. cbn [binops_entries]. rewrite list_insert_insert_eq.
  split_and!; cbn [binops_capacity binops_entries binops_size]; try done; try lia.
  - by rewrite length_insert, <- He.
  - rewrite length_app. cbn [length]. lia.
  - rewrite length_app. cbn [length]. lia.
  - exists rest. by rewrite insert_app_r_alt, Nat.sub_diag, <- app_assoc by lia.
Qed.

Lemma opsop_ok cap ops l op : ops_rep cap ops l ->
  let fits := (blen l <? cap) && (blen (bin_name (binop_bin (op_means op))) <? AS_BIN_NAME_MAX_SIZE) in
  exists ops', run_opsop ops op = Some (fits, ops') /\ ops_rep cap ops' (if fits then l ++ [op_means op] else l)
  /\ binops_free ops' = binops_free ops /\ ops_free ops' = ops_free ops.
Proof.
  intros Hrep. destruct op as [name v|name z|name s|name s|name|name z|name s|name s|name s|name s|].
  1: exact (add_ok cap ops l AS_OPERATOR_WRITE name _ v Hrep (fills_init v)).
  1: exact (add_ok cap ops l AS_OPERATOR_WRITE name _ _ Hrep (fills_init (Some (VInteger z)))).
  1: exact (add_ok cap ops l AS_OPERATOR_WRITE name _ _ Hrep (fills_init (Some (VString s)))).
  1: exact (add_ok cap ops l AS_OPERATOR_WRITE name _ _ Hrep (fills_init (Some (VBytes AS_BYTES_BLOB s)))).
  1: exact (add_ok cap ops l AS_OPERATOR_READ name _ _ Hrep (fills_init (Some VNil))).
  1: exact (add_ok cap ops l AS_OPERATOR_INCR name _ _ Hrep (fills_init (Some (VInteger z)))).
  1: exact (add_ok cap ops l AS_OPERATOR_PREPEND name _ _ Hrep (fills_init (Some (VString s)))).
  1: exact (add_ok cap ops l AS_OPERATOR_PREPEND name _ _ Hrep (fills_init (Some (VBytes AS_BYTES_BLOB s)))).
  1: exact (add_ok cap ops l AS_OPERATOR_APPEND name _ _ Hrep (fills_init (Some (VString s)))).
  1: exact (add_ok cap ops l AS_OPERATOR_APPEND name _ _ Hrep (fills_init (Some (VBytes AS_BYTES_BLOB s)))).
  exact (add_ok cap ops l AS_OPERATOR_TOUCH [] _ _ Hrep (fills_init (Some VNil))).
Qed.

Lemma opsops_ok cap calls ops l : ops_rep cap ops l ->
  exists ops', run_opsops ops calls = Some ((spec_opsops cap l calls).1, ops') /\ ops_rep cap ops' (spec_opsops cap l calls).2
  /\ binops_free ops' = binops_free ops /\ ops_free ops' = ops_free ops.
Proof.
  revert ops l. induction calls as [|op calls IH]; intros ops l Hrep; cbn [run_opsops spec_opsops]; [by exists ops|].
  destruct (opsop_ok cap ops l op Hrep) as (ops1 & -> & Hr1 & Hf1 & Hg1). cbn [mbind option_bind].
  destruct (IH ops1 _ Hr1) as (ops' & -> & Hr' & Hf' & Hg'). cbn [mbind option_bind].
  destruct (spec_opsops cap _ calls) as [bs l'] eqn:Hsp. cbn [fst snd] in *. exists ops'. split_and!; [done|done|congruence..].
Qed.

(** The operations of a call are the ones that were added, in order.  Every call of an
    [as_operations_add] function answers whether the name of the bin fits and there is
    room, and adds its operation if so; destroying the operations destroys their values
    and frees the array.  The structure itself is not freed: [as_operations_new] marks it
    as not its own. *)
Theorem operations_in_order nops entries calls :
  0 < nops < 2 ^ 16 -> blen entries = nops ->
  let '(bs, l) := spec_opsops nops [] calls in
  exists ops, run_opsops (as_operations_new nops (Some entries)) calls = Some (bs, ops)
  /\ operations_list ops = l /\ blen l <= nops
  /\ exists ops', as_operations_destroy ops = (ops', omap (fun op => bin_valuep (binop_bin op)) l, true, false).
Proof.
  intros Hn Hlen. assert (ops_rep nops (as_operations_new nops (Some entries)) []) as Hrep.
  { unfold as_operations_new, as_operations_default. destruct (Z.ltb_spec 0 nops); [|lia].
    split_and!; cbn; try done; try lia. by eexists. }
  destruct (opsops_ok nops calls _ _ Hrep) as (ops & Hrun & Hr & Hf & Hg). destruct (spec_opsops nops [] calls) as [bs l]. cbn [fst snd] in *.
  exists ops. pose proof (ops_rep_list _ _ _ Hr) as Hl. split_and!; [done|done|apply Hr|].
  unfold as_operations_destroy. rewrite Hl, Hf, Hg. unfold as_operations_new, as_operations_default.
  destruct (Z.ltb_spec 0 nops); [|lia]. eexists. cbn [binops_free ops_free]. do 3 f_equal.
  clear. induction l as [|op l IH]; [done|]. csimpl. rewrite <- IH. by destruct (bin_valuep (binop_bin op)).
Qed.

(** ** Visiting the bins *)

(** Taking the next bin until there is none. *)
Fixpoint drain (n : nat) (it : as_record_iterator) : option (list as_bin) :=
  match n with
  | O => Some []
  | S n =>
      '(b, it) ← as_record_iterator_next it;
      match b with Some b => cons b <$> drain n it | None => Some [] end
  end.

Lemma drain_from n rec pos rest : record_bins rec = pos ++ rest -> 0 <= bins_size rec < 2 ^ 16 -> bins_size rec <= blen (bins_entries rec) ->
  (length rest < n)%nat -> drain n (mk_record_iterator (Some rec) (blen pos)) = Some rest.
Proof.
  intros Hb Hs Hle. assert (blen (pos ++ rest) = bins_size rec) as Hlen. { rewrite <- Hb. unfold record_bins. rewrite length_take. lia. }
  rewrite length_app in Hlen. revert pos rest Hb Hlen. induction n as [|n IH]; intros pos rest Hb Hlen Hn; [lia|].
  cbn [drain]. unfold as_record_iterator_next. cbn [it_record it_pos]. destruct rest as [|b rest]; cbn [length] in *.
  - destruct (Z.ltb_spec (blen pos) (bins_size rec)); [lia|]. done.
  - destruct (Z.ltb_spec (blen pos) (bins_size rec)); [|lia]. rewrite Nat2Z.id.
    assert (bins_entries rec !! length pos = Some b) as ->.
    { rewrite <- (lookup_take_lt _ (Z.to_nat (bins_size rec))) by lia. fold (record_bins rec). rewrite Hb. by apply list_lookup_middle. }
    cbn [mbind option_bind]. assert (u32 (blen pos + 1) = blen (pos ++ [b])) as ->.
    { rewrite length_app. cbn [length]. unfold u32. rewrite Z.mod_small by lia. lia. }
    rewrite (IH (pos ++ [b]) rest); [done| |rewrite length_app; cbn [length]; lia|lia]. by rewrite <- app_assoc.
Qed.

Lemma foreach_all {S} (f : list Z -> option as_val -> S -> S) bins (s : S) :
  foreach_bin (fun n v s => (true, f n v s)) bins s = (true, fold_left (fun s b => f (bin_name b) (bin_valuep b) s) bins s).
Proof. revert s. induction bins as [|b bins IH]; intros s; [done|]. cbn. apply IH. Qed.

(** Iterating over a record and [as_record_foreach] visit exactly its bins, in order,
    each once. *)
Theorem record_visits {S} rec n (f : list Z -> option as_val -> S -> S) (s : S) :
  0 <= bins_size rec < 2 ^ 16 -> bins_size rec <= blen (bins_entries rec) -> bins_size rec < Z.of_nat n ->
  drain n (as_record_iterator_init rec) = Some (record_bins rec)
  /\ as_record_foreach rec (fun name v s => (true, f name v s)) s
     = (true, fold_left (fun s b => f (bin_name b) (bin_valuep b) s) (record_bins rec) s).
Proof.
  intros Hs Hle Hn. split; [|apply foreach_all]. apply (drain_from n rec [] (record_bins rec)); [done..|].
  unfold record_bins. rewrite length_take. lia.
Qed.

(** ** Examples *)

Definition sample_entries (n : Z) : list as_bin := replicate (Z.to_nat n) (mk_bin [] None).

(** A record for two bins: the third name is refused, a bin that is set again keeps its
    place. *)
Definition sample_calls : list recop :=
  [RSetInt64 [97] 5; RSetStr [98] [120]; RSetInt64 [99] 7; RSetRaw [97] [1; 2]; RGet [97]; RGetInt64 [97] (-1); RNumbins].

Lemma record_refines_map_witness :
  exists rec, run_recops (as_record_init sample_entries 2) sample_calls
    = Some ([RBool true; RBool true; RBool false; RBool true; RVal (Some (VBytes 4 [1; 2])); RInt (-1); RInt 2], rec, [VInteger 5])
  /\ record_bins rec = [mk_bin [97] (Some (VBytes 4 [1; 2])); mk_bin [98] (Some (VString [120]))].
Proof.
  pose proof (record_refines_map sample_entries 2 sample_calls ltac:(lia) (fun _ => eq_refl)) as Hr.
  assert (spec_recops 2 no_bins sample_calls
    = ([RBool true; RBool true; RBool false; RBool true; RVal (Some (VBytes 4 [1; 2])); RInt (-1); RInt 2],
       (spec_recops 2 no_bins sample_calls).1.1.2, (spec_recops 2 no_bins sample_calls).1.2, [VInteger 5])) as E by (vm_compute; reflexivity).
  rewrite E in Hr. destruct Hr as (rec & Hrun & Hb & _). exists rec. split; [exact Hrun|]. rewrite Hb. vm_compute. reflexivity.
Defined.

Lemma operations_in_order_witness :
  exists ops, run_opsops (as_operations_new 2 (Some (replicate 2 (mk_binop 0 (mk_bin [] None))))) [OIncr [97] 1; ORead [97]; OTouch]
    = Some ([true; true; false], ops)
  /\ operations_list ops = [mk_binop 5 (mk_bin [97] (Some (VInteger 1))); mk_binop 1 (mk_bin [97] (Some VNil))].
Proof.
  destruct (operations_in_order 2 (replicate 2 (mk_binop 0 (mk_bin [] None))) [OIncr [97] 1; ORead [97]; OTouch] ltac:(lia) eq_refl)
    as (ops & Hrun & Hl & _). exists ops. split; [exact Hrun|exact Hl].
Defined.
