(* ===== verification/Requests.v ===== *)
(** * Scans, queries and batches: what is asked

    Models [as_scan.c], [as_query.c], [as_batch.c] and the calls of [as_udf.c], which a
    program fills in, and the functions of [aerospike_scan.c], [aerospike_query.c] and
    [aerospike_batch.c] that write the commands sent to every node. *)

From S2P Require Import Prelude ByteOrder Vector Value Msgpack Roundtrip Wire Socket Parse Execute Record.
Open Scope Z_scope.

Definition AS_FIELD_DIGEST_ARRAY : Z := 6.
Definition AS_FIELD_TASK_ID : Z := 7.
Definition AS_FIELD_SCAN_OPTIONS : Z := 8.
Definition AS_FIELD_INDEX_RANGE : Z := 22.
Definition AS_FIELD_INDEX_TYPE : Z := 26.
Definition AS_FIELD_UDF_OP : Z := 33.
Definition AS_FIELD_QUERY_BINS : Z := 40.
Definition AS_UDF_MODULE_MAX_LEN : Z := 63.
Definition AS_UDF_FUNCTION_MAX_LEN : Z := 63.

(** ** Calls of user-defined functions *)

Record as_udf_call := mk_udf_call { udf_module : list Z; udf_function : list Z; udf_arglist : option as_val }.

Definition no_call : as_udf_call := mk_udf_call [] [] None.

(** NULL module or function is the empty string. *)
Definition as_udf_call_defaults (module_ function : option (list Z)) (arglist : option as_val) : as_udf_call :=
  mk_udf_call (c_str (default [] module_)) (c_str (default [] function)) arglist.

(** [None]: refused, the call is left as it was. *)
Definition as_udf_call_init (module_ function : option (list Z)) (arglist : option as_val) : option as_udf_call :=
  if (AS_UDF_MODULE_MAX_LEN <? strlen (default [] module_)) || (AS_UDF_FUNCTION_MAX_LEN <? strlen (default [] function))
  then None else Some (as_udf_call_defaults module_ function arglist).

(** What is destroyed. *)
Definition as_udf_call_destroy (call : as_udf_call) : as_udf_call * list as_val := (no_call, option_list (udf_arglist call)).

(** ** The bins to select, of scans and queries *)

Record as_select := mk_select { sel_free : bool; sel_capacity : Z; sel_size : Z; sel_entries : option (list (list Z)) }.

Definition no_select : as_select := mk_select false 0 0 None.

(** [entries] is what [calloc] returns. *)
Definition select_init (s : as_select) (n : Z) (entries : option (list (list Z))) : bool * as_select :=
  match sel_entries s with
  | Some _ => (false, s)
  | None => match entries with
            | None => (false, s)
            | Some e => (true, mk_select true n 0 (Some e))
            end
  end.

Definition select_add (s : as_select) (bin : option (list Z)) : option (bool * as_select) :=
  match bin with
  | None => Some (false, s)
  | Some bin =>
      if AS_BIN_NAME_MAX_SIZE <=? strlen bin then Some (false, s)
      else if sel_capacity s <=? sel_size s then Some (false, s)
      else
        e ← sel_entries s;
        e ← aset e (sel_size s) (c_str bin);
        Some (true, mk_select (sel_free s) (sel_capacity s) (u16 (sel_size s + 1)) (Some e))
  end.

(** The names in use. *)
Definition selected (s : as_select) : list (list Z) := take (Z.to_nat (sel_size s)) (default [] (sel_entries s)).

(** A namespace or a set that does not fit is dropped. *)
Definition fitting (max : Z) (s : list Z) : list Z := if strlen s <? max then c_str s else [].

(** ** Scans *)

Record as_scan := mk_scan {
  scan_ns : list Z; scan_set : list Z; scan_select : as_select;
  scan_priority : Z; scan_percent : Z; scan_no_bins : bool; scan_concurrent : bool; scan_deserialize : bool;
  scan_apply : as_udf_call
}.

Definition as_scan_defaults (ns : list Z) (set : option (list Z)) : as_scan :=
  mk_scan (fitting AS_NAMESPACE_MAX_SIZE ns) (fitting AS_SET_MAX_SIZE (default [] set)) no_select 0 100 false false true no_call.

Definition with_select (scan : as_scan) (s : as_select) : as_scan :=
  mk_scan (scan_ns scan) (scan_set scan) s (scan_priority scan) (scan_percent scan) (scan_no_bins scan)
    (scan_concurrent scan) (scan_deserialize scan) (scan_apply scan).

Definition as_scan_select_init (scan : as_scan) (n : Z) (entries : option (list (list Z))) : bool * as_scan :=
  let '(ok, s) := select_init (scan_select scan) n entries in (ok, with_select scan s).
Definition as_scan_select (scan : as_scan) (bin : option (list Z)) : option (bool * as_scan) :=
  '(ok, s) ← select_add (scan_select scan) bin; Some (ok, with_select scan s).

Definition as_scan_set_percent (scan : as_scan) (percent : Z) : as_scan :=
  mk_scan (scan_ns scan) (scan_set scan) (scan_select scan) (scan_priority scan) percent (scan_no_bins scan)
    (scan_concurrent scan) (scan_deserialize scan) (scan_apply scan).
Definition as_scan_set_priority (scan : as_scan) (priority : Z) : as_scan :=
  mk_scan (scan_ns scan) (scan_set scan) (scan_select scan) priority (scan_percent scan) (scan_no_bins scan)
    (scan_concurrent scan) (scan_deserialize scan) (scan_apply scan).
Definition as_scan_set_nobins (scan : as_scan) (nobins : bool) : as_scan :=
  mk_scan (scan_ns scan) (scan_set scan) (scan_select scan) (scan_priority scan) (scan_percent scan) nobins
    (scan_concurrent scan) (scan_deserialize scan) (scan_apply scan).
Definition as_scan_set_concurrent (scan : as_scan) (concurrent : bool) : as_scan :=
  mk_scan (scan_ns scan) (scan_set scan) (scan_select scan) (scan_priority scan) (scan_percent scan) (scan_no_bins scan)
    concurrent (scan_deserialize scan) (scan_apply scan).

(** The result of [as_udf_call_init] is not looked at. *)
Definition as_scan_apply_each (scan : as_scan) (module_ function : option (list Z)) (arglist : option as_val) : bool * as_scan :=
  match module_, function with
  | Some _, Some _ =>
      (true, mk_scan (scan_ns scan) (scan_set scan) (scan_select scan) (scan_priority scan) (scan_percent scan) (scan_no_bins scan)
               (scan_concurrent scan) (scan_deserialize scan) (default (scan_apply scan) (as_udf_call_init module_ function arglist)))
  | _, _ => (false, scan)
  end.

(** Whether the names are freed, the values destroyed, and what is left; the pointer to
    the names stays. *)
Definition as_scan_destroy (scan : as_scan) : bool * list as_val * as_scan :=
  let '(call, gone) := as_udf_call_destroy (scan_apply scan) in
  (sel_free (scan_select scan), gone,
   mk_scan [] [] (scan_select scan) (scan_priority scan) (scan_percent scan) (scan_no_bins scan)
     (scan_concurrent scan) (scan_deserialize scan) call).

(** The calls by which a program makes a scan; [ok]: whether there is memory for the [n]
    names. *)
Inductive scan_call :=
  | SSelectInit (n : Z) (ok : bool) | SSelect (bin : option (list Z)) | SPercent (percent : Z) | SPriority (priority : Z)
  | SNoBins (nobins : bool) | SConcurrent (concurrent : bool) | SApply (module_ function : option (list Z)) (arglist : option as_val).

Definition calloc {A} (ok : bool) (n : Z) (zero : A) : option (list A) := if ok then Some (replicate (Z.to_nat n) zero) else None.

Definition scan_exec (scan : as_scan) (call : scan_call) : option as_scan :=
  match call with
  | SSelectInit n ok => Some (as_scan_select_init scan n (calloc ok n [])).2
  | SSelect bin => '(_, scan) ← as_scan_select scan bin; Some scan
  | SPercent percent => Some (as_scan_set_percent scan percent)
  | SPriority priority => Some (as_scan_set_priority scan priority)
  | SNoBins nobins => Some (as_scan_set_nobins scan nobins)
  | SConcurrent concurrent => Some (as_scan_set_concurrent scan concurrent)
  | SApply module_ function arglist => Some (as_scan_apply_each scan module_ function arglist).2
  end.

Fixpoint scan_run (scan : as_scan) (calls : list scan_call) : option as_scan :=
  match calls with [] => Some scan | call :: calls => scan ← scan_exec scan call; scan_run scan calls end.

(** ** Queries *)

Inductive as_predicate_type := AS_PREDICATE_EQUAL | AS_PREDICATE_RANGE.
Definition AS_INDEX_STRING : Z := 0.
Definition AS_INDEX_NUMERIC : Z := 1.

(** The union of a predicate; [calloc] leaves it zero. *)
Inductive as_pvalue := PZero | PString (s : list Z) | PInteger (z : Z) | PRange (min max : Z).

Record as_predicate := mk_predicate {
  pred_bin : list Z; pred_type : as_predicate_type; pred_dtype : Z; pred_itype : Z; pred_value : as_pvalue
}.

Record as_query := mk_query {
  query_ns : list Z; query_set : list Z; query_select : as_select;
  where_capacity : Z; where_size : Z; where_entries : option (list as_predicate);
  orderby_capacity : Z; orderby_size : Z; orderby_entries : option (list (list Z * Z));
  query_apply : as_udf_call
}.

Definition as_query_defaults (ns set : option (list Z)) : as_query :=
  mk_query (fitting AS_NAMESPACE_MAX_SIZE (default [] ns)) (fitting AS_SET_MAX_SIZE (default [] set)) no_select
    0 0 None 0 0 None no_call.

Definition as_query_select_init (q : as_query) (n : Z) (entries : option (list (list Z))) : bool * as_query :=
  let '(ok, s) := select_init (query_select q) n entries in
  (ok, mk_query (query_ns q) (query_set q) s (where_capacity q) (where_size q) (where_entries q)
         (orderby_capacity q) (orderby_size q) (orderby_entries q) (query_apply q)).
Definition as_query_select (q : as_query) (bin : option (list Z)) : option (bool * as_query) :=
  '(ok, s) ← select_add (query_select q) bin;
  Some (ok, mk_query (query_ns q) (query_set q) s (where_capacity q) (where_size q) (where_entries q)
              (orderby_capacity q) (orderby_size q) (orderby_entries q) (query_apply q)).

Definition with_where (q : as_query) (capacity size : Z) (entries : option (list as_predicate)) : as_query :=
  mk_query (query_ns q) (query_set q) (query_select q) capacity size entries
    (orderby_capacity q) (orderby_size q) (orderby_entries q) (query_apply q).

Definition as_query_where_init (q : as_query) (n : Z) (entries : option (list as_predicate)) : bool * as_query :=
  match where_entries q, entries with
  | None, Some e => (true, with_where q n 0 (Some e))
  | _, _ => (false, q)
  end.

Definition dtype_fits (type : as_predicate_type) (dtype : Z) : bool :=
  match type with
  | AS_PREDICATE_EQUAL => (dtype =? AS_INDEX_STRING) || (dtype =? AS_INDEX_NUMERIC)
  | AS_PREDICATE_RANGE => dtype =? AS_INDEX_NUMERIC
  end.

(** [args] is what follows [dtype] in the call.  The entry is taken before the types are
    looked at, and kept when they do not fit. *)
Definition as_query_where (q : as_query) (bin : option (list Z)) (type : as_predicate_type) (itype dtype : Z) (args : as_pvalue)
  : option (bool * as_query) :=
  match bin with
  | None => Some (false, q)
  | Some bin =>
      if AS_BIN_NAME_MAX_SIZE <=? strlen bin then Some (false, q)
      else if where_capacity q <=? where_size q then Some (false, q)
      else
        e ← where_entries q;
        old ← aget e (where_size q);
        let fits := dtype_fits type dtype in
        e ← aset e (where_size q) (mk_predicate (c_str bin) type dtype itype (if fits then args else pred_value old));
        Some (fits, with_where q (where_capacity q) (u16 (where_size q + 1)) (Some e))
  end.

Definition predicates (q : as_query) : list as_predicate := take (Z.to_nat (where_size q)) (default [] (where_entries q)).

Definition with_orderby (q : as_query) (capacity size : Z) (entries : option (list (list Z * Z))) : as_query :=
  mk_query (query_ns q) (query_set q) (query_select q) (where_capacity q) (where_size q) (where_entries q)
    capacity size entries (query_apply q).

Definition as_query_orderby_init (q : as_query) (n : Z) (entries : option (list (list Z * Z))) : bool * as_query :=
  match orderby_entries q, entries with
  | None, Some e => (true, with_orderby q n 0 (Some e))
  | _, _ => (false, q)
  end.
Definition as_query_orderby (q : as_query) (bin : option (list Z)) (order : Z) : option (bool * as_query) :=
  match bin with
  | None => Some (false, q)
  | Some bin =>
      if AS_BIN_NAME_MAX_SIZE <=? strlen bin then Some (false, q)
      else if orderby_capacity q <=? orderby_size q then Some (false, q)
      else
        e ← orderby_entries q;
        e ← aset e (orderby_size q) (c_str bin, order);
        Some (true, with_orderby q (orderby_capacity q) (u16 (orderby_size q + 1)) (Some e))
  end.

Definition as_query_apply (q : as_query) (module_ function : option (list Z)) (arglist : option as_val) : bool * as_query :=
  (true, mk_query (query_ns q) (query_set q) (query_select q) (where_capacity q) (where_size q) (where_entries q)
           (orderby_capacity q) (orderby_size q) (orderby_entries q)
           (default (query_apply q) (as_udf_call_init module_ function arglist))).

(** The values destroyed, and what is left. *)
Definition as_query_destroy (q : as_query) : list as_val * as_query :=
  let '(call, gone) := as_udf_call_destroy (query_apply q) in
  (gone, mk_query [] [] no_select 0 0 None 0 0 None call).

(** The calls by which a program makes a query. *)
Inductive query_call :=
  | QSelectInit (n : Z) (ok : bool) | QSelect (bin : option (list Z))
  | QWhereInit (n : Z) (ok : bool) | QWhere (bin : option (list Z)) (type : as_predicate_type) (itype dtype : Z) (args : as_pvalue)
  | QOrderbyInit (n : Z) (ok : bool) | QOrderby (bin : option (list Z)) (order : Z)
  | QApply (module_ function : option (list Z)) (arglist : option as_val).

Definition no_predicate : as_predicate := mk_predicate [] AS_PREDICATE_EQUAL 0 0 PZero.

Definition query_exec (q : as_query) (call : query_call) : option as_query :=
  match call with
  | QSelectInit n ok => Some (as_query_select_init q n (calloc ok n [])).2
  | QSelect bin => '(_, q) ← as_query_select q bin; Some q
  | QWhereInit n ok => Some (as_query_where_init q n (calloc ok n no_predicate)).2
  | QWhere bin type itype dtype args => '(_, q) ← as_query_where q bin type itype dtype args; Some q
  | QOrderbyInit n ok => Some (as_query_orderby_init q n (calloc ok n ([], 0))).2
  | QOrderby bin order => '(_, q) ← as_query_orderby q bin order; Some q
  | QApply module_ function arglist => Some (as_query_apply q module_ function arglist).2
  end.

Fixpoint query_run (q : as_query) (calls : list query_call) : option as_query :=
  match calls with [] => Some q | call :: calls => q ← query_exec q call; query_run q calls end.

(** ** Batches *)

(** The keys; [batch_free] and [keys_free] say what [as_batch_destroy] frees. *)
Record as_batch := mk_batch { batch_free : bool; keys_free : bool; batch_size : Z; batch_keys : list as_key }.

(** [entries]: what the block of keys holds, [None] when it cannot be allocated; with
    [as_batch_init] the batch is then left as it was. *)
Definition as_batch_new (size : Z) (entries : option (list as_key)) : option as_batch :=
  match entries with Some e => Some (mk_batch true false size e) | None => None end.
Definition as_batch_init (batch : as_batch) (size : Z) (entries : option (list as_key)) : as_batch :=
  if 0 <? size then match entries with Some e => mk_batch false true size e | None => batch end
  else mk_batch false true size [].

Definition as_batch_keyat (batch : as_batch) (i : Z) : option (option as_key) :=
  if i <? batch_size batch then key ← aget (batch_keys batch) i; Some (Some key) else Some None.

(** The values that are destroyed. *)
Definition as_batch_destroy (batch : as_batch) : as_batch * list as_val :=
  (mk_batch (batch_free batch) false 0 [],
   mjoin (map (fun key => (as_key_destroy key false).1) (take (Z.to_nat (batch_size batch)) (batch_keys batch)))).

(** ** The commands *)

Section Commands.
Context `{Platform}.
Context (hpux : bool) (uninit : Z -> list Z).

Definition as_command_string_operation_size (value : list Z) : Z := strlen value + AS_OPERATION_HEADER_SIZE.

Definition names_size (names : list (list Z)) (size : Z) : Z :=
  fold_left (fun size name => size + as_command_string_operation_size name) names size.

(** Whether there is a function to call, the room for it and the serialized arguments. *)
Definition has_function (call : as_udf_call) : bool := negb (strlen (udf_function call) =? 0).

Definition udf_size (call : as_udf_call) (size n_fields : Z) : option (Z * Z * as_buffer) :=
  if has_function call then
    let size := size + as_command_field_size 1 + as_command_string_field_size (udf_module call)
                + as_command_string_field_size (udf_function call) in
    args ← match udf_arglist call with Some v => serialize_into v no_buffer | None => Some no_buffer end;
    Some (size + as_command_field_size (bf_size args), u16 (n_fields + 4), args)
  else Some (size, n_fields, no_buffer).

Definition write_udf (buf : list Z) (p op : Z) (call : as_udf_call) (args : as_buffer) : wres :=
  if has_function call then
    '(buf, p) ← as_command_write_field_header buf p AS_FIELD_UDF_OP 1;
    buf ← aset buf p op;
    '(buf, p) ← as_command_write_field_string buf (p + 1) AS_FIELD_UDF_PACKAGE_NAME (udf_module call);
    '(buf, p) ← as_command_write_field_string buf p AS_FIELD_UDF_FUNCTION (udf_function call);
    as_command_write_field_buffer buf p AS_FIELD_UDF_ARGLIST args
  else Some (buf, p).

(** *** Scans *)

(** The size, the number of fields and the arguments. *)
Definition as_scan_command_size (scan : as_scan) : option (Z * Z * as_buffer) :=
  let size := AS_HEADER_SIZE + as_command_string_field_size (scan_ns scan) + as_command_string_field_size (scan_set scan)
              + as_command_field_size 2 + as_command_field_size 8 in
  '(size, n_fields, args) ← udf_size (scan_apply scan) size 4;
  Some (names_size (selected (scan_select scan)) size, n_fields, args).

(** A scan with a function writes, and counts no operations. *)
Definition write_scan_header (timeout : Z) (scan : as_scan) (n_fields : Z) (cmd : list Z) : wres :=
  if has_function (scan_apply scan)
  then as_command_write_header cmd AS_MSG_INFO1_READ AS_MSG_INFO2_WRITE COMMIT_ALL CONSISTENCY_ONE EXISTS_IGNORE GEN_IGNORE
         0 0 timeout n_fields 0
  else as_command_write_header_read cmd
         (if scan_no_bins scan then Z.lor AS_MSG_INFO1_READ AS_MSG_INFO1_GET_NOBINDATA else AS_MSG_INFO1_READ)
         CONSISTENCY_ONE timeout n_fields (sel_size (scan_select scan)).

Definition as_scan_command_init (cmd : list Z) (timeout : Z) (fail_on_cluster_change : bool) (scan : as_scan)
    (task_id n_fields : Z) (args : as_buffer) : option (list Z) :=
  '(buf, p) ← write_scan_header timeout scan n_fields cmd;
  '(buf, p) ← as_command_write_field_string buf p AS_FIELD_NAMESPACE (scan_ns scan);
  '(buf, p) ← as_command_write_field_string buf p AS_FIELD_SETNAME (scan_set scan);
  '(buf, p) ← as_command_write_field_header buf p AS_FIELD_SCAN_OPTIONS 2;
  let priority := u8 (Z.shiftl (scan_priority scan) 4) in
  buf ← aset buf p (if fail_on_cluster_change then Z.lor priority 0x08 else priority);
  let p := p + 1 in
  buf ← aset buf p (scan_percent scan);
  '(buf, p) ← as_command_write_field_uint64 hpux buf (p + 1) AS_FIELD_TASK_ID task_id;
  '(buf, p) ← write_udf buf p 2 (scan_apply scan) args;
  '(buf, p) ← write_bin_names buf p (selected (scan_select scan));
  sent (as_command_write_end buf p).

(** Size, block and bytes, as [as_scan_generic] and [aerospike_scan_node] put them together. *)
Definition scan_command (timeout : Z) (fail_on_cluster_change : bool) (scan : as_scan) (task_id : Z) : option (list Z) :=
  '(size, n_fields, args) ← as_scan_command_size scan;
  as_scan_command_init (uninit size) timeout fail_on_cluster_change scan task_id n_fields args.

(** *** Queries *)

(** A length byte, and the characters behind it. *)
Definition write_counted (buf : list Z) (p : Z) (s : list Z) : wres :=
  '(buf, q) ← write_chars buf (p + 1) s;
  buf ← aset buf p (u8 (q - (p + 1)));
  Some (buf, q).

(** Four bytes of length, and the characters behind them. *)
Definition write_sized (buf : list Z) (p : Z) (s : list Z) : wres :=
  '(buf, q) ← write_chars buf (p + 4) s;
  buf ← store_be32 buf p (u32 (q - (p + 4)));
  Some (buf, q).

Definition as_query_write_range_string (buf : list Z) (p : Z) (begin end_ : list Z) : wres :=
  buf ← aset buf p AS_BYTES_STRING;
  '(buf, p) ← write_sized buf (p + 1) begin;
  write_sized buf p end_.

(** On HP-UX the four bytes are copied, and then only the first one is swapped. *)
Definition store_size8 (buf : list Z) (p : Z) : option (list Z) :=
  if hpux then
    buf ← mwrite buf p (mem_of host_endian 4 8);
    b ← aget buf p;
    aset buf p (u8 (cf_swap_to_be32 host_endian b))
  else store_be32 buf p 8.

Definition as_query_write_range_integer (buf : list Z) (p begin end_ : Z) : wres :=
  buf ← aset buf p AS_BYTES_INTEGER;
  let p := p + 1 in
  buf ← store_size8 buf p;
  let p := p + 4 in
  buf ← store_be64 hpux buf p begin;
  let p := p + 8 in
  buf ← store_size8 buf p;
  let p := p + 4 in
  buf ← store_be64 hpux buf p end_;
  Some (buf, p + 8).

(** The members of the union; a predicate that was never filled in is zero, and a NULL
    string is not read. *)
Definition pv_string (v : as_pvalue) : option (list Z) := match v with PString s => Some s | _ => None end.
Definition pv_integer (v : as_pvalue) : Z := match v with PInteger z => z | PRange z _ => z | _ => 0 end.
Definition pv_range (v : as_pvalue) : Z * Z := match v with PRange a b => (a, b) | PInteger z => (z, 0) | _ => (0, 0) end.

Definition predicate_size (pred : as_predicate) : option Z :=
  let n := strlen (pred_bin pred) + 10 in
  match pred_type pred with
  | AS_PREDICATE_EQUAL =>
      if pred_dtype pred =? AS_INDEX_STRING then s ← pv_string (pred_value pred); Some (n + strlen s * 2)
      else if pred_dtype pred =? AS_INDEX_NUMERIC then Some (n + 16) else Some n
  | AS_PREDICATE_RANGE => Some (n + 16)
  end.

Fixpoint predicates_size (preds : list as_predicate) (size : Z) : option Z :=
  match preds with
  | [] => Some size
  | pred :: preds => n ← predicate_size pred; predicates_size preds (u32 (size + n))
  end.

Definition write_predicate (buf : list Z) (p : Z) (pred : as_predicate) : wres :=
  '(buf, p) ← write_counted buf p (pred_bin pred);
  match pred_type pred with
  | AS_PREDICATE_EQUAL =>
      if pred_dtype pred =? AS_INDEX_STRING
      then s ← pv_string (pred_value pred); as_query_write_range_string buf p s s
      else if pred_dtype pred =? AS_INDEX_NUMERIC
      then as_query_write_range_integer buf p (pv_integer (pred_value pred)) (pv_integer (pred_value pred))
      else Some (buf, p)
  | AS_PREDICATE_RANGE => as_query_write_range_integer buf p (pv_range (pred_value pred)).1 (pv_range (pred_value pred)).2
  end.

Fixpoint write_each {A} (write : list Z -> Z -> A -> wres) (buf : list Z) (p : Z) (l : list A) : wres :=
  match l with
  | [] => Some (buf, p)
  | x :: l => '(buf, p) ← write buf p x; write_each write buf p l
  end.

(** The bins of a query are a field; those of a scan are operations. *)
Definition query_bins_size (names : list (list Z)) : Z := fold_left (fun n name => u32 (n + (strlen name + 1))) names 1.

(** The room for filters and bin names, or for the options of a scan; behind the size and
    the number of fields, the sizes of the filters and of the names. *)
Definition filters_size (q : as_query) (size n_fields : Z) : option (Z * Z * Z * Z) :=
  if 0 <? where_size q then
    filter_size ← predicates_size (predicates q) 1;
    let size := size + AS_FIELD_HEADER_SIZE + filter_size in
    if 0 <? sel_size (query_select q) then
      let bin_name_size := query_bins_size (selected (query_select q)) in
      Some (size + AS_FIELD_HEADER_SIZE + bin_name_size, n_fields + 2, filter_size, bin_name_size)
    else Some (size, n_fields + 1, filter_size, 0)
  else Some (size + as_command_field_size 2, n_fields + 1, 0, 0).

Definition query_command_size (q : as_query) : option (Z * Z * Z * Z * as_buffer) :=
  let size := AS_HEADER_SIZE + as_command_string_field_size (query_ns q) + as_command_string_field_size (query_set q)
              + (if where_size q =? 1 then as_command_field_size 1 else 0) + as_command_field_size 8 in
  '(size, n_fields, filter_size, bin_name_size) ← filters_size q size (if where_size q =? 1 then 4 else 3);
  '(size, n_fields, args) ← udf_size (query_apply q) size n_fields;
  Some (if where_size q =? 0 then names_size (selected (query_select q)) size else size,
        n_fields, filter_size, bin_name_size, args).

Definition write_index_type (buf : list Z) (p : Z) (q : as_query) : wres :=
  if where_size q =? 1 then
    pred ← head (predicates q);
    '(buf, p) ← as_command_write_field_header buf p AS_FIELD_INDEX_TYPE 1;
    buf ← aset buf p (u8 (pred_itype pred)); Some (buf, p + 1)
  else Some (buf, p).

(** The fields for filters and bin names, or the options of a scan. *)
Definition write_filters (buf : list Z) (p : Z) (q : as_query) (filter_size bin_name_size : Z) : wres :=
  if 0 <? where_size q then
    '(buf, p) ← as_command_write_field_header buf p AS_FIELD_INDEX_RANGE filter_size;
    buf ← aset buf p (u8 (where_size q));
    '(buf, p) ← write_each write_predicate buf (p + 1) (predicates q);
    if 0 <? sel_size (query_select q) then
      '(buf, p) ← as_command_write_field_header buf p AS_FIELD_QUERY_BINS bin_name_size;
      buf ← aset buf p (u8 (sel_size (query_select q)));
      write_each write_counted buf (p + 1) (selected (query_select q))
    else Some (buf, p)
  else
    '(buf, p) ← as_command_write_field_header buf p AS_FIELD_SCAN_OPTIONS 2;
    buf ← aset buf p 0;
    let p := p + 1 in
    buf ← aset buf p 100;
    Some (buf, p + 1).

(** The first half of [as_query_execute]. *)
Definition query_command (timeout : Z) (q : as_query) (task_id : Z) : option (list Z) :=
  '(size, n_fields, filter_size, bin_name_size, args) ← query_command_size q;
  '(buf, p) ← as_command_write_header_read (uninit size) AS_MSG_INFO1_READ CONSISTENCY_ONE timeout n_fields
                (if where_size q =? 0 then sel_size (query_select q) else 0);
  '(buf, p) ← as_command_write_field_string buf p AS_FIELD_NAMESPACE (query_ns q);
  '(buf, p) ← as_command_write_field_string buf p AS_FIELD_SETNAME (query_set q);
  '(buf, p) ← write_index_type buf p q;
  '(buf, p) ← as_command_write_field_uint64 hpux buf p AS_FIELD_TASK_ID task_id;
  '(buf, p) ← write_filters buf p q filter_size bin_name_size;
  '(buf, p) ← write_udf buf p 1 (query_apply q) args;
  '(buf, p) ← (if where_size q =? 0 then write_bin_names buf p (selected (query_select q)) else Some (buf, p));
  sent (as_command_write_end buf p).

(** *** Batches *)

Fixpoint write_digests (n : nat) (i : Z) (buf : list Z) (p : Z) (offsets : as_vector Z) (keys : list as_key) : wres :=
  match n with
  | O => Some (buf, p)
  | S n =>
      offset ← as_vector_get offsets i;
      key ← aget keys offset;
      bytes ← mslice (digest_value key) 0 AS_DIGEST_VALUE_SIZE;
      buf ← mwrite buf p bytes;
      write_digests n (i + 1) buf (p + AS_DIGEST_VALUE_SIZE) offsets keys
  end.

(** The first half of [as_batch_command_execute]. *)
Definition batch_command (ns : list Z) (offsets : as_vector Z) (keys : list as_key) (read_attr timeout : Z) : option (list Z) :=
  let byte_size := u32 (size offsets * AS_DIGEST_VALUE_SIZE) in
  let size_ := AS_HEADER_SIZE + as_command_string_field_size ns + as_command_field_size byte_size in
  '(buf, p) ← as_command_write_header_read (uninit size_) read_attr CONSISTENCY_ONE timeout 2 0;
  '(buf, p) ← as_command_write_field_string buf p AS_FIELD_NAMESPACE ns;
  '(buf, p) ← as_command_write_field_header buf p AS_FIELD_DIGEST_ARRAY byte_size;
  '(buf, p) ← write_digests (Z.to_nat (size offsets)) 0 buf p offsets keys;
  sent (as_command_write_end buf p).
End Commands.

(** ** The messages *)

(** The fields of a call; arguments that cannot be serialized are an empty field. *)
Definition udf_fields (op : Z) (call : as_udf_call) : list (Z * list Z) :=
  if has_function call then
    [(AS_FIELD_UDF_OP, [op]); (AS_FIELD_UDF_PACKAGE_NAME, c_str (udf_module call));
     (AS_FIELD_UDF_FUNCTION, c_str (udf_function call));
     (AS_FIELD_UDF_ARGLIST, match udf_arglist call with Some v => packed v | None => [] end)]
  else [].

Definition call_ready (call : as_udf_call) : Prop := match udf_arglist call with Some v => sendable v | None => True end.

(** At most [capacity] names, all of a length the server takes. *)
Definition select_ok (s : as_select) : Prop :=
  0 <= sel_size s <= sel_capacity s /\ sel_capacity s <= 65535
  /\ match sel_entries s with
     | Some e => blen e = sel_capacity s /\ Forall (fun name => strlen name <= AS_BIN_NAME_MAX_LEN) e
     | None => sel_capacity s = 0
     end.

Definition scan_options (fail_on_cluster_change : bool) (scan : as_scan) : list Z :=
  let priority := u8 (Z.shiftl (scan_priority scan) 4) in
  [if fail_on_cluster_change then Z.lor priority 0x08 else priority; scan_percent scan].

Definition scan_fields (fail_on_cluster_change : bool) (scan : as_scan) (task_id : Z) : list (Z * list Z) :=
  [(AS_FIELD_NAMESPACE, c_str (scan_ns scan)); (AS_FIELD_SETNAME, c_str (scan_set scan));
   (AS_FIELD_SCAN_OPTIONS, scan_options fail_on_cluster_change scan); (AS_FIELD_TASK_ID, be_bytes 8 task_id)]
  ++ udf_fields 2 (scan_apply scan).

Definition scan_request (timeout : Z) (fail_on_cluster_change : bool) (scan : as_scan) (task_id : Z) : list Z :=
  let fields := scan_fields fail_on_cluster_change scan task_id in
  let background := has_function (scan_apply scan) in
  wire_message
    (wire_header (if background then AS_MSG_INFO1_READ
                  else if scan_no_bins scan then Z.lor AS_MSG_INFO1_READ AS_MSG_INFO1_GET_NOBINDATA else AS_MSG_INFO1_READ)
       (if background then AS_MSG_INFO2_WRITE else 0) 0 0 0 timeout (blen fields)
       (if background then 0 else sel_size (scan_select scan)))
    (wire_fields fields ++ wire_names (selected (scan_select scan))).

(** The ends of a range, as the server reads them. *)
Definition wire_range (type : Z) (begin end_ : list Z) : list Z :=
  type :: be_bytes 4 (blen begin) ++ begin ++ be_bytes 4 (blen end_) ++ end_.
Definition wire_counted (s : list Z) : list Z := blen s :: s.

Definition wire_predicate (pred : as_predicate) : list Z :=
  wire_counted (c_str (pred_bin pred)) ++
  match pred_type pred, pred_value pred with
  | AS_PREDICATE_EQUAL, PString s => wire_range AS_BYTES_STRING (c_str s) (c_str s)
  | AS_PREDICATE_EQUAL, v => wire_range AS_BYTES_INTEGER (be_bytes 8 (pv_integer v)) (be_bytes 8 (pv_integer v))
  | AS_PREDICATE_RANGE, v => wire_range AS_BYTES_INTEGER (be_bytes 8 (pv_range v).1) (be_bytes 8 (pv_range v).2)
  end.

(** The fields that ask for filters and bins, or for everything. *)
Definition filter_fields (q : as_query) : list (Z * list Z) :=
  match predicates q with
  | [] => [(AS_FIELD_SCAN_OPTIONS, [0; 100])]
  | preds => (AS_FIELD_INDEX_RANGE, u8 (blen preds) :: mjoin (map wire_predicate preds))
             :: match selected (query_select q) with
                | [] => []
                | names => [(AS_FIELD_QUERY_BINS, u8 (blen names) :: mjoin (map (fun n => wire_counted (c_str n)) names))]
                end
  end.

(** The type of the index, when there is one predicate. *)
Definition index_fields (q : as_query) : list (Z * list Z) :=
  match predicates q with [pred] => [(AS_FIELD_INDEX_TYPE, [u8 (pred_itype pred)])] | _ => [] end.

Definition query_fields (q : as_query) (task_id : Z) : list (Z * list Z) :=
  [(AS_FIELD_NAMESPACE, c_str (query_ns q)); (AS_FIELD_SETNAME, c_str (query_set q))]
  ++ index_fields q
  ++ [(AS_FIELD_TASK_ID, be_bytes 8 task_id)]
  ++ filter_fields q
  ++ udf_fields 1 (query_apply q).

(** Without predicates a query is a scan, whose bins are operations. *)
Definition query_names (q : as_query) : list (list Z) :=
  match predicates q with [] => selected (query_select q) | _ => [] end.

Definition query_request (timeout : Z) (q : as_query) (task_id : Z) : list Z :=
  let fields := query_fields q task_id in
  wire_message (wire_header AS_MSG_INFO1_READ 0 0 0 0 timeout (blen fields) (blen (query_names q)))
    (wire_fields fields ++ wire_names (query_names q)).

(** A predicate whose types and value go together; the ends of a range that was refused
    are zero. *)
Definition pred_ok (pred : as_predicate) : Prop :=
  strlen (pred_bin pred) <= AS_BIN_NAME_MAX_LEN
  /\ match pred_type pred, pred_value pred with
     | AS_PREDICATE_EQUAL, PString _ => pred_dtype pred = AS_INDEX_STRING
     | AS_PREDICATE_EQUAL, PInteger _ => pred_dtype pred = AS_INDEX_NUMERIC
     | AS_PREDICATE_RANGE, (PRange _ _ | PZero) => True
     | _, _ => False
     end.

Definition where_ok (q : as_query) : Prop :=
  0 <= where_size q <= where_capacity q /\ where_capacity q <= 65535 /\ Forall pred_ok (predicates q)
  /\ match where_entries q with
     | Some e => blen e = where_capacity q /\ Forall (fun pred => pred_value pred = PZero) (drop (Z.to_nat (where_size q)) e)
     | None => where_capacity q = 0
     end.

(** The keys at the offsets of a task, in their order. *)
Definition keys_at (keys : list as_key) (offsets : list Z) : list as_key :=
  omap (fun o => keys !! Z.to_nat o) offsets.

Definition batch_request (ns : list Z) (keys : list as_key) (read_attr timeout : Z) : list Z :=
  wire_message (wire_header (info1_bits read_attr CONSISTENCY_ONE) 0 0 0 0 timeout 2 0)
    (wire_fields [(AS_FIELD_NAMESPACE, c_str ns); (AS_FIELD_DIGEST_ARRAY, mjoin (map digest_value keys))]).

(** Steps through the writers common to both sides. *)
Ltac chain :=
  repeat (match goal with
    | |- context [mbind _ ?x] =>
        lazymatch x with mbind _ _ => fail | _ => idtac end;
        lazymatch type of x with
        | wres => destruct x as [[? ?]|]
        | option (_ * _) => destruct x as [[? ?]|]
        | option _ => destruct x
        end
    end; cbn [mbind option_bind]; [|done]); try done.

Lemma wire_fields_app l k : wire_fields (l ++ k) = wire_fields l ++ wire_fields k.
Proof. unfold wire_fields. by rewrite map_app, join_app. Qed.
Lemma wire_fields_cons id bs l : wire_fields ((id, bs) :: l) = wire_field id bs ++ wire_fields l.
Proof. done. Qed.

(** The number of bytes of what is written. *)
Ltac measure :=
  unfold as_command_string_field_size, as_command_field_size, as_command_string_operation_size, strlen,
    AS_FIELD_HEADER_SIZE, AS_OPERATION_HEADER_SIZE, AS_HEADER_SIZE, wire_range, wire_counted in *;
  change (wire_fields []) with (@nil Z) in *;
  repeat rewrite ?app_nil_r, ?wire_fields_app, ?wire_fields_cons, ?length_app, ?wire_field_length, ?be_bytes_length, ?length_cons in *;
  change (wire_fields []) with (@nil Z) in *;
  cbn [length] in *.

Section RequestProofs.
Context `{Platform}.
Context (hpux : bool) (hpux_big : hpux = true -> host_endian = BigEndian).

Lemma writes_field id n f bs :
  writes f bs -> n = blen bs ->
  writes (fun buf p => '(buf, p) ← as_command_write_field_header buf p id n; f buf p) (wire_field id bs).
Proof.
  intros Hf ->. unfold wire_field. change (id :: bs) with ([id] ++ bs). rewrite app_assoc.
  by apply writes_seq; [apply writes_field_header|].
Qed.

Lemma writes_field_uint64 id x :
  writes (fun buf p => as_command_write_field_uint64 hpux buf p id x) (wire_field id (be_bytes 8 x)).
Proof. apply writes_field; [by apply writes_store_be64|by rewrite be_bytes_length]. Qed.

Lemma writes_byte b : writes (fun buf p => buf ← aset buf p b; Some (buf, p + 1)) [b].
Proof. apply (writes_typed b (fun buf p => Some (buf, p))), writes_nil. Qed.

Lemma writes_each {A} (write : list Z -> Z -> A -> wres) (bs : A -> list Z) (l : list A) :
  Forall (fun x => writes (fun buf p => write buf p x) (bs x)) l ->
  writes (fun buf p => write_each write buf p l) (mjoin (map bs l)).
Proof.
  induction l as [|x l IH]; intros Hl; [apply writes_nil|]. apply Forall_cons in Hl as [Hx Hl].
  rewrite map_cons, join_cons. cbn [write_each]. by apply writes_seq; [|apply IH].
Qed.

Lemma writes_counted s : strlen s < 256 -> writes (fun buf p => write_counted buf p s) (wire_counted (c_str s)).
Proof.
  unfold strlen. intros Hs pre old post Hl. unfold wire_counted, write_counted in *. rewrite length_cons in Hl.
  destruct (write_behind _ _ 1 pre old post (writes_chars s) ltac:(lia)) as (o1 & o2 & -> & H1 & Hw).
  change (Z.of_nat 1) with 1 in Hw. rewrite Hw. cbn [mbind option_bind].
  destruct o1 as [|o [|? ?]]; try done. cbn [app]. rewrite aset_middle by done. cbn [mbind option_bind].
  replace (blen pre + 1 + blen (c_str s) - (blen pre + 1)) with (blen (c_str s)) by lia.
  rewrite u8_id by (unfold is_byte; lia). rewrite length_cons. do 2 f_equal. lia.
Qed.

Lemma writes_sized s : writes (fun buf p => write_sized buf p s) (be_bytes 4 (strlen s) ++ c_str s).
Proof.
  unfold strlen. intros pre old post Hl. unfold write_sized in *. rewrite length_app, be_bytes_length in *.
  destruct (write_behind _ _ 4 pre old post (writes_chars s) ltac:(lia)) as (o1 & o2 & -> & H1 & Hw).
  change (Z.of_nat 4) with 4 in Hw. rewrite Hw. cbn [mbind option_bind].
  rewrite store_be32_at by done. cbn [mbind option_bind].
  replace (blen pre + 4 + blen (c_str s) - (blen pre + 4)) with (blen (c_str s)) by lia.
  rewrite be_bytes_u32, <- app_assoc. do 2 f_equal. lia.
Qed.

Lemma writes_range_string a b :
  writes (fun buf p => as_query_write_range_string buf p a b) (wire_range AS_BYTES_STRING (c_str a) (c_str b)).
Proof.
  apply (writes_typed AS_BYTES_STRING (fun buf p => '(buf, p) ← write_sized buf p a; write_sized buf p b)).
  rewrite app_assoc. apply writes_seq; apply writes_sized.
Qed.

(** On the big-endian HP-UX hosts the swap of the one byte changes nothing. *)
Lemma writes_size8 : writes (fun buf p => buf ← store_size8 hpux buf p; Some (buf, p + 4)) (be_bytes 4 8).
Proof.
  intros pre old post Hl. rewrite be_bytes_length in *. unfold store_size8. destruct hpux.
  - rewrite hpux_big by done. cbn [mem_of cf_swap_to_be32].
    rewrite mwrite_at by (rewrite ?be_bytes_length; done). cbn [mbind option_bind].
    change (be_bytes 4 8) with [0; 0; 0; 8]. cbn [app].
    rewrite aget_lookup, list_lookup_middle by done. cbn [mbind option_bind].
    by rewrite aset_middle.
  - by rewrite store_be32_at.
Qed.

Lemma writes_range_integer a b :
  writes (fun buf p => as_query_write_range_integer hpux buf p a b)
    (wire_range AS_BYTES_INTEGER (be_bytes 8 a) (be_bytes 8 b)).
Proof.
  unfold wire_range. rewrite !be_bytes_length. change (Z.of_nat 8) with 8.
  eapply writes_ext; [|exact (writes_typed _ _ _ (writes_seq _ _ _ _ writes_size8
    (writes_seq _ _ _ _ (writes_store_be64 hpux hpux_big a)
      (writes_seq _ _ _ _ writes_size8 (writes_store_be64 hpux hpux_big b)))))].
  intros buf p. unfold as_query_write_range_integer. cbv beta zeta. chain.
Qed.

(** *** Calls *)

Lemma udf_size_ok call op size n :
  call_ready call -> 0 <= n <= 100 ->
  exists args, udf_size call size n
    = Some (size + blen (wire_fields (udf_fields op call)), n + blen (udf_fields op call), args)
    /\ writes (fun buf p => write_udf buf p op call args) (wire_fields (udf_fields op call)).
Proof.
  intros Hc Hn. unfold udf_size, udf_fields, write_udf. destruct (has_function call).
  2:{ exists no_buffer. cbn. rewrite !Z.add_0_r. split; [done|apply writes_nil]. }
  set (bs := match udf_arglist call with Some v => packed v | None => [] end).
  assert (exists b, match udf_arglist call with Some v => serialize_into v no_buffer | None => Some no_buffer end = Some b
    /\ bf_size b = blen bs /\ mslice (bf_data b) 0 (bf_size b) = Some bs) as (args & -> & Hs & Hd).
  { unfold call_ready in Hc. subst bs. destruct (udf_arglist call) as [v|]; [by apply serialize_into_ok|by exists no_buffer]. }
  exists args. cbn [mbind option_bind]. split.
  - rewrite u16_id by lia. measure. rewrite Hs. do 3 f_equal. lia.
  - unfold wire_fields. cbn [map mjoin list_join fst snd]. rewrite app_nil_r.
    eapply writes_ext; [|exact (writes_seq _ _ _ _ (writes_field AS_FIELD_UDF_OP 1 _ _ (writes_byte op) eq_refl)
      (writes_seq _ _ _ _ (writes_field_string _ (udf_module call)) (writes_seq _ _ _ _ (writes_field_string _ (udf_function call))
        (writes_field_buffer AS_FIELD_UDF_ARGLIST args bs Hs Hd))))].
    intros buf p. cbv beta. chain.
Qed.

(** *** Names *)

Lemma names_size_ok names size : names_size names size = size + blen (wire_names names).
Proof.
  revert size. unfold names_size, wire_names. induction names as [|name names IH]; intros size; [simpl; lia|].
  cbn [fold_left map]. rewrite IH, join_cons, length_app, wire_op_length, app_nil_r.
  unfold as_command_string_operation_size, strlen, AS_OPERATION_HEADER_SIZE. lia.
Qed.

Lemma selected_ok s : select_ok s ->
  blen (selected s) = sel_size s /\ Forall (fun name => strlen name <= AS_BIN_NAME_MAX_LEN) (selected s).
Proof.
  intros (Hn & Hc & He). unfold selected. destruct (sel_entries s) as [e|]; cbn [default id].
  - destruct He as [Hl Hf]. split; [rewrite length_take; lia|by apply Forall_take].
  - rewrite take_nil. split; [simpl; lia|done].
Qed.

(** *** Scans *)

Lemma writes_scan_body fail scan task_id args :
  select_ok (scan_select scan) ->
  writes (fun buf p => write_udf buf p 2 (scan_apply scan) args) (wire_fields (udf_fields 2 (scan_apply scan))) ->
  writes (fun buf p =>
    '(buf, p) ← as_command_write_field_string buf p AS_FIELD_NAMESPACE (scan_ns scan);
    '(buf, p) ← as_command_write_field_string buf p AS_FIELD_SETNAME (scan_set scan);
    '(buf, p) ← as_command_write_field_header buf p AS_FIELD_SCAN_OPTIONS 2;
    buf ← aset buf p (hd 0 (scan_options fail scan));
    let p := p + 1 in
    buf ← aset buf p (scan_percent scan);
    '(buf, p) ← as_command_write_field_uint64 hpux buf (p + 1) AS_FIELD_TASK_ID task_id;
    '(buf, p) ← write_udf buf p 2 (scan_apply scan) args;
    write_bin_names buf p (selected (scan_select scan)))
  (wire_fields (scan_fields fail scan task_id) ++ wire_names (selected (scan_select scan))).
Proof.
  intros [_ Hn]%selected_ok Hu. unfold scan_fields, wire_fields. rewrite map_app, join_app. fold (wire_fields (udf_fields 2 (scan_apply scan))).
  cbn [map mjoin list_join fst snd]. rewrite app_nil_r, <- !app_assoc.
  eapply writes_ext; [|exact (writes_seq _ _ _ _ (writes_field_string _ (scan_ns scan))
    (writes_seq _ _ _ _ (writes_field_string _ (scan_set scan))
    (writes_seq _ _ _ _ (writes_field AS_FIELD_SCAN_OPTIONS 2 _ _ (writes_typed _ _ _ (writes_byte (scan_percent scan))) eq_refl)
    (writes_seq _ _ _ _ (writes_field_uint64 AS_FIELD_TASK_ID task_id)
    (writes_seq _ _ _ _ Hu (writes_bin_names _ Hn))))))].
  intros buf p. cbv beta zeta. cbn [scan_options hd]. chain.
Qed.

Lemma scan_message uninit timeout fail scan task_id :
  block_size uninit -> select_ok (scan_select scan) -> call_ready (scan_apply scan) ->
  blen (wire_fields (scan_fields fail scan task_id) ++ wire_names (selected (scan_select scan))) < 2 ^ 47 ->
  scan_command hpux uninit timeout fail scan task_id = Some (scan_request timeout fail scan task_id).
Proof.
  intros Hu Hs Hc Hmax. unfold scan_command, as_scan_command_size, scan_request.
  set (body := wire_fields _ ++ wire_names _) in *.
  set (size0 := AS_HEADER_SIZE + _ + _ + _ + _).
  destruct (udf_size_ok (scan_apply scan) 2 size0 4 Hc ltac:(lia)) as (args & Hsz & Hw). rewrite Hsz.
  cbn [mbind option_bind]. rewrite names_size_ok. clear Hsz.
  assert (size0 + blen (wire_fields (udf_fields 2 (scan_apply scan))) + blen (wire_names (selected (scan_select scan)))
          = 30 + blen body) as ->.
  { subst size0 body. unfold scan_fields, scan_options. measure. lia. }
  assert (4 + blen (udf_fields 2 (scan_apply scan)) = blen (scan_fields fail scan task_id)) as ->.
  { unfold scan_fields. rewrite length_app. cbn [length]. lia. }
  set (hdr := wire_header _ _ _ _ _ _ _ _).
  unfold as_scan_command_init. set (fh := write_scan_header timeout scan (blen (scan_fields fail scan task_id))).
  assert (heads fh hdr) as Hh.
  { subst fh hdr. unfold write_scan_header. destruct (has_function (scan_apply scan)); [apply heads_write|apply heads_read]. }
  pose proof (writes_scan_body fail scan task_id args Hs Hw) as Hb.
  rewrite <- (message_built fh hdr _ body (uninit (30 + blen body)) Hh (wire_header_length _ _ _ _ _ _ _ _) Hb ltac:(apply Hu; lia) Hmax).
  cbn [scan_options hd]. chain.
Qed.

(** *** Queries *)

Lemma writes_predicate pred : pred_ok pred -> writes (fun buf p => write_predicate hpux buf p pred) (wire_predicate pred).
Proof.
  intros [Hb Hv]. unfold write_predicate, wire_predicate, AS_BIN_NAME_MAX_LEN in *.
  apply writes_seq; [apply writes_counted; lia|].
  destruct (pred_type pred); [|destruct (pred_value pred); try done; apply writes_range_integer].
  destruct (pred_value pred) as [|st|z|]; try done; rewrite Hv; cbn [Z.eqb AS_INDEX_NUMERIC AS_INDEX_STRING pv_string pv_integer].
  - apply writes_range_string.
  - apply writes_range_integer.
Qed.

Lemma predicate_size_ok pred : pred_ok pred -> predicate_size pred = Some (blen (wire_predicate pred)).
Proof.
  intros [Hb Hv]. unfold predicate_size, wire_predicate.
  destruct (pred_type pred); destruct (pred_value pred) as [|st|z|]; try done;
    rewrite ?Hv; cbn [Z.eqb AS_INDEX_NUMERIC AS_INDEX_STRING pv_string mbind option_bind]; measure; f_equal; lia.
Qed.

Lemma predicates_size_ok preds size :
  Forall pred_ok preds -> 0 <= size -> size + blen (mjoin (map wire_predicate preds)) < 2 ^ 32 ->
  predicates_size preds size = Some (size + blen (mjoin (map wire_predicate preds))).
Proof.
  revert size. induction preds as [|pred preds IH]; intros size Hp Hs Hm; [simpl; f_equal; lia|].
  apply Forall_cons in Hp as [Hp Hps]. rewrite map_cons, join_cons, length_app in *.
  cbn [predicates_size]. rewrite predicate_size_ok by done. cbn [mbind option_bind].
  rewrite u32_id by (unfold is_u32; lia). rewrite IH by (done || lia). f_equal. lia.
Qed.

Lemma bins_size_fold names size :
  0 <= size -> size + blen (mjoin (map (fun n => wire_counted (c_str n)) names)) < 2 ^ 32 ->
  fold_left (fun n name => u32 (n + (strlen name + 1))) names size
  = size + blen (mjoin (map (fun n => wire_counted (c_str n)) names)).
Proof.
  revert size. induction names as [|n names IH]; intros size H0 Hm; [simpl; lia|].
  rewrite map_cons, join_cons, length_app in *. unfold wire_counted in Hm at 1 |- * at 1. rewrite length_cons in *.
  cbn [fold_left]. unfold strlen. rewrite u32_id by (unfold is_u32; lia). rewrite IH by lia. lia.
Qed.

Lemma predicates_length q : where_ok q -> where_size q = blen (predicates q).
Proof.
  intros (Hn & Hc & _ & He). unfold predicates. destruct (where_entries q) as [e|]; cbn [default id].
  - rewrite length_take. lia.
  - rewrite take_nil. simpl. lia.
Qed.

Lemma writes_list_field {A} id b (write : list Z -> Z -> A -> wres) (bs : A -> list Z) (l : list A) :
  Forall (fun x => writes (fun buf p => write buf p x) (bs x)) l ->
  writes (fun buf p =>
      '(buf, p) ← as_command_write_field_header buf p id (1 + blen (mjoin (map bs l)));
      buf ← aset buf p b; write_each write buf (p + 1) l)
    (wire_field id (b :: mjoin (map bs l))).
Proof.
  intros Hl. apply writes_field; [|rewrite length_cons; lia].
  exact (writes_typed b _ _ (writes_each _ _ _ Hl)).
Qed.

(** The room and the bytes of the filters. *)
Lemma filters_ok q size n :
  where_ok q -> select_ok (query_select q) -> blen (wire_fields (filter_fields q)) < 2 ^ 32 ->
  exists fs bs, filters_size q size n
    = Some (size + blen (wire_fields (filter_fields q)), n + blen (filter_fields q), fs, bs)
    /\ writes (fun buf p => write_filters hpux buf p q fs bs) (wire_fields (filter_fields q)).
Proof.
  intros Hw Hs Hm. pose proof (predicates_length q Hw) as Hn. destruct Hw as (_ & _ & Hp & _).
  destruct (selected_ok _ Hs) as [Hl Hf]. unfold filters_size, write_filters, filter_fields in *.
  destruct (predicates q) as [|pred preds] eqn:Ep.
  { rewrite Hn. cbn [length Z.of_nat Z.ltb]. exists 0, 0. split; [measure; do 4 f_equal; lia|].
    rewrite wire_fields_cons, app_nil_r. 
    exact (writes_field AS_FIELD_SCAN_OPTIONS 2 _ _ (writes_typed 0 _ _ (writes_byte 100)) eq_refl). }
  rewrite <- Ep in *. assert (0 < where_size q) as Hpos by (rewrite Hn, Ep; simpl; lia).
  apply Z.ltb_lt in Hpos. rewrite Hpos, <- Hn. rewrite <- Hn in Hm.
  rewrite wire_fields_cons, length_app, wire_field_length, length_cons in Hm.
  rewrite predicates_size_ok by (done || lia). cbn [mbind option_bind].
  assert (Forall (fun pr => writes (fun buf p => write_predicate hpux buf p pr) (wire_predicate pr)) (predicates q)) as Hwp
    by (eapply Forall_impl; [exact Hp|apply writes_predicate]).
  destruct (selected (query_select q)) as [|name names] eqn:En.
  - assert ((0 <? sel_size (query_select q)) = false) as Hz by (rewrite <- Hl; done). rewrite Hz.
    eexists _, 0. split; [measure; do 4 f_equal; lia|]. rewrite wire_fields_cons, app_nil_r.
    eapply writes_ext; [|exact (writes_list_field AS_FIELD_INDEX_RANGE (u8 (where_size q)) _ _ _ Hwp)].
    intros buf p. cbv beta. chain.
  - assert ((0 <? sel_size (query_select q)) = true) as Hz by (rewrite <- Hl; done). rewrite Hz, Hl.
    rewrite <- En in *. rewrite wire_fields_cons, length_app, wire_field_length, length_cons in Hm.
    unfold query_bins_size. rewrite bins_size_fold by lia.
    assert (Forall (fun nm => writes (fun buf p => write_counted buf p nm) (wire_counted (c_str nm))) (selected (query_select q))) as Hwn.
    { eapply Forall_impl; [exact Hf|]. intros nm Hnm. apply writes_counted. unfold AS_BIN_NAME_MAX_LEN in Hnm. lia. }
    eexists _, _. split; [measure; do 4 f_equal; lia|]. rewrite !wire_fields_cons, app_nil_r.
    eapply writes_ext; [|exact (writes_seq _ _ _ _ (writes_list_field AS_FIELD_INDEX_RANGE (u8 (where_size q)) _ _ _ Hwp)
      (writes_list_field AS_FIELD_QUERY_BINS (u8 (sel_size (query_select q))) _ _ _ Hwn))].
    intros buf p. cbv beta. chain.
Qed.

Lemma index_type_ok q :
  where_ok q ->
  (if where_size q =? 1 then as_command_field_size 1 else 0) = blen (wire_fields (index_fields q))
  /\ (if where_size q =? 1 then 4 else 3) = 3 + blen (index_fields q)
  /\ writes (fun buf p => write_index_type buf p q) (wire_fields (index_fields q)).
Proof.
  intros Hw%predicates_length. unfold write_index_type, index_fields. rewrite Hw.
  destruct (predicates q) as [|pred [|pred' preds]]; [by split_and!; [..|apply writes_nil]| |].
  - split_and!; [done..|]. exact (writes_field AS_FIELD_INDEX_TYPE 1 _ _ (writes_byte (u8 (pred_itype pred))) eq_refl).
  - replace (blen (pred :: pred' :: preds) =? 1) with false by (symmetry; apply Z.eqb_neq; simpl; lia).
    by split_and!; [..|apply writes_nil].
Qed.

(** A query whose parts are well-formed. *)
Definition query_ok (q : as_query) : Prop := where_ok q /\ select_ok (query_select q) /\ call_ready (query_apply q).

Lemma query_names_size q size :
  where_ok q ->
  (if where_size q =? 0 then names_size (selected (query_select q)) size else size) = size + blen (wire_names (query_names q)).
Proof.
  intros ->%predicates_length. unfold query_names. destruct (predicates q) as [|pred preds]; [apply names_size_ok|].
  by rewrite Z.add_0_r.
Qed.

Lemma query_size_ok q task_id :
  query_ok q -> blen (wire_fields (query_fields q task_id)) < 2 ^ 32 ->
  exists fs bs args, query_command_size q
    = Some (30 + blen (wire_fields (query_fields q task_id) ++ wire_names (query_names q)),
            blen (query_fields q task_id), fs, bs, args)
    /\ writes (fun buf p => write_filters hpux buf p q fs bs) (wire_fields (filter_fields q))
    /\ writes (fun buf p => write_udf buf p 1 (query_apply q) args) (wire_fields (udf_fields 1 (query_apply q))).
Proof.
  intros (Hw & Hs & Hc) Hmax. unfold query_command_size. destruct (index_type_ok q Hw) as (E1 & E2 & _).
  rewrite E1, E2. unfold query_fields in *. rewrite !wire_fields_app, !length_app in *.
  set (size0 := AS_HEADER_SIZE + _ + _ + _ + _).
  destruct (filters_ok q size0 (3 + blen (index_fields q)) Hw Hs ltac:(lia)) as (fs & bs & -> & Hf). cbn [mbind option_bind].
  assert (blen (filter_fields q) <= 2 /\ blen (index_fields q) <= 1) as [Hb1 Hb2].
  { unfold filter_fields, index_fields. split.
    - destruct (predicates q), (selected (query_select q)); simpl; lia.
    - destruct (predicates q) as [|? [|? ?]]; simpl; lia. }
  edestruct (udf_size_ok (query_apply q) 1) as (args & -> & Hu); [done|shelve|]. Unshelve. 2: lia.
  cbn [mbind option_bind]. exists fs, bs, args. split; [|done].
  rewrite query_names_size by done. subst size0. clear E1 E2. measure.
  lazymatch goal with |- Some (?a, ?b, _, _, _) = Some (?c, ?d, _, _, _) => replace c with a by lia; by replace d with b by lia end.
Qed.

Lemma query_message uninit timeout q task_id :
  block_size uninit -> query_ok q ->
  blen (wire_fields (query_fields q task_id) ++ wire_names (query_names q)) < 2 ^ 32 ->
  query_command hpux uninit timeout q task_id = Some (query_request timeout q task_id).
Proof.
  intros Hu Hq Hmax. unfold query_command, query_request.
  destruct (query_size_ok q task_id Hq) as (fs & bs & args & -> & Hf & Hw); [rewrite length_app in Hmax; lia|].
  cbn [mbind option_bind]. destruct Hq as (Hwh & Hs & Hc). destruct (selected_ok _ Hs) as [Hl Hn].
  assert ((if where_size q =? 0 then sel_size (query_select q) else 0) = blen (query_names q)) as ->.
  { unfold query_names. rewrite (predicates_length q Hwh). by destruct (predicates q). }
  assert (writes (fun buf p => if where_size q =? 0 then write_bin_names buf p (selected (query_select q)) else Some (buf, p))
            (wire_names (query_names q))) as Hnm.
  { unfold query_names. rewrite (predicates_length q Hwh). destruct (predicates q); [by apply writes_bin_names|apply writes_nil]. }
  destruct (index_type_ok q Hwh) as (_ & _ & Hi).
  pose proof (writes_seq _ _ _ _ (writes_field_string AS_FIELD_NAMESPACE (query_ns q))
    (writes_seq _ _ _ _ (writes_field_string AS_FIELD_SETNAME (query_set q)) (writes_seq _ _ _ _ Hi
      (writes_seq _ _ _ _ (writes_field_uint64 AS_FIELD_TASK_ID task_id) (writes_seq _ _ _ _ Hf
        (writes_seq _ _ _ _ Hw Hnm)))))) as Hb.
  set (body := wire_fields (query_fields q task_id) ++ wire_names (query_names q)) in *.
  match type of Hb with writes _ ?b => assert (b = body) as Eb end.
  { subst body. unfold query_fields. rewrite !wire_fields_app, !wire_fields_cons. change (wire_fields []) with (@nil Z).
    by rewrite !app_nil_r, <- !app_assoc. }
  rewrite Eb in Hb. change (wire_header AS_MSG_INFO1_READ) with (wire_header (info1_bits AS_MSG_INFO1_READ CONSISTENCY_ONE)).
  rewrite <- (message_built _ _ _ body (uninit (30 + blen body))
    (heads_read AS_MSG_INFO1_READ CONSISTENCY_ONE timeout (blen (query_fields q task_id)) (blen (query_names q)))
    (wire_header_length _ _ _ _ _ _ _ _) Hb ltac:(apply Hu; lia) ltac:(lia)).
  chain.
Qed.

(** *** Batches *)

Lemma write_digests_ok offsets l keys i pre old post :
  v_rep offsets l -> Forall (fun o => 0 <= o < blen keys) l -> Forall (fun key => length (digest_value key) = 20%nat) keys ->
  (i <= length l)%nat -> length old = length (mjoin (map digest_value (keys_at keys (drop i l)))) ->
  write_digests (length l - i) (Z.of_nat i) (pre ++ old ++ post) (blen pre) offsets keys
  = Some (pre ++ mjoin (map digest_value (keys_at keys (drop i l))) ++ post,
          blen pre + blen (mjoin (map digest_value (keys_at keys (drop i l))))).
Proof.
  intros Hv Ho Hd. remember (length l - i)%nat as n eqn:En. revert i En pre old.
  induction n as [|n IH]; intros i En pre old Hi Hl.
  - assert (i = length l) as -> by lia. rewrite drop_all in *. destruct old; [|done]. cbn. by rewrite Z.add_0_r.
  - assert (i < length l)%nat as Hlt by lia. apply lookup_lt_is_Some in Hlt as [o Eo].
    pose proof (proj1 (Forall_lookup _ _) Ho _ _ Eo) as Hor. cbv beta in Hor.
    destruct (lookup_lt_is_Some_2 keys (Z.to_nat o) ltac:(lia)) as [key Ek].
    pose proof (proj1 (Forall_lookup _ _) Hd _ _ Ek) as Hk. cbv beta in Hk.
    rewrite (drop_S _ _ _ Eo) in *. unfold keys_at in *. cbn [omap list_omap] in *. rewrite Ek in *.
    rewrite map_cons, join_cons in *. rewrite length_app, Hk in Hl.
    cbn [write_digests]. rewrite (vector_get_ok offsets l) by (done || lia). rewrite Nat2Z.id, Eo. cbn [mbind option_bind].
    rewrite aget_nonneg, Ek by lia. cbn [mbind option_bind]. unfold AS_DIGEST_VALUE_SIZE.
    rewrite mslice_take, take_ge by lia. cbn [mbind option_bind].
    destruct (split_at_nat 20 old) as (o1 & o2 & -> & H1); [lia|]. rewrite length_app in Hl.
    rewrite <- app_assoc, mwrite_at by (done || lia). cbn [mbind option_bind].
    replace (Z.of_nat i + 1) with (Z.of_nat (S i)) by lia. rewrite (app_assoc pre).
    replace (blen pre + 20) with (blen (pre ++ digest_value key)) by (rewrite length_app; lia).
    rewrite IH by lia. rewrite <- !app_assoc, !length_app. do 2 f_equal. lia.
Qed.

(** The digests of the keys a node is asked for, in the order of the offsets. *)
Lemma batch_message uninit ns offsets l keys read_attr timeout :
  block_size uninit -> v_rep offsets l -> Forall (fun o => 0 <= o < blen keys) l ->
  Forall (fun key => length (digest_value key) = 20%nat) keys -> 20 * blen l < 2 ^ 32 -> strlen ns < 2 ^ 32 ->
  batch_command uninit ns offsets keys read_attr timeout = Some (batch_request ns (keys_at keys l) read_attr timeout).
Proof.
  intros Hu Hv Ho Hd Hn Hns. unfold batch_command, batch_request. destruct (Hv) as (Hsz & _).
  set (ds := mjoin (map digest_value (keys_at keys l))).
  assert (blen ds = 20 * blen l) as Hds.
  { subst ds. clear Hv Hn Hsz. unfold keys_at. induction l as [|o l IH]; [done|]. apply Forall_cons in Ho as [Hor Ho].
    destruct (lookup_lt_is_Some_2 keys (Z.to_nat o) ltac:(lia)) as [key Ek].
    pose proof (proj1 (Forall_lookup _ _) Hd _ _ Ek) as Hk. cbv beta in Hk. cbn [omap list_omap]. rewrite Ek, map_cons, join_cons.
    rewrite length_app, Hk, length_cons. specialize (IH Ho). lia. }
  rewrite Hsz. unfold AS_DIGEST_VALUE_SIZE. rewrite (Z.mul_comm (blen l)), u32_id, <- Hds by (unfold is_u32; lia).
  assert (writes (fun buf p => write_digests (length l) 0 buf p offsets keys) ds) as Hw.
  { intros pre old post Hold. pose proof (write_digests_ok offsets l keys 0 pre old post Hv Ho Hd ltac:(lia)) as E.
    rewrite Nat.sub_0_r in E. by apply E. }
  pose proof (writes_seq _ _ _ _ (writes_field_string AS_FIELD_NAMESPACE ns)
                (writes_field AS_FIELD_DIGEST_ARRAY (blen ds) _ _ Hw eq_refl)) as Hb.
  set (body := wire_fields _). match type of Hb with writes _ ?b => assert (b = body) as Eb end.
  { subst body. unfold wire_fields. cbn [map mjoin list_join fst snd]. by rewrite app_nil_r. }
  rewrite Eb in Hb. assert (blen body < 2 ^ 47) as Hmax.
  { rewrite <- Eb. measure. lia. }
  replace (AS_HEADER_SIZE + _ + _) with (30 + blen body) by (rewrite <- Eb; measure; lia).
  rewrite Nat2Z.id.
  rewrite <- (message_built _ _ _ body (uninit (30 + blen body)) (heads_read read_attr CONSISTENCY_ONE timeout 2 0)
    (wire_header_length _ _ _ _ _ _ _ _) Hb ltac:(apply Hu; lia) Hmax).
  chain.
Qed.

(** ** Lists of a fixed capacity *)

(** The names of a scan, and the predicates of a query, are a block asked for once, which
    takes items until it is full. *)
Inductive bcall (A : Type) := BInit (n : Z) | BAdd (x : A).
Arguments BInit {A} n.
Arguments BAdd {A} x.

Definition bounded_step {A} (s : option Z * list A) (call : bcall A) : option Z * list A :=
  match call, s with
  | BInit n, (None, _) => (Some n, [])
  | BInit _, _ => s
  | BAdd x, (cap, l) => if blen l <? default 0 cap then (cap, l ++ [x]) else s
  end.
Definition bounded {A} (calls : list (bcall A)) : list A := (fold_left bounded_step calls (None, [])).2.

Definition select_call (init : option (Z * bool)) (bin : option (list Z)) : option (bcall (list Z)) :=
  match init, bin with
  | Some (n, ok), _ => if ok then Some (BInit n) else None
  | None, Some b => if strlen b <? AS_BIN_NAME_MAX_SIZE then Some (BAdd (c_str b)) else None
  | None, None => None
  end.

Definition scan_select_call (call : scan_call) : option (bcall (list Z)) :=
  match call with
  | SSelectInit n ok => select_call (Some (n, ok)) None
  | SSelect bin => select_call None bin
  | _ => None
  end.

Definition select_rep (s : as_select) (a : option Z * list (list Z)) : Prop :=
  Forall (fun name => strlen name <= AS_BIN_NAME_MAX_LEN) a.2 /\
  match a with
  | (None, l) => l = [] /\ s = no_select
  | (Some n, l) => sel_capacity s = n /\ 0 <= n <= 65535 /\ sel_size s = blen l /\ blen l <= n
                   /\ sel_entries s = Some (l ++ replicate (Z.to_nat n - length l) [])
  end.

Lemma select_rep_ok s a : select_rep s a -> select_ok s /\ selected s = a.2.
Proof.
  destruct a as [[n|] l]; unfold select_rep, select_ok, selected; cbn [snd].
  - intros (Hl & Hc & Hn & Hs & Hle & ->). rewrite Hc, Hs. cbn [default id]. rewrite Nat2Z.id, take_app_length.
    split_and!; try lia; [rewrite length_app, length_replicate; lia| |done].
    apply Forall_app. split; [done|]. apply Forall_replicate. unfold strlen, AS_BIN_NAME_MAX_LEN. simpl. lia.
  - intros (_ & -> & ->). cbn. split_and!; (done || lia).
Qed.

Lemma select_init_rep s a n ok :
  0 <= n <= 65535 -> select_rep s a ->
  select_rep (select_init s n (calloc ok n [])).2 (if ok then bounded_step a (BInit n) else a).
Proof.
  intros Hn Hr. destruct a as [[n'|] l]; cbn [bounded_step].
  - destruct (Hr) as (_ & _ & _ & _ & _ & He). unfold select_init. rewrite He. by destruct ok.
  - destruct Hr as (Hl & -> & ->). destruct ok; [|by split_and!].
    unfold select_rep. cbn [snd select_init sel_entries no_select calloc sel_capacity sel_size length app].
    rewrite Nat.sub_0_r. split_and!; (done || lia).
Qed.

Lemma insert_next {A} (l : list A) (n : nat) (z x : A) :
  (length l < n)%nat ->
  aset (l ++ replicate (n - length l) z) (blen l) x = Some ((l ++ [x]) ++ replicate (n - length (l ++ [x])) z).
Proof.
  intros Hn. rewrite length_app. cbn [length]. destruct (n - length l)%nat as [|k] eqn:E; [lia|]. cbn [replicate].
  rewrite aset_middle by done. replace (n - (length l + 1))%nat with k by lia. by rewrite <- app_assoc.
Qed.

Lemma select_add_rep s a bin :
  select_rep s a ->
  exists ok s', select_add s bin = Some (ok, s')
    /\ select_rep s' (match select_call None bin with Some c => bounded_step a c | None => a end).
Proof.
  intros Hr. unfold select_add, select_call. destruct bin as [b|]; [|by eexists _, _].
  unfold AS_BIN_NAME_MAX_SIZE. destruct (15 <=? strlen b) eqn:El; reflect_Z.
  { replace (strlen b <? 15) with false by (symmetry; apply Z.ltb_ge; lia). by eexists _, _. }
  replace (strlen b <? 15) with true by (symmetry; apply Z.ltb_lt; lia).
  destruct a as [[n|] l]; cbn [bounded_step default id].
  2:{ destruct Hr as (Hl & -> & ->). by eexists _, _. }
  destruct Hr as (Hl & Hc & Hn & Hs & Hle & He). rewrite Hc, Hs. rewrite Z.leb_antisym.
  destruct (blen l <? n) eqn:E; cbn [negb]; reflect_Z; [|by eexists _, _].
  rewrite He. cbn [mbind option_bind]. rewrite insert_next by lia. cbn [mbind option_bind].
  eexists _, _. split; [done|]. unfold select_rep. cbn [sel_capacity sel_size sel_entries snd].
  rewrite u16_id by lia. split_and!; try lia; try done.
  - apply Forall_app. split; [done|]. apply Forall_singleton. unfold strlen, AS_BIN_NAME_MAX_LEN in *. rewrite c_str_idem. lia.
  - rewrite length_app. simpl. lia.
  - rewrite length_app. simpl. lia.
Qed.

(** ** A program's scans *)

Definition call_fits (call : as_udf_call) : Prop :=
  strlen (udf_module call) <= AS_UDF_MODULE_MAX_LEN /\ strlen (udf_function call) <= AS_UDF_FUNCTION_MAX_LEN /\ call_ready call.

Definition arglist_ok (arglist : option as_val) : Prop := match arglist with Some v => sendable v | None => True end.

(** Numbers are of their C types; arguments are values the packer takes. *)
Definition scan_call_ok (call : scan_call) : Prop :=
  match call with
  | SSelectInit n _ => 0 <= n <= 65535
  | SApply _ _ arglist => arglist_ok arglist
  | _ => True
  end.

Definition scan_ok (scan : as_scan) : Prop :=
  strlen (scan_ns scan) < AS_NAMESPACE_MAX_SIZE /\ strlen (scan_set scan) < AS_SET_MAX_SIZE /\ call_fits (scan_apply scan).

Lemma fitting_fits max st : 0 < max -> strlen (fitting max st) < max.
Proof.
  intros Hm. unfold fitting. destruct (strlen st <? max) eqn:E; reflect_Z; [|unfold strlen; simpl; lia].
  unfold strlen in *. by rewrite c_str_idem.
Qed.

Lemma udf_call_init_fits old module_ function arglist :
  call_fits old -> arglist_ok arglist -> call_fits (default old (as_udf_call_init module_ function arglist)).
Proof.
  intros Ho Ha. unfold as_udf_call_init. destruct (_ || _) eqn:E; [done|].
  apply orb_false_iff in E as [E1 E2]. reflect_Z. cbn [default id]. unfold call_fits, as_udf_call_defaults.
  cbn [udf_module udf_function]. unfold strlen in *. rewrite !c_str_idem. split_and!; [lia|lia|exact Ha].
Qed.

Lemma no_call_fits : call_fits no_call.
Proof. unfold call_fits, strlen, AS_UDF_MODULE_MAX_LEN, AS_UDF_FUNCTION_MAX_LEN. simpl. split_and!; (lia || done). Qed.

Definition project_step {A B} (f : B -> option (bcall A)) (a : option Z * list A) (call : B) : option Z * list A :=
  match f call with Some c => bounded_step a c | None => a end.

Lemma project_run {A B} (f : B -> option (bcall A)) calls a :
  fold_left (project_step f) calls a = fold_left bounded_step (omap f calls) a.
Proof.
  revert a. induction calls as [|call calls IH]; intros a; [done|]. cbn [fold_left omap list_omap]. rewrite IH.
  unfold project_step. by destruct (f call).
Qed.

Lemma scan_exec_ok scan a call :
  scan_call_ok call -> scan_ok scan -> select_rep (scan_select scan) a ->
  exists scan', scan_exec scan call = Some scan' /\ scan_ok scan'
    /\ select_rep (scan_select scan') (project_step scan_select_call a call).
Proof.
  intros Hc Hs Hr. destruct call as [n ok|bin|pc|pr|nb|cc|m f al]; unfold project_step;
    cbn [scan_exec scan_select_call select_call scan_call_ok] in *; try (by eexists _).
  - eexists. split; [done|]. unfold as_scan_select_init.
    pose proof (select_init_rep _ _ n ok Hc Hr) as Hi. destruct (select_init _ _ _) as [b s']. split; [done|].
    by destruct ok.
  - destruct (select_add_rep _ _ bin Hr) as (ok & s' & E & Hr'). unfold as_scan_select. rewrite E. cbn [mbind option_bind].
    by eexists.
  - eexists. split; [done|]. unfold as_scan_apply_each. destruct m as [m|], f as [f|]; try done.
    destruct Hs as (H1 & H2 & H3). split; [|done]. split_and!; [done|done|]. by apply udf_call_init_fits.
Qed.

Lemma scan_run_ok scan a calls :
  Forall scan_call_ok calls -> scan_ok scan -> select_rep (scan_select scan) a ->
  exists scan', scan_run scan calls = Some scan' /\ scan_ok scan'
    /\ select_rep (scan_select scan') (fold_left (project_step scan_select_call) calls a).
Proof.
  revert scan a. induction calls as [|call calls IH]; intros scan a Hc Hs Hr; [by eexists|].
  apply Forall_cons in Hc as [Hc Hcs]. destruct (scan_exec_ok scan a call Hc Hs Hr) as (scan1 & E & Hs1 & Hr1).
  cbn [scan_run fold_left]. rewrite E. cbn [mbind option_bind]. by apply IH.
Qed.

(** What is sent is never large. *)
Lemma packed_limit v : sendable v -> blen (packed v) <= LIMIT.
Proof. intros [_ Hl]. unfold packed. destruct (_ =? 0); [done|]. unfold LIMIT. simpl. lia. Qed.

Lemma udf_fields_limit op call : call_fits call -> blen (wire_fields (udf_fields op call)) <= 2 ^ 31.
Proof.
  intros (Hm & Hf & Hr). unfold udf_fields. destruct (has_function call); [|simpl; lia].
  assert (blen match udf_arglist call with Some v => packed v | None => [] end <= LIMIT) as Hp.
  { unfold call_ready in Hr. destruct (udf_arglist call); [by apply packed_limit|unfold LIMIT; simpl; lia]. }
  unfold strlen, AS_UDF_MODULE_MAX_LEN, AS_UDF_FUNCTION_MAX_LEN, LIMIT in *. measure. lia.
Qed.

Lemma wire_names_limit names :
  Forall (fun name => strlen name <= AS_BIN_NAME_MAX_LEN) names -> blen (wire_names names) <= 22 * blen names.
Proof.
  unfold wire_names, strlen, AS_BIN_NAME_MAX_LEN. induction names as [|name names IH]; intros Hn; [done|].
  apply Forall_cons in Hn as [H1 Hn]. rewrite map_cons, join_cons, length_app, wire_op_length, app_nil_r, length_cons.
  specialize (IH Hn). lia.
Qed.

Lemma scan_body_limit fail scan task_id :
  scan_ok scan -> select_ok (scan_select scan) ->
  blen (wire_fields (scan_fields fail scan task_id) ++ wire_names (selected (scan_select scan))) < 2 ^ 47.
Proof.
  intros (Hn & Hs & Hc) Hsel. pose proof (udf_fields_limit 2 _ Hc) as Hu. destruct (selected_ok _ Hsel) as [Hl Hnm].
  pose proof (wire_names_limit _ Hnm) as Hw. destruct Hsel as (H1 & H2 & _).
  unfold scan_fields, scan_options, AS_NAMESPACE_MAX_SIZE, AS_SET_MAX_SIZE in *. measure. lia.
Qed.

(** A program may make the calls that fill in a scan in any order: none is undefined, the
    bins selected are the ones that were asked for while there was room, and the command is
    the message of that scan, with as many fields as its header counts, in a block of exactly
    the computed size. *)
Theorem scan_sent uninit ns set calls timeout fail task_id :
  block_size uninit -> Forall scan_call_ok calls ->
  exists scan, scan_run (as_scan_defaults ns set) calls = Some scan
    /\ selected (scan_select scan) = bounded (omap scan_select_call calls)
    /\ scan_command hpux uninit timeout fail scan task_id = Some (scan_request timeout fail scan task_id).
Proof.
  intros Hu Hc. destruct (scan_run_ok (as_scan_defaults ns set) (None, []) calls Hc) as (scan & E & Hs & Hr).
  - split_and!; [by apply fitting_fits..|apply no_call_fits].
  - by split_and!.
  - rewrite project_run in Hr. destruct (select_rep_ok _ _ Hr) as [Ho Hsel]. exists scan. split_and!; [done|done|].
    apply scan_message; [done|done|apply Hs|by apply scan_body_limit].
Qed.

(** ** A program's queries *)

(** What follows the type of the index is of that type. *)
Definition query_call_ok (call : query_call) : Prop :=
  match call with
  | QSelectInit n _ | QWhereInit n _ | QOrderbyInit n _ => 0 <= n <= 65535
  | QWhere _ type _ dtype args =>
      match type, args with
      | AS_PREDICATE_EQUAL, PString _ => dtype = AS_INDEX_STRING
      | AS_PREDICATE_EQUAL, PInteger _ => dtype = AS_INDEX_NUMERIC
      | AS_PREDICATE_RANGE, PRange _ _ => True
      | _, _ => False
      end
  | QApply _ _ arglist => arglist_ok arglist
  | _ => True
  end.

Definition query_select_call (call : query_call) : option (bcall (list Z)) :=
  match call with
  | QSelectInit n ok => select_call (Some (n, ok)) None
  | QSelect bin => select_call None bin
  | _ => None
  end.

(** A predicate that is refused is there all the same, without a value. *)
Definition query_where_call (call : query_call) : option (bcall as_predicate) :=
  match call with
  | QWhereInit n ok => if ok then Some (BInit n) else None
  | QWhere (Some bin) type itype dtype args =>
      if strlen bin <? AS_BIN_NAME_MAX_SIZE
      then Some (BAdd (mk_predicate (c_str bin) type dtype itype (if dtype_fits type dtype then args else PZero))) else None
  | _ => None
  end.

Definition where_rep (q : as_query) (a : option Z * list as_predicate) : Prop :=
  Forall pred_ok a.2 /\
  match a with
  | (None, l) => l = [] /\ where_capacity q = 0 /\ where_size q = 0 /\ where_entries q = None
  | (Some n, l) => where_capacity q = n /\ 0 <= n <= 65535 /\ where_size q = blen l /\ blen l <= n
                   /\ where_entries q = Some (l ++ replicate (Z.to_nat n - length l) no_predicate)
  end.

Definition orderby_ok (q : as_query) : Prop :=
  0 <= orderby_size q <= orderby_capacity q /\ orderby_capacity q <= 65535
  /\ match orderby_entries q with Some e => blen e = orderby_capacity q | None => orderby_capacity q = 0 end.

Lemma where_rep_ok q a : where_rep q a -> where_ok q /\ predicates q = a.2.
Proof.
  destruct a as [[n|] l]; unfold where_rep, where_ok, predicates; cbn [snd].
  - intros (Hl & Hc & Hn & Hs & Hle & ->). rewrite Hc, Hs. cbn [default id]. rewrite Nat2Z.id, take_app_length, drop_app_length.
    split_and!; try lia; [done|rewrite length_app, length_replicate; lia| |done].
    by apply Forall_replicate.
  - intros (_ & -> & -> & -> & ->). cbn. split_and!; (done || lia).
Qed.

Lemma where_init_rep q a n ok :
  0 <= n <= 65535 -> where_rep q a ->
  where_rep (as_query_where_init q n (calloc ok n no_predicate)).2 (if ok then bounded_step a (BInit n) else a).
Proof.
  intros Hn Hr. destruct a as [[n'|] l]; cbn [bounded_step].
  - destruct (Hr) as (_ & _ & _ & _ & _ & He). unfold as_query_where_init. rewrite He. by destruct ok.
  - destruct (Hr) as (Hl & -> & Hc & Hs & He). unfold as_query_where_init. rewrite He. destruct ok; [|done].
    unfold where_rep. cbn [snd calloc with_where where_capacity where_size where_entries length app].
    rewrite Nat.sub_0_r. split_and!; (done || lia).
Qed.

Lemma where_add_rep q a bin type itype dtype args :
  query_call_ok (QWhere bin type itype dtype args) -> where_rep q a ->
  exists ok q', as_query_where q bin type itype dtype args = Some (ok, q')
    /\ where_rep q' (project_step query_where_call a (QWhere bin type itype dtype args))
    /\ query_select q' = query_select q /\ query_apply q' = query_apply q
    /\ (orderby_ok q -> orderby_ok q').
Proof.
  intros Hok Hr. unfold as_query_where, project_step. cbn [query_where_call]. destruct bin as [b|]; [|by eexists _, _].
  unfold AS_BIN_NAME_MAX_SIZE. destruct (15 <=? strlen b) eqn:El; reflect_Z.
  { replace (strlen b <? 15) with false by (symmetry; apply Z.ltb_ge; lia). by eexists _, _. }
  replace (strlen b <? 15) with true by (symmetry; apply Z.ltb_lt; lia).
  destruct a as [[n|] l]; cbn [bounded_step default id].
  2:{ destruct (Hr) as (Hl & -> & Hc & Hs & He). rewrite Hc, Hs. by eexists _, _. }
  destruct (Hr) as (Hl & Hc & Hn & Hs & Hle & He). rewrite Hc, Hs. rewrite Z.leb_antisym.
  destruct (blen l <? n) eqn:E; cbn [negb]; reflect_Z; [|by eexists _, _].
  rewrite He. cbn [mbind option_bind].
  assert (aget (l ++ replicate (Z.to_nat n - length l) no_predicate) (blen l) = Some no_predicate) as ->.
  { rewrite aget_lookup, lookup_app_r, Nat.sub_diag by lia. apply lookup_replicate_2. lia. }
  cbn [mbind option_bind]. rewrite insert_next by lia. cbn [mbind option_bind].
  eexists _, _. split; [done|]. split; [|done]. unfold where_rep. cbn [with_where where_capacity where_size where_entries snd].
  rewrite u16_id by lia. split_and!; try lia; try done; try (rewrite length_app; simpl; lia).
  apply Forall_app. split; [done|]. apply Forall_singleton. split; cbn [pred_bin pred_type pred_value pred_dtype no_predicate].
  - unfold strlen, AS_BIN_NAME_MAX_LEN in *. rewrite c_str_idem. lia.
  - cbn [query_call_ok] in Hok. destruct type, args; try done; try subst dtype; try done.
    by destruct (dtype_fits _ _).
Qed.

Lemma orderby_init_ok q n ok :
  0 <= n <= 65535 -> orderby_ok q ->
  orderby_ok (as_query_orderby_init q n (calloc ok n ([], 0))).2.
Proof.
  intros Hn Ho. unfold as_query_orderby_init, orderby_ok in *. destruct (orderby_entries q) eqn:E, ok; cbn [calloc snd];
    rewrite ?E; try done.
  cbn [with_orderby orderby_capacity orderby_size orderby_entries]. rewrite length_replicate. lia.
Qed.

Lemma orderby_add_ok q bin order :
  orderby_ok q -> exists ok q', as_query_orderby q bin order = Some (ok, q') /\ orderby_ok q'
    /\ query_select q' = query_select q /\ query_apply q' = query_apply q
    /\ where_capacity q' = where_capacity q /\ where_size q' = where_size q /\ where_entries q' = where_entries q.
Proof.
  intros Ho. unfold as_query_orderby. destruct bin as [b|]; [|by eexists _, _]. destruct (_ <=? _); [by eexists _, _|].
  destruct (orderby_capacity q <=? orderby_size q) eqn:E; reflect_Z; [by eexists _, _|].
  destruct Ho as (Hs & Hc & He). destruct (orderby_entries q) as [e|] eqn:Ee; [|lia]. cbn [mbind option_bind].
  rewrite aset_Some by lia. cbn [mbind option_bind].
  eexists _, _. split; [done|]. split; [|done]. unfold orderby_ok.
  cbn [with_orderby orderby_capacity orderby_size orderby_entries]. rewrite u16_id, length_insert by lia. lia.
Qed.

(** What every call keeps. *)
Definition query_rep (q : as_query) (names : option Z * list (list Z)) (preds : option Z * list as_predicate) : Prop :=
  select_rep (query_select q) names /\ where_rep q preds /\ orderby_ok q /\ call_fits (query_apply q).

Lemma query_exec_ok q names preds call :
  query_call_ok call -> query_rep q names preds ->
  exists q', query_exec q call = Some q'
    /\ query_rep q' (project_step query_select_call names call) (project_step query_where_call preds call).
Proof.
  intros Hok (Hs & Hw & Ho & Hc). destruct call as [n ok|bin|n ok|bin type itype dtype args|n ok|bin order|m f al]; cbn [query_exec].
  - eexists. split; [done|]. unfold as_query_select_init, project_step. cbn [query_select_call query_where_call select_call].
    pose proof (select_init_rep _ _ n ok Hok Hs) as Hi. destruct (select_init _ _ _) as [b s']. by destruct ok.
  - destruct (select_add_rep _ _ bin Hs) as (ok & s' & E & Hr'). unfold as_query_select. rewrite E. cbn [mbind option_bind].
    by eexists.
  - eexists. split; [done|]. pose proof (where_init_rep _ _ n ok Hok Hw) as Hi. unfold project_step.
    cbn [query_select_call query_where_call]. unfold as_query_where_init in *.
    destruct (where_entries q), ok; cbn [calloc snd] in *; by split_and!.
  - destruct (where_add_rep q preds bin type itype dtype args Hok Hw) as (ok & q' & E & Hr & E1 & E2 & Ho'). rewrite E.
    cbn [mbind option_bind]. eexists. split; [done|]. split_and!; [by rewrite E1|done|by apply Ho'|by rewrite E2].
  - eexists. split; [done|]. pose proof (orderby_init_ok q n ok Hok Ho) as Hi. unfold as_query_orderby_init in *.
    destruct (orderby_entries q), ok; cbn [calloc snd] in *; by split_and!.
  - destruct (orderby_add_ok q bin order Ho) as (ok & q' & E & Ho' & E1 & E2 & E3 & E4 & E5). rewrite E.
    cbn [mbind option_bind]. eexists. split; [done|]. split_and!; [by rewrite E1| |done|by rewrite E2].
    unfold where_rep in *. by rewrite E3, E4, E5.
  - eexists. split; [done|]. split_and!; [done|done|done|]. by apply udf_call_init_fits.
Qed.

Lemma query_run_ok q names preds calls :
  Forall query_call_ok calls -> query_rep q names preds ->
  exists q', query_run q calls = Some q'
    /\ query_rep q' (fold_left (project_step query_select_call) calls names) (fold_left (project_step query_where_call) calls preds).
Proof.
  revert q names preds. induction calls as [|call calls IH]; intros q names preds Hc Hr; [by eexists|].
  apply Forall_cons in Hc as [Hc Hcs]. destruct (query_exec_ok q names preds call Hc Hr) as (q1 & E & Hr1).
  cbn [query_run fold_left]. rewrite E. cbn [mbind option_bind]. by apply IH.
Qed.

(** C24: Any calls that fill in a query are defined; the predicates and the bins are the ones
    that were asked for while there was room; and the command is the message of that query:
    an index range with every predicate, the bins, the call, and without predicates a scan.
    What is asked for in [as_query_orderby] is in no message. *)
Theorem query_sent uninit ns set calls timeout task_id :
  block_size uninit -> Forall query_call_ok calls ->
  exists q, query_run (as_query_defaults ns set) calls = Some q
    /\ selected (query_select q) = bounded (omap query_select_call calls)
    /\ predicates q = bounded (omap query_where_call calls)
    /\ (blen (wire_fields (query_fields q task_id) ++ wire_names (query_names q)) < 2 ^ 32 ->
        query_command hpux uninit timeout q task_id = Some (query_request timeout q task_id)).
Proof.
  intros Hu Hc. destruct (query_run_ok (as_query_defaults ns set) (None, []) (None, []) calls Hc) as (q & E & Hs & Hw & _ & Hf).
  - by split_and!.
  - rewrite project_run in Hs. rewrite project_run in Hw. destruct (select_rep_ok _ _ Hs) as [Ho Hsel]. destruct (where_rep_ok _ _ Hw) as [How Hp].
    exists q. split_and!; [done..|]. intros Hmax. apply query_message; [done|by split_and!; [..|apply Hf]|done].
Qed.
End RequestProofs.

(** ** Examples *)

(** Two bins are asked for where there is room for one, and a function that is called on
    every record. *)
Lemma scan_sent_witness :
  exists scan, scan_run (as_scan_defaults [110] None)
      [SSelectInit 1 true; SSelect (Some [97]); SSelect (Some [98]); SPercent 50; SApply (Some [109]) (Some [102]) None]
    = Some scan
    /\ selected (scan_select scan) = [[97]]
    /\ @scan_command x86_64 false sample_block 1000 true scan 7
       = Some (wire_message (wire_header 1 1 0 0 0 1000 8 0)
           ([0; 0; 0; 2; 0; 110] ++ [0; 0; 0; 1; 1] ++ [0; 0; 0; 3; 8; 8; 50] ++ [0; 0; 0; 9; 7; 0; 0; 0; 0; 0; 0; 0; 7]
            ++ [0; 0; 0; 2; 33; 2] ++ [0; 0; 0; 2; 30; 109] ++ [0; 0; 0; 2; 31; 102] ++ [0; 0; 0; 1; 32]
            ++ [0; 0; 0; 5; 1; 0; 0; 1; 97])).
Proof.
  destruct (@scan_sent x86_64 false big_x86 sample_block [110] None
    [SSelectInit 1 true; SSelect (Some [97]); SSelect (Some [98]); SPercent 50; SApply (Some [109]) (Some [102]) None]
    1000 true 7) as (scan & E & Hs & Hc).
  - apply sample_block_size.
  - repeat constructor; cbn; lia.
  - exists scan. split; [exact E|]. split; [exact Hs|]. rewrite Hc. vm_compute in E. injection E as <-. reflexivity.
Defined.

(** A range over strings is refused, and is sent as the range of integers from zero to zero. *)
Lemma query_sent_witness :
  exists q, query_run (as_query_defaults (Some [110]) None)
      [QWhereInit 2 true; QWhere (Some [97]) AS_PREDICATE_RANGE 0 AS_INDEX_STRING (PRange 1 2); QSelectInit 1 true; QSelect (Some [98])]
    = Some q
    /\ selected (query_select q) = [[98]]
    /\ predicates q = [mk_predicate [97] AS_PREDICATE_RANGE 0 0 PZero]
    /\ @query_command x86_64 false sample_block 1000 q 7
       = Some (wire_message (wire_header 1 0 0 0 0 1000 6 0)
           ([0; 0; 0; 2; 0; 110] ++ [0; 0; 0; 1; 1] ++ [0; 0; 0; 2; 26; 0] ++ [0; 0; 0; 9; 7; 0; 0; 0; 0; 0; 0; 0; 7]
            ++ [0; 0; 0; 29; 22; 1; 1; 97; 1; 0; 0; 0; 8; 0; 0; 0; 0; 0; 0; 0; 0; 0; 0; 0; 8; 0; 0; 0; 0; 0; 0; 0; 0]
            ++ [0; 0; 0; 4; 40; 1; 1; 98])).
Proof.
  destruct (@query_sent x86_64 false big_x86 sample_block (Some [110]) None
    [QWhereInit 2 true; QWhere (Some [97]) AS_PREDICATE_RANGE 0 AS_INDEX_STRING (PRange 1 2); QSelectInit 1 true; QSelect (Some [98])]
    1000 7) as (q & E & Hs & Hp & Hc).
  - apply sample_block_size.
  - repeat constructor; cbn; lia.
  - exists q. split; [exact E|]. split; [exact Hs|]. split; [exact Hp|]. vm_compute in E. injection E as <-.
    rewrite Hc; reflexivity.
Defined.
