(* ===== verification/Stream.v ===== *)
(** * Scans, queries and batches: what is answered

    Models the functions of [aerospike_scan.c], [aerospike_query.c] and
    [aerospike_batch.c] that read the answer of one node: groups of records, each behind
    eight bytes with its size, until a message says that it is the last one.

    The block that a group is read into is kept for the next one, so that behind a short
    group the bytes of a longer one remain.  A callback is a function of what it is given
    and of the program's state [W]; so is the flag that other threads of the same scan or
    query set when they fail. *)

From S2P Require Import Prelude ByteOrder Vector Value Msgpack Roundtrip Wire Socket Parse Execute Record Requests.
Open Scope Z_scope.

Definition AEROSPIKE_NO_MORE_RECORDS : Z := -3.
Definition AS_MSG_INFO3_LAST : Z := 1.

Definition is_last (m : as_msg) : bool := negb (Z.land (info3 m) AS_MSG_INFO3_LAST =? 0).

(** ** Groups *)

Section Groups.
Context `{Platform} `{Reader C} {T : Type}.

(** The status that ends the stream. *)
Context (last : Z).

(** The parser of the records of a group: a status, the error, and the task. *)
Context (parse_records : list Z -> Z -> as_error -> T -> ures (Z * as_error * T)).

(** What is done about a status that is an error. *)
Context (fail : Z -> as_error -> as_error).

(** The block after [bs] was read into it; a new one if it was too small. *)
Definition refill (block bs : list Z) : list Z := bs ++ drop (length bs) block.

(** [as_scan_parse], [as_query_parse] and [as_batch_parse]. *)
Fixpoint parse_groups (n : nat) (block : list Z) (c : C) (err : as_error) (task : T) : ures (Z * as_error * T * C) :=
  match n with
  | O => Deep
  | S n =>
      let* (status, bytes, c) := rd c 8 in
      if negb (status =? 0) then URet (status, socket_error err status, task, c)
      else
        let* pr := lift (as_proto_of_bytes host_endian bytes) in
        let size := proto_sz (as_proto_swap_from_be host_endian pr) in
        if 0 <? size then
          let* (status, bytes, c) := rd c size in
          if negb (status =? 0) then URet (status, socket_error err status, task, c)
          else
            let block := refill block bytes in
            let* (status, err, task) := parse_records block size err task in
            if status =? AEROSPIKE_OK then parse_groups n block c err task
            else if status =? last then URet (AEROSPIKE_OK, err, task, c)
            else URet (status, fail status err, task, c)
        else URet (AEROSPIKE_ERR_CLIENT, mk_error AEROSPIKE_ERR_CLIENT MZeroSized, task, c)
  end.
End Groups.

Definition set_message (status : Z) (err : as_error) : as_error := mk_error status (MString status).
Definition keep_error (status : Z) (err : as_error) : as_error := err.

Section Stream.
Context `{Platform}.
Context (fuel : nat) (clepoch : Z) (uninit_bins : Z -> list as_bin).

(** The header at [p], swapped where it lies. *)
Definition load_msg (buf : list Z) (p : Z) : option as_msg :=
  l ← mslice buf p 22; m ← as_msg_of_bytes host_endian l; Some (as_msg_swap_header_from_be host_endian m).

Definition as_record_inita (nbins : Z) : as_record := mk_record new_key 0 0 false nbins 0 (uninit_bins nbins).

Definition with_key (rec : as_record) (key : as_key) : as_record :=
  mk_record key (rec_gen rec) (rec_ttl rec) (bins_free rec) (bins_capacity rec) (bins_size rec) (bins_entries rec).

(** The record at [p] of a scan or a query, and the pointer behind it. *)
Definition parse_record (deserialize : bool) (buf : list Z) (p : Z) (m : as_msg) : ures (as_record * Z) :=
  let rec := with_header clepoch (as_record_inita (n_ops m)) m in
  let* (key, p) := lift (as_command_parse_key buf p (n_fields m) (rec_key rec)) in
  as_command_parse_bins fuel (with_key rec key) buf p (n_ops m) deserialize.

(** ** Scans *)

Section Scans.
Context {W : Type} (error_mutex : W -> Z * W) (callback : option (as_record -> W -> bool * W)) (deserialize : bool).

(** NULL when the callback does not want more. *)
Definition as_scan_parse_record (buf : list Z) (p : Z) (m : as_msg) (w : W) : ures (option Z * W) :=
  let* (rec, p) := parse_record deserialize buf p m in
  match callback with
  | Some callback => let '(rv, w) := callback rec w in URet (if rv then Some p else None, w)
  | None => URet (Some p, w)
  end.

(** Every message is at least its header long, so that [size] rounds are enough. *)
Fixpoint scan_records_loop (n : nat) (buf : list Z) (size p : Z) (w : W) : ures (Z * W) :=
  match n with
  | O => Deep
  | S n =>
      if negb (p <? size) then URet (AEROSPIKE_OK, w)
      else
        let* m := lift (load_msg buf p) in
        if negb (result_code m =? 0)
        then URet (if result_code m =? AEROSPIKE_ERR_RECORD_NOT_FOUND then AEROSPIKE_NO_MORE_RECORDS else result_code m, w)
        else if is_last m then URet (AEROSPIKE_NO_MORE_RECORDS, w)
        else
          let* (q, w) := as_scan_parse_record buf (p + 22) m w in
          match q with
          | None => URet (AEROSPIKE_NO_MORE_RECORDS, w)
          | Some p =>
              let '(failed, w) := error_mutex w in
              if negb (failed =? 0) then URet (AEROSPIKE_NO_MORE_RECORDS, w) else scan_records_loop n buf size p w
          end
  end.

Definition as_scan_parse_records (buf : list Z) (size : Z) (err : as_error) (w : W) : ures (Z * as_error * W) :=
  let* (status, w) := scan_records_loop (S (Z.to_nat size)) buf size 0 w in URet (status, err, w).

Definition as_scan_parse `{Reader C} (n : nat) (c : C) (err : as_error) (w : W) : ures (Z * as_error * W * C) :=
  parse_groups AEROSPIKE_NO_MORE_RECORDS as_scan_parse_records set_message n [] c err w.
End Scans.

(** ** Queries *)

(** A callback gets a record, or the value of an aggregation; NULL when the server sent
    none that can be read. *)
Inductive query_item := ItemRecord (rec : as_record) | ItemValue (val : option as_val).

Section Queries.
Context {W : Type} (error_mutex : W -> Z * W) (callback : option (query_item -> W -> bool * W)) (aggregate : bool).

Definition called (item : query_item) (w : W) : bool * W :=
  match callback with Some callback => callback item w | None => (true, w) end.

Definition as_query_parse_record (buf : list Z) (p : Z) (m : as_msg) (err : as_error) (w : W) : ures (option Z * as_error * W) :=
  if aggregate then
    let* (q, err, val) := as_command_parse_success_failure_bins fuel buf p err m (Some None) in
    match q with
    | None => URet (None, err, w)
    | Some p => let '(rv, w) := called (ItemValue (default None val)) w in URet (if rv then Some p else None, err, w)
    end
  else
    let* (rec, p) := parse_record true buf p m in
    let '(rv, w) := called (ItemRecord rec) w in URet (if rv then Some p else None, err, w).

Fixpoint query_records_loop (n : nat) (buf : list Z) (size p : Z) (err : as_error) (w : W) : ures (Z * as_error * W) :=
  match n with
  | O => Deep
  | S n =>
      if negb (p <? size) then URet (AEROSPIKE_OK, err, w)
      else
        let* m := lift (load_msg buf p) in
        if negb (result_code m =? 0) then URet (result_code m, mk_error (result_code m) (MString (result_code m)), w)
        else if is_last m then URet (AEROSPIKE_NO_MORE_RECORDS, err, w)
        else
          let* (q, err, w) := as_query_parse_record buf (p + 22) m err w in
          match q with
          | None => URet (err_code err, err, w)
          | Some p =>
              let '(failed, w) := error_mutex w in
              if negb (failed =? 0) then URet (AEROSPIKE_NO_MORE_RECORDS, err, w) else query_records_loop n buf size p err w
          end
  end.

Definition as_query_parse_records (buf : list Z) (size : Z) (err : as_error) (w : W) : ures (Z * as_error * W) :=
  query_records_loop (S (Z.to_nat size)) buf size 0 err w.

Definition as_query_parse `{Reader C} (n : nat) (c : C) (err : as_error) (w : W) : ures (Z * as_error * W * C) :=
  parse_groups AEROSPIKE_NO_MORE_RECORDS as_query_parse_records keep_error n [] c err w.
End Queries.

(** ** Batches *)

(** [None]: the record was never initialised. *)
Record as_batch_read := mk_read { read_key : as_key; read_result : Z; read_record : option as_record }.

(** What is left of a task and written by it. *)
Record batch_progress := mk_progress { task_index : Z; task_results : list as_batch_read }.

(** The pointer behind the fields, and the one to the digest. *)
Fixpoint as_batch_parse_fields (n : nat) (buf : list Z) (p : Z) (digest : option Z) : option (Z * option Z) :=
  match n with
  | O => Some (p, digest)
  | S n =>
      len ← load_be32 buf p;
      id ← mread buf (p + 4);
      let p := p + 5 in
      as_batch_parse_fields n buf (p + u32 (len - 1)) (if id =? AS_FIELD_DIGEST then Some p else digest)
  end.

Section Batches.
Context (offsets : as_vector Z) (keys : list as_key).

(** The record of a key that was found. *)
Definition parse_batch_record (buf : list Z) (p : Z) (m : as_msg) : ures (as_record * Z) :=
  as_command_parse_bins fuel (with_header clepoch (as_record_new uninit_bins (n_ops m)) m) buf p (n_ops m) true.

(** One answer behind its header: the pointer behind it and the results.  The operations of
    a key that was not asked for are not skipped, nor are those of a key that was not found;
    without a digest NULL is printed. *)
Definition batch_answer (buf : list Z) (p : Z) (m : as_msg) (offset : Z) (results : list as_batch_read)
  : ures (Z * list as_batch_read) :=
  let* (p, digest) := lift (as_batch_parse_fields (Z.to_nat (n_fields m)) buf p None) in
  let* d := lift digest in
  let* bytes := lift (mslice buf d AS_DIGEST_VALUE_SIZE) in
  let* key := lift (aget keys offset) in
  if bool_decide (bytes = digest_value key) then
    let* old := lift (aget results offset) in
    if result_code m =? AEROSPIKE_OK then
      let* (rec, p) := parse_batch_record buf p m in
      let* results := lift (aset results offset (mk_read (read_key old) (result_code m) (Some rec))) in URet (p, results)
    else
      let* results := lift (aset results offset (mk_read (read_key old) (result_code m) (read_record old))) in URet (p, results)
  else URet (p, results).

Fixpoint batch_records_loop (n : nat) (buf : list Z) (size p : Z) (task : batch_progress) : ures (Z * batch_progress) :=
  match n with
  | O => Deep
  | S n =>
      if negb (p <? size) then URet (AEROSPIKE_OK, task)
      else
        let* m := lift (load_msg buf p) in
        if negb (result_code m =? 0) && negb (result_code m =? AEROSPIKE_ERR_RECORD_NOT_FOUND) then URet (result_code m, task)
        else if is_last m then URet (AEROSPIKE_NO_MORE_RECORDS, task)
        else
          let* offset := lift (as_vector_get offsets (task_index task)) in
          let* (p, results) := batch_answer buf (p + 22) m offset (task_results task) in
          batch_records_loop n buf size p (mk_progress (u32 (task_index task + 1)) results)
  end.

Definition as_batch_parse_records (buf : list Z) (size : Z) (err : as_error) (task : batch_progress)
  : ures (Z * as_error * batch_progress) :=
  let* (status, task) := batch_records_loop (S (Z.to_nat size)) buf size 0 task in URet (status, err, task).

Definition as_batch_parse `{Reader C} (n : nat) (c : C) (err : as_error) (task : batch_progress)
  : ures (Z * as_error * batch_progress * C) :=
  parse_groups AEROSPIKE_NO_MORE_RECORDS as_batch_parse_records set_message n [] c err task.
End Batches.
End Stream.

(** ** Reading groups *)

(** A group as it is sent. *)
Definition group (version type : Z) (body : list Z) : list Z := (version :: type :: be_bytes 6 (blen body)) ++ body.

(** The groups lie in the stream, and all reads of them succeed. *)
Inductive streams `{Reader C} : C -> list (list Z) -> C -> Prop :=
  | streams_nil c : streams c [] c
  | streams_cons c version type body rest c1 c2 gs c3 :
      pending c = group version type body ++ rest -> 0 < blen body <= INT_MAX ->
      delivers c 8 c1 -> delivers c1 (blen body) c2 -> streams c2 gs c3 -> streams c (body :: gs) c3.

Section GroupProofs.
Context `{Platform} `{Reader C} {T : Type}.
Context (last : Z) (parse_records : list Z -> Z -> as_error -> T -> ures (Z * as_error * T)) (fail : Z -> as_error -> as_error).

Lemma streams_size c body gs c' : streams c (body :: gs) c' -> 0 < blen body <= INT_MAX.
Proof. by inversion 1. Qed.

Lemma groups_step n block c body gs c3 err task :
  streams c (body :: gs) c3 ->
  exists c2, streams c2 gs c3 /\
    parse_groups last parse_records fail (S n) block c err task
    = (let* (status, err, task) := parse_records (refill block body) (blen body) err task in
       if status =? AEROSPIKE_OK then parse_groups last parse_records fail n (refill block body) c2 err task
       else if status =? last then URet (AEROSPIKE_OK, err, task, c2)
       else URet (status, fail status err, task, c2)).
Proof.
  intros Hs. inversion Hs as [|? version type ? rest c1 c2 ? ? Hp Hb Hd1 Hd2 Hs']; subst. exists c2. split; [done|].
  unfold group in Hp. rewrite <- app_assoc in Hp. unfold INT_MAX in Hb.
  assert (8 = blen (version :: type :: be_bytes 6 (blen body))) as H8 by (cbn [length]; by rewrite be_bytes_length).
  destruct (delivers_exact _ _ _ _ _ Hd1 ltac:(done) H8 Hp) as [Hr1 Hp1].
  destruct (delivers_exact _ _ _ _ _ Hd2 ltac:(lia) eq_refl Hp1) as [Hr2 Hp2].
  cbn [parse_groups]. rewrite Hr1. cbn [ubind Z.eqb AEROSPIKE_OK negb].
  pose proof (as_proto_received host_endian version type (blen body) ltac:(lia)) as Hpr.
  destruct (as_proto_of_bytes host_endian (version :: type :: be_bytes 6 (blen body))) as [pr|]; [|done].
  cbn [fmap option_fmap option_map] in Hpr. apply (inj Some) in Hpr. cbn [lift ubind]. rewrite Hpr. cbn [proto_sz].
  destruct (Z.ltb_spec 0 (blen body)); [|lia]. rewrite Hr2. done.
Qed.
End GroupProofs.

Section StreamProofs.
Context `{Platform}.
Context (fuel : nat) (clepoch : Z) (uninit_bins : Z -> list as_bin).
Context (uninit_bins_size : forall n, 0 <= n -> blen (uninit_bins n) = n).

Lemma load_msg_ok buf p m : msg_in_range m -> holds buf p (msg_wire m) -> load_msg buf p = Some m.
Proof.
  intros Hm Hh%holds_slice. rewrite msg_wire_length in Hh. unfold load_msg. change (Z.of_nat 22) with 22 in Hh. rewrite Hh.
  cbn [mbind option_bind]. pose proof (as_msg_received host_endian m Hm) as Hr.
  destruct (as_msg_of_bytes host_endian (msg_wire m)); [|done]. exact Hr.
Qed.

Lemma refill_holds block body : blen body <= INT_MAX -> holds (refill block body) 0 body.
Proof. intros Hb. exists [], (drop (length body) block). done. Qed.

(** ** Records of scans and queries *)

(** A record as the server sends it: the header, the fields of the key, the bins. *)
Record sent_record := mk_sent { s_msg : as_msg; s_policy : as_policy_key; s_key : as_key; s_ops : list as_binop }.

Definition wire_record (r : sent_record) : list Z := msg_wire (s_msg r) ++ wire_key (s_policy r) (s_key r) ++ wire_bins (s_ops r).

Definition sent_ok (r : sent_record) : Prop :=
  msg_in_range (s_msg r) /\ result_code (s_msg r) = AEROSPIKE_OK /\ is_last (s_msg r) = false
  /\ n_fields (s_msg r) = n_key_fields (s_policy r) /\ n_ops (s_msg r) = blen (s_ops r)
  /\ key_ready (s_policy r) (s_key r)
  /\ strlen (key_ns (s_key r)) < AS_NAMESPACE_MAX_SIZE /\ strlen (key_set (s_key r)) < AS_SET_MAX_SIZE
  /\ (forall v, s_policy r = KEY_SEND -> key_valuep (s_key r) = Some v -> key_value_ok v)
  /\ Forall (fun op => bin_storable (binop_bin op)) (s_ops r).

(** What a callback is given for it. *)
Definition record_back (deserialize : bool) (r : sent_record) (rec : as_record) : Prop :=
  rec_key rec = mk_key (c_str (key_ns (s_key r))) (c_str (key_set (s_key r)))
                  (match s_policy r with KEY_SEND => key_valuep (s_key r) | KEY_DIGEST => None end) false (digest_value (s_key r))
  /\ rec_gen rec = u16 (generation (s_msg r)) /\ rec_ttl rec = cf_server_void_time_to_ttl clepoch (record_ttl (s_msg r))
  /\ bins_size rec = blen (s_ops r) /\ bins_capacity rec = blen (s_ops r)
  /\ Forall2 (bin_back_as deserialize) (map binop_bin (s_ops r)) (bins_entries rec).

Lemma parse_record_ok deserialize r buf p :
  sent_ok r -> holds buf p (wire_key (s_policy r) (s_key r) ++ wire_bins (s_ops r)) ->
  (length (wire_bins (s_ops r)) <= fuel)%nat ->
  exists rec, record_back deserialize r rec
    /\ parse_record fuel clepoch uninit_bins deserialize buf p (s_msg r)
       = URet (rec, p + blen (wire_key (s_policy r) (s_key r) ++ wire_bins (s_ops r))).
Proof.
  intros (Hm & Hc & Hl & Hnf & Hno & Hk & Hns & Hset & Hv & Hs) Hh Hf. apply holds_app in Hh as [Hh1 Hh2].
  unfold parse_record. rewrite Hnf.
  rewrite (parse_key_ok _ _ (s_policy r) (s_key r)) by done. cbn [lift ubind].
  set (key' := mk_key _ _ _ _ _). set (rec0 := with_key _ _).
  assert (blen (uninit_bins (blen (s_ops r))) = blen (s_ops r)) as Hul by (apply uninit_bins_size; lia).
  assert (bins_entries rec0 = uninit_bins (blen (s_ops r))) as He by (subst rec0; cbn; by rewrite Hno).
  unfold as_command_parse_bins. rewrite Hno, Nat2Z.id.
  destruct (parse_bins_loop_ok fuel deserialize buf (s_ops r) _ 0 rec0 Hs Hh2 Hf) as (bins & Hb & Hpb).
  { rewrite He. lia. } { subst rec0. cbn. lia. }
  change (Z.of_nat 0) with 0 in Hpb. rewrite Hpb. eexists. split; [|rewrite length_app; do 2 f_equal; lia].
  pose proof (Forall2_length _ _ _ Hb) as Hbl. rewrite length_map in Hbl. destruct Hm as (_ & _ & _ & _ & Hmo).
  split_and!; try done.
  - subst rec0. cbn [with_bins bins_size with_key with_header as_record_inita]. by rewrite Z.add_0_l, u16_id by lia.
  - unfold with_bins, stored. cbn [bins_entries]. rewrite take_0, He, drop_ge, app_nil_r by lia. exact Hb.
Qed.

(** How the delivery of records ends: all of them, one refused by the callback, or another
    thread having failed. *)
Inductive outcome := All | Refused | Flagged.

Section Delivery.
Context {W : Type} (error_mutex : W -> Z * W) (callback : as_record -> W -> bool * W) (deserialize : bool).

(** Every record is given to the callback once, in order, until it refuses one or the flag is set. *)
Inductive delivered : list sent_record -> W -> outcome -> W -> Prop :=
  | delivered_nil w : delivered [] w All w
  | delivered_next r rs rec w w1 w2 o w3 :
      record_back deserialize r rec -> callback rec w = (true, w1) -> error_mutex w1 = (0, w2) ->
      delivered rs w2 o w3 -> delivered (r :: rs) w o w3
  | delivered_refused r rs rec w w1 :
      record_back deserialize r rec -> callback rec w = (false, w1) -> delivered (r :: rs) w Refused w1
  | delivered_flagged r rs rec w w1 failed w2 :
      record_back deserialize r rec -> callback rec w = (true, w1) -> error_mutex w1 = (failed, w2) -> failed <> 0 ->
      delivered (r :: rs) w Flagged w2.

Lemma delivered_app rs1 rs2 w o w1 :
  delivered rs1 w o w1 ->
  match o with
  | All => forall o' w2, delivered rs2 w1 o' w2 -> delivered (rs1 ++ rs2) w o' w2
  | _ => delivered (rs1 ++ rs2) w o w1
  end.
Proof.
  induction 1 as [w|r rs rec w w1 w2 o w3 Hb Hc He Hd IH|r rs rec w w1 Hb Hc|r rs rec w w1 failed w2 Hb Hc He Hf].
  - done.
  - destruct o; [intros o' w4 Hd'|..]; econstructor; eauto.
  - by econstructor.
  - by econstructor.
Qed.

Definition wire_records (rs : list sent_record) : list Z := mjoin (map wire_record rs).

Lemma wire_record_length r : blen (wire_record r) = 22 + blen (wire_key (s_policy r) (s_key r) ++ wire_bins (s_ops r)).
Proof. unfold wire_record. rewrite !length_app, msg_wire_length. lia. Qed.

Lemma wire_records_length rs : 22 * blen rs <= blen (wire_records rs).
Proof.
  unfold wire_records. induction rs as [|r rs IH]; [done|]. rewrite map_cons, join_cons, length_app, length_cons.
  pose proof (wire_record_length r). lia.
Qed.

Lemma scan_records_ok rs k buf size p w :
  Forall sent_ok rs -> holds buf p (wire_records rs) -> p + blen (wire_records rs) <= size ->
  (length (wire_records rs) <= fuel)%nat ->
  exists o w', delivered rs w o w'
    /\ scan_records_loop fuel clepoch uninit_bins error_mutex (Some callback) deserialize (length rs + k) buf size p w
       = match o with
         | All => scan_records_loop fuel clepoch uninit_bins error_mutex (Some callback) deserialize k buf size
                    (p + blen (wire_records rs)) w'
         | _ => URet (AEROSPIKE_NO_MORE_RECORDS, w')
         end.
Proof.
  revert p w. unfold wire_records. induction rs as [|r rs IH]; intros p w Hok Hh Hsz Hf.
  { exists All, w. split; [constructor|]. cbn. by rewrite Z.add_0_r. }
  apply Forall_cons in Hok as [Hr Hok]. rewrite map_cons, join_cons in *. rewrite length_app in Hsz, Hf.
  apply holds_app in Hh as [Hh1 Hh2]. pose proof (wire_record_length r) as Hlen.
  unfold wire_record in Hh1. apply holds_app in Hh1 as [Hm Hb]. rewrite msg_wire_length in Hb. change (Z.of_nat 22) with 22 in Hb.
  destruct (Hr) as (Hrange & Hcode & Hlast & _). cbn [length Nat.add scan_records_loop].
  destruct (Z.ltb_spec p size); [|lia]. cbn [negb]. rewrite (load_msg_ok _ _ _ Hrange Hm). cbn [lift ubind].
  rewrite Hcode, Hlast. cbn [Z.eqb AEROSPIKE_OK negb]. unfold as_scan_parse_record.
  destruct (parse_record_ok deserialize r buf (p + 22) Hr Hb) as (rec & Hback & ->).
  { rewrite length_app in Hlen. lia. }
  cbn [ubind]. destruct (callback rec w) as [rv w1] eqn:Ec. cbn [ubind]. destruct rv.
  2:{ exists Refused, w1. split; [by econstructor|done]. }
  destruct (error_mutex w1) as [failed w2] eqn:Ee. destruct (Z.eqb_spec failed 0) as [->|Hne]; cbn [negb].
  2:{ exists Flagged, w2. split; [by econstructor|done]. }
  replace (p + 22 + _) with (p + blen (wire_record r)) by lia.
  destruct (IH (p + blen (wire_record r)) w2 Hok Hh2 ltac:(lia) ltac:(lia)) as (o & w' & Hd & ->).
  exists o, w'. split; [by econstructor|]. destruct o; [|done..]. by rewrite length_app, Nat2Z.inj_add, Z.add_assoc.
Qed.

(** The message that ends an answer, and the status it stands for. *)
Definition ending (m : as_msg) : Prop :=
  msg_in_range m /\ 0 <= result_code m /\ (result_code m = AEROSPIKE_OK -> is_last m = true).

Definition scan_status (m : as_msg) : Z :=
  if result_code m =? AEROSPIKE_ERR_RECORD_NOT_FOUND then AEROSPIKE_OK else result_code m.

Definition status_error (status : Z) (err : as_error) : as_error := if status =? AEROSPIKE_OK then err else set_message status err.

Lemma scan_end_ok k buf size p m w :
  ending m -> holds buf p (msg_wire m) -> p < size ->
  scan_records_loop fuel clepoch uninit_bins error_mutex (Some callback) deserialize (S k) buf size p w
  = URet (if scan_status m =? AEROSPIKE_OK then AEROSPIKE_NO_MORE_RECORDS else scan_status m, w).
Proof.
  intros (Hm & Hc & Hl) Hh Hp. cbn [scan_records_loop]. destruct (Z.ltb_spec p size); [|lia]. cbn [negb].
  rewrite (load_msg_ok _ _ _ Hm Hh). cbn [lift ubind]. unfold scan_status, AEROSPIKE_ERR_RECORD_NOT_FOUND, AEROSPIKE_OK in *.
  destruct (Z.eqb_spec (result_code m) 0) as [E|E]; cbn [negb].
  - rewrite E, Hl by done. done.
  - destruct (Z.eqb_spec (result_code m) 2); [done|]. by destruct (Z.eqb_spec (result_code m) 0).
Qed.

(** One group: the records, and what comes behind them. *)
Lemma scan_group_ok rs tail block err w :
  Forall sent_ok rs -> blen (wire_records rs ++ tail) <= INT_MAX -> (length (wire_records rs) <= fuel)%nat ->
  exists o w' k, delivered rs w o w'
    /\ as_scan_parse_records fuel clepoch uninit_bins error_mutex (Some callback) deserialize
         (refill block (wire_records rs ++ tail)) (blen (wire_records rs ++ tail)) err w
       = match o with
         | All => let* (status, w) :=
                    scan_records_loop fuel clepoch uninit_bins error_mutex (Some callback) deserialize (S k)
                      (refill block (wire_records rs ++ tail)) (blen (wire_records rs ++ tail)) (blen (wire_records rs)) w' in
                  URet (status, err, w)
         | _ => URet (AEROSPIKE_NO_MORE_RECORDS, err, w')
         end.
Proof.
  intros Hok Hmax Hf. set (body := wire_records rs ++ tail) in *. pose proof (refill_holds block body Hmax) as Hh.
  unfold body in Hh at 2. apply holds_app in Hh as [Hh _]. pose proof (wire_records_length rs) as Hl.
  assert (blen (wire_records rs) <= blen body) as Hb by (unfold body; rewrite length_app; lia).
  destruct (scan_records_ok rs (S (Z.to_nat (blen body)) - length rs) (refill block body) (blen body) 0 w Hok Hh ltac:(lia) Hf)
    as (o & w' & Hd & He).
  exists o, w', (Z.to_nat (blen body) - length rs)%nat. split; [done|]. unfold as_scan_parse_records.
  replace (length rs + _)%nat with (S (Z.to_nat (blen body))) in He by lia. rewrite He.
  replace (S (Z.to_nat (blen body)) - length rs)%nat with (S (Z.to_nat (blen body) - length rs)) by lia. by destruct o.
Qed.

(** C11: The scan of a node: every record that the node sends is given to the callback once, in
    order, with the bins that were stored; the scan ends with the status of the last
    message, and then all of the answer has been read.  It ends early, with success and with
    the rest of the answer unread, when the callback refuses a record or another node has
    failed. *)
Theorem scan_delivers `{Reader C} groups final m n c c' err w :
  Forall (Forall sent_ok) groups -> Forall sent_ok final -> ending m ->
  streams c (map wire_records groups ++ [wire_records final ++ msg_wire m]) c' ->
  Forall (fun rs => (length (wire_records rs) <= fuel)%nat) (groups ++ [final]) -> (length groups < n)%nat ->
  exists o w' c'' status, delivered (mjoin groups ++ final) w o w'
    /\ as_scan_parse fuel clepoch uninit_bins error_mutex (Some callback) deserialize n c err w
       = URet (status, status_error status err, w', c'')
    /\ match o with All => status = scan_status m /\ c'' = c' | _ => status = AEROSPIKE_OK end.
Proof.
  intros Hgs Hfin Hend. unfold as_scan_parse. generalize (@nil Z) as block. revert n c w.
  induction groups as [|g groups IH]; intros n c w block Hs Hf Hn; destruct n as [|n]; [cbn in Hn; lia| |cbn in Hn; lia|].
  - cbn [map app] in *. apply Forall_cons in Hf as [Hf _].
    edestruct (groups_step AEROSPIKE_NO_MORE_RECORDS (as_scan_parse_records fuel clepoch uninit_bins error_mutex (Some callback) deserialize) set_message
      n block c _ [] c' err w Hs) as (c2 & Hs2 & ->). inversion Hs2; subst c2.
    pose proof (streams_size _ _ _ _ Hs) as Hb.
    destruct (scan_group_ok final (msg_wire m) block err w Hfin ltac:(lia) Hf) as (o & w' & k & Hd & ->).
    exists o, w', c'. destruct o; [|exists AEROSPIKE_OK; by split_and!..].
    pose proof (refill_holds block _ (proj2 Hb)) as Hh. apply holds_app in Hh as [_ Hh]. rewrite Z.add_0_l in Hh.
    rewrite (scan_end_ok _ _ _ _ m); [|done|done|rewrite length_app, msg_wire_length; lia]. cbn [ubind].
    exists (scan_status m). split; [done|]. split; [|done]. unfold status_error.
    destruct Hend as (_ & Hc & _). unfold scan_status in *.
    destruct (result_code m =? AEROSPIKE_ERR_RECORD_NOT_FOUND); [done|]. destruct (Z.eqb_spec (result_code m) AEROSPIKE_OK) as [->|E]; [done|].
    destruct (Z.eqb_spec (result_code m) AEROSPIKE_OK); [done|].
    destruct (Z.eqb_spec (result_code m) AEROSPIKE_NO_MORE_RECORDS); [unfold AEROSPIKE_NO_MORE_RECORDS in *; lia|done].
  - cbn [map app] in *. apply Forall_cons in Hgs as [Hg Hgs]. apply Forall_cons in Hf as [Hfg Hf].
    edestruct (groups_step AEROSPIKE_NO_MORE_RECORDS (as_scan_parse_records fuel clepoch uninit_bins error_mutex (Some callback) deserialize) set_message
      n block c _ _ c' err w Hs) as (c2 & Hs2 & ->).
    pose proof (streams_size _ _ _ _ Hs) as Hb.
    destruct (scan_group_ok g [] block err w Hg) as (o & w' & k & Hd & He); [rewrite app_nil_r; lia|done|].
    rewrite app_nil_r in He. rewrite He. apply (delivered_app _ (mjoin groups ++ final)) in Hd. rewrite join_cons, <- app_assoc.
    destruct o; [|eexists _, w', c2, AEROSPIKE_OK; split_and!; [exact Hd|done|done]..].
    cbn [scan_records_loop]. rewrite Z.ltb_irrefl. cbn [negb ubind]. rewrite Z.eqb_refl.
    destruct (IH Hgs n c2 w' (refill block (wire_records g)) Hs2 Hf ltac:(cbn [length] in Hn; lia)) as (o & w3 & c'' & status & Hd' & He' & Hst).
    exists o, w3, c'', status. split_and!; [by apply Hd|done|done].
Qed.
End Delivery.

(** ** Queries *)

Section QueryDelivery.
Context {W : Type} (error_mutex : W -> Z * W) (callback : query_item -> W -> bool * W).

Definition on_record (rec : as_record) (w : W) : bool * W := callback (ItemRecord rec) w.

Abbreviation query_loop := (query_records_loop fuel clepoch uninit_bins error_mutex (Some callback) false).
Abbreviation query_group := (as_query_parse_records fuel clepoch uninit_bins error_mutex (Some callback) false).
Abbreviation query_delivered := (delivered error_mutex on_record true).

Lemma query_records_ok rs k buf size p err w :
  Forall sent_ok rs -> holds buf p (wire_records rs) -> p + blen (wire_records rs) <= size ->
  (length (wire_records rs) <= fuel)%nat ->
  exists o w', query_delivered rs w o w'
    /\ query_loop (length rs + k)%nat buf size p err w
       = match o with
         | All => query_loop k buf size (p + blen (wire_records rs)) err w'
         | Refused => URet (err_code err, err, w')
         | Flagged => URet (AEROSPIKE_NO_MORE_RECORDS, err, w')
         end.
Proof.
  revert p w. unfold wire_records. induction rs as [|r rs IH]; intros p w Hok Hh Hsz Hf.
  { exists All, w. split; [constructor|]. cbn. by rewrite Z.add_0_r. }
  apply Forall_cons in Hok as [Hr Hok]. rewrite map_cons, join_cons in *. rewrite length_app in Hsz, Hf.
  apply holds_app in Hh as [Hh1 Hh2]. pose proof (wire_record_length r) as Hlen.
  unfold wire_record in Hh1. apply holds_app in Hh1 as [Hm Hb]. rewrite msg_wire_length in Hb. change (Z.of_nat 22) with 22 in Hb.
  destruct (Hr) as (Hrange & Hcode & Hlast & _). cbn [length Nat.add query_records_loop].
  destruct (Z.ltb_spec p size); [|lia]. cbn [negb]. rewrite (load_msg_ok _ _ _ Hrange Hm). cbn [lift ubind].
  rewrite Hcode, Hlast. cbn [Z.eqb AEROSPIKE_OK negb]. unfold as_query_parse_record.
  destruct (parse_record_ok true r buf (p + 22) Hr Hb) as (rec & Hback & ->).
  { rewrite length_app in Hlen. lia. }
  cbn [ubind called]. fold (on_record rec w). destruct (on_record rec w) as [rv w1] eqn:Ec. cbn [ubind]. destruct rv.
  2:{ exists Refused, w1. split; [by econstructor|done]. }
  destruct (error_mutex w1) as [failed w2] eqn:Ee. destruct (Z.eqb_spec failed 0) as [->|Hne]; cbn [negb].
  2:{ exists Flagged, w2. split; [by econstructor|done]. }
  replace (p + 22 + _) with (p + blen (wire_record r)) by lia.
  destruct (IH (p + blen (wire_record r)) w2 Hok Hh2 ltac:(lia) ltac:(lia)) as (o & w' & Hd & ->).
  exists o, w'. split; [by econstructor|]. destruct o; [|done..]. by rewrite length_app, Nat2Z.inj_add, Z.add_assoc.
Qed.

Lemma query_group_ok rs tail block err w :
  Forall sent_ok rs -> blen (wire_records rs ++ tail) <= INT_MAX -> (length (wire_records rs) <= fuel)%nat ->
  exists o w' k, query_delivered rs w o w'
    /\ query_group (refill block (wire_records rs ++ tail)) (blen (wire_records rs ++ tail)) err w
       = match o with
         | All => query_loop (S k) (refill block (wire_records rs ++ tail)) (blen (wire_records rs ++ tail))
                    (blen (wire_records rs)) err w'
         | Refused => URet (err_code err, err, w')
         | Flagged => URet (AEROSPIKE_NO_MORE_RECORDS, err, w')
         end.
Proof.
  intros Hok Hmax Hf. set (body := wire_records rs ++ tail) in *. pose proof (refill_holds block body Hmax) as Hh.
  unfold body in Hh at 2. apply holds_app in Hh as [Hh _]. pose proof (wire_records_length rs) as Hl.
  assert (blen (wire_records rs) <= blen body) as Hb by (unfold body; rewrite length_app; lia).
  destruct (query_records_ok rs (S (Z.to_nat (blen body)) - length rs) (refill block body) (blen body) 0 err w Hok Hh ltac:(lia) Hf)
    as (o & w' & Hd & He).
  exists o, w', (Z.to_nat (blen body) - length rs)%nat. split; [done|]. unfold as_query_parse_records.
  replace (length rs + _)%nat with (S (Z.to_nat (blen body))) in He by lia. rewrite He.
  replace (S (Z.to_nat (blen body)) - length rs)%nat with (S (Z.to_nat (blen body) - length rs)) by lia. by destruct o.
Qed.

Lemma query_end_ok k buf size p m err w :
  ending m -> holds buf p (msg_wire m) -> p < size ->
  query_loop (S k) buf size p err w
  = URet (if result_code m =? AEROSPIKE_OK then AEROSPIKE_NO_MORE_RECORDS else result_code m, status_error (result_code m) err, w).
Proof.
  intros (Hm & Hc & Hl) Hh Hp. cbn [query_records_loop]. destruct (Z.ltb_spec p size); [|lia]. cbn [negb].
  rewrite (load_msg_ok _ _ _ Hm Hh). cbn [lift ubind]. unfold status_error, AEROSPIKE_OK in *.
  destruct (Z.eqb_spec (result_code m) 0) as [E|E]; cbn [negb]; [by rewrite Hl|done].
Qed.

(** A callback that takes everything does not refuse. *)
Lemma accepts_all rs w o w' : (forall item w, (callback item w).1 = true) -> query_delivered rs w o w' -> o <> Refused.
Proof.
  intros Ha. induction 1 as [| |r rs rec w w1 Hb Hc|]; try done. unfold on_record in Hc.
  specialize (Ha (ItemRecord rec) w). by rewrite Hc in Ha.
Qed.

(** The query of a node, with a callback that takes every record: each is given to it once,
    in order, and the query ends with the status of the last message, or early and with
    success when another node has failed. *)
Theorem query_delivers `{Reader C} groups final m n c c' err w :
  (forall item w, (callback item w).1 = true) ->
  Forall (Forall sent_ok) groups -> Forall sent_ok final -> ending m ->
  streams c (map wire_records groups ++ [wire_records final ++ msg_wire m]) c' ->
  Forall (fun rs => (length (wire_records rs) <= fuel)%nat) (groups ++ [final]) -> (length groups < n)%nat ->
  exists o w' c'' status, query_delivered (mjoin groups ++ final) w o w'
    /\ as_query_parse fuel clepoch uninit_bins error_mutex (Some callback) false n c err w
       = URet (status, status_error status err, w', c'')
    /\ match o with All => status = result_code m /\ c'' = c' | _ => status = AEROSPIKE_OK end.
Proof.
  intros Ha Hgs Hfin Hend. unfold as_query_parse. generalize (@nil Z) as block. revert n c w.
  induction groups as [|g groups IH]; intros n c w block Hs Hf Hn; destruct n as [|n]; [cbn in Hn; lia| |cbn in Hn; lia|].
  - cbn [map app] in *. apply Forall_cons in Hf as [Hf _].
    edestruct (groups_step AEROSPIKE_NO_MORE_RECORDS query_group keep_error n block c _ [] c' err w Hs) as (c2 & Hs2 & ->). inversion Hs2; subst c2.
    pose proof (streams_size _ _ _ _ Hs) as Hb.
    destruct (query_group_ok final (msg_wire m) block err w Hfin ltac:(lia) Hf) as (o & w' & k & Hd & ->).
    pose proof (accepts_all _ _ _ _ Ha Hd) as Hno.
    exists o, w', c'. destruct o; [|done|exists AEROSPIKE_OK; by split_and!].
    pose proof (refill_holds block _ (proj2 Hb)) as Hh. apply holds_app in Hh as [_ Hh]. rewrite Z.add_0_l in Hh.
    rewrite (query_end_ok _ _ _ _ m); [|done|done|rewrite length_app, msg_wire_length; lia]. cbn [ubind].
    exists (result_code m). split; [done|]. split; [|done]. unfold status_error.
    destruct Hend as (_ & Hc & _). destruct (Z.eqb_spec (result_code m) AEROSPIKE_OK) as [->|E]; [done|].
    destruct (Z.eqb_spec (result_code m) AEROSPIKE_OK); [done|].
    destruct (Z.eqb_spec (result_code m) AEROSPIKE_NO_MORE_RECORDS); [unfold AEROSPIKE_NO_MORE_RECORDS in *; lia|done].
  - cbn [map app] in *. apply Forall_cons in Hgs as [Hg Hgs]. apply Forall_cons in Hf as [Hfg Hf].
    edestruct (groups_step AEROSPIKE_NO_MORE_RECORDS query_group keep_error n block c _ _ c' err w Hs) as (c2 & Hs2 & ->).
    pose proof (streams_size _ _ _ _ Hs) as Hb.
    destruct (query_group_ok g [] block err w Hg) as (o & w' & k & Hd & He); [rewrite app_nil_r; lia|done|].
    rewrite app_nil_r in He. rewrite He. pose proof (accepts_all _ _ _ _ Ha Hd) as Hno.
    apply (delivered_app _ _ _ _ (mjoin groups ++ final)) in Hd. rewrite join_cons, <- app_assoc.
    destruct o; [|done|eexists _, w', c2, AEROSPIKE_OK; split_and!; [exact Hd|done|done]].
    cbn [query_records_loop]. rewrite Z.ltb_irrefl. cbn [negb ubind]. rewrite Z.eqb_refl.
    destruct (IH Hgs n c2 w' (refill block (wire_records g)) Hs2 Hf ltac:(cbn [length] in Hn; lia))
      as (o & w3 & c'' & status & Hd' & He' & Hst).
    exists o, w3, c'', status. split_and!; [by apply Hd|done|done].
Qed.

(** A callback that refuses a record does not end the query.  The status is then the code
    of an error that nothing has set: when it happens to be zero the rest of the group is
    dropped and the next group is read, so that refusing a record of the last group makes the
    client wait for one that does not come; the query then fails with the status of that
    read. *)
Theorem query_refusal_waits `{Reader C} rs m n c c' c3 err w w' status bytes :
  Forall sent_ok rs -> streams c [wire_records rs ++ msg_wire m] c' -> (length (wire_records rs) <= fuel)%nat ->
  (forall o w2, query_delivered rs w o w2 -> o = Refused /\ w2 = w') -> err_code err = AEROSPIKE_OK ->
  rd c' 8 = URet (status, bytes, c3) -> status <> AEROSPIKE_OK ->
  as_query_parse fuel clepoch uninit_bins error_mutex (Some callback) false (S (S n)) c err w
  = URet (status, socket_error err status, w', c3).
Proof.
  intros Hok Hs Hf Hd He Hr Hst. unfold as_query_parse.
  edestruct (groups_step AEROSPIKE_NO_MORE_RECORDS query_group keep_error (S n) [] c _ [] c' err w Hs) as (c2 & Hs2 & ->). inversion Hs2; subst c2.
  pose proof (streams_size _ _ _ _ Hs) as Hb.
  destruct (query_group_ok rs (msg_wire m) [] err w Hok ltac:(lia) Hf) as (o & w2 & k & Hd2 & ->).
  destruct (Hd _ _ Hd2) as [-> ->]. cbn [ubind]. rewrite He. cbn [Z.eqb AEROSPIKE_OK parse_groups]. rewrite Hr. cbn [ubind].
  by destruct (Z.eqb_spec status 0).
Qed.
End QueryDelivery.

(** ** Batches *)

(** The answer for a key: the fields with the digest among them (the last one counts), and
    the bins when the record was found. *)
Record sent_answer := mk_answer {
  a_msg : as_msg; a_before : list (Z * list Z); a_digest : list Z; a_after : list (Z * list Z); a_ops : list as_binop
}.

Definition a_fields (a : sent_answer) : list (Z * list Z) := a_before a ++ (AS_FIELD_DIGEST, a_digest a) :: a_after a.
Definition wire_answer (a : sent_answer) : list Z := msg_wire (a_msg a) ++ wire_fields (a_fields a) ++ wire_bins (a_ops a).

Definition answer_ok (a : sent_answer) : Prop :=
  msg_in_range (a_msg a) /\ is_last (a_msg a) = false /\ n_fields (a_msg a) = blen (a_fields a)
  /\ length (a_digest a) = 20%nat /\ Forall (fun f => f.1 <> AS_FIELD_DIGEST) (a_after a)
  /\ (result_code (a_msg a) = AEROSPIKE_OK /\ n_ops (a_msg a) = blen (a_ops a)
        /\ Forall (fun op => bin_storable (binop_bin op)) (a_ops a)
      \/ result_code (a_msg a) = AEROSPIKE_ERR_RECORD_NOT_FOUND /\ a_ops a = []).

Lemma batch_fields_step n buf p id bs digest :
  holds buf p (wire_field id bs) ->
  as_batch_parse_fields (S n) buf p digest
  = as_batch_parse_fields n buf (p + blen (wire_field id bs)) (if id =? AS_FIELD_DIGEST then Some (p + 5) else digest).
Proof.
  intros Hh. destruct (field_at _ _ _ _ Hh) as (Hl & Hi & Hb & Hr). cbn [as_batch_parse_fields]. rewrite Hl. cbn [mbind option_bind].
  rewrite Hi. cbn [mbind option_bind]. rewrite u32_id by (unfold is_u32; lia). rewrite wire_field_length.
  f_equal; lia.
Qed.

Lemma batch_fields_other fields n buf p digest :
  holds buf p (wire_fields fields) -> Forall (fun f => f.1 <> AS_FIELD_DIGEST) fields ->
  as_batch_parse_fields (length fields + n) buf p digest = as_batch_parse_fields n buf (p + blen (wire_fields fields)) digest.
Proof.
  revert p. induction fields as [|[id bs] fields IH]; intros p Hh Hf; [cbn; by rewrite Z.add_0_r|].
  rewrite wire_fields_cons in *. apply holds_app in Hh as [Hh1 Hh2]. apply Forall_cons in Hf as [Hid Hf]. cbn [fst] in Hid.
  cbn [length Nat.add]. rewrite (batch_fields_step _ _ _ id bs) by done. destruct (Z.eqb_spec id AS_FIELD_DIGEST); [done|].
  rewrite IH by done. by rewrite length_app, Nat2Z.inj_add, Z.add_assoc.
Qed.

Lemma batch_fields_before fields n buf p digest :
  holds buf p (wire_fields fields) ->
  exists digest', as_batch_parse_fields (length fields + n) buf p digest
                  = as_batch_parse_fields n buf (p + blen (wire_fields fields)) digest'.
Proof.
  revert p digest. induction fields as [|[id bs] fields IH]; intros p digest Hh; [exists digest; cbn; by rewrite Z.add_0_r|].
  rewrite wire_fields_cons in *. apply holds_app in Hh as [Hh1 Hh2].
  cbn [length Nat.add]. rewrite (batch_fields_step _ _ _ id bs) by done.
  destruct (IH _ (if id =? AS_FIELD_DIGEST then Some (p + 5) else digest) Hh2) as [d' ->].
  exists d'. by rewrite length_app, Nat2Z.inj_add, Z.add_assoc.
Qed.

Lemma batch_fields_ok a buf p :
  Forall (fun f => f.1 <> AS_FIELD_DIGEST) (a_after a) -> holds buf p (wire_fields (a_fields a)) ->
  exists d, as_batch_parse_fields (length (a_fields a)) buf p None = Some (p + blen (wire_fields (a_fields a)), Some d)
    /\ holds buf d (a_digest a).
Proof.
  intros Ha Hh. unfold a_fields in *. rewrite wire_fields_app, wire_fields_cons in *.
  apply holds_app in Hh as [Hh1 Hh]. apply holds_app in Hh as [Hh2 Hh3]. rewrite !length_app. cbn [length].
  destruct (batch_fields_before _ (S (length (a_after a))) _ _ None Hh1) as [d' ->].
  rewrite (batch_fields_step _ _ _ _ _ _ Hh2), Z.eqb_refl.
  pose proof (batch_fields_other (a_after a) 0 _ _ (Some (p + blen (wire_fields (a_before a)) + 5)) Hh3 Ha) as E.
  rewrite Nat.add_0_r in E. rewrite E. cbn [as_batch_parse_fields]. eexists. split.
  - do 2 f_equal. lia.
  - destruct (field_at _ _ _ _ Hh2) as (_ & _ & Hb & _). by rewrite <- Z.add_assoc in Hb.
Qed.

(** What the answer makes of the entry of its key. *)
Definition answered_as (a : sent_answer) (old new : as_batch_read) : Prop :=
  read_key new = read_key old /\ read_result new = result_code (a_msg a)
  /\ if result_code (a_msg a) =? AEROSPIKE_OK
     then exists rec, read_record new = Some rec /\ rec_gen rec = u16 (generation (a_msg a))
          /\ rec_ttl rec = cf_server_void_time_to_ttl clepoch (record_ttl (a_msg a))
          /\ bins_size rec = blen (a_ops a) /\ Forall2 bin_back (map binop_bin (a_ops a)) (bins_entries rec)
     else read_record new = read_record old.

Lemma parse_batch_record_ok a buf p :
  answer_ok a -> result_code (a_msg a) = AEROSPIKE_OK -> holds buf p (wire_bins (a_ops a)) ->
  (length (wire_bins (a_ops a)) <= fuel)%nat ->
  exists rec, parse_batch_record fuel clepoch uninit_bins buf p (a_msg a) = URet (rec, p + blen (wire_bins (a_ops a)))
    /\ rec_gen rec = u16 (generation (a_msg a)) /\ rec_ttl rec = cf_server_void_time_to_ttl clepoch (record_ttl (a_msg a))
    /\ bins_size rec = blen (a_ops a) /\ Forall2 bin_back (map binop_bin (a_ops a)) (bins_entries rec).
Proof.
  intros (Hm & _ & _ & _ & _ & [(Hc & Hn & Hs)|[Hc _]]) Hc' Hh Hf; [|rewrite Hc in Hc'; done].
  unfold parse_batch_record, as_command_parse_bins. rewrite Hn, Nat2Z.id. set (rec0 := with_header _ _ _).
  assert (bins_entries rec0 = uninit_bins (blen (a_ops a)) \/ a_ops a = [] /\ bins_entries rec0 = []) as He.
  { subst rec0. unfold with_header, as_record_new. destruct (a_ops a); [by right|by left]. }
  pose proof (uninit_bins_size (blen (a_ops a)) ltac:(lia)) as Hul.
  assert (length (bins_entries rec0) = length (a_ops a)) as Hel by (destruct He as [->|[-> ->]]; [lia|done]).
  assert (bins_size rec0 = 0) as Hz by (subst rec0; unfold with_header, as_record_new; by destruct (0 <? _)).
  destruct (parse_bins_loop_ok fuel true buf (a_ops a) p 0 rec0 Hs Hh Hf) as (bins & Hb & Hpb); [lia|lia|].
  change (Z.of_nat 0) with 0 in Hpb. rewrite Hpb. eexists. split; [done|].
  pose proof (Forall2_length _ _ _ Hb) as Hbl. rewrite length_map in Hbl. destruct Hm as (_ & _ & _ & _ & Hmo).
  split_and!; [done|done| |].
  - cbn [with_bins bins_size]. by rewrite Hz, Z.add_0_l, u16_id by lia.
  - cbn [with_bins bins_entries]. unfold stored. rewrite take_0, drop_ge, app_nil_r by lia. exact Hb.
Qed.

Section Placement.
Context (offsets : as_vector Z) (keys : list as_key).

Abbreviation batch_loop := (batch_records_loop fuel clepoch uninit_bins offsets keys).
Abbreviation batch_group := (as_batch_parse_records fuel clepoch uninit_bins offsets keys).

Lemma batch_answer_ok a key o results old buf p :
  answer_ok a -> keys !! Z.to_nat o = Some key -> results !! Z.to_nat o = Some old -> 0 <= o ->
  a_digest a = digest_value key ->
  holds buf p (wire_fields (a_fields a) ++ wire_bins (a_ops a)) -> (length (wire_bins (a_ops a)) <= fuel)%nat ->
  exists new, answered_as a old new
    /\ batch_answer fuel clepoch uninit_bins keys buf p (a_msg a) o results
       = URet (p + blen (wire_fields (a_fields a) ++ wire_bins (a_ops a)), <[Z.to_nat o := new]> results).
Proof.
  intros Hok Hk Hr Ho Hd Hh Hf. apply holds_app in Hh as [Hh1 Hh2]. destruct (Hok) as (_ & _ & Hnf & Hdl & Haft & Hcases).
  destruct (batch_fields_ok a buf p Haft Hh1) as (d & Hp & Hhd). unfold batch_answer. rewrite Hnf, Nat2Z.id, Hp. cbn [lift ubind].
  apply holds_slice in Hhd. rewrite Hdl in Hhd. change (Z.of_nat 20) with AS_DIGEST_VALUE_SIZE in Hhd. rewrite Hhd.
  cbn [lift ubind]. rewrite (aget_nonneg keys), Hk by done. cbn [lift ubind]. rewrite bool_decide_true by done.
  rewrite (aget_nonneg results), Hr by done. cbn [lift ubind]. apply lookup_lt_Some in Hr as Hlt.
  unfold answered_as. destruct (Z.eqb_spec (result_code (a_msg a)) AEROSPIKE_OK) as [Hc|Hc].
  - destruct (parse_batch_record_ok a buf _ Hok Hc Hh2 Hf) as (rec & -> & Hrec). cbn [ubind].
    rewrite aset_Some by lia. cbn [lift ubind]. eexists. split; [|by rewrite length_app, Nat2Z.inj_add, Z.add_assoc].
    cbn [read_key read_result read_record]. split_and!; [done|done|by exists rec].
  - rewrite aset_Some by lia. cbn [lift ubind]. eexists. split; [|].
    2:{ destruct Hcases as [[? _]|[_ ->]]; [done|]. cbn. by rewrite app_nil_r. }
    cbn [read_key read_result read_record]. split_and!; done.
Qed.

(** The results after the answers for the keys at [l]. *)
Inductive placed : list Z -> list sent_answer -> list as_batch_read -> list as_batch_read -> Prop :=
  | placed_nil results : placed [] [] results results
  | placed_cons o l a answers results old new results' :
      results !! Z.to_nat o = Some old -> answered_as a old new ->
      placed l answers (<[Z.to_nat o := new]> results) results' -> placed (o :: l) (a :: answers) results results'.

Definition wire_answers (answers : list sent_answer) : list Z := mjoin (map wire_answer answers).

Lemma wire_answer_length a : blen (wire_answer a) = 22 + blen (wire_fields (a_fields a) ++ wire_bins (a_ops a)).
Proof. unfold wire_answer. rewrite !length_app, msg_wire_length. lia. Qed.

Lemma wire_answers_length answers : 22 * blen answers <= blen (wire_answers answers).
Proof.
  unfold wire_answers. induction answers as [|a answers IH]; [done|]. rewrite map_cons, join_cons, length_app, length_cons.
  pose proof (wire_answer_length a). lia.
Qed.

(** The answer is for the key it stands beside. *)
Definition answers_key (o : Z) (a : sent_answer) : Prop :=
  0 <= o /\ answer_ok a /\ exists key, keys !! Z.to_nat o = Some key /\ a_digest a = digest_value key.

Lemma batch_records_ok l answers i k buf size p results :
  v_rep offsets l -> Forall2 answers_key (take (length answers) (drop i l)) answers -> length results = length keys ->
  (i + length answers <= length l)%nat ->
  holds buf p (wire_answers answers) -> p + blen (wire_answers answers) <= size -> (length (wire_answers answers) <= fuel)%nat ->
  exists results', placed (take (length answers) (drop i l)) answers results results' /\ length results' = length keys
    /\ batch_loop (length answers + k)%nat buf size p (mk_progress (Z.of_nat i) results)
       = batch_loop k buf size (p + blen (wire_answers answers)) (mk_progress (Z.of_nat (i + length answers)) results').
Proof.
  intros Hv. revert i p results. unfold wire_answers. induction answers as [|a answers IH]; intros i p results Hak Hlen Hi Hh Hsz Hf.
  { exists results. split; [constructor|]. split; [done|]. cbn. by rewrite Z.add_0_r, Nat.add_0_r. }
  cbn [length] in *. rewrite map_cons, join_cons in *. rewrite length_app in Hsz, Hf.
  destruct (lookup_lt_is_Some_2 l i) as [o Eo]; [lia|]. rewrite (drop_S _ _ _ Eo) in *. cbn [take] in *.
  apply Forall2_cons in Hak as [(Ho & Hok & key & Hk & Hd) Hak].
  apply holds_app in Hh as [Hh1 Hh2]. pose proof (wire_answer_length a) as Hwl.
  unfold wire_answer in Hh1. apply holds_app in Hh1 as [Hm Hb]. rewrite msg_wire_length in Hb. change (Z.of_nat 22) with 22 in Hb.
  destruct (lookup_lt_is_Some_2 results (Z.to_nat o)) as [old Eold]; [apply lookup_lt_Some in Hk; lia|].
  cbn [Nat.add batch_records_loop]. destruct (Z.ltb_spec p size); [|lia]. cbn [negb].
  destruct (Hok) as (Hrange & Hlast & _ & _ & _ & Hcases).
  rewrite (load_msg_ok _ _ _ Hrange Hm). cbn [lift ubind].
  assert (negb (result_code (a_msg a) =? 0) && negb (result_code (a_msg a) =? AEROSPIKE_ERR_RECORD_NOT_FOUND) = false) as ->
    by (by destruct Hcases as [[-> _]|[-> _]]).
  rewrite Hlast. cbn [task_index task_results].
  assert (blen l < 2 ^ 32) as Hmax.
  { pose proof (rep_length _ _ Hv). destruct Hv as (_ & ? & _ & ? & ? & _). nia. }
  rewrite (vector_get_ok offsets l) by (done || lia). rewrite Nat2Z.id, Eo. cbn [lift ubind].
  destruct (batch_answer_ok a key o results old buf (p + 22) Hok Hk Eold Ho Hd Hb) as (new & Hnew & ->).
  { rewrite length_app in Hwl. lia. }
  cbn [ubind]. rewrite u32_id by (unfold is_u32; lia).
  replace (p + 22 + _) with (p + blen (wire_answer a)) by lia. replace (Z.of_nat i + 1) with (Z.of_nat (S i)) by lia.
  destruct (IH (S i) (p + blen (wire_answer a)) (<[Z.to_nat o := new]> results) Hak) as (results' & Hpl & Hl' & ->);
    [by rewrite length_insert|lia|done|lia|lia|].
  exists results'. split; [by econstructor|]. split; [done|].
  rewrite length_app. f_equal; [lia|]. f_equal. lia.
Qed.

Lemma batch_group_ok l answers i tail block err results :
  v_rep offsets l -> Forall2 answers_key (take (length answers) (drop i l)) answers -> length results = length keys ->
  (i + length answers <= length l)%nat ->
  blen (wire_answers answers ++ tail) <= INT_MAX -> (length (wire_answers answers) <= fuel)%nat ->
  exists results' k, placed (take (length answers) (drop i l)) answers results results' /\ length results' = length keys
    /\ batch_group (refill block (wire_answers answers ++ tail)) (blen (wire_answers answers ++ tail)) err
         (mk_progress (Z.of_nat i) results)
       = let* (status, task) := batch_loop (S k) (refill block (wire_answers answers ++ tail)) (blen (wire_answers answers ++ tail))
           (blen (wire_answers answers)) (mk_progress (Z.of_nat (i + length answers)) results') in
         URet (status, err, task).
Proof.
  intros Hv Hak Hlen Hi Hmax Hf. set (body := wire_answers answers ++ tail) in *. pose proof (refill_holds block body Hmax) as Hh.
  unfold body in Hh at 2. apply holds_app in Hh as [Hh _]. pose proof (wire_answers_length answers) as Hl.
  assert (blen (wire_answers answers) <= blen body) as Hb by (unfold body; rewrite length_app; lia).
  destruct (batch_records_ok l answers i (S (Z.to_nat (blen body)) - length answers) (refill block body) (blen body) 0 results
    Hv Hak Hlen Hi Hh ltac:(lia) Hf) as (results' & Hp & Hl' & He).
  exists results', (Z.to_nat (blen body) - length answers)%nat. split; [done|]. split; [done|]. unfold as_batch_parse_records.
  replace (length answers + _)%nat with (S (Z.to_nat (blen body))) in He by lia. rewrite He.
  by replace (S (Z.to_nat (blen body)) - length answers)%nat with (S (Z.to_nat (blen body) - length answers)) by lia.
Qed.

(** The message that ends the answer; one with "not found" could be a key's. *)
Definition batch_ending (m : as_msg) : Prop :=
  msg_in_range m /\ 0 <= result_code m /\ (scan_status m = AEROSPIKE_OK -> is_last m = true).

Lemma batch_end_ok k buf size p m task :
  batch_ending m -> holds buf p (msg_wire m) -> p < size ->
  batch_loop (S k) buf size p task
  = URet (if scan_status m =? AEROSPIKE_OK then AEROSPIKE_NO_MORE_RECORDS else scan_status m, task).
Proof.
  intros (Hm & Hc & Hl) Hh Hp. cbn [batch_records_loop]. destruct (Z.ltb_spec p size); [|lia]. cbn [negb].
  rewrite (load_msg_ok _ _ _ Hm Hh). cbn [lift ubind]. unfold scan_status in *.
  destruct (Z.eqb_spec (result_code m) AEROSPIKE_ERR_RECORD_NOT_FOUND) as [->|E2]; [by rewrite Hl|].
  unfold AEROSPIKE_OK in *. destruct (Z.eqb_spec (result_code m) 0) as [E|E]; [by rewrite E, Hl|]. cbn [negb andb].
  done.
Qed.

Lemma placed_app l1 l2 a1 a2 r1 r2 r3 : placed l1 a1 r1 r2 -> placed l2 a2 r2 r3 -> placed (l1 ++ l2) (a1 ++ a2) r1 r3.
Proof. induction 1; [done|]. intros Hp. cbn [app]. econstructor; eauto. Qed.

Lemma batch_groups_ok `{Reader C} l groups final m n i block c c' err results :
  v_rep offsets l -> length results = length keys -> batch_ending m ->
  Forall2 answers_key (drop i l) (mjoin groups ++ final) -> (i <= length l)%nat ->
  streams c (map wire_answers groups ++ [wire_answers final ++ msg_wire m]) c' ->
  Forall (fun g => (length (wire_answers g) <= fuel)%nat) (groups ++ [final]) -> (length groups < n)%nat ->
  exists results', placed (drop i l) (mjoin groups ++ final) results results' /\ length results' = length keys
    /\ parse_groups AEROSPIKE_NO_MORE_RECORDS batch_group set_message n block c err (mk_progress (Z.of_nat i) results)
       = URet (scan_status m, status_error (scan_status m) err, mk_progress (blen l) results', c').
Proof.
  intros Hv Hlen Hend. revert n i block c results Hlen.
  induction groups as [|g groups IH]; intros n i block c results Hlen Hak Hi Hs Hf Hn; destruct n as [|n];
    [cbn in Hn; lia| |cbn in Hn; lia|].
  - cbn [map app] in *. apply Forall_cons in Hf as [Hf _]. change (mjoin [] ++ final) with final in *.
    pose proof (Forall2_length _ _ _ Hak) as Hl. rewrite length_drop in Hl.
    edestruct (groups_step AEROSPIKE_NO_MORE_RECORDS batch_group set_message n block c _ [] c' err (mk_progress (Z.of_nat i) results) Hs) as (c2 & Hs2 & ->).
    inversion Hs2; subst c2. pose proof (streams_size _ _ _ _ Hs) as Hb.
    assert (take (length final) (drop i l) = drop i l) as Ht by (apply take_ge; rewrite length_drop; lia).
    destruct (batch_group_ok l final i (msg_wire m) block err results Hv) as (results' & k & Hp & Hl' & ->);
      [by rewrite Ht|done|lia|lia|done|].
    rewrite Ht in Hp. exists results'. split; [done|]. split; [done|].
    pose proof (refill_holds block _ (proj2 Hb)) as Hh. apply holds_app in Hh as [_ Hh]. rewrite Z.add_0_l in Hh.
    rewrite (batch_end_ok _ _ _ _ m); [|done|done|rewrite length_app, msg_wire_length; lia]. cbn [ubind].
    replace (Z.of_nat (i + length final)) with (blen l) by lia. unfold status_error.
    destruct Hend as (_ & Hc & _). destruct (Z.eqb_spec (scan_status m) AEROSPIKE_OK) as [->|E]; [done|].
    destruct (Z.eqb_spec (scan_status m) AEROSPIKE_OK); [done|]. unfold AEROSPIKE_NO_MORE_RECORDS.
    destruct (Z.eqb_spec (scan_status m) (-3)) as [E3|]; [|done]. unfold scan_status in E3.
    destruct (result_code m =? AEROSPIKE_ERR_RECORD_NOT_FOUND); [done|lia].
  - cbn [map app] in *. apply Forall_cons in Hf as [Hfg Hf]. rewrite join_cons, <- app_assoc in *.
    pose proof (Forall2_length _ _ _ Hak) as Hl. rewrite length_drop, length_app in Hl.
    edestruct (groups_step AEROSPIKE_NO_MORE_RECORDS batch_group set_message n block c _ _ c' err (mk_progress (Z.of_nat i) results) Hs) as (c2 & Hs2 & ->).
    pose proof (streams_size _ _ _ _ Hs) as Hb.
    apply Forall2_app_inv_r in Hak as (l1 & l2 & Hak1 & Hak2 & El).
    pose proof (Forall2_length _ _ _ Hak1) as Hl1.
    assert (take (length g) (drop i l) = l1) as Ht by (by rewrite El, take_app_length' by lia).
    assert (drop (i + length g) l = l2) as Hdr by (by rewrite <- drop_drop, El, drop_app_length' by lia).
    destruct (batch_group_ok l g i [] block err results Hv) as (results' & k & Hp & Hl' & He);
      [by rewrite Ht|done|lia|rewrite app_nil_r; lia|done|].
    rewrite Ht in Hp. rewrite app_nil_r in He. rewrite He. cbn [batch_records_loop]. rewrite Z.ltb_irrefl. cbn [negb ubind].
    rewrite Z.eqb_refl.
    destruct (IH n (i + length g)%nat (refill block (wire_answers g)) c2 results' Hl') as (r2 & Hp2 & Hl2 & He2);
      [by rewrite Hdr|lia|done|done|cbn [length] in Hn; lia|].
    exists r2. split; [|by split]. rewrite El. rewrite Hdr in Hp2. by apply (placed_app l1 l2 g _ _ results').
Qed.

Lemma placed_lookup l answers results results' :
  placed l answers results results' -> NoDup l -> Forall (fun o => 0 <= o) l ->
  (forall i o a, l !! i = Some o -> answers !! i = Some a ->
     exists old new, results !! Z.to_nat o = Some old /\ results' !! Z.to_nat o = Some new /\ answered_as a old new)
  /\ (forall j, Z.of_nat j ∉ l -> results' !! j = results !! j).
Proof.
  induction 1 as [results|o l a answers results old new results' Hold Hnew Hp IH]; intros Hnd Hpos; [by split|].
  apply NoDup_cons in Hnd as [Hno Hnd]. apply Forall_cons in Hpos as [Ho Hpos]. destruct (IH Hnd Hpos) as [IH1 IH2]. split.
  - intros i o' a' Eo Ea. destruct i as [|i]; cbn in Eo, Ea; simplify_eq.
    + exists old, new. split; [done|]. split; [|done]. rewrite IH2 by (by rewrite Z2Nat.id).
      apply list_lookup_insert_eq. by eapply lookup_lt_Some.
    + destruct (IH1 i o' a' Eo Ea) as (old' & new' & Hr & Hr' & Ha). exists old', new'. split; [|done].
      apply list_elem_of_lookup_2 in Eo as Hin. rewrite list_lookup_insert_ne in Hr; [done|].
      intros E. apply Hno. pose proof (proj1 (Forall_forall _ _) Hpos _ Hin) as Hp'. cbv beta in Hp'.
      replace o with o' by lia. done.
  - intros j Hj. apply not_elem_of_cons in Hj as [Hne Hj]. rewrite IH2 by done.
    apply list_lookup_insert_ne. intros E. apply Hne. lia.
Qed.

(** C25: The batch of a node: when the node answers for every key that it was sent, in the order
    in which it was sent them, then each answer is stored at the offset of its key: the
    status, and for a record that was found its generation, time to live and bins.  Nothing
    else is written, all of the answer is read, and the status is that of the last message. *)
Theorem batch_placed `{Reader C} l groups final m n c c' err results :
  v_rep offsets l -> NoDup l -> length results = length keys -> batch_ending m ->
  Forall2 answers_key l (mjoin groups ++ final) ->
  streams c (map wire_answers groups ++ [wire_answers final ++ msg_wire m]) c' ->
  Forall (fun g => (length (wire_answers g) <= fuel)%nat) (groups ++ [final]) -> (length groups < n)%nat ->
  exists results',
    as_batch_parse fuel clepoch uninit_bins offsets keys n c err (mk_progress 0 results)
    = URet (scan_status m, status_error (scan_status m) err, mk_progress (blen l) results', c')
    /\ (forall i o a, l !! i = Some o -> (mjoin groups ++ final) !! i = Some a ->
         exists old new, results !! Z.to_nat o = Some old /\ results' !! Z.to_nat o = Some new /\ answered_as a old new)
    /\ (forall j, Z.of_nat j ∉ l -> results' !! j = results !! j).
Proof.
  intros Hv Hnd Hlen Hend Hak Hs Hf Hn. unfold as_batch_parse.
  destruct (batch_groups_ok l groups final m n 0 [] c c' err results Hv Hlen Hend Hak ltac:(lia) Hs Hf Hn) as (results' & Hp & _ & He).
  exists results'. split; [exact He|]. rewrite drop_0 in Hp. apply (placed_lookup _ _ _ _ Hp Hnd).
  clear -Hak. induction Hak as [|o a l answers Ha Hak IH]; constructor; [apply Ha|done].
Qed.

(** A node may answer for all keys and then report a timeout.  [as_command_execute] tries
    again after that status, but the task still stands behind its last key: the first answer
    of the second attempt reads an offset past the end of a full vector. *)
Theorem batch_retry_overruns `{Reader C} l answers m a more n c c' d d' err err' results :
  v_rep offsets l -> capacity offsets = size offsets -> length results = length keys ->
  Forall2 answers_key l answers -> msg_in_range m -> result_code m = AEROSPIKE_ERR_TIMEOUT ->
  streams c [wire_answers answers ++ msg_wire m] c' -> (length (wire_answers answers) <= fuel)%nat ->
  answer_ok a -> streams d [wire_answer a ++ more] d' ->
  exists results', as_batch_parse fuel clepoch uninit_bins offsets keys (S n) c err (mk_progress 0 results)
      = URet (AEROSPIKE_ERR_TIMEOUT, mk_error AEROSPIKE_ERR_TIMEOUT (MString AEROSPIKE_ERR_TIMEOUT),
              mk_progress (blen l) results', c')
    /\ as_batch_parse fuel clepoch uninit_bins offsets keys (S n) d err' (mk_progress (blen l) results') = UB.
Proof.
  intros Hv Hcap Hlen Hak Hm Hc Hs Hf Hok Hd.
  assert (batch_ending m) as Hend by (unfold batch_ending, scan_status; rewrite Hc; done).
  destruct (batch_groups_ok l [] answers m (S n) 0 [] c c' err results Hv Hlen Hend Hak ltac:(lia) Hs) as (results' & Hp & _ & He);
    [by constructor|cbn; lia|].
  change (Z.of_nat 0) with 0 in He. exists results'. unfold as_batch_parse. split; [rewrite He; unfold scan_status; by rewrite Hc|].
  edestruct (groups_step AEROSPIKE_NO_MORE_RECORDS batch_group set_message n [] d _ [] d' err' (mk_progress (blen l) results') Hd) as (c2 & _ & ->).
  pose proof (streams_size _ _ _ _ Hd) as Hb. unfold as_batch_parse_records. cbn [batch_records_loop].
  destruct (Z.ltb_spec 0 (blen (wire_answer a ++ more))); [|lia]. cbn [negb].
  pose proof (refill_holds [] _ (proj2 Hb)) as Hh. apply holds_app in Hh as [Hh _]. unfold wire_answer in Hh at 2.
  apply holds_app in Hh as [Hh _]. destruct Hok as (Hr & Hlast & _ & _ & _ & Hcases).
  rewrite (load_msg_ok _ _ _ Hr Hh). cbn [lift ubind].
  assert (negb (result_code (a_msg a) =? 0) && negb (result_code (a_msg a) =? AEROSPIKE_ERR_RECORD_NOT_FOUND) = false) as ->
    by (by destruct Hcases as [[-> _]|[-> _]]).
  rewrite Hlast. cbn [task_index]. by rewrite (vector_get_past offsets l).
Qed.
End Placement.
End StreamProofs.

(** ** Examples *)

Definition last_msg (code : Z) : as_msg :=
  {| header_sz := 22; info1 := 0; info2 := 0; info3 := 1; unused := 0; result_code := code;
     generation := 0; record_ttl := 0; transaction_ttl := 0; n_fields := 0; n_ops := 0 |}.

(** The reads of closed groups succeed. *)
Ltac streams_ready :=
  repeat (eapply (streams_cons _ 2 3); [vm_compute; reflexivity|vm_compute; split; [reflexivity|discriminate]
    |eexists; vm_compute; reflexivity|eexists; vm_compute; reflexivity|]); apply streams_nil.

Lemma sample_msg_range code fields ops :
  0 <= fields < 65536 -> 0 <= ops < 65536 -> msg_in_range (sample_msg code fields ops).
Proof. intros Hf Ho. split_and!; unfold is_u32; simpl; lia. Qed.

Definition sample_sent : sent_record := mk_sent (sample_msg 0 3 2) KEY_DIGEST sample_key sample_ops.

Lemma sample_sent_ok : sent_ok sample_sent.
Proof.
  split; [by apply sample_msg_range|]. split_and!; try reflexivity; try done.
  apply sample_ops_storable.
Qed.

(** A program that keeps at most [n] records. *)
Definition keep_records (n : nat) (rec : as_record) (w : list as_record) : bool * list as_record :=
  (bool_decide (S (length w) < n)%nat, w ++ [rec]).
Definition never_failed (w : list as_record) : Z * list as_record := (0, w).

Lemma scan_delivers_witness :
  exists o w' c'' status,
    delivered 400 never_failed (keep_records 2) true [sample_sent; sample_sent] [] o w'
    /\ @as_scan_parse x86_64 200 400 blank_bins _ never_failed (Some (keep_records 2)) true sock (sock_reader 20) 2
         (ready_sock 4 (group 2 3 (wire_records [sample_sent]) ++ group 2 3 (wire_records [sample_sent] ++ msg_wire (last_msg 0)) ++ []))
         no_error []
       = URet (status, status_error status no_error, w', c'')
    /\ match o with All => status = scan_status (last_msg 0) /\ c'' = ready_sock 0 [] | _ => status = AEROSPIKE_OK end.
Proof.
  apply (@scan_delivers x86_64 200 400 blank_bins blank_bins_size _ never_failed (keep_records 2) true sock (sock_reader 20)
           [[sample_sent]] [sample_sent] (last_msg 0) 2 _ (ready_sock 0 []) no_error []).
  - apply Forall_singleton, Forall_singleton, sample_sent_ok.
  - apply Forall_singleton, sample_sent_ok.
  - split_and!; (unfold is_u32; simpl; lia) || done.
  - streams_ready.
  - repeat constructor; vm_compute; lia.
  - simpl; lia.
Defined.

Definition refuse_all (item : query_item) (w : Z) : bool * Z := (false, w + 1).

(** After [n] reads nothing comes before the deadline. *)
Definition late_sock (n : nat) (inc : list Z) : sock :=
  mk_sock 3 true true true inc []
    (repeat {| now := 10; select_rv := 1; fd_isset := true; io := Moved 5000 |} n
     ++ [{| now := 10; select_rv := 0; fd_isset := false; io := Moved 0 |};
         {| now := 30; select_rv := 0; fd_isset := false; io := Moved 0 |}]).

(** The one record is refused; the read of a group that is not there times out. *)
Lemma query_refusal_waits_witness :
  @as_query_parse x86_64 200 400 blank_bins _ (fun w => (0, w)) (Some refuse_all) false sock (sock_reader 20) 2
    (late_sock 2 (group 2 3 (wire_records [sample_sent] ++ msg_wire (last_msg 0)) ++ [])) no_error 0
  = URet (AEROSPIKE_ERR_TIMEOUT, mk_error AEROSPIKE_ERR_TIMEOUT MNone, 1, ready_sock 0 []).
Proof.
  eapply (@query_refusal_waits x86_64 200 400 blank_bins blank_bins_size _ (fun w => (0, w)) refuse_all sock (sock_reader 20)
           [sample_sent] (last_msg 0) 0 _ (late_sock 0 []) (ready_sock 0 []) no_error 0 1).
  - apply Forall_singleton, sample_sent_ok.
  - streams_ready.
  - vm_compute; lia.
  - intros o w2 Hd. inversion Hd as [|? ? ? ? ? ? ? ? _ Hc|? ? ? ? ? _ Hc|? ? ? ? ? ? ? _ Hc]; subst; cbv in Hc; simplify_eq; done.
  - reflexivity.
  - vm_compute. reflexivity.
  - discriminate.
Defined.

Definition one_offset : as_vector Z := mk_vector [Some 0] 1 1 4 0.

Lemma one_offset_rep : v_rep one_offset [0].
Proof. split_and!; try done. by exists []. Qed.

Definition sample_answer : sent_answer := mk_answer (sample_msg 0 1 2) [] (digest_value sample_key) [] sample_ops.

Lemma sample_answers_key : Forall2 (answers_key [sample_key]) [0] [sample_answer].
Proof.
  constructor; [|constructor]. split; [done|]. split; [|by exists sample_key].
  split; [by apply sample_msg_range|]. split_and!; try done. left. split_and!; try done. apply sample_ops_storable.
Qed.

Lemma batch_placed_witness :
  exists results',
    @as_batch_parse x86_64 200 400 blank_bins one_offset [sample_key] sock (sock_reader 20) 1
      (ready_sock 2 (group 2 3 (wire_answers [sample_answer] ++ msg_wire (last_msg 0)) ++ [])) no_error
      (mk_progress 0 [mk_read sample_key 2 None])
    = URet (AEROSPIKE_OK, no_error, mk_progress 1 results', ready_sock 0 [])
    /\ exists new, results' !! 0%nat = Some new /\ answered_as 400 sample_answer (mk_read sample_key 2 None) new.
Proof.
  destruct (@batch_placed x86_64 200 400 blank_bins blank_bins_size one_offset [sample_key] sock (sock_reader 20)
    [0] [] [sample_answer] (last_msg 0) 1
    (ready_sock 2 (group 2 3 (wire_answers [sample_answer] ++ msg_wire (last_msg 0)) ++ [])) (ready_sock 0 []) no_error
    [mk_read sample_key 2 None] one_offset_rep) as (results' & He & Ha & _).
  - apply NoDup_singleton.
  - reflexivity.
  - split_and!; (unfold is_u32; simpl; lia) || done.
  - exact sample_answers_key.
  - streams_ready.
  - repeat constructor; vm_compute; lia.
  - simpl; lia.
  - exists results'. split; [exact He|]. destruct (Ha 0%nat 0 sample_answer eq_refl eq_refl) as (old & new & Ho & Hn & Han).
    exists new. split; [exact Hn|]. cbn in Ho. by injection Ho as <-.
Defined.

Lemma batch_retry_overruns_witness :
  exists results',
    @as_batch_parse x86_64 200 400 blank_bins one_offset [sample_key] sock (sock_reader 20) 1
      (ready_sock 2 (group 2 3 (wire_answers [sample_answer] ++ msg_wire (last_msg 9)) ++ [])) no_error
      (mk_progress 0 [mk_read sample_key 2 None])
    = URet (AEROSPIKE_ERR_TIMEOUT, mk_error AEROSPIKE_ERR_TIMEOUT (MString AEROSPIKE_ERR_TIMEOUT), mk_progress 1 results', ready_sock 0 [])
    /\ @as_batch_parse x86_64 200 400 blank_bins one_offset [sample_key] sock (sock_reader 20) 1
         (ready_sock 2 (group 2 3 (wire_answer sample_answer ++ msg_wire (last_msg 0)) ++ [])) no_error
         (mk_progress 1 results') = UB.
Proof.
  apply (@batch_retry_overruns x86_64 200 400 blank_bins blank_bins_size one_offset [sample_key] sock (sock_reader 20)
    [0] [sample_answer] (last_msg 9) sample_answer (msg_wire (last_msg 0)) 0
    (ready_sock 2 (group 2 3 (wire_answers [sample_answer] ++ msg_wire (last_msg 9)) ++ [])) (ready_sock 0 [])
    (ready_sock 2 (group 2 3 (wire_answer sample_answer ++ msg_wire (last_msg 0)) ++ [])) (ready_sock 0 []) no_error no_error
    [mk_read sample_key 2 None] one_offset_rep).
  - reflexivity.
  - reflexivity.
  - exact sample_answers_key.
  - split_and!; (unfold is_u32; simpl; lia) || done.
  - reflexivity.
  - streams_ready.
  - vm_compute; lia.
  - pose proof sample_answers_key as Hk. inversion Hk as [|? ? ? ? (_ & Hok & _)]; subst. exact Hok.
  - streams_ready.
Defined.
