(* ===== verification/Node.v ===== *)
(** * Nodes and their connections

    Models the memory of a cluster, its nodes and their pools of connections:
    [src/main/aerospike/as_node.c] (but the refreshing of a node, file [Tend]),
    the inline functions of [as_node.h], the functions of [as_socket.c] that create
    sockets, and [as_authenticate] of [as_admin.c].

    The memory is explicit: nodes, arrays of nodes and partition tables live in
    finite maps from addresses, freeing removes them, and an access to what is not
    there is undefined behaviour ([UB]).  Addresses are not used twice.  Vectors are
    the lists of their items (file [Vector]); their allocations succeed.  What the
    operating system answers is the class [Net]; [Deep] stands for an answer that
    does not come.  The functions are computations [M] on this memory; those that
    take a lock-free reference run without interruption. *)

From stdpp Require Export gmap.
From S2P Require Import Prelude ByteOrder Queue Value Msgpack Wire Socket Parse.

Definition AEROSPIKE_ERR_CLUSTER : Z := 11.
Definition AS_NODE_NAME_SIZE : Z := 20.
Definition AS_STACK_BUF_SIZE : Z := 1024 * 16.

(** ** Data *)

(** [sin_port] as the host loads it: in network order. *)
Record sockaddr_in := mk_addr { sin_addr : Z; sin_port : Z }.
Record as_address := mk_address { addr : sockaddr_in; addr_name : list Z }.

(** Without [index], of shared memory, and [cluster], of which there is one.
    [conn_q] is [None] for the NULL of a queue that could not be created. *)
Record as_node := mk_node {
  ref_count : Z;
  partition_generation : Z;
  node_name : list Z;
  address_index : Z;
  addresses : list as_address;
  conn_q : option (cf_queue Z);
  info_fd : Z;
  friends : Z;
  failures : Z;
  active : bool
}.

(** [None] in an array is a slot that was left zero. *)
Record as_nodes := mk_nodes { nodes_refs : Z; nodes_array : list (option Z) }.

Record as_partition := mk_partition { master : option Z; prole : option Z }.
Record as_partition_table := mk_table { table_ns : list Z; partitions : list as_partition }.
Record as_partition_tables := mk_tables { tables_refs : Z; tables_array : list (option Z) }.

(** What waits for the garbage collector, with the function that releases it. *)
Inductive as_gc_item := GcNode (node : Z) | GcNodes (nodes : Z) | GcTables (tables : Z).

Record as_seed := mk_seed { seed_name : list Z; seed_port : Z }.
Record as_addr_map := mk_addr_map { orig : list Z; alt : list Z }.

(** The members of the cluster that its functions use.  There is no shared memory. *)
Record as_cluster := mk_cluster {
  nodes : Z;
  partition_tables : Z;
  gc : list as_gc_item;
  user : option (list Z);
  password : option (list Z);
  seeds : list as_seed;
  ip_map : list as_addr_map;
  conn_timeout_ms : Z;
  node_index : Z;
  n_partitions : Z;
  valid : bool
}.

#[export] Instance sockaddr_in_eq : EqDecision sockaddr_in.
Proof. solve_decision. Defined.

(** ** The operating system

    [os_socket] answers -1 when it fails, [os_fcntl] a negative number; [os_connect]
    and [os_peek] ([recv] with [MSG_PEEK] on eight bytes) answer a result and the
    error of a negative one; [os_setfl] sets the flags it is given and [O_NONBLOCK].
    [os_send] and [os_recv] are [as_socket_write_deadline] and
    [as_socket_read_deadline], [os_stream] what a peer has sent: the laws are the
    ones file [Socket] proves of them.  [queue_env] is what locks and
    allocator answer the next operation on a pool; [has_dontwait] is false on HP-UX
    and PowerPC. *)
Class Net (W : Type) := {
  os_socket : W -> Z * W;
  os_getfl : W -> Z -> Z * W;
  os_setfl : W -> Z -> Z -> Z * W;
  os_connect : W -> Z -> sockaddr_in -> Z * errno * W;
  os_peek : W -> Z -> Z * errno * W;
  os_close : W -> Z -> W;
  os_shutdown : W -> Z -> W;
  os_getms : W -> Z * W;
  os_send : W -> Z -> list Z -> Z -> ures (Z * W);
  os_recv : W -> Z -> Z -> Z -> ures (Z * list Z * W);
  os_stream : W -> Z -> list Z;
  queue_env : W -> qenv;
  has_dontwait : bool;
  inet_ntop : Z -> list Z;
  inet_aton : list Z -> option Z;
  getaddrinfo : W -> list Z -> option (list Z) * W;
  os_send_defined w fd command deadline : os_send w fd command deadline <> UB;
  os_recv_exact w fd n deadline : 0 < n ->
    match os_recv w fd n deadline with
    | URet (st, bs, w') => blen bs = n /\ (st = AEROSPIKE_OK ->
        bs = take (Z.to_nat n) (os_stream w fd) /\ n <= blen (os_stream w fd)
        /\ os_stream w' fd = drop (Z.to_nat n) (os_stream w fd))
    | UB => False
    | Deep => True
    end
}.

(** ** Memory and computations *)

(** [opened] and [closed] record the descriptors that [socket] returned and that were
    given to [close], in order. *)
Record mem (W : Type) := mk_mem {
  m_nodes : gmap Z as_node;
  m_arrays : gmap Z as_nodes;
  m_table : gmap Z as_partition_table;
  m_tables : gmap Z as_partition_tables;
  next : Z;
  allocs : heap;
  cluster : as_cluster;
  randomizer : Z;
  net : W;
  opened : list Z;
  closed : list Z
}.
Arguments mk_mem {W}.
Arguments m_nodes {W}.
Arguments m_arrays {W}.
Arguments m_table {W}.
Arguments m_tables {W}.
Arguments next {W}.
Arguments allocs {W}.
Arguments cluster {W}.
Arguments randomizer {W}.
Arguments net {W}.
Arguments opened {W}.
Arguments closed {W}.

Definition M (W A : Type) : Type := mem W -> ures (A * mem W).
#[export] Instance m_ret W : MRet (M W) := fun A a s => URet (a, s).
#[export] Instance m_bind W : MBind (M W) := fun A B f m s => let* (a, s) := m s in f a s.

Section Memory.
Context {W : Type}.
Implicit Types (s : mem W).

Definition ub {A} : M W A := fun _ => UB.
Definition deep {A} : M W A := fun _ => Deep.
Definition gets {A} (f : mem W -> A) : M W A := fun s => URet (f s, s).
Definition modify (f : mem W -> mem W) : M W unit := fun s => URet (tt, f s).
(** An access that may be undefined. *)
Definition access {A} (f : mem W -> option A) : M W A := fun s => let* a := lift (f s) in URet (a, s).

Definition set_nodes_map (f : gmap Z as_node -> gmap Z as_node) s : mem W :=
  mk_mem (f (m_nodes s)) (m_arrays s) (m_table s) (m_tables s) (next s) (allocs s) (cluster s) (randomizer s)
    (net s) (opened s) (closed s).
Definition set_arrays (f : gmap Z as_nodes -> gmap Z as_nodes) s : mem W :=
  mk_mem (m_nodes s) (f (m_arrays s)) (m_table s) (m_tables s) (next s) (allocs s) (cluster s) (randomizer s)
    (net s) (opened s) (closed s).
Definition set_table (f : gmap Z as_partition_table -> gmap Z as_partition_table) s : mem W :=
  mk_mem (m_nodes s) (m_arrays s) (f (m_table s)) (m_tables s) (next s) (allocs s) (cluster s) (randomizer s)
    (net s) (opened s) (closed s).
Definition set_tables (f : gmap Z as_partition_tables -> gmap Z as_partition_tables) s : mem W :=
  mk_mem (m_nodes s) (m_arrays s) (m_table s) (f (m_tables s)) (next s) (allocs s) (cluster s) (randomizer s)
    (net s) (opened s) (closed s).
Definition set_next (n : Z) s : mem W :=
  mk_mem (m_nodes s) (m_arrays s) (m_table s) (m_tables s) n (allocs s) (cluster s) (randomizer s)
    (net s) (opened s) (closed s).
Definition set_allocs (h : heap) s : mem W :=
  mk_mem (m_nodes s) (m_arrays s) (m_table s) (m_tables s) (next s) h (cluster s) (randomizer s)
    (net s) (opened s) (closed s).
Definition set_cluster (f : as_cluster -> as_cluster) s : mem W :=
  mk_mem (m_nodes s) (m_arrays s) (m_table s) (m_tables s) (next s) (allocs s) (f (cluster s)) (randomizer s)
    (net s) (opened s) (closed s).
Definition set_randomizer (r : Z) s : mem W :=
  mk_mem (m_nodes s) (m_arrays s) (m_table s) (m_tables s) (next s) (allocs s) (cluster s) r
    (net s) (opened s) (closed s).
Definition set_net (w : W) s : mem W :=
  mk_mem (m_nodes s) (m_arrays s) (m_table s) (m_tables s) (next s) (allocs s) (cluster s) (randomizer s)
    w (opened s) (closed s).
Definition log_opened (fd : Z) s : mem W :=
  mk_mem (m_nodes s) (m_arrays s) (m_table s) (m_tables s) (next s) (allocs s) (cluster s) (randomizer s)
    (net s) (opened s ++ [fd]) (closed s).
Definition log_closed (fd : Z) s : mem W :=
  mk_mem (m_nodes s) (m_arrays s) (m_table s) (m_tables s) (next s) (allocs s) (cluster s) (randomizer s)
    (net s) (opened s) (closed s ++ [fd]).

(** A call of the operating system. *)
Definition os {A} (f : W -> A * W) : M W A := fun s => let '(a, w) := f (net s) in URet (a, set_net w s).
Definition os_u {A} (f : W -> ures (A * W)) : M W A := fun s => let* (a, w) := f (net s) in URet (a, set_net w s).

Definition malloc : M W bool := fun s => let '(ok, h) := cf_malloc (allocs s) in URet (ok, set_allocs h s).
(** An address that was never used. *)
Definition fresh_ptr : M W Z := fun s => URet (next s, set_next (next s + 1) s).

(** [node->...], read and written. *)
Definition node_at (n : Z) : M W as_node := access (fun s => m_nodes s !! n).
Definition on_node (n : Z) (f : as_node -> as_node) : M W unit :=
  node ← node_at n; modify (set_nodes_map <[n := f node]>).
Definition cluster_of {A} (f : as_cluster -> A) : M W A := gets (fun s => f (cluster s)).
End Memory.

Definition set_ref_count (r : Z) (n : as_node) : as_node :=
  mk_node r (partition_generation n) (node_name n) (address_index n) (addresses n) (conn_q n) (info_fd n)
    (friends n) (failures n) (active n).
Definition set_generation (g : Z) (n : as_node) : as_node :=
  mk_node (ref_count n) g (node_name n) (address_index n) (addresses n) (conn_q n) (info_fd n)
    (friends n) (failures n) (active n).
Definition set_addresses (i : Z) (l : list as_address) (n : as_node) : as_node :=
  mk_node (ref_count n) (partition_generation n) (node_name n) i l (conn_q n) (info_fd n)
    (friends n) (failures n) (active n).
Definition set_conn_q (q : cf_queue Z) (n : as_node) : as_node :=
  mk_node (ref_count n) (partition_generation n) (node_name n) (address_index n) (addresses n) (Some q) (info_fd n)
    (friends n) (failures n) (active n).
Definition set_info_fd (fd : Z) (n : as_node) : as_node :=
  mk_node (ref_count n) (partition_generation n) (node_name n) (address_index n) (addresses n) (conn_q n) fd
    (friends n) (failures n) (active n).
Definition set_friends (k : Z) (n : as_node) : as_node :=
  mk_node (ref_count n) (partition_generation n) (node_name n) (address_index n) (addresses n) (conn_q n) (info_fd n)
    k (failures n) (active n).
Definition set_failures (k : Z) (n : as_node) : as_node :=
  mk_node (ref_count n) (partition_generation n) (node_name n) (address_index n) (addresses n) (conn_q n) (info_fd n)
    (friends n) k (active n).
Definition set_active (b : bool) (n : as_node) : as_node :=
  mk_node (ref_count n) (partition_generation n) (node_name n) (address_index n) (addresses n) (conn_q n) (info_fd n)
    (friends n) (failures n) b.

(** ** Sockets *)

Section Sockets.
Context `{Platform} `{Net W}.

Definition as_close (fd : Z) : M W unit := fun s => URet (tt, log_closed fd (set_net (os_close (net s) fd) s)).

(** The status, and what is stored through [fd]: [None] leaves it as it was. *)
Definition as_socket_create_nb : M W (Z * option Z) :=
  sock ← os os_socket;
  if sock =? -1 then mret (AEROSPIKE_ERR_CLIENT, None)
  else
    _ ← modify (log_opened sock);
    flags ← os (fun w => os_getfl w sock);
    if flags <? 0 then _ ← as_close sock; mret (AEROSPIKE_ERR_CLIENT, None)
    else
      rv ← os (fun w => os_setfl w sock flags);
      if rv <? 0 then _ ← as_close sock; mret (AEROSPIKE_ERR_CLIENT, None)
      else mret (AEROSPIKE_OK, Some sock).

Definition as_socket_start_connect_nb (fd : Z) (sa : sockaddr_in) : M W Z :=
  '(rv, e) ← os (fun w => os_connect w fd sa);
  mret (if rv =? 0 then AEROSPIKE_OK else match e with EINPROGRESS => AEROSPIKE_OK | _ => AEROSPIKE_ERR_CLIENT end).

Definition as_socket_create_and_connect_nb (sa : sockaddr_in) : M W (Z * option Z) :=
  '(status, fd) ← as_socket_create_nb;
  match fd with
  | None => mret (status, fd)
  | Some sock =>
      status ← as_socket_start_connect_nb sock sa;
      if negb (status =? 0) then _ ← as_close sock; mret (status, fd) else mret (AEROSPIKE_OK, fd)
  end.

Definition deadline_of (timeout_ms : Z) : M W Z :=
  if negb (timeout_ms =? 0) && (timeout_ms <=? 2 ^ 31 - 1)
  then ms ← os os_getms; mret (as_socket_deadline ms timeout_ms) else mret 0.

(** ** Authentication *)

Definition HEADER_REMAINING : Z := 16.
Definition HEADER_SIZE : Z := 24.
Definition FIELD_HEADER_SIZE : Z := 5.
Definition RESULT_CODE : Z := 9.

Definition as_admin_write_header (buf : list Z) (p command field_count : Z) : option (list Z * Z) :=
  buf ← mwrite buf p (replicate 16 0);
  buf ← mwrite buf (p + 2) [u8 command];
  buf ← mwrite buf (p + 3) [u8 field_count];
  Some (buf, p + HEADER_REMAINING).

Definition as_admin_write_field_header (buf : list Z) (p id size : Z) : option (list Z * Z) :=
  buf ← mwrite buf p (put_be32 host_endian (i32 (size + 1)));
  buf ← mwrite buf (p + 4) [u8 id];
  Some (buf, p + 5).

(** The string is copied up to its end; [None] for a NULL pointer. *)
Definition as_admin_write_field_string (buf : list Z) (p id : Z) (val : option (list Z)) : option (list Z * Z) :=
  v ← val;
  buf ← mwrite buf (p + FIELD_HEADER_SIZE) v;
  '(buf, _) ← as_admin_write_field_header buf p id (blen v);
  Some (buf, p + FIELD_HEADER_SIZE + blen v).

(** The message in the buffer, with its first eight bytes. *)
Definition admin_frame (buffer : list Z) (end_ : Z) : option (list Z) :=
  let proto := Z.lor (Z.lor (u64 (end_ - 8)) (Z.shiftl 0 56)) (Z.shiftl 2 48) in
  buffer ← mwrite buffer 0 (put_be64 host_endian proto); mslice buffer 0 end_.

Definition as_admin_send (fd : Z) (buffer : list Z) (end_ deadline_ms : Z) : M W Z :=
  cmd ← access (fun _ => admin_frame buffer end_);
  os_u (fun w => os_send w fd cmd deadline_ms).

(** [stack] is the buffer on the stack, with what was there. *)
Definition as_authenticate (stack : list Z) (fd : Z) (user credential : option (list Z)) (deadline_ms : Z) : M W Z :=
  '(buffer, p) ← access (fun _ =>
    '(buffer, p) ← as_admin_write_header stack 8 0 2;
    '(buffer, p) ← as_admin_write_field_string buffer p 0 user;
    as_admin_write_field_string buffer p 3 credential);
  status ← as_admin_send fd buffer p deadline_ms;
  if negb (status =? 0) then mret status
  else
    '(status, bytes) ← os_u (fun w => os_recv w fd HEADER_SIZE deadline_ms);
    if negb (status =? 0) then mret status
    else access (fun _ => mread bytes RESULT_CODE).

End Sockets.

(** ** Nodes *)

Section Nodes.
Context `{Platform} `{Net W} (stack : list Z).

Definition as_node_deactivate (n : Z) : M W unit := on_node n (set_active false).
Definition as_node_reserve (n : Z) : M W unit := on_node n (fun node => set_ref_count (u32 (ref_count node + 1)) node).

(** [cf_queue_pop(node->conn_q, &fd, CF_QUEUE_NOWAIT)]. *)
Definition pop_connection (n : Z) : M W (Z * option Z) :=
  node ← node_at n;
  match conn_q node with
  | None => mret (-1, None)
  | Some q =>
      e ← gets (fun s => queue_env (net s));
      r ← access (fun _ => cf_queue_pop e q CF_QUEUE_NOWAIT []);
      match r with
      | PopBlocked => deep
      | PopRet rc fd q => _ ← on_node n (set_conn_q q); mret (rc, fd)
      end
  end.

(** More than the pool holds: every pop of the loops below removes a descriptor. *)
Definition pool_fuel (n : Z) : M W nat :=
  node ← node_at n; mret (match conn_q node with Some q => S (Z.to_nat (CF_Q_SZ q)) | None => 1%nat end).

Fixpoint drain_loop (fuel : nat) (n : Z) : M W unit :=
  match fuel with
  | O => deep
  | S fuel =>
      '(rv, fd) ← pop_connection n;
      if rv =? CF_QUEUE_OK then
        fd ← access (fun _ => fd); _ ← as_close fd; drain_loop fuel n
      else mret tt
  end.

Definition as_node_destroy (n : Z) : M W unit :=
  fuel ← pool_fuel n;
  _ ← drain_loop fuel n;
  node ← node_at n;
  _ ← (if 0 <=? info_fd node then as_close (info_fd node) else mret tt);
  modify (set_nodes_map (delete n)).

Definition as_node_release (n : Z) : M W unit :=
  _ ← on_node n (fun node => set_ref_count (u32 (ref_count node - 1)) node);
  node ← node_at n;
  if ref_count node =? 0 then as_node_destroy n else mret tt.

Definition as_node_add_address (n : Z) (sa : sockaddr_in) : M W unit :=
  on_node n (fun node =>
    set_addresses (address_index node) (addresses node ++ [mk_address sa (inet_ntop (sin_addr sa))]) node).

Definition as_node_get_address_full (n : Z) : M W as_address :=
  node ← node_at n; access (fun _ => aget (addresses node) (address_index node)).

(** [None]: no memory.  The queue takes two allocations; its locks can be had. *)
Definition as_node_create (name : list Z) (sa : sockaddr_in) : M W (option Z) :=
  ok ← malloc;
  if negb ok then mret None
  else if AS_NODE_NAME_SIZE <=? blen name then ub
  else
    n ← fresh_ptr;
    ok1 ← malloc;
    ok2 ← (if ok1 : bool then malloc else mret true);
    let node := mk_node 1 0xFFFFFFFF name 0 [] (cf_queue_create [ok1; ok2] (true, true) true) (-1) 0 0 true in
    _ ← modify (set_nodes_map <[n := node]>);
    _ ← as_node_add_address n sa;
    mret (Some n).

(** ** Connections *)

Definition CONNECTED : Z := 0.
Definition CONNECTED_NOT : Z := 1.
Definition CONNECTED_ERROR : Z := 2.
Definition CONNECTED_BADFD : Z := 3.

Definition is_connected (fd : Z) : M W Z :=
  _ ← (if has_dontwait then mret 0 else os (fun w => os_setfl w fd 0));
  '(rv, e) ← os (fun w => os_peek w fd);
  mret (if rv =? 0 then CONNECTED_NOT
        else if rv <? 0 then
          match e with
          | EBADF => CONNECTED_BADFD
          | EWOULDBLOCK | EAGAIN => CONNECTED
          | _ => CONNECTED_ERROR
          end
        else CONNECTED).

(** The status and [*fd]. *)
Definition as_node_authenticate_connection (n fd : Z) : M W (Z * Z) :=
  user ← cluster_of user;
  match user with
  | None => mret (AEROSPIKE_OK, fd)
  | Some _ =>
      timeout ← cluster_of conn_timeout_ms;
      deadline_ms ← deadline_of timeout;
      password ← cluster_of password;
      status ← as_authenticate stack fd user password deadline_ms;
      if negb (status =? 0) then _ ← as_close fd; mret (status, -1) else mret (AEROSPIKE_OK, fd)
  end.

(** [for (i = 0; i < addresses->size; i++)] over the addresses that are not the primary. *)
Fixpoint connect_loop (n fd primary : Z) (i : Z) (l : list as_address) : M W (Z * Z) :=
  match l with
  | [] => _ ← as_close fd; mret (AEROSPIKE_ERR_CLUSTER, -1)
  | address :: l =>
      if i =? primary then connect_loop n fd primary (i + 1) l
      else
        status ← as_socket_start_connect_nb fd (addr address);
        if status =? AEROSPIKE_OK then
          _ ← on_node n (fun node => set_addresses i (addresses node) node);
          as_node_authenticate_connection n fd
        else connect_loop n fd primary (i + 1) l
  end.

(** [fd0] is what [*fd] held before. *)
Definition as_node_create_connection (n fd0 : Z) : M W (Z * Z) :=
  '(status, fd) ← as_socket_create_nb;
  match fd with
  | None => mret (AEROSPIKE_ERR_CLIENT, fd0)
  | Some fd =>
      node ← node_at n;
      primary ← access (fun _ => aget (addresses node) (address_index node));
      status ← as_socket_start_connect_nb fd (addr primary);
      if status =? AEROSPIKE_OK then as_node_authenticate_connection n fd
      else connect_loop n fd (address_index node) 0 (addresses node)
  end.

Fixpoint get_connection_loop (fuel : nat) (n fd0 : Z) : M W (Z * Z) :=
  match fuel with
  | O => deep
  | S fuel =>
      '(rv, fd) ← pop_connection n;
      if rv =? CF_QUEUE_OK then
        fd ← access (fun _ => fd);
        rv2 ← is_connected fd;
        if rv2 =? CONNECTED then mret (0, fd)
        else if rv2 =? CONNECTED_BADFD then get_connection_loop fuel n fd
        else _ ← as_close fd; get_connection_loop fuel n fd
      else if rv =? CF_QUEUE_EMPTY then as_node_create_connection n fd0
      else mret (AEROSPIKE_ERR_CLIENT, -1)
  end.

Definition as_node_get_connection (n fd0 : Z) : M W (Z * Z) :=
  fuel ← pool_fuel n; get_connection_loop fuel n fd0.

Definition as_node_put_connection (n fd : Z) : M W unit :=
  node ← node_at n;
  e ← gets (fun s => queue_env (net s));
  '(pushed, q) ← access (fun _ => q ← conn_q node; cf_queue_push_limit e q fd 300);
  _ ← on_node n (set_conn_q q);
  if pushed : bool then mret tt else as_close fd.

Definition as_node_get_info_connection (n : Z) : M W Z :=
  node ← node_at n;
  if info_fd node <? 0 then
    '(status, fd) ← as_node_create_connection n (info_fd node);
    _ ← on_node n (set_info_fd fd);
    mret status
  else mret 0.

Definition as_node_close_info_connection (n : Z) : M W unit :=
  node ← node_at n;
  _ ← modify (fun s => set_net (os_shutdown (net s) (info_fd node)) s);
  _ ← as_close (info_fd node);
  on_node n (set_info_fd (-1)).

End Nodes.

(** ** Reasoning about computations *)

Section Logic.
Context `{Net W}.
Implicit Types (s : mem W).

(** Every request to send or to receive comes to an end. *)
Definition net_answers : Prop :=
  (forall w fd command deadline, os_send w fd command deadline <> Deep)
  /\ (forall w fd n deadline, os_recv w fd n deadline <> Deep).

(** [m] returns from [s] with a result and a memory that satisfy [Q]. *)
Definition wp {A} (m : M W A) (Q : A -> mem W -> Prop) s : Prop :=
  match m s with URet (a, s') => Q a s' | UB | Deep => False end.
(** The same, but [m] may wait forever for an answer of the network. *)
Definition wlp {A} (m : M W A) (Q : A -> mem W -> Prop) s : Prop :=
  match m s with URet (a, s') => Q a s' | UB => False | Deep => ~ net_answers end.

Lemma wp_bind {A B} (m : M W A) (f : A -> M W B) Q s :
  wp m (fun a => wp (f a) Q) s -> wp (m ≫= f) Q s.
Proof. unfold wp, mbind, m_bind. by destruct (m s) as [[a s']| |]. Qed.

Lemma wlp_bind {A B} (m : M W A) (f : A -> M W B) Q s :
  wlp m (fun a => wlp (f a) Q) s -> wlp (m ≫= f) Q s.
Proof. unfold wlp, mbind, m_bind. by destruct (m s) as [[a s']| |]. Qed.

Lemma wp_ret {A} (a : A) (Q : A -> mem W -> Prop) s : Q a s -> wp (mret a) Q s.
Proof. done. Qed.
Lemma wlp_ret {A} (a : A) (Q : A -> mem W -> Prop) s : Q a s -> wlp (mret a) Q s.
Proof. done. Qed.

Lemma wp_mono {A} (m : M W A) (P Q : A -> mem W -> Prop) s :
  wp m P s -> (forall a s', P a s' -> Q a s') -> wp m Q s.
Proof. unfold wp. destruct (m s) as [[a s']| |]; auto. Qed.
Lemma wlp_mono {A} (m : M W A) (P Q : A -> mem W -> Prop) s :
  wlp m P s -> (forall a s', P a s' -> Q a s') -> wlp m Q s.
Proof. unfold wlp. destruct (m s) as [[a s']| |]; auto. Qed.

Lemma wp_wlp {A} (m : M W A) Q s : wp m Q s -> wlp m Q s.
Proof. unfold wp, wlp. by destruct (m s) as [[a s']| |]. Qed.

Lemma wlp_answers {A} (m : M W A) Q s : wlp m Q s -> net_answers -> wp m Q s.
Proof. unfold wp, wlp. by destruct (m s) as [[a s']| |]. Qed.

Lemma wp_elim {A} (m : M W A) Q s : wp m Q s -> exists a s', m s = URet (a, s') /\ Q a s'.
Proof. unfold wp. destruct (m s) as [[a s']| |]; [|done..]. eauto. Qed.

Lemma bind_ret_eq {A B} (m : M W A) (f : A -> M W B) s a s' :
  m s = URet (a, s') -> (m ≫= f) s = f a s'.
Proof. unfold mbind, m_bind. by intros ->. Qed.

Lemma bind_inv {A B} (m : M W A) (k : A -> M W B) s r :
  (m ≫= k) s = URet r -> exists a s1, m s = URet (a, s1) /\ k a s1 = URet r.
Proof. unfold mbind, m_bind. destruct (m s) as [[a s1]| |]; [|done|done]. intros Hk. by exists a, s1. Qed.

Lemma node_at_eq s n node : m_nodes s !! n = Some node -> node_at n s = URet (node, s).
Proof. unfold node_at, access. by intros ->. Qed.

Lemma on_node_eq s n node f :
  m_nodes s !! n = Some node -> on_node n f s = URet (tt, set_nodes_map <[n := f node]> s).
Proof. intros Hn. unfold on_node. by rewrite (bind_ret_eq _ _ _ _ _ (node_at_eq _ _ _ Hn)). Qed.

(** The first step of a computation. *)
Lemma bind_ret {A B} (a : A) (k : A -> M W B) s : (mret a ≫= k) s = k a s.
Proof. done. Qed.
Lemma bind_gets {A B} (f : mem W -> A) (k : A -> M W B) s : (gets f ≫= k) s = k (f s) s.
Proof. done. Qed.
Lemma bind_cluster_of {A B} (f : as_cluster -> A) (k : A -> M W B) s : (cluster_of f ≫= k) s = k (f (cluster s)) s.
Proof. done. Qed.
Lemma bind_modify {B} f (k : unit -> M W B) s : (modify f ≫= k) s = k tt (f s).
Proof. done. Qed.
Lemma bind_assoc {A B C} (m : M W A) (f : A -> M W B) (g : B -> M W C) s :
  ((m ≫= f) ≫= g) s = (m ≫= fun a => f a ≫= g) s.
Proof. unfold mbind, m_bind. by destruct (m s) as [[a s']| |]. Qed.
Lemma bind_access {A B} (f : mem W -> option A) (k : A -> M W B) s a :
  f s = Some a -> (access f ≫= k) s = k a s.
Proof. unfold mbind, m_bind, access. by intros ->. Qed.
Lemma bind_node_at {B} (k : as_node -> M W B) s n node :
  m_nodes s !! n = Some node -> (node_at n ≫= k) s = k node s.
Proof. apply (bind_access (fun s => m_nodes s !! n)). Qed.
Lemma bind_on_node {B} f (k : unit -> M W B) s n node :
  m_nodes s !! n = Some node -> (on_node n f ≫= k) s = k tt (set_nodes_map <[n := f node]> s).
Proof. intros Hn. by rewrite (bind_ret_eq _ _ _ _ _ (on_node_eq _ _ _ f Hn)). Qed.
Lemma bind_os {A B} (f : W -> A * W) (k : A -> M W B) s :
  (os f ≫= k) s = let '(a, w) := f (net s) in k a (set_net w s).
Proof. unfold mbind, m_bind, os. by destruct (f (net s)). Qed.
End Logic.

(** ** The pool of a node *)

Section Pool.
Context `{Platform} `{Net W} (stack : list Z).
Context (locks_work : forall w, queue_env w = qenv_ok).
Implicit Types (s : mem W).

(** The node at [n], with the descriptors [l] in its pool. *)
Definition pooled s (n : Z) (node : as_node) (l : list Z) : Prop :=
  m_nodes s !! n = Some node /\ exists q, conn_q node = Some q /\ q_rep q l.

(** The descriptors [l] are closed in order. *)
Definition closing (l : list Z) s : mem W :=
  mk_mem (m_nodes s) (m_arrays s) (m_table s) (m_tables s) (next s) (allocs s) (cluster s) (randomizer s)
    (fold_left os_close l (net s)) (opened s) (closed s ++ l).

Lemma pop_connection_ok s n node x l :
  pooled s n node (x :: l) ->
  exists q, q_rep q l /\ pop_connection n s = URet ((0, Some x), set_nodes_map <[n := set_conn_q q node]> s).
Proof.
  intros (Hn & q & Hq & Hr). unfold pop_connection. rewrite (bind_node_at _ _ _ _ Hn), Hq, bind_gets, locks_work.
  destruct (pop_ok qenv_ok q x l CF_QUEUE_NOWAIT [] Hr) as (q' & Hp & Hr'); [apply no_failures|].
  rewrite (bind_access _ _ _ _ Hp), (proj2 (no_failures q)), (bind_on_node _ _ _ _ _ Hn). by exists q'.
Qed.

Lemma pop_connection_empty s n node :
  pooled s n node [] ->
  exists q, q_rep q [] /\ pop_connection n s = URet ((CF_QUEUE_EMPTY, None), set_nodes_map <[n := set_conn_q q node]> s).
Proof.
  intros (Hn & q & Hq & Hr). unfold pop_connection. rewrite (bind_node_at _ _ _ _ Hn), Hq, bind_gets, locks_work.
  pose proof (pop_nowait_empty qenv_ok q Hr (proj1 (no_failures q))) as Hp.
  rewrite (bind_access _ _ _ _ Hp), (bind_on_node _ _ _ _ _ Hn). by exists q.
Qed.

Lemma pooled_set s n node q l : q_rep q l -> pooled (set_nodes_map <[n := set_conn_q q node]> s) n (set_conn_q q node) l.
Proof. intros Hq. split; [apply lookup_insert_eq|]. by exists q. Qed.

Lemma pool_fuel_eq s n node l : pooled s n node l -> pool_fuel n s = URet (S (length l), s).
Proof.
  intros (Hn & q & Hq & Hr). unfold pool_fuel. rewrite (bind_node_at _ _ _ _ Hn), Hq.
  rewrite (q_sz q l) by apply Hr. by rewrite Nat2Z.id.
Qed.

Lemma drain_loop_ok s n node l :
  pooled s n node l ->
  exists q, drain_loop (S (length l)) n s = URet (tt, set_nodes_map <[n := set_conn_q q node]> (closing l s)).
Proof.
  revert s node. induction l as [|x l IH]; intros s node Hp.
  - destruct (pop_connection_empty s n node Hp) as (q & _ & He). exists q. cbn [drain_loop length].
    rewrite (bind_ret_eq _ _ _ _ _ He). cbn. unfold closing. cbn. by rewrite app_nil_r.
  - destruct (pop_connection_ok s n node x l Hp) as (q & Hq & He).
    cbn [length]. remember (S (length l)) as fuel eqn:Ef. cbn [drain_loop].
    rewrite (bind_ret_eq _ _ _ _ _ He). cbn [Z.eqb CF_QUEUE_OK].
    rewrite (bind_access _ _ _ x) by done.
    rewrite (bind_ret_eq _ _ _ _ _ eq_refl).
    destruct (IH (log_closed x (set_net (os_close (net s) x) (set_nodes_map <[n := set_conn_q q node]> s))) (set_conn_q q node))
      as (q' & Hd). { by apply pooled_set. }
    exists q'. etransitivity; [exact Hd|]. unfold closing, set_nodes_map. cbn.
    rewrite insert_insert_eq, <- app_assoc. done.
Qed.

(** Freeing a node closes its pool and its info connection. *)
Definition last_fds (node : as_node) (l : list Z) : list Z := l ++ (if 0 <=? info_fd node then [info_fd node] else []).

Lemma node_destroy_ok s n node l :
  pooled s n node l ->
  as_node_destroy n s = URet (tt, set_nodes_map (delete n) (closing (last_fds node l) s)).
Proof.
  intros Hp. unfold as_node_destroy. rewrite (bind_ret_eq _ _ _ _ _ (pool_fuel_eq s n node l Hp)).
  destruct (drain_loop_ok s n node l Hp) as (q & Hd). rewrite (bind_ret_eq _ _ _ _ _ Hd).
  rewrite (bind_node_at _ _ _ (set_conn_q q node)) by apply lookup_insert_eq.
  cbn [info_fd set_conn_q]. unfold last_fds. case_if.
  - rewrite (bind_ret_eq _ _ _ _ _ eq_refl). unfold modify, closing, set_nodes_map. cbn.
    by rewrite fold_left_app, delete_insert_eq, app_assoc.
  - rewrite (bind_ret_eq _ _ _ _ _ eq_refl). unfold modify, closing, set_nodes_map. cbn.
    by rewrite delete_insert_eq, app_nil_r.
Qed.

(** *** New connections *)

(** The credentials fit into the buffer of [as_authenticate]. *)
Definition auth_ok (c : as_cluster) : Prop :=
  blen stack = AS_STACK_BUF_SIZE
  /\ match user c with
     | None => True
     | Some u => exists p, password c = Some p /\ 34 + blen u + blen p <= AS_STACK_BUF_SIZE
     end.

Lemma field_string_ok buf p id v :
  0 <= p -> p + 5 + blen v <= blen buf ->
  exists buf', as_admin_write_field_string buf p id (Some v) = Some (buf', p + 5 + blen v) /\ blen buf' = blen buf.
Proof.
  intros Hp Hl. unfold as_admin_write_field_string, as_admin_write_field_header, FIELD_HEADER_SIZE.
  cbn [mbind option_bind].
  destruct (mwrite_fits buf (p + 5) v) as (b1 & -> & L1); [lia..|]. cbn [mbind option_bind].
  destruct (mwrite_fits b1 p (put_be32 host_endian (i32 (blen v + 1)))) as (b2 & -> & L2);
    [lia|rewrite put_be32_eq, be_bytes_length; lia|]. cbn [mbind option_bind].
  destruct (mwrite_fits b2 (p + 4) [u8 id]) as (b3 & -> & L3); [lia|simpl; lia|]. cbn [mbind option_bind].
  exists b3. split; [done|lia].
Qed.

Lemma authenticate_ok s fd u p deadline Q :
  blen stack = AS_STACK_BUF_SIZE -> 34 + blen u + blen p <= AS_STACK_BUF_SIZE ->
  (forall st w, Q st (set_net w s)) ->
  wlp (as_authenticate stack fd (Some u) (Some p) deadline) Q s.
Proof.
  intros Hs Hl HQ. unfold AS_STACK_BUF_SIZE in *. apply wlp_bind. unfold wlp at 1. unfold access at 1, as_admin_write_header.
  destruct (mwrite_fits stack 8 (replicate 16 0)) as (b1 & -> & L1); [lia|rewrite length_replicate; lia|].
  cbn [mbind option_bind]. destruct (mwrite_fits b1 (8 + 2) [u8 0]) as (b2 & -> & L2); [lia|simpl; lia|].
  cbn [mbind option_bind]. destruct (mwrite_fits b2 (8 + 3) [u8 2]) as (b3 & -> & L3); [lia|simpl; lia|].
  cbn [mbind option_bind]. unfold HEADER_REMAINING.
  destruct (field_string_ok b3 (8 + 16) 0 u) as (b4 & -> & L4); [lia..|]. cbn [mbind option_bind].
  destruct (field_string_ok b4 (8 + 16 + 5 + blen u) 3 p) as (b5 & -> & L5); [lia..|]. cbn [lift ubind].
  apply wlp_bind. unfold as_admin_send, admin_frame. apply wlp_bind. unfold wlp at 1, access at 1.
  destruct (mwrite_fits b5 0 (put_be64 host_endian
    (Z.lor (Z.lor (u64 (8 + 16 + 5 + blen u + 5 + blen p - 8)) (Z.shiftl 0 56)) (Z.shiftl 2 48)))) as (b6 & -> & L6);
    [lia|rewrite put_be64_eq, be_bytes_length; lia|].
  cbn [mbind option_bind]. unfold mslice. rewrite decide_True by lia. cbn [lift ubind].
  unfold wlp, os_u at 1. pose proof (os_send_defined (net s) fd
    (take (Z.to_nat (8 + 16 + 5 + blen u + 5 + blen p)) (drop (Z.to_nat 0) b6)) deadline) as Hd.
  destruct (os_send _ _ _ _) as [[st w]| |] eqn:Es; [|done|by intros [Hsend _]; apply Hsend in Es].
  cbn [ubind]. case_if; [apply HQ|].
  unfold os_u, mbind, m_bind. cbn [net set_net]. pose proof (os_recv_exact w fd HEADER_SIZE deadline ltac:(unfold HEADER_SIZE; lia)) as Hr.
  destruct (os_recv w fd HEADER_SIZE deadline) as [[[st2 bs] w2]| |] eqn:Er;
    [|done|by intros [_ Hrecv]; apply Hrecv in Er]. cbn [ubind].
  case_if; [apply HQ|]. unfold access. destruct Hr as [Hr _].
  destruct (mread_is_Some bs RESULT_CODE) as [c ->]; [rewrite Hr; unfold HEADER_SIZE, RESULT_CODE; lia|]. apply HQ.
Qed.

(** [s] after an attempt to connect the node: another primary address, another state
    of the operating system, descriptors opened and closed. *)
Definition connecting (n : Z) (node : as_node) (i : Z) (w : W) (o c : list Z) s : mem W :=
  mk_mem (<[n := set_addresses i (addresses node) node]> (m_nodes s)) (m_arrays s) (m_table s) (m_tables s) (next s)
    (allocs s) (cluster s) (randomizer s) w (opened s ++ o) (closed s ++ c).

Lemma connecting_same s n node :
  m_nodes s !! n = Some node -> s = connecting n node (address_index node) (net s) [] [] s.
Proof.
  intros Hn. unfold connecting. rewrite !app_nil_r. replace (set_addresses _ _ node) with node by (by destruct node).
  rewrite insert_id by done. by destruct s.
Qed.

Lemma authenticate_connection_ok s n fd Q :
  auth_ok (cluster s) -> (forall w, Q (AEROSPIKE_OK, fd) (set_net w s)) ->
  (forall st w, st <> 0 -> Q (st, -1) (log_closed fd (set_net w s))) ->
  wlp (as_node_authenticate_connection stack n fd) Q s.
Proof.
  intros [Hs Hu] Hok Hbad. unfold wlp, as_node_authenticate_connection. rewrite bind_cluster_of.
  destruct (user (cluster s)) as [u|].
  2:{ specialize (Hok (net s)). by destruct s. }
  destruct Hu as (p & Hp & Hl). rewrite bind_cluster_of.
  assert (exists d w, deadline_of (conn_timeout_ms (cluster s)) s = URet (d, set_net w s)) as (d & w & Hd).
  { unfold deadline_of. destruct (_ && _).
    - rewrite bind_os. destruct (os_getms (net s)) as [ms w]. by eexists _, w.
    - exists 0, (net s). by destruct s. }
  rewrite (bind_ret_eq _ _ _ _ _ Hd), bind_cluster_of. cbn [cluster set_net]. rewrite Hp.
  apply wlp_bind, (authenticate_ok (set_net w s) fd u p d); [done..|]. intros st w'.
  case_if; reflect_Z; [by apply Hbad|apply Hok].
Qed.

(** The address of a node is one of its addresses. *)
Definition located (node : as_node) : Prop := 0 <= address_index node < blen (addresses node).

(** A connection on the socket [fd] that is open: it stays so, or is closed. *)
Definition connects (n : Z) (node : as_node) (fd : Z) s (r : Z * Z) (s' : mem W) : Prop :=
  exists i w c, 0 <= i < blen (addresses node) /\ s' = connecting n node i w [] c s
    /\ if fst r =? 0 then snd r = fd /\ c = [] else c = [fd] /\ snd r = -1.

Lemma authenticated_connects s n node fd i :
  m_nodes s !! n = Some node -> auth_ok (cluster s) -> 0 <= i < blen (addresses node) ->
  wlp (as_node_authenticate_connection stack n fd) (connects n node fd s)
    (set_nodes_map <[n := set_addresses i (addresses node) node]> s).
Proof.
  intros Hn Ha Hi. apply authenticate_connection_ok; [done|..].
  - intros w. exists i, w, []. split; [done|]. split; [|done]. unfold connecting. by rewrite !app_nil_r.
  - intros st w Hst. exists i, w, [fd]. split; [done|]. cbn [fst snd]. destruct (Z.eqb_spec st 0); [done|].
    split; [|done]. unfold connecting. by rewrite app_nil_r.
Qed.

Lemma connect_loop_ok s n node fd primary i l :
  m_nodes s !! n = Some node -> auth_ok (cluster s) -> located node -> 0 <= i -> i + blen l = blen (addresses node) ->
  wlp (connect_loop stack n fd primary i l) (connects n node fd s) s.
Proof.
  intros Hn Ha Hloc. revert i s Hn Ha. induction l as [|a l IH]; intros i s Hn Ha Hi Hl; cbn [connect_loop length] in *.
  - rewrite (connecting_same s n node Hn) at 2. exists (address_index node), (os_close (net s) fd), [fd].
    split; [done|]. split; [|done]. unfold connecting, log_closed, set_net. cbn. by rewrite !app_nil_r.
  - destruct (i =? primary); [apply IH; (done || lia)|]. apply wlp_bind.
    unfold wlp at 1, as_socket_start_connect_nb. rewrite bind_os.
    destruct (os_connect (net s) fd (addr a)) as [[rv e] w]. cbn. case_if.
    + unfold wlp. rewrite (bind_on_node _ _ _ _ node) by done. cbn [addresses].
      apply (authenticated_connects (set_net w s)); [done|done|lia].
    + apply (IH (i + 1) (set_net w s)); [done|done|lia|lia].
Qed.

(** [as_node_create_connection] opens one descriptor at most, and returns it or closes it. *)
Lemma create_connection_ok s n node fd0 :
  m_nodes s !! n = Some node -> auth_ok (cluster s) -> located node ->
  wlp (as_node_create_connection stack n fd0)
    (fun r s' => exists i w o c, 0 <= i < blen (addresses node) /\ s' = connecting n node i w o c s
       /\ if fst r =? 0 then o = [snd r] /\ c = [] else o = c /\ (snd r = -1 \/ snd r = fd0)) s.
Proof.
  intros Hn Ha Hloc. unfold wlp, as_node_create_connection, as_socket_create_nb. rewrite !bind_assoc, bind_os.
  assert (forall w o c, o = c -> exists i w' o' c', 0 <= i < blen (addresses node)
    /\ mk_mem (m_nodes s) (m_arrays s) (m_table s) (m_tables s) (next s) (allocs s) (cluster s) (randomizer s) w
        (opened s ++ o) (closed s ++ c) = connecting n node i w' o' c' s
    /\ o' = c' /\ (fd0 = -1 \/ fd0 = fd0)) as Hfail.
  { intros w o c Hoc. exists (address_index node), w, o, c. split; [done|]. split; [|by split; [|right]].
    unfold connecting. f_equal. symmetry. replace (set_addresses _ _ node) with node by (by destruct node). by apply insert_id. }
  destruct (os_socket (net s)) as [sock w1]. destruct (sock =? -1).
  { rewrite bind_ret. cbn. specialize (Hfail w1 [] [] eq_refl). rewrite !app_nil_r in Hfail. exact Hfail. }
  rewrite !bind_assoc, bind_modify, !bind_assoc, bind_os. destruct (os_getfl _ _) as [flags w2]. destruct (flags <? 0).
  { cbn. exact (Hfail _ [sock] [sock] eq_refl). }
  rewrite !bind_assoc, bind_os. destruct (os_setfl _ _ _) as [rv w3]. destruct (rv <? 0).
  { cbn. exact (Hfail _ [sock] [sock] eq_refl). }
  rewrite bind_ret. cbn beta iota. rewrite (bind_node_at _ _ _ node) by done.
  destruct (aget_is_Some _ _ Hloc) as [a Hpa]. rewrite (bind_access _ _ _ a) by done.
  set (s1 := set_net w3 _). unfold as_socket_start_connect_nb. rewrite bind_assoc, bind_os.
  destruct (os_connect _ _ _) as [[rv2 e] w4]. rewrite bind_ret.
  assert (forall r s', connects n node sock (set_net w4 s1) r s' ->
    exists i w o c, 0 <= i < blen (addresses node) /\ s' = connecting n node i w o c s
       /\ if fst r =? 0 then o = [snd r] /\ c = [] else o = c /\ (snd r = -1 \/ snd r = fd0)) as Hres.
  { intros r s' (i & w & c & Hi & -> & Hr). exists i, w, [sock], c. split; [done|]. split.
    - unfold connecting. cbn. by rewrite app_nil_r.
    - destruct (fst r =? 0); destruct Hr as [-> ->]; [done|by split; [|left]]. }
  case_if; (eapply (wlp_mono _ (connects n node sock (set_net w4 s1))); [|intros; by apply Hres]).
  - pose proof (authenticated_connects (set_net w4 s1) n node sock (address_index node) Hn Ha Hloc) as Hau.
    replace (set_nodes_map _ _) with (set_net w4 s1) in Hau; [exact Hau|].
    unfold set_nodes_map. replace (set_addresses _ _ node) with node by (by destruct node).
    rewrite insert_id by done. done.
  - apply connect_loop_ok; [done|done|done|lia|lia].
Qed.

(** *** Taking and returning connections *)

(** [is_connected] as a function of the operating system. *)
Definition probe (w : W) (fd : Z) : Z * W :=
  let w := if has_dontwait then w else snd (os_setfl w fd 0) in
  let '(rv, e, w) := os_peek w fd in
  (if rv =? 0 then CONNECTED_NOT
   else if rv <? 0 then
     match e with EBADF => CONNECTED_BADFD | EWOULDBLOCK | EAGAIN => CONNECTED | _ => CONNECTED_ERROR end
   else CONNECTED, w).

Lemma is_connected_eq s fd : is_connected fd s = URet (fst (probe (net s) fd), set_net (snd (probe (net s) fd)) s).
Proof.
  unfold is_connected, probe. destruct has_dontwait.
  - rewrite bind_ret, bind_os. by destruct (os_peek _ _) as [[rv e] w].
  - rewrite bind_os. destruct (os_setfl _ _ _) as [rv0 w0]. rewrite bind_os. cbn [net set_net snd].
    by destruct (os_peek _ _) as [[rv e] w].
Qed.

(** Looking through the pool [l] for a connection that is still good: descriptors that
    are not are closed, or dropped when they are no descriptors at all. *)
Inductive checks : W -> list Z -> list Z -> list Z -> W -> option (Z * list Z) -> Prop :=
  | K_empty w : checks w [] [] [] w None
  | K_good w fd l w' : probe w fd = (CONNECTED, w') -> checks w (fd :: l) [] [] w' (Some (fd, l))
  | K_dropped w fd l w' c bad w'' r :
      probe w fd = (CONNECTED_BADFD, w') -> checks w' l c bad w'' r -> checks w (fd :: l) c (fd :: bad) w'' r
  | K_closed w fd l st w' c bad w'' r :
      probe w fd = (st, w') -> st <> CONNECTED -> st <> CONNECTED_BADFD ->
      checks (os_close w' fd) l c bad w'' r -> checks w (fd :: l) (fd :: c) bad w'' r.

Lemma set_conn_q_twice q q' node : set_conn_q q (set_conn_q q' node) = set_conn_q q node.
Proof. done. Qed.

(** The memory after the pool was looked through. *)
Definition checked (n : Z) (node : as_node) (q : cf_queue Z) (w : W) (c : list Z) s : mem W :=
  mk_mem (<[n := set_conn_q q node]> (m_nodes s)) (m_arrays s) (m_table s) (m_tables s) (next s)
    (allocs s) (cluster s) (randomizer s) w (opened s) (closed s ++ c).

Lemma get_loop_checks s n node l fd0 :
  pooled s n node l ->
  exists c bad w r q fd1, checks (net s) l c bad w r
    /\ match r with
       | Some (fd, l') => q_rep q l' /\ get_connection_loop stack (S (length l)) n fd0 s = URet ((0, fd), checked n node q w c s)
       | None => q_rep q [] /\ get_connection_loop stack (S (length l)) n fd0 s
                                 = as_node_create_connection stack n fd1 (checked n node q w c s)
       end.
Proof.
  revert s node fd0. induction l as [|x l IH]; intros s node fd0 Hp.
  - destruct (pop_connection_empty s n node Hp) as (q & Hq & He). exists [], [], (net s), None, q, fd0.
    split; [constructor|]. split; [done|]. cbn [length get_connection_loop]. rewrite (bind_ret_eq _ _ _ _ _ He).
    cbn [Z.eqb CF_QUEUE_EMPTY CF_QUEUE_OK]. unfold checked. by rewrite app_nil_r.
  - destruct (pop_connection_ok s n node x l Hp) as (q & Hq & He). cbn [length].
    remember (S (length l)) as fuel eqn:Ef. cbn [get_connection_loop]. rewrite (bind_ret_eq _ _ _ _ _ He).
    cbn [Z.eqb CF_QUEUE_OK]. rewrite (bind_access _ _ _ x) by done.
    rewrite (bind_ret_eq _ _ _ _ _ (is_connected_eq _ _)). cbn [net set_nodes_map].
    destruct (probe (net s) x) as [st w] eqn:Ep. cbn [fst snd].
    destruct (Z.eqb_spec st CONNECTED) as [->|Hn1].
    { exists [], [], w, (Some (x, l)), q, 0. split; [by constructor|]. split; [done|]. unfold checked. by rewrite app_nil_r. }
    destruct (Z.eqb_spec st CONNECTED_BADFD) as [->|Hn2].
    + destruct (IH (set_net w (set_nodes_map <[n := set_conn_q q node]> s)) (set_conn_q q node) x)
        as (c & bad & w' & r & q' & fd1 & Hk & Hr). { by apply (pooled_set s n node q l). }
      exists c, (x :: bad), w', r, q', fd1. split; [by econstructor|].
      unfold checked in *. cbn in Hr. rewrite insert_insert_eq in Hr. exact Hr.
    + rewrite (bind_ret_eq _ _ _ _ _ eq_refl).
      destruct (IH (log_closed x (set_net (os_close w x) (set_nodes_map <[n := set_conn_q q node]> s))) (set_conn_q q node) x)
        as (c & bad & w' & r & q' & fd1 & Hk & Hr). { by apply (pooled_set s n node q l). }
      exists (x :: c), bad, w', r, q', fd1. split; [by eapply K_closed|].
      unfold checked in *. cbn in Hr. rewrite insert_insert_eq, <- app_assoc in Hr. exact Hr.
Qed.

Lemma put_connection_ok s n node l fd :
  pooled s n node l -> blen l <= 300 ->
  exists q, if 300 <=? blen l
    then q_rep q l /\ as_node_put_connection n fd s = URet (tt, checked n node q (os_close (net s) fd) [fd] s)
    else q_rep q (l ++ [fd]) /\ as_node_put_connection n fd s = URet (tt, checked n node q (net s) [] s).
Proof.
  intros (Hn & q & Hq & Hr) Hl. unfold as_node_put_connection. rewrite (bind_node_at _ _ _ _ Hn), bind_gets, locks_work, Hq.
  destruct (push_limit_ok q l fd 300 Hr) as (q' & Hpush & Hr'); [apply (room_small q l Hr); lia|].
  cbn [mbind option_bind]. rewrite (bind_access _ _ _ _ Hpush), (bind_on_node _ _ _ _ _ Hn). exists q'.
  destruct (300 <=? blen l); (split; [done|]); cbn [negb]; [done|]. unfold checked. by rewrite app_nil_r.
Qed.

(** *** The life of a pool *)

(** What the users of a node do: take a connection, and put back or close one of those
    they hold. *)
Inductive pool_op := PGet | PPut (i : nat) | PClose (i : nat).

Definition pool_exec (n : Z) (op : pool_op) (held : list Z) : M W (list Z) :=
  match op with
  | PGet => '(status, fd) ← as_node_get_connection stack n (-1); mret (if status =? 0 then fd :: held else held)
  | PPut i =>
      match held !! i with
      | Some fd => _ ← as_node_put_connection n fd; mret (delete i held)
      | None => mret held
      end
  | PClose i =>
      match held !! i with
      | Some fd => _ ← as_close fd; mret (delete i held)
      | None => mret held
      end
  end.

Fixpoint pool_session (n : Z) (ops : list pool_op) (held : list Z) : M W (list Z) :=
  match ops with
  | [] => mret held
  | op :: ops => held ← pool_exec n op held; pool_session n ops held
  end.

(** Every descriptor that was opened is closed, in the pool, held, or was found not to be
    one; [rest] are those of the rest of the program. *)
Definition accounted (n : Z) (held rest : list Z) s : Prop :=
  auth_ok (cluster s) /\ exists node l bad, pooled s n node l /\ located node /\ blen l <= 300
    /\ opened s ≡ₚ closed s ++ l ++ held ++ bad ++ rest.

Lemma checks_all w l c bad w' r :
  checks w l c bad w' r ->
  l ≡ₚ c ++ bad ++ match r with Some (fd, l') => fd :: l' | None => [] end.
Proof.
  induction 1 as [w|w fd l w'|w fd l w' c bad w'' r _ _ IH|w fd l st w' c bad w'' r _ _ _ _ IH]; [done|done| |].
  - rewrite IH. cbn [app]. by rewrite Permutation_middle.
  - by rewrite IH.
Qed.

(** Compares two lists of numbers element by element. *)
Ltac count_fds :=
  apply (Permutation_count_occ Z.eq_dec); let x := fresh "x" in intros x;
  repeat match goal with H : _ ≡ₚ _ |- _ => apply (Permutation_count_occ Z.eq_dec) with (x := x) in H end;
  repeat (rewrite ?count_occ_app in *; cbn [count_occ] in *);
  repeat case_match; lia.

Lemma accounted_connecting n node q w i l held o c bad rest s :
  auth_ok (cluster s) -> q_rep q l -> blen l <= 300 -> 0 <= i < blen (addresses node) ->
  opened s ++ o ≡ₚ (closed s ++ c) ++ l ++ held ++ bad ++ rest ->
  accounted n held rest (connecting n (set_conn_q q node) i w o c s).
Proof.
  intros Ha Hq Hl Hi Hp. split; [done|]. exists (set_addresses i (addresses node) (set_conn_q q node)), l, bad.
  split; [|by split_and!]. split; [apply lookup_insert_eq|]. by exists q.
Qed.

Lemma checked_connecting n node q w c s :
  checked n node q w c s = connecting n (set_conn_q q node) (address_index node) w [] c s.
Proof. unfold checked, connecting. rewrite app_nil_r. by destruct node. Qed.

Lemma pool_exec_accounted n op held rest s :
  accounted n held rest s -> wlp (pool_exec n op held) (fun held' s' => accounted n held' rest s') s.
Proof.
  intros (Ha & node & l & bad & Hp & Hloc & Hl & Hperm). destruct op as [|i|i]; cbn [pool_exec].
  - apply wlp_bind. unfold wlp at 1, as_node_get_connection. rewrite (bind_ret_eq _ _ _ _ _ (pool_fuel_eq s n node l Hp)).
    destruct (get_loop_checks s n node l (-1) Hp) as (c & bd & w & r & q & fd1 & Hk & Hr).
    apply checks_all in Hk as Hlk. pose proof (Permutation_length Hlk) as Hlen. rewrite !length_app in Hlen.
    destruct r as [[fd l']|]; destruct Hr as [Hq ->].
    + cbn [Z.eqb]. apply wlp_ret. rewrite checked_connecting. cbn [length] in Hlen.
      apply (accounted_connecting n node q w _ l' _ [] c (bd ++ bad)); [done|done|lia|done|count_fds].
    + eapply wlp_mono; [apply (create_connection_ok _ n (set_conn_q q node)); [apply lookup_insert_eq|done|done]|].
      intros [st fd] s' (i & w' & o & c' & Hi & -> & Hout). cbn [fst snd] in Hout. apply wlp_ret.
      replace (connecting n (set_conn_q q node) i w' o c' (checked n node q w c s))
        with (connecting n (set_conn_q q node) i w' o (c ++ c') s)
        by (unfold connecting, checked; cbn; by rewrite insert_insert_eq, app_assoc).
      apply (accounted_connecting n node q w' i [] _ o (c ++ c') (bd ++ bad)); [done|done|simpl; lia|done|].
      destruct (st =? 0); destruct Hout as [-> Hout]; [subst c'|]; count_fds.
  - destruct (held !! i) as [fd|] eqn:Hi; [|by split; [|exists node, l, bad]].
    apply delete_Permutation in Hi as Hd. apply wlp_bind. unfold wlp at 1.
    destruct (put_connection_ok s n node l fd Hp Hl) as (q & Hq). destruct (300 <=? blen l) eqn:E; reflect_Z;
      destruct Hq as [Hq ->]; apply wlp_ret; rewrite checked_connecting.
    + apply (accounted_connecting n node q _ _ l _ [] [fd] bad); [done|done|done|done|count_fds].
    + apply (accounted_connecting n node q _ _ (l ++ [fd]) _ [] [] bad); [done|done|rewrite length_app; simpl; lia|done|count_fds].
  - destruct (held !! i) as [fd|] eqn:Hi; [|by split; [|exists node, l, bad]].
    apply delete_Permutation in Hi as Hd. apply wlp_bind. unfold wlp at 1, as_close. apply wlp_ret.
    split; [done|]. exists node, l, bad. split; [done|]. split; [done|]. split; [done|]. cbn. count_fds.
Qed.

(** The life of a node's pool.  Whatever its users do, in any order: every descriptor
    that was ever opened is closed, in the pool, held by a user, or was found by the
    operating system not to be a descriptor; none is lost, none is in two places and the
    pool never holds more than 300.  All calls return when the network answers. *)
Theorem connections_accounted n ops held rest s :
  accounted n held rest s -> wlp (pool_session n ops held) (fun held' s' => accounted n held' rest s') s.
Proof.
  revert held s. induction ops as [|op ops IH]; intros held s Hs; cbn [pool_session]; [done|].
  apply wlp_bind. eapply wlp_mono; [by apply pool_exec_accounted|]. intros held' s'. apply IH.
Qed.

(** Taking a connection.  The pool is searched from its head: a descriptor whose probe
    says it is connected is returned and the rest stays in the pool; those before it are
    closed, or dropped when they are bad descriptors.  Only when none is left the call goes
    on to open a new connection, with the pool empty. *)
Theorem get_connection_checks s n node l fd0 :
  pooled s n node l ->
  exists c bad w r q fd1, checks (net s) l c bad w r
    /\ match r with
       | Some (fd, l') => q_rep q l' /\ as_node_get_connection stack n fd0 s = URet ((0, fd), checked n node q w c s)
       | None => q_rep q [] /\ as_node_get_connection stack n fd0 s
                                 = as_node_create_connection stack n fd1 (checked n node q w c s)
       end.
Proof.
  intros Hp. unfold as_node_get_connection. rewrite (bind_ret_eq _ _ _ _ _ (pool_fuel_eq s n node l Hp)).
  by apply get_loop_checks.
Qed.

(** The last release closes what the node has open and frees it. *)
Lemma release_ok s n node l :
  pooled s n node l -> 0 < ref_count node < 2 ^ 32 ->
  as_node_release n s = URet (tt,
    if ref_count node =? 1 then set_nodes_map (delete n) (closing (last_fds node l) s)
    else set_nodes_map <[n := set_ref_count (ref_count node - 1) node]> s).
Proof.
  intros Hp Hr. unfold as_node_release. rewrite (bind_on_node _ _ _ _ node) by apply Hp.
  rewrite (bind_node_at _ _ _ (set_ref_count (u32 (ref_count node - 1)) node)) by apply lookup_insert_eq.
  rewrite u32_id by (unfold is_u32; lia). cbn [ref_count set_ref_count].
  destruct (Z.eqb_spec (ref_count node) 1) as [->|Hn1]; cbn [Z.eqb Z.sub Z.add Z.opp Z.pos_sub].
  - rewrite (node_destroy_ok _ n (set_ref_count 0 node) l).
    + unfold set_nodes_map, closing. cbn. by rewrite delete_insert_eq.
    + split; [apply lookup_insert_eq|]. destruct Hp as (_ & q & Hq). by exists q.
  - destruct (Z.eqb_spec (ref_count node - 1) 0); [lia|]. done.
Qed.
End Pool.

(** ** Examples *)

(** A host that numbers its sockets and whose even descriptors are connected; nobody
    answers on them. *)
#[refine] Instance loopback : Net Z :=
  {| os_socket w := (w, w + 1); os_getfl w _ := (0, w); os_setfl w _ _ := (0, w); os_connect w _ _ := (0, EOTHER, w);
     os_peek w fd := if Z.even fd then (-1, EAGAIN, w) else (0, EOTHER, w);
     os_close w _ := w; os_shutdown w _ := w; os_getms w := (5, w);
     os_send w _ _ _ := URet (AEROSPIKE_OK, w); os_recv w _ n _ := URet (AEROSPIKE_ERR_TIMEOUT, fresh n, w);
     os_stream _ _ := []; queue_env _ := qenv_ok; has_dontwait := true;
     inet_ntop _ := []; inet_aton _ := None; getaddrinfo w _ := (None, w) |}.
Proof.
  - done.
  - intros w fd n deadline Hn. unfold fresh. rewrite length_replicate. split; [lia|done].
Defined.

Definition sample_stack : list Z := replicate (Z.to_nat AS_STACK_BUF_SIZE) 0.
Definition sample_node (refs : Z) (q : cf_queue Z) : as_node :=
  mk_node refs 7 [66; 66] 0 [mk_address (mk_addr 1 2) []] (Some q) (-1) 0 0 true.
Definition sample_cluster : as_cluster := mk_cluster 10 20 [] None None [] [] 1000 0 8 true.

(** The descriptors 3 and 4 are in the pool. *)
Definition sample_pool : cf_queue Z := q_after [OpPush 3; OpPush 4].
Definition pool_mem : mem Z :=
  mk_mem {[1 := sample_node 1 sample_pool]} ∅ ∅ ∅ 100 [] sample_cluster 0 5 [3; 4] [].

Lemma sample_pooled : pooled pool_mem 1 (sample_node 1 sample_pool) [3; 4].
Proof. split; [reflexivity|]. exists sample_pool. split; [done|]. apply (q_after_rep [OpPush 3; OpPush 4]). simpl. lia. Qed.

Lemma get_connection_checks_witness :
  exists c bad w r q fd1, checks 5 [3; 4] c bad w r
    /\ match r with
       | Some (fd, l') => q_rep q l' /\ @as_node_get_connection x86_64 Z loopback sample_stack 1 (-1) pool_mem
                                        = URet ((0, fd), checked 1 (sample_node 1 sample_pool) q w c pool_mem)
       | None => q_rep q [] /\ @as_node_get_connection x86_64 Z loopback sample_stack 1 (-1) pool_mem
                  = @as_node_create_connection x86_64 Z loopback sample_stack 1 fd1 (checked 1 (sample_node 1 sample_pool) q w c pool_mem)
       end.
Proof. apply (@get_connection_checks x86_64 Z loopback sample_stack (fun _ => eq_refl) pool_mem). apply sample_pooled. Defined.

Lemma connections_accounted_witness :
  wlp (@pool_session x86_64 Z loopback sample_stack 1 [PGet; PGet; PPut 0; PClose 0] [])
    (fun held s' => accounted sample_stack 1 held [] s') pool_mem.
Proof.
  apply (@connections_accounted x86_64 Z loopback sample_stack (fun _ => eq_refl)).
  split; [by split|]. exists (sample_node 1 sample_pool), [3; 4], []. split; [apply sample_pooled|].
  split; [split; simpl; lia|]. split; [simpl; lia|]. done.
Defined.
