(* ===== verification/Partition.v ===== *)
(** * Partition tables

    Models [src/main/aerospike/as_partition.c], the functions of [as_cluster.c] and
    [as_cluster.h] that look a node up, and [cl_partition_getid] of [cf_digest.h].

    The tables map the partitions of a namespace to the nodes that have them.  A node
    tells which partitions it has as a base-64 bitmap (file [Base64]); every slot of a
    table that names a node holds a reference to it. *)

From S2P Require Import Prelude Counting ByteOrder Base64 Queue Value Msgpack Wire Socket Parse Node.
Open Scope Z_scope.

Definition AS_MAX_NAMESPACE_SIZE : Z := 32.

(** ** Strings in memory *)

(** The string that begins at [off]: [None] when memory ends before its NUL. *)
Fixpoint cstr_from (l : list Z) : option (list Z) :=
  match l with
  | [] => None
  | c :: l => if c =? 0 then Some [] else cons c <$> cstr_from l
  end.
Definition cstr (m : list Z) (off : Z) : option (list Z) :=
  if decide (0 <= off) then cstr_from (drop (Z.to_nat off) m) else None.

(** What [as_strncpy(trg, src, size)] leaves in [trg]. *)
Definition as_strncpy (src : list Z) (size : Z) : list Z := take (Z.to_nat (size - 1)) src.

(** [while ( *p) { if (stop( *p)) { *p = 0; break; } p++; }]: the buffer and [p]. *)
Fixpoint scan_loop (fuel : nat) (stop : Z -> bool) (m : list Z) (p : Z) : option (list Z * Z) :=
  match fuel with
  | O => None
  | S fuel =>
      c ← mread m p;
      if c =? 0 then Some (m, p)
      else if stop c then m ← mwrite m p [0]; Some (m, p)
      else scan_loop fuel stop m (p + 1)
  end.
Definition scan (stop : Z -> bool) (m : list Z) (p : Z) : option (list Z * Z) := scan_loop (S (length m)) stop m p.

(** [':'], [';'], newline. *)
Definition COLON : Z := 58.
Definition SEMICOLON : Z := 59.
Definition NEWLINE : Z := 10.
Definition TAB : Z := 9.

(** The partition of a digest: its first two bytes as the host reads them. *)
Definition cl_partition_getid `{Platform} (n_partitions : Z) (d : list Z) : option Z :=
  bytes ← mslice d 0 2;
  Some (u16 (Z.land (of_mem host_endian bytes) (u32 (n_partitions - 1)))).

Section Partition.
Context `{Platform} `{Net W}.
Implicit Types (s : mem W).

(** ** Arrays of nodes *)

Definition array_at (a : Z) : M W as_nodes := access (fun s => m_arrays s !! a).
Definition tables_at (t : Z) : M W as_partition_tables := access (fun s => m_tables s !! t).
Definition table_at (t : Z) : M W as_partition_table := access (fun s => m_table s !! t).

Definition as_nodes_reserve : M W Z :=
  a ← cluster_of nodes;
  arr ← array_at a;
  _ ← modify (set_arrays <[a := mk_nodes (u32 (nodes_refs arr + 1)) (nodes_array arr)]>);
  mret a.

Definition as_nodes_release (a : Z) : M W unit :=
  arr ← array_at a;
  let refs := u32 (nodes_refs arr - 1) in
  if refs =? 0 then modify (set_arrays (delete a))
  else modify (set_arrays <[a := mk_nodes refs (nodes_array arr)]>).

Definition as_partition_tables_reserve : M W Z :=
  t ← cluster_of partition_tables;
  ts ← tables_at t;
  _ ← modify (set_tables <[t := mk_tables (u32 (tables_refs ts + 1)) (tables_array ts)]>);
  mret t.

Definition as_partition_tables_release (t : Z) : M W unit :=
  ts ← tables_at t;
  let refs := u32 (tables_refs ts - 1) in
  if refs =? 0 then modify (set_tables (delete t))
  else modify (set_tables <[t := mk_tables refs (tables_array ts)]>).

(** [ck_pr_faa_32(&cluster->node_index, 1)]. *)
Definition next_index : M W Z :=
  index ← cluster_of node_index;
  _ ← modify (set_cluster (fun c =>
        mk_cluster (nodes c) (partition_tables c) (gc c) (user c) (password c) (seeds c) (ip_map c) (conn_timeout_ms c)
          (u32 (node_index c + 1)) (n_partitions c) (valid c)));
  mret index.

Fixpoint random_loop (k : nat) (array : list (option Z)) : M W (option Z) :=
  match k with
  | O => mret None
  | S k =>
      index ← next_index;
      n ← access (fun _ => aget array (index mod blen array) ≫= id);
      node ← node_at n;
      if active node then _ ← as_node_reserve n; mret (Some n) else random_loop k array
  end.

Definition as_node_get_random : M W (option Z) :=
  a ← as_nodes_reserve;
  arr ← array_at a;
  r ← random_loop (length (nodes_array arr)) (nodes_array arr);
  _ ← as_nodes_release a;
  mret r.

Fixpoint by_name_loop (l : list (option Z)) (name : list Z) : M W (option Z) :=
  match l with
  | [] => mret None
  | p :: l =>
      n ← access (fun _ => p);
      node ← node_at n;
      if decide (node_name node = name) then _ ← as_node_reserve n; mret (Some n) else by_name_loop l name
  end.

Definition as_node_get_by_name (name : list Z) : M W (option Z) :=
  a ← as_nodes_reserve;
  arr ← array_at a;
  r ← by_name_loop (nodes_array arr) name;
  _ ← as_nodes_release a;
  mret r.

(** ** Looking a node up *)

(** [None]: the slot is NULL. *)
Definition reserve_node (node : option Z) : M W (option Z) :=
  match node with
  | None => as_node_get_random
  | Some n =>
      nd ← node_at n;
      if active nd then _ ← as_node_reserve n; mret (Some n) else as_node_get_random
  end.

Definition reserve_node_alternate (chosen : Z) (alternate : option Z) : M W (option Z) :=
  nd ← node_at chosen;
  if active nd then _ ← as_node_reserve chosen; mret (Some chosen) else reserve_node alternate.

Definition next_random : M W Z :=
  r ← gets randomizer; _ ← modify (set_randomizer (u32 (r + 1))); mret r.

Definition as_partition_table_get_node (table : option Z) (d : list Z) (write : bool) (replica : as_policy_replica)
  : M W (option Z) :=
  match table with
  | None => as_node_get_random
  | Some t =>
      np ← cluster_of n_partitions;
      partition_id ← access (fun _ => cl_partition_getid np d);
      tb ← table_at t;
      p ← access (fun _ => aget (partitions tb) partition_id);
      if write then reserve_node (master p)
      else
        match replica with
        | REPLICA_MASTER => reserve_node (master p)
        | REPLICA_ANY =>
            match prole p with
            | None => reserve_node (master p)
            | Some prole_node =>
                match master p with
                | None => reserve_node (Some prole_node)
                | Some master_node =>
                    r ← next_random;
                    if negb (Z.land r 1 =? 0) then reserve_node_alternate master_node (Some prole_node)
                    else reserve_node_alternate prole_node (Some master_node)
                end
            end
        end
  end.

Fixpoint tables_get_loop (l : list (option Z)) (ns : list Z) : M W (option Z) :=
  match l with
  | [] => mret None
  | p :: l =>
      t ← access (fun _ => p);
      tb ← table_at t;
      if decide (table_ns tb = ns) then mret (Some t) else tables_get_loop l ns
  end.

Definition as_partition_tables_get (tables : Z) (ns : list Z) : M W (option Z) :=
  ts ← tables_at tables; tables_get_loop (tables_array ts) ns.

Definition as_cluster_get_partition_table (ns : list Z) : M W (option Z) :=
  tables ← as_partition_tables_reserve;
  table ← as_partition_tables_get tables ns;
  _ ← as_partition_tables_release tables;
  mret table.

Definition as_node_get (ns d : list Z) (write : bool) (replica : as_policy_replica) : M W (option Z) :=
  table ← as_cluster_get_partition_table ns;
  as_partition_table_get_node table d write replica.

(** Pointer equality. *)
Definition is_node (n : Z) (p : option Z) : bool := bool_decide (p = Some n).

Fixpoint find_node_loop (l : list (option Z)) (n : Z) : M W bool :=
  match l with
  | [] => mret false
  | p :: l =>
      t ← access (fun _ => p);
      tb ← table_at t;
      if existsb (fun p => is_node n (master p) || is_node n (prole p)) (partitions tb) then mret true
      else find_node_loop l n
  end.

Definition as_partition_tables_find_node (tables n : Z) : M W bool :=
  ts ← tables_at tables; find_node_loop (tables_array ts) n.

(** ** Updating the tables *)

Definition force_replicas_refresh (n : Z) : M W unit := on_node n (set_generation 0xFFFFFFFF).

Definition get_slot (t i : Z) (is_master : bool) : M W (option Z) :=
  tb ← table_at t;
  p ← access (fun _ => aget (partitions tb) i);
  mret (if is_master then master p else prole p).

Definition set_slot (t i : Z) (is_master : bool) (node : option Z) : M W unit :=
  tb ← table_at t;
  ps ← access (fun _ => p ← aget (partitions tb) i;
    aset (partitions tb) i (if is_master then mk_partition node (prole p) else mk_partition (master p) node));
  modify (set_table <[t := mk_table (table_ns tb) ps]>).

(** The same statements for the master and for the prole of a partition. *)
Definition as_partition_update (t i n : Z) (is_master owns : bool) : M W unit :=
  old ← get_slot t i is_master;
  if is_node n old then
    if negb owns then _ ← set_slot t i is_master None; as_node_release n else mret tt
  else if owns then
    _ ← as_node_reserve n;
    _ ← set_slot t i is_master (Some n);
    match old with
    | Some tmp => _ ← force_replicas_refresh tmp; as_node_release tmp
    | None => mret tt
    end
  else mret tt.

(** [owns] of partition [i]. *)
Definition owns_bit (bitmap : list Z) (i : Z) : option bool :=
  b ← mread bitmap (Z.shiftr i 3);
  Some (negb (Z.land b (Z.shiftr 0x80 (Z.land i 7)) =? 0)).

Fixpoint update_loop (k : nat) (bitmap : list Z) (t i n : Z) (is_master : bool) : M W unit :=
  match k with
  | O => mret tt
  | S k =>
      owns ← access (fun _ => owns_bit bitmap i);
      _ ← as_partition_update t i n is_master owns;
      update_loop k bitmap t (i + 1) n is_master
  end.

(** The decoded bytes go into a buffer of [cf_b64_decoded_buf_size] bytes. *)
Definition decode_and_update (bitmap_b64 : list Z) (t n : Z) (is_master : bool) : M W unit :=
  bitmap ← access (fun _ =>
    '(bitmap, _) ← cf_b64_decode bitmap_b64;
    if decide (blen bitmap <= cf_b64_decoded_buf_size (blen bitmap_b64)) then Some bitmap else None);
  tb ← table_at t;
  update_loop (length (partitions tb)) bitmap t 0 n is_master.

Definition as_partition_table_create (ns : list Z) (capacity : Z) : M W Z :=
  ok ← malloc;
  if negb ok then ub
  else
    t ← fresh_ptr;
    _ ← modify (set_table <[t := mk_table (as_strncpy ns AS_MAX_NAMESPACE_SIZE)
                                (replicate (Z.to_nat capacity) (mk_partition None None))]>);
    mret t.

Definition release_slot (p : option Z) : M W unit := match p with Some n => as_node_release n | None => mret tt end.

Fixpoint release_partitions (l : list as_partition) : M W unit :=
  match l with
  | [] => mret tt
  | p :: l => _ ← release_slot (master p); _ ← release_slot (prole p); release_partitions l
  end.

Definition as_partition_table_destroy (t : Z) : M W unit :=
  tb ← table_at t;
  _ ← release_partitions (partitions tb);
  modify (set_table (delete t)).

Definition as_partition_tables_create (capacity : Z) : M W Z :=
  ok ← malloc;
  if negb ok then ub
  else
    t ← fresh_ptr;
    _ ← modify (set_tables <[t := mk_tables 1 (replicate (Z.to_nat capacity) None)]>);
    mret t.

Definition gc_append (item : as_gc_item) : M W unit :=
  modify (set_cluster (fun c =>
    mk_cluster (nodes c) (partition_tables c) (gc c ++ [item]) (user c) (password c) (seeds c) (ip_map c)
      (conn_timeout_ms c) (node_index c) (n_partitions c) (valid c))).
Definition set_partition_tables (t : Z) : M W unit :=
  modify (set_cluster (fun c =>
    mk_cluster (nodes c) t (gc c) (user c) (password c) (seeds c) (ip_map c)
      (conn_timeout_ms c) (node_index c) (n_partitions c) (valid c))).

Definition as_partition_tables_copy_add (tables_old : Z) (tables_to_add : list Z) : M W unit :=
  old ← tables_at tables_old;
  t ← as_partition_tables_create (u32 (blen (tables_array old) + blen tables_to_add));
  new ← tables_at t;
  array ← access (fun _ =>
    array ← mwrite (tables_array new) 0 (tables_array old);
    mwrite array (blen (tables_array old)) (Some <$> tables_to_add));
  _ ← modify (set_tables <[t := mk_tables (tables_refs new) array]>);
  _ ← set_partition_tables t;
  gc_append (GcTables tables_old).

(** The table of a namespace: of the cluster, among the new ones, or a new one. *)
Definition table_for (tables : Z) (tables_to_add : list Z) (ns : list Z) (np : Z) : M W (Z * list Z) :=
  table ← as_partition_tables_get tables ns;
  match table with
  | Some t => mret (t, tables_to_add)
  | None =>
      table ← tables_get_loop (Some <$> tables_to_add) ns;
      match table with
      | Some t => mret (t, tables_to_add)
      | None => t ← as_partition_table_create ns np; mret (t, tables_to_add ++ [t])
      end
  end.

(** One pass over [buf], which it cuts into strings; [ns] and [p] are offsets.  Returns
    the status, the buffer and the new tables. *)
Fixpoint tables_update_loop (fuel : nat) (tables n : Z) (is_master : bool) (buf : list Z) (p ns : Z)
    (tables_to_add : list Z) : M W (bool * list Z * list Z) :=
  match fuel with
  | O => deep
  | S fuel =>
      c ← access (fun _ => mread buf p);
      if c =? 0 then mret (true, buf, tables_to_add)
      else if c =? COLON then
        buf ← access (fun _ => mwrite buf p [0]);
        let len := p - ns in
        if (len <=? 0) || (32 <=? len) then mret (false, buf, tables_to_add)
        else
          let bitmap_b64 := p + 1 in
          '(buf, p) ← access (fun _ => scan (fun c => (c =? SEMICOLON) || (c =? NEWLINE)) buf bitmap_b64);
          let len := p - bitmap_b64 in
          np ← cluster_of n_partitions;
          let bitmap_size := u32 (np + 7) / 8 in
          if negb (cf_b64_encoded_len bitmap_size =? len) then mret (false, buf, tables_to_add)
          else
            name ← access (fun _ => cstr buf ns);
            '(t, tables_to_add) ← table_for tables tables_to_add name np;
            encoded ← access (fun _ => mslice buf bitmap_b64 len);
            _ ← decode_and_update encoded t n is_master;
            tables_update_loop fuel tables n is_master buf (p + 1) (p + 1) tables_to_add
      else tables_update_loop fuel tables n is_master buf (p + 1) ns tables_to_add
  end.

(** Each turn advances [p], which stays inside the buffer. *)
Definition as_partition_tables_update (n : Z) (buf : list Z) (off : Z) (is_master : bool) : M W (bool * list Z) :=
  tables ← cluster_of partition_tables;
  '(ok, buf, tables_to_add) ← tables_update_loop (S (length buf)) tables n is_master buf off off [];
  if negb ok then mret (false, buf)
  else
    _ ← (if 0 <? blen tables_to_add then as_partition_tables_copy_add tables tables_to_add else mret tt);
    mret (true, buf).
End Partition.

(** ** References

    [R n] is the number of references to the node at [n]. *)

Section References.
Context `{Platform} `{Net W}.
Context (locks_work : forall w, queue_env w = qenv_ok).
Implicit Types (s : mem W) (R : Z -> Z).

(** A node that can be used: it has a queue of at most 300 connections, and one of its
    addresses is the primary one. *)
Definition node_ok (node : as_node) : Prop :=
  (exists q l, conn_q node = Some q /\ q_rep q l /\ blen l <= 300) /\ located node.

(** The live nodes are those that are referred to, and they know how often. *)
Definition counted (N : gmap Z as_node) R : Prop :=
  forall n, match N !! n with
            | Some node => ref_count node = R n /\ 0 < R n < 2 ^ 32 /\ node_ok node
            | None => R n = 0
            end.

Definition plus R (n k : Z) : Z -> Z := fun m => R m + (if decide (m = n) then k else 0).

Lemma counted_ext N R R' : (forall n, R n = R' n) -> counted N R -> counted N R'.
Proof. intros He Hc n. specialize (Hc n). by rewrite (He n) in Hc. Qed.

Lemma counted_live N R n : counted N R -> 0 < R n -> exists node, N !! n = Some node.
Proof. intros Hc Hr. specialize (Hc n). destruct (N !! n); [eauto|lia]. Qed.

(** The memory but its nodes, its tables, what it knows of the network and its log of
    closed descriptors. *)
Definition same_most s s' : Prop :=
  m_arrays s' = m_arrays s /\ m_tables s' = m_tables s /\ next s' = next s
  /\ allocs s' = allocs s /\ cluster s' = cluster s /\ randomizer s' = randomizer s /\ opened s' = opened s.
Definition same_rest s s' : Prop := m_table s' = m_table s /\ same_most s s'.

#[global] Instance same_most_preorder : PreOrder same_most.
Proof.
  split; [by intros s|]. intros s1 s2 s3 (?&?&?&?&?&?&?) (?&?&?&?&?&?&?). repeat split; congruence.
Qed.
#[global] Instance same_rest_preorder : PreOrder same_rest.
Proof.
  split; [by intros s|]. intros s1 s2 s3 [? ?] [? ?]. split; [congruence|by transitivity s2].
Qed.

(** A node that is still there is as it was, but for its references, and for its
    generation when it is one of [D]. *)
Definition evolved (N N' : gmap Z as_node) (D : Z -> Prop) : Prop :=
  forall n node', N' !! n = Some node' ->
    exists node g r, N !! n = Some node /\ node' = set_ref_count r (set_generation g node)
      /\ (g = partition_generation node \/ g = 0xFFFFFFFF /\ D n) /\ (D n -> g = 0xFFFFFFFF).

Lemma evolved_trans N1 N2 N3 D1 D2 :
  evolved N1 N2 D1 -> evolved N2 N3 D2 -> evolved N1 N3 (fun n => D1 n \/ D2 n).
Proof.
  intros H1 H2 n n3 E3. destruct (H2 n n3 E3) as (n2 & g2 & r2 & E2 & -> & Hg2 & Hd2).
  destruct (H1 n n2 E2) as (n1 & g1 & r1 & E1 & -> & Hg1 & Hd1). exists n1, g2, r2. split; [done|]. split; [done|].
  cbn [partition_generation set_ref_count set_generation] in *. split.
  - destruct Hg2 as [->|[-> HD]]; [|by right; split; [|right]]. destruct Hg1 as [->|[-> HD]]; [by left|].
    by right; split; [|left].
  - intros [HD|HD]; [|by apply Hd2]. specialize (Hd1 HD). subst g1. by destruct Hg2 as [->|[-> _]].
Qed.

Lemma evolved_ext N N' D D' : (forall n, D n <-> D' n) -> evolved N N' D -> evolved N N' D'.
Proof.
  intros He Hv n node' E. destruct (Hv n node' E) as (node & g & r & ? & ? & Hg & Hd). exists node, g, r.
  rewrite <- He. done.
Qed.

Lemma counted_insert N R n node k :
  counted N R -> ref_count node = R n + k -> 0 < R n + k < 2 ^ 32 -> node_ok node ->
  counted (<[n := node]> N) (plus R n k).
Proof.
  intros Hc Hr Hb Hok m. unfold plus. destruct (decide (m = n)) as [->|Hm].
  - by rewrite lookup_insert_eq.
  - rewrite lookup_insert_ne, Z.add_0_r by done. apply Hc.
Qed.

Lemma evolved_insert N n node g r (D : Z -> Prop) :
  N !! n = Some node -> g = partition_generation node \/ g = 0xFFFFFFFF /\ D n ->
  (forall m, D m -> m = n /\ g = 0xFFFFFFFF) ->
  evolved N (<[n := set_ref_count r (set_generation g node)]> N) D.
Proof.
  intros Hn Hg HD m nd Hm. destruct (decide (m = n)) as [->|Hne].
  - rewrite lookup_insert_eq in Hm. apply (inj Some) in Hm. subst nd. exists node, g, r. split; [done|].
    split; [done|]. split; [done|]. by intros [_ ?]%HD.
  - rewrite lookup_insert_ne in Hm by done. exists nd, (partition_generation nd), (ref_count nd). split; [done|].
    split; [by destruct nd|]. split; [by left|]. by intros [? _]%HD.
Qed.

Lemma same_but_refs r node : set_ref_count r node = set_ref_count r (set_generation (partition_generation node) node).
Proof. by destruct node. Qed.

Lemma reserve_counted s R n :
  counted (m_nodes s) R -> 0 < R n -> R n + 1 < 2 ^ 32 ->
  exists s', as_node_reserve n s = URet (tt, s') /\ counted (m_nodes s') (plus R n 1) /\ same_rest s s'
    /\ evolved (m_nodes s) (m_nodes s') (fun _ => False).
Proof.
  intros Hc Hr Hb. destruct (counted_live _ _ _ Hc Hr) as [node Hn]. pose proof (Hc n) as Hcn. rewrite Hn in Hcn.
  destruct Hcn as (Href & _ & Hok). unfold as_node_reserve. rewrite (on_node_eq _ _ _ _ Hn).
  eexists. split; [done|]. rewrite u32_id by (unfold is_u32; lia). split; [|split; [done|]].
  - apply counted_insert; [done|cbn; lia|lia|exact Hok].
  - cbn [m_nodes set_nodes_map]. rewrite same_but_refs. apply evolved_insert; [done|by left|done].
Qed.

Lemma release_counted s R n :
  counted (m_nodes s) R -> 0 < R n ->
  exists s', as_node_release n s = URet (tt, s') /\ counted (m_nodes s') (plus R n (-1)) /\ same_rest s s'
    /\ evolved (m_nodes s) (m_nodes s') (fun _ => False).
Proof.
  intros Hc Hr. destruct (counted_live _ _ _ Hc Hr) as [node Hn]. pose proof (Hc n) as Hcn. rewrite Hn in Hcn.
  destruct Hcn as (Href & Hb & (q & l & Hq & Hrep & Hl) & Hloc).
  rewrite (release_ok locks_work s n node l); [|by split; [|exists q]|lia].
  eexists. split; [done|]. rewrite Href. destruct (Z.eqb_spec (R n) 1) as [H1|H1]; (split; [|split; [done|]]).
  - intros m. unfold plus. cbn. destruct (decide (m = n)) as [->|Hm]; [rewrite lookup_delete_eq; lia|].
    rewrite lookup_delete_ne, Z.add_0_r by done. apply Hc.
  - intros m nd Hm. cbn in Hm. apply lookup_delete_Some in Hm as [_ Hm].
    exists nd, (partition_generation nd), (ref_count nd). split; [done|]. split; [by destruct nd|]. split; [by left|done].
  - apply counted_insert; [done|cbn; lia|lia|]. split; [by exists q, l|done].
  - cbn [m_nodes set_nodes_map]. rewrite same_but_refs. apply evolved_insert; [done|by left|done].
Qed.

Lemma refresh_counted s R n :
  counted (m_nodes s) R -> 0 < R n ->
  exists s', force_replicas_refresh n s = URet (tt, s') /\ counted (m_nodes s') R /\ same_rest s s'
    /\ evolved (m_nodes s) (m_nodes s') (fun m => m = n).
Proof.
  intros Hc Hr. destruct (counted_live _ _ _ Hc Hr) as [node Hn]. pose proof (Hc n) as Hcn. rewrite Hn in Hcn.
  destruct Hcn as (Href & Hb & Hok). unfold force_replicas_refresh. rewrite (on_node_eq _ _ _ _ Hn).
  eexists. split; [done|]. split; [|split; [done|]].
  - apply (counted_ext _ (plus R n 0)); [intros m; unfold plus; case_decide; lia|].
    apply counted_insert; [done|cbn; lia|lia|exact Hok].
  - change (set_generation 0xFFFFFFFF node) with (set_ref_count (ref_count node) (set_generation 0xFFFFFFFF node)).
    apply evolved_insert; [done|by right|done].
Qed.

(** *** Slots *)

Definition uses (n : Z) (p : as_partition) : Z := b2z (is_node n (master p)) + b2z (is_node n (prole p)).
Definition slots (n : Z) (ps : list as_partition) : Z := lsum (uses n) ps.

Definition slot_of (b : bool) (p : as_partition) : option Z := if b then master p else prole p.
Definition with_slot (b : bool) (x : option Z) (p : as_partition) : as_partition :=
  if b then mk_partition x (prole p) else mk_partition (master p) x.

(** What an answer of the node at [n] makes of a slot: its own when it has the partition,
    else as it was, but for its own which is given up. *)
Definition new_owner (n : Z) (owns : bool) (old : option Z) : option Z :=
  if owns then Some n else if is_node n old then None else old.
Definition updated (n : Z) (b owns : bool) (p : as_partition) : as_partition :=
  with_slot b (new_owner n owns (slot_of b p)) p.

Lemma uses_bound n p : 0 <= uses n p <= 2.
Proof. unfold uses. destruct (is_node n (master p)), (is_node n (prole p)); simpl; lia. Qed.

Lemma slots_bound n ps : 0 <= slots n ps <= 2 * blen ps.
Proof. apply lsum_bound. intros p. apply uses_bound. Qed.

Lemma uses_with_slot n b x p : uses n (with_slot b x p) = uses n p - b2z (is_node n (slot_of b p)) + b2z (is_node n x).
Proof. unfold uses. destruct b; simpl; lia. Qed.

Lemma is_node_other n m : m <> n -> is_node m (Some n) = false.
Proof. intros Hn. apply bool_decide_false. by intros [= ->]. Qed.
Lemma is_node_same n : is_node n (Some n) = true.
Proof. by apply bool_decide_true. Qed.
Lemma is_node_spec n x : is_node n x = true <-> x = Some n.
Proof. apply bool_decide_eq_true. Qed.

Lemma get_slot_eq s t i b tb p :
  m_table s !! t = Some tb -> partitions tb !! i = Some p -> get_slot t (Z.of_nat i) b s = URet (slot_of b p, s).
Proof.
  intros Ht Hp. unfold get_slot, table_at. rewrite (bind_access _ _ _ tb) by done.
  rewrite (bind_access _ _ _ p); [done|]. by rewrite aget_lookup.
Qed.

Lemma set_slot_eq s t i b x tb p :
  m_table s !! t = Some tb -> partitions tb !! i = Some p ->
  set_slot t (Z.of_nat i) b x s
  = URet (tt, set_table <[t := mk_table (table_ns tb) (<[i := with_slot b x p]> (partitions tb))]> s).
Proof.
  intros Ht Hp. unfold set_slot, table_at. rewrite (bind_access _ _ _ tb) by done. cbn [mbind option_bind].
  rewrite (bind_access _ _ _ (<[i := with_slot b x p]> (partitions tb))); [done|].
  rewrite aget_lookup, Hp. cbn [mbind option_bind]. apply lookup_lt_Some in Hp. rewrite aset_Some, Nat2Z.id by lia.
  by destruct b.
Qed.

(** The references after the partitions [ps] became [ps']. *)
Definition rebooked R (ps ps' : list as_partition) : Z -> Z := fun m => R m - slots m ps + slots m ps'.

(** The node at [n] is held by something else than the partitions [ps], which only hold
    references that are counted, and no count can overflow. *)
Definition updatable R (n : Z) (ps : list as_partition) : Prop :=
  slots n ps < R n /\ forall m, slots m ps <= R m /\ R m - slots m ps + 2 * blen ps < 2 ^ 32.

Lemma slots_insert m ps i p p' :
  ps !! i = Some p -> slots m (<[i := p']> ps) = slots m ps - uses m p + uses m p'.
Proof. apply lsum_insert. Qed.

Lemma updatable_rebooked R n ps ps' :
  length ps' = length ps -> updatable R n ps -> updatable (rebooked R ps ps') n ps'.
Proof.
  intros Hl [H1 H2]. unfold updatable, rebooked. split; [lia|]. intros m. specialize (H2 m). rewrite Hl. lia.
Qed.

Lemma slot_counted R n ps i b p m :
  updatable R n ps -> ps !! i = Some p -> slot_of b p = Some m -> 0 < R m.
Proof.
  intros [_ Hu] Hp Hs. destruct (Hu m) as [Hm _].
  pose proof (lsum_ge (uses m) ps i p (fun p => proj1 (uses_bound m p)) Hp) as Hge.
  assert (1 <= uses m p); [|unfold slots in Hm; lia].
  unfold uses. destruct b; simpl in Hs; rewrite Hs, is_node_same; [destruct (is_node m (prole p))|destruct (is_node m (master p))]; simpl; lia.
Qed.

Lemma rebooked_slot R ps i p b x m :
  ps !! i = Some p ->
  rebooked R ps (<[i := with_slot b x p]> ps) m = R m - b2z (is_node m (slot_of b p)) + b2z (is_node m x).
Proof. intros Hp. unfold rebooked. rewrite (slots_insert m ps i p _ Hp), uses_with_slot. lia. Qed.

Lemma evolved_same N (D : Z -> Prop) : (forall m, ~ D m) -> evolved N N D.
Proof.
  intros HD m nd Hm. exists nd, (partition_generation nd), (ref_count nd). split; [done|].
  split; [by destruct nd|]. split; [by left|]. by intros ?%HD.
Qed.

Lemma with_slot_same b p : with_slot b (slot_of b p) p = p.
Proof. by destruct b, p. Qed.

Lemma b2z_decide m n : b2z (is_node m (Some n)) = if decide (m = n) then 1 else 0.
Proof.
  destruct (decide (m = n)) as [->|Hm]; [by rewrite is_node_same|by rewrite is_node_other].
Qed.

(** Nothing changes: the slot already says what the answer says. *)
Lemma update_keeps s R t i b tb p (D : Z -> Prop) :
  counted (m_nodes s) R -> m_table s !! t = Some tb -> partitions tb !! i = Some p -> (forall m, ~ D m) ->
  let ps' := <[i := with_slot b (slot_of b p) p]> (partitions tb) in
  counted (m_nodes s) (rebooked R (partitions tb) ps')
  /\ m_table s = <[t := mk_table (table_ns tb) ps']> (m_table s) /\ evolved (m_nodes s) (m_nodes s) D.
Proof.
  intros Hc Ht Hp HD ps'. subst ps'. split; [|split; [|by apply evolved_same]].
  - apply (counted_ext _ R); [|done]. intros m. rewrite (rebooked_slot R _ i p) by done. lia.
  - rewrite with_slot_same, list_insert_id by done. symmetry. apply insert_id. rewrite Ht. by destruct tb.
Qed.

(** The slot [i] gets a new owner, and the old one is told to refresh and let go. *)
Lemma replace_owner s R t i n b tb p :
  counted (m_nodes s) R -> m_table s !! t = Some tb -> partitions tb !! i = Some p -> updatable R n (partitions tb) ->
  is_node n (slot_of b p) = false ->
  let ps' := <[i := with_slot b (Some n) p]> (partitions tb) in
  exists s', (_ ← as_node_reserve n; _ ← set_slot t (Z.of_nat i) b (Some n);
              match slot_of b p with
              | Some tmp => _ ← force_replicas_refresh tmp; as_node_release tmp
              | None => mret tt
              end) s = URet (tt, s')
    /\ counted (m_nodes s') (rebooked R (partitions tb) ps')
    /\ m_table s' = <[t := mk_table (table_ns tb) ps']> (m_table s) /\ same_most s s'
    /\ evolved (m_nodes s) (m_nodes s') (fun m => slot_of b p = Some m /\ m <> n).
Proof.
  intros Hc Ht Hp Hu Hold ps'.
  assert (forall m, rebooked R (partitions tb) ps' m = R m - b2z (is_node m (slot_of b p)) + b2z (is_node m (Some n))) as Hreb.
  { intros m. by apply rebooked_slot. }
  assert (0 < R n /\ R n + 1 < 2 ^ 32) as [Hn Hroom].
  { destruct Hu as [H1 H2]. destruct (H2 n) as [_ H3]. pose proof (slots_bound n (partitions tb)).
    pose proof (slots_bound n ps') as Hb. specialize (Hreb n). rewrite Hold, is_node_same in Hreb. unfold rebooked in Hreb.
    subst ps'. rewrite length_insert in Hb. simpl in Hreb. lia. }
  destruct (reserve_counted s R n Hc Hn Hroom) as (s1 & E1 & Hc1 & (Ht1 & Hm1) & Hv1).
  rewrite (bind_ret_eq _ _ _ _ _ E1). rewrite <- Ht1 in Ht.
  rewrite (bind_ret_eq _ _ _ _ _ (set_slot_eq s1 t i b (Some n) tb p Ht Hp)).
  set (s2 := set_table _ s1).
  assert (m_table s2 = <[t := mk_table (table_ns tb) ps']> (m_table s)) as Ht2 by (unfold s2; cbn; by rewrite Ht1).
  destruct (slot_of b p) as [tmp|] eqn:Hs.
  - assert (tmp <> n) as Htmp by (intros ->; by rewrite is_node_same in Hold).
    assert (0 < plus R n 1 tmp) as Hr.
    { unfold plus. rewrite decide_False by done. rewrite Z.add_0_r. by eapply slot_counted. }
    destruct (refresh_counted s2 (plus R n 1) tmp Hc1 Hr) as (s3 & E3 & Hc3 & (Ht3 & Hm3) & Hv3).
    rewrite (bind_ret_eq _ _ _ _ _ E3).
    destruct (release_counted s3 (plus R n 1) tmp Hc3 Hr) as (s4 & E4 & Hc4 & (Ht4 & Hm4) & Hv4).
    exists s4. split; [done|]. split; [|split; [congruence|split]].
    + eapply counted_ext; [|exact Hc4]. intros m. rewrite Hreb, !b2z_decide. unfold plus.
      repeat case_decide; lia.
    + by transitivity s1; [|transitivity s3].
    + eapply evolved_ext; [|eapply evolved_trans; [exact Hv1|eapply evolved_trans; [exact Hv3|exact Hv4]]].
      intros m. naive_solver.
  - exists s2. split; [done|]. split; [|split; [done|split; [done|]]].
    + eapply counted_ext; [|exact Hc1]. intros m. rewrite Hreb, b2z_decide. unfold plus. simpl. lia.
    + eapply evolved_ext; [|exact Hv1]. intros m. naive_solver.
Qed.

Lemma partition_update_ok s R t i n b owns tb p :
  counted (m_nodes s) R -> m_table s !! t = Some tb -> partitions tb !! i = Some p -> updatable R n (partitions tb) ->
  let ps' := <[i := updated n b owns p]> (partitions tb) in
  exists s', as_partition_update t (Z.of_nat i) n b owns s = URet (tt, s')
    /\ counted (m_nodes s') (rebooked R (partitions tb) ps')
    /\ m_table s' = <[t := mk_table (table_ns tb) ps']> (m_table s) /\ same_most s s'
    /\ evolved (m_nodes s) (m_nodes s') (fun m => owns = true /\ slot_of b p = Some m /\ m <> n).
Proof.
  intros Hc Ht Hp Hu. unfold as_partition_update. rewrite (bind_ret_eq _ _ _ _ _ (get_slot_eq s t i b tb p Ht Hp)).
  unfold updated, new_owner. destruct (is_node n (slot_of b p)) eqn:Hold, owns; cbn [negb].
  - apply is_node_spec in Hold as Hs. exists s. split; [done|]. rewrite <- Hs.
    destruct (update_keeps s R t i b tb p (fun m => true = true /\ slot_of b p = Some m /\ m <> n) Hc Ht Hp) as (H1 & H2 & H3).
    { intros m (_ & Hm & ?). congruence. }
    by split_and!.
  - apply is_node_spec in Hold as Hs. rewrite (bind_ret_eq _ _ _ _ _ (set_slot_eq s t i b None tb p Ht Hp)).
    destruct (release_counted (set_table <[t := mk_table (table_ns tb) (<[i := with_slot b None p]> (partitions tb))]> s) R n Hc)
      as (s1 & E1 & Hc1 & (Ht1 & Hm1) & Hv1). { by eapply slot_counted. }
    exists s1. split; [done|]. split; [|split; [done|split; [done|]]].
    + eapply counted_ext; [|exact Hc1]. intros m. rewrite (rebooked_slot R _ i p) by done. rewrite Hs, b2z_decide.
      unfold plus. simpl. case_decide; lia.
    + eapply evolved_ext; [|exact Hv1]. intros m. naive_solver.
  - destruct (replace_owner s R t i n b tb p Hc Ht Hp Hu Hold) as (s' & E & H1 & H2 & H3 & H4).
    exists s'. split; [done|]. split; [done|]. split; [done|]. split; [done|].
    eapply evolved_ext; [|exact H4]. naive_solver.
  - exists s. split; [done|].
    destruct (update_keeps s R t i b tb p (fun m => false = true /\ slot_of b p = Some m /\ m <> n) Hc Ht Hp) as (H1 & H2 & H3).
    { by intros m [? _]. }
    by split_and!.
Qed.

(** The owners named in the slots [todo] that another node takes over. *)
Definition displaced (n : Z) (b : bool) (bits : list bool) (todo : list as_partition) (m : Z) : Prop :=
  exists j p, todo !! j = Some p /\ bits !! j = Some true /\ slot_of b p = Some m /\ m <> n.

Lemma update_loop_ok bitmap t n b ns todo : forall s R before bits,
  counted (m_nodes s) R -> m_table s !! t = Some (mk_table ns (before ++ todo)) -> updatable R n (before ++ todo) ->
  length bits = length todo ->
  (forall j o, bits !! j = Some o -> owns_bit bitmap (blen before + Z.of_nat j) = Some o) ->
  let ps' := before ++ zip_with (updated n b) bits todo in
  exists s', update_loop (length todo) bitmap t (blen before) n b s = URet (tt, s')
    /\ counted (m_nodes s') (rebooked R (before ++ todo) ps')
    /\ m_table s' = <[t := mk_table ns ps']> (m_table s) /\ same_most s s'
    /\ evolved (m_nodes s) (m_nodes s') (displaced n b bits todo).
Proof.
  induction todo as [|p todo IH]; intros s R before bits Hc Ht Hu Hl Hb; destruct bits as [|o bits]; try done; cbn [zip_with length].
  - exists s. split; [done|]. rewrite app_nil_r in *. split; [|split; [by rewrite insert_id|split; [done|]]].
    + eapply counted_ext; [|exact Hc]. intros m. unfold rebooked. lia.
    + apply evolved_same. by intros m (j & p & Hj & _).
  - cbn [update_loop]. rewrite (bind_access _ _ _ o).
    2:{ rewrite <- (Hb 0%nat o eq_refl). f_equal. lia. }
    assert ((before ++ p :: todo) !! length before = Some p) as Hp by apply list_lookup_middle, eq_refl.
    destruct (partition_update_ok s R t (length before) n b o _ p Hc Ht Hp Hu) as (s1 & E1 & Hc1 & Ht1 & Hm1 & Hv1).
    rewrite (bind_ret_eq _ _ _ _ _ E1). cbn [partitions table_ns] in *.
    rewrite insert_app_r_alt, Nat.sub_diag in * by lia. cbn [insert list_insert] in *.
    set (p' := updated n b o p) in *. set (ps1 := before ++ p' :: todo) in *.
    assert (ps1 = (before ++ [p']) ++ todo) as Hps by (unfold ps1; by rewrite <- app_assoc).
    destruct (IH s1 (rebooked R (before ++ p :: todo) ps1) (before ++ [p']) bits) as (s2 & E2 & Hc2 & Ht2 & Hm2 & Hv2).
    + done.
    + rewrite Ht1, lookup_insert_eq. by rewrite Hps.
    + rewrite <- Hps. apply (updatable_rebooked R n (before ++ p :: todo)); [|done].
      unfold ps1. rewrite !length_app. done.
    + by injection Hl.
    + intros j o' Hj. specialize (Hb (S j) o' Hj). rewrite <- Hb. f_equal. rewrite length_app. simpl. lia.
    + replace (blen (before ++ [p'])) with (blen before + 1) in E2 by (rewrite length_app; simpl; lia).
      exists s2. split; [done|]. rewrite <- !app_assoc in *. cbn [app] in *. split; [|split; [|split]].
      * eapply counted_ext; [|exact Hc2]. intros m. unfold rebooked, ps1. lia.
      * rewrite Ht2, Ht1. apply insert_insert_eq.
      * by transitivity s1.
      * eapply evolved_ext; [|eapply evolved_trans; [exact Hv1|exact Hv2]]. intros m. split.
        -- intros [(-> & Hs & Hne)|(j & p2 & Hj & Hbit & Hs & Hne)]; [by exists 0%nat, p|by exists (S j), p2].
        -- intros ([|j] & p2 & Hj & Hbit & Hs & Hne); simpl in *; simplify_eq; [by left|]. right. by exists j, p2.
Qed.

(** The partitions a bitmap claims, the first [np] of them. *)
Definition claims (np : Z) (bitmap : list Z) : list bool :=
  (fun i => default false (owns_bit bitmap (Z.of_nat i))) <$> seq 0 (Z.to_nat np).

Lemma owns_bit_app bitmap pad i :
  0 <= i < 8 * blen bitmap -> exists o, owns_bit (bitmap ++ pad) i = Some o /\ owns_bit bitmap i = Some o.
Proof.
  intros Hi. unfold owns_bit. rewrite (Z.shiftr_div_pow2 i 3) by lia. change (2 ^ 3) with 8.
  assert (0 <= i / 8 < blen bitmap) as Hr by (Z.div_mod_to_equations; lia).
  destruct (mread_is_Some bitmap (i / 8) Hr) as [x Hx].
  assert (mread (bitmap ++ pad) (i / 8) = Some x) as -> by (by rewrite mread_app_l by lia).
  rewrite Hx. by eexists.
Qed.

Lemma claims_read np bitmap pad j o :
  np <= 8 * blen bitmap -> claims np bitmap !! j = Some o -> owns_bit (bitmap ++ pad) (0 + Z.of_nat j) = Some o.
Proof.
  intros Hn. unfold claims. rewrite list_lookup_fmap, fmap_Some. intros (i & Hi & ->).
  apply lookup_seq in Hi as [-> Hlt].
  destruct (owns_bit_app bitmap pad (Z.of_nat (0 + j))) as (o & Ho & ->); [lia|]. exact Ho.
Qed.

(** Decoding a bitmap and entering it into the table [t]. *)
Lemma decode_and_update_ok s R t n b tb bitmap :
  counted (m_nodes s) R -> m_table s !! t = Some tb -> updatable R n (partitions tb) ->
  Forall is_byte bitmap -> blen (partitions tb) <= 8 * blen bitmap -> blen bitmap < 2 ^ 29 ->
  let ps' := zip_with (updated n b) (claims (blen (partitions tb)) bitmap) (partitions tb) in
  exists s', decode_and_update (cf_b64_encode bitmap) t n b s = URet (tt, s')
    /\ counted (m_nodes s') (rebooked R (partitions tb) ps')
    /\ m_table s' = <[t := mk_table (table_ns tb) ps']> (m_table s) /\ same_most s s'
    /\ evolved (m_nodes s) (m_nodes s') (displaced n b (claims (blen (partitions tb)) bitmap) (partitions tb)).
Proof.
  intros Hc Ht Hu Hbytes Hn Hsz. unfold decode_and_update.
  destruct (decode_loop_encode bitmap Hbytes) as (pad & Hd & Hp).
  rewrite (bind_access _ _ _ (bitmap ++ pad)).
  2:{ unfold cf_b64_decode. rewrite Hd. cbn [mbind option_bind]. rewrite decide_True; [done|].
      destruct (encode_sizes bitmap Hsz) as [_ Ho]. by rewrite (Ho _ Hd). }
  unfold table_at. rewrite (bind_access _ _ _ tb) by done.
  destruct tb as [ns ps]. cbn [partitions table_ns] in *.
  destruct (update_loop_ok (bitmap ++ pad) t n b ns ps s R [] (claims (blen ps) bitmap)) as (s' & E & H1 & H2 & H3 & H4).
  - done.
  - done.
  - done.
  - unfold claims. rewrite length_fmap, length_seq. lia.
  - intros j o. by apply claims_read.
  - exists s'. by split_and!.
Qed.

(** *** Finding tables *)

(** The first table of the list with the name [ns]. *)
Fixpoint lookup_ns (T : gmap Z as_partition_table) (l : list (option Z)) (ns : list Z) : option Z :=
  match l with
  | Some t :: l => tb ← T !! t; if decide (table_ns tb = ns) then Some t else lookup_ns T l ns
  | _ => None
  end.

(** The partitions of the namespace. *)
Definition view (T : gmap Z as_partition_table) (l : list (option Z)) (ns : list Z) : option (list as_partition) :=
  t ← lookup_ns T l ns; partitions <$> T !! t.

Definition all_live (T : gmap Z as_partition_table) (l : list (option Z)) : Prop :=
  Forall (fun p => exists t tb, p = Some t /\ T !! t = Some tb) l.

Lemma tables_get_loop_eq s l ns :
  all_live (m_table s) l -> tables_get_loop l ns s = URet (lookup_ns (m_table s) l ns, s).
Proof.
  induction 1 as [|p l (t & tb & -> & Ht) _ IH]; [done|]. cbn [tables_get_loop lookup_ns]. unfold table_at.
  rewrite (bind_access _ _ _ t), (bind_access _ _ _ tb) by done. rewrite Ht. cbn [mbind option_bind].
  by case_decide.
Qed.

Lemma lookup_ns_Some T l ns t : lookup_ns T l ns = Some t -> exists tb, T !! t = Some tb /\ table_ns tb = ns.
Proof.
  induction l as [|[t'|] l IH]; [done| |done]. cbn [lookup_ns]. destruct (T !! t') as [tb|] eqn:Ht; [|done].
  cbn [mbind option_bind]. case_decide; [|done]. intros [= <-]. eauto.
Qed.

Lemma lookup_ns_app T l1 l2 ns :
  all_live T l1 ->
  lookup_ns T (l1 ++ l2) ns = match lookup_ns T l1 ns with Some t => Some t | None => lookup_ns T l2 ns end.
Proof.
  induction 1 as [|p l (t & tb & -> & Ht) _ IH]; [done|]. cbn [lookup_ns app]. rewrite Ht. cbn [mbind option_bind].
  by case_decide.
Qed.

Lemma lookup_ns_update T l ns t tb ps :
  T !! t = Some tb -> lookup_ns (<[t := mk_table (table_ns tb) ps]> T) l ns = lookup_ns T l ns.
Proof.
  intros Ht. induction l as [|[t'|] l IH]; [done| |done]. cbn [lookup_ns]. destruct (decide (t' = t)) as [->|Hne].
  - rewrite lookup_insert_eq, Ht. cbn [mbind option_bind table_ns]. by rewrite IH.
  - rewrite lookup_insert_ne by done. by rewrite IH.
Qed.

Lemma lookup_ns_new T l ns t tb :
  T !! t = None -> all_live T l -> lookup_ns (<[t := tb]> T) l ns = lookup_ns T l ns.
Proof.
  intros Ht. induction 1 as [|p l (t' & tb' & -> & Ht') _ IH]; [done|]. cbn [lookup_ns].
  rewrite lookup_insert_ne by congruence. rewrite Ht'. cbn [mbind option_bind]. by rewrite IH.
Qed.

Lemma view_update T l ns ns' t tb ps :
  lookup_ns T l ns = Some t -> T !! t = Some tb ->
  view (<[t := mk_table (table_ns tb) ps]> T) l ns' = if decide (ns' = ns) then Some ps else view T l ns'.
Proof.
  intros Hl Ht. unfold view. rewrite lookup_ns_update by done.
  destruct (lookup_ns_Some _ _ _ _ Hl) as (tb' & Ht' & Hns). assert (tb' = tb) as -> by congruence.
  case_decide as Hd.
  - subst ns'. rewrite Hl. cbn [mbind option_bind]. by rewrite lookup_insert_eq.
  - destruct (lookup_ns T l ns') as [t2|] eqn:Hl2; [|done]. cbn [mbind option_bind].
    destruct (lookup_ns_Some _ _ _ _ Hl2) as (tb2 & Ht2 & Hns2).
    rewrite lookup_insert_ne; [done|]. intros <-. congruence.
Qed.

Lemma view_new T l ns t tb :
  T !! t = None -> all_live T l -> view (<[t := tb]> T) l ns = view T l ns.
Proof.
  intros Ht Hl. unfold view. rewrite lookup_ns_new by done. destruct (lookup_ns T l ns) as [t2|] eqn:Hl2; [|done].
  cbn [mbind option_bind]. destruct (lookup_ns_Some _ _ _ _ Hl2) as (tb2 & Ht2 & _).
  by rewrite lookup_insert_ne by congruence.
Qed.

Lemma all_live_insert T l t tb : all_live T l -> all_live (<[t := tb]> T) l.
Proof.
  intros Hl. eapply Forall_impl; [exact Hl|]. intros p (t' & tb' & -> & Ht').
  destruct (decide (t' = t)) as [->|Hne]; [exists t, tb; by rewrite lookup_insert_eq|].
  exists t', tb'. by rewrite lookup_insert_ne.
Qed.

(** *** The books of a cluster

    [base m] counts the references to the node at [m] that are not slots of tables. *)

Definition booked (base : Z -> Z) (T : gmap Z as_partition_table) (m : Z) : Z :=
  base m + msum (fun tb => slots m (partitions tb)) T.
Definition room_in (T : gmap Z as_partition_table) : Z := msum (fun tb => 2 * blen (partitions tb)) T.

(** Every table has [np] partitions and its references are counted; [k] more tables fit
    before a count could overflow. *)
Definition tables_ok (base : Z -> Z) (np k : Z) s : Prop :=
  counted (m_nodes s) (booked base (m_table s))
  /\ (forall t tb, m_table s !! t = Some tb -> blen (partitions tb) = np /\ t < next s)
  /\ (forall m, 0 <= base m /\ base m + room_in (m_table s) + 2 * np * k < 2 ^ 32)
  /\ allocs s = [] /\ n_partitions (cluster s) = np /\ 0 < np < 2 ^ 16
  /\ (forall t ts, m_tables s !! t = Some ts -> t < next s).

Lemma booked_update base T t tb ps m :
  T !! t = Some tb ->
  booked base (<[t := mk_table (table_ns tb) ps]> T) m = rebooked (booked base T) (partitions tb) ps m.
Proof. intros Ht. unfold booked, rebooked. rewrite (msum_update _ T t tb) by done. cbn [partitions]. lia. Qed.

Lemma booked_updatable base np k s t tb n :
  tables_ok base np k s -> 0 <= k -> m_table s !! t = Some tb -> 0 < base n ->
  updatable (booked base (m_table s)) n (partitions tb).
Proof.
  intros (_ & Hsz & Hb & _ & _ & Hnp & _) Hk Ht Hn. unfold updatable, booked.
  assert (forall m, 0 <= msum (fun tb => slots m (partitions tb)) (m_table s) - slots m (partitions tb)
    <= room_in (m_table s) - 2 * blen (partitions tb)) as Hm.
  { intros m. unfold room_in. rewrite (msum_delete (fun tb => slots m (partitions tb)) _ _ _ Ht).
    rewrite (msum_delete (fun tb => 2 * blen (partitions tb)) _ _ _ Ht). split.
    - pose proof (msum_le (fun _ => 0) (fun tb => slots m (partitions tb)) (delete t (m_table s))
        (fun _ tb _ => proj1 (slots_bound m (partitions tb)))) as H0'.
      rewrite msum_zero in H0'. lia.
    - pose proof (msum_le (fun tb => slots m (partitions tb)) (fun tb => 2 * blen (partitions tb)) (delete t (m_table s))
        (fun _ tb _ => proj2 (slots_bound m (partitions tb)))). lia. }
  pose proof (Hm n). destruct (Hsz t tb Ht) as [Hlen _]. split; [lia|]. intros m. destruct (Hb m). specialize (Hm m). nia.
Qed.

(** A table that an answer of the node at [n] changes. *)
Definition enter (n : Z) (b : bool) (np : Z) (bitmap : list Z) (ps : list as_partition) : list as_partition :=
  zip_with (updated n b) (claims np bitmap) ps.

Lemma enter_length n b np bitmap ps : blen ps = np -> blen (enter n b np bitmap ps) = np.
Proof. intros Hl. unfold enter, claims. rewrite length_zip_with, length_fmap, length_seq. lia. Qed.

Lemma tables_ok_decode base np k s t n b tb bitmap :
  tables_ok base np k s -> 0 <= k -> m_table s !! t = Some tb -> 0 < base n ->
  Forall is_byte bitmap -> blen bitmap = (np + 7) / 8 ->
  exists s', decode_and_update (cf_b64_encode bitmap) t n b s = URet (tt, s') /\ tables_ok base np k s'
    /\ m_table s' = <[t := mk_table (table_ns tb) (enter n b np bitmap (partitions tb))]> (m_table s) /\ same_most s s'
    /\ evolved (m_nodes s) (m_nodes s') (displaced n b (claims np bitmap) (partitions tb)).
Proof.
  intros Hs Hk Ht Hn Hbytes Hlen. pose proof (booked_updatable _ _ _ _ _ _ _ Hs Hk Ht Hn) as Hu.
  pose proof Hs as (Hc & Hsz & Hb & Ha & Hcl & Hnp & Hfr). destruct (Hsz t tb Ht) as [Hps Hfresh].
  destruct (decode_and_update_ok s _ t n b tb bitmap Hc Ht Hu Hbytes) as (s' & E & H1 & H2 & H3 & H4).
  - rewrite Hlen, Hps. Z.div_mod_to_equations. lia.
  - rewrite Hlen. Z.div_mod_to_equations. lia.
  - rewrite Hps in *. fold (enter n b np bitmap (partitions tb)) in *. exists s'. split; [done|].
    split; [|by split_and!]. pose proof (enter_length n b np bitmap _ Hps) as Hel.
    destruct H3 as (_ & Htbs & Hnext & Hal & Hclu & _). unfold tables_ok. rewrite H2, Htbs, Hnext, Hal, Hclu. split_and!; try done; try lia.
    + eapply counted_ext; [|exact H1]. intros m. symmetry. by apply booked_update.
    + intros t2 tb2. destruct (decide (t2 = t)) as [->|Hne].
      * rewrite lookup_insert_eq. intros [= <-]. done.
      * rewrite lookup_insert_ne by done. apply Hsz.
    + intros m. unfold room_in. rewrite (msum_update _ _ t tb) by done. cbn [partitions]. rewrite Hel, Hps.
      specialize (Hb m). unfold room_in in Hb. lia.
Qed.

(** The partitions of a new table. *)
Definition blank (np : Z) : list as_partition := replicate (Z.to_nat np) (mk_partition None None).

Lemma slots_blank m np : slots m (blank np) = 0.
Proof. unfold slots, blank. induction (Z.to_nat np) as [|k IH]; simpl; [done|]. rewrite IH. done. Qed.

Lemma table_create_ok base np k s ns :
  tables_ok base np k s -> 1 <= k -> blen ns < 32 ->
  exists s', as_partition_table_create ns np s = URet (next s, s') /\ tables_ok base np (k - 1) s'
    /\ m_table s' = <[next s := mk_table ns (blank np)]> (m_table s) /\ m_table s !! next s = None
    /\ m_nodes s' = m_nodes s /\ m_tables s' = m_tables s /\ m_arrays s' = m_arrays s /\ cluster s' = cluster s
    /\ next s' = next s + 1.
Proof.
  intros (Hc & Hsz & Hb & Ha & Hcl & Hnp & Hfr) Hk Hns. unfold as_partition_table_create.
  assert (malloc s = URet (true, set_allocs [] s)) as Hm by (unfold malloc; by rewrite Ha).
  rewrite (bind_ret_eq _ _ _ _ _ Hm). cbn [negb]. unfold fresh_ptr. rewrite (bind_ret_eq _ _ _ _ _ eq_refl), bind_modify.
  assert (m_table s !! next s = None) as Hf.
  { destruct (m_table s !! next s) as [tb|] eqn:E; [|done]. destruct (Hsz _ _ E). lia. }
  assert (as_strncpy ns AS_MAX_NAMESPACE_SIZE = ns) as Hn.
  { unfold as_strncpy, AS_MAX_NAMESPACE_SIZE. apply take_ge. lia. }
  eexists. split; [reflexivity|]. rewrite Hn. fold (blank np). unfold tables_ok. cbn -[blank].
  split_and!; try done; try lia.
  - eapply counted_ext; [|exact Hc]. intros m. unfold booked. rewrite msum_insert_new by done.
    cbn [partitions]. rewrite slots_blank. lia.
  - intros t tb. destruct (decide (t = next s)) as [->|Hne].
    + rewrite lookup_insert_eq. intros [= <-]. cbn [partitions]. unfold blank. rewrite length_replicate. lia.
    + rewrite lookup_insert_ne by done. intros Ht. specialize (Hsz _ _ Ht). lia.
  - intros m. unfold room_in. rewrite msum_insert_new by done. cbn [partitions]. unfold blank.
    rewrite length_replicate. specialize (Hb m). unfold room_in in Hb. lia.
  - intros t ts Ht. specialize (Hfr t ts Ht). lia.
Qed.

(** *** One namespace of an answer *)

(** While an answer is read: [tables] is the array of tables [l0], [ta] are new tables. *)
Definition reading (base : Z -> Z) (np k tables : Z) (l0 : list (option Z)) (ta : list Z) s : Prop :=
  tables_ok base np k s /\ (exists r, m_tables s !! tables = Some (mk_tables r l0))
  /\ all_live (m_table s) (l0 ++ (Some <$> ta)).

Lemma tables_ok_less base np k k' s : tables_ok base np k s -> k' <= k -> tables_ok base np k' s.
Proof.
  intros (Hc & Hsz & Hb & Ha & Hcl & Hnp & Hfr) Hk. split_and!; try done; try lia. intros m. specialize (Hb m). nia.
Qed.

Lemma view_app T l1 l2 ns :
  all_live T l1 -> view T (l1 ++ l2) ns = match view T l1 ns with Some ps => Some ps | None => view T l2 ns end.
Proof.
  intros Hl. unfold view. rewrite lookup_ns_app by done. destruct (lookup_ns T l1 ns) as [t|] eqn:E; [|done].
  destruct (lookup_ns_Some _ _ _ _ E) as (tb & Ht & _). cbn [mbind option_bind]. by rewrite Ht.
Qed.

(** The parts of the memory that reading an answer leaves alone. *)
Definition same_cluster s s' : Prop :=
  m_arrays s' = m_arrays s /\ m_tables s' = m_tables s /\ cluster s' = cluster s /\ next s <= next s'.

Lemma same_most_cluster s s' : same_most s s' -> same_cluster s s'.
Proof. intros (? & ? & Hn & _ & ? & _). split_and!; [done..|lia]. Qed.

#[global] Instance same_cluster_preorder : PreOrder same_cluster.
Proof.
  split; [by intros s|]. intros s1 s2 s3 (?&?&?&?) (?&?&?&?). split_and!; [congruence..|lia].
Qed.

(** The tables [l] of a cluster are all the tables there are; their namespaces are
    different ones of [N]. *)
Definition catalog (N : list (list Z)) (T : gmap Z as_partition_table) (l : list (option Z)) : Prop :=
  NoDup l /\ (forall t tb, T !! t = Some tb -> Some t ∈ l /\ table_ns tb ∈ N)
  /\ (forall t1 t2 tb1 tb2, T !! t1 = Some tb1 -> T !! t2 = Some tb2 -> table_ns tb1 = table_ns tb2 -> t1 = t2).

Lemma catalog_update N T l t tb ps :
  T !! t = Some tb -> catalog N T l -> catalog N (<[t := mk_table (table_ns tb) ps]> T) l.
Proof.
  intros Ht (Hnd & Hin & Hinj).
  assert (forall t' tb', <[t := mk_table (table_ns tb) ps]> T !! t' = Some tb' ->
    exists tb0, T !! t' = Some tb0 /\ table_ns tb' = table_ns tb0) as Hold.
  { intros t' tb'. destruct (decide (t' = t)) as [->|Hne].
    - rewrite lookup_insert_eq. intros [= <-]. by exists tb.
    - rewrite lookup_insert_ne by done. intros H'. by exists tb'. }
  split; [done|]. split.
  - intros t' tb' (tb0 & H0' & ->)%Hold. by apply Hin.
  - intros t1 t2 tb1 tb2 (tb3 & H3 & ->)%Hold (tb4 & H4 & ->)%Hold. by apply Hinj.
Qed.

Lemma lookup_ns_None T l ns t tb :
  all_live T l -> lookup_ns T l ns = None -> Some t ∈ l -> T !! t = Some tb -> table_ns tb <> ns.
Proof.
  induction 1 as [|p l (t' & tb' & -> & Ht') _ IH]; [by intros _ ?%elem_of_nil|]. cbn [lookup_ns]. rewrite Ht'.
  cbn [mbind option_bind]. case_decide as Hd; [done|]. intros Hno [[= ->]|Hin]%elem_of_cons Ht; [congruence|by apply IH].
Qed.

Lemma catalog_new N T l t ns ps :
  all_live T l -> T !! t = None -> lookup_ns T l ns = None -> ns ∈ N -> catalog N T l ->
  catalog N (<[t := mk_table ns ps]> T) (l ++ [Some t]).
Proof.
  intros Hl Ht Hno Hns (Hnd & Hin & Hinj). split; [|split].
  - apply NoDup_app. split; [done|]. split; [|apply NoDup_singleton]. intros p Hp ->%list_elem_of_singleton.
    apply (proj1 (Forall_forall _ _) Hl) in Hp as (t' & tb & [= <-] & Ht'). congruence.
  - intros t' tb'. rewrite elem_of_app, list_elem_of_singleton. destruct (decide (t' = t)) as [->|Hne].
    + rewrite lookup_insert_eq. intros [= <-]. auto.
    + rewrite lookup_insert_ne by done. intros [? ?]%Hin. auto.
  - assert (forall t' tb', T !! t' = Some tb' -> table_ns tb' <> ns) as Hother.
    { intros t' tb' Ht'. eapply lookup_ns_None; [done|done| |done]. by eapply Hin. }
    intros t1 t2 tb1 tb2. destruct (decide (t1 = t)) as [->|H1], (decide (t2 = t)) as [->|H2];
      rewrite ?lookup_insert_eq, ?lookup_insert_ne by done; [done|..].
    + intros [= <-] E2 En. by destruct (Hother _ _ E2).
    + intros E1 [= <-] En. by destruct (Hother _ _ E1).
    + apply Hinj.
Qed.

Lemma table_for_ok base np k tables l0 ta ns s :
  reading base np k tables l0 ta s -> 1 <= k -> blen ns < 32 ->
  let l := l0 ++ (Some <$> ta) in
  exists t ta' s' tb, table_for tables ta ns np s = URet ((t, ta'), s') /\ blen ta' <= blen ta + 1
    /\ reading base np (k - 1) tables l0 ta' s' /\ m_nodes s' = m_nodes s /\ same_cluster s s'
    /\ let l' := l0 ++ (Some <$> ta') in
       lookup_ns (m_table s') l' ns = Some t /\ m_table s' !! t = Some tb
       /\ partitions tb = default (blank np) (view (m_table s) l ns)
       /\ (forall ns', ns' <> ns -> view (m_table s') l' ns' = view (m_table s) l ns')
       /\ forall N, catalog N (m_table s) l -> ns ∈ N -> catalog N (m_table s') l'.
Proof.
  intros (Hok & (r & Hts) & Hlive) Hk Hns l. pose proof Hlive as Hlive'. apply Forall_app in Hlive' as [Hl0 Hta].
  unfold table_for, as_partition_tables_get, tables_at. rewrite bind_assoc, (bind_access _ _ _ _ Hts). cbn [tables_array].
  rewrite (bind_ret_eq _ _ _ _ _ (tables_get_loop_eq s l0 ns Hl0)).
  assert (forall t, lookup_ns (m_table s) l ns = Some t ->
    exists ta' s' tb, URet (t, ta, s) = URet (t, ta', s') /\ blen ta' <= blen ta + 1 /\ reading base np (k - 1) tables l0 ta' s'
      /\ m_nodes s' = m_nodes s /\ same_cluster s s'
      /\ lookup_ns (m_table s') (l0 ++ (Some <$> ta')) ns = Some t /\ m_table s' !! t = Some tb
      /\ partitions tb = default (blank np) (view (m_table s) l ns)
      /\ (forall ns', ns' <> ns -> view (m_table s') (l0 ++ (Some <$> ta')) ns' = view (m_table s) l ns')
      /\ forall N, catalog N (m_table s) l -> ns ∈ N -> catalog N (m_table s') (l0 ++ (Some <$> ta'))) as Hfound.
  { intros t Hl. destruct (lookup_ns_Some _ _ _ _ Hl) as (tb & Ht & _). exists ta, s, tb. split; [done|]. split; [lia|].
    split; [split; [apply (tables_ok_less _ _ k); [done|lia]|by split; [exists r|]]|]. split_and!; try done.
    unfold view. rewrite Hl. cbn [mbind option_bind]. by rewrite Ht. }
  unfold l in Hfound at 1. rewrite lookup_ns_app in Hfound by done.
  destruct (lookup_ns (m_table s) l0 ns) as [t|] eqn:E0.
  { destruct (Hfound t eq_refl) as (ta' & s' & tb & He & Hrest). by exists t, ta', s', tb. }
  rewrite (bind_ret_eq _ _ _ _ _ (tables_get_loop_eq s _ ns Hta)).
  destruct (lookup_ns (m_table s) (Some <$> ta) ns) as [t|] eqn:E1.
  { destruct (Hfound t eq_refl) as (ta' & s' & tb & He & Hrest). by exists t, ta', s', tb. }
  destruct (table_create_ok base np k s ns Hok Hk Hns) as (s' & E & Hok' & Ht' & Hf & Hn' & Hts' & Har' & Hcl' & Hnx).
  rewrite (bind_ret_eq _ _ _ _ _ E). set (t := next s) in *.
  exists t, (ta ++ [t]), s', (mk_table ns (blank np)).
  assert (all_live (m_table s') l) as Hlv by (rewrite Ht'; by apply all_live_insert).
  assert (m_table s' !! t = Some (mk_table ns (blank np))) as Htb by (rewrite Ht'; apply lookup_insert_eq).
  assert (l0 ++ (Some <$> (ta ++ [t])) = l ++ [Some t]) as Hl' by (unfold l; by rewrite fmap_app, app_assoc).
  assert (lookup_ns (m_table s) l ns = None) as Hno by (unfold l; by rewrite lookup_ns_app, E0 by done).
  split; [done|]. split; [rewrite length_app; simpl; lia|]. split.
  { split; [done|]. split; [exists r; by rewrite Hts'|]. rewrite Hl'. apply Forall_app. split; [done|].
    apply Forall_singleton. by eexists _, _. }
  split; [done|]. split; [split_and!; (done || lia)|]. cbn zeta. rewrite Hl'. split_and!.
  - rewrite lookup_ns_app by done. rewrite Ht' at 1. rewrite lookup_ns_new, Hno by done. cbn [lookup_ns].
    rewrite Htb. cbn [mbind option_bind table_ns]. by rewrite decide_True.
  - done.
  - unfold view. by rewrite Hno.
  - intros ns' Hne. rewrite view_app by done. rewrite Ht' at 1. rewrite view_new by done.
    destruct (view (m_table s) l ns'); [done|]. unfold view. cbn [lookup_ns]. rewrite Htb.
    cbn [mbind option_bind table_ns]. by rewrite decide_False by congruence.
  - intros N Hcat HN. rewrite Ht'. by apply catalog_new.
Qed.

(** *** The text of an answer *)

(** A namespace and the bitmap of the partitions a node has of it. *)
Definition entry : Type := list Z * list Z.
Definition entry_body (e : entry) (c : Z) : list Z := fst e ++ [COLON] ++ cf_b64_encode (snd e) ++ [c].
Definition entry_text (e : entry) : list Z := entry_body e SEMICOLON.
Definition entry_ok (np : Z) (e : entry) : Prop :=
  0 < blen (fst e) < AS_MAX_NAMESPACE_SIZE /\ Forall (fun c => c <> 0 /\ c <> COLON) (fst e)
  /\ Forall is_byte (snd e) /\ blen (snd e) = (np + 7) / 8.

Lemma EA_plain k : 0 <= k < 64 -> EA k <> 0 /\ EA k <> SEMICOLON /\ EA k <> NEWLINE.
Proof.
  intros Hk. pose proof (sext_check (fun k => negb (EA k =? 0) && negb (EA k =? SEMICOLON) && negb (EA k =? NEWLINE)) eq_refl k Hk) as Hc.
  cbn beta in Hc. reflect_Z. done.
Qed.

Lemma encode_plain l :
  Forall is_byte l -> Forall (fun c => c <> 0 /\ c <> SEMICOLON /\ c <> NEWLINE) (cf_b64_encode l).
Proof.
  induction l as [|a|a b|a b c l IH] using list_ind3; intros Hl;
    repeat match goal with H : Forall _ (_ :: _) |- _ => inversion H; clear H; subst end;
    cbn [cf_b64_encode]; groups; unfold is_byte in *;
    repeat (apply Forall_nil_2 || (apply Forall_cons_2; [first [done | apply EA_plain; Z.div_mod_to_equations; lia]|]));
    by apply IH.
Qed.

Lemma scan_ok stop a x c rest :
  Forall (fun c => c <> 0 /\ stop c = false) x -> c = 0 \/ stop c = true ->
  scan stop (a ++ x ++ c :: rest) (blen a) = Some (a ++ x ++ 0 :: rest, blen a + blen x).
Proof.
  intros Hx Hc. unfold scan.
  assert (forall fuel a, (length x < fuel)%nat ->
    scan_loop fuel stop (a ++ x ++ c :: rest) (blen a) = Some (a ++ x ++ 0 :: rest, blen a + blen x)) as Hloop.
  2:{ apply Hloop. rewrite !length_app. cbn [length]. lia. }
  clear a. induction Hx as [|d x [Hd0 Hd] Hx IH]; intros fuel a Hf; (destruct fuel as [|fuel]; [cbn [length] in Hf; lia|]); cbn [scan_loop app].
  - rewrite mread_app by done. cbn [mbind option_bind]. rewrite Z.add_0_r.
    destruct (Z.eqb_spec c 0) as [->|Hc0]; [done|]. destruct Hc as [|Hc]; [done|]. rewrite Hc.
    change (c :: rest) with ([c] ++ rest). by rewrite mwrite_app by done.
  - rewrite mread_app by done. cbn [mbind option_bind]. rewrite (proj2 (Z.eqb_neq d 0) Hd0), Hd.
    specialize (IH fuel (a ++ [d]) ltac:(cbn [length] in Hf; lia)). rewrite length_app, <- !app_assoc in IH.
    cbn [app] in IH. replace (blen a + 1) with (Z.of_nat (length a + length [d])) by (simpl; lia). rewrite IH.
    do 2 f_equal. simpl. lia.
Qed.

Lemma skip_name fuel tables n b name rest : forall pre ns ta s,
  Forall (fun c => c <> 0 /\ c <> COLON) name ->
  tables_update_loop (length name + fuel) tables n b (pre ++ name ++ rest) (blen pre) ns ta s
  = tables_update_loop fuel tables n b (pre ++ name ++ rest) (blen pre + blen name) ns ta s.
Proof.
  induction name as [|c name IH]; intros pre ns ta s Hn; [by rewrite Z.add_0_r|].
  inversion Hn as [|? ? [Hc0 Hcc] Hn']; subst. cbn [length Nat.add tables_update_loop app].
  rewrite (bind_access _ _ _ c) by (by apply mread_app).
  rewrite (proj2 (Z.eqb_neq c 0) Hc0), (proj2 (Z.eqb_neq c COLON) Hcc).
  specialize (IH (pre ++ [c]) ns ta s Hn'). rewrite length_app, <- !app_assoc in IH.
  replace (blen pre + 1) with (Z.of_nat (length pre + length [c])) by (simpl; lia). etransitivity; [exact IH|].
  f_equal. simpl. lia.
Qed.

(** What an entry makes of the view of the cluster. *)
Definition install (n : Z) (b : bool) (np : Z) (V : list Z -> option (list as_partition)) (e : entry)
  : list Z -> option (list as_partition) :=
  fun ns => if decide (ns = fst e) then Some (enter n b np (snd e) (default (blank np) (V ns))) else V ns.

Lemma cstr_app a x rest : Forall (fun c => c <> 0) x -> cstr (a ++ x ++ 0 :: rest) (blen a) = Some x.
Proof.
  intros Hx. unfold cstr. rewrite decide_True, Nat2Z.id, drop_app_length by lia.
  induction Hx as [|c x Hc Hx IH]; [done|]. cbn [app cstr_from]. rewrite (proj2 (Z.eqb_neq c 0) Hc), IH. done.
Qed.

Lemma update_entry base np k tables l0 ta n b e c pre rest fuel s :
  reading base np k tables l0 ta s -> 1 <= k -> 0 < base n -> entry_ok np e ->
  c = 0 \/ c = SEMICOLON \/ c = NEWLINE ->
  let l := l0 ++ (Some <$> ta) in
  exists ta' s' pre', (exists cut, pre' = pre ++ cut /\ length cut = length (entry_body e c)) /\ blen ta' <= blen ta + 1
    /\ tables_update_loop (length (fst e) + S fuel) tables n b (pre ++ entry_body e c ++ rest) (blen pre) (blen pre) ta s
       = tables_update_loop fuel tables n b (pre' ++ rest) (blen pre') (blen pre') ta' s'
    /\ reading base np (k - 1) tables l0 ta' s' /\ same_cluster s s'
    /\ (forall ns, view (m_table s') (l0 ++ (Some <$> ta')) ns = install n b np (view (m_table s) l) e ns)
    /\ evolved (m_nodes s) (m_nodes s')
         (displaced n b (claims np (snd e)) (default (blank np) (view (m_table s) l (fst e))))
    /\ forall N, catalog N (m_table s) l -> fst e ∈ N -> catalog N (m_table s') (l0 ++ (Some <$> ta')).
Proof.
  intros Hrd Hk Hn (Hlen & Hname & Hbytes & Hbm) Hc l. destruct e as [ns bitmap]. cbn [fst snd] in *.
  unfold AS_MAX_NAMESPACE_SIZE in Hlen. pose proof Hrd as ((_ & _ & _ & _ & Hnpc & Hnp & _) & _).
  unfold entry_body. cbn [fst snd]. set (enc := cf_b64_encode bitmap). rewrite <- !app_assoc. cbn [app].
  rewrite skip_name by done. cbn [tables_update_loop].
  assert (blen pre + blen ns = blen (pre ++ ns)) as Hp by (rewrite length_app; lia). rewrite Hp, (app_assoc pre ns).
  rewrite (bind_access _ _ _ COLON) by (by apply mread_app).
  change (COLON =? 0) with false. change (COLON =? COLON) with true. cbn iota.
  assert (mwrite ((pre ++ ns) ++ COLON :: enc ++ c :: rest) (blen (pre ++ ns)) [0]
    = Some ((pre ++ ns) ++ 0 :: enc ++ c :: rest)) as Hw by (by apply (mwrite_app (pre ++ ns) [COLON])).
  rewrite (bind_access _ _ _ _ Hw).
  replace (blen (pre ++ ns) - blen pre) with (blen ns) by (rewrite length_app; lia).
  rewrite (proj2 (Z.leb_gt (blen ns) 0)), (proj2 (Z.leb_gt 32 (blen ns))) by lia. cbn [orb].
  set (pre1 := pre ++ ns ++ [0]).
  assert ((pre ++ ns) ++ 0 :: enc ++ c :: rest = pre1 ++ enc ++ c :: rest) as ->
    by (unfold pre1; by rewrite <- !app_assoc).
  assert (blen (pre ++ ns) + 1 = blen pre1) as -> by (unfold pre1; rewrite !length_app; simpl; lia).
  assert (scan (fun c => (c =? SEMICOLON) || (c =? NEWLINE)) (pre1 ++ enc ++ c :: rest) (blen pre1)
    = Some (pre1 ++ enc ++ 0 :: rest, blen pre1 + blen enc)) as Hscan.
  { apply scan_ok; [|destruct Hc as [|[->| ->]]; [by left|by right|by right]]. eapply Forall_impl; [by apply encode_plain|]. intros d (Hc0 & Hc1 & Hc2).
    split; [done|]. by rewrite (proj2 (Z.eqb_neq d _) Hc1), (proj2 (Z.eqb_neq d _) Hc2). }
  rewrite (bind_access _ _ _ _ Hscan), bind_cluster_of, Hnpc.
  replace (blen pre1 + blen enc - blen pre1) with (blen enc) by lia. rewrite u32_id by (unfold is_u32; lia).
  destruct (encode_sizes bitmap) as [Hsz _]; [rewrite Hbm; Z.div_mod_to_equations; lia|].
  fold enc in Hsz. rewrite <- Hbm, <- Hsz, Z.eqb_refl. cbn [negb].
  rewrite (bind_access _ _ _ ns).
  2:{ unfold pre1. rewrite <- !app_assoc. apply cstr_app. eapply Forall_impl; [exact Hname|]. by intros d [? _]. }
  destruct (table_for_ok base np k tables l0 ta ns s Hrd Hk ltac:(lia)) as
    (t & ta' & s1 & tb & E1 & Hta & Hrd1 & Hn1 & Hcl1 & Hl1 & Ht1 & Hps1 & Hv1 & Hcat1).
  rewrite (bind_ret_eq _ _ _ _ _ E1), (bind_access _ _ _ enc).
  2:{ by apply mslice_app. }
  destruct Hrd1 as (Hok1 & Hts1 & Hlive1).
  destruct (tables_ok_decode base np (k - 1) s1 t n b tb bitmap Hok1 ltac:(lia) Ht1 Hn Hbytes Hbm)
    as (s2 & E2 & Hok2 & Ht2 & Hm2 & Hev2). fold enc in E2. rewrite (bind_ret_eq _ _ _ _ _ E2).
  exists ta', s2, (pre1 ++ enc ++ [0]). split.
  { exists (ns ++ [0] ++ enc ++ [0]). unfold pre1. rewrite <- !app_assoc. split; [done|]. unfold enc. cbn [app length].
    rewrite !length_app. cbn [length app]. rewrite !length_app. done. }
  split; [done|].
  split; [rewrite <- !app_assoc; cbn [app]; f_equal; rewrite !length_app; simpl; lia|].
  pose proof (same_most_cluster _ _ Hm2) as Hcl2. split_and!.
  - split; [done|]. split; [by destruct Hcl2 as (_ & -> & _)|]. rewrite Ht2. by apply all_live_insert.
  - by transitivity s1.
  - intros ns'. rewrite Ht2, (view_update _ _ ns ns' t tb) by done. unfold install. cbn [fst snd].
    case_decide as Hd; [|by apply Hv1]. subst ns'. by rewrite Hps1.
  - fold l in Hps1. rewrite <- Hn1, <- Hps1. exact Hev2.
  - intros N Hcat HN. rewrite Ht2. apply catalog_update; [done|]. by apply Hcat1.
Qed.

(** *** A whole answer *)

Fixpoint displaced_in (n : Z) (b : bool) (np : Z) (V : list Z -> option (list as_partition)) (es : list entry) (m : Z) : Prop :=
  match es with
  | [] => False
  | e :: es =>
      displaced n b (claims np (snd e)) (default (blank np) (V (fst e))) m
      \/ displaced_in n b np (install n b np V e) es m
  end.

Lemma install_ext n b np V V' e : (forall ns, V ns = V' ns) -> forall ns, install n b np V e ns = install n b np V' e ns.
Proof. intros HV ns. unfold install. by rewrite HV. Qed.

Lemma installs_ext n b np es : forall V V', (forall ns, V ns = V' ns) ->
  forall ns, foldl (install n b np) V es ns = foldl (install n b np) V' es ns.
Proof. induction es as [|e es IH]; intros V V' HV ns; [apply HV|]. cbn [foldl]. apply IH. by apply install_ext. Qed.

Lemma displaced_in_ext n b np es : forall V V' m, (forall ns, V ns = V' ns) ->
  displaced_in n b np V es m <-> displaced_in n b np V' es m.
Proof.
  induction es as [|e es IH]; intros V V' m HV; [done|]. cbn [displaced_in]. rewrite HV.
  rewrite (IH (install n b np V e) (install n b np V' e)); [done|]. by apply install_ext.
Qed.

(** Entries with the characters that end them, and the text they make. *)
Definition entries_text (es : list (entry * Z)) : list Z := mjoin ((fun ec => entry_body (fst ec) (snd ec)) <$> es).
Definition entries_ok (np : Z) (es : list (entry * Z)) : Prop :=
  Forall (fun ec => entry_ok np (fst ec) /\ (snd ec = 0 \/ snd ec = SEMICOLON \/ snd ec = NEWLINE)) es.

Lemma update_entries base np tables l0 n b tail post es : forall k ta pre fuel s,
  reading base np k tables l0 ta s -> blen es <= k -> 0 < base n -> entries_ok np es ->
  Forall (fun c => c <> 0 /\ c <> COLON) tail ->
  (length (entries_text es) + length tail < fuel)%nat ->
  let l := l0 ++ (Some <$> ta) in
  exists ta' s' cut, tables_update_loop fuel tables n b (pre ++ entries_text es ++ tail ++ 0 :: post) (blen pre) (blen pre) ta s
                 = URet ((true, pre ++ cut ++ tail ++ 0 :: post, ta'), s')
    /\ length cut = length (entries_text es) /\ blen ta' <= blen ta + blen es
    /\ reading base np (k - blen es) tables l0 ta' s' /\ same_cluster s s'
    /\ (forall ns, view (m_table s') (l0 ++ (Some <$> ta')) ns = foldl (install n b np) (view (m_table s) l) es.*1 ns)
    /\ evolved (m_nodes s) (m_nodes s') (displaced_in n b np (view (m_table s) l) es.*1)
    /\ forall N, catalog N (m_table s) l -> Forall (fun e => fst e ∈ N) es.*1 -> catalog N (m_table s') (l0 ++ (Some <$> ta')).
Proof.
  induction es as [|[e c] es IH]; intros k ta pre fuel s Hrd Hk Hn Hes Htail Hf l.
  - change (entries_text []) with (@nil Z) in *. cbn [app].
    assert (exists f, fuel = (length tail + S f)%nat) as [f ->]
      by (exists (fuel - length tail - 1)%nat; cbn [length] in Hf; lia).
    rewrite skip_name by done. cbn [tables_update_loop]. rewrite app_assoc.
    rewrite (bind_access _ _ _ 0) by (apply mread_app; rewrite length_app; lia). exists ta, s, []. rewrite <- app_assoc. split; [done|]. split; [done|]. split; [simpl; lia|].
    cbn [length foldl]. rewrite Z.sub_0_r. do 3 (split; [done|]). split; [|done]. apply evolved_same. by intros m [].
  - change (entries_text ((e, c) :: es)) with (entry_body e c ++ entries_text es) in *. inversion Hes as [|? ? [He Hc] Hes']; subst. cbn [length fst snd] in *.
    rewrite length_app in Hf. set (rest := entries_text es) in *.
    assert (exists f, fuel = (length (fst e) + S f)%nat /\ (length rest + length tail < f)%nat) as (f & -> & Hf').
    { exists (fuel - length (fst e) - 1)%nat.
      assert (length (fst e) + 2 <= length (entry_body e c))%nat; [|lia]. unfold entry_body. rewrite !length_app. simpl. lia. }
    rewrite <- app_assoc.
    destruct (update_entry base np k tables l0 ta n b e c pre (rest ++ tail ++ 0 :: post) f s Hrd ltac:(lia) Hn He Hc)
      as (ta1 & s1 & pre1 & (cut1 & -> & Hcut1) & Hta1 & E1 & Hrd1 & Hcl1 & Hv1 & Hev1 & Hcat1). rewrite E1.
    destruct (IH (k - 1) ta1 (pre ++ cut1) f s1 Hrd1 ltac:(lia) Hn Hes' Htail Hf') as (ta2 & s2 & cut2 & E2 & Hcut2 & Hta2 & Hrd2 & Hcl2 & Hv2 & Hev2 & Hcat2).
    exists ta2, s2, (cut1 ++ cut2). split; [rewrite E2, <- !app_assoc; done|]. split; [rewrite !length_app; lia|].
    split; [lia|]. split_and!.
    + replace (k - Z.of_nat (S (length es))) with (k - 1 - blen es) by lia. exact Hrd2.
    + by transitivity s1.
    + intros ns. rewrite Hv2. cbn [fmap list_fmap fst foldl]. apply installs_ext. exact Hv1.
    + eapply evolved_ext; [|eapply evolved_trans; [exact Hev1|exact Hev2]]. intros m. cbn [fmap list_fmap fst displaced_in].
      rewrite (displaced_in_ext n b np es.*1 _ _ m Hv1). done.
    + intros N Hcat HN. inversion HN; subst. apply Hcat2; [|done]. by apply Hcat1.
Qed.

(** The tables of the cluster. *)
Definition cluster_tables s : list (option Z) :=
  default [] (tables_array <$> m_tables s !! partition_tables (cluster s)).
Definition cluster_view s : list Z -> option (list as_partition) := view (m_table s) (cluster_tables s).

(** The array [t] of tables takes the place of the current one, which becomes garbage. *)
Definition swap_tables (t : Z) (c : as_cluster) : as_cluster :=
  mk_cluster (nodes c) t (gc c ++ [GcTables (partition_tables c)]) (user c) (password c) (seeds c) (ip_map c)
    (conn_timeout_ms c) (node_index c) (n_partitions c) (valid c).

(** An answer leaves the cluster alone, or gives it a new array of tables. *)
Definition retabled s s' : Prop :=
  m_arrays s' = m_arrays s /\ next s <= next s'
  /\ (cluster s' = cluster s /\ m_tables s' = m_tables s
      \/ exists t l, m_tables s !! t = None /\ cluster s' = swap_tables t (cluster s)
           /\ m_tables s' = <[t := mk_tables 1 l]> (m_tables s)).

Lemma copy_add_ok base np k l0 ta s :
  reading base np k (partition_tables (cluster s)) l0 ta s -> blen l0 + blen ta < 2 ^ 32 ->
  exists s', as_partition_tables_copy_add (partition_tables (cluster s)) ta s = URet (tt, s')
    /\ tables_ok base np k s' /\ cluster_tables s' = l0 ++ (Some <$> ta)
    /\ m_table s' = m_table s /\ m_nodes s' = m_nodes s /\ m_arrays s' = m_arrays s
    /\ m_tables s !! next s = None /\ cluster s' = swap_tables (next s) (cluster s)
    /\ m_tables s' = <[next s := mk_tables 1 (l0 ++ (Some <$> ta))]> (m_tables s) /\ next s' = next s + 1.
Proof.
  intros ((Hc & Hsz & Hb & Ha & Hcl & Hnp & Hfr) & (r & Hts) & Hlive) Hl.
  unfold as_partition_tables_copy_add, tables_at. rewrite (bind_access _ _ _ _ Hts). cbn [tables_array].
  unfold as_partition_tables_create. rewrite bind_assoc.
  assert (malloc s = URet (true, set_allocs [] s)) as Hm by (unfold malloc; by rewrite Ha).
  rewrite (bind_ret_eq _ _ _ _ _ Hm). cbn [negb]. unfold fresh_ptr. rewrite bind_assoc, (bind_ret_eq _ _ _ _ _ eq_refl).
  rewrite bind_assoc, bind_modify, bind_ret, u32_id by (unfold is_u32; lia). cbn [next set_allocs].
  rewrite (bind_access _ _ _ (mk_tables 1 (replicate (Z.to_nat (blen l0 + blen ta)) None))) by apply lookup_insert_eq.
  cbn [tables_array tables_refs]. rewrite (bind_access _ _ _ (l0 ++ (Some <$> ta))).
  2:{ replace (Z.to_nat (blen l0 + blen ta)) with (length l0 + length ta)%nat by lia. rewrite replicate_add.
      rewrite mwrite_0 by (by rewrite length_replicate). cbn [mbind option_bind].
      rewrite <- (app_nil_r (replicate (length ta) None)). rewrite mwrite_app by (by rewrite ?length_fmap, ?length_replicate).
      by rewrite app_nil_r. }
  rewrite bind_modify. eexists. split; [reflexivity|]. unfold tables_ok, cluster_tables. cbn.
  rewrite lookup_insert_eq. split_and!; try done; try lia.
  - intros t tb Ht. specialize (Hsz t tb Ht). lia.
  - intros t ts. destruct (decide (t = next s)) as [->|Hne]; [lia|]. rewrite !lookup_insert_ne by done.
    intros Ht. specialize (Hfr t ts Ht). lia.
  - destruct (m_tables s !! next s) as [ts|] eqn:E; [|done]. specialize (Hfr _ _ E). lia.
  - apply insert_insert_eq.
Qed.

Lemma tables_update_ok base np k n b es pre tail post s r l0 :
  tables_ok base np k s -> blen es <= k -> 0 < base n -> entries_ok np es -> Forall (fun c => c <> 0 /\ c <> COLON) tail ->
  m_tables s !! partition_tables (cluster s) = Some (mk_tables r l0) -> all_live (m_table s) l0 ->
  blen l0 + blen es < 2 ^ 32 ->
  exists s' cut, as_partition_tables_update n (pre ++ entries_text es ++ tail ++ 0 :: post) (blen pre) b s
                 = URet ((true, pre ++ cut ++ tail ++ 0 :: post), s') /\ length cut = length (entries_text es)
    /\ tables_ok base np (k - blen es) s'
    /\ (forall ns, cluster_view s' ns = foldl (install n b np) (cluster_view s) es.*1 ns)
    /\ all_live (m_table s') (cluster_tables s')
    /\ evolved (m_nodes s) (m_nodes s') (displaced_in n b np (cluster_view s) es.*1) /\ retabled s s'
    /\ forall N, catalog N (m_table s) l0 -> Forall (fun e => fst e ∈ N) es.*1 -> catalog N (m_table s') (cluster_tables s').
Proof.
  intros Hok Hk Hn Hes Htail Hts Hlive Hlen. unfold as_partition_tables_update. rewrite bind_cluster_of.
  assert (cluster_tables s = l0) as Hl0 by (unfold cluster_tables; by rewrite Hts).
  destruct (update_entries base np (partition_tables (cluster s)) l0 n b tail post es k [] pre
    (S (length (pre ++ entries_text es ++ tail ++ 0 :: post))) s) as (ta & s1 & cut & E1 & Hcut & Hta & Hrd1 & Hcl1 & Hv1 & Hev1 & Hcat1).
  - split; [done|]. split; [by exists r|]. by rewrite app_nil_r.
  - done.
  - done.
  - done.
  - done.
  - rewrite !length_app. lia.
  - rewrite (bind_ret_eq _ _ _ _ _ E1). cbn [negb]. change (Some <$> []) with (@nil (option Z)) in Hv1, Hev1, Hcat1. rewrite app_nil_r in Hv1, Hev1, Hcat1.
    unfold cluster_view. rewrite Hl0. destruct Hcl1 as (Har1 & Hts1 & Hclu1 & Hnx1). destruct ta as [|t ta].
    + exists s1, cut. split; [done|]. split; [done|]. destruct Hrd1 as (Hok1 & _ & Hlive1). rewrite app_nil_r in Hlive1.
      assert (cluster_tables s1 = l0) as Hl1 by (unfold cluster_tables; by rewrite Hclu1, Hts1, Hts).
      split; [done|]. rewrite Hl1. split; [intros ns; rewrite <- Hv1; by rewrite app_nil_r|]. split; [done|]. split; [done|]. split; [by split; [|split; [|left]]|].
      rewrite app_nil_r in Hcat1. exact Hcat1.
    + rewrite <- Hclu1 in Hrd1 |- *. pose proof Hrd1 as (_ & _ & Hlive1).
      destruct (copy_add_ok base np (k - blen es) l0 (t :: ta) s1 Hrd1) as (s2 & E2 & Hok2 & Hl2 & Ht2 & Hn2 & Ha2 & Hf2 & Hc2 & Hs2 & Hnx2).
      { cbn [length] in *. lia. }
      replace (0 <? blen (t :: ta)) with true by (symmetry; apply Z.ltb_lt; simpl; lia).
      rewrite (bind_ret_eq _ _ _ _ _ E2). exists s2, cut. split; [done|]. split; [done|]. rewrite Hl2, Ht2, Hn2.
      do 4 (split; [done|]). split; [|exact Hcat1]. split; [congruence|]. split; [lia|]. right. exists (next s1), (l0 ++ (Some <$> (t :: ta))).
      rewrite <- Hts1, <- Hclu1. done.
Qed.

(** *** Looking up a node *)

Definition with_index (i : Z) (c : as_cluster) : as_cluster :=
  mk_cluster (nodes c) (partition_tables c) (gc c) (user c) (password c) (seeds c) (ip_map c) (conn_timeout_ms c)
    i (n_partitions c) (valid c).

(** The index of the random node moved, and is a 32-bit number if it was one. *)
Definition reindexed (c c' : as_cluster) : Prop :=
  exists i, c' = with_index i c /\ (0 <= node_index c < 2 ^ 32 -> 0 <= i < 2 ^ 32).

Lemma reindexed_refl c : reindexed c c.
Proof. exists (node_index c). by destruct c. Qed.

(** A lookup changes nothing but its two counters and the references to what it returns. *)
Definition looked_up s s' : Prop :=
  m_arrays s' = m_arrays s /\ m_table s' = m_table s /\ m_tables s' = m_tables s /\ next s' = next s
  /\ allocs s' = allocs s /\ net s' = net s /\ opened s' = opened s /\ closed s' = closed s
  /\ reindexed (cluster s) (cluster s').

Definition is_active s (n : Z) : Prop := exists node, m_nodes s !! n = Some node /\ active node = true.

(** [o] was reserved: an active node, with one more reference. *)
Definition reserved R s (o : option Z) s' : Prop :=
  looked_up s s'
  /\ match o with
     | Some n => is_active s n /\ counted (m_nodes s') (plus R n 1) /\ evolved (m_nodes s) (m_nodes s') (fun _ => False)
     | None => m_nodes s' = m_nodes s
     end.

(** Nodes that can be reserved. *)
Definition reservable R (n : Z) : Prop := 0 < R n /\ R n + 1 < 2 ^ 32.

Lemma reserve_eq s R n :
  counted (m_nodes s) R -> reservable R n -> is_active s n ->
  exists s', as_node_reserve n s = URet (tt, s') /\ reserved R s (Some n) s'.
Proof.
  intros Hc [Hr Hb] Ha. destruct (reserve_counted s R n Hc Hr Hb) as (s' & E & Hc' & (Ht & Hm) & Hv).
  exists s'. split; [done|]. split; [|done]. destruct (counted_live _ _ _ Hc Hr) as [node Hn].
  unfold as_node_reserve in E. rewrite (on_node_eq _ _ _ _ Hn) in E. injection E as <-.
  repeat split; try done. apply reindexed_refl.
Qed.

(** Whether a node is active does not depend on its references. *)
Definition index_at (array : list (option Z)) (i : Z) : option Z := array !! Z.to_nat (i mod blen array) ≫= id.

Lemma random_loop_ok R k : forall array s,
  counted (m_nodes s) R -> (0 < length array)%nat -> Forall (fun p => exists n, p = Some n /\ reservable R n) array ->
  0 <= node_index (cluster s) < 2 ^ 32 ->
  exists o s', random_loop k array s = URet (o, s') /\ reserved R s o s'
    /\ (o = None -> forall j n, 0 <= j < Z.of_nat k -> index_at array (u32 (node_index (cluster s) + j)) = Some n -> ~ is_active s n).
Proof.
  induction k as [|k IH]; intros array s Hc Hlen Hall Hi; cbn [random_loop].
  { exists None, s. split; [done|]. split.
    - split; [|done]. repeat split; try done. apply reindexed_refl.
    - intros _ j n Hj. lia. }
  unfold next_index. rewrite !bind_assoc, bind_cluster_of, bind_assoc, bind_modify, bind_ret.
  set (idx := node_index (cluster s)) in *. set (s1 := set_cluster _ s).
  assert (0 <= node_index (cluster s1) < 2 ^ 32) as Hidx1 by apply u32_range.
  assert (0 <= idx mod blen array < blen array) as Hm by (apply Z.mod_pos_bound; lia).
  destruct (lookup_lt_is_Some_2 array (Z.to_nat (idx mod blen array))) as [p Hp]; [lia|].
  destruct (proj1 (Forall_lookup _ _) Hall _ _ Hp) as (n & -> & Hres).
  rewrite (bind_access _ _ _ n). 2:{ rewrite aget_nonneg, Hp by lia. done. }
  destruct (counted_live _ _ _ Hc (proj1 Hres)) as [node Hn].
  rewrite (bind_node_at _ _ _ node) by done. destruct (active node) eqn:Hact.
  - destruct (reserve_eq s1 R n Hc Hres) as (s2 & E2 & (Hlk & Hrs)); [by exists node|].
    rewrite (bind_ret_eq _ _ _ _ _ E2). exists (Some n), s2. split; [done|]. split; [|done]. split; [|exact Hrs].
    destruct Hlk as (?&?&?&?&?&?&?&?&i&Hc2&Hi2). repeat split; try done. exists i. rewrite Hc2. split; [done|]. intros _. by apply Hi2.
  - destruct (IH array s1 Hc Hlen Hall) as (o & s2 & E2 & (Hlk & Hrs) & Hnone).
    { cbn. pose proof (u32_range (idx + 1)) as Hu. unfold is_u32 in Hu. exact Hu. }
    exists o, s2. split; [done|]. split.
    + split; [|exact Hrs]. destruct Hlk as (?&?&?&?&?&?&?&?&i&Hc2&Hi2). repeat split; try done. exists i. rewrite Hc2. split; [done|]. intros _. by apply Hi2.
    + intros Ho j m Hj Hjm. destruct (decide (j = 0)) as [->|Hj0].
      * rewrite Z.add_0_r, u32_id in Hjm by (unfold is_u32; lia). unfold index_at in Hjm. rewrite Hp in Hjm.
        injection Hjm as <-. intros (node' & Hn' & Ha'). congruence.
      * apply (Hnone Ho (j - 1) m); [lia|]. rewrite <- Hjm. f_equal. cbn. unfold u32. rewrite Zplus_mod_idemp_l. f_equal. lia.
Qed.

(** An index reaches every slot before the counter starts over. *)
Lemma index_covers (array : list (option Z)) i (k : nat) :
  0 <= i -> i + blen array <= 2 ^ 32 -> (k < length array)%nat ->
  exists j, 0 <= j < blen array /\ index_at array (u32 (i + j)) = array !! k ≫= id.
Proof.
  intros Hi Hb Hk. set (L := blen array). exists ((Z.of_nat k - i) mod L).
  assert (0 <= (Z.of_nat k - i) mod L < L) as Hm by (apply Z.mod_pos_bound; lia). split; [done|].
  unfold index_at. rewrite u32_id by (unfold is_u32; lia). fold L. rewrite Zplus_mod_idemp_r.
  replace (i + (Z.of_nat k - i)) with (Z.of_nat k) by lia. rewrite Z.mod_small by lia. by rewrite Nat2Z.id.
Qed.

Definition nodes_ready R s : Prop :=
  exists r array, m_arrays s !! nodes (cluster s) = Some (mk_nodes r array) /\ 1 <= r /\ r + 1 < 2 ^ 32
    /\ Forall (fun p => exists n, p = Some n /\ reservable R n) array /\ 0 <= node_index (cluster s) < 2 ^ 32.

Lemma get_random_ok R s :
  counted (m_nodes s) R -> nodes_ready R s ->
  exists o s', as_node_get_random s = URet (o, s') /\ reserved R s o s'
    /\ (o = None -> forall r array, m_arrays s !! nodes (cluster s) = Some (mk_nodes r array) ->
        node_index (cluster s) + blen array <= 2 ^ 32 -> forall n, Some n ∈ array -> ~ is_active s n).
Proof.
  intros Hc (r & array & Ha & Hr & Hr' & Hall & Hi). unfold as_node_get_random, as_nodes_reserve, array_at.
  rewrite bind_assoc, bind_cluster_of, bind_assoc, (bind_access _ _ _ _ Ha), bind_assoc, bind_modify, bind_ret.
  cbn [nodes_refs nodes_array]. rewrite u32_id by (unfold is_u32; lia). set (a := nodes (cluster s)) in *.
  set (s1 := set_arrays _ s). rewrite (bind_access _ _ _ (mk_nodes (r + 1) array)) by apply lookup_insert_eq.
  cbn [nodes_array].
  assert (exists o s2, random_loop (length array) array s1 = URet (o, s2) /\ reserved R s1 o s2
    /\ (o = None -> forall j n, 0 <= j < blen array -> index_at array (u32 (node_index (cluster s1) + j)) = Some n -> ~ is_active s1 n))
    as (o & s2 & E2 & (Hlk & Hrs) & Hnone).
  { destruct array as [|p array].
    - exists None, s1. split; [done|]. split; [|intros _ j n Hj; simpl in Hj; lia].
      split; [|done]. repeat split; try done. apply reindexed_refl.
    - apply random_loop_ok; [done|simpl; lia|done|done]. }
  rewrite (bind_ret_eq _ _ _ _ _ E2). destruct Hlk as (Har & Htb & Hts & Hnx & Hal & Hnet & Hop & Hcl & i & Hclu & Hi').
  unfold as_nodes_release, array_at. rewrite bind_assoc, (bind_access _ _ _ (mk_nodes (r + 1) array)).
  2:{ rewrite Har. apply lookup_insert_eq. }
  cbn [nodes_refs nodes_array]. replace (r + 1 - 1) with r by lia. rewrite u32_id by (unfold is_u32; lia).
  destruct (Z.eqb_spec r 0) as [|Hr0]; [lia|]. rewrite bind_modify.
  eexists o, _. split; [done|]. split.
  - split; [|exact Hrs]. repeat split; try done.
    + cbn. rewrite Har. unfold s1. cbn. rewrite insert_insert_eq. by apply insert_id.
    + exists i. cbn. by rewrite Hclu.
  - intros -> r2 array2 Ha2 Hb n Hn. rewrite Ha in Ha2. injection Ha2 as <- <-.
    apply list_elem_of_lookup in Hn as [k Hk]. pose proof (lookup_lt_Some _ _ _ Hk).
    destruct (index_covers array (node_index (cluster s)) k ltac:(lia) Hb ltac:(lia)) as (j & Hj & Hjk).
    apply (Hnone eq_refl j n Hj). cbn. rewrite Hjk, Hk. done.
Qed.

(** The nodes a request may go to, the preferred one first. *)
Definition candidates (p : as_partition) (write : bool) (replica : as_policy_replica) (r : Z) : list Z :=
  omap id
    (match write, replica with
     | false, REPLICA_ANY =>
         match prole p, master p with
         | None, m => [m]
         | pr, None => [pr]
         | pr, m => if negb (Z.land r 1 =? 0) then [m; pr] else [pr; m]
         end
     | _, _ => [master p]
     end).

Definition active_at s (n : Z) : bool := match m_nodes s !! n with Some node => active node | None => false end.

Lemma active_at_spec s n : active_at s n = true <-> is_active s n.
Proof.
  unfold active_at, is_active. split.
  - destruct (m_nodes s !! n) as [node|]; [eauto|done].
  - by intros (node & -> & ?).
Qed.

(** No node of the cluster is active, unless the index of the random node wraps around. *)
Definition none_active s : Prop :=
  forall r array, m_arrays s !! nodes (cluster s) = Some (mk_nodes r array) ->
    node_index (cluster s) + blen array <= 2 ^ 32 -> forall n, Some n ∈ array -> ~ is_active s n.

(** [o] is the first active one of [l]; there may be none, and a random node is taken. *)
Definition chosen R s (l : list Z) (o : option Z) s' : Prop :=
  reserved R s o s'
  /\ match List.find (active_at s) l with Some n => o = Some n | None => o = None -> none_active s end.

Lemma reserve_node_ok R s p :
  counted (m_nodes s) R -> nodes_ready R s -> (forall n, p = Some n -> reservable R n) ->
  exists o s', reserve_node p s = URet (o, s') /\ chosen R s (omap id [p]) o s'.
Proof.
  intros Hc Hr Hp. destruct p as [n|]; cbn [reserve_node omap list_omap id].
  - destruct (counted_live _ _ _ Hc (proj1 (Hp n eq_refl))) as [node Hn]. rewrite (bind_node_at _ _ _ _ Hn).
    unfold chosen. cbn [List.find]. unfold active_at at 1. rewrite Hn. destruct (active node) eqn:Ha.
    + destruct (reserve_eq s R n Hc (Hp n eq_refl)) as (s' & E & Hres); [by exists node|].
      rewrite (bind_ret_eq _ _ _ _ _ E). by exists (Some n), s'.
    + destruct (get_random_ok R s Hc Hr) as (o & s' & E & Hres & Hnone). by exists o, s'.
  - destruct (get_random_ok R s Hc Hr) as (o & s' & E & Hres & Hnone). by exists o, s'.
Qed.

Lemma reserve_alternate_ok R s n p :
  counted (m_nodes s) R -> nodes_ready R s -> reservable R n -> (forall m, p = Some m -> reservable R m) ->
  exists o s', reserve_node_alternate n p s = URet (o, s') /\ chosen R s (omap id [Some n; p]) o s'.
Proof.
  intros Hc Hr Hn Hp. unfold reserve_node_alternate. destruct (counted_live _ _ _ Hc (proj1 Hn)) as [node Hnode].
  rewrite (bind_node_at _ _ _ _ Hnode). unfold chosen. cbn [omap list_omap id List.find]. unfold active_at at 1.
  rewrite Hnode. destruct (active node) eqn:Ha.
  - destruct (reserve_eq s R n Hc Hn) as (s' & E & Hres); [by exists node|].
    rewrite (bind_ret_eq _ _ _ _ _ E). by exists (Some n), s'.
  - by apply reserve_node_ok.
Qed.

Lemma partition_id_range np d :
  2 <= blen d -> 0 < np < 2 ^ 16 -> exists id, cl_partition_getid np d = Some id /\ 0 <= id < np.
Proof.
  intros Hd Hnp. unfold cl_partition_getid, mslice. rewrite decide_True by lia. cbn [mbind option_bind].
  eexists. split; [done|]. rewrite (u32_id (np - 1)) by (unfold is_u32; lia).
  set (x := of_mem _ _). assert (0 <= Z.land x (np - 1)) by (apply Z.land_nonneg; lia).
  pose proof (land_le x (np - 1) ltac:(lia)).
  rewrite u16_id by lia. lia.
Qed.

(** A partition of a cluster: what its view says of the digest. *)
Definition partition_of s (ns d : list Z) : option as_partition :=
  ps ← cluster_view s ns;
  id ← cl_partition_getid (n_partitions (cluster s)) d;
  ps !! Z.to_nat id.

Lemma table_get_node_ok R s t tb d write replica :
  counted (m_nodes s) R -> nodes_ready R s -> (forall n, 0 < R n -> reservable R n) ->
  m_table s !! t = Some tb -> blen (partitions tb) = n_partitions (cluster s) ->
  (forall n, slots n (partitions tb) <= R n) -> 0 < n_partitions (cluster s) < 2 ^ 16 -> 2 <= blen d ->
  exists o s' id p, as_partition_table_get_node (Some t) d write replica s = URet (o, s')
    /\ cl_partition_getid (n_partitions (cluster s)) d = Some id /\ partitions tb !! Z.to_nat id = Some p
    /\ chosen R s (candidates p write replica (randomizer s)) o s'.
Proof.
  intros Hc Hr Hall Ht Hsz Hslots Hnp Hd. cbn [as_partition_table_get_node]. rewrite bind_cluster_of.
  destruct (partition_id_range (n_partitions (cluster s)) d Hd Hnp) as (id & Hid & Hrange).
  rewrite (bind_access _ _ _ _ Hid). unfold table_at. rewrite (bind_access _ _ _ _ Ht).
  destruct (lookup_lt_is_Some_2 (partitions tb) (Z.to_nat id)) as [p Hp]; [lia|].
  rewrite (bind_access _ _ _ p) by (by rewrite aget_nonneg by lia).
  assert (forall b n, slot_of b p = Some n -> reservable R n) as Hslot.
  { intros b n Hb. apply Hall. pose proof (lsum_ge (uses n) _ _ _ (fun p => proj1 (uses_bound n p)) Hp) as Hge.
    specialize (Hslots n). unfold slots in Hslots. enough (1 <= uses n p) by lia.
    unfold uses. destruct b; simpl in Hb; rewrite Hb, is_node_same; [destruct (is_node n (prole p))|destruct (is_node n (master p))]; simpl; lia. }
  pose proof (Hslot true) as Hmaster. pose proof (Hslot false) as Hprole. cbn [slot_of] in Hmaster, Hprole.
  enough (exists o s', (if write then reserve_node (master p) else _) s = URet (o, s')
    /\ chosen R s (candidates p write replica (randomizer s)) o s') as (o & s' & E & Hch) by (by exists o, s', id, p).
  unfold candidates. destruct write; [by apply reserve_node_ok|]. destruct replica; [by apply reserve_node_ok|].
  destruct (prole p) as [pr|] eqn:Epr; [|by apply reserve_node_ok].
  destruct (master p) as [ms|] eqn:Ems; [|by apply reserve_node_ok].
  unfold next_random. rewrite bind_assoc, bind_gets, bind_assoc, bind_modify, bind_ret.
  set (s1 := set_randomizer _ s).
  assert (forall l o s', chosen R s1 l o s' -> chosen R s l o s') as Hs1 by (by intros l o s').
  destruct (negb (Z.land (randomizer s) 1 =? 0)).
  - destruct (reserve_alternate_ok R s1 ms (Some pr)) as (o & s' & E & Hch); [done|done|by apply Hmaster|done|].
    exists o, s'. split; [done|]. by apply Hs1.
  - destruct (reserve_alternate_ok R s1 pr (Some ms)) as (o & s' & E & Hch); [done|done|by apply Hprole|done|].
    exists o, s'. split; [done|]. by apply Hs1.
Qed.

(** A cluster in which nodes can be looked up. *)
Definition lookup_ready R s : Prop :=
  counted (m_nodes s) R /\ nodes_ready R s /\ (forall n, 0 < R n -> reservable R n)
  /\ (exists r l0, m_tables s !! partition_tables (cluster s) = Some (mk_tables r l0) /\ 1 <= r /\ r + 1 < 2 ^ 32
       /\ all_live (m_table s) l0)
  /\ (forall t tb, m_table s !! t = Some tb ->
        blen (partitions tb) = n_partitions (cluster s) /\ forall n, slots n (partitions tb) <= R n)
  /\ (m_table s = ∅ \/ 0 < n_partitions (cluster s) < 2 ^ 16).

Lemma get_partition_table_ok R s ns :
  lookup_ready R s -> as_cluster_get_partition_table ns s = URet (lookup_ns (m_table s) (cluster_tables s) ns, s).
Proof.
  intros (_ & _ & _ & (r & l0 & Hts & Hr & Hr' & Hlive) & _). unfold as_cluster_get_partition_table, cluster_tables.
  unfold as_partition_tables_reserve, tables_at. rewrite bind_assoc, bind_cluster_of, bind_assoc, (bind_access _ _ _ _ Hts).
  rewrite bind_assoc, bind_modify, bind_ret. cbn [tables_refs tables_array]. rewrite u32_id by (unfold is_u32; lia).
  set (t := partition_tables (cluster s)) in *. set (s1 := set_tables _ s).
  unfold as_partition_tables_get, tables_at. rewrite bind_assoc.
  rewrite (bind_access _ _ _ (mk_tables (r + 1) l0)) by apply lookup_insert_eq. cbn [tables_array].
  rewrite (bind_ret_eq _ _ _ _ _ (tables_get_loop_eq s1 l0 ns Hlive)).
  unfold as_partition_tables_release, tables_at. rewrite bind_assoc.
  rewrite (bind_access _ _ _ (mk_tables (r + 1) l0)) by apply lookup_insert_eq. cbn [tables_refs tables_array].
  replace (r + 1 - 1) with r by lia. rewrite u32_id by (unfold is_u32; lia).
  destruct (Z.eqb_spec r 0) as [|Hr0]; [lia|]. rewrite bind_modify, Hts. cbn [fmap option_fmap option_map default].
  unfold mret, m_ret. f_equal. f_equal. unfold s1, set_tables. cbn. rewrite insert_insert_eq, insert_id by done.
  by destruct s.
Qed.

Lemma node_get_ok R s ns d write replica :
  lookup_ready R s -> 2 <= blen d ->
  let l := match partition_of s ns d with Some p => candidates p write replica (randomizer s) | None => [] end in
  exists o s', as_node_get ns d write replica s = URet (o, s') /\ chosen R s l o s'.
Proof.
  intros Hr Hd l. unfold as_node_get. rewrite (bind_ret_eq _ _ _ _ _ (get_partition_table_ok R s ns Hr)).
  destruct Hr as (Hc & Hnr & Hall & (r & l0 & Hts & _) & Htab & Hnp). unfold partition_of, cluster_view, view in l.
  destruct (lookup_ns (m_table s) (cluster_tables s) ns) as [t|] eqn:Hl.
  - destruct (lookup_ns_Some _ _ _ _ Hl) as (tb & Ht & _). destruct (Htab t tb Ht) as [Hsz Hsl].
    destruct Hnp as [Hno|Hnp]; [by rewrite Hno, lookup_empty in Ht|].
    destruct (table_get_node_ok R s t tb d write replica Hc Hnr Hall Ht Hsz Hsl Hnp Hd) as (o & s' & id & p & E & Hid & Hp & Hch).
    exists o, s'. split; [done|]. subst l. cbn [mbind option_bind]. rewrite Ht. cbn [mbind option_bind fmap option_fmap option_map].
    rewrite Hid. cbn [mbind option_bind]. by rewrite Hp.
  - cbn [as_partition_table_get_node]. destruct (get_random_ok R s Hc Hnr) as (o & s' & E & Hres & Hnone). by exists o, s'.
Qed.

(** C30: Looking up the node for a key.  For the partition the digest falls into, a write
    or a read from the master goes to the master, a read from any replica alternates
    between master and prole; the call returns the first of these nodes that is active
    and otherwise a random active node, NULL only when no node of the cluster is active
    (or the 32-bit index of the random node wraps around).  The node returned has exactly
    one more reference; nothing else changes. *)
Theorem node_lookup R s ns d write replica :
  lookup_ready R s -> 2 <= blen d ->
  let l := match partition_of s ns d with Some p => candidates p write replica (randomizer s) | None => [] end in
  exists o s', as_node_get ns d write replica s = URet (o, s') /\ chosen R s l o s'.
Proof. apply node_get_ok. Qed.

(** C15: What a node's answer does to the cluster.  An answer with well-formed entries
    (namespace, colon, base-64 bitmap; then a semicolon, a newline or the end of the text,
    behind which there is a string without a colon) is read to its end; then, for every
    namespace it names, the partitions whose bit is set have the node as their master (or
    prole), the node is removed from those whose bit is not set, and everything else is
    as it was; new namespaces get a table.  Every node that lost a partition is told to
    send its own map again, no other node changes, and the reference counts are again
    exactly the numbers of references. *)
Theorem replicas_installed base np k n b es pre tail post s r l0 :
  tables_ok base np k s -> blen es <= k -> 0 < base n -> entries_ok np es -> Forall (fun c => c <> 0 /\ c <> COLON) tail ->
  m_tables s !! partition_tables (cluster s) = Some (mk_tables r l0) -> all_live (m_table s) l0 ->
  blen l0 + blen es < 2 ^ 32 ->
  exists s' buf, as_partition_tables_update n (pre ++ entries_text es ++ tail ++ 0 :: post) (blen pre) b s = URet ((true, buf), s')
    /\ tables_ok base np (k - blen es) s'
    /\ (forall ns, cluster_view s' ns = foldl (install n b np) (cluster_view s) es.*1 ns)
    /\ evolved (m_nodes s) (m_nodes s') (displaced_in n b np (cluster_view s) es.*1).
Proof.
  intros Hok Hk Hn Hes Htail Hts Hlive Hlen.
  destruct (tables_update_ok base np k n b es pre tail post s r l0 Hok Hk Hn Hes Htail Hts Hlive Hlen)
    as (s' & cut & E & _ & H1 & H2 & _ & H4 & _).
  by eexists s', _.
Qed.

(** An entry that ends with the buffer instead of a semicolon is entered, and then the
    reading goes on behind the NUL that ended it: [ns = ++p] steps over it. *)
Theorem unterminated_entry_overreads base np k n b e pre s r l0 :
  tables_ok base np k s -> 1 <= k -> 0 < base n -> entry_ok np e ->
  m_tables s !! partition_tables (cluster s) = Some (mk_tables r l0) -> all_live (m_table s) l0 ->
  as_partition_tables_update n (pre ++ entry_body e 0) (blen pre) b s = UB.
Proof.
  intros Hok Hk Hn He Hts Hlive. unfold as_partition_tables_update. rewrite bind_cluster_of.
  assert (exists f, S (length (pre ++ entry_body e 0)) = (length (fst e) + S (S f))%nat) as [f Hf].
  { exists (length pre + length (entry_body e 0) - length (fst e) - 1)%nat. unfold entry_body. rewrite !length_app. simpl. lia. }
  rewrite Hf. destruct (update_entry base np k (partition_tables (cluster s)) l0 [] n b e 0 pre [] (S f) s)
    as (ta & s1 & pre1 & _ & _ & E & _).
  - split; [done|]. split; [by exists r|]. by rewrite app_nil_r.
  - done.
  - done.
  - done.
  - by left.
  - rewrite !app_nil_r in E. unfold mbind, m_bind. rewrite E. cbn [tables_update_loop].
    unfold mbind, m_bind, access. unfold mread. rewrite decide_True, Nat2Z.id, lookup_ge_None_2 by lia. done.
Qed.
End References.

(** ** Partition numbers *)

(** The partition of a key depends on the byte order of the host: the first two bytes
    of the digest are read low byte first on a little-endian host and high byte first on
    the big-endian ones the client was ported to.  The same key then belongs to different
    partitions, although the map of partitions comes from the server. *)
Theorem partition_depends_on_host a b d np :
  is_byte a -> is_byte b -> 0 < np < 2 ^ 16 ->
  @cl_partition_getid x86_64 np (a :: b :: d) = Some (Z.land (a + 256 * b) (np - 1))
  /\ @cl_partition_getid ppc64 np (a :: b :: d) = Some (Z.land (256 * a + b) (np - 1)).
Proof.
  intros Ha Hb Hnp. unfold cl_partition_getid, mslice. rewrite decide_True by (simpl; lia).
  change (take (Z.to_nat 2) (drop (Z.to_nat 0) (a :: b :: d))) with [a; b]. cbn [mbind option_bind].
  rewrite (u32_id (np - 1)) by (unfold is_u32; lia).
  assert (forall x, 0 <= x -> u16 (Z.land x (np - 1)) = Z.land x (np - 1)) as Hu.
  { intros x Hx. assert (0 <= Z.land x (np - 1)) by (apply Z.land_nonneg; by left).
    pose proof (land_le x (np - 1) ltac:(lia)). apply u16_id. lia. }
  unfold is_byte in *. split.
  - change (of_mem (@host_endian x86_64) [a; b]) with ((0 * 256 + b) * 256 + a).
    replace ((0 * 256 + b) * 256 + a) with (a + 256 * b) by lia. rewrite Hu by lia. done.
  - change (of_mem (@host_endian ppc64) [a; b]) with ((0 * 256 + a) * 256 + b).
    replace ((0 * 256 + a) * 256 + b) with (256 * a + b) by lia. rewrite Hu by lia. done.
Qed.

Lemma partition_depends_on_host_witness :
  @cl_partition_getid x86_64 4096 [1; 0; 7] = Some 1 /\ @cl_partition_getid ppc64 4096 [1; 0; 7] = Some 256.
Proof. apply (partition_depends_on_host 1 0 [7] 4096); unfold is_byte; lia. Defined.

(** ** Examples *)

Definition sample_q : cf_queue Z := q0.

(** Two nodes in a cluster of eight partitions without tables. *)
Definition sample_mem : mem Z :=
  mk_mem {[1 := sample_node 1 sample_q; 2 := sample_node 1 sample_q]} {[10 := mk_nodes 1 [Some 1; Some 2]]} ∅
    {[20 := mk_tables 1 []]} 100 [] sample_cluster 0 5 [] [].
Definition sample_base (n : Z) : Z := if decide (n = 1) then 1 else if decide (n = 2) then 1 else 0.

Lemma sample_node_ok r : node_ok (sample_node r sample_q).
Proof. split; [exists sample_q, []; split; [done|]; split; [apply q0_rep|simpl; lia]|split; simpl; lia]. Qed.

Lemma sample_tables_ok : tables_ok sample_base 8 10 sample_mem.
Proof.
  split; [|split; [done|]; split; [|split; [done|]; split; [done|]; split; [lia|]]].
  - intros n. unfold booked. cbn [m_table sample_mem]. rewrite msum_empty, Z.add_0_r. unfold sample_base.
    destruct (decide (n = 1)) as [->|H1]; [split; [done|]; split; [lia|apply sample_node_ok]|].
    destruct (decide (n = 2)) as [->|H2]; [split; [done|]; split; [lia|apply sample_node_ok]|].
    cbn [m_nodes sample_mem]. by rewrite lookup_insert_ne, lookup_singleton_ne by done.
  - intros m. unfold room_in. cbn [m_table sample_mem]. rewrite msum_empty. unfold sample_base. repeat case_decide; lia.
  - intros t ts Ht. cbn [m_tables sample_mem] in Ht. apply lookup_singleton_Some in Ht as [<- _]. simpl. lia.
Qed.

Definition sample_entry : entry := ([97], [0xF0]).

Lemma sample_entry_ok : entry_ok 8 sample_entry.
Proof. split; [simpl; unfold AS_MAX_NAMESPACE_SIZE; lia|]. split; [by repeat constructor|]. split; [solve_bytes|done]. Qed.

Lemma replicas_installed_witness :
  exists s' buf, @as_partition_tables_update Z loopback 1 ([7] ++ entries_text [(sample_entry, 0)] ++ [112] ++ 0 :: [9]) 1 true sample_mem
             = URet ((true, buf), s')
    /\ tables_ok sample_base 8 9 s'
    /\ (forall ns, cluster_view s' ns = foldl (install 1 true 8) (cluster_view sample_mem) [sample_entry] ns)
    /\ evolved (m_nodes sample_mem) (m_nodes s') (displaced_in 1 true 8 (cluster_view sample_mem) [sample_entry]).
Proof.
  apply (@replicas_installed Z loopback (fun _ => eq_refl) sample_base 8 10 1 true [(sample_entry, 0)] [7] [112] [9] sample_mem 1 []).
  - apply sample_tables_ok.
  - simpl. lia.
  - reflexivity.
  - apply Forall_singleton. split; [apply sample_entry_ok|by left].
  - by repeat constructor.
  - reflexivity.
  - constructor.
  - simpl. lia.
Defined.

Lemma unterminated_entry_overreads_witness :
  @as_partition_tables_update Z loopback 1 ([7] ++ entry_body sample_entry 0) 1 true sample_mem = UB.
Proof.
  apply (@unterminated_entry_overreads Z loopback (fun _ => eq_refl) sample_base 8 10 1 true sample_entry [7] sample_mem 1 []).
  - apply sample_tables_ok.
  - lia.
  - reflexivity.
  - apply sample_entry_ok.
  - reflexivity.
  - constructor.
Defined.

Lemma node_lookup_witness :
  exists o s', @as_node_get x86_64 Z [97] [3; 0] true REPLICA_MASTER sample_mem = URet (o, s')
    /\ chosen sample_base sample_mem [] o s'.
Proof.
  apply (@node_lookup x86_64 Z sample_base sample_mem [97] [3; 0] true REPLICA_MASTER); [|simpl; lia].
  pose proof sample_tables_ok as (Hc & _). split.
  { eapply counted_ext; [|exact Hc]. intros n. unfold booked. cbn [m_table sample_mem]. rewrite msum_empty. lia. }
  assert (forall n, 0 < sample_base n -> reservable sample_base n) as Hr.
  { intros n. unfold reservable, sample_base. repeat case_decide; lia. }
  split.
  { exists 1, [Some 1; Some 2]. split; [reflexivity|]. split; [lia|]. split; [lia|]. split; [|simpl; lia].
    repeat constructor; (eexists; split; [done|]); by apply Hr. }
  split; [done|]. split; [exists 1, []; repeat split; [lia|constructor]|]. split; [done|]. right. simpl. lia.
Defined.

(** When an entry is not well formed, the tables of the new namespaces before it are
    dropped, but not released: the client's references stay with the nodes, which can
    never be freed again, and the namespaces stay unknown. *)
Theorem malformed_entry_leaks :
  exists s' buf, @as_partition_tables_update Z loopback 1 (entry_text sample_entry ++ [COLON; 0]) 0 true sample_mem = URet ((false, buf), s')
    /\ cluster_view s' [97] = None
    /\ ref_count <$> m_nodes sample_mem !! 1 = Some 1 /\ ref_count <$> m_nodes s' !! 1 = Some 5
    /\ forall t tb, m_table s' !! t = Some tb -> Some t ∉ cluster_tables s'.
Proof.
  eexists _, _. split; [vm_compute; reflexivity|]. split; [reflexivity|]. split; [reflexivity|]. split; [reflexivity|].
  intros t tb _. by intros ?%elem_of_nil.
Qed.

(** Three nodes of which the last is active, and an index before its wrap-around. *)
Definition wrap_mem : mem Z :=
  mk_mem {[1 := set_active false (sample_node 1 sample_q); 2 := set_active false (sample_node 1 sample_q); 3 := sample_node 1 sample_q]}
    {[10 := mk_nodes 1 [Some 1; Some 2; Some 3]]} ∅ {[20 := mk_tables 1 []]} 100 [] (with_index 0xFFFFFFFF sample_cluster) 0 5 [] [].

(** When the 32-bit index wraps around, a random node is not found although one of the
    nodes is active: the remainders before and after do not follow each other. *)
Theorem random_node_missed :
  is_active wrap_mem 3 /\ exists s', @as_node_get_random Z wrap_mem = URet (None, s').
Proof. split; [exists (sample_node 1 sample_q); by vm_compute|]. eexists. vm_compute. reflexivity. Qed.
