(* ===== verification/Info.v ===== *)
(** * Info requests

    Models [src/main/aerospike/as_info.c]: requests in text, the search for errors in
    their answers, and the cutting of answers into names and values.  Strings live in
    checked memory and pointers into them are offsets; the parsers write the NULs that
    end names and values into the answer. *)

From S2P Require Import Prelude ByteOrder Base64 Queue Value Msgpack Wire Socket Parse Node Partition.
Open Scope Z_scope.

Definition AEROSPIKE_ERR_SERVER : Z := 1.
Definition AS_INFO_MESSAGE_VERSION : Z := 2.
Definition AS_INFO_MESSAGE_TYPE : Z := 1.

(** ** The string functions of the C library *)

(** [strchr(m + off, c)] for a [c] that is not NUL: [Some None] for NULL. *)
Fixpoint strchr_from (l : list Z) (off c : Z) : option (option Z) :=
  match l with
  | [] => None
  | x :: l => if x =? c then Some (Some off) else if x =? 0 then Some None else strchr_from l (off + 1) c
  end.
Definition strchr (m : list Z) (off c : Z) : option (option Z) :=
  if decide (0 <= off) then strchr_from (drop (Z.to_nat off) m) off c else None.

(** [strncmp(m + off, prefix, strlen(prefix)) == 0]. *)
Fixpoint has_prefix (m : list Z) (off : Z) (prefix : list Z) : option bool :=
  match prefix with
  | [] => Some true
  | c :: prefix => x ← mread m off; if x =? c then has_prefix m (off + 1) prefix else Some false
  end.

(** [strstr(m + off, pattern)]. *)
Fixpoint strstr_loop (fuel : nat) (m : list Z) (off : Z) (pattern : list Z) : option (option Z) :=
  match fuel with
  | O => None
  | S fuel =>
      found ← has_prefix m off pattern;
      if (found : bool) then Some (Some off)
      else x ← mread m off; if x =? 0 then Some None else strstr_loop fuel m (off + 1) pattern
  end.
Definition strstr (m : list Z) (off : Z) (pattern : list Z) : option (option Z) :=
  strstr_loop (S (length m)) m off pattern.

Definition is_space (c : Z) : bool := (c =? 32) || ((9 <=? c) && (c <=? 13)).
Definition is_digit (c : Z) : bool := (48 <=? c) && (c <=? 57).

Fixpoint skip_spaces (l : list Z) : list Z :=
  match l with c :: l' => if is_space c then skip_spaces l' else l | [] => [] end.
Fixpoint digits (l : list Z) (acc : Z) : Z :=
  match l with c :: l => if is_digit c then digits l (acc * 10 + (c - 48)) else acc | [] => acc end.

(** [atoi]: [strtol], which stops at the limits of [long], converted to [int]. *)
Definition atoi (l : list Z) : Z :=
  let l := skip_spaces l in
  let v := match l with
           | 45 :: l => - digits l 0
           | 43 :: l => digits l 0
           | _ => digits l 0
           end in
  i32 (Z.max (- 2 ^ 63) (Z.min (2 ^ 63 - 1) v)).

(** ** Errors in answers *)

(** The status, the message and the memory; a message is an offset, or NULL. *)
Definition as_info_parse_error (m : list Z) (begin : Z) : option (Z * option Z * list Z) :=
  end_ ← strchr m begin COLON;
  match end_ with
  | None => Some (AEROSPIKE_ERR_SERVER, None, m)
  | Some e =>
      m ← mwrite m e [0];
      code ← cstr m begin;
      let rc := atoi code in
      if rc =? 0 then Some (AEROSPIKE_ERR_SERVER, None, m)
      else
        newline ← strchr m (e + 1) NEWLINE;
        m ← match newline with Some p => mwrite m p [0] | None => Some m end;
        Some (rc, Some (e + 1), m)
  end.

(** ["message="], ["ERROR:"], ["FAIL:"] and ["error="]. *)
Definition MESSAGE_ : list Z := [109; 101; 115; 115; 97; 103; 101; 61].
Definition ERROR_ : list Z := [69; 82; 82; 79; 82; 58].
Definition FAIL_ : list Z := [70; 65; 73; 76; 58].
Definition error_ : list Z := [101; 114; 114; 111; 114; 61].

(** The base-64 text after ["message="] is decoded in place, its last character left out. *)
Definition as_info_decode_error (m : list Z) (begin : Z) : option (list Z) :=
  msg ← strstr m begin MESSAGE_;
  match msg with
  | None => Some m
  | Some p =>
      let msg := p + 8 in
      s ← cstr m msg;
      let src_len := u32 (blen s - 1) in
      if decide (blen s < src_len) then
        if Z.land src_len 3 =? 0 then None else Some m
      else
        text ← mslice m msg src_len;
        r ← cf_b64_validate_and_decode_in_place text;
        match r with
        | None => Some m
        | Some (decoded, trg_len) => m ← mwrite m msg decoded; mwrite m (msg + trg_len) [0]
        end
  end.

Fixpoint validate_loop (fuel : nat) (m : list Z) (p : Z) : option (Z * option Z * list Z) :=
  match fuel with
  | O => None
  | S fuel =>
      tab ← strchr m p TAB;
      match tab with
      | None => Some (AEROSPIKE_OK, None, m)
      | Some t =>
          let p := t + 1 in
          e ← has_prefix m p ERROR_;
          if (e : bool) then as_info_parse_error m (p + 6)
          else
            f ← has_prefix m p FAIL_;
            if (f : bool) then as_info_parse_error m (p + 5)
            else
              u ← has_prefix m p error_;
              if (u : bool) then m ← as_info_decode_error m (p + 6); Some (AEROSPIKE_ERR_UDF, Some p, m)
              else validate_loop fuel m p
      end
  end.

(** An answer that is not NULL.  Every turn of the loop moves behind another tab. *)
Definition as_info_validate (m : list Z) : option (Z * option Z * list Z) :=
  e ← has_prefix m 0 ERROR_;
  if (e : bool) then as_info_parse_error m 6 else validate_loop (S (length m)) m 0.

(** ** Cutting answers *)

Fixpoint until_loop (fuel : nat) (m : list Z) (p c : Z) : option Z :=
  match fuel with
  | O => None
  | S fuel => x ← mread m p; if (x =? 0) || (x =? c) then Some p else until_loop fuel m (p + 1) c
  end.

(** The status, the offset of the value and the memory. *)
Definition as_info_parse_single_response (m : list Z) : option (Z * option Z * list Z) :=
  p ← until_loop (S (length m)) m 0 TAB;
  x ← mread m p;
  if x =? 0 then Some (AEROSPIKE_ERR_CLIENT, None, m)
  else
    let value := p + 1 in
    q ← until_loop (S (length m)) m value NEWLINE;
    y ← mread m q;
    if y =? 0 then Some (AEROSPIKE_ERR_CLIENT, Some value, m)
    else m ← mwrite m q [0]; Some (AEROSPIKE_OK, Some value, m).

(** The names and values, as offsets. *)
Record as_name_value := mk_nv { nv_name : Z; nv_value : Z }.

Fixpoint multi_loop (fuel : nat) (m : list Z) (p begin : Z) (values : list as_name_value)
  : option (list Z * list as_name_value) :=
  match fuel with
  | O => None
  | S fuel =>
      c ← mread m p;
      if c =? 0 then Some (m, if begin <? p then values ++ [mk_nv begin p] else values)
      else if c =? TAB then
        m ← mwrite m p [0];
        '(m, q) ← scan (fun c => c =? NEWLINE) m (p + 1);
        multi_loop fuel m (q + 1) (q + 1) (values ++ [mk_nv begin (p + 1)])
      else if c =? NEWLINE then
        m ← mwrite m p [0];
        multi_loop fuel m (p + 1) (p + 1) (if begin <? p then values ++ [mk_nv begin p] else values)
      else multi_loop fuel m (p + 1) begin values
  end.

Definition as_info_parse_multi_response (m : list Z) : option (list Z * list as_name_value) :=
  multi_loop (S (length m)) m 0 0 [].

(** ** Requests *)

Section Info.
Context `{Platform} `{Net W} (stack : list Z).

(** [';'], [':'] and [','] become newlines unless the names are sent as they are. *)
Definition asis (c : Z) : Z := if (c =? SEMICOLON) || (c =? COLON) || (c =? 44) then NEWLINE else c.

Definition info_body (names : option (list Z)) (send_asis : bool) : list Z :=
  let names := match names with Some l => if send_asis then l else map asis l | None => [] end in
  match last names with
  | Some c => if c =? NEWLINE then names else names ++ [NEWLINE]
  | None => names
  end.

(** The names with a newline at their end, and the header of eight bytes in front.  The
    header is stored before it is swapped on HP-UX, whose hosts are big-endian. *)
Definition info_request (hpux : bool) (names : option (list Z)) (send_asis : bool) : list Z :=
  let body := info_body names send_asis in
  let proto := Z.lor (Z.lor (blen body) (Z.shiftl AS_INFO_MESSAGE_VERSION 56)) (Z.shiftl AS_INFO_MESSAGE_TYPE 48) in
  (if hpux then mem_of host_endian 8 proto else put_be64 host_endian proto) ++ body.

(** The status and the answer ([None]: NULL).  The eight bytes of the header are read
    first; of an answer that is too long only a part is read.  The text of an error is
    copied from the answer by [as_error_setall], which reads through a NULL too. *)
Definition as_info_command (hpux : bool) (fd : Z) (names : option (list Z)) (send_asis : bool) (deadline_ms max_response_length : Z)
  : M W (Z * option (list Z)) :=
  status ← os_u (fun w => os_send w fd (info_request hpux names send_asis) deadline_ms);
  if negb (status =? 0) then mret (status, None)
  else
    '(status, bytes) ← os_u (fun w => os_recv w fd 8 deadline_ms);
    if negb (status =? 0) then mret (status, None)
    else
      pr ← access (fun _ => as_proto_of_bytes host_endian bytes);
      let sz := proto_sz (as_proto_swap_from_be host_endian pr) in
      if sz =? 0 then mret (AEROSPIKE_OK, None)
      else if (0 <? max_response_length) && (max_response_length <? sz) then
        '(status, _) ← os_u (fun w => os_recv w fd 100 deadline_ms);
        mret (if negb (status =? 0) then status else AEROSPIKE_ERR_CLIENT, None)
      else
        ok ← malloc;
        if negb ok then ub
        else
          '(status, body) ← os_u (fun w => os_recv w fd sz deadline_ms);
          if negb (status =? 0) then mret (status, None)
          else
            '(status, error, m) ← access (fun _ => as_info_validate (body ++ [0]));
            if negb (status =? 0) then _ ← access (fun _ => error ≫= cstr m); mret (status, None)
            else mret (AEROSPIKE_OK, Some m).

Definition as_info_command_host (hpux : bool) (sa : sockaddr_in) (command : list Z) (send_asis : bool) (deadline_ms : Z)
  : M W (Z * option (list Z)) :=
  '(status, fd) ← as_socket_create_and_connect_nb sa;
  if negb (status =? 0) then mret (status, None)
  else
    fd ← access (fun _ => fd);
    u ← cluster_of user;
    status ← match u with
             | Some _ => p ← cluster_of password; as_authenticate stack fd u p deadline_ms
             | None => mret AEROSPIKE_OK
             end;
    if negb (status =? 0) then _ ← as_close fd; mret (status, None)
    else
      r ← as_info_command hpux fd (Some command) send_asis deadline_ms 0;
      _ ← modify (fun s => set_net (os_shutdown (net s) fd) s);
      _ ← as_close fd;
      mret r.
End Info.

(** ** Names and values *)

Definition pair_text (c : Z) (nv : list Z * list Z) : list Z := fst nv ++ TAB :: snd nv ++ [c].
Definition pair_cut (nv : list Z * list Z) : list Z := fst nv ++ 0 :: snd nv ++ [0].
Definition pair_ok (nv : list Z * list Z) : Prop :=
  Forall (fun c => c <> 0 /\ c <> TAB /\ c <> NEWLINE) (fst nv) /\ Forall (fun c => c <> 0 /\ c <> NEWLINE) (snd nv).

Lemma skip_info_name fuel name rest : forall pre begin values,
  Forall (fun c => c <> 0 /\ c <> TAB /\ c <> NEWLINE) name ->
  multi_loop (length name + fuel) (pre ++ name ++ rest) (blen pre) begin values
  = multi_loop fuel (pre ++ name ++ rest) (blen pre + blen name) begin values.
Proof.
  induction name as [|c name IH]; intros pre begin values Hn; [by rewrite Z.add_0_r|].
  inversion Hn as [|? ? (Hc0 & Hc1 & Hc2) Hn']; subst. cbn [length Nat.add multi_loop app].
  rewrite mread_app by done. cbn [mbind option_bind].
  rewrite (proj2 (Z.eqb_neq c 0) Hc0), (proj2 (Z.eqb_neq c TAB) Hc1), (proj2 (Z.eqb_neq c NEWLINE) Hc2).
  specialize (IH (pre ++ [c]) begin values Hn'). rewrite length_app, <- !app_assoc in IH. cbn [app] in IH.
  replace (blen pre + 1) with (Z.of_nat (length pre + length [c])) by (simpl; lia). rewrite IH. f_equal. simpl. lia.
Qed.

Lemma multi_pair nv c pre rest fuel values :
  pair_ok nv -> c = 0 \/ c = NEWLINE ->
  let pre' := pre ++ pair_cut nv in
  multi_loop (length (fst nv) + S fuel) (pre ++ pair_text c nv ++ rest) (blen pre) (blen pre) values
  = multi_loop fuel (pre' ++ rest) (blen pre') (blen pre') (values ++ [mk_nv (blen pre) (blen pre + blen (fst nv) + 1)]).
Proof.
  destruct nv as [name value]. intros [Hn Hv] Hc. unfold pair_text, pair_cut. cbn [fst snd] in *.
  rewrite <- !app_assoc. cbn [app]. rewrite skip_info_name by done. cbn [multi_loop].
  rewrite (app_assoc pre name). rewrite mread_app by (rewrite length_app; lia). cbn [mbind option_bind].
  change (TAB =? 0) with false. change (TAB =? TAB) with true. cbn iota.
  rewrite <- (app_assoc value). cbn [app].
  assert (mwrite ((pre ++ name) ++ TAB :: value ++ c :: rest) (blen pre + blen name) [0]
    = Some ((pre ++ name) ++ 0 :: value ++ c :: rest)) as ->.
  { apply (mwrite_app (pre ++ name) [TAB]); [rewrite length_app; lia|done]. }
  cbn [mbind option_bind]. set (pre1 := pre ++ name ++ [0]).
  assert ((pre ++ name) ++ 0 :: value ++ c :: rest = pre1 ++ value ++ c :: rest) as ->
    by (unfold pre1; by rewrite <- !app_assoc).
  assert (blen pre + blen name + 1 = blen pre1) as Hp1 by (unfold pre1; rewrite !length_app; simpl; lia).
  rewrite Hp1, scan_ok.
  - cbn [mbind option_bind]. unfold pre1. rewrite <- !app_assoc. cbn [app].
    assert (forall a b v, a = b -> multi_loop fuel (pre ++ name ++ 0 :: value ++ 0 :: rest) a a v
      = multi_loop fuel (pre ++ name ++ 0 :: value ++ 0 :: rest) b b v) as Hab by (by intros a b v ->).
    apply Hab. repeat (rewrite ?length_app; cbn [length]). lia.
  - eapply Forall_impl; [exact Hv|]. intros d [Hd0 Hd1]. split; [done|]. by apply Z.eqb_neq.
  - destruct Hc as [|Hc]; [by left|]. right. by apply Z.eqb_eq.
Qed.

(** The offsets of the names and values of a cut answer that begins at [off]. *)
Fixpoint offsets (off : Z) (nvs : list (list Z * list Z)) : list as_name_value :=
  match nvs with
  | [] => []
  | nv :: nvs => mk_nv off (off + blen (fst nv) + 1) :: offsets (off + blen (pair_cut nv)) nvs
  end.

Lemma multi_pairs nvs : forall pre post fuel values,
  Forall pair_ok nvs -> (length (mjoin (pair_text NEWLINE <$> nvs)) < fuel)%nat ->
  multi_loop fuel (pre ++ mjoin (pair_text NEWLINE <$> nvs) ++ 0 :: post) (blen pre) (blen pre) values
  = Some (pre ++ mjoin (pair_cut <$> nvs) ++ 0 :: post, values ++ offsets (blen pre) nvs).
Proof.
  induction nvs as [|nv nvs IH]; intros pre post fuel values Hok Hf; cbn [fmap list_fmap offsets] in *.
  - change (mjoin (@nil (list Z))) with (@nil Z). cbn [app]. destruct fuel as [|fuel]; [simpl in Hf; lia|].
    cbn [multi_loop]. rewrite mread_app by done. cbn [mbind option_bind Z.eqb]. rewrite Z.ltb_irrefl. by rewrite app_nil_r.
  - rewrite !join_cons in *. inversion Hok as [|? ? Hnv Hok']; subst. rewrite length_app in Hf.
    assert (exists f, fuel = (length (fst nv) + S f)%nat /\ (length (mjoin (pair_text NEWLINE <$> nvs)) < f)%nat) as (f & -> & Hf').
    { exists (fuel - length (fst nv) - 1)%nat. assert (length (fst nv) + 2 <= length (pair_text NEWLINE nv))%nat; [|lia].
      unfold pair_text. repeat (rewrite ?length_app; cbn [length]). lia. }
    rewrite <- app_assoc, multi_pair by (done || by right). rewrite IH by done. rewrite <- !app_assoc. cbn [app].
    by rewrite length_app, Nat2Z.inj_add.
Qed.

(** A name or value of [m]: the string at its offset. *)
Definition holds_pair (m : list Z) (nv : as_name_value) (p : list Z * list Z) : Prop :=
  cstr m (nv_name nv) = Some (fst p) /\ cstr m (nv_value nv) = Some (snd p).

Lemma line_strings pre nv rest :
  pair_ok nv ->
  cstr (pre ++ pair_cut nv ++ rest) (blen pre) = Some (fst nv)
  /\ cstr (pre ++ pair_cut nv ++ rest) (blen pre + blen (fst nv) + 1) = Some (snd nv).
Proof.
  destruct nv as [name value]. unfold pair_cut. intros [Hn Hv]. cbn [fst snd] in *.
  repeat (rewrite <- app_assoc || cbn [app]). split.
  - apply cstr_app. eapply Forall_impl; [exact Hn|]. by intros c [? _].
  - replace (blen pre + blen name + 1) with (blen (pre ++ name ++ [0])) by (rewrite !length_app; simpl; lia).
    replace (pre ++ name ++ 0 :: value ++ 0 :: rest) with ((pre ++ name ++ [0]) ++ value ++ 0 :: rest) by (by rewrite <- !app_assoc).
    apply cstr_app. eapply Forall_impl; [exact Hv|]. by intros c [? _].
Qed.

Lemma offsets_hold nvs : forall pre post,
  Forall pair_ok nvs -> Forall2 (holds_pair (pre ++ mjoin (pair_cut <$> nvs) ++ post)) (offsets (blen pre) nvs) nvs.
Proof.
  induction nvs as [|nv nvs IH]; intros pre post Hok; cbn [fmap list_fmap offsets]; [constructor|].
  inversion Hok as [|? ? Hnv Hok']; subst. rewrite join_cons. constructor.
  - rewrite <- app_assoc. by apply line_strings.
  - specialize (IH (pre ++ pair_cut nv) post Hok'). rewrite length_app, Nat2Z.inj_add in IH.
    rewrite <- !app_assoc in *. exact IH.
Qed.

(** ** Strings stay inside their memory *)

(** A string begins at [off]: there is a NUL at or behind it. *)
Definition has_str (m : list Z) (off : Z) : Prop :=
  exists pre x y, m = pre ++ x ++ 0 :: y /\ off = blen pre /\ Forall (fun c => c <> 0) x.

Lemma has_str_read m off : has_str m off -> exists c, mread m off = Some c /\ (c <> 0 -> has_str m (off + 1)).
Proof.
  intros (pre & [|c x] & y & -> & -> & Hx).
  - exists 0. cbn [app]. by rewrite mread_app.
  - exists c. cbn [app]. rewrite mread_app by done. split; [done|]. intros _. inversion Hx; subst.
    exists (pre ++ [c]), x, y. rewrite <- app_assoc, length_app. split; [done|]. split; [simpl; lia|done].
Qed.

Lemma has_str_cstr m off : has_str m off -> exists x, cstr m off = Some x.
Proof. intros (pre & x & y & -> & -> & Hx). exists x. by apply cstr_app. Qed.

Lemma first_nul l t : exists x y, l ++ 0 :: t = x ++ 0 :: y /\ Forall (fun c => c <> 0) x.
Proof.
  induction l as [|c l (x & y & Hl & Hx)]; [by exists [], t|]. destruct (decide (c = 0)) as [->|Hc].
  - by exists [], (l ++ 0 :: t).
  - exists (c :: x), y. cbn [app]. rewrite Hl. split; [done|]. by constructor.
Qed.

Lemma has_str_app pre l t : has_str (pre ++ l ++ 0 :: t) (blen pre).
Proof. destruct (first_nul l t) as (x & y & -> & Hx). by exists pre, x, y. Qed.

Lemma has_str_before pre l t a : 0 <= a <= blen pre -> has_str (pre ++ l ++ 0 :: t) a.
Proof.
  intros Ha. rewrite <- (take_drop (Z.to_nat a) pre), <- app_assoc, (app_assoc (drop _ _)).
  assert (a = blen (take (Z.to_nat a) pre)) as Hl by (rewrite length_take; lia). rewrite Hl at 3. apply has_str_app.
Qed.

Lemma has_str_end body : has_str (body ++ [0]) 0.
Proof. apply (has_str_app [] body []). Qed.

Lemma has_prefix_ok m prefix : forall off,
  Forall (fun c => c <> 0) prefix -> has_str m off ->
  exists b, has_prefix m off prefix = Some b /\ (b = true -> has_str m (off + blen prefix)).
Proof.
  induction prefix as [|c prefix IH]; intros off Hp Hs; cbn [has_prefix length].
  { exists true. split; [done|]. intros _. by rewrite Z.add_0_r. }
  inversion Hp; subst. destruct (has_str_read m off Hs) as (x & -> & Hn). cbn [mbind option_bind].
  destruct (Z.eqb_spec x c) as [->|]; [|by exists false]. destruct (IH (off + 1)) as (b & -> & Hb); [done|by apply Hn|].
  exists b. split; [done|]. intros Hb'. replace (off + Z.of_nat (S (length prefix))) with (off + 1 + blen prefix) by lia. by apply Hb.
Qed.

(** What [strchr] finds lies inside the string. *)
Lemma strchr_ok m off c :
  c <> 0 -> has_str m off ->
  strchr m off c = Some None
  \/ exists pre x1 x2 y, m = pre ++ x1 ++ c :: x2 ++ 0 :: y /\ off = blen pre /\ Forall (fun c => c <> 0) x1
       /\ Forall (fun c => c <> 0) x2 /\ strchr m off c = Some (Some (off + blen x1)).
Proof.
  intros Hc (pre & x & y & -> & -> & Hx). unfold strchr. rewrite decide_True, Nat2Z.id, drop_app_length by lia.
  assert (forall off, strchr_from (x ++ 0 :: y) off c = Some None
    \/ exists x1 x2, x = x1 ++ c :: x2 /\ strchr_from (x ++ 0 :: y) off c = Some (Some (off + blen x1))) as Hf.
  { induction Hx as [|d x Hd Hx IH]; intros off; cbn [app strchr_from].
    - rewrite (proj2 (Z.eqb_neq 0 c)) by done. by left.
    - destruct (Z.eqb_spec d c) as [->|Hdc].
      + right. exists [], x. rewrite Z.add_0_r. done.
      + rewrite (proj2 (Z.eqb_neq d 0)) by done. destruct (IH (off + 1)) as [->|(x1 & x2 & -> & ->)]; [by left|].
        right. exists (d :: x1), x2. split; [done|]. do 2 f_equal. cbn [length]. lia. }
  destruct (Hf (blen pre)) as [->|(x1 & x2 & -> & ->)]; [by left|]. right.
  apply Forall_app in Hx as [Hx1 Hx2]. inversion Hx2; subst. exists pre, x1, x2, y. rewrite <- app_assoc. by split_and!.
Qed.

Lemma strstr_ok m pattern : Forall (fun c => c <> 0) pattern -> forall fuel off,
  has_str m off -> blen m - off < Z.of_nat fuel ->
  exists r, strstr_loop fuel m off pattern = Some r /\ forall p, r = Some p -> off <= p /\ has_str m (p + blen pattern).
Proof.
  intros Hp. induction fuel as [|fuel IH]; intros off Hs Hf.
  { destruct Hs as (pre & x & y & -> & -> & _). rewrite !length_app in Hf. simpl in Hf. lia. }
  cbn [strstr_loop]. destruct (has_prefix_ok m pattern off Hp Hs) as (b & -> & Hb). cbn [mbind option_bind].
  destruct b; [exists (Some off); split; [done|]; intros p [= <-]; split; [lia|by apply Hb]|].
  destruct (has_str_read m off Hs) as (c & -> & Hc). cbn [mbind option_bind].
  destruct (Z.eqb_spec c 0) as [->|Hc0]; [by exists None|]. destruct (IH (off + 1)) as (r & -> & Hr); [by apply Hc|lia|].
  exists r. split; [done|]. intros p Hr'. destruct (Hr p Hr'). split; [lia|done].
Qed.

Lemma mread_written m q x m' : mwrite m q [x] = Some m' -> mread m' q = Some x.
Proof.
  unfold mwrite. case_decide as Hq; [|done]. intros [= <-]. apply mread_app. rewrite length_take. simpl in Hq. lia.
Qed.

Lemma has_str_nul m off q : mread m q = Some 0 -> 0 <= off <= q -> has_str m off.
Proof.
  intros Hq Ho. unfold mread in Hq. rewrite decide_True in Hq by lia. apply list_elem_of_split_length in Hq as (l1 & l2 & -> & Hl).
  apply (has_str_before l1 [] l2). lia.
Qed.

(** The message of an error is a string of the changed answer, unless it is NULL. *)
Definition message_in (msg : option Z) (m : list Z) : Prop := forall off, msg = Some off -> has_str m off.

Lemma parse_error_ok m begin :
  has_str m begin ->
  exists st msg m', as_info_parse_error m begin = Some (st, msg, m') /\ st <> AEROSPIKE_OK /\ message_in msg m'.
Proof.
  intros Hs. unfold as_info_parse_error.
  destruct (strchr_ok m begin COLON ltac:(done) Hs) as [->|(pre & x1 & x2 & y & -> & -> & H1 & H2 & ->)];
    [by eexists _, _, _; split_and!|]. cbn [mbind option_bind].
  assert (mwrite (pre ++ x1 ++ COLON :: x2 ++ 0 :: y) (blen pre + blen x1) [0]
    = Some (pre ++ x1 ++ 0 :: x2 ++ 0 :: y)) as ->.
  { rewrite !(app_assoc pre). apply (mwrite_app (pre ++ x1) [COLON]); [rewrite length_app; lia|done]. }
  cbn [mbind option_bind]. rewrite cstr_app by done. cbn [mbind option_bind].
  destruct (Z.eqb_spec (atoi x1) 0); [by eexists _, _, _; split_and!|].
  assert (has_str (pre ++ x1 ++ 0 :: x2 ++ 0 :: y) (blen pre + blen x1 + 1)) as Hs'.
  { exists (pre ++ x1 ++ [0]), x2, y. rewrite <- !app_assoc. split; [done|]. rewrite !length_app. split; [simpl; lia|done]. }
  destruct (strchr_ok _ _ NEWLINE ltac:(done) Hs') as [->|(pre' & z1 & z2 & y' & Hm & Ho & _ & _ & ->)];
    cbn [mbind option_bind]; [eexists _, _, _; split_and!; [done|done|]; by intros off [= <-]|].
  destruct (mwrite_fits (pre ++ x1 ++ 0 :: x2 ++ 0 :: y) (blen pre + blen x1 + 1 + blen z1) [0]) as (m' & Em & _).
  - lia.
  - rewrite Hm, Ho, !length_app. simpl. lia.
  - rewrite Em. cbn [mbind option_bind]. eexists _, _, _. split_and!; [done|done|]. intros off [= <-].
    apply (has_str_nul _ _ _ (mread_written _ _ _ _ Em)). lia.
Qed.

Lemma decode_error_ok m begin off :
  has_str m begin -> has_str m off -> off <= begin -> exists m', as_info_decode_error m begin = Some m' /\ has_str m' off.
Proof.
  intros Hs Hoff Hle. unfold as_info_decode_error, strstr.
  destruct (strstr_ok m MESSAGE_ ltac:(by repeat constructor) (S (length m)) begin Hs) as (r & -> & Hr).
  { destruct Hs as (pre & x & y & _ & -> & _). lia. }
  cbn [mbind option_bind]. destruct r as [p|]; [|by eexists].
  destruct (Hr p eq_refl) as [Hp Hm]. change (blen MESSAGE_) with 8 in Hm. destruct Hm as (pre & x & y & -> & Hpre & Hx). rewrite Hpre, cstr_app by done. cbn [mbind option_bind].
  case_decide as Hlen.
  { destruct x as [|c x]; [by eexists|]. exfalso. unfold u32 in Hlen. cbn [length] in Hlen.
    pose proof (Z.mod_le (Z.of_nat (S (length x)) - 1) (2 ^ 32)). lia. }
  pose proof (u32_range (blen x - 1)) as Hu. unfold is_u32 in Hu. set (n := u32 (blen x - 1)) in *.
  unfold mslice. rewrite decide_True by (rewrite !length_app; simpl; lia). cbn [mbind option_bind].
  set (text := take _ _). assert (blen text = n) as Ht.
  { unfold text. rewrite length_take, length_drop, !length_app. simpl. lia. }
  unfold cf_b64_validate_and_decode_in_place. destruct (is_valid_encoded text) eqn:Ev; [|by eexists].
  destruct (decode_loop_total text (valid_length _ Ev)) as [out Ho].
  destruct (decode_in_place_agrees text out (blen out - padding text)) as (dec & -> & _ & Hdec); [unfold cf_b64_decode; by rewrite Ho|].
  cbn [mbind option_bind].
  destruct (mwrite_fits (pre ++ x ++ 0 :: y) (blen pre) dec) as (m1 & -> & Hm1); [lia|rewrite !length_app; simpl; lia|].
  cbn [mbind option_bind]. pose proof (decode_loop_length text out Ho) as Hol.
  assert (0 <= off) as H0 by (destruct Hoff as (? & ? & ? & _ & -> & _); lia).
  assert (0 <= padding text <= 2) as Hpad by (unfold padding; repeat case_match; lia).
  destruct (mwrite_fits m1 (blen pre + (blen out - padding text)) [0]) as (m2 & Em2 & _);
    [| |exists m2; rewrite Em2; split; [done|]; apply (has_str_nul _ _ _ (mread_written _ _ _ _ Em2)); lia].
  - unfold padding. destruct (rev text) as [|a [|b r]] eqn:Er; [lia|lia|].
    apply (f_equal length) in Er. rewrite length_rev in Er. cbn [length] in Er. repeat case_match; lia.
  - rewrite Hm1, !length_app. unfold padding. simpl. repeat case_match; lia.
Qed.

Lemma validate_loop_ok m : forall fuel p,
  has_str m p -> blen m - p < Z.of_nat fuel ->
  exists st msg m', validate_loop fuel m p = Some (st, msg, m') /\ (st = AEROSPIKE_OK -> m' = m) /\ message_in msg m'.
Proof.
  induction fuel as [|fuel IH]; intros p Hs Hf.
  { destruct Hs as (pre & x & y & -> & -> & _). rewrite !length_app in Hf. simpl in Hf. lia. }
  cbn [validate_loop]. destruct (strchr_ok m p TAB ltac:(done) Hs) as [->|(pre & x1 & x2 & y & Hm & Hp & H1 & H2 & ->)];
    cbn [mbind option_bind]; [by eexists _, _, _; split_and!|].
  set (q := p + blen x1 + 1). assert (has_str m q) as Hq.
  { exists (pre ++ x1 ++ [TAB]), x2, y. rewrite <- !app_assoc. split; [done|]. unfold q. rewrite !length_app. split; [simpl; lia|done]. }
  destruct (has_prefix_ok m ERROR_ q ltac:(by repeat constructor) Hq) as (b1 & -> & Hb1). cbn [mbind option_bind].
  destruct b1. { destruct (parse_error_ok m (q + 6) (Hb1 eq_refl)) as (st & msg & m' & -> & Hst & Hmsg). by eexists _, _, _; split_and!. }
  destruct (has_prefix_ok m FAIL_ q ltac:(by repeat constructor) Hq) as (b2 & -> & Hb2). cbn [mbind option_bind].
  destruct b2. { destruct (parse_error_ok m (q + 5) (Hb2 eq_refl)) as (st & msg & m' & -> & Hst & Hmsg). by eexists _, _, _; split_and!. }
  destruct (has_prefix_ok m error_ q ltac:(by repeat constructor) Hq) as (b3 & -> & Hb3). cbn [mbind option_bind].
  destruct b3.
  { destruct (decode_error_ok m (q + 6) q (Hb3 eq_refl) Hq ltac:(lia)) as (m' & -> & Hq').
    eexists _, _, _. split_and!; [done|done|]. by intros off [= <-]. }
  apply IH; [done|]. unfold q. lia.
Qed.

Lemma validate_ok body :
  exists st msg m', as_info_validate (body ++ [0]) = Some (st, msg, m') /\ (st = AEROSPIKE_OK -> m' = body ++ [0]) /\ message_in msg m'.
Proof.
  unfold as_info_validate. pose proof (has_str_end body) as Hs.
  destruct (has_prefix_ok _ ERROR_ 0 ltac:(by repeat constructor) Hs) as (b & -> & Hb). cbn [mbind option_bind].
  destruct b. { destruct (parse_error_ok _ 6 (Hb eq_refl)) as (st & msg & m' & -> & Hst & Hmsg). by eexists _, _, _; split_and!. }
  apply validate_loop_ok; [done|lia].
Qed.

(** The loop stops at [c] or at the end of the string. *)
Lemma until_loop_ok m c : c <> 0 -> forall fuel p,
  has_str m p -> blen m - p < Z.of_nat fuel ->
  exists q, until_loop fuel m p c = Some q /\ p <= q /\ (mread m q = Some 0 \/ mread m q = Some c /\ has_str m (q + 1)).
Proof.
  intros Hc. induction fuel as [|fuel IH]; intros p Hs Hf.
  { destruct Hs as (pre & x & y & -> & -> & _). rewrite !length_app in Hf. simpl in Hf. lia. }
  cbn [until_loop]. destruct (has_str_read m p Hs) as (x & Hx & Hn). rewrite Hx. cbn [mbind option_bind].
  destruct (Z.eqb_spec x 0) as [->|Hx0]; [exists p; split; [done|]; split; [lia|]; by left|].
  destruct (Z.eqb_spec x c) as [->|Hxc]; cbn [orb].
  - exists p. split; [done|]. split; [lia|]. right. split; [done|]. by apply Hn.
  - destruct (IH (p + 1)) as (q & -> & Hq & Hr); [by apply Hn|lia|]. exists q. split; [done|]. split; [lia|done].
Qed.

Lemma until_exact c a x rest : forall fuel,
  Forall (fun d => d <> 0 /\ d <> c) x -> c <> 0 -> (length x < fuel)%nat ->
  until_loop fuel (a ++ x ++ c :: rest) (blen a) c = Some (blen a + blen x).
Proof.
  revert a. induction x as [|d x IH]; intros a fuel Hx Hc Hf; (destruct fuel as [|fuel]; [simpl in Hf; lia|]); cbn [until_loop app].
  - rewrite mread_app by done. cbn [mbind option_bind]. rewrite Z.eqb_refl, orb_true_r. f_equal. simpl. lia.
  - inversion Hx as [|? ? [Hd0 Hdc] Hx']; subst. rewrite mread_app by done. cbn [mbind option_bind].
    rewrite (proj2 (Z.eqb_neq d 0) Hd0), (proj2 (Z.eqb_neq d c) Hdc). cbn [orb].
    specialize (IH (a ++ [d]) fuel Hx' Hc ltac:(cbn [length] in Hf; lia)). rewrite <- app_assoc, length_app in IH. cbn [app] in IH.
    replace (blen a + 1) with (Z.of_nat (length a + length [d])) by (simpl; lia). rewrite IH. f_equal. simpl. lia.
Qed.

Lemma single_response_ok body :
  exists st value m', as_info_parse_single_response (body ++ [0]) = Some (st, value, m')
    /\ (st = AEROSPIKE_OK -> exists text, value ≫= cstr m' = Some text).
Proof.
  unfold as_info_parse_single_response. set (m := body ++ [0]). pose proof (has_str_end body) as Hs. fold m in Hs.
  destruct (until_loop_ok m TAB ltac:(done) (S (length m)) 0 Hs ltac:(lia)) as (p & -> & Hp0 & Hp). cbn [mbind option_bind].
  destruct Hp as [->|[-> Hp]]; cbn [mbind option_bind].
  { eexists _, _, _. split; [done|]. done. }
  change (TAB =? 0) with false. cbn iota.
  destruct (until_loop_ok m NEWLINE ltac:(done) (S (length m)) (p + 1) Hp ltac:(lia)) as (q & -> & Hpq & Hq). cbn [mbind option_bind].
  destruct Hq as [->|[Hq Hq']]; cbn [mbind option_bind].
  { eexists _, _, _. split; [done|]. done. }
  rewrite Hq. cbn [mbind option_bind]. change (NEWLINE =? 0) with false. cbn iota.
  destruct (mread_Some _ _ _ Hq) as [Hq0 Hql]. destruct (mwrite m q [0]) as [m'|] eqn:Em.
  2:{ destruct (mwrite_fits m q [0]) as (m2 & Hm2 & _); [lia|simpl; lia|congruence]. }
  cbn [mbind option_bind]. eexists _, _, _. split; [done|]. intros _. cbn [mbind option_bind]. apply has_str_cstr.
  unfold mwrite in Em. rewrite decide_True in Em by (simpl; lia). injection Em as <-.
  rewrite <- (take_drop (Z.to_nat (p + 1)) (take (Z.to_nat q) m)), take_take, <- app_assoc. cbn [app length].
  replace (p + 1) with (blen (take (Z.to_nat (p + 1) `min` Z.to_nat q) m)) at 3 by (rewrite length_take; lia).
  apply has_str_app.
Qed.

(** An answer of lines "name TAB value" is cut into exactly its names and values: the
    vector holds one pair of pointers per line, in order, and the strings they point to
    in the changed answer are the name and the value. *)
Theorem info_answer_cut nvs post :
  Forall pair_ok nvs ->
  exists m values, as_info_parse_multi_response (mjoin (pair_text NEWLINE <$> nvs) ++ 0 :: post) = Some (m, values)
    /\ Forall2 (holds_pair m) values nvs /\ length m = length (mjoin (pair_text NEWLINE <$> nvs) ++ 0 :: post).
Proof.
  intros Hok. unfold as_info_parse_multi_response.
  rewrite (multi_pairs nvs [] post) by (done || (rewrite !length_app; simpl; lia)). cbn [app].
  eexists _, _. split; [done|]. split; [apply (offsets_hold nvs [] (0 :: post) Hok)|].
  rewrite !length_app. f_equal. induction nvs as [|[name value] nvs IH]; [done|]. cbn [fmap list_fmap].
  rewrite !join_cons, !length_app. inversion Hok; subst. rewrite IH by done. f_equal.
  unfold pair_text, pair_cut. repeat (rewrite ?length_app; cbn [length fst snd]). done.
Qed.

(** A last line that ends with the answer instead of a newline is read past the end:
    the NUL behind the value is stepped over, and the next byte is the first one outside
    of the answer and its NUL, which is where the block ends that [as_node_get_info]
    allocates for an answer of 16384 bytes and more. *)
Theorem unterminated_line_overreads nvs nv :
  Forall pair_ok nvs -> pair_ok nv ->
  as_info_parse_multi_response (mjoin (pair_text NEWLINE <$> nvs) ++ pair_text 0 nv) = None.
Proof.
  intros Hok Hnv. unfold as_info_parse_multi_response.
  assert (forall fuel pre values, (length (mjoin (pair_text NEWLINE <$> nvs)) + length (pair_text 0 nv) < fuel)%nat ->
    multi_loop fuel (pre ++ mjoin (pair_text NEWLINE <$> nvs) ++ pair_text 0 nv) (blen pre) (blen pre) values = None) as Hl.
  2:{ apply (Hl _ [] []). cbn [app]. rewrite length_app. lia. }
  induction nvs as [|nv' nvs IH]; intros fuel pre values Hf; cbn [fmap list_fmap] in *.
  - change (mjoin (@nil (list Z))) with (@nil Z) in *. cbn [app length Nat.add] in *.
    assert (exists f, fuel = (length (fst nv) + S (S f))%nat) as [f ->].
    { exists (fuel - length (fst nv) - 2)%nat. assert (length (fst nv) + 2 <= length (pair_text 0 nv))%nat; [|lia].
      unfold pair_text. repeat (rewrite ?length_app; cbn [length]). lia. }
    rewrite <- (app_nil_r (pair_text 0 nv)), multi_pair by (done || by left). cbn [multi_loop]. rewrite app_nil_r.
    unfold mread. rewrite decide_True, Nat2Z.id, lookup_ge_None_2 by lia. done.
  - rewrite !join_cons in *. inversion Hok as [|? ? Hnv' Hok']; subst. rewrite length_app in Hf.
    assert (exists f, fuel = (length (fst nv') + S f)%nat
      /\ (length (mjoin (pair_text NEWLINE <$> nvs)) + length (pair_text 0 nv) < f)%nat) as (f & -> & Hf').
    { exists (fuel - length (fst nv') - 1)%nat. assert (length (fst nv') + 2 <= length (pair_text NEWLINE nv'))%nat; [|lia].
      unfold pair_text. repeat (rewrite ?length_app; cbn [length]). lia. }
    rewrite <- app_assoc, multi_pair by (done || by right). by apply IH.
Qed.

Lemma info_answer_cut_witness :
  exists m values, as_info_parse_multi_response (mjoin (pair_text NEWLINE <$> [([97], [98]); ([99], [])]) ++ 0 :: [7]) = Some (m, values)
    /\ Forall2 (holds_pair m) values [([97], [98]); ([99], [])]
    /\ length m = length (mjoin (pair_text NEWLINE <$> [([97], [98]); ([99], [])]) ++ 0 :: [7]).
Proof. apply (info_answer_cut [([97], [98]); ([99], [])] [7]). by repeat constructor. Defined.

Lemma unterminated_line_overreads_witness :
  as_info_parse_multi_response (mjoin (pair_text NEWLINE <$> [([97], [98])]) ++ pair_text 0 ([99], [100])) = None.
Proof. apply (unterminated_line_overreads [([97], [98])] ([99], [100])); by repeat constructor. Defined.

(** No answer makes the search for errors read or write outside of it, and an answer
    that is accepted is handed on unchanged; the message of an error, unless it is NULL,
    is a string of the answer; cutting an answer is safe too, and when that succeeds the
    value is a string of the answer. *)
Theorem info_answer_safe body :
  (exists st msg m', as_info_validate (body ++ [0]) = Some (st, msg, m') /\ (st = AEROSPIKE_OK -> m' = body ++ [0]) /\ message_in msg m')
  /\ exists st value m', as_info_parse_single_response (body ++ [0]) = Some (st, value, m')
      /\ (st = AEROSPIKE_OK -> exists text, value ≫= cstr m' = Some text).
Proof. split; [apply validate_ok|apply single_response_ok]. Qed.

(** ** Requests and their answers *)

Section Requests.
Context `{Platform} `{Net W} (hpux : bool).
Context (hpux_big : hpux = true -> host_endian = BigEndian).

Lemma info_request_bytes names send_asis :
  blen (info_body names send_asis) < 2 ^ 48 ->
  info_request hpux names send_asis
  = [AS_INFO_MESSAGE_VERSION; AS_INFO_MESSAGE_TYPE] ++ be_bytes 6 (blen (info_body names send_asis)) ++ info_body names send_asis.
Proof.
  intros Hl. unfold info_request. set (body := info_body names send_asis) in *. rewrite app_assoc. f_equal.
  transitivity (be_bytes 8 (Z.lor (Z.lor (blen body) (Z.shiftl AS_INFO_MESSAGE_VERSION 56)) (Z.shiftl AS_INFO_MESSAGE_TYPE 48))).
  - destruct hpux; [by rewrite hpux_big|apply put_be64_eq].
  - apply proto_word_bytes; [| |lia]; unfold is_byte, AS_INFO_MESSAGE_VERSION, AS_INFO_MESSAGE_TYPE; lia.
Qed.

(** A request and its answer.  The bytes sent are the version, the type, the length in
    network order and the names, ended by a newline; when the peer then sends a header and
    an answer without error marks, a call that succeeds returns exactly that answer with a
    NUL behind it and leaves the rest of the stream unread. *)
Theorem info_command_answer fd names send_asis deadline max_len v t body rest w0 msg m s :
  let text := info_body names send_asis in
  blen text < 2 ^ 48 -> body <> [] -> blen body < 2 ^ 48 -> (max_len <= 0 \/ blen body <= max_len) ->
  os_send (net s) fd ([AS_INFO_MESSAGE_VERSION; AS_INFO_MESSAGE_TYPE] ++ be_bytes 6 (blen text) ++ text) deadline
    = URet (AEROSPIKE_OK, w0) ->
  os_stream w0 fd = [v; t] ++ be_bytes 6 (blen body) ++ body ++ rest ->
  as_info_validate (body ++ [0]) = Some (AEROSPIKE_OK, msg, m) -> allocs s = [] ->
  wlp (as_info_command hpux fd names send_asis deadline max_len)
    (fun r s' => fst r = AEROSPIKE_OK -> snd r = Some (body ++ [0]) /\ os_stream (net s') fd = rest) s.
Proof.
  intros text Ht Hb Hbl Hmax Hsend Hstr Hval Hal. unfold as_info_command. apply wlp_bind. unfold wlp at 1, os_u at 1.
  rewrite info_request_bytes by done. fold text. rewrite Hsend. cbn [ubind negb Z.eqb AEROSPIKE_OK]. apply wlp_bind.
  unfold wlp at 1, os_u at 1. cbn [net set_net]. pose proof (os_recv_exact w0 fd 8 deadline ltac:(lia)) as Hr.
  destruct (os_recv w0 fd 8 deadline) as [[[st hdr] w1]| |] eqn:Er; [|done|by intros [_ Ha]; apply Ha in Er].
  cbn [ubind]. destruct (Z.eqb_spec st 0) as [->|Hst]; [|done]. cbn [negb]. destruct Hr as [_ Hr].
  destruct (Hr eq_refl) as (Hhdr & _ & Hs1). rewrite Hstr in Hhdr, Hs1.
  assert (take (Z.to_nat 8) ([v; t] ++ be_bytes 6 (blen body) ++ body ++ rest) = v :: t :: be_bytes 6 (blen body)
    /\ drop (Z.to_nat 8) ([v; t] ++ be_bytes 6 (blen body) ++ body ++ rest) = body ++ rest) as [Et Ed].
  { rewrite app_assoc. change (Z.to_nat 8) with (length ([v; t] ++ be_bytes 6 (blen body))).
    by rewrite take_app_length, drop_app_length. }
  rewrite Et in Hhdr. rewrite Ed in Hs1. subst hdr. apply wlp_bind. unfold wlp at 1, access at 1.
  pose proof (as_proto_received host_endian v t (blen body) ltac:(lia)) as Hp. apply fmap_Some in Hp as (pr & -> & Hp).
  cbn [lift ubind]. rewrite <- Hp. cbn [proto_sz].
  assert (0 < blen body) as Hpos by (destruct body; [done|simpl; lia]).
  rewrite (proj2 (Z.eqb_neq (blen body) 0)) by lia.
  replace ((0 <? max_len) && (max_len <? blen body)) with false.
  2:{ symmetry. apply andb_false_iff. rewrite !Z.ltb_ge. lia. }
  apply wlp_bind. unfold wlp at 1, malloc. cbn [allocs set_net]. rewrite Hal. cbn [cf_malloc negb]. apply wlp_bind.
  unfold wlp at 1, os_u at 1. cbn [net set_net set_allocs]. pose proof (os_recv_exact w1 fd (blen body) deadline Hpos) as Hr2.
  destruct (os_recv w1 fd (blen body) deadline) as [[[st2 bs] w2]| |] eqn:Er2; [|done|by intros [_ Ha]; apply Ha in Er2].
  cbn [ubind]. destruct (Z.eqb_spec st2 0) as [->|Hst2]; [|done]. cbn [negb]. destruct Hr2 as [_ Hr2].
  destruct (Hr2 eq_refl) as (Hbs & _ & Hs2). rewrite Hs1, Nat2Z.id, take_app_length in Hbs.
  rewrite Hs1, Nat2Z.id, drop_app_length in Hs2. subst bs.
  apply wlp_bind. unfold wlp at 1, access. rewrite Hval. cbn [lift ubind negb Z.eqb AEROSPIKE_OK].
  intros _. split; [|done]. cbn [snd]. destruct (validate_ok body) as (st' & msg' & m' & Hv' & Hm' & _).
  rewrite Hval in Hv'. injection Hv' as <- <- <-. by rewrite Hm'.
Qed.
End Requests.

(** A host whose only peer has already sent everything it will send. *)
#[refine] Instance prepared : Net (list Z) :=
  {| os_socket w := (3, w); os_getfl w _ := (0, w); os_setfl w _ _ := (0, w); os_connect w _ _ := (0, EOTHER, w);
     os_peek w fd := (-1, EAGAIN, w); os_close w _ := w; os_shutdown w _ := w; os_getms w := (5, w);
     os_send w _ _ _ := URet (AEROSPIKE_OK, w);
     os_recv w _ n _ := if n <=? blen w then URet (AEROSPIKE_OK, take (Z.to_nat n) w, drop (Z.to_nat n) w)
                        else URet (AEROSPIKE_ERR_TIMEOUT, replicate (Z.to_nat n) 0, w);
     os_stream w _ := w; queue_env _ := qenv_ok; has_dontwait := true;
     inet_ntop _ := []; inet_aton _ := None; getaddrinfo w _ := (None, w) |}.
Proof.
  - done.
  - intros w fd n deadline Hn. case_if; reflect_Z.
    + rewrite length_take. split; [lia|]. done.
    + rewrite length_replicate. split; [lia|done].
Defined.

Definition prepared_mem : mem (list Z) :=
  mk_mem ∅ ∅ ∅ ∅ 100 [] sample_cluster 0 ([2; 1] ++ be_bytes 6 4 ++ [97; TAB; 98; NEWLINE] ++ [9]) [] [].

Lemma info_command_answer_witness :
  wlp (@as_info_command ppc64 (list Z) prepared true 3 (Some [97]) true 0 0)
    (fun r s' => fst r = AEROSPIKE_OK -> snd r = Some ([97; TAB; 98; NEWLINE] ++ [0]) /\ os_stream (net s') 3 = [9]) prepared_mem.
Proof.
  apply (@info_command_answer ppc64 (list Z) prepared true (fun _ => eq_refl) 3 (Some [97]) true 0 0 2 1 [97; TAB; 98; NEWLINE] [9]
    (net prepared_mem) None ([97; TAB; 98; NEWLINE] ++ [0]) prepared_mem); try done; try (simpl; lia).
Defined.

(** An answer that says only that there was an error. *)
Definition bare_error_mem : mem (list Z) :=
  mk_mem ∅ ∅ ∅ ∅ 100 [] sample_cluster 0 ([2; 1] ++ be_bytes 6 8 ++ ERROR_ ++ [52; NEWLINE]) [] [].

(** An error without a message crashes the client: after the answer "ERROR:4" and a
    newline the message is NULL, and [as_error_setall] copies it. *)
Theorem bare_error_crashes :
  as_info_validate (ERROR_ ++ [52; NEWLINE; 0]) = Some (AEROSPIKE_ERR_SERVER, None, ERROR_ ++ [52; NEWLINE; 0])
  /\ @as_info_command x86_64 (list Z) prepared false 3 (Some [97]) true 0 0 bare_error_mem = UB.
Proof. split; vm_compute; reflexivity. Qed.
