(* ===== verification/Tend.v ===== *)
(** * Tending the cluster

    Models the rest of [src/main/aerospike/as_node.c] (the refreshing of a node),
    [src/main/aerospike/as_cluster.c] and [src/main/aerospike/as_lookup.c]: how the
    client finds the nodes of a cluster, keeps their list and the partition tables up to
    date, and frees what it replaced.  Shared memory, the threads and the condition they
    wait on are not modelled; [as_cluster_tend] is one turn of the tend thread. *)

From S2P Require Import Prelude ByteOrder Base64 Queue Value Msgpack Wire Socket Parse Node Partition Info.
Open Scope Z_scope.

Definition INFO_STACK_BUF_SIZE : Z := 16 * 1024.
Definition INET_ADDRSTRLEN : Z := 16.

(** ["node"], ["partitions"], ["services"], ["partition-generation"],
    ["replicas-master"] and ["replicas-prole"]. *)
Definition node_str : list Z := [110; 111; 100; 101].
Definition partitions_str : list Z := [112; 97; 114; 116; 105; 116; 105; 111; 110; 115].
Definition services_str : list Z := [115; 101; 114; 118; 105; 99; 101; 115].
Definition generation_str : list Z :=
  [112; 97; 114; 116; 105; 116; 105; 111; 110; 45; 103; 101; 110; 101; 114; 97; 116; 105; 111; 110].
Definition master_str : list Z := [114; 101; 112; 108; 105; 99; 97; 115; 45; 109; 97; 115; 116; 101; 114].
Definition prole_str : list Z := [114; 101; 112; 108; 105; 99; 97; 115; 45; 112; 114; 111; 108; 101].

Definition INFO_STR_CHECK : list Z := node_str ++ [NEWLINE] ++ generation_str ++ [NEWLINE] ++ services_str ++ [NEWLINE].
Definition INFO_STR_GET_REPLICAS : list Z :=
  generation_str ++ [NEWLINE] ++ master_str ++ [NEWLINE] ++ prole_str ++ [NEWLINE].

Record as_friend := mk_friend { friend_name : list Z; friend_addr : Z; friend_port : Z }.

Section Tend.
Context `{Platform} `{Net W} (hpux : bool) (stack info_stack : list Z).

(** ** Refreshing a node *)

(** The answer, with its NUL: [inl] on the stack, which the answer then is, [inr] in a
    block of its own; and the stack. *)
Definition as_node_get_info (n : Z) (names : list Z) (timeout_ms : Z) (stack_buf : list Z)
  : M W (option (list Z + list Z) * list Z) :=
  node ← node_at n;
  let fd := info_fd node in
  let proto := as_proto_swap_to_be host_endian
                 {| proto_version := AS_MESSAGE_VERSION; proto_type := AS_INFO_MESSAGE_TYPE; proto_sz := blen names |} in
  stack_buf ← access (fun _ => buf ← mwrite stack_buf 0 (as_proto_image host_endian proto); mwrite buf 8 names);
  request ← access (fun _ => mslice stack_buf 0 (8 + blen names));
  deadline_ms ← deadline_of timeout_ms;
  status ← os_u (fun w => os_send w fd request deadline_ms);
  if negb (status =? 0) then mret (None, stack_buf)
  else
    '(status, bytes) ← os_u (fun w => os_recv w fd 8 deadline_ms);
    stack_buf ← access (fun _ => mwrite stack_buf 0 bytes);
    if negb (status =? 0) then mret (None, stack_buf)
    else
      pr ← access (fun _ => as_proto_of_bytes host_endian bytes);
      let sz := proto_sz (as_proto_swap_from_be host_endian pr) in
      if (sz =? 0) || (512 * 1024 <? sz) then mret (None, stack_buf)
      else if INFO_STACK_BUF_SIZE <=? sz then
        ok ← malloc;
        if negb ok then mret (None, stack_buf)
        else
          '(status, body) ← os_u (fun w => os_recv w fd sz deadline_ms);
          if negb (status =? 0) then mret (None, stack_buf) else mret (Some (inr (body ++ [0])), stack_buf)
      else
        '(status, body) ← os_u (fun w => os_recv w fd sz deadline_ms);
        stack_buf ← access (fun _ => mwrite stack_buf 0 body);
        if negb (status =? 0) then mret (None, stack_buf)
        else
          stack_buf ← access (fun _ => mwrite stack_buf sz [0]);
          mret (Some (inl stack_buf), stack_buf).

(** [name]: the string the server sent; it is never NULL here. *)
Definition as_node_verify_name (n : Z) (name : list Z) : M W bool :=
  if decide (name = []) then mret false
  else
    node ← node_at n;
    if decide (node_name node = name) then mret true
    else _ ← on_node n (set_active false); mret false.

(** The node with an address: pointers are compared as the code compares them. *)
Fixpoint find_address_loop (l : list (option Z)) (address port_be : Z) : M W (option Z) :=
  match l with
  | [] => mret None
  | p :: l =>
      n ← access (fun _ => p);
      node ← node_at n;
      if existsb (fun a => (sin_addr (addr a) =? address) && (sin_port (addr a) =? port_be)) (addresses node)
      then mret (Some n) else find_address_loop l address port_be
  end.

Definition find_node_by_address (address port : Z) : M W (option Z) :=
  a ← cluster_of nodes;
  arr ← array_at a;
  find_address_loop (nodes_array arr) address (cf_swap_to_be16 host_endian port).

Definition as_cluster_find_friend (friends : list as_friend) (address port : Z) : bool :=
  existsb (fun f => (friend_addr f =? address) && (friend_port f =? port)) friends.

(** The entry of one friend: its address as text, and its port. *)
Definition add_friend (addr_str : list Z) (port : Z) (friends_ : list as_friend) : M W (list as_friend) :=
  match (if 0 <? port then inet_aton addr_str else None) with
  | Some address =>
      friend ← find_node_by_address address port;
      match friend with
      | Some m => _ ← on_node m (fun node => set_friends (u32 (friends node + 1)) node); mret friends_
      | None =>
          if as_cluster_find_friend friends_ address port then mret friends_
          else mret (friends_ ++ [mk_friend (as_strncpy addr_str INET_ADDRSTRLEN) address port])
      end
  | None => mret friends_
  end.

Fixpoint friends_loop (fuel : nat) (buf : list Z) (p addr_str : Z) (friends_ : list as_friend)
  : M W (list Z * list as_friend) :=
  match fuel with
  | O => deep
  | S fuel =>
      c ← access (fun _ => mread buf p);
      if c =? 0 then mret (buf, friends_)
      else if c =? COLON then
        buf ← access (fun _ => mwrite buf p [0]);
        let port_str := p + 1 in
        '(buf, q) ← access (fun _ => scan (fun c => c =? SEMICOLON) buf port_str);
        text ← access (fun _ => cstr buf port_str);
        name ← access (fun _ => cstr buf addr_str);
        friends_ ← add_friend name (u16 (atoi text)) friends_;
        friends_loop fuel buf (q + 1) (q + 1) friends_
      else friends_loop fuel buf (p + 1) addr_str friends_
  end.

(** An empty list is that of a single node.  [p] advances every turn. *)
Definition as_node_add_friends (buf : list Z) (off : Z) (friends_ : list as_friend) : M W (list Z * list as_friend) :=
  friends_loop (S (length buf)) buf off off friends_.

(** The status, whether the partitions are to be updated, the answer and the friends. *)
Fixpoint as_node_process_response (n : Z) (buf : list Z) (values : list as_name_value) (friends_ : list as_friend)
    (status update_partitions : bool) : M W (bool * bool * list Z * list as_friend) :=
  match values with
  | [] => mret (status, update_partitions, buf, friends_)
  | nv :: values =>
      name ← access (fun _ => cstr buf (nv_name nv));
      if decide (name = node_str) then
        value ← access (fun _ => cstr buf (nv_value nv));
        ok ← as_node_verify_name n value;
        if ok : bool then as_node_process_response n buf values friends_ true update_partitions
        else mret (false, update_partitions, buf, friends_)
      else if decide (name = generation_str) then
        value ← access (fun _ => cstr buf (nv_value nv));
        node ← node_at n;
        as_node_process_response n buf values friends_ status
          (if partition_generation node =? u32 (atoi value) then update_partitions else true)
      else if decide (name = services_str) then
        '(buf, friends_) ← as_node_add_friends buf (nv_value nv) friends_;
        as_node_process_response n buf values friends_ status update_partitions
      else as_node_process_response n buf values friends_ status update_partitions
  end.

(** The results of the updates are not looked at. *)
Fixpoint as_node_process_partitions (n : Z) (buf : list Z) (values : list as_name_value) : M W unit :=
  match values with
  | [] => mret tt
  | nv :: values =>
      name ← access (fun _ => cstr buf (nv_name nv));
      if decide (name = generation_str) then
        value ← access (fun _ => cstr buf (nv_value nv));
        _ ← on_node n (set_generation (u32 (atoi value)));
        as_node_process_partitions n buf values
      else if decide (name = master_str) then
        '(_, buf) ← as_partition_tables_update n buf (nv_value nv) true;
        as_node_process_partitions n buf values
      else if decide (name = prole_str) then
        '(_, buf) ← as_partition_tables_update n buf (nv_value nv) false;
        as_node_process_partitions n buf values
      else as_node_process_partitions n buf values
  end.

Definition block_of (r : list Z + list Z) : list Z := match r with inl m => m | inr m => m end.

(** [info_stack] is [stack_buf], with what was there; the second answer may use it again. *)
Definition as_node_refresh (n : Z) (friends_ : list as_friend) : M W (bool * list as_friend) :=
  ret ← as_node_get_info_connection stack n;
  if negb (ret =? 0) then mret (false, friends_)
  else
    info_timeout ← cluster_of conn_timeout_ms;
    '(r, stack_buf) ← as_node_get_info n INFO_STR_CHECK info_timeout info_stack;
    match r with
    | None => _ ← as_node_close_info_connection n; mret (false, friends_)
    | Some r =>
        '(buf, values) ← access (fun _ => as_info_parse_multi_response (block_of r));
        '(status, update_partitions, buf, friends_) ← as_node_process_response n buf values friends_ false false;
        if status && update_partitions then
          '(r, _) ← as_node_get_info n INFO_STR_GET_REPLICAS info_timeout (match r with inl _ => buf | inr _ => stack_buf end);
          match r with
          | None => _ ← as_node_close_info_connection n; mret (false, friends_)
          | Some r =>
              '(buf, values) ← access (fun _ => as_info_parse_multi_response (block_of r));
              _ ← as_node_process_partitions n buf values;
              mret (status, friends_)
          end
        else mret (status, friends_)
    end.

(** ** Hosts *)

(** The alternate address of a host, if there is one. *)
Fixpoint alternate (l : list as_addr_map) (hostname : list Z) : list Z :=
  match l with
  | [] => hostname
  | e :: l => if decide (orig e = hostname) then alt e else alternate l hostname
  end.

Definition append_unique (sa : sockaddr_in) (l : list sockaddr_in) : list sockaddr_in :=
  if decide (sa ∈ l) then l else l ++ [sa].

(** The addresses go into an empty vector. *)
Definition as_lookup (hostname : list Z) (port : Z) : M W (Z * list sockaddr_in) :=
  m ← cluster_of ip_map;
  results ← os (fun w => getaddrinfo w (alternate m hostname));
  match results with
  | None => mret (AEROSPIKE_ERR_CLUSTER, [])
  | Some results =>
      let port_be := cf_swap_to_be16 host_endian port in
      mret (0, fold_left (fun l a => append_unique (mk_addr a port_be) l) results [])
  end.

(** The status and the name, which is left as it was when the status is not 0. *)
Definition as_lookup_node_name (sa : sockaddr_in) : M W (Z * option (list Z)) :=
  timeout ← cluster_of conn_timeout_ms;
  deadline ← deadline_of timeout;
  '(status, response) ← as_info_command_host stack hpux sa node_str true deadline;
  if negb (status =? 0) then mret (status, None)
  else
    response ← access (fun _ => response);
    '(status, value, response) ← access (fun _ => as_info_parse_single_response response);
    if status =? AEROSPIKE_OK then
      value ← access (fun _ => value ≫= cstr response);
      mret (status, Some (as_strncpy value AS_NODE_NAME_SIZE))
    else mret (status, None).

Definition as_find_seed (l : list as_seed) (hostname : list Z) (port : Z) : bool :=
  existsb (fun seed => (seed_port seed =? port) && bool_decide (seed_name seed = hostname)) l.

(** ** The nodes of the cluster *)

Definition with_nodes (a : Z) (c : as_cluster) : as_cluster :=
  mk_cluster a (partition_tables c) (gc c) (user c) (password c) (seeds c) (ip_map c) (conn_timeout_ms c)
    (node_index c) (n_partitions c) (valid c).
Definition with_gc (l : list as_gc_item) (c : as_cluster) : as_cluster :=
  mk_cluster (nodes c) (partition_tables c) l (user c) (password c) (seeds c) (ip_map c) (conn_timeout_ms c)
    (node_index c) (n_partitions c) (valid c).
Definition with_credentials (u p : option (list Z)) (c : as_cluster) : as_cluster :=
  mk_cluster (nodes c) (partition_tables c) (gc c) u p (seeds c) (ip_map c) (conn_timeout_ms c)
    (node_index c) (n_partitions c) (valid c).
Definition with_seeds (l : list as_seed) (c : as_cluster) : as_cluster :=
  mk_cluster (nodes c) (partition_tables c) (gc c) (user c) (password c) l (ip_map c) (conn_timeout_ms c)
    (node_index c) (n_partitions c) (valid c).
Definition with_partitions (np : Z) (c : as_cluster) : as_cluster :=
  mk_cluster (nodes c) (partition_tables c) (gc c) (user c) (password c) (seeds c) (ip_map c) (conn_timeout_ms c)
    (node_index c) np (valid c).
Definition with_valid (b : bool) (c : as_cluster) : as_cluster :=
  mk_cluster (nodes c) (partition_tables c) (gc c) (user c) (password c) (seeds c) (ip_map c) (conn_timeout_ms c)
    (node_index c) (n_partitions c) b.

Definition set_nodes (a : Z) : M W unit := modify (set_cluster (with_nodes a)).

Definition as_add_seeds (l : list as_seed) : M W unit := modify (set_cluster (fun c => with_seeds (seeds c ++ l) c)).

(** The first of [l] with the name; its caller keeps no reference. *)
Fixpoint find_by_name (l : list (option Z)) (name : list Z) : M W (option Z) :=
  match l with
  | [] => mret None
  | p :: l =>
      n ← access (fun _ => p);
      node ← node_at n;
      if decide (node_name node = name) then mret (Some n) else find_by_name l name
  end.
Definition as_cluster_find_node_in_vector (l : list Z) (name : list Z) : M W (option Z) := find_by_name (Some <$> l) name.
Definition as_cluster_find_node (a : Z) (name : list Z) : M W (option Z) :=
  arr ← array_at a; find_by_name (nodes_array arr) name.

Definition as_nodes_create (capacity : Z) : M W Z :=
  ok ← malloc;
  if negb ok then ub
  else
    a ← fresh_ptr;
    _ ← modify (set_arrays <[a := mk_nodes 1 (replicate (Z.to_nat capacity) None)]>);
    mret a.

Definition as_cluster_add_nodes_copy (nodes_to_add : list Z) : M W unit :=
  nodes_old ← cluster_of nodes;
  old ← array_at nodes_old;
  nodes_new ← as_nodes_create (u32 (blen (nodes_array old) + blen nodes_to_add));
  new ← array_at nodes_new;
  array ← access (fun _ =>
    array ← mwrite (nodes_array new) 0 (nodes_array old);
    mwrite array (blen (nodes_array old)) (Some <$> nodes_to_add));
  _ ← modify (set_arrays <[nodes_new := mk_nodes (nodes_refs new) array]>);
  _ ← set_nodes nodes_new;
  gc_append (GcNodes nodes_old).

(** There is no shared memory. *)
Definition as_cluster_add_nodes (nodes_to_add : list Z) : M W unit := as_cluster_add_nodes_copy nodes_to_add.

(** A new node, as its address is logged. *)
Definition create_node (name : list Z) (sa : sockaddr_in) : M W Z :=
  n ← as_node_create name sa;
  n ← access (fun _ => n);
  _ ← as_node_get_address_full n;
  mret n.

Fixpoint seed_addresses (l : list sockaddr_in) (nodes_to_add : list Z) (first_error : Z) : M W (list Z * Z) :=
  match l with
  | [] => mret (nodes_to_add, first_error)
  | sa :: l =>
      '(status, name) ← as_lookup_node_name sa;
      if status =? 0 then
        name ← access (fun _ => name);
        node ← as_cluster_find_node_in_vector nodes_to_add name;
        match node with
        | Some n => _ ← as_node_add_address n sa; seed_addresses l nodes_to_add first_error
        | None => n ← create_node name sa; seed_addresses l (nodes_to_add ++ [n]) first_error
        end
      else seed_addresses l nodes_to_add (if first_error =? 0 then status else first_error)
  end.

Fixpoint seed_loop (l : list as_seed) (nodes_to_add : list Z) (first_error : Z) : M W (list Z * Z) :=
  match l with
  | [] => mret (nodes_to_add, first_error)
  | seed :: l =>
      '(status, addrs) ← as_lookup (seed_name seed) (seed_port seed);
      if negb (status =? 0) then seed_loop l nodes_to_add (if first_error =? 0 then status else first_error)
      else
        '(nodes_to_add, first_error) ← seed_addresses addrs nodes_to_add first_error;
        seed_loop l nodes_to_add first_error
  end.

Definition as_cluster_seed_nodes : M W Z :=
  l ← cluster_of seeds;
  '(nodes_to_add, first_error) ← seed_loop l [] 0;
  if 0 <? blen nodes_to_add then _ ← as_cluster_add_nodes nodes_to_add; mret 0
  else mret (if negb (first_error =? 0) then first_error else AEROSPIKE_ERR_CLIENT).

Fixpoint friend_addresses (l : list sockaddr_in) (nodes_to_add : list Z) : M W (list Z) :=
  match l with
  | [] => mret nodes_to_add
  | sa :: l =>
      '(status, name) ← as_lookup_node_name sa;
      if status =? 0 then
        name ← access (fun _ => name);
        a ← cluster_of nodes;
        node ← as_cluster_find_node a name;
        match node with
        | Some n =>
            _ ← as_node_get_address_full n;
            _ ← on_node n (fun node => set_friends (u32 (friends node + 1)) node);
            _ ← as_node_add_address n sa;
            friend_addresses l nodes_to_add
        | None => n ← create_node name sa; friend_addresses l (nodes_to_add ++ [n])
        end
      else friend_addresses l nodes_to_add
  end.

Fixpoint as_cluster_find_nodes_to_add (l : list as_friend) (nodes_to_add : list Z) : M W (list Z) :=
  match l with
  | [] => mret nodes_to_add
  | f :: l =>
      '(status, addrs) ← as_lookup (friend_name f) (friend_port f);
      if negb (status =? 0) then as_cluster_find_nodes_to_add l nodes_to_add
      else nodes_to_add ← friend_addresses addrs nodes_to_add; as_cluster_find_nodes_to_add l nodes_to_add
  end.

(** The [switch] of the loop: whether an active node of a cluster of [size] nodes goes. *)
Definition remove_active (size refresh_count n : Z) (node : as_node) : M W bool :=
  if size =? 1 then
    if 5 <=? failures node then status ← as_cluster_seed_nodes; mret (status =? 0) else mret false
  else if size =? 2 then mret ((refresh_count =? 1) && (friends node =? 0) && (0 <? failures node))
  else if (2 <=? refresh_count) && (friends node =? 0) then
    if failures node =? 0 then
      t ← cluster_of partition_tables; found ← as_partition_tables_find_node t n; mret (negb found)
    else mret true
  else mret false.

Fixpoint remove_loop (l : list (option Z)) (size refresh_count : Z) (nodes_to_remove : list Z) : M W (list Z) :=
  match l with
  | [] => mret nodes_to_remove
  | p :: l =>
      n ← access (fun _ => p);
      node ← node_at n;
      goes ← (if negb (active node) then mret true else remove_active size refresh_count n node);
      remove_loop l size refresh_count (if goes : bool then nodes_to_remove ++ [n] else nodes_to_remove)
  end.

Definition as_cluster_find_nodes_to_remove (refresh_count : Z) : M W (list Z) :=
  a ← cluster_of nodes;
  arr ← array_at a;
  remove_loop (nodes_array arr) (blen (nodes_array arr)) refresh_count [].

Definition as_cluster_find_node_by_reference (nodes_to_remove : list Z) (filter : Z) : bool :=
  existsb (fun n => n =? filter) nodes_to_remove.

(** The nodes that stay go into [array], the others to the garbage collector. *)
Fixpoint remove_copy_loop (l : list (option Z)) (nodes_to_remove : list Z) (array : list (option Z)) (count : Z)
  : M W (list (option Z)) :=
  match l with
  | [] => mret array
  | p :: l =>
      n ← access (fun _ => p);
      if as_cluster_find_node_by_reference nodes_to_remove n then
        _ ← as_node_get_address_full n;
        _ ← gc_append (GcNode n);
        remove_copy_loop l nodes_to_remove array count
      else if count <? blen array then
        array ← access (fun _ => aset array count (Some n));
        remove_copy_loop l nodes_to_remove array (count + 1)
      else _ ← as_node_get_address_full n; remove_copy_loop l nodes_to_remove array count
  end.

Definition as_cluster_remove_nodes_copy (nodes_to_remove : list Z) : M W unit :=
  nodes_old ← cluster_of nodes;
  old ← array_at nodes_old;
  nodes_new ← as_nodes_create (u32 (blen (nodes_array old) - blen nodes_to_remove));
  new ← array_at nodes_new;
  array ← remove_copy_loop (nodes_array old) nodes_to_remove (nodes_array new) 0;
  _ ← modify (set_arrays <[nodes_new := mk_nodes (nodes_refs new) array]>);
  _ ← set_nodes nodes_new;
  gc_append (GcNodes nodes_old).

Fixpoint deactivate_all (l : list Z) : M W unit :=
  match l with [] => mret tt | n :: l => _ ← as_node_deactivate n; deactivate_all l end.

Definition as_cluster_remove_nodes (nodes_to_remove : list Z) : M W unit :=
  _ ← deactivate_all nodes_to_remove; as_cluster_remove_nodes_copy nodes_to_remove.

(** ** Tending *)

Fixpoint partition_size_loop (l : list (option Z)) (first_error : Z) : M W Z :=
  match l with
  | [] => mret first_error
  | p :: l =>
      np ← cluster_of n_partitions;
      if negb (np =? 0) then mret first_error
      else
        n ← access (fun _ => p);
        a ← as_node_get_address_full n;
        timeout ← cluster_of conn_timeout_ms;
        deadline ← deadline_of timeout;
        '(status, response) ← as_info_command_host stack hpux (addr a) partitions_str true deadline;
        if negb (status =? 0) then partition_size_loop l (if first_error =? 0 then status else first_error)
        else
          response ← access (fun _ => response);
          '(status, value, response) ← access (fun _ => as_info_parse_single_response response);
          if status =? AEROSPIKE_OK then
            value ← access (fun _ => value ≫= cstr response);
            _ ← modify (set_cluster (with_partitions (u16 (atoi value))));
            partition_size_loop l first_error
          else partition_size_loop l (if first_error =? 0 then status else first_error)
  end.

Definition as_cluster_set_partition_size : M W Z :=
  a ← cluster_of nodes;
  arr ← array_at a;
  first_error ← partition_size_loop (nodes_array arr) 0;
  np ← cluster_of n_partitions;
  mret (if 0 <? np then 0 else if negb (first_error =? 0) then first_error else AEROSPIKE_ERR_CLIENT).

Definition release_item (item : as_gc_item) : M W unit :=
  match item with
  | GcNode n => as_node_release n
  | GcNodes a => as_nodes_release a
  | GcTables t => as_partition_tables_release t
  end.

Fixpoint gc_loop (l : list as_gc_item) : M W unit :=
  match l with [] => mret tt | item :: l => _ ← release_item item; gc_loop l end.

Definition as_cluster_gc : M W unit :=
  l ← cluster_of gc; _ ← gc_loop l; modify (set_cluster (with_gc [])).

Fixpoint clear_friends (l : list (option Z)) : M W unit :=
  match l with
  | [] => mret tt
  | p :: l => n ← access (fun _ => p); _ ← on_node n (set_friends 0); clear_friends l
  end.

(** The friends the nodes know, and how many answered. *)
Fixpoint refresh_loop (l : list (option Z)) (friends_ : list as_friend) (refresh_count : Z) : M W (list as_friend * Z) :=
  match l with
  | [] => mret (friends_, refresh_count)
  | p :: l =>
      n ← access (fun _ => p);
      node ← node_at n;
      if active node then
        '(ok, friends_) ← as_node_refresh n friends_;
        if ok : bool then
          _ ← on_node n (set_failures 0); refresh_loop l friends_ (u32 (refresh_count + 1))
        else
          _ ← on_node n (fun node => set_failures (u32 (failures node + 1)) node); refresh_loop l friends_ refresh_count
      else refresh_loop l friends_ refresh_count
  end.

(** What a turn does when the cluster has nodes and knows its number of partitions. *)
Definition tend_nodes : M W unit :=
  a ← cluster_of nodes;
  arr ← array_at a;
  _ ← clear_friends (nodes_array arr);
  '(friends_, refresh_count) ← refresh_loop (nodes_array arr) [] 0;
  nodes_to_add ← as_cluster_find_nodes_to_add friends_ [];
  nodes_to_remove ← as_cluster_find_nodes_to_remove refresh_count;
  _ ← (if 0 <? blen nodes_to_remove then as_cluster_remove_nodes nodes_to_remove else mret tt);
  if 0 <? blen nodes_to_add then as_cluster_add_nodes nodes_to_add else mret tt.

Definition as_cluster_tend : M W Z :=
  _ ← as_cluster_gc;
  a ← cluster_of nodes;
  arr ← array_at a;
  status ← (if blen (nodes_array arr) =? 0 then as_cluster_seed_nodes else mret 0);
  if negb (status =? 0) then mret status
  else
    np ← cluster_of n_partitions;
    status ← (if np =? 0 then as_cluster_set_partition_size else mret 0);
    if negb (status =? 0) then mret status else _ ← tend_nodes; mret 0.

(** [fuel] bounds the turns before the clock reaches the limit. *)
Fixpoint stabilize_loop (fuel : nat) (limit count : Z) : M W Z :=
  match fuel with
  | O => deep
  | S fuel =>
      status ← as_cluster_tend;
      if negb (status =? 0) then mret status
      else
        a ← cluster_of nodes;
        arr ← array_at a;
        if count =? blen (nodes_array arr) then mret 0
        else
          ms ← os os_getms;
          if ms <? limit then stabilize_loop fuel limit (blen (nodes_array arr)) else mret 0
  end.

Definition as_wait_till_stabilized (fuel : nat) : M W Z :=
  ms ← os os_getms;
  timeout ← cluster_of conn_timeout_ms;
  stabilize_loop fuel (u64 (ms + timeout)) 0xFFFFFFFF.

(** The addresses of a node that are no seeds yet, added to [acc]. *)
Definition new_seeds (known : list as_seed) (l : list as_address) : list as_seed :=
  omap (fun a => let port := cf_swap_from_be16 host_endian (sin_port (addr a)) in
                 if as_find_seed known (addr_name a) port then None else Some (mk_seed (addr_name a) port)) l.

Fixpoint seeds_to_add (known : list as_seed) (l : list (option Z)) : M W (list as_seed) :=
  match l with
  | [] => mret []
  | p :: l =>
      n ← access (fun _ => p);
      node ← node_at n;
      rest ← seeds_to_add known l;
      mret (new_seeds known (addresses node) ++ rest)
  end.

Definition as_cluster_add_seeds : M W unit :=
  a ← cluster_of nodes;
  arr ← array_at a;
  known ← cluster_of seeds;
  l ← seeds_to_add known (nodes_array arr);
  if 0 <? blen l then as_add_seeds l else mret tt.

Definition as_cluster_init (fuel : nat) (fail_if_not_connected : bool) : M W Z :=
  status ← as_wait_till_stabilized fuel;
  if negb (status =? 0) && fail_if_not_connected then mret status
  else
    _ ← as_cluster_add_seeds;
    _ ← modify (set_cluster (with_valid true));
    mret 0.

(** ** The users of a cluster *)

Fixpoint node_names (l : list (option Z)) : M W (list (list Z)) :=
  match l with
  | [] => mret []
  | p :: l => n ← access (fun _ => p); node ← node_at n; rest ← node_names l; mret (node_name node :: rest)
  end.

(** The number of nodes, and their names when there is memory for them. *)
Definition as_cluster_get_node_names : M W (Z * option (list (list Z))) :=
  a ← as_nodes_reserve;
  arr ← array_at a;
  let size := blen (nodes_array arr) in
  if size =? 0 then _ ← as_nodes_release a; mret (size, None)
  else
    ok ← malloc;
    if negb ok then _ ← as_nodes_release a; mret (size, None)
    else names ← node_names (nodes_array arr); _ ← as_nodes_release a; mret (size, Some names).

Definition as_cluster_is_connected : M W bool :=
  a ← as_nodes_reserve;
  arr ← array_at a;
  v ← cluster_of valid;
  let connected := (0 <? blen (nodes_array arr)) && v in
  _ ← as_nodes_release a;
  mret connected.

(** ** Creating and destroying a cluster *)

(** The members of [as_config] that are used here; [use_shm] is false. *)
Record as_config := mk_config {
  config_hosts : list (option (list Z) * Z);
  config_user : list Z;
  config_password : list Z;
  config_ip_map : list as_addr_map;
  config_conn_timeout_ms : Z;
  config_fail_if_not_connected : bool
}.

(** The hosts up to the first that is NULL. *)
Fixpoint seeds_create (l : list (option (list Z) * Z)) : list as_seed :=
  match l with
  | (Some name, port) :: l => mk_seed name port :: seeds_create l
  | _ => []
  end.

Fixpoint destroy_tables (l : list (option Z)) : M W unit :=
  match l with
  | [] => mret tt
  | p :: l => t ← access (fun _ => p); _ ← as_partition_table_destroy t; destroy_tables l
  end.

Fixpoint release_nodes (l : list (option Z)) : M W unit :=
  match l with
  | [] => mret tt
  | p :: l => n ← access (fun _ => p); _ ← as_node_release n; release_nodes l
  end.

(** After the threads have stopped. *)
Definition as_cluster_destroy : M W unit :=
  _ ← modify (set_cluster (with_valid false));
  _ ← as_cluster_gc;
  t ← cluster_of partition_tables;
  tables ← tables_at t;
  _ ← destroy_tables (tables_array tables);
  _ ← as_partition_tables_release t;
  a ← cluster_of nodes;
  arr ← array_at a;
  _ ← release_nodes (nodes_array arr);
  as_nodes_release a.

(** The thread that tends the cluster is started after this. *)
Definition as_cluster_create (fuel : nat) (config : as_config) : M W Z :=
  ok ← malloc;
  if negb ok then ub
  else
    let text l := match l with [] => None | _ => Some l end in
    let timeout := if config_conn_timeout_ms config =? 0 then 1000 else config_conn_timeout_ms config in
    _ ← modify (set_cluster (fun _ =>
          mk_cluster 0 0 [] (text (config_user config)) (text (config_password config)) (seeds_create (config_hosts config))
            (config_ip_map config) timeout 0 0 false));
    a ← as_nodes_create 0;
    _ ← set_nodes a;
    t ← as_partition_tables_create 0;
    _ ← set_partition_tables t;
    status ← as_cluster_init fuel (config_fail_if_not_connected config);
    if negb (status =? 0) then _ ← as_cluster_destroy; mret status else mret 0.
End Tend.
