(* ===== verification/Membership.v ===== *)
(** * The members of a cluster and who holds them

    Theorems about the functions of file [Tend] that change which nodes, arrays of nodes
    and partition tables there are: adding and removing nodes by copying the array, the
    garbage collection at the next turn of the tender, new nodes, and the end of the
    cluster.  The invariant [cluster_ok] says that every object of the memory is held by
    somebody and that its counter says by how many. *)

From S2P Require Import Prelude Counting ByteOrder Base64 Queue Value Msgpack Wire Socket Parse Node Partition Info Tend.
Open Scope Z_scope.

(** What waits for the collector. *)
Definition gc_nodes (g : list as_gc_item) : list Z := omap (fun i => match i with GcNode n => Some n | _ => None end) g.
Definition gc_arrays (g : list as_gc_item) : list Z := omap (fun i => match i with GcNodes a => Some a | _ => None end) g.
Definition gc_tables (g : list as_gc_item) : list Z := omap (fun i => match i with GcTables t => Some t | _ => None end) g.

(** The references to the node at [m] that are not slots of tables: [E m] of the users,
    those of the new nodes [P] that are not members yet, of the members [l] and of the
    collector [g]. *)
Definition holders (g : list as_gc_item) (E : Z -> Z) (P l : list Z) (m : Z) : Z :=
  E m + occ m P + occ m l + occ m (gc_nodes g).

(** The objects at the addresses [l], and no others, are there, each with one reference. *)
Definition exactly {A} (refs : A -> Z) (m : gmap Z A) (l : list Z) : Prop :=
  NoDup l /\ forall a, match m !! a with Some x => a ∈ l /\ refs x = 1 | None => a ∉ l end.

Lemma exactly_delete {A} (refs : A -> Z) m l1 a l2 :
  exactly refs m (l1 ++ a :: l2) -> exactly refs (delete a m) (l1 ++ l2).
Proof.
  intros [Hnd Hm]. rewrite <- Permutation_middle in Hnd. apply NoDup_cons in Hnd as [Ha Hnd]. split; [done|]. intros b.
  specialize (Hm b). destruct (decide (b = a)) as [->|Hb].
  - by rewrite lookup_delete_eq.
  - rewrite lookup_delete_ne by done. destruct (m !! b); rewrite elem_of_app, elem_of_cons in Hm; rewrite elem_of_app; tauto.
Qed.

Lemma exactly_insert {A} (refs : A -> Z) m l a x :
  exactly refs m l -> m !! a = None -> refs x = 1 -> exactly refs (<[a := x]> m) (a :: l).
Proof.
  intros [Hnd Hm] Ha Hx. pose proof (Hm a) as Hma. rewrite Ha in Hma. split; [by apply NoDup_cons|]. intros b.
  destruct (decide (b = a)) as [->|Hb]; [rewrite lookup_insert_eq; by split; [left|]|].
  rewrite lookup_insert_ne by done. specialize (Hm b). destruct (m !! b); rewrite elem_of_cons; tauto.
Qed.

#[export] Instance exactly_Proper {A} (refs : A -> Z) (m : gmap Z A) : Proper ((≡ₚ) ==> iff) (exactly refs m).
Proof.
  intros l l' Hl. unfold exactly. rewrite Hl. apply and_iff_compat_l. apply forall_proper. intros a.
  destruct (m !! a); by rewrite Hl.
Qed.

Lemma exactly_in {A} (refs : A -> Z) m l a : exactly refs m l -> a ∈ l -> exists x, m !! a = Some x /\ refs x = 1.
Proof. intros [_ Hm] Ha. specialize (Hm a). destruct (m !! a) as [x|]; [|done]. exists x. by destruct Hm. Qed.

Section Invariant.
Context `{Platform} `{Net W}.
(** The number of partitions, of entries in an answer, and the namespaces there are. *)
Context (np K : Z) (N : list (list Z)).
Implicit Types (s : mem W).

Record ok_with (g : list as_gc_item) (E : Z -> Z) (P l : list Z) s : Prop := mk_ok {
  ok_nodes : counted (m_nodes s) (booked (holders g E P l) (m_table s));
  ok_once : NoDup (P ++ l ++ gc_nodes g);
  ok_bound : forall m, 0 <= E m /\ E m + 2 + 2 * np * (blen N + K) < 2 ^ 32;
  ok_members : m_arrays s !! nodes (cluster s) = Some (mk_nodes 1 (Some <$> l));
  ok_arrays : exactly nodes_refs (m_arrays s) (nodes (cluster s) :: gc_arrays g);
  ok_tables : exactly tables_refs (m_tables s) (partition_tables (cluster s) :: gc_tables g);
  ok_live : all_live (m_table s) (cluster_tables s);
  ok_catalog : catalog N (m_table s) (cluster_tables s);
  ok_parts : forall t tb, m_table s !! t = Some tb -> blen (partitions tb) = np;
  ok_size : 0 < np < 2 ^ 16 /\ 0 <= K
    /\ (n_partitions (cluster s) = np \/ n_partitions (cluster s) = 0 /\ m_table s = ∅);
  ok_allocs : allocs s = [];
  ok_index : 0 <= node_index (cluster s) < 2 ^ 32;
  ok_fresh : (forall n node, m_nodes s !! n = Some node -> n < next s)
    /\ (forall a arr, m_arrays s !! a = Some arr -> a < next s)
    /\ (forall t tb, m_table s !! t = Some tb -> t < next s)
    /\ (forall t ts, m_tables s !! t = Some ts -> t < next s)
}.

(** The members of the cluster are [l]; [E] counts the references of its users. *)
Definition cluster_ok (E : Z -> Z) (P l : list Z) s : Prop := ok_with (gc (cluster s)) E P l s.

Lemma holders_bound g E P l s m : ok_with g E P l s -> E m <= holders g E P l m <= E m + 1.
Proof.
  intros Hs. pose proof (occ_once m _ (ok_once _ _ _ _ _ Hs)) as Ho. rewrite !occ_app in Ho. unfold holders.
  pose proof (occ_nonneg m P). pose proof (occ_nonneg m l). pose proof (occ_nonneg m (gc_nodes g)). lia.
Qed.

(** The tables of a catalog are not more than its namespaces. *)
Lemma catalog_size T l : catalog N T l -> Z.of_nat (size T) <= blen N.
Proof.
  intros (_ & Hin & Hinj). rewrite <- length_map_to_list, <- (length_fmap (fun kv => table_ns (snd kv))).
  enough (length ((fun kv => table_ns (snd kv)) <$> map_to_list T) <= length N)%nat by lia.
  apply submseteq_length, NoDup_submseteq.
  - apply NoDup_fmap_2_strong; [|apply NoDup_map_to_list]. intros [t1 tb1] [t2 tb2] H1%elem_of_map_to_list H2%elem_of_map_to_list Hn.
    cbn [snd] in Hn. assert (t1 = t2) as <- by (by eapply Hinj). congruence.
  - intros ns ([t tb] & -> & Ht%elem_of_map_to_list)%list_elem_of_fmap. by eapply Hin.
Qed.

Lemma room_size (T : gmap Z as_partition_table) :
  (forall t tb, T !! t = Some tb -> blen (partitions tb) = np) -> room_in T = 2 * np * Z.of_nat (size T).
Proof.
  unfold room_in. induction T as [|t tb T Ht IH] using map_ind; intros Hsz; [by rewrite msum_empty, map_size_empty, Z.mul_0_r|].
  rewrite msum_insert_new, map_size_insert_None by done. rewrite IH, (Hsz t tb); [lia|apply lookup_insert_eq|].
  intros t' tb' Ht'. apply (Hsz t' tb'). rewrite lookup_insert_ne; [done|]. by intros ->; congruence.
Qed.

Lemma ok_room g E P l s m : ok_with g E P l s -> holders g E P l m + room_in (m_table s) + 2 * np * K + 1 < 2 ^ 32.
Proof.
  intros Hs. destruct (ok_bound _ _ _ _ _ Hs m) as [_ Hb]. pose proof (holders_bound g E P l s m Hs).
  rewrite (room_size _ (ok_parts _ _ _ _ _ Hs)). pose proof (catalog_size _ _ (ok_catalog _ _ _ _ _ Hs)).
  destruct (ok_size _ _ _ _ _ Hs) as (Hnp & _). nia.
Qed.

(** The books of file [Partition]. *)
Lemma ok_tables_ok g E P l s :
  ok_with g E P l s -> n_partitions (cluster s) = np -> tables_ok (holders g E P l) np K s.
Proof.
  intros Hs Hn. destruct (ok_fresh _ _ _ _ _ Hs) as (_ & _ & Ht & Hts). split_and!; try apply Hs; try done.
  - intros t tb Htb. split; [by apply (ok_parts _ _ _ _ _ Hs t)|by eapply Ht].
  - intros m. pose proof (ok_room g E P l s m Hs). pose proof (holders_bound g E P l s m Hs).
    destruct (ok_bound _ _ _ _ _ Hs m). lia.
Qed.

(** Whoever is held is there. *)
Lemma ok_held g E P l s n : ok_with g E P l s -> 0 < holders g E P l n -> exists node, m_nodes s !! n = Some node /\ node_ok node.
Proof.
  intros Hs Hh. assert (0 < booked (holders g E P l) (m_table s) n) as Hb.
  { unfold booked. pose proof (msum_le (fun _ => 0) (fun tb => slots n (partitions tb)) (m_table s)
      (fun _ tb _ => proj1 (slots_bound n (partitions tb)))) as Hle.
    rewrite msum_zero in Hle. lia. }
  destruct (counted_live _ _ _ (ok_nodes _ _ _ _ _ Hs) Hb) as [node Hn]. exists node. split; [done|].
  pose proof (ok_nodes _ _ _ _ _ Hs n) as Hc. rewrite Hn in Hc. apply Hc.
Qed.

Lemma ok_member g E P l s n : ok_with g E P l s -> n ∈ l -> exists node, m_nodes s !! n = Some node /\ node_ok node.
Proof.
  intros Hs Hn%occ_in. eapply ok_held; [done|]. unfold holders. pose proof (occ_nonneg n P).
  pose proof (occ_nonneg n (gc_nodes g)). destruct (ok_bound _ _ _ _ _ Hs n). lia.
Qed.

(** A change of a node that keeps its references and leaves it usable. *)
Lemma ok_on_node g E P l s n node node' :
  ok_with g E P l s -> m_nodes s !! n = Some node -> ref_count node' = ref_count node -> node_ok node' ->
  ok_with g E P l (set_nodes_map <[n := node']> s).
Proof.
  intros Hs Hn Hr Hok. destruct Hs as [Hnodes Honce Hbound Hmem Harr Htbs Hlive Hcat Hparts Hsize Hal Hidx Hfr].
  constructor; try done.
  - set (R := booked (holders g E P l) (m_table s)) in *. change (counted (<[n := node']> (m_nodes s)) R).
    apply (counted_ext _ (plus R n 0)); [intros m; unfold plus; case_decide; lia|].
    pose proof (Hnodes n) as Hc. rewrite Hn in Hc. destruct Hc as (Hrc & Hb & _).
    apply counted_insert; [done|by rewrite Z.add_0_r; congruence|by rewrite Z.add_0_r|done].
  - destruct Hfr as (Hf & Hrest). split; [|done]. intros m nd. cbn. destruct (decide (m = n)) as [->|Hne].
    + intros _. by eapply Hf.
    + rewrite lookup_insert_ne by done. apply Hf.
Qed.

(** A change of the rest of the world. *)
Definition same_objects s s' : Prop :=
  m_nodes s' = m_nodes s /\ m_arrays s' = m_arrays s /\ m_table s' = m_table s /\ m_tables s' = m_tables s
  /\ next s' = next s /\ allocs s' = allocs s /\ nodes (cluster s') = nodes (cluster s)
  /\ partition_tables (cluster s') = partition_tables (cluster s)
  /\ n_partitions (cluster s') = n_partitions (cluster s) /\ node_index (cluster s') = node_index (cluster s).

Lemma ok_same_objects g E P l s s' : same_objects s s' -> ok_with g E P l s -> ok_with g E P l s'.
Proof.
  intros (H1 & H2 & H3 & H4 & H5 & H6 & H7 & H8 & H9 & H10) [].
  assert (cluster_tables s' = cluster_tables s) as Hct by (unfold cluster_tables; by rewrite H4, H8).
  constructor; rewrite ?Hct, ?H1, ?H2, ?H3, ?H4, ?H5, ?H6, ?H7, ?H8, ?H9, ?H10; done.
Qed.

Lemma ok_held_ext E E' P l s : (forall m, E m = E' m) -> cluster_ok E P l s -> cluster_ok E' P l s.
Proof.
  intros He [Hnodes Honce Hbound ? ? ? ? ? ? ? ? ? ?]. constructor; try done.
  - eapply counted_ext; [|exact Hnodes]. intros m. unfold booked, holders. by rewrite He.
  - intros m. rewrite <- He. apply Hbound.
Qed.

(** ** Releasing *)

Context (locks_work : forall w : W, queue_env w = qenv_ok).

Lemma evolved_fresh (M M' : gmap Z as_node) D b :
  evolved M M' D -> (forall n node, M !! n = Some node -> n < b) -> forall n node, M' !! n = Some node -> n < b.
Proof. intros Hv Hf n node Hn. destruct (Hv n node Hn) as (nd & _ & _ & Hnd & _). by eapply Hf. Qed.

(** Only references have changed. *)
Lemma ok_rebooked g g' E E' P l s s' D :
  ok_with g E P l s -> counted (m_nodes s') (booked (holders g' E' P l) (m_table s)) -> same_rest s s' ->
  evolved (m_nodes s) (m_nodes s') D -> NoDup (P ++ l ++ gc_nodes g') ->
  (forall m, 0 <= E' m /\ E' m + 2 + 2 * np * (blen N + K) < 2 ^ 32) ->
  gc_arrays g' = gc_arrays g -> gc_tables g' = gc_tables g -> ok_with g' E' P l s'.
Proof.
  intros [Hnodes Honce Hbound Hmem Harr Htbs Hlive Hcat Hparts Hsize Hal Hidx Hfr] Hc (Htab & Har & Hts & Hnx & Hall & Hcl & _) Hev Hnd HE Ha Ht.
  assert (cluster_tables s' = cluster_tables s) as Hct by (unfold cluster_tables; by rewrite Hts, Hcl).
  constructor; rewrite ?Hct, ?Htab, ?Har, ?Hts, ?Hnx, ?Hall, ?Hcl, ?Ha, ?Ht; try done.
  destruct Hfr as (Hf & Hf'). split; [|done]. by apply (evolved_fresh _ _ _ _ Hev).
Qed.

Lemma booked_held g E P l s n : ok_with g E P l s -> 0 < holders g E P l n -> 0 < booked (holders g E P l) (m_table s) n.
Proof.
  intros Hs Hn. unfold booked. pose proof (msum_le (fun _ => 0) (fun tb => slots n (partitions tb)) (m_table s)
    (fun _ tb _ => proj1 (slots_bound n (partitions tb)))) as Hle. rewrite msum_zero in Hle. lia.
Qed.

Lemma ok_release_node g g' E E' P l s n :
  ok_with g E P l s -> 0 < holders g E P l n ->
  (forall m, holders g' E' P l m = holders g E P l m - if decide (m = n) then 1 else 0) ->
  NoDup (P ++ l ++ gc_nodes g') -> (forall m, 0 <= E' m <= E m) ->
  gc_arrays g' = gc_arrays g -> gc_tables g' = gc_tables g ->
  exists s', as_node_release n s = URet (tt, s') /\ ok_with g' E' P l s' /\ same_rest s s'.
Proof.
  intros Hs Hn Hh Hnd HE Ha Ht.
  destruct (release_counted locks_work s _ n (ok_nodes _ _ _ _ _ Hs) (booked_held _ _ _ _ _ _ Hs Hn)) as (s' & Er & Hc' & Hrest & Hev).
  exists s'. split; [done|]. split; [|done]. eapply ok_rebooked; [done| |done|done|done| |done|done].
  - eapply counted_ext; [|exact Hc']. intros m. unfold plus, booked. rewrite Hh. case_decide; lia.
  - intros m. pose proof (ok_bound _ _ _ _ _ Hs m). specialize (HE m). lia.
Qed.

Lemma gc_nodes_cons g n : gc_nodes (GcNode n :: g) = n :: gc_nodes g.
Proof. done. Qed.

Lemma release_item_ok item g E P l s :
  ok_with (item :: g) E P l s ->
  exists s', release_item item s = URet (tt, s') /\ ok_with g E P l s' /\ cluster s' = cluster s.
Proof.
  intros Hs. pose proof (ok_once _ _ _ _ _ Hs) as Honce. destruct item as [n|a|t]; cbn [release_item].
  - destruct (ok_release_node (GcNode n :: g) g E E P l s n Hs) as (s' & Er & Hok & Hrest).
    + pose proof (holders_bound _ _ _ _ _ n Hs). unfold holders. rewrite gc_nodes_cons, occ_cons, decide_True by done.
      pose proof (occ_nonneg n P). pose proof (occ_nonneg n l). pose proof (occ_nonneg n (gc_nodes g)).
      destruct (ok_bound _ _ _ _ _ Hs n). lia.
    + intros m. unfold holders. rewrite gc_nodes_cons, occ_cons. case_decide; lia.
    + rewrite gc_nodes_cons, app_assoc, <- Permutation_middle in Honce. apply NoDup_cons in Honce as [_ Honce].
      by rewrite <- app_assoc in Honce.
    + intros m. destruct (ok_bound _ _ _ _ _ Hs m). lia.
    + done.
    + done.
    + exists s'. split; [done|]. split; [done|]. by destruct Hrest as (_ & _ & _ & _ & _ & ? & _).
  - pose proof (ok_arrays _ _ _ _ _ Hs) as Harr. change (gc_arrays (GcNodes a :: g)) with (a :: gc_arrays g) in Harr.
    destruct (exactly_in _ _ _ a Harr) as (arr & Ha & Hr); [by right; left|].
    unfold as_nodes_release, array_at. rewrite (bind_access _ _ _ _ Ha), Hr. cbn [Z.eqb u32 Z.modulo].
    eexists. split; [reflexivity|]. split; [|done].
    destruct Hs as [Hnodes _ Hbound Hmem _ Htbs Hlive Hcat Hparts Hsize Hal Hidx Hfr].
    apply (exactly_delete _ _ [_] a) in Harr as Harr'. constructor; try done.
    + cbn. rewrite lookup_delete_ne; [done|]. destruct Harr as [Hnd _]. intros ->. apply NoDup_cons in Hnd as [Hnd _].
      apply Hnd. by left.
    + destruct Hfr as (Hf1 & Hf2 & Hf3). split; [done|]. split; [|done]. intros b arr' Hb. cbn in Hb.
      apply lookup_delete_Some in Hb as [_ Hb]. by eapply Hf2.
  - pose proof (ok_tables _ _ _ _ _ Hs) as Htbs. change (gc_tables (GcTables t :: g)) with (t :: gc_tables g) in Htbs.
    destruct (exactly_in _ _ _ t Htbs) as (ts & Ht & Hr); [by right; left|].
    unfold as_partition_tables_release, tables_at. rewrite (bind_access _ _ _ _ Ht), Hr. cbn [Z.eqb u32 Z.modulo].
    eexists. split; [reflexivity|]. split; [|done].
    destruct Hs as [Hnodes _ Hbound Hmem Harr _ Hlive Hcat Hparts Hsize Hal Hidx Hfr].
    apply (exactly_delete _ _ [_] t) in Htbs as Htbs'.
    assert (cluster_tables (set_tables (delete t) s) = cluster_tables s) as Hct.
    { unfold cluster_tables. cbn. rewrite lookup_delete_ne; [done|]. destruct Htbs as [Hnd _]. intros ->.
      apply NoDup_cons in Hnd as [Hnd _]. apply Hnd. by left. }
    constructor; rewrite ?Hct; try done.
    destruct Hfr as (Hf1 & Hf2 & Hf3 & Hf4). do 3 (split; [done|]). intros b ts' Hb. cbn in Hb.
    apply lookup_delete_Some in Hb as [_ Hb]. by eapply Hf4.
Qed.

Lemma gc_loop_ok g : forall E P l s,
  ok_with g E P l s -> exists s', gc_loop g s = URet (tt, s') /\ ok_with [] E P l s' /\ cluster s' = cluster s.
Proof.
  induction g as [|item g IH]; intros E P l s Hs; cbn [gc_loop]; [by exists s|].
  destruct (release_item_ok item g E P l s Hs) as (s1 & E1 & Hs1 & Hc1). rewrite (bind_ret_eq _ _ _ _ _ E1).
  destruct (IH E P l s1 Hs1) as (s2 & E2 & Hs2 & Hc2). exists s2. by rewrite Hc2.
Qed.

Lemma gc_ok E P l s :
  cluster_ok E P l s -> exists s', as_cluster_gc s = URet (tt, s') /\ cluster_ok E P l s' /\ gc (cluster s') = []
    /\ cluster s' = with_gc [] (cluster s).
Proof.
  intros Hs. unfold as_cluster_gc. rewrite bind_cluster_of.
  destruct (gc_loop_ok _ _ _ _ _ Hs) as (s1 & E1 & Hs1 & Hc1). rewrite (bind_ret_eq _ _ _ _ _ E1).
  eexists. split; [reflexivity|]. unfold cluster_ok. cbn. rewrite Hc1. split; [|done].
  by apply (ok_same_objects _ _ _ _ s1).
Qed.

(** ** Copying the array *)

Lemma malloc_eq s : allocs s = [] -> malloc s = URet (true, s).
Proof. intros Ha. unfold malloc. rewrite Ha. cbn. do 2 f_equal. rewrite <- Ha. by destruct s. Qed.

Lemma nodes_create_eq s c :
  allocs s = [] ->
  as_nodes_create c s
  = URet (next s, set_arrays <[next s := mk_nodes 1 (replicate (Z.to_nat c) None)]> (set_next (next s + 1) s)).
Proof.
  intros Ha. unfold as_nodes_create. rewrite (bind_ret_eq _ _ _ _ _ (malloc_eq s Ha)). cbn [negb].
  unfold fresh_ptr. by rewrite (bind_ret_eq _ _ _ _ _ eq_refl), bind_modify.
Qed.

(** A new array with the members [l'] takes the place of the old one, which becomes
    garbage. *)
Lemma ok_swap_array g g' E P P' l l' s s' :
  ok_with g E P l s -> (forall m, holders g' E P' l' m = holders g E P l m) -> NoDup (P' ++ l' ++ gc_nodes g') ->
  gc_arrays g' ≡ₚ nodes (cluster s) :: gc_arrays g -> gc_tables g' = gc_tables g ->
  m_nodes s' = m_nodes s -> m_table s' = m_table s -> m_tables s' = m_tables s ->
  m_arrays s' = <[next s := mk_nodes 1 (Some <$> l')]> (m_arrays s) -> next s' = next s + 1 -> allocs s' = allocs s ->
  nodes (cluster s') = next s -> partition_tables (cluster s') = partition_tables (cluster s) ->
  n_partitions (cluster s') = n_partitions (cluster s) -> node_index (cluster s') = node_index (cluster s) ->
  ok_with g' E P' l' s'.
Proof.
  intros [Hnodes Honce Hbound Hmem Harr Htbs Hlive Hcat Hparts Hsize Hal Hidx Hfr] Hh Hnd Hga Hgt H1 H2 H3 H4 H5 H6 H7 H8 H9 H10.
  assert (cluster_tables s' = cluster_tables s) as Hct by (unfold cluster_tables; by rewrite H3, H8).
  destruct Hfr as (Hf1 & Hf2 & Hf3 & Hf4).
  assert (m_arrays s !! next s = None) as Hfresh.
  { destruct (m_arrays s !! next s) as [arr|] eqn:Ea; [|done]. specialize (Hf2 _ _ Ea). lia. }
  constructor; rewrite ?Hct, ?H1, ?H2, ?H3, ?H4, ?H5, ?H6, ?H7, ?H8, ?H9, ?H10, ?Hgt; try done.
  - eapply counted_ext; [|exact Hnodes]. intros m. unfold booked. by rewrite Hh.
  - by rewrite lookup_insert_eq.
  - rewrite Hga. apply exactly_insert; done.
  - split_and!.
    + intros n node Hn. specialize (Hf1 n node Hn). lia.
    + intros a arr. destruct (decide (a = next s)) as [->|Hne]; [lia|]. rewrite lookup_insert_ne by done.
      intros Ha. specialize (Hf2 a arr Ha). lia.
    + intros t tb Ht. specialize (Hf3 t tb Ht). lia.
    + intros t ts Ht. specialize (Hf4 t ts Ht). lia.
Qed.

Lemma add_nodes_ok E P0 P l s :
  cluster_ok E (P0 ++ P) l s -> blen l + blen P < 2 ^ 32 ->
  exists s', as_cluster_add_nodes P s = URet (tt, s') /\ cluster_ok E P0 (l ++ P) s'
    /\ m_nodes s' = m_nodes s /\ m_table s' = m_table s /\ cluster_tables s' = cluster_tables s
    /\ cluster s' = with_gc (gc (cluster s) ++ [GcNodes (nodes (cluster s))]) (with_nodes (next s) (cluster s)).
Proof.
  intros Hs Hlen. unfold as_cluster_add_nodes, as_cluster_add_nodes_copy, array_at. rewrite bind_cluster_of.
  pose proof (ok_members _ _ _ _ _ Hs) as Hm. rewrite (bind_access _ _ _ _ Hm). cbn [nodes_array].
  rewrite (bind_ret_eq _ _ _ _ _ (nodes_create_eq s _ (ok_allocs _ _ _ _ _ Hs))).
  rewrite length_fmap, u32_id by (unfold is_u32; lia).
  rewrite (bind_access _ _ _ (mk_nodes 1 (replicate (Z.to_nat (blen l + blen P)) None))) by apply lookup_insert_eq.
  cbn [nodes_array nodes_refs]. rewrite (bind_access _ _ _ (Some <$> (l ++ P))).
  2:{ replace (Z.to_nat (blen l + blen P)) with (length l + length P)%nat by lia. rewrite replicate_add.
      rewrite mwrite_0 by (by rewrite length_fmap, length_replicate). cbn [mbind option_bind].
      rewrite <- (app_nil_r (replicate (length P) None)), <- (length_fmap Some l).
      rewrite mwrite_app by (by rewrite ?length_fmap, ?length_replicate). by rewrite app_nil_r, fmap_app. }
  rewrite bind_modify. eexists. split; [reflexivity|]. split; [|by split_and!].
  apply (ok_swap_array (gc (cluster s)) _ E (P0 ++ P) P0 l _ s); try done; cbn.
  - intros m. unfold holders, gc_nodes. rewrite omap_app, !occ_app. cbn [omap list_omap]. rewrite !occ_nil. lia.
  - unfold gc_nodes. rewrite omap_app. cbn [omap list_omap]. rewrite app_nil_r. pose proof (ok_once _ _ _ _ _ Hs) as Honce.
    by rewrite <- app_assoc, (app_assoc P l), (Permutation_app_comm P l) in Honce.
  - unfold gc_arrays. rewrite omap_app. cbn [omap list_omap]. by rewrite Permutation_app_comm.
  - unfold gc_tables. rewrite omap_app. cbn [omap list_omap]. by rewrite app_nil_r.
  - by rewrite insert_insert_eq.
Qed.

(** *** Removing *)

Lemma find_by_reference_spec rem n : as_cluster_find_node_by_reference rem n = bool_decide (n ∈ rem).
Proof.
  unfold as_cluster_find_node_by_reference. apply eq_bool_prop_intro. rewrite bool_decide_spec.
  rewrite Is_true_true, existsb_exists. setoid_rewrite Z.eqb_eq. setoid_rewrite <- list_elem_of_In. naive_solver.
Qed.

Lemma address_full_eq s n node :
  m_nodes s !! n = Some node -> located node -> exists a, as_node_get_address_full n s = URet (a, s).
Proof.
  intros Hn Hl. unfold as_node_get_address_full. rewrite (bind_node_at _ _ _ _ Hn). unfold access.
  destruct (aget_is_Some _ _ Hl) as [a ->]. by exists a.
Qed.

Definition collect (l : list Z) s : mem W := set_cluster (fun c => with_gc (gc c ++ (GcNode <$> l)) c) s.

Lemma remove_copy_loop_eq rem l : forall done k s,
  (forall n, n ∈ l -> exists node, m_nodes s !! n = Some node /\ located node) ->
  length (filter (fun n => n ∉ rem) l) = k ->
  remove_copy_loop (Some <$> l) rem ((Some <$> done) ++ replicate k None) (blen done) s
  = URet (Some <$> (done ++ filter (fun n => n ∉ rem) l), collect (filter (fun n => n ∈ rem) l) s).
Proof.
  induction l as [|n l IH]; intros ready k s Hl Hk; cbn [remove_copy_loop fmap list_fmap].
  - subst k. cbn [filter list_filter length replicate]. rewrite !app_nil_r. unfold mret, m_ret, collect.
    do 2 f_equal. destruct s as [? ? ? ? ? ? c ? ? ? ?], c. unfold set_cluster, with_gc. cbn. by rewrite app_nil_r.
  - rewrite (bind_access _ _ _ n) by done. rewrite find_by_reference_spec.
    destruct (Hl n) as (node & Hn & Hloc); [by left|]. destruct (decide (n ∈ rem)) as [Hin|Hout].
    + rewrite bool_decide_true by done. destruct (address_full_eq s n node Hn Hloc) as [a Ha].
      rewrite (bind_ret_eq _ _ _ _ _ Ha). unfold gc_append. rewrite bind_modify.
      rewrite !(filter_cons_True (fun n => n ∈ rem)) by done. rewrite filter_cons_False in * by (by intros ?).
      etransitivity; [apply IH; [|done]; intros m Hm; apply Hl; by right|].
      unfold collect, set_cluster, with_gc. cbn. by rewrite <- app_assoc.
    + rewrite bool_decide_false by done. rewrite filter_cons_True in * by done.
      rewrite !(filter_cons_False (fun n => n ∈ rem)) by done.
      destruct k as [|k]; [done|]. injection Hk as Hk. cbn [replicate].
      replace (blen ready <? blen ((Some <$> ready) ++ None :: replicate k None)) with true.
      2:{ symmetry. apply Z.ltb_lt. rewrite length_app, length_fmap. cbn [length]. lia. }
      rewrite (bind_access _ _ _ ((Some <$> (ready ++ [n])) ++ replicate k None)).
      2:{ rewrite aset_Some by (rewrite length_app, length_fmap; cbn [length]; lia).
          rewrite Nat2Z.id, insert_app_r_alt, length_fmap, Nat.sub_diag by (by rewrite length_fmap).
          cbn [insert list_insert]. by rewrite fmap_app, <- app_assoc. }
      replace (blen ready + 1) with (blen (ready ++ [n])) by (rewrite length_app; simpl; lia).
      rewrite IH; [by rewrite <- app_assoc| |done]. intros m Hm. apply Hl. by right.
Qed.

Lemma filter_split (rem l : list Z) : filter (fun n => n ∈ rem) l ++ filter (fun n => n ∉ rem) l ≡ₚ l.
Proof.
  induction l as [|n l IH]; [done|]. destruct (decide (n ∈ rem)) as [Hd|Hd].
  - rewrite filter_cons_True, filter_cons_False by naive_solver. cbn [app]. by rewrite IH.
  - rewrite filter_cons_False, filter_cons_True by naive_solver. by rewrite <- Permutation_middle, IH.
Qed.

Lemma filter_length (rem l : list Z) :
  NoDup l -> NoDup rem -> (forall n, n ∈ rem -> n ∈ l) ->
  blen (filter (fun n => n ∉ rem) l) = blen l - blen rem /\ blen rem <= blen l.
Proof.
  intros Hl Hr Hin. assert (filter (fun n => n ∈ rem) l ≡ₚ rem) as Hp.
  { apply NoDup_Permutation; [by apply NoDup_filter|done|]. intros n. rewrite list_elem_of_filter. naive_solver. }
  pose proof (filter_split rem l) as Hall.
  apply Permutation_length in Hp, Hall. rewrite length_app in Hall. lia.
Qed.

Lemma deactivate_all_ok g E P l rem : forall s,
  ok_with g E P l s -> (forall n, n ∈ rem -> n ∈ l) ->
  exists s', deactivate_all rem s = URet (tt, s') /\ ok_with g E P l s' /\ same_rest s s'
    /\ forall n, m_nodes s' !! n = (fun node => if decide (n ∈ rem) then set_active false node else node) <$> m_nodes s !! n.
Proof.
  induction rem as [|n rem IH]; intros s Hs Hin; cbn [deactivate_all].
  { exists s. split_and!; try done. intros n. destruct (m_nodes s !! n); [|done]. cbn [fmap option_fmap option_map].
    by rewrite decide_False by apply not_elem_of_nil. }
  destruct (ok_member _ _ _ _ _ n Hs (Hin n ltac:(by left))) as (node & Hn & Hok).
  unfold as_node_deactivate. rewrite (bind_on_node _ _ _ _ _ Hn).
  destruct (IH (set_nodes_map <[n := set_active false node]> s)) as (s' & Er & Hs' & Hrest & Hact).
  - by eapply ok_on_node.
  - intros m Hm. apply Hin. by right.
  - exists s'. split_and!; try done; try apply Hrest. intros m. rewrite Hact. cbn. destruct (decide (m = n)) as [->|Hne].
    + rewrite lookup_insert_eq, Hn. cbn. rewrite (decide_True (P := n ∈ n :: rem)) by (by left). by case_decide.
    + rewrite lookup_insert_ne by done. destruct (m_nodes s !! m) as [nd|]; [|done]. cbn. f_equal.
      destruct (decide (m ∈ rem)) as [Hm|Hm]; [by rewrite decide_True by (by right)|].
      by rewrite decide_False by (by intros [?|?]%elem_of_cons).
Qed.

Lemma gc_nodes_collect g rem : gc_nodes (g ++ (GcNode <$> rem)) = gc_nodes g ++ rem.
Proof.
  unfold gc_nodes. rewrite omap_app. f_equal. induction rem as [|n rem IH]; [done|]. cbn [fmap list_fmap omap list_omap]. by rewrite IH.
Qed.

Lemma gc_arrays_collect g rem : gc_arrays (g ++ (GcNode <$> rem)) = gc_arrays g.
Proof.
  unfold gc_arrays. rewrite omap_app. replace (omap _ (GcNode <$> rem)) with (@nil Z); [apply app_nil_r|].
  induction rem as [|n rem IH]; [done|]. exact IH.
Qed.

Lemma gc_tables_collect g rem : gc_tables (g ++ (GcNode <$> rem)) = gc_tables g.
Proof.
  unfold gc_tables. rewrite omap_app. replace (omap _ (GcNode <$> rem)) with (@nil Z); [apply app_nil_r|].
  induction rem as [|n rem IH]; [done|]. exact IH.
Qed.

Lemma remove_nodes_ok E P l rem s :
  cluster_ok E P l s -> NoDup rem -> (forall n, n ∈ rem -> n ∈ l) -> blen l < 2 ^ 32 ->
  exists s', as_cluster_remove_nodes rem s = URet (tt, s') /\ cluster_ok E P (filter (fun n => n ∉ rem) l) s'
    /\ m_table s' = m_table s /\ cluster_tables s' = cluster_tables s
    /\ (forall n, m_nodes s' !! n = (fun node => if decide (n ∈ rem) then set_active false node else node) <$> m_nodes s !! n)
    /\ exists g, cluster s' = with_gc g (with_nodes (next s) (cluster s)).
Proof.
  intros Hs Hnd Hin Hlen. unfold as_cluster_remove_nodes.
  destruct (deactivate_all_ok _ _ _ _ rem s Hs Hin) as (s1 & E1 & Hs1 & (Ht1 & Ha1 & Hts1 & Hx1 & Hal1 & Hc1 & _) & Hact).
  rewrite (bind_ret_eq _ _ _ _ _ E1). unfold as_cluster_remove_nodes_copy, array_at. rewrite bind_cluster_of.
  rewrite (bind_access _ _ _ _ (ok_members _ _ _ _ _ Hs1)). cbn [nodes_array].
  rewrite (bind_ret_eq _ _ _ _ _ (nodes_create_eq s1 _ (ok_allocs _ _ _ _ _ Hs1))).
  pose proof (ok_once _ _ _ _ _ Hs1) as Honce. apply NoDup_app in Honce as (_ & _ & Honce). apply NoDup_app in Honce as (Hl & _).
  destruct (filter_length rem l Hl Hnd Hin) as [Hfl Hle].
  rewrite length_fmap, u32_id by (unfold is_u32; lia). rewrite <- Hfl, Nat2Z.id.
  set (stay := filter (fun n => n ∉ rem) l) in *. set (go := filter (fun n => n ∈ rem) l).
  rewrite (bind_access _ _ _ (mk_nodes 1 (replicate (length stay) None))) by apply lookup_insert_eq.
  cbn [nodes_array nodes_refs].
  set (s2 := set_arrays _ _).
  assert (forall n, n ∈ l -> exists node, m_nodes s2 !! n = Some node /\ located node) as Hlive.
  { intros n Hn. destruct (ok_member _ _ _ _ _ n Hs1 Hn) as (node & Hnode & Hok). exists node. by destruct Hok. }
  rewrite (bind_ret_eq _ _ _ _ _ (remove_copy_loop_eq rem l [] (length stay) s2 Hlive eq_refl)).
  fold stay go. rewrite bind_modify. eexists. split; [reflexivity|].
  assert (forall m, occ m l = occ m go + occ m stay) as Hocc.
  { intros m. rewrite <- occ_app. unfold occ. f_equal. symmetry.
    apply (proj1 (Permutation_count_occ Z.eq_dec _ _) (filter_split rem l)). }
  set (g' := (gc (cluster s1) ++ (GcNode <$> go)) ++ [GcNodes (nodes (cluster s1))]).
  assert (gc_nodes g' = gc_nodes (gc (cluster s)) ++ go) as Hgn.
  { unfold g'. rewrite Hc1. unfold gc_nodes at 1. rewrite omap_app, app_nil_r. apply gc_nodes_collect. }
  split; [|split_and!; try done].
  2:{ unfold cluster_tables. cbn. by rewrite Hts1, Hc1. }
  2:{ exists g'. cbn. unfold g'. by rewrite Hc1, Hx1. }
  unfold cluster_ok in *. rewrite <- Hc1 in Hs. apply (ok_swap_array (gc (cluster s1)) g' E P P l stay s1); try done; cbn.
  - rewrite Hc1. exact Hs1.
  - intros m. unfold holders. rewrite Hgn, occ_app, Hocc, Hc1. lia.
  - rewrite Hgn. pose proof (ok_once _ _ _ _ _ Hs1) as Hnd1. rewrite <- (filter_split rem l) in Hnd1. fold stay go in Hnd1.
    by rewrite (Permutation_app_comm go stay), <- (app_assoc stay), (Permutation_app_comm go) in Hnd1.
  - unfold g', gc_arrays. rewrite omap_app. fold (gc_arrays (gc (cluster s1) ++ (GcNode <$> go))). rewrite gc_arrays_collect.
    cbn [omap list_omap]. by rewrite Permutation_app_comm.
  - unfold g', gc_tables. rewrite omap_app. fold (gc_tables (gc (cluster s1) ++ (GcNode <$> go))). rewrite gc_tables_collect.
    by rewrite app_nil_r.
  - by rewrite insert_insert_eq.
Qed.

(** ** New nodes *)

Lemma unused_address g E P l s : ok_with g E P l s ->
  m_nodes s !! next s = None /\ next s ∉ P ++ l ++ gc_nodes g /\ booked (holders g E P l) (m_table s) (next s) = 0.
Proof.
  intros Hs. assert (m_nodes s !! next s = None) as Hf.
  { destruct (ok_fresh _ _ _ _ _ Hs) as (Hf & _). destruct (m_nodes s !! next s) as [nd|] eqn:En; [|done].
    specialize (Hf _ _ En). lia. }
  split; [done|]. pose proof (ok_nodes _ _ _ _ _ Hs (next s)) as Hc. rewrite Hf in Hc. split; [|done].
  apply occ_out. rewrite !occ_app. unfold booked, holders in Hc.
  pose proof (msum_le (fun _ => 0) (fun tb => slots (next s) (partitions tb)) (m_table s)
    (fun _ tb _ => proj1 (slots_bound (next s) (partitions tb)))) as Hle. rewrite msum_zero in Hle.
  pose proof (occ_nonneg (next s) P). pose proof (occ_nonneg (next s) l). pose proof (occ_nonneg (next s) (gc_nodes g)).
  destruct (ok_bound _ _ _ _ _ Hs (next s)). lia.
Qed.

(** The node that [as_node_create] makes. *)
Definition new_node (name : list Z) (sa : sockaddr_in) : as_node :=
  mk_node 1 0xFFFFFFFF name 0 [mk_address sa (inet_ntop (sin_addr sa))] (Some q0) (-1) 0 0 true.

Lemma create_node_eq name sa s :
  allocs s = [] -> blen name < AS_NODE_NAME_SIZE ->
  create_node name sa s = URet (next s, set_nodes_map <[next s := new_node name sa]> (set_next (next s + 1) s)).
Proof.
  intros Ha Hn. unfold create_node, as_node_create.
  rewrite !bind_assoc, (bind_ret_eq _ _ _ _ _ (malloc_eq s Ha)). cbn [negb].
  rewrite (proj2 (Z.leb_gt AS_NODE_NAME_SIZE (blen name))) by lia.
  unfold fresh_ptr. rewrite !bind_assoc, (bind_ret_eq _ _ _ _ _ eq_refl), !bind_assoc.
  rewrite (bind_ret_eq _ _ _ _ _ (malloc_eq (set_next (next s + 1) s) Ha)). cbn beta iota.
  rewrite !bind_assoc, (bind_ret_eq _ _ _ _ _ (malloc_eq (set_next (next s + 1) s) Ha)).
  rewrite !bind_assoc, bind_modify, !bind_assoc. unfold as_node_add_address.
  rewrite (bind_on_node _ _ _ _ _ (lookup_insert_eq _ _ _)), bind_ret, (bind_access _ _ _ (next s)) by done.
  unfold as_node_get_address_full. rewrite bind_assoc, (bind_node_at _ _ _ _ (lookup_insert_eq _ _ _)).
  cbn. unfold set_nodes_map. cbn. by rewrite insert_insert_eq.
Qed.

Lemma create_node_ok E P l name sa s :
  cluster_ok E P l s -> blen name < AS_NODE_NAME_SIZE ->
  cluster_ok E (P ++ [next s]) l (set_nodes_map <[next s := new_node name sa]> (set_next (next s + 1) s)).
Proof.
  intros Hs Hname. destruct (unused_address _ _ _ _ _ Hs) as (Hf & Hnew & Hz).
  destruct Hs as [Hnodes Honce Hbound Hmem Harr Htbs Hlive Hcat Hparts Hsize Hal Hidx Hfr].
  set (g := gc (cluster s)) in *. constructor; try done; cbn -[new_node].
  - set (R := booked (holders g E P l) (m_table s)) in *.
    apply (counted_ext _ (plus R (next s) 1)).
    { intros m. unfold plus, R, booked, holders. fold g. rewrite occ_app, occ_cons, occ_nil. case_decide; lia. }
    apply counted_insert; [done|rewrite Hz; done|lia|]. split; [exists q0, []|split; simpl; lia].
    split; [done|]. split; [apply q0_rep|simpl; lia].
  - fold g. rewrite <- app_assoc. cbn [app]. rewrite <- Permutation_middle. by apply NoDup_cons.
  - destruct Hfr as (Hf1 & Hf2 & Hf3 & Hf4). split_and!.
    + intros n node. destruct (decide (n = next s)) as [->|Hne]; [lia|]. rewrite lookup_insert_ne by done.
      intros Hn. specialize (Hf1 n node Hn). lia.
    + intros a arr Ha. specialize (Hf2 a arr Ha). lia.
    + intros t tb Ht. specialize (Hf3 t tb Ht). lia.
    + intros t ts Ht. specialize (Hf4 t ts Ht). lia.
Qed.

(** ** New partitions *)

Lemma catalog_length T l : all_live T l -> catalog N T l -> blen l <= blen N.
Proof.
  intros Hl Hc. etransitivity; [|by eapply catalog_size]. destruct Hc as (Hnd & _).
  rewrite <- length_map_to_list, <- (length_fmap (fun kv => Some (fst kv))).
  enough (length l <= length ((fun kv => Some (fst kv)) <$> map_to_list T))%nat by lia.
  apply submseteq_length, NoDup_submseteq; [done|]. intros p Hp.
  apply (proj1 (Forall_forall _ _) Hl) in Hp as (t & tb & -> & Ht).
  apply list_elem_of_fmap. exists (t, tb). by rewrite elem_of_map_to_list.
Qed.

Lemma cluster_tables_eq g E P l s :
  ok_with g E P l s -> m_tables s !! partition_tables (cluster s) = Some (mk_tables 1 (cluster_tables s)).
Proof.
  intros Hs. destruct (exactly_in _ _ _ (partition_tables (cluster s)) (ok_tables _ _ _ _ _ Hs)) as ([r l0] & Ht & Hr); [by left|].
  unfold cluster_tables. rewrite Ht. cbn in *. by subst r.
Qed.

Lemma tables_update_keeps E P l n b es pre tail post s :
  cluster_ok E P l s -> n_partitions (cluster s) = np -> n ∈ l -> entries_ok np es -> blen es <= K ->
  Forall (fun e => fst e ∈ N) es.*1 -> Forall (fun c => c <> 0 /\ c <> COLON) tail ->
  exists s' cut, as_partition_tables_update n (pre ++ entries_text es ++ tail ++ 0 :: post) (blen pre) b s
                 = URet ((true, pre ++ cut ++ tail ++ 0 :: post), s') /\ length cut = length (entries_text es)
    /\ cluster_ok E P l s' /\ evolved (m_nodes s) (m_nodes s') (displaced_in n b np (cluster_view s) es.*1)
    /\ (forall ns, cluster_view s' ns = foldl (install n b np) (cluster_view s) es.*1 ns)
    /\ n_partitions (cluster s') = np /\ retabled s s'.
Proof.
  intros Hs Hnp Hn Hes HK HN Htail. set (g := gc (cluster s)).
  assert (0 < holders g E P l n) as Hh.
  { apply occ_in in Hn. unfold holders. pose proof (occ_nonneg n P). pose proof (occ_nonneg n (gc_nodes g)).
    destruct (ok_bound _ _ _ _ _ Hs n). lia. }
  destruct (tables_update_ok locks_work (holders g E P l) np K n b es pre tail post s 1 (cluster_tables s)) as
    (s' & cut & Eu & Hcut & (Hc & Htab & _ & Hal & Hnp' & _ & Htf) & Hview & Hlive & Hev & (Harr & Hnx & Hswap) & Hcat).
  - by apply ok_tables_ok.
  - done.
  - done.
  - done.
  - done.
  - by eapply cluster_tables_eq.
  - apply Hs.
  - pose proof (catalog_length _ _ (ok_live _ _ _ _ _ Hs) (ok_catalog _ _ _ _ _ Hs)).
    destruct (ok_bound _ _ _ _ _ Hs 0). destruct (ok_size _ _ _ _ _ Hs) as (? & ? & _). nia.
  - exists s', cut. split; [done|]. split; [done|]. split; [|by split_and!].
    destruct Hs as [Hnodes Honce Hbound Hmem Harrs Htbs Hlive0 Hcat0 Hparts Hsize Hal0 Hidx Hfr]. fold g in Hnodes, Honce.
    assert (gc_nodes (gc (cluster s')) = gc_nodes g /\ gc_arrays (gc (cluster s')) = gc_arrays g
      /\ nodes (cluster s') = nodes (cluster s) /\ node_index (cluster s') = node_index (cluster s)
      /\ exactly tables_refs (m_tables s') (partition_tables (cluster s') :: gc_tables (gc (cluster s')))) as (Hg1 & Hg2 & Hc1 & Hc2 & Hts).
    { destruct Hswap as [[Hcl Ht]|(t & l1 & Hft & Hcl & Ht)].
      - rewrite Hcl, Ht. by split_and!.
      - rewrite Hcl, Ht. unfold gc_nodes, gc_arrays, gc_tables. cbn. rewrite !omap_app. cbn [omap list_omap]. rewrite !app_nil_r.
        split_and!; try done. rewrite <- Permutation_cons_append. by apply exactly_insert. }
    destruct Hfr as (Hf1 & Hf2 & Hf3 & Hf4). constructor; rewrite ?Hc1, ?Hc2, ?Hg1, ?Hg2, ?Harr; try done.
    + eapply counted_ext; [|exact Hc]. intros m. unfold booked, holders. by rewrite Hg1.
    + by apply Hcat.
    + intros t tb Ht. by apply (Htab t).
    + split; [apply Hsize|]. split; [apply Hsize|]. by left.
    + split_and!.
      * intros m nd Hm. pose proof (evolved_fresh _ _ _ _ Hev Hf1 m nd Hm). lia.
      * intros a arr Ha. specialize (Hf2 a arr Ha). lia.
      * intros t tb Ht. by apply (Htab t tb).
      * done.
Qed.

(** ** Users *)

Lemma table_sum_bound T m :
  0 <= msum (fun tb => slots m (partitions tb)) T <= room_in T
  /\ forall t tb, T !! t = Some tb -> slots m (partitions tb) <= msum (fun tb => slots m (partitions tb)) T.
Proof.
  assert (forall T, 0 <= msum (fun tb => slots m (partitions tb)) T) as Hpos.
  { intros T'. pose proof (msum_le (fun _ => 0) (fun tb => slots m (partitions tb)) T'
      (fun _ tb _ => proj1 (slots_bound m (partitions tb)))) as Hle. by rewrite msum_zero in Hle. }
  split; [split; [done|]|].
  - apply (msum_le (fun tb => slots m (partitions tb)) (fun tb => 2 * blen (partitions tb))). intros k tb _. apply slots_bound.
  - intros t tb Ht. rewrite (msum_delete _ _ _ _ Ht). specialize (Hpos (delete t T)). lia.
Qed.

Lemma ok_lookup_ready E P l s :
  cluster_ok E P l s -> lookup_ready (booked (holders (gc (cluster s)) E P l) (m_table s)) s.
Proof.
  intros Hs. set (R := booked _ _). destruct (ok_size _ _ _ _ _ Hs) as (Hn & HK & Hnp).
  assert (forall n, holders (gc (cluster s)) E P l n <= R n /\ R n + 1 < 2 ^ 32 /\ 0 <= holders (gc (cluster s)) E P l n) as HR.
  { intros n. destruct (table_sum_bound (m_table s) n) as [Hb _]. pose proof (ok_room _ _ _ _ _ n Hs).
    pose proof (holders_bound _ _ _ _ _ n Hs). destruct (ok_bound _ _ _ _ _ Hs n). unfold R, booked. nia. }
  assert (forall n, 0 < R n -> reservable R n) as Hres by (intros n Hr; specialize (HR n); unfold reservable; lia).
  split; [apply Hs|]. split; [|split; [done|split; [|split]]].
  - exists 1, (Some <$> l). split; [apply Hs|]. split; [lia|]. split; [lia|]. split; [|apply Hs].
    apply Forall_fmap, Forall_forall. intros n Hin. exists n. split; [done|]. apply Hres. specialize (HR n).
    apply occ_in in Hin. unfold holders in HR. pose proof (occ_nonneg n P). pose proof (occ_nonneg n (gc_nodes (gc (cluster s)))).
    destruct (ok_bound _ _ _ _ _ Hs n). lia.
  - exists 1, (cluster_tables s). split; [by eapply cluster_tables_eq|]. split; [lia|]. split; [lia|apply Hs].
  - intros t tb Ht. split.
    { destruct Hnp as [->|[_ Hno]]; [by apply (ok_parts _ _ _ _ _ Hs t)|by rewrite Hno, lookup_empty in Ht]. }
    intros n.
    destruct (table_sum_bound (m_table s) n) as [_ Hsl]. specialize (Hsl t tb Ht). specialize (HR n). unfold R, booked. lia.
  - destruct Hnp as [->|[_ Hno]]; [by right|by left].
Qed.

(** The references of the users after a call that returned a node, or none. *)
Definition taken (E : Z -> Z) (o : option Z) : Z -> Z := match o with Some n => plus E n 1 | None => E end.

Lemma reserved_keeps E P l s o s' :
  cluster_ok E P l s -> (forall m, E m + 3 + 2 * np * (blen N + K) < 2 ^ 32) ->
  reserved (booked (holders (gc (cluster s)) E P l) (m_table s)) s o s' ->
  cluster_ok (taken E o) P l s' /\ reindexed (cluster s) (cluster s').
Proof.
  intros Hs HE (Hlk & Hres). destruct Hlk as (Har & Htb & Hts & Hnx & Hal & _ & _ & _ & i & Hcl & Hi).
  assert (gc (cluster s') = gc (cluster s)) as Hg by (by rewrite Hcl). split; [|by exists i].
  unfold cluster_ok in *. rewrite Hg. destruct Hs as [Hnodes Honce Hbound Hmem Harrs Htbs Hlive0 Hcat0 Hparts Hsize Hal0 Hidx Hfr].
  assert (cluster_tables s' = cluster_tables s) as Hct by (unfold cluster_tables; by rewrite Hts, Hcl).
  assert (counted (m_nodes s') (booked (holders (gc (cluster s)) (taken E o) P l) (m_table s))
    /\ forall n nd, m_nodes s' !! n = Some nd -> n < next s) as [Hc' Hf'].
  { destruct o as [n|]; [|rewrite Hres; split; [done|apply Hfr]]. destruct Hres as (_ & Hc & Hev). split.
    - eapply counted_ext; [|exact Hc]. intros m. unfold taken, plus, booked, holders. case_decide; lia.
    - apply (evolved_fresh _ _ _ _ Hev). apply Hfr. }
  constructor; rewrite ?Hct, ?Htb, ?Har, ?Hts, ?Hnx, ?Hal; try done; rewrite ?Hcl; try done.
  - intros m. destruct (Hbound m). specialize (HE m). destruct o as [n|]; [|done]. cbn. unfold plus. case_decide; lia.
  - by apply Hi.
  - split; [done|]. apply Hfr.
Qed.

Lemma node_get_keeps E P l ns d write replica s :
  cluster_ok E P l s -> (forall m, E m + 3 + 2 * np * (blen N + K) < 2 ^ 32) -> 2 <= blen d ->
  exists o s', as_node_get ns d write replica s = URet (o, s') /\ cluster_ok (taken E o) P l s'
    /\ reindexed (cluster s) (cluster s').
Proof.
  intros Hs HE Hd. pose proof (ok_lookup_ready E P l s Hs) as Hr.
  destruct (node_get_ok _ s ns d write replica Hr Hd) as (o & s' & Eg & Hres & _). exists o, s'. split; [done|].
  by apply reserved_keeps.
Qed.

(** A random node is a member. *)
Lemma random_member k (array : list (option Z)) s n s' : random_loop k array s = URet (Some n, s') -> Some n ∈ array.
Proof.
  revert s. induction k as [|k IH]; intros s; [done|]. cbn [random_loop]. intros (i & s1 & _ & He)%bind_inv.
  apply bind_inv in He as (m & s2 & Ha & He). unfold access in Ha.
  destruct (aget array (i mod blen array)) as [p|] eqn:Eg; [|done]. cbn in Ha. destruct p as [m'|]; [|done]. injection Ha as -> ->.
  apply bind_inv in He as (node & s3 & _ & He). destruct (active node).
  - apply bind_inv in He as (u & s4 & _ & [= <- _]). pose proof (aget_Some _ _ _ Eg). rewrite aget_nonneg in Eg by lia.
    by eapply list_elem_of_lookup_2.
  - by eapply IH.
Qed.

Lemma get_random_keeps E P l s :
  cluster_ok E P l s -> (forall m, E m + 3 + 2 * np * (blen N + K) < 2 ^ 32) ->
  exists o s', as_node_get_random s = URet (o, s') /\ cluster_ok (taken E o) P l s' /\ reindexed (cluster s) (cluster s')
    /\ forall n, o = Some n -> n ∈ l.
Proof.
  intros Hs HE. destruct (ok_lookup_ready E P l s Hs) as (Hc & Hr & _).
  destruct (get_random_ok _ s Hc Hr) as (o & s' & Eg & Hres & _). exists o, s'. split; [done|].
  destruct (reserved_keeps E P l s o s' Hs HE Hres) as [Hs' Hx]. split_and!; [done..|]. intros n ->.
  unfold as_node_get_random, as_nodes_reserve, array_at in Eg. pose proof (ok_members _ _ _ _ _ Hs) as Hm.
  rewrite bind_assoc, bind_cluster_of, bind_assoc, (bind_access _ _ _ _ Hm), bind_assoc, bind_modify, bind_ret in Eg.
  rewrite (bind_access _ _ _ (mk_nodes (u32 (1 + 1)) (Some <$> l))) in Eg by apply lookup_insert_eq.
  apply bind_inv in Eg as (r & s1 & Er & Eg). apply bind_inv in Eg as (u & s2 & _ & [= -> _]).
  apply random_member, list_elem_of_fmap in Er as (m & [= ->] & Hm'). done.
Qed.

Lemma node_release_keeps E P l n s :
  cluster_ok E P l s -> 0 < E n ->
  exists s', as_node_release n s = URet (tt, s') /\ cluster_ok (plus E n (-1)) P l s' /\ cluster s' = cluster s.
Proof.
  intros Hs HE. destruct (ok_release_node (gc (cluster s)) (gc (cluster s)) E (plus E n (-1)) P l s n Hs) as (s' & Er & Hs' & Hrest).
  - pose proof (holders_bound _ _ _ _ _ n Hs). lia.
  - intros m. unfold holders, plus. case_decide; lia.
  - apply Hs.
  - intros m. destruct (ok_bound _ _ _ _ _ Hs m). unfold plus. case_decide; subst; lia.
  - done.
  - done.
  - destruct Hrest as (_ & _ & _ & _ & _ & Hcl & _). exists s'. split; [done|]. unfold cluster_ok. by rewrite Hcl.
Qed.

(** ** The end of a cluster *)

Lemma release_slot_counted s R p :
  counted (m_nodes s) R -> (forall m, b2z (is_node m p) <= R m) ->
  exists s', release_slot p s = URet (tt, s') /\ counted (m_nodes s') (fun m => R m - b2z (is_node m p)) /\ same_rest s s'.
Proof.
  intros Hc Hp. destruct p as [n|]; cbn [release_slot].
  - destruct (release_counted locks_work s R n Hc) as (s' & Er & Hc' & Hrest & _).
    { specialize (Hp n). rewrite is_node_same in Hp. simpl in Hp. lia. }
    exists s'. split; [done|]. split; [|done]. eapply counted_ext; [|exact Hc']. intros m. unfold plus. rewrite b2z_decide.
    case_decide; lia.
  - exists s. split; [done|]. split; [|done]. eapply counted_ext; [|exact Hc]. intros m. simpl. lia.
Qed.

Lemma release_partitions_counted ps : forall s R,
  counted (m_nodes s) R -> (forall m, slots m ps <= R m) ->
  exists s', release_partitions ps s = URet (tt, s') /\ counted (m_nodes s') (fun m => R m - slots m ps) /\ same_rest s s'.
Proof.
  induction ps as [|p ps IH]; intros s R Hc Hb; cbn [release_partitions].
  { exists s. split; [done|]. split; [|done]. eapply counted_ext; [|exact Hc]. intros m. unfold slots. simpl. lia. }
  assert (forall m, slots m (p :: ps) = b2z (is_node m (master p)) + b2z (is_node m (prole p)) + slots m ps) as Hsl.
  { intros m. unfold slots. cbn [lsum]. unfold uses. lia. }
  assert (forall m, 0 <= slots m ps /\ 0 <= b2z (is_node m (prole p)) /\ 0 <= b2z (is_node m (master p))) as Hpos.
  { intros m. pose proof (slots_bound m ps). destruct (is_node m (prole p)), (is_node m (master p)); simpl; lia. }
  destruct (release_slot_counted s R (master p) Hc) as (s1 & E1 & Hc1 & Hr1).
  { intros m. specialize (Hb m). specialize (Hpos m). rewrite Hsl in Hb. lia. }
  rewrite (bind_ret_eq _ _ _ _ _ E1). destruct (release_slot_counted s1 _ (prole p) Hc1) as (s2 & E2 & Hc2 & Hr2).
  { intros m. specialize (Hb m). specialize (Hpos m). rewrite Hsl in Hb. cbn beta. lia. }
  rewrite (bind_ret_eq _ _ _ _ _ E2). destruct (IH s2 _ Hc2) as (s3 & E3 & Hc3 & Hr3).
  { intros m. specialize (Hb m). rewrite Hsl in Hb. cbn beta. lia. }
  exists s3. split; [done|]. split; [eapply counted_ext; [|exact Hc3]; intros m; cbn beta; rewrite Hsl; lia|].
  transitivity s1; [done|]. by transitivity s2.
Qed.

Lemma destroy_tables_counted base l : forall s,
  counted (m_nodes s) (booked base (m_table s)) -> (forall m, 0 <= base m) -> NoDup l -> all_live (m_table s) l ->
  exists s', destroy_tables l s = URet (tt, s') /\ counted (m_nodes s') (booked base (m_table s'))
    /\ (forall t, m_table s' !! t = if decide (Some t ∈ l) then None else m_table s !! t) /\ same_most s s'.
Proof.
  induction l as [|p l IH]; intros s Hc Hb Hnd Hl; cbn [destroy_tables].
  { exists s. split; [done|]. split; [done|]. split; [|done]. intros t. by rewrite decide_False by apply not_elem_of_nil. }
  inversion Hl as [|? ? (t & tb & -> & Ht) Hl']; subst. apply NoDup_cons in Hnd as [Hp Hnd].
  rewrite (bind_access _ _ _ t) by done. unfold as_partition_table_destroy, table_at. rewrite bind_assoc, (bind_access _ _ _ _ Ht).
  destruct (release_partitions_counted (partitions tb) s _ Hc) as (s1 & E1 & Hc1 & Ht1 & Hr1).
  { intros m. unfold booked. destruct (table_sum_bound (m_table s) m) as [_ Hsl]. specialize (Hsl t tb Ht). specialize (Hb m). lia. }
  rewrite bind_assoc, (bind_ret_eq _ _ _ _ _ E1), bind_modify. set (s2 := set_table (delete t) s1).
  destruct (IH s2) as (s3 & E3 & Hc3 & Ht3 & Hr3).
  - unfold s2. cbn. eapply counted_ext; [|exact Hc1]. intros m. cbn beta. unfold booked. rewrite Ht1.
    rewrite (msum_delete _ _ _ _ Ht). lia.
  - done.
  - done.
  - unfold s2. cbn. rewrite Ht1. apply Forall_forall. intros p Hin. pose proof Hin as Hin'.
    apply (proj1 (Forall_forall _ _) Hl') in Hin as (t' & tb' & -> & Ht'). exists t', tb'. split; [done|].
    rewrite lookup_delete_ne; [done|]. by intros ->.
  - exists s3. split; [done|]. split; [done|]. split; [|by transitivity s2].
    intros t'. rewrite Ht3. unfold s2. cbn. rewrite Ht1. destruct (decide (t' = t)) as [->|Hne].
    + rewrite lookup_delete_eq. rewrite (decide_True (P := Some t ∈ Some t :: l)) by (by left). by case_decide.
    + rewrite lookup_delete_ne by done. destruct (decide (Some t' ∈ l)) as [Hin|Hout]; [by rewrite decide_True by (by right)|].
      rewrite decide_False; [done|]. by intros [[= ?]|?]%elem_of_cons.
Qed.

Lemma release_nodes_counted l : forall s,
  counted (m_nodes s) (fun m => occ m l) ->
  exists s', release_nodes (Some <$> l) s = URet (tt, s') /\ m_nodes s' = ∅ /\ same_rest s s'.
Proof.
  induction l as [|n l IH]; intros s Hc; cbn [release_nodes fmap list_fmap].
  { exists s. split; [done|]. split; [|done]. apply map_empty. intros n. specialize (Hc n). destruct (m_nodes s !! n); [|done].
    rewrite occ_nil in Hc. lia. }
  rewrite (bind_access _ _ _ n) by done.
  destruct (release_counted locks_work s _ n Hc) as (s1 & E1 & Hc1 & Hr1 & _).
  { cbn beta. rewrite occ_cons, decide_True by done. pose proof (occ_nonneg n l). lia. }
  rewrite (bind_ret_eq _ _ _ _ _ E1). destruct (IH s1) as (s2 & E2 & Hn2 & Hr2).
  { eapply counted_ext; [|exact Hc1]. intros m. unfold plus. rewrite occ_cons. case_decide; lia. }
  exists s2. split; [done|]. split; [done|]. by transitivity s1.
Qed.

Lemma release_last {A} (refs : A -> Z) m a : exactly refs m [a] -> delete a m = ∅.
Proof.
  intros He. apply map_empty. intros b. apply (exactly_delete refs m [] a []) in He as [_ Hm]. specialize (Hm b).
  destruct (delete a m !! b); [|done]. destruct Hm as [Hm _]. by apply not_elem_of_nil in Hm.
Qed.

Lemma destroy_ok l s :
  cluster_ok (fun _ => 0) [] l s ->
  exists s', as_cluster_destroy s = URet (tt, s')
    /\ m_nodes s' = ∅ /\ m_arrays s' = ∅ /\ m_table s' = ∅ /\ m_tables s' = ∅.
Proof.
  intros Hs. unfold as_cluster_destroy. rewrite bind_modify. set (s0 := set_cluster _ s).
  assert (cluster_ok (fun _ => 0) [] l s0) as Hs0 by (by apply (ok_same_objects _ _ _ _ s)).
  destruct (gc_ok _ _ _ s0 Hs0) as (s1 & E1 & Hs1 & Hg & _). rewrite (bind_ret_eq _ _ _ _ _ E1), bind_cluster_of.
  unfold cluster_ok in Hs1. rewrite Hg in Hs1. unfold tables_at at 1. rewrite (bind_access _ _ _ _ (cluster_tables_eq _ _ _ _ _ Hs1)).
  cbn [tables_array]. set (tl := cluster_tables s1) in *.
  assert (forall m, holders [] (fun _ => 0) [] l m = occ m l) as Hh.
  { intros m. unfold holders. rewrite occ_nil. change (gc_nodes []) with (@nil Z). rewrite occ_nil. lia. }
  destruct (destroy_tables_counted (holders [] (fun _ => 0) [] l) tl s1) as (s2 & E2 & Hc2 & Ht2 & (Ha2 & Hts2 & _ & _ & Hcl2 & _)).
  - apply Hs1.
  - intros m. rewrite Hh. apply occ_nonneg.
  - apply Hs1.
  - apply Hs1.
  - rewrite (bind_ret_eq _ _ _ _ _ E2). unfold as_partition_tables_release, tables_at.
    rewrite bind_assoc, (bind_access _ _ _ (mk_tables 1 tl)) by (rewrite Hts2; by eapply cluster_tables_eq).
    change (u32 (tables_refs (mk_tables 1 tl) - 1) =? 0) with true. cbn iota. rewrite bind_modify, bind_cluster_of.
    set (s3 := set_tables _ s2). unfold array_at at 1.
    assert (m_arrays s3 !! nodes (cluster s3) = Some (mk_nodes 1 (Some <$> l))) as Harr.
    { unfold s3. cbn. rewrite Ha2, Hcl2. apply Hs1. }
    rewrite (bind_access _ _ _ _ Harr). cbn [nodes_array].
    assert (m_table s2 = ∅) as Hempty.
    { apply map_empty. intros t. rewrite Ht2. case_decide as Hd; [done|]. destruct (m_table s1 !! t) as [tb|] eqn:Et; [|done].
      destruct (ok_catalog _ _ _ _ _ Hs1) as (_ & Hin & _). by destruct (Hin t tb Et). }
    destruct (release_nodes_counted l s3) as (s4 & E4 & Hn4 & Ht4 & Ha4 & Hts4 & _ & _ & Hcl4 & _).
    { unfold s3. cbn. eapply counted_ext; [|exact Hc2]. intros m. unfold booked. rewrite Hempty, msum_empty, Hh. lia. }
    rewrite (bind_ret_eq _ _ _ _ _ E4). unfold as_nodes_release, array_at.
    rewrite (bind_access _ _ _ (mk_nodes 1 (Some <$> l))) by (rewrite Ha4; exact Harr).
    change (u32 (nodes_refs (mk_nodes 1 (Some <$> l)) - 1) =? 0) with true. cbn iota.
    eexists. split; [reflexivity|]. cbn. rewrite Hn4, Ha4, Ht4, Hts4. unfold s3. cbn. rewrite Ha2, Hcl2, Hts2, Hempty.
    split_and!; [done| |done|]; by eapply release_last, Hs1.
Qed.
(** The end of a cluster.  When no user holds a node any more, [as_cluster_destroy]
    returns and leaves nothing behind: every node, every array of nodes, every partition
    table and every array of tables has been freed, each of them once. *)
Theorem destroy_frees l s :
  cluster_ok (fun _ => 0) [] l s ->
  exists s', as_cluster_destroy s = URet (tt, s')
    /\ m_nodes s' = ∅ /\ m_arrays s' = ∅ /\ m_table s' = ∅ /\ m_tables s' = ∅.
Proof. apply destroy_ok. Qed.
End Invariant.

(** ** Examples *)

(** The cluster of file [Partition]: two nodes and no tables. *)
Lemma sample_cluster_ok : cluster_ok (W := Z) 8 10 [[97]] (fun _ => 0) [] [1; 2] sample_mem.
Proof.
  assert (forall m, holders [] (fun _ => 0) [] [1; 2] m = sample_base m) as Hh.
  { intros m. unfold holders, sample_base. change (gc_nodes []) with (@nil Z). rewrite !occ_cons, !occ_nil.
    repeat case_decide; lia. }
  pose proof sample_tables_ok as (Hc & _). constructor.
  - eapply counted_ext; [|exact Hc]. intros m. unfold booked. by rewrite Hh.
  - apply NoDup_cons. split; [by intros ?%list_elem_of_singleton|apply NoDup_singleton].
  - intros m. simpl. lia.
  - reflexivity.
  - split; [apply NoDup_singleton|]. intros a. destruct (decide (a = 10)) as [->|Ha]; [split; [by left|done]|].
    cbn [m_arrays sample_mem]. rewrite lookup_singleton_ne by done. by intros ?%list_elem_of_singleton.
  - split; [apply NoDup_singleton|]. intros t. destruct (decide (t = 20)) as [->|Ht]; [split; [by left|done]|].
    cbn [m_tables sample_mem]. rewrite lookup_singleton_ne by done. by intros ?%list_elem_of_singleton.
  - constructor.
  - split; [constructor|]. by split.
  - done.
  - split; [lia|]. split; [lia|]. by left.
  - done.
  - simpl. lia.
  - split_and!.
    + intros n node Hn. cbn [m_nodes sample_mem] in Hn. cbn. destruct (decide (n = 1)) as [->|H1]; [lia|].
      rewrite lookup_insert_ne in Hn by done. apply lookup_singleton_Some in Hn as [<- _]. lia.
    + intros a arr Ha. cbn [m_arrays sample_mem] in Ha. apply lookup_singleton_Some in Ha as [<- _]. cbn. lia.
    + done.
    + intros t ts Ht. cbn [m_tables sample_mem] in Ht. apply lookup_singleton_Some in Ht as [<- _]. cbn. lia.
Qed.

Lemma destroy_frees_witness :
  exists s', @as_cluster_destroy Z loopback sample_mem = URet (tt, s')
    /\ m_nodes s' = ∅ /\ m_arrays s' = ∅ /\ m_table s' = ∅ /\ m_tables s' = ∅.
Proof. apply (@destroy_frees Z loopback 8 10 [[97]] (fun _ => eq_refl) [1; 2]). apply sample_cluster_ok. Defined.
