(* ===== verification/Outside.v ===== *)
(** * Requests beside the cluster

    What the calls of the files [Tend] and [Manage] do that only talk to the network: they
    change nothing of a cluster.  A request in text ([as_info_command_host]) is of this kind,
    and is safe for servers that send an answer to every request and say what is wrong when
    they report an error. *)

From S2P Require Import Prelude Counting ByteOrder Base64 Queue Value Msgpack Wire Socket Parse Node Partition Info Membership.
Open Scope Z_scope.

(** A request that did not succeed promises nothing. *)
Ltac failed := apply wlp_ret; split; [done|intros ?; cbn [fst] in *; congruence].

Section Outside.
Context `{Platform} `{Net W}.
Implicit Types (s : mem W).

(** ** The rest of the world *)

(** Only the network and the log of descriptors changed. *)
Definition outside s s' : Prop :=
  exists w o c, s' = mk_mem (m_nodes s) (m_arrays s) (m_table s) (m_tables s) (next s) (allocs s) (cluster s) (randomizer s) w
                       (opened s ++ o) (closed s ++ c).

#[export] Instance outside_preorder : PreOrder outside.
Proof.
  split.
  - intros s. exists (net s), [], []. rewrite !app_nil_r. by destruct s.
  - intros s1 s2 s3 (w2 & o2 & c2 & ->) (w3 & o3 & c3 & ->). exists w3, (o2 ++ o3), (c2 ++ c3). cbn. by rewrite !app_assoc.
Qed.

Lemma outside_net w s : outside s (set_net w s).
Proof. exists w, [], []. by rewrite !app_nil_r. Qed.
Lemma outside_close fd s : outside s (log_closed fd (set_net (os_close (net s) fd) s)).
Proof. exists (os_close (net s) fd), [], [fd]. by rewrite !app_nil_r. Qed.

Lemma outside_objects s s' : outside s s' -> same_objects s s' /\ cluster s' = cluster s /\ allocs s' = allocs s.
Proof. by intros (w & o & c & ->). Qed.

Lemma ok_outside np K N E P l s s' : outside s s' -> cluster_ok np K N E P l s -> cluster_ok np K N E P l s'.
Proof.
  intros Ho Hs. destruct (outside_objects _ _ Ho) as (Hob & Hc & _). unfold cluster_ok. rewrite Hc.
  by eapply ok_same_objects.
Qed.

(** What a computation that only talks to the network is proved with. *)
Lemma wlp_outside_bind {X Y} (m : M W X) (f : X -> M W Y) (Q : X -> Prop) (R : Y -> mem W -> Prop) s :
  wlp m (fun x s1 => outside s s1 /\ Q x) s ->
  (forall x s1, outside s s1 -> Q x -> wlp (f x) R s1) -> wlp (m ≫= f) R s.
Proof. intros Hm Hf. apply wlp_bind. eapply wlp_mono; [exact Hm|]. intros x s1 [Ho Hq]. by apply Hf. Qed.

Lemma wlp_os {X} (f : W -> X * W) (Q : X -> Prop) s :
  (forall w, Q (fst (f w))) -> wlp (os f) (fun x s1 => outside s s1 /\ Q x) s.
Proof.
  intros Hq. unfold wlp, os. specialize (Hq (net s)). destruct (f (net s)) as [x w]. split; [apply outside_net|done].
Qed.

Lemma wlp_send fd req deadline (Q : Z -> Prop) s :
  (forall st w, os_send (net s) fd req deadline = URet (st, w) -> Q st) ->
  wlp (os_u (fun w => os_send w fd req deadline)) (fun st s1 => outside s s1 /\ Q st /\ os_send (net s) fd req deadline = URet (st, net s1)) s.
Proof.
  intros Hq. unfold wlp, os_u. pose proof (os_send_defined (net s) fd req deadline) as Hd.
  destruct (os_send _ _ _ _) as [[st w]| |] eqn:Es; [|done|by intros [Ha _]; apply Ha in Es].
  split; [apply outside_net|]. split; [by eapply Hq|done].
Qed.

Lemma wlp_recv fd n deadline s :
  0 < n ->
  wlp (os_u (fun w => os_recv w fd n deadline))
    (fun r s1 => outside s s1 /\ blen (snd r) = n /\ os_recv (net s) fd n deadline = URet (r, net s1)) s.
Proof.
  intros Hn. unfold wlp, os_u. pose proof (os_recv_exact (net s) fd n deadline Hn) as Hd.
  destruct (os_recv _ _ _ _) as [[[st bs] w]| |] eqn:Es; [|done|by intros [_ Ha]; apply Ha in Es].
  split; [apply outside_net|]. split; [apply Hd|done].
Qed.

Lemma wlp_deadline timeout s : wlp (deadline_of timeout) (fun _ s1 => outside s s1 /\ True) s.
Proof.
  unfold deadline_of. case_if; [|by apply wlp_ret].
  eapply wlp_outside_bind; [by apply (wlp_os os_getms (fun _ => True))|]. intros ms s1 Ho _. by apply wlp_ret.
Qed.

Lemma wlp_close fd s : wlp (as_close fd) (fun _ s1 => outside s s1 /\ True) s.
Proof. split; [apply outside_close|done]. Qed.

(** ** Requests *)

Context (hpux : bool) (stack : list Z).

(** A request for which the server sends an answer, and a message with every error; what it
    sends satisfies [B]. *)
Definition answered (B : list Z -> Prop) (req : list Z) : Prop :=
  forall w fd deadline w0 hdr w1 pr,
    os_send w fd req deadline = URet (AEROSPIKE_OK, w0) -> os_recv w0 fd 8 deadline = URet (AEROSPIKE_OK, hdr, w1) ->
    as_proto_of_bytes host_endian hdr = Some pr ->
    let sz := proto_sz (as_proto_swap_from_be host_endian pr) in
    sz <> 0 /\ forall body w2, os_recv w1 fd sz deadline = URet (AEROSPIKE_OK, body, w2) ->
      B body /\ forall st msg m, as_info_validate (body ++ [0]) = Some (st, msg, m) -> st <> AEROSPIKE_OK -> is_Some msg.

(** The answer, when the request succeeded. *)
Definition replied (B : list Z -> Prop) (r : Z * option (list Z)) : Prop :=
  fst r = 0 -> exists body, snd r = Some (body ++ [0]) /\ 0 < blen body /\ B body.

Lemma proto_of_bytes_ok hdr : blen hdr = 8 -> exists pr, as_proto_of_bytes host_endian hdr = Some pr.
Proof.
  intros Hl. destruct hdr as [|v [|t sz]]; [done|done|]. cbn [as_proto_of_bytes length] in *. rewrite decide_True by lia. by eexists.
Qed.

Lemma proto_sz_range pr : 0 <= proto_sz (as_proto_swap_from_be host_endian pr) < 2 ^ 48.
Proof. cbn [as_proto_swap_from_be proto_sz]. apply Z.mod_pos_bound. lia. Qed.

Lemma info_command_answered B fd names send_asis deadline s :
  answered B (info_request hpux names send_asis) -> allocs s = [] ->
  wlp (as_info_command hpux fd names send_asis deadline 0) (fun r s1 => outside s s1 /\ replied B r) s.
Proof.
  intros servers Hal. unfold as_info_command. apply wlp_bind. eapply wlp_mono; [by apply (wlp_send _ _ _ (fun _ => True))|].
  intros st s1 (Ho1 & _ & Es). destruct (Z.eqb_spec st 0) as [->|Hst]; cbn [negb]; [|failed].
  apply wlp_bind. eapply wlp_mono; [by apply wlp_recv|]. intros [st hdr] s2 (Ho2 & Hh & Er). cbn [snd] in Hh.
  assert (outside s s2) as Ho by (by transitivity s1).
  destruct (Z.eqb_spec st 0) as [->|Hst]; cbn [negb]; [|failed].
  apply wlp_bind. destruct (proto_of_bytes_ok hdr Hh) as [pr Hpr]. unfold wlp at 1, access at 1. rewrite Hpr. cbn [lift ubind].
  destruct (servers _ _ _ _ _ _ _ Es Er Hpr) as [Hnz Hlines].
  pose proof (proto_sz_range pr) as Hsz. set (sz := proto_sz _) in *. rewrite (proj2 (Z.eqb_neq sz 0) Hnz). cbn [Z.ltb andb].
  apply wlp_bind. destruct (outside_objects _ _ Ho) as (_ & _ & Hal2). rewrite Hal in Hal2. unfold wlp at 1. rewrite malloc_eq by done.
  cbn [negb]. apply wlp_bind. eapply wlp_mono; [apply wlp_recv; lia|]. intros [st body] s3 (Ho3 & Hb & Er3). cbn [snd] in Hb.
  assert (outside s s3) as Ho' by (by transitivity s2).
  destruct (Z.eqb_spec st 0) as [->|Hst]; cbn [negb]; [|failed].
  destruct (Hlines body _ Er3) as (HB & Herr). apply wlp_bind. unfold wlp at 1, access at 1.
  destruct (validate_ok body) as (st & msg & m' & Hv & Hm & Hmsg). rewrite Hv. cbn [lift ubind].
  destruct (Z.eqb_spec st 0) as [->|Hst]; cbn [negb].
  2:{ destruct (Herr _ _ _ Hv Hst) as [off ->]. destruct (has_str_cstr m' off (Hmsg off eq_refl)) as [text Htext].
      apply wlp_bind. unfold wlp at 1, access. cbn [mbind option_bind]. rewrite Htext. cbn [lift ubind]. failed. }
  apply wlp_ret. split; [done|]. intros _. rewrite Hm by done. exists body. split_and!; [done|lia|done].
Qed.

Lemma create_nb_ok s :
  wlp as_socket_create_nb (fun r s1 => outside s s1 /\ (fst r = 0 <-> exists fd, snd r = Some fd)) s.
Proof.
  unfold as_socket_create_nb. unfold wlp. rewrite bind_os. destruct (os_socket (net s)) as [sock w1]. case_if.
  { split; [apply outside_net|]. split; [done|]. by intros [fd ?]. }
  rewrite bind_modify, bind_os. destruct (os_getfl _ _) as [flags w2]. case_if.
  { cbn. split; [|split; [done|by intros [fd ?]]]. eexists _, [sock], [sock]. reflexivity. }
  rewrite bind_os. destruct (os_setfl _ _ _) as [rv w3]. case_if.
  { cbn. split; [|split; [done|by intros [fd ?]]]. eexists _, [sock], [sock]. reflexivity. }
  cbn. split; [|by split; [eexists|]]. eexists _, [sock], []. by rewrite app_nil_r.
Qed.

Lemma create_and_connect_ok sa s :
  wlp (as_socket_create_and_connect_nb sa) (fun r s1 => outside s s1 /\ (fst r = 0 -> exists fd, snd r = Some fd)) s.
Proof.
  unfold as_socket_create_and_connect_nb. eapply wlp_outside_bind; [apply create_nb_ok|].
  intros [st fd] s1 Ho Hfd. cbn [fst snd] in Hfd. destruct fd as [fd|]; [|by apply wlp_ret; split; [done|]; intros; apply Hfd].
  apply wlp_bind. unfold wlp at 1, as_socket_start_connect_nb. rewrite bind_os. destruct (os_connect _ _ _) as [[rv e] w2]. cbn.
  assert (outside s (set_net w2 s1)) as Ho2 by (transitivity s1; [done|apply outside_net]).
  case_if; [|by apply wlp_ret; split; [|eexists]].
  apply wlp_bind. unfold wlp at 1, as_close. apply wlp_ret. split; [transitivity (set_net w2 s1); [done|apply outside_close]|]. by eexists.
Qed.

Lemma info_host_answered B sa names send_asis deadline s :
  answered B (info_request hpux (Some names) send_asis) -> allocs s = [] -> auth_ok stack (cluster s) ->
  wlp (as_info_command_host stack hpux sa names send_asis deadline) (fun r s1 => outside s s1 /\ replied B r) s.
Proof.
  intros servers Hal Hau. unfold as_info_command_host. eapply wlp_outside_bind; [apply create_and_connect_ok|].
  intros [st fd] s1 Ho1 Hfd. cbn [fst snd] in Hfd. destruct (Z.eqb_spec st 0) as [->|Hst]; cbn [negb]; [|failed].
  destruct (Hfd eq_refl) as [fd' ->]. apply wlp_bind. unfold wlp at 1, access at 1. cbn [lift ubind].
  destruct (outside_objects _ _ Ho1) as (_ & Hc1 & Ha1). apply wlp_bind. unfold wlp at 1, cluster_of, gets.
  eapply (wlp_outside_bind _ _ (fun _ => True)).
  { rewrite Hc1. destruct Hau as [Hlen Hu]. destruct (user (cluster s)) as [u|]; [|by apply wlp_ret].
    destruct Hu as (pw & Hpw & Hl). apply wlp_bind. unfold wlp at 1, gets. rewrite Hc1, Hpw.
    apply authenticate_ok; [done|done|]. intros st w. split; [apply outside_net|done]. }
  intros st s2 Ho2 _. assert (outside s s2) as Ho by (by transitivity s1).
  destruct (Z.eqb_spec st 0) as [->|Hst]; cbn [negb].
  - eapply wlp_outside_bind; [apply info_command_answered; [done|]; by rewrite (proj2 (proj2 (outside_objects _ _ Ho)))|].
    intros r s3 Ho3 Hr. apply wlp_bind. unfold wlp at 1, modify. apply wlp_bind. unfold wlp at 1, as_close. apply wlp_ret.
    split; [|done]. transitivity s3; [by transitivity s2|]. transitivity (set_net (os_shutdown (net s3) fd') s3); [apply outside_net|apply outside_close].
  - apply wlp_bind. unfold wlp at 1, as_close. apply wlp_ret. split; [transitivity s2; [done|apply outside_close]|].
    intros ?; cbn [fst] in *; congruence.
Qed.
End Outside.
