(* ===== verification/Client.v ===== *)
(** * Commands on the cluster

    Puts the parts together: the loop of [as_command_execute] (file [Execute]) runs on the
    cluster of the files [Node] and [Partition].  The cluster is an instance of the
    interface [Services]; it keeps the promises the loop relies on, with the invariant
    [cluster_ok] of file [Membership] counting the node that the call holds. *)

From S2P Require Import Prelude ByteOrder Base64 Queue Value Msgpack Roundtrip Wire Socket Parse.
From S2P Require Import Execute Node Partition Info Tend Membership.
Open Scope Z_scope.

Section Client.
Context `{Platform} `{Net W} (stack : list Z) (uninit_fd : Z).
Context (locks_work : forall w : W, queue_env w = qenv_ok).
Implicit Types (s : mem W).

(** The calls of the loop are those of the cluster; [fd] is not set before
    [as_node_get_connection]. *)
#[refine] Instance cluster_services : Services (mem W) :=
  {| Execute.as_node_get s cn := Partition.as_node_get (cn_ns cn) (cn_digest cn) (cn_write cn) (cn_replica cn) s;
     Execute.as_node_get_connection s n := Node.as_node_get_connection stack n uninit_fd s;
     Execute.as_node_put_connection s n fd := let* (_, s) := Node.as_node_put_connection n fd s in URet s;
     Execute.as_node_release s n := let* (_, s) := Node.as_node_release n s in URet s;
     Execute.as_close s fd := let* (_, s) := Node.as_close fd s in URet s;
     cf_getms s := let '(ms, w) := os_getms (net s) in (ms, set_net w s);
     usleep s _ := s;
     send s fd command deadline := os_u (fun w => os_send w fd command deadline) s;
     recv s fd n deadline := os_u (fun w => os_recv w fd n deadline) s;
     stream s fd := os_stream (net s) fd |}.
Proof.
  intros s fd n deadline Hn. unfold os_u. pose proof (os_recv_exact (net s) fd n deadline Hn) as Hr.
  by destruct (os_recv (net s) fd n deadline) as [[[st bs] w]| |].
Defined.

(** ** Connections of a held node *)

Context (np K : Z) (N : list (list Z)).
Local Abbreviation ok := (cluster_ok np K N).

Lemma checks_left (w : W) l c bad w' fd l' : checks w l c bad w' (Some (fd, l')) -> blen l' <= blen l.
Proof. intros Hk. apply checks_all in Hk. apply Permutation_length in Hk. rewrite !length_app in Hk. cbn [length] in Hk. lia. Qed.

(** Nothing has changed but the network and the pool and the address of a node. *)
Definition touched (n : Z) s s1 : Prop :=
  exists node node' w o c, m_nodes s !! n = Some node /\ ref_count node' = ref_count node /\ node_ok node'
    /\ s1 = mk_mem (<[n := node']> (m_nodes s)) (m_arrays s) (m_table s) (m_tables s) (next s) (allocs s) (cluster s)
              (randomizer s) w o c.

Lemma touched_trans n s1 s2 s3 : touched n s1 s2 -> touched n s2 s3 -> touched n s1 s3.
Proof.
  intros (a & a' & w & o & c & Ha & Hr & _ & ->) (b & b' & w' & o' & c' & Hb & Hr' & Hok & ->). cbn in Hb.
  rewrite lookup_insert_eq in Hb. injection Hb as <-. exists a, b', w', o', c'. split_and!; [done|congruence|done|].
  cbn. by rewrite insert_insert_eq.
Qed.

Lemma touched_net n s node w o c :
  m_nodes s !! n = Some node -> node_ok node ->
  touched n s (mk_mem (m_nodes s) (m_arrays s) (m_table s) (m_tables s) (next s) (allocs s) (cluster s) (randomizer s) w o c).
Proof. intros Hn Hok. exists node, node, w, o, c. split_and!; [done..|]. by rewrite insert_id. Qed.

Lemma touched_checked s n node q l w c :
  m_nodes s !! n = Some node -> located node -> q_rep q l -> blen l <= 300 -> touched n s (checked n node q w c s).
Proof. intros Hn Hloc Hq Hl. exists node, (set_conn_q q node), w, (opened s), (closed s ++ c). split_and!; [done..| |done]. split; [by exists q, l|done]. Qed.

Lemma touched_connecting s n node i w o c :
  m_nodes s !! n = Some node -> node_ok node -> 0 <= i < blen (addresses node) -> touched n s (connecting n node i w o c s).
Proof.
  intros Hn Hok Hi. exists node, (set_addresses i (addresses node) node), w, (opened s ++ o), (closed s ++ c).
  split_and!; [done..| |done]. split; [apply Hok|done].
Qed.

Lemma ok_touched E P l n s s1 : ok E P l s -> touched n s s1 -> ok E P l s1.
Proof.
  intros Hs (node & node' & w & o & c & Hn & Hr & Hok & ->).
  assert (ok E P l (set_nodes_map <[n := node']> s)) as Hs0 by (by eapply ok_on_node).
  unfold cluster_ok in *. eapply ok_same_objects; [|exact Hs0]. done.
Qed.

Lemma held_node E P l s n : ok E P l s -> 0 < E n -> exists node, m_nodes s !! n = Some node /\ node_ok node.
Proof. intros Hs Hn. apply (ok_held np K N _ _ _ _ s n Hs). pose proof (holders_bound np K N _ _ _ _ _ n Hs). lia. Qed.

Lemma get_connection_touches s n node fd0 :
  m_nodes s !! n = Some node -> node_ok node -> auth_ok stack (cluster s) ->
  wlp (Node.as_node_get_connection stack n fd0) (fun _ s1 => touched n s s1) s.
Proof.
  intros Hn ((q0 & l0 & Hq0 & Hr0 & Hl0) & Hloc) Hau.
  assert (pooled s n node l0) as Hp by (split; [done|by exists q0]).
  unfold wlp, Node.as_node_get_connection. rewrite (bind_ret_eq _ _ _ _ _ (pool_fuel_eq s n node l0 Hp)).
  destruct (get_loop_checks stack locks_work s n node l0 fd0 Hp) as (c & bad & w & r & q & fd1 & Hk & Hr).
  destruct r as [[fd l']|]; destruct Hr as [Hq ->].
  - apply checks_left in Hk. eapply touched_checked; [done|done|exact Hq|lia].
  - assert (touched n s (checked n node q w c s)) as Hs1 by (eapply touched_checked; [done|done|exact Hq|simpl; lia]).
    eapply (wlp_mono (as_node_create_connection stack n fd1)); [apply (create_connection_ok stack); [apply lookup_insert_eq|done|done]|].
    intros r s2 (i & w' & o & c' & Hi & -> & _). eapply touched_trans; [exact Hs1|].
    apply touched_connecting; [apply lookup_insert_eq| |done]. split; [|done]. exists q, []. by split_and!.
Qed.

Lemma put_connection_touches s n node fd :
  m_nodes s !! n = Some node -> node_ok node -> exists s1, Node.as_node_put_connection n fd s = URet (tt, s1) /\ touched n s s1.
Proof.
  intros Hn ((q0 & l0 & Hq0 & Hr0 & Hl0) & Hloc).
  assert (pooled s n node l0) as Hp by (split; [done|by exists q0]).
  destruct (put_connection_ok locks_work s n node l0 fd Hp Hl0) as (q & Hq).
  destruct (Z.leb_spec 300 (blen l0)); destruct Hq as [Hq ->]; (eexists; split; [done|]).
  - by eapply touched_checked.
  - eapply touched_checked; [done|done|exact Hq|]. rewrite length_app. simpl. lia.
Qed.

(** ** The promises of the cluster *)

Lemma reindexed_trans c1 c2 c3 : reindexed c1 c2 -> reindexed c2 c3 -> reindexed c1 c3.
Proof. intros (i & -> & Hi) (j & -> & Hj). exists j. split; [done|]. intros Hc. apply Hj, Hi, Hc. Qed.

(** A parser that is safe and changes nothing but the connection. *)
Definition reads {D} (parse : mem W -> Z -> Z -> as_error -> D -> ures (Z * as_error * D * mem W)) : Prop :=
  forall s fd deadline err data, settles net_answers (parse s fd deadline err data) (fun r => exists w, snd r = set_net w s).

(** States in which the connections of [n] can be used, which does not leave them. *)
Record workable (n : Z) (I : mem W -> Prop) : Prop := {
  wk_auth s : I s -> auth_ok stack (cluster s);
  wk_node s : I s -> exists node, m_nodes s !! n = Some node /\ node_ok node;
  wk_touched s s1 : I s -> touched n s s1 -> I s1
}.

Section Workable.
Context (n : Z) (I : mem W -> Prop) (HI : workable n I).

Lemma work_net s w o c : I s ->
  I (mk_mem (m_nodes s) (m_arrays s) (m_table s) (m_tables s) (next s) (allocs s) (cluster s) (randomizer s) w o c).
Proof. intros Hs. destruct (wk_node _ _ HI s Hs) as (node & Hn & Hok). eapply (wk_touched _ _ HI); [exact Hs|by eapply touched_net]. Qed.

Lemma work_connect s :
  I s -> settles net_answers (Execute.as_node_get_connection (Services := cluster_services) s n) (fun r => I (snd r)).
Proof.
  intros Hs. destruct (wk_node _ _ HI s Hs) as (node & Hn & Hok).
  pose proof (get_connection_touches s n node uninit_fd Hn Hok (wk_auth _ _ HI s Hs)) as Hw. unfold wlp in Hw. cbn.
  destruct (Node.as_node_get_connection stack n uninit_fd s) as [[[st fd] s1]| |]; [|done|done]. by eapply (wk_touched _ _ HI).
Qed.

Lemma work_put s fd : I s -> settles net_answers (Execute.as_node_put_connection (Services := cluster_services) s n fd) I.
Proof.
  intros Hs. destruct (wk_node _ _ HI s Hs) as (node & Hn & Hok). destruct (put_connection_touches s n node fd Hn Hok) as (s1 & E1 & Ht).
  cbn. rewrite E1. cbn. by eapply (wk_touched _ _ HI).
Qed.

Lemma work_close s fd : I s -> settles net_answers (Execute.as_close (Services := cluster_services) s fd) I.
Proof. intros Hs. cbn. exact (work_net s _ _ _ Hs). Qed.

Lemma work_send s fd command deadline :
  I s -> settles net_answers (send (Services := cluster_services) s fd command deadline) (fun r => I (snd r)).
Proof.
  intros Hs. cbn. unfold os_u. destruct (os_send (net s) fd command deadline) as [[st w]| |] eqn:Es; cbn.
  - exact (work_net s _ _ _ Hs).
  - by eapply os_send_defined.
  - intros [Ha _]. by apply Ha in Es.
Qed.

Lemma work_parse {D} (parse : mem W -> Z -> Z -> as_error -> D -> ures (Z * as_error * D * mem W)) s fd deadline err data :
  reads parse -> I s -> settles net_answers (parse s fd deadline err data) (fun r => I (snd r)).
Proof. intros Hp Hs. eapply settles_mono; [apply Hp|done|]. intros r (w & ->). exact (work_net s _ _ _ Hs). Qed.
End Workable.

(** The users hold [E]; the call holds nothing, or the node [n] as well.  [c0] is the
    cluster before the call, whose index only has moved. *)
Definition idle (E : Z -> Z) (l : list Z) (c0 : as_cluster) s : Prop :=
  ok E [] l s /\ auth_ok stack (cluster s) /\ reindexed c0 (cluster s).
Definition has_node (E : Z -> Z) (l : list Z) (c0 : as_cluster) s (n : Z) : Prop := 0 <= E n /\ idle (plus E n 1) l c0 s.

Lemma plus_same E n k : plus E n k n = E n + k.
Proof. unfold plus. by rewrite decide_True. Qed.

Lemma idle_net E l c0 s w : idle E l c0 s -> idle E l c0 (set_net w s).
Proof. intros (Hs & Hau & Hx). split; [|done]. unfold cluster_ok in *. eapply ok_same_objects; [|exact Hs]. done. Qed.

Lemma idle_workable E l c0 n : 0 < E n -> workable n (idle E l c0).
Proof.
  intros HE. constructor.
  - intros s (_ & Hau & _). done.
  - intros s (Hs & _). by eapply held_node.
  - intros s s1 (Hs & Hau & Hx) Ht. split; [by eapply ok_touched|]. destruct Ht as (? & ? & ? & ? & ? & _ & _ & _ & ->). done.
Qed.

Lemma held_workable E l c0 n : workable n (fun s => has_node E l c0 s n).
Proof.
  constructor.
  - intros s [HE Hs]. apply Hs.
  - intros s [HE Hs]. eapply (wk_node _ _ (idle_workable (plus E n 1) l c0 n ltac:(rewrite plus_same; lia))), Hs.
  - intros s s1 [HE Hs] Ht. split; [done|]. eapply (wk_touched _ _ (idle_workable (plus E n 1) l c0 n ltac:(rewrite plus_same; lia))); [exact Hs|done].
Qed.

Lemma cluster_promise {D} (parse : mem W -> Z -> Z -> as_error -> D -> ures (Z * as_error * D * mem W)) E l c0 cn :
  reads parse -> (forall m, 0 <= E m /\ E m + 3 + 2 * np * (blen N + K) < 2 ^ 32) -> cn_node cn = None -> 2 <= blen (cn_digest cn) ->
  promise parse net_answers cn (idle E l c0) (has_node E l c0) (fun s n _ => has_node E l c0 s n).
Proof.
  intros Hp HE Hcn Hd. pose proof (held_workable E l c0) as Hwk. constructor.
  - intros s (Hs & Hau & Hx) _.
    destruct (node_get_keeps np K N E [] l (cn_ns cn) (cn_digest cn) (cn_write cn) (cn_replica cn) s Hs) as (o & s' & Eg & Hs' & Hi);
      [apply HE|done|]. cbn. rewrite Eg. cbn.
    assert (auth_ok stack (cluster s')) as Hau' by (destruct Hi as (i & -> & _); exact Hau).
    assert (reindexed c0 (cluster s')) as Hx' by (by eapply reindexed_trans).
    destruct o as [n|]; [split; [apply HE|]|]; by split_and!.
  - intros s n. by rewrite Hcn.
  - intros s n Hs. eapply settles_mono; [by apply (work_connect n _ (Hwk n))|done|]. intros [[st fd] s1] Hs1. by destruct (st =? 0).
  - intros s n fd. apply (work_put n _ (Hwk n)).
  - intros s n fd. apply (work_close n _ (Hwk n)).
  - intros s n [HE0 (Hs & Hau & Hx)] _.
    destruct (node_release_keeps np K N locks_work (plus E n 1) [] l n s Hs ltac:(rewrite plus_same; lia)) as (s1 & E1 & Hs1 & Hc1).
    cbn. rewrite E1. cbn. split; [|by rewrite Hc1].
    eapply ok_held_ext; [|exact Hs1]. intros m. unfold plus. case_decide; lia.
  - intros s Hs. cbn. destruct (os_getms (net s)) as [ms w]. by apply idle_net.
  - done.
  - intros s n fd command deadline. apply (work_send n _ (Hwk n)).
  - intros s n fd deadline err data. by apply (work_parse n _ (Hwk n)).
Qed.

(** ** Calls *)

(** Whatever a server answers, reading a header is safe. *)
Lemma rd_settles s fd n deadline :
  0 < n -> settles net_answers (recv (Services := cluster_services) s fd n deadline)
    (fun r => let '(_, bs, s') := r in blen bs = n /\ exists w, s' = set_net w s).
Proof.
  intros Hn. cbn. unfold os_u. pose proof (os_recv_exact (net s) fd n deadline Hn) as Hr.
  destruct (os_recv (net s) fd n deadline) as [[[st bs] w]| |] eqn:Er; cbn.
  - split; [apply Hr|by exists w].
  - done.
  - intros [_ Ha]. by apply Ha in Er.
Qed.

Lemma proto_msg_total bytes : blen bytes = AS_HEADER_SIZE -> exists r, proto_msg_of_bytes bytes = Some r.
Proof.
  intros Hl. unfold AS_HEADER_SIZE in Hl. do 30 (destruct bytes as [|? bytes]; [done|]). destruct bytes; [|simpl in Hl; lia].
  by eexists.
Qed.

Lemma parse_header_settles s fd deadline err :
  settles net_answers (as_command_parse_header (H0 := fd_reader (H := cluster_services) fd deadline) s err)
    (fun r => exists w, snd r = set_net w s).
Proof.
  unfold as_command_parse_header. cbn [rd fd_reader]. apply settles_bind.
  eapply settles_mono; [by apply rd_settles|done|]. intros [[st bytes] s1] (Hb & w1 & ->).
  destruct (negb (st =? 0)); [by exists w1|].
  destruct (proto_msg_total bytes Hb) as [[pr m] ->]. cbn [lift ubind]. destruct (Z.ltb_spec 0 (u64 (proto_sz (as_proto_swap_from_be host_endian pr) - header_sz m))).
  2:{ destruct (_ && _); by exists w1. }
  destruct (100000 <? _); [by exists w1|]. apply settles_bind.
  eapply settles_mono; [by apply rd_settles|done|]. intros [[st2 bs] s2] (_ & w2 & ->).
  destruct (negb (st2 =? 0)); [by exists w2|]. destruct (_ && _); by exists w2.
Qed.

Lemma header_reads : reads (parse_header_fn (H0 := cluster_services)).
Proof.
  intros s fd deadline err data. apply settles_bind. eapply settles_mono; [apply parse_header_settles|done|].
  by intros [[[status err'] m] c].
Qed.

Lemma execute_keeps {D} (parse : mem W -> Z -> Z -> as_error -> D -> ures (Z * as_error * D * mem W))
    E l s err cn command timeout_ms retry data :
  reads parse -> ok E [] l s -> auth_ok stack (cluster s) -> (forall m, E m + 3 + 2 * np * (blen N + K) < 2 ^ 32) ->
  cn_node cn = None -> 2 <= blen (cn_digest cn) -> 26 <= blen command ->
  settles net_answers (as_command_execute parse s err cn command timeout_ms retry data) (fun r =>
    let s' := x_w (snd r) in
    ok E [] l s' /\ reindexed (cluster s) (cluster s')
    /\ exists n, Z.of_nat n <= retry_count retry + 2 /\ session true (fst r) command n (x_trace (snd r))).
Proof.
  intros Hp Hs Hau HE Hcn Hd Hc.
  assert (idle E l (cluster s) s) as Hi by (split; [done|]; split; [done|apply reindexed_refl]).
  pose proof (cluster_promise parse E l (cluster s) cn Hp
    (fun m => conj (proj1 (ok_bound _ _ _ _ _ _ _ _ Hs m)) (HE m)) Hcn Hd) as P.
  eapply settles_mono; [exact (execute_settles parse _ _ _ _ s err cn command timeout_ms retry data P Hi Hc)|done|].
  intros r ((Hs' & _ & Hx) & n & Hn & Hses). split_and!; [done|done|]. exists n. split; [done|].
  unfold releases in Hses. by rewrite Hcn in Hses.
Qed.

(** C13: A command on the cluster.  The loop of [as_command_execute] looks the node of the
    digest up in the tables, takes a connection of its pool, sends and parses, and tries
    again, all on the cluster itself: this never leaves its memory, it returns when the
    network answers, and afterwards the cluster counts exactly the references its users
    had before.  What happened in between is a session of attempts, each with its node
    released and its connection closed or put back. *)
Theorem command_on_cluster {D} (parse : mem W -> Z -> Z -> as_error -> D -> ures (Z * as_error * D * mem W))
    E l s err cn command timeout_ms retry data :
  reads parse -> ok E [] l s -> auth_ok stack (cluster s) -> (forall m, E m + 3 + 2 * np * (blen N + K) < 2 ^ 32) ->
  cn_node cn = None -> 2 <= blen (cn_digest cn) -> 26 <= blen command ->
  settles net_answers (as_command_execute parse s err cn command timeout_ms retry data) (fun r =>
    let s' := x_w (snd r) in
    ok E [] l s' /\ reindexed (cluster s) (cluster s')
    /\ exists n, Z.of_nat n <= retry_count retry + 2 /\ session true (fst r) command n (x_trace (snd r))).
Proof. apply execute_keeps. Qed.

Lemma put_request_long policy key bins gen ttl : 26 <= blen (put_request policy key bins gen ttl).
Proof. unfold put_request, wire_message. rewrite !length_app, wire_header_length, be_bytes_length. simpl. lia. Qed.

(** C3: Putting a record, through all layers.  Whatever the network does and the servers
    answer, [aerospike_key_put] on a cluster sets the digest of the key and sends exactly
    the message of the record, in a session of at most two or three attempts; it is safe,
    returns when the network answers, and leaves the references of the cluster as they
    were. *)
Theorem put_on_cluster hpux ripemd160 uninit E l s config policy key key' bins gen ttl :
  (hpux = true -> host_endian = BigEndian) -> block_size uninit ->
  let pol := default config policy in
  let request := put_request pol key' bins gen ttl in
  as_key_set_digest ripemd160 key = Some (AEROSPIKE_OK, key') -> key_ready (write_key pol) key' -> 2 <= blen (digest_value key') ->
  Forall bin_ready bins ->
  blen (wire_key (write_key pol) key' ++ wire_bins (map (mk_binop AS_OPERATOR_WRITE) bins)) < 2 ^ 47 ->
  ok E [] l s -> auth_ok stack (cluster s) -> (forall m, E m + 3 + 2 * np * (blen N + K) < 2 ^ 32) ->
  settles net_answers (aerospike_key_put hpux ripemd160 uninit config s policy key bins gen ttl) (fun r =>
    let '(status, err, key1, msg, s', t) := r in
    key1 = key' /\ ok E [] l s' /\ reindexed (cluster s) (cluster s')
    /\ exists n, Z.of_nat n <= retry_count (write_retry pol) + 2 /\ session true status request n t).
Proof.
  intros Hx Hu pol request Hd Hk Hdl Hb Hl Hs Hau HE. unfold aerospike_key_put. rewrite (with_digest_ok _ _ _ _ _ _ Hd). fold pol.
  rewrite (put_command_ok hpux Hx) by done. fold request. cbn [lift ubind]. apply settles_bind.
  eapply settles_mono; [apply (execute_keeps (parse_header_fn (H0 := cluster_services)) E l); try done|done|].
  - apply header_reads.
  - apply put_request_long.
  - intros [status x] (Hs' & Hix & Hses). cbn [snd fst] in *. by split_and!.
Qed.
End Client.

(** ** Examples *)

Lemma sample_auth : auth_ok sample_stack (cluster sample_mem).
Proof. split; [|done]. unfold sample_stack. by rewrite length_replicate. Qed.

Definition sample_write : as_policy_write := Build_as_policy_write 0 RETRY_ONCE KEY_DIGEST GEN_IGNORE EXISTS_IGNORE COMMIT_ALL.

Lemma command_on_cluster_witness :
  settles (@net_answers Z loopback) (@as_command_execute x86_64 (mem Z) (@cluster_services x86_64 Z loopback sample_stack 0) _
      (@parse_header_fn x86_64 (mem Z) (@cluster_services x86_64 Z loopback sample_stack 0)) sample_mem no_error
      (mk_cn None [97] [0; 0] REPLICA_MASTER true) (replicate 30 0) 0 RETRY_ONCE None) (fun r =>
    let s' := x_w (snd r) in
    cluster_ok 8 10 [[97]] (fun _ => 0) [] [1; 2] s' /\ reindexed (cluster sample_mem) (cluster s')
    /\ exists n, Z.of_nat n <= 3 /\ @session x86_64 true (fst r) (replicate 30 0) n (x_trace (snd r))).
Proof.
  apply (@command_on_cluster x86_64 Z loopback sample_stack 0 (fun _ => eq_refl) 8 10 [[97]]).
  - apply header_reads.
  - apply sample_cluster_ok.
  - apply sample_auth.
  - intros m. vm_compute. reflexivity.
  - reflexivity.
  - vm_compute. discriminate.
  - vm_compute. discriminate.
Defined.

Lemma put_on_cluster_witness :
  settles (@net_answers Z loopback) (@aerospike_key_put x86_64 (mem Z) (@cluster_services x86_64 Z loopback sample_stack 0) false
      (fun _ => replicate 20 0) sample_block sample_write sample_mem None sample_key [] 0 0) (fun r =>
    let '(status, err, key1, msg, s', t) := r in
    key1 = sample_key /\ cluster_ok 8 10 [[97]] (fun _ => 0) [] [1; 2] s' /\ reindexed (cluster sample_mem) (cluster s')
    /\ exists n, Z.of_nat n <= 3 /\ @session x86_64 true status (put_request sample_write sample_key [] 0 0) n t).
Proof.
  apply (@put_on_cluster x86_64 Z loopback sample_stack 0 (fun _ => eq_refl) 8 10 [[97]] false (fun _ => replicate 20 0) sample_block
    (fun _ => 0) [1; 2] sample_mem sample_write None sample_key sample_key [] 0 0).
  - discriminate.
  - apply sample_block_size.
  - reflexivity.
  - apply sample_key_ready.
  - vm_compute. discriminate.
  - constructor.
  - vm_compute. reflexivity.
  - apply sample_cluster_ok.
  - apply sample_auth.
  - intros m. vm_compute. reflexivity.
Defined.
