(* ===== verification/Tending.v ===== *)
(** * A turn of the tender

    Composes the files [Node], [Info], [Partition] and [Tend]: what one call of
    [as_cluster_tend] does to a cluster when its servers are polite ([polite]): it stays
    inside its memory, returns when the network does, and the invariant [cluster_ok] of
    file [Membership] holds again. *)

From S2P Require Import Prelude Counting ByteOrder Base64 Queue Value Msgpack Wire Socket Parse Execute Node Partition Info Tend Membership Outside Client.
Open Scope Z_scope.

(** ** Lines of an answer *)

Ltac flatten := repeat (rewrite <- app_assoc || cbn [app]).

Definition info_lines (nvs : list (list Z * list Z)) : list Z := mjoin (pair_text NEWLINE <$> nvs).

(** The single value of an answer is the value of its first line. *)
Lemma single_value name v rest :
  pair_ok (name, v) ->
  as_info_parse_single_response (pair_text NEWLINE (name, v) ++ rest)
  = Some (AEROSPIKE_OK, Some (blen name + 1), name ++ TAB :: v ++ 0 :: rest)
  /\ cstr (name ++ TAB :: v ++ 0 :: rest) (blen name + 1) = Some v.
Proof.
  intros [Hn Hv]. cbn [fst snd] in *. unfold pair_text, as_info_parse_single_response. cbn [fst snd].
  rewrite <- app_assoc. cbn [app]. rewrite <- app_assoc. cbn [app]. set (m := name ++ TAB :: v ++ NEWLINE :: rest).
  assert (until_loop (S (length m)) m 0 TAB = Some (blen name)) as ->.
  { apply (until_exact TAB [] name); [|done|unfold m; rewrite length_app; lia].
    eapply Forall_impl; [exact Hn|]. by intros d (? & ? & _). }
  cbn [mbind option_bind]. assert (mread m (blen name) = Some TAB) as -> by (by apply mread_app). cbn [mbind option_bind].
  change (TAB =? 0) with false. cbn iota.
  assert (m = (name ++ [TAB]) ++ v ++ NEWLINE :: rest) as Hm by (unfold m; by rewrite <- app_assoc).
  assert (blen (name ++ [TAB]) = blen name + 1) as Hl by (rewrite length_app; simpl; lia).
  assert (until_loop (S (length m)) m (blen name + 1) NEWLINE = Some (blen name + 1 + blen v)) as ->.
  { rewrite Hm, <- Hl. apply until_exact; [done|done|rewrite !length_app; simpl; lia]. }
  cbn [mbind option_bind]. rewrite Hm, app_assoc, mread_app by (rewrite !length_app; simpl; lia). cbn [mbind option_bind].
  change (NEWLINE =? 0) with false. cbn iota.
  change (NEWLINE :: rest) with ([NEWLINE] ++ rest). rewrite mwrite_app by (done || (rewrite !length_app; simpl; lia)).
  cbn [mbind option_bind app]. rewrite <- !app_assoc. cbn [app]. split; [done|].
  rewrite <- Hl. change (name ++ TAB :: v ++ 0 :: rest) with (name ++ [TAB] ++ v ++ 0 :: rest). rewrite app_assoc.
  apply cstr_app. eapply Forall_impl; [exact Hv|]. by intros d [? _].
Qed.

Section Tending.
Context `{Platform} `{Net W} (hpux : bool) (stack info_stack : list Z).
Context (locks_work : forall w : W, queue_env w = qenv_ok).
(** The number of partitions, of entries in a line, of addresses of a host, and the
    namespaces there are. *)
Context (np K A : Z) (N : list (list Z)).
Implicit Types (s : mem W).

(** ** Polite servers *)

(** A list of partitions: entries with different ends, the last one perhaps without. *)
Definition replicas_ok (v : list Z) : Prop :=
  exists es, entries_ok np es /\ blen es <= K /\ Forall (fun e => fst e ∈ N) es.*1
    /\ (v = entries_text es \/ v ++ [0] = entries_text es).

Definition tidy (nv : list Z * list Z) : Prop :=
  pair_ok nv /\ Forall (fun c => c <> COLON) (fst nv)
  /\ (fst nv = master_str \/ fst nv = prole_str -> replicas_ok (snd nv)).

(** A server answers a request with a header and lines, never with nothing; it knows how
    many partitions there are, and says what is wrong when it reports an error.  Hosts have
    at most [A] addresses. *)
Record polite : Prop := {
  polite_lines w fd req deadline w0 hdr w1 pr :
    os_send w fd req deadline = URet (AEROSPIKE_OK, w0) -> os_recv w0 fd 8 deadline = URet (AEROSPIKE_OK, hdr, w1) ->
    as_proto_of_bytes host_endian hdr = Some pr ->
    let sz := proto_sz (as_proto_swap_from_be host_endian pr) in
    sz <> 0 /\ forall body w2, os_recv w1 fd sz deadline = URet (AEROSPIKE_OK, body, w2) ->
      exists nvs, body = info_lines nvs /\ Forall tidy nvs
        /\ (req = info_request hpux (Some partitions_str) true -> forall nv, head nvs = Some nv -> u16 (atoi (snd nv)) = np)
        /\ (forall st msg m, as_info_validate (body ++ [0]) = Some (st, msg, m) -> st <> AEROSPIKE_OK -> is_Some msg);
  polite_hosts w host l w' : getaddrinfo w host = (Some l, w') -> blen l <= A;
  polite_some : 0 <= A
}.
Context (servers : polite).

(** ** Requests *)

Lemma info_lines_cons nv nvs : info_lines (nv :: nvs) = pair_text NEWLINE nv ++ info_lines nvs.
Proof. done. Qed.

(** The answer to a request for one name. *)
Definition one_answer (names : list Z) (r : Z * option (list Z)) : Prop :=
  fst r = 0 -> exists nv nvs, snd r = Some (info_lines (nv :: nvs) ++ [0]) /\ tidy nv
    /\ (names = partitions_str -> u16 (atoi (snd nv)) = np).

Lemma info_command_host_ok sa names deadline s :
  allocs s = [] -> auth_ok stack (cluster s) ->
  wlp (as_info_command_host stack hpux sa names true deadline) (fun r s1 => outside s s1 /\ one_answer names r) s.
Proof.
  intros Hal Hau. eapply wlp_mono; [apply (info_host_answered hpux stack (fun body => exists nvs, body = info_lines nvs /\ Forall tidy nvs
    /\ (names = partitions_str -> forall nv, head nvs = Some nv -> u16 (atoi (snd nv)) = np))); [|done|done]|].
  - intros w fd dl w0 hdr w1 pr Es Er Hpr. destruct (polite_lines servers _ _ _ _ _ _ _ _ Es Er Hpr) as [Hnz Hlines]. split; [done|].
    intros body w2 Hb. destruct (Hlines body w2 Hb) as (nvs & Hbody & Htidy & Hnp & Herr). split; [|done]. exists nvs.
    split_and!; [done|done|]. intros ->. by apply Hnp.
  - intros r s1 [Ho Hr]. split; [done|]. intros Hst. destruct (Hr Hst) as (body & Hs & Hpos & nvs & -> & Htidy & Hnp).
    destruct nvs as [|nv nvs]; [change (info_lines []) with (@nil Z) in Hpos; simpl in Hpos; lia|].
    exists nv, nvs. inversion Htidy; subst. split; [done|]. split; [done|]. intros ->. by apply Hnp.
Qed.

Lemma lookup_node_name_ok sa s :
  allocs s = [] -> auth_ok stack (cluster s) ->
  wlp (as_lookup_node_name hpux stack sa)
    (fun r s1 => outside s s1 /\ (fst r = 0 -> exists name, snd r = Some name /\ blen name < AS_NODE_NAME_SIZE)) s.
Proof.
  intros Hal Hau. unfold as_lookup_node_name. apply wlp_bind. unfold wlp at 1, cluster_of, gets.
  eapply wlp_outside_bind; [apply wlp_deadline|]. intros deadline s1 Ho1 _.
  destruct (outside_objects _ _ Ho1) as (_ & Hc1 & Ha1).
  eapply wlp_outside_bind; [apply info_command_host_ok; [by rewrite Ha1|by rewrite Hc1]|].
  intros [st r] s2 Ho2 Hr. assert (outside s s2) as Ho by (by transitivity s1). unfold one_answer in Hr. cbn [fst snd] in Hr.
  destruct (Z.eqb_spec st 0) as [->|Hst]; cbn [negb]; [|failed].
  destruct (Hr eq_refl) as ([name v] & nvs & -> & (Hpair & _) & _). apply wlp_bind. unfold wlp at 1, access at 1. cbn [lift ubind].
  rewrite info_lines_cons, <- app_assoc. destruct (single_value name v (info_lines nvs ++ [0]) Hpair) as [Hsv Hcs].
  apply wlp_bind. unfold wlp at 1, access at 1. rewrite Hsv. cbn [lift ubind]. change (AEROSPIKE_OK =? AEROSPIKE_OK) with true. cbn iota.
  apply wlp_bind. unfold wlp at 1, access at 1. cbn [mbind option_bind]. rewrite Hcs. cbn [lift ubind]. apply wlp_ret.
  split; [done|]. intros _. eexists. split; [done|]. unfold as_strncpy, AS_NODE_NAME_SIZE. rewrite length_take. lia.
Qed.

(** ** Refreshing a node *)

Definition still (c c' : as_cluster) : Prop :=
  user c' = user c /\ password c' = password c /\ seeds c' = seeds c /\ ip_map c' = ip_map c
  /\ conn_timeout_ms c' = conn_timeout_ms c /\ n_partitions c' = n_partitions c.

#[local] Instance still_preorder : PreOrder still.
Proof. split; [by intros c|]. intros c1 c2 c3 (?&?&?&?&?&?) (?&?&?&?&?&?). repeat split; congruence. Qed.

Local Abbreviation ok := (cluster_ok np K N).

(** The members of a cluster, and the nodes that will be, can be changed. *)
Lemma on_node_keeps E P l s n f :
  ok E P l s -> n ∈ P ++ l -> (forall node, node_ok node -> node_ok (f node) /\ ref_count (f node) = ref_count node) ->
  exists s1, on_node n f s = URet (tt, s1) /\ ok E P l s1 /\ cluster s1 = cluster s /\ m_table s1 = m_table s.
Proof.
  intros Hs Hn Hf. destruct (ok_held np K N _ E P l s n Hs) as (node & Hnode & Hok).
  { apply occ_in in Hn. rewrite occ_app in Hn. unfold holders. pose proof (occ_nonneg n (gc_nodes (gc (cluster s)))).
    destruct (ok_bound _ _ _ _ _ _ _ _ Hs n). lia. }
  destruct (Hf node Hok) as [Hok' Hr]. rewrite (on_node_eq _ _ _ _ Hnode). eexists. split; [done|]. split; [|done].
  by eapply ok_on_node.
Qed.

Lemma member_at E P l s n : ok E P l s -> n ∈ l -> exists node, m_nodes s !! n = Some node /\ node_ok node.
Proof. apply ok_member. Qed.

Lemma get_info_connection_ok E P l s n :
  ok E P l s -> n ∈ l -> auth_ok stack (cluster s) ->
  wlp (as_node_get_info_connection stack n) (fun _ s1 => ok E P l s1 /\ cluster s1 = cluster s) s.
Proof.
  intros Hs Hn Hau. destruct (member_at E P l s n Hs Hn) as (node & Hnode & Hok).
  unfold as_node_get_info_connection, wlp. rewrite (bind_node_at _ _ _ _ Hnode). case_if; [|done].
  apply (wlp_bind (as_node_create_connection stack n (info_fd node))).
  eapply wlp_mono; [apply create_connection_ok; [done|done|apply Hok]|].
  intros [st fd] s1 (i & w & o & c & Hi & -> & _).
  assert (ok E P l (connecting n node i w o c s)) as Hs1.
  { assert (ok E P l (set_nodes_map <[n := set_addresses i (addresses node) node]> s)) as Hs0.
    { eapply ok_on_node; [done|done|done|]. split; [apply Hok|done]. }
    unfold cluster_ok in *. eapply ok_same_objects; [|exact Hs0]. done. }
  destruct (on_node_keeps E P l _ n (set_info_fd fd) Hs1) as (s2 & E2 & Hs2 & Hc2 & _).
  - apply elem_of_app. by right.
  - intros nd Hnd. by split.
  - apply wlp_bind. unfold wlp at 1. rewrite E2. apply wlp_ret. by rewrite Hc2.
Qed.

Lemma close_info_connection_ok E P l s n :
  ok E P l s -> n ∈ l ->
  wlp (as_node_close_info_connection n) (fun _ s1 => ok E P l s1 /\ cluster s1 = cluster s) s.
Proof.
  intros Hs Hn. destruct (member_at E P l s n Hs Hn) as (node & Hnode & Hok).
  unfold as_node_close_info_connection, wlp. rewrite (bind_node_at _ _ _ _ Hnode), bind_modify.
  rewrite (bind_ret_eq _ _ _ _ _ eq_refl). set (s1 := log_closed _ _).
  assert (ok E P l s1) as Hs1 by (unfold cluster_ok in *; eapply ok_same_objects; [|exact Hs]; done).
  destruct (on_node_keeps E P l s1 n (set_info_fd (-1)) Hs1) as (s2 & -> & Hs2 & Hc2 & _).
  - apply elem_of_app. by right.
  - intros nd Hnd. by split.
  - by rewrite Hc2.
Qed.

(** An answer in memory: its lines, a NUL, and whatever is behind. *)
Definition answer_in (m : list Z) : Prop :=
  exists nvs post, m = info_lines nvs ++ 0 :: post /\ Forall tidy nvs /\ blen (info_lines nvs) <= 512 * 1024.

Definition info_result (r : option (list Z + list Z) * list Z) : Prop :=
  blen (snd r) = INFO_STACK_BUF_SIZE
  /\ match fst r with Some (inl m) => m = snd r /\ answer_in m | Some (inr m) => answer_in m | None => True end.

Lemma get_info_ok n names timeout stack_buf s node :
  m_nodes s !! n = Some node -> allocs s = [] -> blen stack_buf = INFO_STACK_BUF_SIZE -> 8 + blen names <= INFO_STACK_BUF_SIZE ->
  wlp (as_node_get_info n names timeout stack_buf) (fun r s1 => outside s s1 /\ info_result r) s.
Proof.
  intros Hn Hal Hsb Hnm. unfold as_node_get_info, wlp. rewrite (bind_node_at _ _ _ _ Hn).
  set (proto := as_proto_swap_to_be _ _).
  assert (blen (as_proto_image host_endian proto) = 8) as Hpl.
  { unfold as_proto_image. rewrite length_app, mem_of_length. done. }
  unfold INFO_STACK_BUF_SIZE in Hnm, Hsb.
  destruct (mwrite_fits stack_buf 0 (as_proto_image host_endian proto)) as (b1 & Hb1 & L1); [lia|lia|].
  destruct (mwrite_fits b1 8 names) as (b2 & Hb2 & L2); [lia|lia|].
  rewrite (bind_access _ _ _ b2) by (rewrite Hb1; cbn [mbind option_bind]; exact Hb2).
  set (request := take (Z.to_nat (8 + blen names)) b2).
  rewrite (bind_access _ _ _ request) by (apply mslice_take; lia). clear Hb1 Hb2.
  eapply (wlp_outside_bind (deadline_of timeout)); [apply wlp_deadline|]. intros deadline s1 Ho1 _.
  apply wlp_bind. eapply wlp_mono; [by apply (wlp_send _ _ _ (fun _ => True))|].
  intros st s2 (Ho2 & _ & Es). assert (outside s s2) as Ho by (by transitivity s1).
  assert (forall b sx, outside s sx -> blen b = INFO_STACK_BUF_SIZE ->
    wlp (W := W) (mret (@None (list Z + list Z), b)) (fun r s1 => outside s s1 /\ info_result r) sx) as Hnone.
  { intros b sx Hox Hb. apply wlp_ret. by split. }
  destruct (Z.eqb_spec st 0) as [->|Hst]; cbn [negb]; [|apply Hnone; [done|unfold INFO_STACK_BUF_SIZE; lia]].
  apply wlp_bind. eapply wlp_mono; [by apply wlp_recv|]. intros [st hdr] s3 (Ho3 & Hh & Er). cbn [snd] in Hh.
  assert (outside s s3) as Ho' by (by transitivity s2).
  destruct (mwrite_fits b2 0 hdr) as (b3 & Hb3 & L3); [lia|lia|].
  unfold wlp. rewrite (bind_access _ _ _ b3) by done.
  destruct (Z.eqb_spec st 0) as [->|Hst]; cbn [negb]; [|apply Hnone; [done|unfold INFO_STACK_BUF_SIZE; lia]].
  destruct (proto_of_bytes_ok hdr Hh) as [pr Hpr]. rewrite (bind_access _ _ _ pr) by done.
  destruct (polite_lines servers _ _ _ _ _ _ _ _ Es Er Hpr) as [Hnz Hlines].
  pose proof (proto_sz_range pr) as Hsz. set (sz := proto_sz _) in *. rewrite (proj2 (Z.eqb_neq sz 0) Hnz). cbn [orb].
  destruct (Z.ltb_spec (512 * 1024) sz) as [|Hmax]; [apply Hnone; [done|unfold INFO_STACK_BUF_SIZE; lia]|].
  destruct (Z.leb_spec INFO_STACK_BUF_SIZE sz) as [Hbig|Hsmall].
  - destruct (outside_objects _ _ Ho') as (_ & _ & Ha3). rewrite (bind_ret_eq _ _ _ _ _ (malloc_eq s3 ltac:(congruence))). cbn [negb].
    apply (wlp_bind (os_u _)). eapply wlp_mono; [apply wlp_recv; lia|]. intros [st body] s4 (Ho4 & Hb & Er4). cbn [snd] in Hb.
    assert (outside s s4) as Ho'' by (by transitivity s3).
    destruct (Z.eqb_spec st 0) as [->|Hst]; cbn [negb]; [|apply Hnone; [done|unfold INFO_STACK_BUF_SIZE; lia]].
    destruct (Hlines body _ Er4) as (nvs & -> & Htidy & _). apply wlp_ret. split; [done|]. split; [cbn; unfold INFO_STACK_BUF_SIZE; lia|].
    exists nvs, []. split_and!; [done|done|lia].
  - apply (wlp_bind (os_u _)). eapply wlp_mono; [apply wlp_recv; lia|]. intros [st body] s4 (Ho4 & Hb & Er4). cbn [snd] in Hb.
    assert (outside s s4) as Ho'' by (by transitivity s3).
    assert (mwrite b3 0 body = Some (body ++ drop (length body) b3)) as Hw.
    { rewrite <- (take_drop (length body) b3) at 1. apply mwrite_0. unfold INFO_STACK_BUF_SIZE in *. rewrite length_take. lia. }
    unfold wlp. rewrite (bind_access _ _ _ _ Hw).
    assert (blen (body ++ drop (length body) b3) = INFO_STACK_BUF_SIZE) as Hl.
    { unfold INFO_STACK_BUF_SIZE in *. rewrite length_app, length_drop. lia. }
    destruct (Z.eqb_spec st 0) as [->|Hst]; cbn [negb]; [|by apply Hnone].
    destruct (Hlines body _ Er4) as (nvs & -> & Htidy & _).
    destruct (drop (length (info_lines nvs)) b3) as [|c rest] eqn:Ed.
    { exfalso. apply (f_equal length) in Ed. rewrite length_drop in Ed. unfold INFO_STACK_BUF_SIZE in *. simpl in Ed. lia. }
    rewrite (bind_access _ _ _ (info_lines nvs ++ 0 :: rest)) by (by apply (mwrite_app _ [c])).
    split; [done|]. split; [cbn; rewrite length_app in *; cbn [length] in *; exact Hl|]. split; [done|].
    exists nvs, rest. split_and!; [done|done|lia].
Qed.

(** *** Friends *)

Lemma find_address_eq E P l s address port_be : forall todo,
  ok E P l s -> (forall n, n ∈ todo -> n ∈ l) ->
  exists o, find_address_loop (Some <$> todo) address port_be s = URet (o, s) /\ forall n, o = Some n -> n ∈ l.
Proof.
  intros todo Hs. induction todo as [|n todo IH]; intros Hin; cbn [find_address_loop fmap list_fmap]; [by exists None|].
  rewrite (bind_access _ _ _ n) by done. destruct (member_at E P l s n Hs) as (node & Hn & _); [apply Hin; by left|].
  rewrite (bind_node_at _ _ _ _ Hn). case_if.
  - exists (Some n). split; [done|]. intros m [= <-]. apply Hin. by left.
  - apply IH. intros m Hm. apply Hin. by right.
Qed.

Lemma add_friend_ok E P l s name port fr :
  ok E P l s ->
  exists fr' s1, add_friend name port fr s = URet (fr', s1) /\ ok E P l s1 /\ cluster s1 = cluster s /\ blen fr' <= blen fr + 1.
Proof.
  intros Hs. unfold add_friend. destruct (if 0 <? port then inet_aton name else None) as [address|].
  2:{ exists fr, s. split; [done|]. split; [done|]. split; [done|lia]. }
  unfold find_node_by_address, array_at. rewrite bind_assoc, bind_cluster_of, bind_assoc.
  rewrite (bind_access _ _ _ _ (ok_members _ _ _ _ _ _ _ _ Hs)). cbn [nodes_array].
  destruct (find_address_eq E P l s address (cf_swap_to_be16 host_endian port) l Hs (fun _ H => H)) as (o & Ho & Hin).
  rewrite (bind_ret_eq _ _ _ _ _ Ho). destruct o as [m|].
  - destruct (on_node_keeps E P l s m (fun node => set_friends (u32 (friends node + 1)) node) Hs) as (s1 & E1 & Hs1 & Hc1 & _).
    + apply elem_of_app. right. by apply Hin.
    + intros nd Hnd. by split.
    + rewrite (bind_ret_eq _ _ _ _ _ E1). exists fr, s1. split; [done|]. split; [done|]. split; [done|lia].
  - case_if; [exists fr, s; split; [done|]; split; [done|]; split; [done|lia]|].
    eexists _, s. split; [done|]. split; [done|]. split; [done|]. rewrite length_app. simpl. lia.
Qed.

Lemma friends_tail tail : forall pre post a fr fuel s,
  Forall (fun c => c <> 0 /\ c <> COLON) tail -> (length tail < fuel)%nat ->
  friends_loop fuel (pre ++ tail ++ 0 :: post) (blen pre) a fr s = URet ((pre ++ tail ++ 0 :: post, fr), s).
Proof.
  induction tail as [|c tail IH]; intros pre post a fr fuel s Ht Hf; (destruct fuel as [|fuel]; [simpl in Hf; lia|]); cbn [friends_loop app].
  - by rewrite (bind_access _ _ _ 0) by (by apply mread_app).
  - inversion Ht as [|? ? [Hc0 Hcc] Ht']; subst. rewrite (bind_access _ _ _ c) by (by apply mread_app).
    rewrite (proj2 (Z.eqb_neq c 0) Hc0), (proj2 (Z.eqb_neq c COLON) Hcc).
    specialize (IH (pre ++ [c]) post a fr fuel s Ht' ltac:(cbn [length] in Hf; lia)). rewrite <- app_assoc, length_app in IH. cbn [app] in IH.
    replace (blen pre + 1) with (Z.of_nat (length pre + length [c])) by (simpl; lia). exact IH.
Qed.

Lemma split_semicolon (l : list Z) :
  (exists x r, l = x ++ SEMICOLON :: r /\ Forall (fun c => c <> SEMICOLON) x) \/ Forall (fun c => c <> SEMICOLON) l.
Proof.
  induction l as [|c l IH]; [by right|]. destruct (decide (c = SEMICOLON)) as [->|Hc]; [left; by exists [], l|].
  destruct IH as [(x & r & -> & Hx)|Hl]; [left; exists (c :: x), r; split; [done|by constructor]|right; by constructor].
Qed.

Lemma scan_semicolon a x c rest :
  Forall (fun c => c <> 0) x -> Forall (fun c => c <> SEMICOLON) x -> c = 0 \/ c = SEMICOLON ->
  scan (fun c => c =? SEMICOLON) (a ++ x ++ c :: rest) (blen a) = Some (a ++ x ++ 0 :: rest, blen a + blen x).
Proof.
  intros Hz Hx Hc. apply scan_ok; [|destruct Hc as [|Hc]; [by left|right; by apply Z.eqb_eq]].
  rewrite Forall_forall in *. intros d Hd. split; [by apply Hz|]. apply Z.eqb_neq. by apply Hx.
Qed.

(** Whatever a list of friends says, reading it stays inside the answer when a string
    without a colon follows it. *)
Lemma friends_ok E P l tail post k : forall todo pre a fr fuel s,
  ok E P l s -> (length todo <= k)%nat -> Forall (fun c => c <> 0) todo -> Forall (fun c => c <> 0 /\ c <> COLON) tail ->
  0 <= a <= blen pre -> (length todo + length tail + 1 < fuel)%nat ->
  exists todo' fr' s1,
    friends_loop fuel (pre ++ todo ++ 0 :: tail ++ 0 :: post) (blen pre) a fr s
    = URet ((pre ++ todo' ++ 0 :: tail ++ 0 :: post, fr'), s1)
    /\ length todo' = length todo /\ ok E P l s1 /\ cluster s1 = cluster s /\ blen fr' <= blen fr + blen todo.
Proof.
  induction k as [|k IH]; intros todo pre a fr fuel s Hs Hk Hz Ht Ha Hf; (destruct fuel as [|fuel]; [lia|]); cbn [friends_loop].
  { destruct todo; [|simpl in Hk; lia]. exists [], fr, s. cbn [app]. rewrite (bind_access _ _ _ 0) by (by apply mread_app).
    split_and!; (done || simpl; lia). }
  destruct todo as [|c todo]; cbn [app].
  { exists [], fr, s. rewrite (bind_access _ _ _ 0) by (by apply mread_app). split_and!; (done || simpl; lia). }
  inversion Hz as [|? ? Hc Hz']; subst. cbn [length] in *. rewrite (bind_access _ _ _ c) by (by apply mread_app).
  rewrite (proj2 (Z.eqb_neq c 0) Hc). destruct (Z.eqb_spec c COLON) as [->|Hcolon].
  2:{ destruct (IH todo (pre ++ [c]) a fr fuel s) as (t' & fr' & s1 & E1 & Hl & Hs1 & Hc1 & Hb); try done; try lia.
      - rewrite length_app. lia.
      - rewrite <- app_assoc, length_app in E1. cbn [app] in E1.
        replace (blen pre + 1) with (Z.of_nat (length pre + length [c])) by (simpl; lia).
        exists (c :: t'), fr', s1. rewrite E1, <- app_assoc. split_and!; (done || simpl; lia). }
  set (rest := 0 :: tail ++ 0 :: post).
  assert (mwrite (pre ++ COLON :: todo ++ rest) (blen pre) [0] = Some ((pre ++ [0]) ++ todo ++ rest)) as Hw.
  { rewrite <- app_assoc. by apply (mwrite_app pre [COLON]). }
  rewrite (bind_access _ _ _ _ Hw).
  assert (blen pre + 1 = blen (pre ++ [0])) as Hp1 by (rewrite length_app; simpl; lia). rewrite Hp1.
  destruct (split_semicolon todo) as [(x & r & -> & Hx)|Hx].
  - apply Forall_app in Hz' as [Hzx Hzr]. inversion Hzr as [|? ? _ Hzr']; subst. rewrite <- (app_assoc x). cbn [app].
    rewrite (bind_access _ _ _ ((pre ++ [0]) ++ x ++ 0 :: r ++ rest, blen (pre ++ [0]) + blen x)).
    2:{ by apply scan_semicolon; [| |right]. }
    rewrite (bind_access _ _ _ x) by (by apply cstr_app).
    destruct (has_str_cstr ((pre ++ [0]) ++ x ++ 0 :: r ++ rest) a) as [name Hname].
    { apply has_str_before. rewrite length_app. simpl. lia. }
    rewrite (bind_access _ _ _ name) by done.
    destruct (add_friend_ok E P l s name (u16 (atoi x)) fr Hs) as (fr1 & s1 & E1 & Hs1 & Hc1 & Hb1).
    rewrite (bind_ret_eq _ _ _ _ _ E1). set (pre2 := (pre ++ [0]) ++ x ++ [0]).
    assert ((pre ++ [0]) ++ x ++ 0 :: r ++ rest = pre2 ++ r ++ rest) as -> by (unfold pre2; by rewrite <- !app_assoc).
    assert (blen (pre ++ [0]) + blen x + 1 = blen pre2) as -> by (unfold pre2; rewrite !length_app; simpl; lia).
    rewrite length_app in Hk, Hf. cbn [length] in Hk, Hf.
    destruct (IH r pre2 (blen pre2) fr1 fuel s1) as (t' & fr2 & s2 & E2 & Hl2 & Hs2 & Hc2 & Hb2); try done; try lia.
    exists (0 :: x ++ 0 :: t'), fr2, s2. unfold rest. rewrite E2. unfold pre2. rewrite !length_app. cbn [length].
    split; [by rewrite <- !app_assoc; cbn [app]; rewrite <- app_assoc|].
    split; [rewrite length_app; cbn [length]; lia|]. split; [done|]. split; [congruence|lia].
  - unfold rest.
    rewrite (bind_access _ _ _ ((pre ++ [0]) ++ todo ++ 0 :: tail ++ 0 :: post, blen (pre ++ [0]) + blen todo)).
    2:{ by apply scan_semicolon; [| |left]. }
    rewrite (bind_access _ _ _ todo) by (by apply cstr_app).
    destruct (has_str_cstr ((pre ++ [0]) ++ todo ++ 0 :: tail ++ 0 :: post) a) as [name Hname].
    { apply has_str_before. rewrite length_app. simpl. lia. }
    rewrite (bind_access _ _ _ name) by done.
    destruct (add_friend_ok E P l s name (u16 (atoi todo)) fr Hs) as (fr1 & s1 & E1 & Hs1 & Hc1 & Hb1).
    rewrite (bind_ret_eq _ _ _ _ _ E1). set (pre2 := (pre ++ [0]) ++ todo ++ [0]).
    assert ((pre ++ [0]) ++ todo ++ 0 :: tail ++ 0 :: post = pre2 ++ tail ++ 0 :: post) as -> by (unfold pre2; by rewrite <- !app_assoc).
    assert (blen (pre ++ [0]) + blen todo + 1 = blen pre2) as -> by (unfold pre2; rewrite !length_app; simpl; lia).
    rewrite friends_tail by (done || lia). exists (0 :: todo), fr1, s1. unfold pre2.
    split; [by rewrite <- !app_assoc|]. split; [done|]. split; [done|]. split; [done|lia].
Qed.

(** *** The lines of an answer *)

(** Behind every value there is a string without a colon. *)
Lemma next_string nvs post :
  Forall tidy nvs ->
  exists tail post', mjoin (pair_cut <$> nvs) ++ 0 :: post = tail ++ 0 :: post' /\ Forall (fun c => c <> 0 /\ c <> COLON) tail.
Proof.
  intros Ht. destruct nvs as [|[name v] nvs]; [by exists [], post|]. inversion Ht as [|? ? ([Hn _] & Hc & _) _]; subst.
  cbn [fst] in *. cbn [fmap list_fmap]. rewrite join_cons. unfold pair_cut at 1. cbn [fst snd].
  exists name, ((v ++ [0]) ++ mjoin (pair_cut <$> nvs) ++ 0 :: post).
  split; [by flatten|]. rewrite Forall_forall in *. intros d Hd. split; [by apply Hn|by apply Hc].
Qed.

(** Where the next line begins after [pre] and the line [nv]. *)
Lemma offsets_next off nv nvs : offsets off (nv :: nvs) = mk_nv off (off + blen (fst nv) + 1) :: offsets (off + blen (pair_cut nv)) nvs.
Proof. done. Qed.

Lemma pair_cut_length nv : length (pair_cut nv) = length (pair_text NEWLINE nv).
Proof. unfold pair_cut, pair_text. repeat (rewrite ?length_app; cbn [length]). done. Qed.

Lemma process_response_ok E P l n nvs : forall pre post fr st up s,
  ok E P l s -> n ∈ l -> Forall tidy nvs ->
  exists st' up' buf fr' s1,
    as_node_process_response n (pre ++ mjoin (pair_cut <$> nvs) ++ 0 :: post) (offsets (blen pre) nvs) fr st up s
    = URet ((st', up', buf, fr'), s1)
    /\ blen buf = blen (pre ++ mjoin (pair_cut <$> nvs) ++ 0 :: post) /\ ok E P l s1 /\ cluster s1 = cluster s
    /\ blen fr' <= blen fr + blen (info_lines nvs).
Proof.
  induction nvs as [|nv nvs IH]; intros pre post fr st up s Hs Hn Ht; cbn [fmap list_fmap].
  { eexists _, _, _, _, s. split; [done|]. split; [done|]. split; [done|]. split; [done|lia]. }
  inversion Ht as [|? ? (Hpair & _ & _) Ht']; subst. rewrite offsets_next, join_cons, info_lines_cons, <- app_assoc.
  set (rest := mjoin (pair_cut <$> nvs) ++ 0 :: post). destruct (line_strings pre nv rest Hpair) as [Hname Hvalue].
  cbn [as_node_process_response nv_name nv_value]. rewrite (bind_access _ _ _ (fst nv)) by done.
  assert (forall cut fr1 st up s1, length cut = length (pair_cut nv) -> ok E P l s1 -> cluster s1 = cluster s -> blen fr1 <= blen fr + blen (snd nv) ->
    exists st' up' buf fr' s2,
      as_node_process_response n ((pre ++ cut) ++ rest) (offsets (blen pre + blen (pair_cut nv)) nvs) fr1 st up s1
      = URet ((st', up', buf, fr'), s2)
      /\ blen buf = blen (pre ++ pair_cut nv ++ rest) /\ ok E P l s2 /\ cluster s2 = cluster s
      /\ blen fr' <= blen fr + blen (pair_text NEWLINE nv ++ info_lines nvs)) as Hnext.
  { intros cut fr1 st1 up1 s1 Hcut Hs1 Hc1 Hb1. destruct (IH (pre ++ cut) post fr1 st1 up1 s1 Hs1 Hn Ht') as (st' & up' & buf & fr' & s2 & E2 & Hl2 & Hs2 & Hc2 & Hb2).
    rewrite length_app, Hcut, Nat2Z.inj_add in E2. exists st', up', buf, fr', s2. split; [exact E2|].
    split; [rewrite Hl2; fold rest; rewrite !length_app, Hcut; lia|]. split; [done|]. split; [congruence|].
    rewrite length_app. unfold pair_text. repeat (rewrite ?length_app; cbn [length]). lia. }
  specialize (Hnext (pair_cut nv)) as Hsame. rewrite <- app_assoc in Hsame.
  destruct (decide (fst nv = node_str)).
  { rewrite (bind_access _ _ _ (snd nv)) by done. unfold as_node_verify_name.
    destruct (member_at E P l s n Hs Hn) as (node & Hnode & Hok). destruct (decide (snd nv = [])).
    { rewrite bind_ret. eexists _, _, _, _, s. split; [done|]. split; [done|]. split; [done|]. split; [done|lia]. }
    rewrite bind_assoc, (bind_node_at _ _ _ _ Hnode). destruct (decide (node_name node = snd nv)).
    { rewrite bind_ret. apply Hsame; (done || lia). }
    destruct (on_node_keeps E P l s n (set_active false) Hs) as (s1 & E1 & Hs1 & Hc1 & _).
    - apply elem_of_app. by right.
    - intros nd Hnd. by split.
    - rewrite bind_assoc, (bind_ret_eq _ _ _ _ _ E1), bind_ret. eexists _, _, _, _, s1.
      split; [done|]. split; [done|]. split; [done|]. split; [done|lia]. }
  destruct (decide (fst nv = generation_str)).
  { rewrite (bind_access _ _ _ (snd nv)) by done. destruct (member_at E P l s n Hs Hn) as (node & Hnode & Hok).
    rewrite (bind_node_at _ _ _ _ Hnode). apply Hsame; (done || lia). }
  destruct (decide (fst nv = services_str)); [|apply Hsame; (done || lia)].
  unfold as_node_add_friends. destruct (next_string nvs post Ht') as (tail & post' & Hrest & Htail). fold rest in Hrest.
  destruct nv as [name v]. cbn [fst snd] in *. destruct Hpair as [Hpn Hpv]. cbn [fst snd] in *.
  set (pre1 := pre ++ name ++ [0]).
  assert (pre ++ pair_cut (name, v) ++ rest = pre1 ++ v ++ 0 :: tail ++ 0 :: post') as Hbuf.
  { unfold pair_cut, pre1. cbn [fst snd]. rewrite Hrest. by flatten. }
  assert (blen pre + blen name + 1 = blen pre1) as Hoff by (unfold pre1; rewrite !length_app; simpl; lia).
  destruct (friends_ok E P l tail post' (length v) v pre1 (blen pre1) fr (S (length (pre ++ pair_cut (name, v) ++ rest))) s)
    as (v' & fr1 & s1 & E1 & Hl1 & Hs1 & Hc1 & Hb1); try done; try lia.
  - eapply Forall_impl; [exact Hpv|]. by intros d [? _].
  - rewrite Hbuf, !length_app. cbn [length]. rewrite length_app. lia.
  - rewrite Hoff. rewrite Hbuf in E1 |- *. rewrite (bind_ret_eq _ _ _ _ _ E1).
    replace (pre1 ++ v' ++ 0 :: tail ++ 0 :: post') with ((pre ++ name ++ [0] ++ v' ++ [0]) ++ rest).
    2:{ rewrite Hrest. unfold pre1. by flatten. }
    rewrite <- Hbuf. apply Hnext; [|done|done|done]. unfold pair_cut. cbn [fst snd]. rewrite !length_app. cbn [length].
    rewrite !length_app. cbn [length]. lia.
Qed.

Lemma process_partitions_ok E P l n nvs : forall pre post s,
  ok E P l s -> n ∈ l -> n_partitions (cluster s) = np -> Forall tidy nvs ->
  exists s1, as_node_process_partitions n (pre ++ mjoin (pair_cut <$> nvs) ++ 0 :: post) (offsets (blen pre) nvs) s = URet (tt, s1)
    /\ ok E P l s1 /\ still (cluster s) (cluster s1).
Proof.
  induction nvs as [|nv nvs IH]; intros pre post s Hs Hn Hnp Ht; cbn [fmap list_fmap]; [by exists s|].
  inversion Ht as [|? ? (Hpair & _ & Hrep) Ht']; subst. rewrite offsets_next, join_cons, <- app_assoc.
  set (rest := mjoin (pair_cut <$> nvs) ++ 0 :: post). destruct (line_strings pre nv rest Hpair) as [Hname Hvalue].
  cbn [as_node_process_partitions nv_name nv_value]. rewrite (bind_access _ _ _ (fst nv)) by done.
  assert (forall cut s1, length cut = length (pair_cut nv) -> ok E P l s1 -> still (cluster s) (cluster s1) ->
    exists s2, as_node_process_partitions n ((pre ++ cut) ++ rest) (offsets (blen pre + blen (pair_cut nv)) nvs) s1 = URet (tt, s2)
      /\ ok E P l s2 /\ still (cluster s) (cluster s2)) as Hnext.
  { intros cut s1 Hcut Hs1 Hst. destruct (IH (pre ++ cut) post s1 Hs1 Hn) as (s2 & E2 & Hs2 & Hst2); [|done|].
    - destruct Hst as (_ & _ & _ & _ & _ & ->). done.
    - rewrite length_app, Hcut, Nat2Z.inj_add in E2. exists s2. split; [exact E2|]. split; [done|]. by transitivity (cluster s1). }
  specialize (Hnext (pair_cut nv)) as Hsame. rewrite <- app_assoc in Hsame.
  assert (forall b, (fst nv = master_str \/ fst nv = prole_str) -> exists s2,
    ('(_, buf) ← as_partition_tables_update n (pre ++ pair_cut nv ++ rest) (blen pre + blen (fst nv) + 1) b;
     as_node_process_partitions n buf (offsets (blen pre + blen (pair_cut nv)) nvs)) s = URet (tt, s2)
      /\ ok E P l s2 /\ still (cluster s) (cluster s2)) as Hupdate.
  2:{ destruct (decide (fst nv = generation_str)).
      { rewrite (bind_access _ _ _ (snd nv)) by done.
        destruct (on_node_keeps E P l s n (set_generation (u32 (atoi (snd nv)))) Hs) as (s1 & E1 & Hs1 & Hc1 & _).
        - apply elem_of_app. by right.
        - intros nd Hnd. by split.
        - rewrite (bind_ret_eq _ _ _ _ _ E1). apply Hsame; [done|done|by rewrite Hc1]. }
      destruct (decide (fst nv = master_str)); [apply Hupdate; by left|].
      destruct (decide (fst nv = prole_str)); [apply Hupdate; by right|]. by apply Hsame. }
  intros b Hb. destruct (Hrep Hb) as (es & Hes & HK & HN & Hv). destruct nv as [name v]. cbn [fst snd] in *.
  set (pre1 := pre ++ name ++ [0]).
  assert (blen pre + blen name + 1 = blen pre1) as Hoff by (unfold pre1; rewrite !length_app; simpl; lia). rewrite Hoff.
  assert (pre ++ pair_cut (name, v) ++ rest = pre1 ++ v ++ [0] ++ rest) as Hbuf
    by (unfold pair_cut, pre1; cbn [fst snd]; by flatten).
  assert (forall cut s1, still (cluster s) (cluster s1) -> ok E P l s1 -> length cut = S (length v) ->
    exists s2, as_node_process_partitions n (pre1 ++ cut ++ rest) (offsets (blen pre + blen (pair_cut (name, v))) nvs) s1 = URet (tt, s2)
      /\ ok E P l s2 /\ still (cluster s) (cluster s2)) as Hgo.
  { intros cut s1 Hst Hs1 Hcut. assert (pre1 ++ cut ++ rest = (pre ++ name ++ [0] ++ cut) ++ rest) as -> by (unfold pre1; by flatten).
    apply Hnext; [|done|done]. unfold pair_cut. cbn [fst snd]. rewrite !length_app. cbn [length]. rewrite length_app. cbn [length]. lia. }
  assert (forall s1, retabled s s1 -> still (cluster s) (cluster s1)) as Hstill.
  { intros s1 (_ & _ & [[-> _]|(t & l1 & _ & -> & _)]); [done|]. by repeat split. }
  destruct Hv as [->|Hv].
  - destruct (tables_update_keeps np K N locks_work E P l n b es pre1 [] rest s Hs Hnp Hn Hes HK HN ltac:(constructor))
      as (s1 & cut & E1 & Hcut & Hs1 & _ & _ & _ & Hrt).
    rewrite Hbuf. rewrite (bind_ret_eq _ _ _ _ _ E1).
    assert (pre1 ++ cut ++ [] ++ 0 :: rest = pre1 ++ (cut ++ [0]) ++ rest) as -> by (by flatten).
    apply Hgo; [by apply Hstill|done|rewrite length_app; simpl; lia].
  - destruct (next_string nvs post Ht') as (tail & post' & Hrest & Htail). fold rest in Hrest.
    destruct (tables_update_keeps np K N locks_work E P l n b es pre1 tail post' s Hs Hnp Hn Hes HK HN Htail)
      as (s1 & cut & E1 & Hcut & Hs1 & _ & _ & _ & Hrt).
    rewrite Hbuf, (app_assoc v), Hv, Hrest. rewrite (bind_ret_eq _ _ _ _ _ E1). rewrite <- Hrest.
    apply Hgo; [by apply Hstill|done|]. rewrite Hcut, <- Hv, length_app. simpl. lia.
Qed.

(** *** A whole refresh *)

Lemma cut_answer nvs post :
  Forall tidy nvs ->
  as_info_parse_multi_response (info_lines nvs ++ 0 :: post) = Some (mjoin (pair_cut <$> nvs) ++ 0 :: post, offsets 0 nvs).
Proof.
  intros Ht. unfold as_info_parse_multi_response. apply (multi_pairs nvs [] post).
  - eapply Forall_impl; [exact Ht|]. by intros nv [? _].
  - unfold info_lines. rewrite length_app. lia.
Qed.

Lemma cut_length nvs : length (mjoin (pair_cut <$> nvs)) = length (info_lines nvs).
Proof.
  unfold info_lines. induction nvs as [|nv nvs IH]; [done|]. cbn [fmap list_fmap].
  by rewrite !join_cons, !length_app, IH, pair_cut_length.
Qed.

Lemma refresh_ok E P l n fr s :
  ok E P l s -> n ∈ l -> n_partitions (cluster s) = np -> auth_ok stack (cluster s) -> blen info_stack = INFO_STACK_BUF_SIZE ->
  wlp (as_node_refresh stack info_stack n fr)
    (fun r s1 => ok E P l s1 /\ still (cluster s) (cluster s1) /\ blen (snd r) <= blen fr + 512 * 1024) s.
Proof.
  intros Hs Hn Hnp Hau Hst. unfold as_node_refresh. apply wlp_bind.
  eapply wlp_mono; [by apply (get_info_connection_ok E P l)|]. intros ret s1 [Hs1 Hc1].
  destruct (Z.eqb_spec ret 0) as [->|]; cbn [negb]; [|apply wlp_ret; rewrite Hc1; split_and!; (done || simpl; lia)].
  apply wlp_bind. unfold wlp at 1, cluster_of, gets. rewrite Hc1.
  destruct (member_at E P l s1 n Hs1 Hn) as (node & Hnode & _).
  eapply wlp_outside_bind; [apply (get_info_ok n _ _ _ s1 node Hnode (ok_allocs _ _ _ _ _ _ _ _ Hs1) Hst); by vm_compute|].
  intros [r sb] s2 Ho2 [Hsb Hr]. cbn [fst snd] in *. destruct (outside_objects _ _ Ho2) as (_ & Hc2 & _).
  assert (ok E P l s2) as Hs2 by (by eapply ok_outside). rewrite Hc1 in Hc2.
  assert (forall sx (frx : list as_friend), ok E P l sx -> still (cluster s) (cluster sx) -> blen frx <= blen fr + 512 * 1024 ->
    wlp (_ ← as_node_close_info_connection n; mret (false, frx))
      (fun (r : bool * list as_friend) s1 => ok E P l s1 /\ still (cluster s) (cluster s1) /\ blen (snd r) <= blen fr + 512 * 1024) sx) as Hclose.
  { intros sx frx Hsx Hstx Hfr. apply wlp_bind. eapply wlp_mono; [by apply (close_info_connection_ok E P l)|].
    intros _ s3 [Hs3 Hc3]. apply wlp_ret. by rewrite Hc3. }
  destruct r as [r|]; [|apply Hclose; [done|by rewrite Hc2|lia]].
  assert (answer_in (block_of r)) as (nvs & post & Hm & Htidy & Hmax) by (destruct r; [by destruct Hr|done]).
  unfold wlp. rewrite (bind_access _ _ _ (mjoin (pair_cut <$> nvs) ++ 0 :: post, offsets 0 nvs)) by (rewrite Hm; by apply cut_answer).
  destruct (process_response_ok E P l n nvs [] post fr false false s2 Hs2 Hn Htidy) as (st & up & buf & fr1 & s3 & E3 & Hl3 & Hs3 & Hc3 & Hb3).
  cbn [app length] in E3, Hl3. change (Z.of_nat 0) with 0 in E3. rewrite (bind_ret_eq _ _ _ _ _ E3). rewrite Hc2 in Hc3.
  assert (still (cluster s) (cluster s3)) as Hst3 by (by rewrite Hc3).
  destruct (st && up); [|by split_and!; [| |cbn; lia]].
  destruct (member_at E P l s3 n Hs3 Hn) as (node3 & Hnode3 & _).
  assert (blen (match r with inl _ => buf | inr _ => sb end) = INFO_STACK_BUF_SIZE) as Hsb2.
  { destruct r as [m|m]; [|done]. destruct Hr as [-> _]. cbn [block_of] in Hm. rewrite Hl3, <- Hsb, Hm, !length_app, cut_length. done. }
  eapply (wlp_outside_bind (as_node_get_info _ _ _ _)); [apply (get_info_ok n _ _ _ s3 node3 Hnode3 (ok_allocs _ _ _ _ _ _ _ _ Hs3) Hsb2); by vm_compute|].
  intros [r2 sb2] s4 Ho4 [Hsb4 Hr2]. cbn [fst snd] in *. destruct (outside_objects _ _ Ho4) as (_ & Hc4 & _).
  assert (ok E P l s4) as Hs4 by (by eapply ok_outside). rewrite Hc3 in Hc4.
  destruct r2 as [r2|]; [|apply Hclose; [done|by rewrite Hc4|lia]].
  assert (answer_in (block_of r2)) as (nvs2 & post2 & Hm2 & Htidy2 & _) by (destruct r2; [by destruct Hr2|done]).
  unfold wlp. rewrite (bind_access _ _ _ (mjoin (pair_cut <$> nvs2) ++ 0 :: post2, offsets 0 nvs2)) by (rewrite Hm2; by apply cut_answer).
  destruct (process_partitions_ok E P l n nvs2 [] post2 s4 Hs4 Hn ltac:(by rewrite Hc4) Htidy2) as (s5 & E5 & Hs5 & Hst5).
  cbn [app length] in E5. change (Z.of_nat 0) with 0 in E5. rewrite (bind_ret_eq _ _ _ _ _ E5).
  split; [done|]. split; [by rewrite Hc4 in Hst5|]. cbn. lia.
Qed.

(** ** New nodes *)

Lemma append_unique_length sa l : blen (append_unique sa l) <= blen l + 1.
Proof. unfold append_unique. case_decide; [lia|]. rewrite length_app. simpl. lia. Qed.

Lemma lookup_ok host port s :
  wlp (as_lookup host port) (fun r s1 => outside s s1 /\ blen (snd r) <= A) s.
Proof.
  unfold as_lookup, wlp. rewrite bind_cluster_of, bind_os. pose proof (polite_some servers).
  destruct (getaddrinfo _ _) as [[res|] w] eqn:Eg; (split; [apply outside_net|]); cbn [snd]; [|simpl; lia].
  apply (polite_hosts servers) in Eg.
  assert (forall l0 : list sockaddr_in, blen (fold_left (fun l a => append_unique (mk_addr a (cf_swap_to_be16 host_endian port)) l) res l0) <= blen l0 + blen res) as Hf.
  { clear Eg. induction res as [|a res IH]; intros l0; cbn [fold_left length]; [lia|]. specialize (IH (append_unique (mk_addr a (cf_swap_to_be16 host_endian port)) l0)).
    pose proof (append_unique_length (mk_addr a (cf_swap_to_be16 host_endian port)) l0). lia. }
  specialize (Hf []). simpl in Hf. lia.
Qed.

Lemma find_by_name_ok E P l name : forall todo s,
  ok E P l s -> (forall n, n ∈ todo -> n ∈ P ++ l) ->
  exists o, find_by_name (Some <$> todo) name s = URet (o, s) /\ forall n, o = Some n -> n ∈ todo.
Proof.
  induction todo as [|n todo IH]; intros s Hs Hin; cbn [find_by_name fmap list_fmap]; [by exists None|].
  rewrite (bind_access _ _ _ n) by done.
  destruct (ok_held np K N _ E P l s n Hs) as (node & Hn & _).
  { specialize (Hin n ltac:(by left)). apply occ_in in Hin. rewrite occ_app in Hin. unfold holders.
    pose proof (occ_nonneg n (gc_nodes (gc (cluster s)))). destruct (ok_bound _ _ _ _ _ _ _ _ Hs n). lia. }
  rewrite (bind_node_at _ _ _ _ Hn). case_decide.
  - exists (Some n). split; [done|]. intros m [= <-]. by left.
  - destruct (IH s Hs) as (o & Ho & Hr); [intros m Hm; apply Hin; by right|]. exists o. split; [done|]. intros m Hm. right. by apply Hr.
Qed.

Lemma add_address_keeps E P l s n sa :
  ok E P l s -> n ∈ P ++ l ->
  exists s1, as_node_add_address n sa s = URet (tt, s1) /\ ok E P l s1 /\ cluster s1 = cluster s.
Proof.
  intros Hs Hn. unfold as_node_add_address.
  match goal with |- exists s1, on_node n ?f s = _ /\ _ => destruct (on_node_keeps E P l s n f Hs Hn) as (s1 & E1 & Hs1 & Hc1 & _) end.
  - intros node [Hq Hloc]. split; [|done]. split; [exact Hq|]. unfold located in *. cbn. rewrite length_app. lia.
  - by exists s1.
Qed.

Lemma seed_addresses_ok E P0 l addrs : forall P first s,
  ok E (P0 ++ P) l s -> auth_ok stack (cluster s) ->
  wlp (seed_addresses hpux stack addrs P first)
    (fun r s1 => ok E (P0 ++ fst r) l s1 /\ cluster s1 = cluster s /\ blen (fst r) <= blen P + blen addrs) s.
Proof.
  induction addrs as [|sa addrs IH]; intros P first s Hs Hau; cbn [seed_addresses length].
  { apply wlp_ret. split; [done|]. split; [done|]. cbn. lia. }
  assert (forall P' f s1, ok E (P0 ++ P') l s1 -> cluster s1 = cluster s -> blen P' <= blen P + 1 ->
    wlp (seed_addresses hpux stack addrs P' f) (fun r s1 => ok E (P0 ++ fst r) l s1 /\ cluster s1 = cluster s
      /\ blen (fst r) <= blen P + Z.of_nat (S (length addrs))) s1) as Hnext.
  { intros P' f s1 Hs1 Hc1 HP. eapply wlp_mono; [apply (IH P' f s1 Hs1); by rewrite Hc1|].
    intros r s2 (? & ? & ?). split; [done|]. split; [congruence|lia]. }
  eapply wlp_outside_bind; [apply lookup_node_name_ok; [apply Hs|done]|].
  intros [st name] s1 Ho1 Hname. cbn [fst snd] in Hname. destruct (outside_objects _ _ Ho1) as (_ & Hc1 & Ha1).
  assert (ok E (P0 ++ P) l s1) as Hs1 by (by eapply ok_outside).
  destruct (Z.eqb_spec st 0) as [->|Hst]; [|apply Hnext; (done || lia)].
  destruct (Hname eq_refl) as (nm & -> & Hnm). apply wlp_bind. unfold wlp at 1, access at 1. cbn [lift ubind].
  unfold as_cluster_find_node_in_vector.
  destruct (find_by_name_ok E (P0 ++ P) l nm P s1 Hs1) as (o & Ho & Hin).
  { intros n Hn. rewrite !elem_of_app. auto. }
  unfold wlp. rewrite (bind_ret_eq _ _ _ _ _ Ho). destruct o as [n|].
  - destruct (add_address_keeps E (P0 ++ P) l s1 n sa Hs1) as (s2 & E2 & Hs2 & Hc2).
    { rewrite !elem_of_app. left. right. by apply Hin. }
    rewrite (bind_ret_eq _ _ _ _ _ E2). apply Hnext; [done|congruence|lia].
  - rewrite (bind_ret_eq _ _ _ _ _ (create_node_eq nm sa s1 (ok_allocs _ _ _ _ _ _ _ _ Hs1) Hnm)).
    apply Hnext; [|done|rewrite length_app; simpl; lia]. rewrite app_assoc. by apply create_node_ok.
Qed.

Lemma seed_loop_ok E P0 l todo : forall P first s,
  ok E (P0 ++ P) l s -> auth_ok stack (cluster s) ->
  wlp (seed_loop hpux stack todo P first)
    (fun r s1 => ok E (P0 ++ fst r) l s1 /\ cluster s1 = cluster s /\ blen (fst r) <= blen P + blen todo * A) s.
Proof.
  pose proof (polite_some servers) as HA. induction todo as [|seed todo IH]; intros P first s Hs Hau; cbn [seed_loop length].
  { apply wlp_ret. split; [done|]. split; [done|]. cbn. lia. }
  eapply wlp_outside_bind; [apply lookup_ok|]. intros [st addrs] s1 Ho1 Hl. cbn [snd] in Hl.
  destruct (outside_objects _ _ Ho1) as (_ & Hc1 & Ha1). assert (ok E (P0 ++ P) l s1) as Hs1 by (by eapply ok_outside).
  assert (forall P' f s2, ok E (P0 ++ P') l s2 -> cluster s2 = cluster s -> blen P' <= blen P + A ->
    wlp (seed_loop hpux stack todo P' f) (fun r s1 => ok E (P0 ++ fst r) l s1 /\ cluster s1 = cluster s
      /\ blen (fst r) <= blen P + Z.of_nat (S (length todo)) * A) s2) as Hnext.
  { intros P' f s2 Hs2 Hc2 HP. eapply wlp_mono; [apply (IH P' f s2 Hs2); by rewrite Hc2|].
    intros r s3 (? & ? & ?). split; [done|]. split; [congruence|lia]. }
  destruct (Z.eqb_spec st 0) as [->|Hst]; cbn [negb]; [|apply Hnext; (done || lia)].
  apply wlp_bind. eapply wlp_mono; [apply (seed_addresses_ok E P0 l addrs P first s1 Hs1); by rewrite Hc1|].
  intros [P1 f1] s2 (Hs2 & Hc2 & Hb2). cbn [fst] in *. apply Hnext; [done|congruence|lia].
Qed.

Lemma add_nodes_still s s1 g : cluster s1 = with_gc g (with_nodes (next s) (cluster s)) -> still (cluster s) (cluster s1).
Proof. intros ->. by repeat split. Qed.

Lemma seed_nodes_ok E P0 l s :
  ok E P0 l s -> auth_ok stack (cluster s) -> blen l + blen (seeds (cluster s)) * A < 2 ^ 32 ->
  wlp (as_cluster_seed_nodes hpux stack)
    (fun _ s1 => exists l2, ok E P0 (l ++ l2) s1 /\ still (cluster s) (cluster s1) /\ blen l2 <= blen (seeds (cluster s)) * A) s.
Proof.
  intros Hs Hau Hb. pose proof (polite_some servers) as HA. unfold as_cluster_seed_nodes. apply wlp_bind. unfold wlp at 1, cluster_of, gets.
  apply wlp_bind. eapply wlp_mono; [apply (seed_loop_ok E P0 l (seeds (cluster s)) [] 0 s); [by rewrite app_nil_r|done]|].
  intros [P f] s1 (Hs1 & Hc1 & HP). cbn [fst length] in *. case_if.
  - destruct (add_nodes_ok np K N E P0 P l s1 Hs1) as (s2 & E2 & Hs2 & _ & _ & _ & Hc2); [lia|].
    apply wlp_bind. unfold wlp at 1. rewrite E2. apply wlp_ret. exists P. split; [done|]. split; [|lia].
    rewrite <- Hc1. by eapply add_nodes_still.
  - apply wlp_ret. exists []. rewrite app_nil_r. destruct P as [|n P]; [|reflect_Z; simpl in *; lia].
    rewrite app_nil_r in Hs1. rewrite Hc1. split; [done|]. split; [done|]. simpl. nia.
Qed.

Lemma friend_addresses_ok E l addrs : forall P s,
  ok E P l s -> auth_ok stack (cluster s) ->
  wlp (friend_addresses hpux stack addrs P)
    (fun P' s1 => ok E P' l s1 /\ cluster s1 = cluster s /\ blen P' <= blen P + blen addrs) s.
Proof.
  induction addrs as [|sa addrs IH]; intros P s Hs Hau; cbn [friend_addresses length].
  { apply wlp_ret. split; [done|]. split; [done|lia]. }
  assert (forall P' s1, ok E P' l s1 -> cluster s1 = cluster s -> blen P' <= blen P + 1 ->
    wlp (friend_addresses hpux stack addrs P') (fun P' s1 => ok E P' l s1 /\ cluster s1 = cluster s
      /\ blen P' <= blen P + Z.of_nat (S (length addrs))) s1) as Hnext.
  { intros P' s1 Hs1 Hc1 HP. eapply wlp_mono; [apply (IH P' s1 Hs1); by rewrite Hc1|].
    intros P2 s2 (? & ? & ?). split; [done|]. split; [congruence|lia]. }
  eapply wlp_outside_bind; [apply lookup_node_name_ok; [apply Hs|done]|].
  intros [st name] s1 Ho1 Hname. cbn [fst snd] in Hname. destruct (outside_objects _ _ Ho1) as (_ & Hc1 & Ha1).
  assert (ok E P l s1) as Hs1 by (by eapply ok_outside).
  destruct (Z.eqb_spec st 0) as [->|Hst]; [|apply Hnext; (done || lia)].
  destruct (Hname eq_refl) as (nm & -> & Hnm). apply wlp_bind. unfold wlp at 1, access at 1. cbn [lift ubind].
  unfold as_cluster_find_node, array_at, wlp. rewrite bind_cluster_of, bind_assoc.
  rewrite (bind_access _ _ _ _ (ok_members _ _ _ _ _ _ _ _ Hs1)). cbn [nodes_array].
  destruct (find_by_name_ok E P l nm l s1 Hs1) as (o & Ho & Hin); [intros n Hn; rewrite elem_of_app; auto|].
  rewrite (bind_ret_eq _ _ _ _ _ Ho). destruct o as [n|].
  - specialize (Hin n eq_refl). destruct (member_at E P l s1 n Hs1 Hin) as (node & Hnode & [_ Hloc]).
    destruct (address_full_eq s1 n node Hnode Hloc) as [a Ha]. rewrite (bind_ret_eq _ _ _ _ _ Ha).
    destruct (on_node_keeps E P l s1 n (fun node => set_friends (u32 (friends node + 1)) node) Hs1) as (s2 & E2 & Hs2 & Hc2 & _);
      [rewrite elem_of_app; auto|intros nd Hnd; by split|].
    rewrite (bind_ret_eq _ _ _ _ _ E2).
    destruct (add_address_keeps E P l s2 n sa Hs2) as (s3 & E3 & Hs3 & Hc3); [rewrite elem_of_app; auto|].
    rewrite (bind_ret_eq _ _ _ _ _ E3). apply Hnext; [done|congruence|lia].
  - rewrite (bind_ret_eq _ _ _ _ _ (create_node_eq nm sa s1 (ok_allocs _ _ _ _ _ _ _ _ Hs1) Hnm)).
    apply Hnext; [|done|rewrite length_app; simpl; lia]. by apply create_node_ok.
Qed.

Lemma find_nodes_to_add_ok E l fr : forall P s,
  ok E P l s -> auth_ok stack (cluster s) ->
  wlp (as_cluster_find_nodes_to_add hpux stack fr P)
    (fun P' s1 => ok E P' l s1 /\ cluster s1 = cluster s /\ blen P' <= blen P + blen fr * A) s.
Proof.
  pose proof (polite_some servers) as HA. induction fr as [|f fr IH]; intros P s Hs Hau; cbn [as_cluster_find_nodes_to_add length].
  { apply wlp_ret. split; [done|]. split; [done|lia]. }
  eapply wlp_outside_bind; [apply lookup_ok|]. intros [st addrs] s1 Ho1 Hl. cbn [snd] in Hl.
  destruct (outside_objects _ _ Ho1) as (_ & Hc1 & Ha1). assert (ok E P l s1) as Hs1 by (by eapply ok_outside).
  assert (forall P' s2, ok E P' l s2 -> cluster s2 = cluster s -> blen P' <= blen P + A ->
    wlp (as_cluster_find_nodes_to_add hpux stack fr P') (fun P' s1 => ok E P' l s1 /\ cluster s1 = cluster s
      /\ blen P' <= blen P + Z.of_nat (S (length fr)) * A) s2) as Hnext.
  { intros P' s2 Hs2 Hc2 HP. eapply wlp_mono; [apply (IH P' s2 Hs2); by rewrite Hc2|].
    intros P3 s3 (? & ? & ?). split; [done|]. split; [congruence|lia]. }
  destruct (Z.eqb_spec st 0) as [->|Hst]; cbn [negb]; [|apply Hnext; (done || lia)].
  apply wlp_bind. eapply wlp_mono; [apply (friend_addresses_ok E l addrs P s1 Hs1); by rewrite Hc1|].
  intros P1 s2 (Hs2 & Hc2 & Hb2). apply Hnext; [done|congruence|lia].
Qed.

(** ** Old nodes *)

Lemma find_node_eq E P l s n :
  ok E P l s -> exists b, as_partition_tables_find_node (partition_tables (cluster s)) n s = URet (b, s).
Proof.
  intros Hs. unfold as_partition_tables_find_node, tables_at.
  rewrite (bind_access _ _ _ _ (cluster_tables_eq _ _ _ _ _ _ _ _ Hs)). cbn [tables_array].
  pose proof (ok_live _ _ _ _ _ _ _ _ Hs) as Hl. induction Hl as [|p tl (t & tb & -> & Ht) _ IH]; cbn [find_node_loop]; [by exists false|].
  rewrite (bind_access _ _ _ t) by done. unfold table_at. rewrite (bind_access _ _ _ _ Ht). case_if; [by exists true|exact IH].
Qed.

Lemma remove_loop_ok E P l size rc todo : forall rem s,
  size <> 1 -> ok E P l s -> (forall n, n ∈ todo -> n ∈ l) ->
  exists go, remove_loop hpux stack (Some <$> todo) size rc rem s = URet (rem ++ go, s) /\ go `sublist_of` todo.
Proof.
  induction todo as [|n todo IH]; intros rem s Hsz Hs Hin; cbn [remove_loop fmap list_fmap]; [exists []; by rewrite app_nil_r|].
  rewrite (bind_access _ _ _ n) by done. destruct (member_at E P l s n Hs) as (node & Hn & _); [apply Hin; by left|].
  rewrite (bind_node_at _ _ _ _ Hn).
  assert (exists b, (if negb (active node) then mret true else remove_active hpux stack size rc n node) s = URet (b, s)) as [b Hb].
  { case_if; [by exists true|]. unfold remove_active. rewrite (proj2 (Z.eqb_neq size 1) Hsz). case_if; [by eexists|].
    case_if; [|by eexists]. case_if; [|by eexists]. rewrite bind_cluster_of. destruct (find_node_eq E P l s n Hs) as [b Hb].
    rewrite (bind_ret_eq _ _ _ _ _ Hb). by eexists. }
  rewrite (bind_ret_eq _ _ _ _ _ Hb). destruct b.
  - destruct (IH (rem ++ [n]) s Hsz Hs) as (go & Eg & Hg); [intros m Hm; apply Hin; by right|].
    exists (n :: go). rewrite Eg, <- app_assoc. split; [done|]. by apply sublist_skip.
  - destruct (IH rem s Hsz Hs) as (go & Eg & Hg); [intros m Hm; apply Hin; by right|].
    exists go. split; [done|]. by apply sublist_cons.
Qed.

Lemma find_nodes_to_remove_ok E P l rc s :
  ok E P l s -> auth_ok stack (cluster s) -> blen l + blen (seeds (cluster s)) * A < 2 ^ 32 ->
  wlp (as_cluster_find_nodes_to_remove hpux stack rc)
    (fun rem s1 => exists l2, ok E P (l ++ l2) s1 /\ still (cluster s) (cluster s1) /\ NoDup rem /\ (forall n, n ∈ rem -> n ∈ l)
       /\ blen l2 <= blen (seeds (cluster s)) * A) s.
Proof.
  intros Hs Hau Hb. pose proof (polite_some servers) as HA. unfold as_cluster_find_nodes_to_remove, array_at, wlp. rewrite bind_cluster_of.
  rewrite (bind_access _ _ _ _ (ok_members _ _ _ _ _ _ _ _ Hs)). cbn [nodes_array]. rewrite length_fmap.
  assert (NoDup l) as Hnd. { pose proof (ok_once _ _ _ _ _ _ _ _ Hs) as Ho. apply NoDup_app in Ho as (_ & _ & Ho). by apply NoDup_app in Ho as (? & _). }
  destruct (decide (blen l = 1)) as [H1|H1].
  2:{ destruct (remove_loop_ok E P l (blen l) rc l [] s H1 Hs (fun _ H => H)) as (go & -> & Hg). exists []. rewrite app_nil_r.
      split; [done|]. split; [done|]. split; [by eapply sublist_NoDup|]. split; [|simpl; nia].
      intros n Hn. by eapply elem_of_sublist. }
  destruct l as [|n [|? ?]]; [done| |simpl in H1; lia]. cbn [fmap list_fmap remove_loop].
  rewrite (bind_access _ _ _ n) by done. destruct (member_at E P [n] s n Hs) as (node & Hn & _); [by left|].
  rewrite (bind_node_at _ _ _ _ Hn).
  assert (forall b s1 l2, ok E P ([n] ++ l2) s1 -> still (cluster s) (cluster s1) -> blen l2 <= blen (seeds (cluster s)) * A ->
    wlp (W := W) (mret (if b : bool then [] ++ [n] else [])) (fun rem s1 => exists l2, ok E P ([n] ++ l2) s1 /\ still (cluster s) (cluster s1) /\ NoDup rem
       /\ (forall m, m ∈ rem -> m ∈ [n]) /\ blen l2 <= blen (seeds (cluster s)) * A) s1) as Hret.
  { intros b s1 l2 Hs1 Hst Hl2. apply wlp_ret. exists l2. split; [done|]. split; [done|].
    destruct b; split_and!; try done; [constructor|]. by intros m ?%elem_of_nil. }
  assert (forall b, wlp (W := W) (mret (if b : bool then [] ++ [n] else [])) (fun rem s1 => exists l2, ok E P ([n] ++ l2) s1 /\ still (cluster s) (cluster s1) /\ NoDup rem
       /\ (forall m, m ∈ rem -> m ∈ [n]) /\ blen l2 <= blen (seeds (cluster s)) * A) s) as Hsame.
  { intros b. apply (Hret b s []); [by rewrite app_nil_r|done|simpl; nia]. }
  case_if; [apply (Hsame true)|]. unfold remove_active. change (Z.of_nat (length [n]) =? 1) with true. cbn iota.
  case_if; [|apply (Hsame false)]. rewrite bind_assoc. apply (wlp_bind (as_cluster_seed_nodes _ _)).
  eapply wlp_mono; [by apply seed_nodes_ok|]. intros st s1 (l2 & Hs1 & Hst & Hl2).
  apply (Hret (st =? 0) s1 l2 Hs1 Hst Hl2).
Qed.

(** ** A turn *)

Definition settled (c c' : as_cluster) : Prop :=
  user c' = user c /\ password c' = password c /\ seeds c' = seeds c /\ ip_map c' = ip_map c
  /\ conn_timeout_ms c' = conn_timeout_ms c /\ (n_partitions c' = n_partitions c \/ n_partitions c' = np).

#[local] Instance settled_preorder : PreOrder settled.
Proof.
  split; [intros c; repeat split; by left|]. intros c1 c2 c3 (?&?&?&?&?&Hn1) (?&?&?&?&?&Hn2). repeat split; try congruence.
  destruct Hn2 as [->|]; [done|by right].
Qed.

Lemma still_settled c c' : still c c' -> settled c c'.
Proof. intros (?&?&?&?&?&?). repeat split; try done. by left. Qed.

Lemma settled_auth c c' : settled c c' -> auth_ok stack c -> auth_ok stack c'.
Proof. intros (Hu & Hp & _) [Hl Ha]. split; [done|]. by rewrite Hu, Hp. Qed.

Lemma still_auth c c' : still c c' -> auth_ok stack c -> auth_ok stack c'.
Proof. intros Hc%still_settled. by apply settled_auth. Qed.

Lemma partition_size_ok E P l todo : forall first s,
  ok E P l s -> (forall n, n ∈ todo -> n ∈ l) -> auth_ok stack (cluster s) ->
  wlp (partition_size_loop hpux stack (Some <$> todo) first) (fun _ s1 => ok E P l s1 /\ settled (cluster s) (cluster s1)) s.
Proof.
  induction todo as [|n todo IH]; intros first s Hs Hin Hau; cbn [partition_size_loop fmap list_fmap]; [by apply wlp_ret|].
  unfold wlp. rewrite bind_cluster_of. case_if; [by split|].
  assert (forall f s1, ok E P l s1 -> settled (cluster s) (cluster s1) ->
    wlp (partition_size_loop hpux stack (Some <$> todo) f) (fun _ s1 => ok E P l s1 /\ settled (cluster s) (cluster s1)) s1) as Hnext.
  { intros f s1 Hs1 Hst. eapply wlp_mono; [apply (IH f s1 Hs1); [intros m Hm; apply Hin; by right|by eapply settled_auth]|].
    intros x s2 [? ?]. split; [done|]. by transitivity (cluster s1). }
  destruct (member_at E P l s n Hs) as (node & Hn & [_ Hloc]); [apply Hin; by left|].
  destruct (address_full_eq s n node Hn Hloc) as [a Ha]. rewrite (bind_access _ _ _ n), (bind_ret_eq _ _ _ _ _ Ha) by done.
  rewrite bind_cluster_of. eapply (wlp_outside_bind (deadline_of _)); [apply wlp_deadline|]. intros deadline s1 Ho1 _.
  destruct (outside_objects _ _ Ho1) as (_ & Hc1 & Ha1).
  eapply wlp_outside_bind; [apply info_command_host_ok; [rewrite Ha1; apply Hs|by rewrite Hc1]|].
  intros [st r] s2 Ho2 Hr. assert (outside s s2) as Ho by (by transitivity s1). unfold one_answer in Hr. cbn [fst snd] in Hr.
  assert (ok E P l s2) as Hs2 by (by eapply ok_outside). destruct (outside_objects _ _ Ho) as (_ & Hc2 & _).
  destruct (Z.eqb_spec st 0) as [->|Hst]; cbn [negb]; [|apply Hnext; [done|by rewrite Hc2]].
  destruct (Hr eq_refl) as ([name v] & nvs & -> & (Hpair & _) & Hnp). specialize (Hnp eq_refl). cbn [snd] in Hnp.
  apply wlp_bind. unfold wlp at 1, access at 1. cbn [lift ubind].
  rewrite info_lines_cons, <- app_assoc. destruct (single_value name v (info_lines nvs ++ [0]) Hpair) as [Hsv Hcs].
  apply wlp_bind. unfold wlp at 1, access at 1. rewrite Hsv. cbn [lift ubind]. change (AEROSPIKE_OK =? AEROSPIKE_OK) with true. cbn iota.
  apply wlp_bind. unfold wlp at 1, access at 1. cbn [mbind option_bind]. rewrite Hcs. cbn [lift ubind]. rewrite Hnp.
  apply wlp_bind. unfold wlp at 1, modify. apply Hnext.
  - destruct Hs2 as [? ? ? ? ? ? ? ? ? (H1 & H2 & _) ? ? ?]. constructor; try done. split; [done|]. split; [done|]. by left.
  - cbn. rewrite Hc2. repeat split. by right.
Qed.

Lemma clear_friends_ok E P l todo : forall s,
  ok E P l s -> (forall n, n ∈ todo -> n ∈ l) ->
  exists s1, clear_friends (Some <$> todo) s = URet (tt, s1) /\ ok E P l s1 /\ cluster s1 = cluster s.
Proof.
  induction todo as [|n todo IH]; intros s Hs Hin; cbn [clear_friends fmap list_fmap]; [by exists s|].
  rewrite (bind_access _ _ _ n) by done.
  destruct (on_node_keeps E P l s n (set_friends 0) Hs) as (s1 & E1 & Hs1 & Hc1 & _).
  - rewrite elem_of_app. right. apply Hin. by left.
  - intros nd Hnd. by split.
  - rewrite (bind_ret_eq _ _ _ _ _ E1). destruct (IH s1 Hs1) as (s2 & E2 & Hs2 & Hc2); [intros m Hm; apply Hin; by right|].
    exists s2. split; [done|]. split; [done|congruence].
Qed.

Lemma refresh_loop_ok E P l todo : forall fr rc s,
  ok E P l s -> (forall n, n ∈ todo -> n ∈ l) -> n_partitions (cluster s) = np -> auth_ok stack (cluster s) ->
  blen info_stack = INFO_STACK_BUF_SIZE ->
  wlp (refresh_loop stack info_stack (Some <$> todo) fr rc)
    (fun r s1 => ok E P l s1 /\ still (cluster s) (cluster s1) /\ blen (fst r) <= blen fr + blen todo * (512 * 1024)) s.
Proof.
  induction todo as [|n todo IH]; intros fr rc s Hs Hin Hnp Hau Hst; cbn [refresh_loop fmap list_fmap length].
  { apply wlp_ret. split; [done|]. split; [done|]. cbn. lia. }
  assert (forall fr' rc' s1, ok E P l s1 -> still (cluster s) (cluster s1) -> blen fr' <= blen fr + 512 * 1024 ->
    wlp (refresh_loop stack info_stack (Some <$> todo) fr' rc')
      (fun r s1 => ok E P l s1 /\ still (cluster s) (cluster s1) /\ blen (fst r) <= blen fr + Z.of_nat (S (length todo)) * (512 * 1024)) s1) as Hnext.
  { intros fr' rc' s1 Hs1 Hst1 Hfr. eapply wlp_mono; [apply (IH fr' rc' s1 Hs1)|].
    - intros m Hm. apply Hin. by right.
    - destruct Hst1 as (_ & _ & _ & _ & _ & ->). done.
    - by eapply still_auth.
    - done.
    - intros r s2 (? & ? & ?). split; [done|]. split; [by transitivity (cluster s1)|lia]. }
  assert (n ∈ l) as Hnl by (apply Hin; by left).
  destruct (member_at E P l s n Hs Hnl) as (node & Hn & _). unfold wlp. rewrite (bind_access _ _ _ n), (bind_node_at _ _ _ _ Hn) by done.
  destruct (active node); [|apply Hnext; (done || lia)]. apply (wlp_bind (as_node_refresh _ _ _ _)).
  eapply wlp_mono; [by apply (refresh_ok E P l)|]. intros [good fr1] s1 (Hs1 & Hst1 & Hb1). cbn [snd] in Hb1. destruct good.
  - destruct (on_node_keeps E P l s1 n (set_failures 0) Hs1) as (s2 & E2 & Hs2 & Hc2 & _);
      [rewrite elem_of_app; auto|intros nd Hnd; by split|].
    unfold wlp. rewrite (bind_ret_eq _ _ _ _ _ E2). apply Hnext; [done|by rewrite Hc2|done].
  - destruct (on_node_keeps E P l s1 n (fun node => set_failures (u32 (failures node + 1)) node) Hs1) as (s2 & E2 & Hs2 & Hc2 & _);
      [rewrite elem_of_app; auto|intros nd Hnd; by split|].
    unfold wlp. rewrite (bind_ret_eq _ _ _ _ _ E2). apply Hnext; [done|by rewrite Hc2|done].
Qed.

Lemma tend_nodes_ok E l s :
  ok E [] l s -> n_partitions (cluster s) = np -> auth_ok stack (cluster s) -> blen info_stack = INFO_STACK_BUF_SIZE ->
  blen l * (1 + 512 * 1024 * A) + blen (seeds (cluster s)) * A < 2 ^ 32 ->
  wlp (tend_nodes hpux stack info_stack) (fun _ s1 => exists l', ok E [] l' s1 /\ still (cluster s) (cluster s1)) s.
Proof.
  intros Hs Hnp Hau Hst Hb. pose proof (polite_some servers) as HA. unfold tend_nodes, array_at, wlp. rewrite bind_cluster_of.
  rewrite (bind_access _ _ _ _ (ok_members _ _ _ _ _ _ _ _ Hs)). cbn [nodes_array].
  destruct (clear_friends_ok E [] l l s Hs (fun _ H => H)) as (s1 & E1 & Hs1 & Hc1). rewrite (bind_ret_eq _ _ _ _ _ E1).
  apply (wlp_bind (refresh_loop _ _ _ _ _)).
  eapply wlp_mono; [apply (refresh_loop_ok E [] l l [] 0 s1 Hs1 (fun _ H => H)); [by rewrite Hc1|by rewrite Hc1|done]|].
  intros [fr rc] s2 (Hs2 & Hst2 & Hfr). cbn [fst length] in Hfr. rewrite Hc1 in Hst2.
  apply wlp_bind. eapply wlp_mono; [apply (find_nodes_to_add_ok E l fr [] s2 Hs2); by eapply still_auth|].
  intros P s3 (Hs3 & Hc3 & HP). cbn [length] in HP.
  assert (seeds (cluster s3) = seeds (cluster s)) as Hseeds by (rewrite Hc3; by destruct Hst2 as (_ & _ & -> & _)).
  apply wlp_bind. eapply wlp_mono; [apply (find_nodes_to_remove_ok E P l rc s3 Hs3); [rewrite Hc3; by eapply still_auth|rewrite Hseeds; nia]|].
  intros rem s4 (l2 & Hs4 & Hst4 & Hnd & Hrem & Hl2). rewrite Hc3 in Hst4. rewrite Hseeds in Hl2.
  assert (exists l4 s5, (if 0 <? blen rem then as_cluster_remove_nodes rem else mret tt) s4 = URet (tt, s5)
    /\ ok E P l4 s5 /\ still (cluster s4) (cluster s5) /\ blen l4 <= blen l + blen l2) as (l4 & s5 & E5 & Hs5 & Hst5 & Hl4).
  { case_if.
    - destruct (remove_nodes_ok np K N E P (l ++ l2) rem s4 Hs4 Hnd) as (s5 & E5 & Hs5 & _ & _ & _ & g & Hc5).
      + intros n Hn. apply elem_of_app. left. by apply Hrem.
      + rewrite length_app. nia.
      + eexists _, s5. split; [done|]. split; [done|]. split; [rewrite Hc5; by repeat split|].
        etransitivity; [apply Nat2Z.inj_le, length_filter|]. rewrite length_app. lia.
    - exists (l ++ l2), s4. split; [done|]. split; [done|]. split; [done|]. rewrite length_app. lia. }
  unfold wlp. rewrite (bind_ret_eq _ _ _ _ _ E5). case_if.
  - destruct (add_nodes_ok np K N E [] P l4 s5 Hs5) as (s6 & -> & Hs6 & _ & _ & _ & Hc6); [nia|].
    exists (l4 ++ P). split; [done|]. transitivity (cluster s5); [transitivity (cluster s4); [by transitivity (cluster s2)|done]|].
    by eapply add_nodes_still.
  - exists l4. destruct P as [|n P]; [|reflect_Z; simpl in *; lia]. split; [done|].
    transitivity (cluster s4); [by transitivity (cluster s2)|done].
Qed.

(** The cluster is so small that no 32-bit size of an array overflows in a turn, however
    many friends its nodes name. *)
Definition roomy (l : list Z) (c : as_cluster) : Prop :=
  (blen l + blen (seeds c) * A) * (1 + 512 * 1024 * A) + blen (seeds c) * A < 2 ^ 32.

Definition tend_ready (c : as_cluster) : Prop := auth_ok stack c /\ blen info_stack = INFO_STACK_BUF_SIZE.

Lemma tend_ok E l s :
  ok E [] l s -> tend_ready (cluster s) -> roomy l (cluster s) ->
  wlp (as_cluster_tend hpux stack info_stack) (fun _ s1 => exists l', ok E [] l' s1 /\ settled (cluster s) (cluster s1)) s.
Proof.
  intros Hs [Hau Hst] Hroom. unfold roomy in Hroom. pose proof (polite_some servers) as HA.
  assert (0 <= blen (seeds (cluster s)) * A) as Hsa by nia.
  unfold as_cluster_tend, array_at, wlp.
  destruct (gc_ok np K N locks_work E [] l s Hs) as (s1 & E1 & Hs1 & _ & Hc1). rewrite (bind_ret_eq _ _ _ _ _ E1), bind_cluster_of.
  assert (still (cluster s) (cluster s1)) as Hst1 by (rewrite Hc1; by repeat split).
  rewrite (bind_access _ _ _ _ (ok_members _ _ _ _ _ _ _ _ Hs1)). cbn [nodes_array]. rewrite length_fmap.
  apply (wlp_bind (if blen l =? 0 then as_cluster_seed_nodes hpux stack else mret 0)).
  apply (wlp_mono _ (fun _ s2 => exists l2, ok E [] l2 s2 /\ still (cluster s) (cluster s2) /\ blen l2 <= blen l + blen (seeds (cluster s)) * A)).
  { case_if.
    - eapply wlp_mono; [apply (seed_nodes_ok E [] l s1 Hs1); [by eapply still_auth|]|].
      + destruct Hst1 as (_ & _ & -> & _). nia.
      + intros st s2 (l2 & Hs2 & Hst2 & Hl2). exists (l ++ l2). split; [done|]. split; [by transitivity (cluster s1)|].
        destruct Hst1 as (_ & _ & Hse & _). rewrite Hse in Hl2. rewrite length_app. lia.
    - apply wlp_ret. exists l. split; [done|]. split; [done|lia]. }
  intros st s2 (l2 & Hs2 & Hst2 & Hl2). destruct (Z.eqb_spec st 0); cbn [negb]; [|apply wlp_ret; exists l2; split; [done|by apply still_settled]].
  unfold wlp. rewrite bind_cluster_of.
  apply (wlp_bind (if n_partitions (cluster s2) =? 0 then as_cluster_set_partition_size hpux stack else mret 0)).
  apply (wlp_mono _ (fun st s3 => ok E [] l2 s3 /\ settled (cluster s) (cluster s3) /\ (st = 0 -> n_partitions (cluster s3) = np))).
  { destruct (ok_size _ _ _ _ _ _ _ _ Hs2) as (Hnp0 & _ & Hnp2). destruct (Z.eqb_spec (n_partitions (cluster s2)) 0) as [Hz|Hz].
    - unfold as_cluster_set_partition_size, array_at, wlp. rewrite bind_cluster_of.
      rewrite (bind_access _ _ _ _ (ok_members _ _ _ _ _ _ _ _ Hs2)). cbn [nodes_array].
      apply (wlp_bind (partition_size_loop _ _ _ _)). eapply wlp_mono; [apply (partition_size_ok E [] l2 l2 0 s2 Hs2 (fun _ H => H)); by eapply still_auth|].
      intros f s3 [Hs3 Hst3]. unfold wlp. rewrite bind_cluster_of. split; [done|]. split; [transitivity (cluster s2); [by apply still_settled|done]|].
      destruct (ok_size _ _ _ _ _ _ _ _ Hs3) as (_ & _ & [Hn3|[Hn3 _]]); [done|]. rewrite Hn3. cbn [Z.ltb]. intros Hf.
      exfalso. destruct (Z.eqb_spec f 0) as [->|]; cbn [negb] in Hf; done.
    - apply wlp_ret. split; [done|]. split; [by apply still_settled|]. intros _. destruct Hnp2 as [|[? _]]; done. }
  intros st3 s3 (Hs3 & Hst3 & Hnp3). destruct (Z.eqb_spec st3 0) as [->|]; cbn [negb]; [|apply wlp_ret; by exists l2].
  assert (seeds (cluster s3) = seeds (cluster s)) as Hseeds by (by destruct Hst3 as (_ & _ & -> & _)).
  apply wlp_bind. eapply wlp_mono; [apply (tend_nodes_ok E l2 s3 Hs3 (Hnp3 eq_refl)); [by eapply settled_auth|done|rewrite Hseeds; nia]|].
  intros _ s4 (l4 & Hs4 & Hst4). apply wlp_ret. exists l4. split; [done|]. transitivity (cluster s3); [done|by apply still_settled].
Qed.


(** ** The life of a cluster *)

(** A cluster that was just created. *)
Definition newborn s : Prop :=
  m_nodes s = ∅ /\ m_table s = ∅ /\ m_arrays s = {[nodes (cluster s) := mk_nodes 1 []]}
  /\ m_tables s = {[partition_tables (cluster s) := mk_tables 1 []]} /\ gc (cluster s) = [] /\ n_partitions (cluster s) = 0
  /\ node_index (cluster s) = 0 /\ allocs s = [] /\ nodes (cluster s) < next s /\ partition_tables (cluster s) < next s.

(** The states a cluster can be in while the tender works and users look nodes up, release
    them and execute commands; the users hold the nodes [held]. *)
Inductive lives : list Z -> mem W -> Prop :=
  | L_born s : newborn s -> tend_ready (cluster s) -> lives [] s
  | L_tend held s st s' :
      lives held s -> (forall l, m_arrays s !! nodes (cluster s) = Some (mk_nodes 1 (Some <$> l)) -> roomy l (cluster s)) ->
      as_cluster_tend hpux stack info_stack s = URet (st, s') -> lives held s'
  | L_get held s ns d write replica o s' :
      lives held s -> blen held + 3 + 2 * np * (blen N + K) < 2 ^ 32 -> 2 <= blen d ->
      as_node_get ns d write replica s = URet (o, s') -> lives (match o with Some n => n :: held | None => held end) s'
  | L_release held1 n held2 s s' :
      lives (held1 ++ n :: held2) s -> as_node_release n s = URet (tt, s') -> lives (held1 ++ held2) s'
  | L_call held s fd0 D (parse : mem W -> Z -> Z -> as_error -> D -> ures (Z * as_error * D * mem W)) err cn command timeout_ms retry
      data st x :
      lives held s -> reads parse -> blen held + 3 + 2 * np * (blen N + K) < 2 ^ 32 ->
      cn_node cn = None -> 2 <= blen (cn_digest cn) -> 26 <= blen command ->
      as_command_execute (H0 := cluster_services stack fd0) parse s err cn command timeout_ms retry data = URet (st, x) ->
      lives held (x_w x).

Context (np_ok : 0 < np < 2 ^ 16) (K_ok : 0 <= K) (small : 2 + 2 * np * (blen N + K) < 2 ^ 32).

Lemma newborn_ok s : newborn s -> ok (fun _ => 0) [] [] s.
Proof.
  intros (Hn & Ht & Ha & Hts & Hg & Hp & Hi & Hal & Hf1 & Hf2).
  assert (cluster_tables s = []) as Hct by (unfold cluster_tables; by rewrite Hts, lookup_singleton_eq).
  unfold cluster_ok. rewrite Hg. constructor; rewrite ?Hct, ?Hn, ?Ht, ?Ha, ?Hts, ?Hi, ?Hal; try done.
  - constructor.
  - by rewrite lookup_singleton_eq.
  - split; [apply NoDup_singleton|]. intros a. destruct (decide (a = nodes (cluster s))) as [->|Hne].
    + rewrite lookup_singleton_eq. by split; [left|].
    + rewrite lookup_singleton_ne by done. by intros ?%list_elem_of_singleton.
  - split; [apply NoDup_singleton|]. intros a. destruct (decide (a = partition_tables (cluster s))) as [->|Hne].
    + rewrite lookup_singleton_eq. by split; [left|].
    + rewrite lookup_singleton_ne by done. by intros ?%list_elem_of_singleton.
  - constructor.
  - split; [constructor|]. split; intros; by rewrite lookup_empty in *.
  - split; [done|]. split; [done|]. by right.
  - split_and!; try (intros ? ?; by rewrite lookup_empty).
    + by intros a arr [<- _]%lookup_singleton_Some.
    + by intros t ts [<- _]%lookup_singleton_Some.
Qed.

Lemma occ_bound m l : occ m l <= blen l.
Proof. unfold occ. apply Nat2Z.inj_le, count_occ_bound. Qed.

Lemma lives_ok held s : lives held s -> tend_ready (cluster s) /\ exists l, ok (fun m => occ m held) [] l s.
Proof.
  induction 1 as [s Hb Hr|held s st s' _ [Hr (l & Hs)] Hroom Ht|held s ns d write replica o s' _ [Hr (l & Hs)] Hh Hd Hg|held1 n held2 s s' _ [Hr (l & Hs)] Hrel
    |held s fd0 D parse err cn command timeout_ms retry data st x _ [Hr (l & Hs)] Hp Hh Hcn Hd Hc He].
  - split; [done|]. exists []. by apply newborn_ok.
  - pose proof (tend_ok _ l s Hs Hr (Hroom l (ok_members _ _ _ _ _ _ _ _ Hs))) as Hw. unfold wlp in Hw. rewrite Ht in Hw.
    destruct Hw as (l' & Hs' & Hst). split; [|by exists l']. destruct Hr as [Hau Hi]. split; [by eapply settled_auth|done].
  - destruct (node_get_keeps np K N _ [] l ns d write replica s Hs) as (o' & s2 & Eg & Hs2 & Hix).
    { intros m. pose proof (occ_bound m held). lia. }
    { done. }
    rewrite Hg in Eg. injection Eg as <- <-. destruct Hix as (i & Hc & _). split; [by rewrite Hc|]. exists l.
    eapply ok_held_ext; [|exact Hs2]. intros m. destruct o as [n|]; [|done]. cbn [taken]. unfold plus. rewrite occ_cons. lia.
  - destruct (node_release_keeps np K N locks_work _ [] l n s Hs) as (s2 & Er & Hs2 & Hc).
    { cbn beta. apply occ_in. rewrite elem_of_app, elem_of_cons. auto. }
    rewrite Hrel in Er. injection Er as <-. rewrite Hc. split; [done|]. exists l. eapply ok_held_ext; [|exact Hs2].
    intros m. unfold plus. rewrite !occ_app, occ_cons. case_decide; lia.
  - pose proof (execute_keeps stack fd0 locks_work np K N parse _ l s err cn command timeout_ms retry data Hp Hs (proj1 Hr)) as Hk.
    rewrite He in Hk. destruct Hk as (Hs' & (i & Hx & _) & _); [|done..|].
    + intros m. pose proof (occ_bound m held). lia.
    + cbn [snd] in *. split; [by rewrite Hx|by exists l].
Qed.

Lemma lives_get held s ns d write replica :
  lives held s -> blen held + 3 + 2 * np * (blen N + K) < 2 ^ 32 -> 2 <= blen d ->
  exists o s', as_node_get ns d write replica s = URet (o, s').
Proof.
  intros Hl Hh Hd. destruct (lives_ok _ _ Hl) as (_ & l & Hs).
  destruct (node_get_keeps np K N _ [] l ns d write replica s Hs) as (o & s' & Eg & _); [|done|by exists o, s'].
  intros m. pose proof (occ_bound m held). lia.
Qed.

Lemma lives_release held s n : lives held s -> n ∈ held -> exists s', as_node_release n s = URet (tt, s').
Proof.
  intros Hl Hn. destruct (lives_ok _ _ Hl) as (_ & l & Hs).
  destruct (node_release_keeps np K N locks_work _ [] l n s Hs) as (s' & Er & _); [by apply occ_in|by exists s'].
Qed.

End Tending.

(** ** An example: one server *)

(** What the server says: its name, the number of partitions, its state (no friends), and
    that it has the first four partitions of the namespace [a]. *)
Inductive sim_answer := SNode | SPartitions | SCheck | SReplicas.

Definition sim_lines (a : sim_answer) : list (list Z * list Z) :=
  match a with
  | SNode => [(node_str, [66; 66])]
  | SPartitions => [(partitions_str, [56])]
  | SCheck => [(node_str, [66; 66]); (generation_str, [49]); (services_str, [])]
  | SReplicas => [(generation_str, [49]); (master_str, [97; COLON] ++ cf_b64_encode [0xF0]);
                  (prole_str, [97; COLON] ++ cf_b64_encode [0])]
  end.
Definition sim_text (a : sim_answer) : list Z := info_lines (sim_lines a).
Definition sim_header (a : sim_answer) : list Z := [2; 1] ++ be_bytes 6 (blen (sim_text a)).

(** The next descriptor, and the answer that is on its way: with its header, or without. *)
Record sim := mk_sim { sim_fd : Z; sim_next : option (bool * sim_answer) }.

Definition sim_reply (req : list Z) : option (bool * sim_answer) :=
  if decide (req = @info_request x86_64 false (Some node_str) true) then Some (true, SNode)
  else if decide (req = @info_request x86_64 false (Some partitions_str) true) then Some (true, SPartitions)
  else if decide (req = [2; 1] ++ be_bytes 6 (blen INFO_STR_CHECK) ++ INFO_STR_CHECK) then Some (true, SCheck)
  else if decide (req = [2; 1] ++ be_bytes 6 (blen INFO_STR_GET_REPLICAS) ++ INFO_STR_GET_REPLICAS) then Some (true, SReplicas)
  else None.

Definition sim_stream (w : sim) : list Z :=
  match sim_next w with
  | Some (true, a) => sim_header a ++ sim_text a
  | Some (false, a) => sim_text a
  | None => []
  end.

Definition sim_recv (w : sim) (n : Z) : Z * list Z * sim :=
  match sim_next w with
  | Some (true, a) =>
      if n =? 8 then (AEROSPIKE_OK, sim_header a, mk_sim (sim_fd w) (Some (false, a)))
      else (AEROSPIKE_ERR_TIMEOUT, replicate (Z.to_nat n) 0, w)
  | Some (false, a) =>
      if n =? blen (sim_text a) then (AEROSPIKE_OK, sim_text a, mk_sim (sim_fd w) None)
      else (AEROSPIKE_ERR_TIMEOUT, replicate (Z.to_nat n) 0, w)
  | None => (AEROSPIKE_ERR_TIMEOUT, replicate (Z.to_nat n) 0, w)
  end.

#[refine] Instance one_server : Net sim :=
  {| os_socket w := (sim_fd w, mk_sim (sim_fd w + 1) (sim_next w)); os_getfl w _ := (0, w); os_setfl w _ _ := (0, w);
     os_connect w _ _ := (0, EOTHER, w); os_peek w fd := (-1, EAGAIN, w); os_close w _ := w; os_shutdown w _ := w; os_getms w := (5, w);
     os_send w _ req _ := URet (AEROSPIKE_OK, mk_sim (sim_fd w) (sim_reply req));
     os_recv w _ n _ := URet (sim_recv w n);
     os_stream w _ := sim_stream w; queue_env _ := qenv_ok; has_dontwait := true;
     inet_ntop _ := [49]; inet_aton _ := None; getaddrinfo w _ := (Some [1], w) |}.
Proof.
  - done.
  - intros w fd n deadline Hn. unfold sim_recv, sim_stream. destruct (sim_next w) as [[[|] a]|].
    + destruct (Z.eqb_spec n 8) as [->|]; [|rewrite length_replicate; split; [lia|done]].
      split; [by destruct a|]. intros _. cbn [sim_next]. change (Z.to_nat 8) with (length (sim_header a)).
      rewrite take_app_length, drop_app_length, length_app. split; [done|]. split; [|done].
      change (length (sim_header a)) with 8%nat. lia.
    + destruct (Z.eqb_spec n (blen (sim_text a))) as [->|]; [|rewrite length_replicate; split; [lia|done]].
      split; [done|]. intros _. cbn [sim_next]. rewrite Nat2Z.id, firstn_all, drop_all. split_and!; (done || lia).
    + rewrite length_replicate. split; [lia|done].
Defined.

Definition sim_mem : mem sim :=
  mk_mem ∅ {[10 := mk_nodes 1 []]} ∅ {[11 := mk_tables 1 []]} 100 []
    (mk_cluster 10 11 [] None None [mk_seed [97] 3000] [] 1000 0 0 false) 0 (mk_sim 5 None) [] [].

Lemma sim_tidy a : Forall (tidy 8 10 [[97]]) (sim_lines a).
Proof.
  assert (forall b, is_byte b -> replicas_ok 8 10 [[97]] ([97; COLON] ++ cf_b64_encode [b])) as Hr.
  { intros b Hb. exists [(([97], [b]), 0)]. split_and!; [|done| |].
    - constructor; [|done]. split; [|by left]. split_and!; [done|done|by repeat constructor|by constructor|done].
    - repeat constructor.
    - right. unfold entries_text, entry_body. cbn [fmap list_fmap fst snd mjoin list_join]. by rewrite app_nil_r, <- ?app_assoc. }
  destruct a; repeat (apply Forall_cons; split); try apply Forall_nil_2; (split_and!;
    [split; vm_compute; repeat constructor; discriminate|vm_compute; repeat constructor; discriminate|]);
    cbn [fst snd]; (intros [?|?]; [try discriminate..]); apply Hr; by split.
Qed.

Lemma one_server_polite : @polite x86_64 sim one_server false 8 10 1 [[97]].
Proof.
  split; [|intros w host l w' [= <- _]; done|done].
  intros w fd req deadline w0 hdr w1 pr [= <-] Hh Hp. cbn [os_recv one_server] in *.
  unfold sim_recv in Hh. cbn [sim_next] in Hh. destruct (sim_reply req) as [[b a]|] eqn:Er; [|discriminate].
  assert (b = true) as -> by (unfold sim_reply in Er; repeat case_decide; congruence).
  injection Hh as <- <-. pose proof (as_proto_received (@host_endian x86_64) 2 1 (blen (sim_text a)) ltac:(by destruct a)) as Hq.
  change (2 :: 1 :: be_bytes 6 (blen (sim_text a))) with (sim_header a) in Hq. rewrite Hp in Hq. cbn [fmap option_fmap option_map] in Hq.
  apply (inj Some) in Hq. rewrite Hq. cbn [proto_sz]. split; [by destruct a|]. intros body w2 Hb.
  unfold sim_recv in Hb. cbn [sim_next] in Hb. rewrite Z.eqb_refl in Hb. injection Hb as <- _.
  exists (sim_lines a). split; [done|]. split; [apply sim_tidy|]. split.
  - intros -> nv Hnv. vm_compute in Er. injection Er as <-. by injection Hnv as <-.
  - intros st msg m Hv. destruct a; vm_compute in Hv; injection Hv as <- <- <-; done.
Qed.

Lemma one_server_answers : @net_answers sim one_server.
Proof. by split. Qed.

Lemma sim_newborn : newborn sim_mem.
Proof. done. Qed.
Lemma sim_ready : tend_ready sample_stack sample_stack (cluster sim_mem).
Proof.
  assert (blen sample_stack = 16384) as Hb by (unfold sample_stack; rewrite length_replicate; done).
  split; [split; [exact Hb|done]|exact Hb].
Qed.
Lemma sim_roomy : roomy 1 [] (cluster sim_mem).
Proof. vm_compute. done. Qed.

Lemma sim_small : 2 + 2 * 8 * (blen [[97]] + 10) < 2 ^ 32.
Proof. done. Qed.

Lemma sim_np : 0 < 8 < 2 ^ 16.
Proof. done. Qed.
Lemma sim_K : 0 <= 10.
Proof. done. Qed.


