(* ===== verification/Fanout.v ===== *)
(** * Commands to many nodes

    Models the rest of [aerospike_scan.c], [aerospike_query.c] and [aerospike_batch.c]: a
    scan or a query of all nodes, a scan of one node, and a batch, whose keys are sorted by
    node.  What they need of the cluster beside the interface [Services] is the class
    [Fleet].

    The worker threads run the tasks of a call one at a time, in an order that is a
    parameter; the queues they are taken from and the threads themselves are not modelled.
    The command is one block that all tasks share, so that the timeout a retry writes into it
    is seen by the tasks that follow. *)

From S2P Require Import Prelude Counting ByteOrder Vector Value Msgpack Roundtrip Wire Socket Parse.
From S2P Require Import Node Partition Membership Client Execute Record Requests Stream.
Open Scope Z_scope.

Definition AEROSPIKE_ERR_SERVER : Z := 1.

Class Fleet (W : Type) := {
  fleet_services :: Services W;
  nodes_reserve : W -> ures (Z * list Z * W);
  nodes_release : W -> Z -> ures W;
  node_reserve : W -> Z -> ures W;
  node_by_name : W -> list Z -> ures (option Z * W);
  rand64 : W -> Z * W
}.

Section Nodes.
Context `{Fleet W}.

Fixpoint reserve_each (w : W) (ns : list Z) : ures W :=
  match ns with [] => URet w | n :: ns => let* w := node_reserve w n in reserve_each w ns end.
Fixpoint release_each (w : W) (ns : list Z) : ures W :=
  match ns with [] => URet w | n :: ns => let* w := as_node_release w n in release_each w ns end.

(** A task has only its node. *)
Definition given (node : Z) : as_command_node := mk_cn (Some node) [] [] REPLICA_MASTER false.

(** What scans and queries do around their tasks; [None] when there is no node. *)
Definition on_all_nodes {R} (w : W) (body : list Z -> W -> ures (R * W)) : ures (option R * W) :=
  let* (a, ns, w) := nodes_reserve w in
  match ns with
  | [] => let* w := nodes_release w a in URet (None, w)
  | _ =>
      let* w := reserve_each w ns in
      let* (r, w) := body ns w in
      let* w := release_each w ns in
      let* w := nodes_release w a in
      URet (Some r, w)
  end.

(** A running call: the services, the shared command, and what its tasks share besides. *)
Record fan (D : Type) := mk_fan { fan_w : W; fan_cmd : list Z; fan_data : D; fan_events : list event }.
Arguments mk_fan {D}.
Arguments fan_w {D}.
Arguments fan_cmd {D}.
Arguments fan_data {D}.
Arguments fan_events {D}.

Section Tasks.
Context {D : Type} (exec : Z -> fan D -> ures (Z * fan D)).

(** One node after the other, until one fails. *)
Fixpoint run_serial (ns : list Z) (status : Z) (x : fan D) : ures (Z * fan D) :=
  match ns with
  | [] => URet (status, x)
  | n :: ns => if status =? AEROSPIKE_OK then let* (status, x) := exec n x in run_serial ns status x else URet (status, x)
  end.

(** All nodes; the first failure counts. *)
Fixpoint run_tasks (ns : list Z) (status : Z) (x : fan D) : ures (Z * fan D) :=
  match ns with
  | [] => URet (status, x)
  | n :: ns =>
      let* (result, x) := exec n x in
      run_tasks ns (if negb (result =? AEROSPIKE_OK) && (status =? AEROSPIKE_OK) then result else status) x
  end.
End Tasks.

(** ** Tasks *)

(** What the threads of a call share: the program's state, the flag and the error of the
    one that failed first. *)
Record shared (U : Type) := mk_shared { sh_user : U; sh_mutex : Z; sh_error : as_error }.
Arguments mk_shared {U}.
Arguments sh_user {U}.
Arguments sh_mutex {U}.
Arguments sh_error {U}.

(** [ck_pr_fas_32(task->error_mutex, 1)], and the copy of the error. *)
Definition note_failure {U} (status : Z) (err : as_error) (sh : shared U) : shared U :=
  if status =? 0 then sh
  else if sh_mutex sh =? 0 then mk_shared (sh_user sh) 1 err else mk_shared (sh_user sh) 1 (sh_error sh).

(** [err] is not initialised. *)
Definition execute_on `{Platform} {U} (parse : W -> Z -> Z -> as_error -> shared U -> ures (Z * as_error * shared U * W))
    (err : as_error) (timeout : Z) (node : Z) (x : fan (shared U)) : ures (Z * fan (shared U)) :=
  let* (status, e) := as_command_execute parse (fan_w x) err (given node) (fan_cmd x)
                        timeout RETRY_NONE (fan_data x) in
  URet (status, mk_fan (x_w e) (x_command e) (note_failure status (x_err e) (x_data e)) (fan_events x ++ x_trace e)).
End Nodes.

Arguments mk_fan {W D}.
Arguments fan_w {W D}.
Arguments fan_cmd {W D}.
Arguments fan_data {W D}.
Arguments fan_events {W D}.
Arguments mk_shared {U}.
Arguments sh_user {U}.
Arguments sh_mutex {U}.
Arguments sh_error {U}.

Definition with_user {U} (sh : shared U) (u : U) : shared U := mk_shared u (sh_mutex sh) (sh_error sh).
Definition flag {U} (sh : shared U) : Z * shared U := (sh_mutex sh, sh).

(** A callback of the program on the shared state. *)
Definition shared_call {A U} (callback : A -> U -> bool * U) (a : A) (sh : shared U) : bool * shared U :=
  let '(rv, u) := callback a (sh_user sh) in (rv, with_user sh u).

Section Fanout.
Context `{Platform} `{Fleet W} {U : Type}.
Context (hpux : bool) (uninit : Z -> list Z) (ripemd160 : list Z -> list Z).
Context (fuel groups : nat) (clepoch : Z) (uninit_bins : Z -> list as_bin) (uninit_err : as_error).

(** ** Scans *)

Record as_policy_scan := mk_policy_scan { scan_timeout : Z; fail_on_cluster_change : bool }.

(** [None] is the NULL that says that the scan is complete. *)
Definition scan_callback : Type := option (option as_record -> U -> bool * U).

Definition scan_fn (callback : scan_callback) (deserialize : bool) (w : W) (fd deadline : Z) (err : as_error) (sh : shared U)
  : ures (Z * as_error * shared U * W) :=
  as_scan_parse fuel clepoch uninit_bins flag ((fun f => shared_call (fun rec => f (Some rec))) <$> callback) deserialize
    (H0 := fd_reader fd deadline) groups w err sh.

Definition as_scan_command_execute (callback : scan_callback) (scan : as_scan) (policy : as_policy_scan) : Z -> fan (shared U) -> ures (Z * fan (shared U)) :=
  execute_on (scan_fn callback (scan_deserialize scan)) uninit_err (scan_timeout policy).

(** The callback that signals completion. *)
Definition complete (callback : scan_callback) (status : Z) (u : U) : U :=
  match callback with Some f => if status =? AEROSPIKE_OK then (f None u).2 else u | None => u end.

(** The id: a new one unless the program gives one. *)
Definition pick_task_id (w : W) (given : option Z) : Z * option Z * W :=
  match given with
  | Some id => if id =? 0 then let '(r, w) := rand64 w in (r / 2, Some (r / 2), w) else (id, Some id, w)
  | None => let '(r, w) := rand64 w in (r / 2, None, w)
  end.

(** The status, the error, the id, the program's state, the services and the events. *)
Definition as_scan_generic (order : list Z -> list Z) (config : as_policy_scan) (w : W) (policy : option as_policy_scan) (scan : as_scan)
    (callback : scan_callback) (u : U) (task_id_ptr : option Z) : ures (Z * as_error * option Z * U * W * list event) :=
  let policy := default config policy in
  let* (r, w) := on_all_nodes w (fun ns w =>
    let '(task_id, ptr, w) := pick_task_id w task_id_ptr in
    let* cmd := lift (scan_command hpux uninit (scan_timeout policy) (fail_on_cluster_change policy) scan task_id) in
    let x := mk_fan w cmd (mk_shared u 0 no_error) [] in
    let exec := as_scan_command_execute callback scan policy in
    let* (status, x) := if scan_concurrent scan then run_tasks exec (order ns) AEROSPIKE_OK x
                        else run_serial exec ns AEROSPIKE_OK x in
    URet (status, fan_data x, ptr, fan_events x, fan_w x)) in
  match r with
  | None => URet (AEROSPIKE_ERR_SERVER, mk_error AEROSPIKE_ERR_SERVER MEmptyCluster, task_id_ptr, u, w, [])
  | Some (status, sh, ptr, evs) => URet (status, sh_error sh, ptr, complete callback status (sh_user sh), w, evs)
  end.

Definition aerospike_scan_foreach (order : list Z -> list Z) (config : as_policy_scan) (w : W) (policy : option as_policy_scan)
    (scan : as_scan) (callback : scan_callback) (u : U) : ures (Z * as_error * option Z * U * W * list event) :=
  as_scan_generic order config w policy scan callback u None.

Definition aerospike_scan_background (order : list Z -> list Z) (config : as_policy_scan) (w : W) (policy : option as_policy_scan)
    (scan : as_scan) (u : U) (scan_id : option Z) : ures (Z * as_error * option Z * U * W * list event) :=
  as_scan_generic order config w policy scan None u scan_id.

Definition aerospike_scan_node (config : as_policy_scan) (w : W) (policy : option as_policy_scan) (scan : as_scan) (name : list Z)
    (callback : scan_callback) (u : U) : ures (Z * as_error * U * W * list event) :=
  let policy := default config policy in
  let* (node, w) := node_by_name w name in
  match node with
  | None => URet (AEROSPIKE_ERR_PARAM, mk_error AEROSPIKE_ERR_PARAM (MInvalidNode name), u, w, [])
  | Some n =>
      let '(r, w) := rand64 w in
      let* cmd := lift (scan_command hpux uninit (scan_timeout policy) (fail_on_cluster_change policy) scan (r / 2)) in
      let* (status, x) := as_scan_command_execute callback scan policy n (mk_fan w cmd (mk_shared u 0 no_error) []) in
      let* w := as_node_release (fan_w x) n in
      URet (status, sh_error (fan_data x), complete callback status (sh_user (fan_data x)), w, fan_events x)
  end.

(** ** Queries *)

(** [None] is the NULL that says that the query is complete. *)
Definition query_callback (V : Type) : Type := option (option query_item -> V -> bool * V).

Definition query_fn {V} (callback : query_callback V) (aggregate : bool) (w : W) (fd deadline : Z) (err : as_error) (sh : shared V)
  : ures (Z * as_error * shared V * W) :=
  as_query_parse fuel clepoch uninit_bins flag ((fun f => shared_call (fun item => f (Some item))) <$> callback) aggregate
    (H0 := fd_reader fd deadline) groups w err sh.

Definition as_query_command_execute {V} (callback : query_callback V) (aggregate : bool) (timeout : Z)
  : Z -> fan (shared V) -> ures (Z * fan (shared V)) :=
  execute_on (query_fn callback aggregate) uninit_err timeout.

(** The callback that signals completion is called without looking whether there is one. *)
Definition as_query_execute {V} (order : list Z -> list Z) (timeout : Z) (q : as_query) (callback : query_callback V) (aggregate : bool)
    (ns : list Z) (task_id : Z) (w : W) (v : V) : ures (Z * shared V * list event * W) :=
  let* cmd := lift (query_command hpux uninit timeout q task_id) in
  let* (status, x) := run_tasks (as_query_command_execute callback aggregate timeout) (order ns) AEROSPIKE_OK
                        (mk_fan w cmd (mk_shared v 0 no_error) []) in
  if status =? AEROSPIKE_OK then
    let* f := lift callback in
    URet (status, with_user (fan_data x) (f None (sh_user (fan_data x))).2, fan_events x, fan_w x)
  else URet (status, fan_data x, fan_events x, fan_w x).

(** The stream that collects the values of all nodes is a queue.  What is read is pushed back,
    so that it can be destroyed; the NULL behind all values ends the stream. *)
Definition as_queue_stream_write (stream : list (option as_val)) (val : option as_val) : list (option as_val) := stream ++ [val].
Definition as_queue_stream_read (stream : list (option as_val)) : option as_val * list (option as_val) :=
  match stream with [] => (None, []) | val :: stream => (val, stream ++ [val]) end.

Definition as_query_aggregate_callback (item : option query_item) (stream : list (option as_val)) : bool * list (option as_val) :=
  (true, as_queue_stream_write stream match item with Some (ItemValue v) => v | _ => None end).

(** [as_module_apply_stream]: the status, the value of the result, and the program's state
    after its callback was given what the function writes. *)
Context (apply_stream : as_udf_call -> list (option as_val) -> U -> Z * option as_val * U).

Definition aerospike_query_foreach (order : list Z -> list Z) (config : Z) (w : W) (policy : option Z) (q : as_query)
    (callback : query_callback U) (u : U) : ures (Z * as_error * U * W * list event) :=
  let timeout := default config policy in
  let* (r, w) := on_all_nodes w (fun ns w =>
    let '(r, w) := rand64 w in
    if has_function (query_apply q) then
      let* (status, sh, evs, w) := as_query_execute order timeout q (Some as_query_aggregate_callback) true ns (r / 2) w [] in
      if status =? AEROSPIKE_OK then
        let '(rc, value, u) := apply_stream (query_apply q) (sh_user sh) u in
        URet (if rc =? 0 then (rc, sh_error sh, u, evs)
              else (AEROSPIKE_ERR_UDF, mk_error AEROSPIKE_ERR_UDF (MStreamFailed rc value), u, evs), w)
      else URet (status, sh_error sh, u, evs, w)
    else
      let* (status, sh, evs, w) := as_query_execute order timeout q callback false ns (r / 2) w u in
      URet (status, sh_error sh, sh_user sh, evs, w)) in
  match r with
  | None => URet (AEROSPIKE_ERR_SERVER, mk_error AEROSPIKE_ERR_SERVER MEmptyCluster, u, w, [])
  | Some (status, err, u, evs) => URet (status, err, u, w, evs)
  end.

(** ** Batches *)

(** The keys of a node: NULL when the cluster had none to give. *)
Record as_batch_node := mk_batch_node { bn_node : option Z; bn_offsets : as_vector Z }.

Fixpoint as_batch_node_find (batch_nodes : list as_batch_node) (node : option Z) (i : nat) : option nat :=
  match batch_nodes with
  | [] => None
  | b :: batch_nodes => if decide (bn_node b = node) then Some i else as_batch_node_find batch_nodes node (S i)
  end.

Definition release_node (w : W) (node : option Z) : ures W := let* n := lift node in as_node_release w n.

Fixpoint as_batch_release_nodes (w : W) (batch_nodes : list as_batch_node) : ures W :=
  match batch_nodes with
  | [] => URet w
  | b :: batch_nodes => let* w := release_node w (bn_node b) in as_batch_release_nodes w batch_nodes
  end.

(** The body of the loop over the keys, from the node on; [n_nodes] is the length of the
    array. *)
Definition batch_add (n_nodes capacity : Z) (i : Z) (node : option Z) (w : W) (batch_nodes : list as_batch_node)
  : ures (list as_batch_node * W) :=
  match as_batch_node_find batch_nodes node 0 with
  | Some k =>
      let* w := release_node w node in
      let* b := lift (batch_nodes !! k) in
      let* offsets := lift (as_vector_append true (bn_offsets b) i) in
      URet (<[k := mk_batch_node node offsets]> batch_nodes, w)
  | None =>
      if n_nodes <=? blen batch_nodes then UB
      else
        let* offsets := lift (as_vector_append true (as_vector_inita 4 capacity) i) in
        URet (batch_nodes ++ [mk_batch_node node offsets], w)
  end.

Inductive batch_mapped :=
  | Mapped (keys : list as_key) (batch_nodes : list as_batch_node)
  | Refused_batch (status : Z) (err : as_error) (keys : list as_key) (batch_nodes : list as_batch_node).

(** The loop: [done] are the keys before [i], with their digests. *)
Fixpoint map_keys (n_nodes capacity : Z) (ns : list Z) (done todo : list as_key) (w : W) (batch_nodes : list as_batch_node)
  : ures (batch_mapped * W) :=
  match todo with
  | [] => URet (Mapped done batch_nodes, w)
  | key :: todo =>
      if negb (bool_decide (c_str ns = c_str (key_ns key)))
      then URet (Refused_batch AEROSPIKE_ERR_PARAM (mk_error AEROSPIKE_ERR_PARAM MOtherNamespace) (done ++ key :: todo) batch_nodes, w)
      else
        let* (status, key) := lift (as_key_set_digest ripemd160 key) in
        if negb (status =? AEROSPIKE_OK)
        then URet (Refused_batch status (mk_error status (MInvalidKey (default 0 (as_val_type <$> key_valuep key))))
                     (done ++ key :: todo) batch_nodes, w)
        else
          let* (node, w) := as_node_get w (mk_cn None (key_ns key) (digest_value key) REPLICA_MASTER false) in
          let* (batch_nodes, w) := batch_add n_nodes capacity (blen done) node w batch_nodes in
          map_keys n_nodes capacity ns (done ++ [key]) todo w batch_nodes
  end.

Definition batch_fn (offsets : as_vector Z) (keys : list as_key) (w : W) (fd deadline : Z) (err : as_error) (task : batch_progress)
  : ures (Z * as_error * batch_progress * W) :=
  as_batch_parse fuel clepoch uninit_bins offsets keys (H0 := fd_reader fd deadline) groups w err task.

(** A batch node without a node would have the loop look one up for a namespace and a digest
    that were never set. *)
Definition as_batch_command_execute (ns : list Z) (keys : list as_key) (read_attr timeout : Z) (b : as_batch_node) (w : W)
    (sh : shared (list as_batch_read)) : ures (Z * shared (list as_batch_read) * list event * W) :=
  let* node := lift (bn_node b) in
  let* cmd := lift (batch_command uninit ns (bn_offsets b) keys read_attr timeout) in
  let* (status, x) := as_command_execute (batch_fn (bn_offsets b) keys) w uninit_err (given node) cmd
                        timeout RETRY_NONE (mk_progress 0 (sh_user sh)) in
  URet (status, note_failure status (x_err x) (with_user sh (task_results (x_data x))), x_trace x, x_w x).

Fixpoint run_batches (ns : list Z) (keys : list as_key) (read_attr timeout : Z) (tasks : list as_batch_node) (status : Z) (w : W)
    (sh : shared (list as_batch_read)) (evs : list event) : ures (Z * shared (list as_batch_read) * list event * W) :=
  match tasks with
  | [] => URet (status, sh, evs, w)
  | b :: tasks =>
      let* (result, sh, t, w) := as_batch_command_execute ns keys read_attr timeout b w sh in
      run_batches ns keys read_attr timeout tasks
        (if negb (result =? AEROSPIKE_OK) && (status =? AEROSPIKE_OK) then result else status) w sh (evs ++ t)
  end.

(** The average number of keys, and a quarter. *)
Definition offsets_capacity (n_keys n_nodes : Z) : Z := let c := n_keys / n_nodes in u32 (c + Z.shiftr c 2).

(** From the nodes to the end of the tasks.  The keys have their digests, and the results are
    there unless the call was refused.  [mutex] is what the flag, which is not initialised,
    holds. *)
Definition batch_run (order : list as_batch_node -> list as_batch_node) (mutex timeout read_attr : Z) (first : as_key) (keys : list as_key) (w : W)
  : ures (Z * as_error * list as_key * option (list as_batch_read) * W * list event) :=
  let* (a, nodes, w) := nodes_reserve w in
  match nodes with
  | [] => let* w := nodes_release w a in
          URet (AEROSPIKE_ERR_SERVER, mk_error AEROSPIKE_ERR_SERVER MEmptyCluster, keys, None, w, [])
  | _ =>
      let* (m, w) := map_keys (blen nodes) (offsets_capacity (blen keys) (blen nodes)) (key_ns first) [] keys w [] in
      match m with
      | Refused_batch status err keys batch_nodes =>
          let* w := as_batch_release_nodes w batch_nodes in
          let* w := nodes_release w a in
          URet (status, err, keys, None, w, [])
      | Mapped keys batch_nodes =>
          let* w := nodes_release w a in
          let results := map (fun key => mk_read key AEROSPIKE_ERR_RECORD_NOT_FOUND None) keys in
          let* (status, sh, evs, w) := run_batches (key_ns first) keys read_attr timeout (order batch_nodes) AEROSPIKE_OK w
                                         (mk_shared results mutex no_error) [] in
          let* w := as_batch_release_nodes w batch_nodes in
          URet (status, sh_error sh, keys, Some (sh_user sh), w, evs)
      end
  end.

(** [as_record_destroy] on every result: undefined on a record that was never initialised. *)
Definition as_batch_execute (order : list as_batch_node -> list as_batch_node) (mutex config : Z) (w : W) (policy : option Z)
    (batch : as_batch) (callback : option (list as_batch_read) -> U -> U) (u : U) (read_attr : Z)
  : ures (Z * as_error * list as_key * U * W * list event) :=
  let keys := take (Z.to_nat (batch_size batch)) (batch_keys batch) in
  match keys with
  | [] => URet (AEROSPIKE_OK, no_error, keys, callback None u, w, [])
  | first :: _ =>
      let* (status, err, keys, results, w, evs) := batch_run order mutex (default config policy) read_attr first keys w in
      match results with
      | None => URet (status, err, keys, u, w, evs)
      | Some results =>
          let u := callback (Some results) u in
          if forallb (fun r => bool_decide (is_Some (read_record r))) results
          then URet (status, err, keys, u, w, evs) else UB
      end
  end.

Definition aerospike_batch_get (order : list as_batch_node -> list as_batch_node) (mutex config : Z) (w : W) (policy : option Z)
    (batch : as_batch) (callback : option (list as_batch_read) -> U -> U) (u : U) :=
  as_batch_execute order mutex config w policy batch callback u (Z.lor AS_MSG_INFO1_READ AS_MSG_INFO1_GET_ALL).

Definition aerospike_batch_exists (order : list as_batch_node -> list as_batch_node) (mutex config : Z) (w : W) (policy : option Z)
    (batch : as_batch) (callback : option (list as_batch_read) -> U -> U) (u : U) :=
  as_batch_execute order mutex config w policy batch callback u (Z.lor AS_MSG_INFO1_READ AS_MSG_INFO1_GET_NOBINDATA).
End Fanout.

(** ** Tours of the nodes *)

(** The first status that is not OK. *)
Fixpoint first_failure (l : list Z) : Z :=
  match l with [] => AEROSPIKE_OK | st :: l => if st =? AEROSPIKE_OK then first_failure l else st end.

(** The nodes that were asked, with their status: each in a session of at most two attempts
    of its own, with its message of [f] and some timeout. *)
Inductive tour `{Platform} (f : Z -> Z -> list Z) (timeout : Z) : list (Z * Z) -> list event -> Prop :=
  | Tour_nil : tour f timeout [] []
  | Tour_node n st command k t l evs :
      timed (f n) timeout command -> session false st command k t -> Z.of_nat k <= 2 -> Forall (at_node (given n)) t ->
      tour f timeout l evs -> tour f timeout ((n, st) :: l) (t ++ evs).

(** Which of [ns] are asked one after the other: all of them up to one that fails. *)
Definition until_failure (ns : list Z) (l : list (Z * Z)) : Prop :=
  (exists rest, ns = map fst l ++ rest /\ (rest = [] \/ first_failure (map snd l) <> AEROSPIKE_OK))
  /\ Forall (fun p => snd p = AEROSPIKE_OK) (removelast l).

Section FanProofs.
Context `{Platform} `{Fleet W}.

(** What the cluster promises to a call that asks all its nodes: [idle] holds while the call
    has nothing, [holding a refs] while it has the array [a] and one reference to each of
    [refs].  The nodes of the array are [members]. *)
Record keeps (answers : Prop) (members : list Z) (idle : W -> Prop) (holding : Z -> list Z -> W -> Prop) : Prop := {
  k_once : NoDup members;
  k_nodes w : idle w ->
    settles answers (nodes_reserve w) (fun r => let '(a, ns, w') := r in ns = members /\ holding a [] w');
  k_reserve a refs n w : holding a refs w -> n ∈ members -> n ∉ refs -> settles answers (node_reserve w n) (holding a (refs ++ [n]));
  k_release a n refs w : holding a (n :: refs) w -> settles answers (as_node_release w n) (holding a refs);
  k_done a w : holding a [] w -> settles answers (nodes_release w a) idle;
  k_rand a refs w : holding a refs w -> holding a refs (snd (rand64 w))
}.

(** The node and the connection of a task, while the call is in a state of [I]. *)
Definition at_work (n : Z) (I : W -> Prop) (w : W) (m : Z) : Prop := m = n /\ I w.

(** A task can run in the states of [I]. *)
Definition task_safe {D} (parse : W -> Z -> Z -> as_error -> D -> ures (Z * as_error * D * W)) (answers : Prop) (I : W -> Prop) (n : Z) : Prop :=
  promise parse answers (given n) I (at_work n I) (fun w m _ => at_work n I w m).

Section Kept.
Context (answers : Prop) (members : list Z) (idle : W -> Prop) (holding : Z -> list Z -> W -> Prop).
Context (K : keeps answers members idle holding).

Lemma reserve_each_ok a refs todo w :
  holding a refs w -> NoDup (refs ++ todo) -> Forall (fun n => n ∈ members) todo ->
  settles answers (reserve_each w todo) (holding a (refs ++ todo)).
Proof.
  revert refs w. induction todo as [|n todo IH]; intros refs w Hh Hnd Hin; cbn [reserve_each]; [by rewrite app_nil_r|].
  apply Forall_cons in Hin as [Hn Hin]. eapply settles_then; [apply (k_reserve _ _ _ _ K _ _ _ _ Hh Hn)|].
  - apply NoDup_app in Hnd as (_ & Hno & _). intros Hr. apply (Hno _ Hr). by left.
  - intros w' Hw'. replace (refs ++ n :: todo) with ((refs ++ [n]) ++ todo) in * by (by rewrite <- app_assoc). by apply IH.
Qed.

Lemma release_each_ok a refs w : holding a refs w -> settles answers (release_each w refs) (holding a []).
Proof.
  revert w. induction refs as [|n refs IH]; intros w Hh; cbn [release_each]; [done|].
  eapply settles_then; [by apply (k_release _ _ _ _ K _ _ _ _ Hh)|]. apply IH.
Qed.

(** All that was taken is given back. *)
Lemma on_all_nodes_ok {R} (Q : R -> Prop) w (body : list Z -> W -> ures (R * W)) :
  idle w ->
  (forall a w, holding a members w -> settles answers (body members w) (fun r => Q (fst r) /\ holding a members (snd r))) ->
  settles answers (on_all_nodes w body) (fun r =>
    idle (snd r) /\ match fst r with Some x => members <> [] /\ Q x | None => members = [] end).
Proof.
  intros Hw Hb. unfold on_all_nodes. eapply settles_then; [by apply (k_nodes _ _ _ _ K)|].
  intros [[a ns] w1] [-> Hh]. destruct members as [|n ms] eqn:Em in |- *.
  { eapply settles_then; [by apply (k_done _ _ _ _ K _ _ Hh)|]. done. }
  rewrite <- Em. eapply settles_then; [apply (reserve_each_ok _ [] members _ Hh); [apply (k_once _ _ _ _ K)|by apply Forall_forall]|].
  intros w2 Hh2. eapply settles_then; [by apply Hb|]. intros [r w3] [HQ Hh3]. cbn [fst snd] in *.
  eapply settles_then; [by apply (release_each_ok a members)|]. intros w4 Hh4.
  eapply settles_then; [by apply (k_done _ _ _ _ K _ _ Hh4)|]. intros w5 Hw5. by rewrite Em.
Qed.
End Kept.

(** ** Running the tasks *)

(** A message in which the timeout is left open. *)
Definition open_message (f : Z -> list Z) : Prop :=
  exists i1 i2 i3 gen ttl nf nops body, forall ms, f ms = timed_message i1 i2 i3 gen ttl nf nops body ms.

Lemma open_long f ms : open_message f -> 26 <= blen (f ms).
Proof.
  intros (i1 & i2 & i3 & gen & ttl & nf & nops & body & ->). unfold timed_message, wire_message.
  rewrite !length_app, wire_header_length, be_bytes_length. simpl. lia.
Qed.

Lemma open_retimed f timeout c c' : open_message f -> timed f timeout c -> retimed c c' -> timed f timeout c'.
Proof.
  intros (i1 & i2 & i3 & gen & ttl & nf & nops & body & Hf) (ms & -> & Hms) Hr. rewrite Hf in Hr.
  apply (retimed_timed i1 i2 i3 gen ttl nf nops body timeout) in Hr as (k & -> & Hk); [exists k; by rewrite Hf|by exists ms].
Qed.

Section Running.
Context (f : Z -> list Z) (timeout : Z) (f_open : open_message f).
Context (answers : Prop) (I : W -> Prop).

(** A call between two tasks. *)
Definition between {D} (x : fan (W := W) D) : Prop := I (fan_w x) /\ timed f timeout (fan_cmd x).

(** One task. *)
Definition asked {D} (n : Z) (x : fan (W := W) D) (r : Z * fan (W := W) D) : Prop :=
  between (snd r) /\ exists command k t, fan_events (snd r) = fan_events x ++ t /\ timed f timeout command
    /\ session false (fst r) command k t /\ Z.of_nat k <= 2 /\ Forall (at_node (given n)) t.

Lemma execute_on_ok {U} (parse : W -> Z -> Z -> as_error -> shared U -> ures (Z * as_error * shared U * W)) err tmo n x :
  task_safe parse answers I n -> between x -> settles answers (execute_on parse err tmo n x) (asked n x).
Proof.
  intros P [Hx Hc]. unfold execute_on. apply settles_bind.
  assert (26 <= blen (fan_cmd x)) as Hl by (destruct Hc as (ms & -> & _); by apply open_long).
  eapply settles_eq; [exact (execute_settles parse _ _ _ _ (fan_w x) err (given n) (fan_cmd x) tmo RETRY_NONE (fan_data x) P Hx Hl)|].
  intros [st e] He [Hi _]. cbn [fst snd] in Hi.
  apply (execute_facts parse (timed f timeout)) in He as (k & Hk & Hs & Hat & Hcmd); [|by intros c c'; apply open_retimed|done].
  split; [by split|]. exists (fan_cmd x), k, (x_trace e). by split_and!.
Qed.

Lemma run_tasks_ok {D} (exec : Z -> fan (W := W) D -> ures (Z * fan (W := W) D)) ns status x :
  (forall n x, n ∈ ns -> between x -> settles answers (exec n x) (asked n x)) -> between x ->
  settles answers (run_tasks exec ns status x) (fun r =>
    between (snd r) /\ exists l evs, map fst l = ns /\ tour (fun _ => f) timeout l evs /\ fan_events (snd r) = fan_events x ++ evs
      /\ fst r = if status =? AEROSPIKE_OK then first_failure (map snd l) else status).
Proof.
  revert status x. induction ns as [|n ns IH]; intros status x Hex Hx; cbn [run_tasks].
  { split; [done|]. exists [], []. split_and!; [done|constructor|by rewrite app_nil_r|].
    cbn [fst first_failure map]. by destruct (Z.eqb_spec status AEROSPIKE_OK). }
  eapply settles_then; [apply Hex; [by left|done]|]. intros [st x1] (Hx1 & c & k & t & Hev & Hc & Hs & Hk & Hat). cbn [fst snd] in *.
  eapply settles_mono; [apply IH; [|exact Hx1]|done|].
  { intros m y Hm. apply Hex. by right. }
  intros r (Hr & l & evs & Hl & Ht & Hev' & Hst). split; [done|]. exists ((n, st) :: l), (t ++ evs). cbn [map fst snd].
  split_and!; [by rewrite Hl|by econstructor|by rewrite Hev', Hev, app_assoc|]. rewrite Hst. cbn [first_failure].
  destruct (st =? AEROSPIKE_OK) eqn:E1; cbn [negb andb]; [done|]. destruct (status =? AEROSPIKE_OK) eqn:E2; [by rewrite E1|by rewrite E2].
Qed.

Lemma run_serial_ok {D} (exec : Z -> fan (W := W) D -> ures (Z * fan (W := W) D)) ns x :
  (forall n x, n ∈ ns -> between x -> settles answers (exec n x) (asked n x)) -> between x ->
  settles answers (run_serial exec ns AEROSPIKE_OK x) (fun r =>
    between (snd r) /\ exists l evs, until_failure ns l /\ tour (fun _ => f) timeout l evs /\ fan_events (snd r) = fan_events x ++ evs
      /\ fst r = first_failure (map snd l)).
Proof.
  revert x. induction ns as [|n ns IH]; intros x Hex Hx; cbn [run_serial].
  { split; [done|]. exists [], []. split_and!; [|constructor|by rewrite app_nil_r|done]. split; [|constructor]. exists []. by split; [|left]. }
  rewrite Z.eqb_refl. eapply settles_then; [apply Hex; [by left|done]|].
  intros [st x1] (Hx1 & c & k & t & Hev & Hc & Hs & Hk & Hat). cbn [fst snd] in *.
  destruct (Z.eqb_spec st AEROSPIKE_OK) as [->|Hst].
  - eapply settles_mono; [apply IH; [|exact Hx1]|done|].
    { intros m y Hm. apply Hex. by right. }
    intros r (Hr & l & evs & ((rest & Hl & Hrest) & Hall) & Ht & Hev' & Hst). split; [done|]. exists ((n, AEROSPIKE_OK) :: l), (t ++ evs).
    split_and!; [|by econstructor|by rewrite Hev', Hev, app_assoc|done]. split.
    + exists rest. split; [by rewrite Hl|done].
    + destruct l as [|p l]; [constructor|]. by constructor.
  - assert (run_serial exec ns st x1 = URet (st, x1)) as ->.
    { destruct ns; cbn [run_serial]; [done|]. by rewrite (proj2 (Z.eqb_neq _ _) Hst). }
    assert (first_failure [st] = st) as Hff by (cbn; by rewrite (proj2 (Z.eqb_neq _ _) Hst)).
    split; [done|]. exists [(n, st)], (t ++ []). split_and!; [|econstructor; [done..|constructor]|by rewrite app_nil_r|done].
    split; [|constructor]. exists ns. split; [done|right]. cbn [map snd]. by rewrite Hff.
Qed.
End Running.
End FanProofs.

(** ** Scans and queries of all nodes *)

Section Tours.
Context `{Platform} `{Fleet W} {U : Type}.
Context (hpux : bool) (hpux_big : hpux = true -> host_endian = BigEndian) (uninit : Z -> list Z) (uninit_size : block_size uninit).
Context (fuel groups : nat) (clepoch : Z) (uninit_bins : Z -> list as_bin) (uninit_err : as_error).
Context (answers : Prop) (members : list Z) (idle : W -> Prop) (holding : Z -> list Z -> W -> Prop).
Context (K : keeps answers members idle holding).
Context (order : list Z -> list Z) (order_all : forall ns, order ns ≡ₚ ns).

(** The id of a scan: the program's, when it has one, which is told what it is. *)
Definition id_for (task_id_ptr : option Z) (id : Z) (told : option Z) : Prop :=
  told = (fun _ => id) <$> task_id_ptr /\ (forall k, task_id_ptr = Some k -> k <> 0 -> id = k).

Lemma pick_task_id_ok a refs w ptr :
  holding a refs w -> let '(id, told, w') := pick_task_id w ptr in id_for ptr id told /\ holding a refs w'.
Proof.
  intros Hw. pose proof (k_rand _ _ _ _ K _ _ _ Hw) as Hr. unfold pick_task_id. destruct ptr as [k|].
  - destruct (Z.eqb_spec k 0) as [->|Hk]; [|split; [split; [done|congruence]|done]].
    destruct (rand64 w) as [r w']. split; [split; [done|congruence]|done].
  - destruct (rand64 w) as [r w']. by split.
Qed.

(** The scan of all nodes, and what the program is told. *)
Definition scan_asks (policy : as_policy_scan) (scan : as_scan) (task_id_ptr : option Z) (status : Z) (told : option Z) (evs : list event) : Prop :=
  exists id l, id_for task_id_ptr id told
    /\ tour (fun _ ms => scan_request ms (fail_on_cluster_change policy) scan id) (scan_timeout policy) l evs
    /\ status = first_failure (map snd l)
    /\ if scan_concurrent scan then map fst l = order members else until_failure members l.

Lemma scan_tour config w policy scan (callback : scan_callback (U := U)) u ptr :
  scan_ok scan -> select_ok (scan_select scan) ->
  (forall a n, n ∈ members ->
    task_safe (scan_fn fuel groups clepoch uninit_bins callback (scan_deserialize scan)) answers (holding a members) n) ->
  idle w ->
  settles answers (as_scan_generic hpux uninit fuel groups clepoch uninit_bins uninit_err order config w policy scan callback u ptr) (fun r =>
    let '(status, err, told, u', w', evs) := r in
    idle w' /\ if decide (members = []) then status = AEROSPIKE_ERR_SERVER /\ told = ptr /\ u' = u /\ evs = []
               else scan_asks (default config policy) scan ptr status told evs).
Proof.
  intros Hscan Hsel Hsafe Hw. unfold as_scan_generic. set (pol := default config policy).
  eapply settles_then; [eapply (on_all_nodes_ok answers members idle holding K (fun r =>
    let '(status, sh, told, evs) := r in scan_asks pol scan ptr status told evs)); [done|]|].
  - clear w Hw. intros a w Hw. pose proof (pick_task_id_ok a members w ptr Hw) as Hid. destruct (pick_task_id w ptr) as [[id told] w1].
    destruct Hid as [Hid Hw1]. rewrite (scan_message hpux hpux_big) by (done || apply Hscan || by apply scan_body_limit). cbn [lift ubind].
    set (f := fun ms => scan_request ms (fail_on_cluster_change pol) scan id).
    set (exec := as_scan_command_execute _ _ _ _ _ callback scan pol). set (x := mk_fan w1 _ _ _).
    assert (forall n x, n ∈ members -> between f (scan_timeout pol) (holding a members) x ->
      settles answers (exec n x) (asked f (scan_timeout pol) (holding a members) n x)) as Hex.
    { intros n y Hn Hy. apply execute_on_ok; [by do 8 eexists|by apply Hsafe|done]. }
    assert (between f (scan_timeout pol) (holding a members) x) as Hx by (split; [done|]; exists (scan_timeout pol); split; [done|by left]).
    eapply settles_then; [|].
    { eapply (settles_mono answers answers _ (fun r => between f (scan_timeout pol) (holding a members) (snd r)
        /\ scan_asks pol scan ptr (fst r) told (fan_events (snd r)))); [|done|intros r Hr; exact Hr].
      destruct (scan_concurrent scan) eqn:Econc.
      - eapply settles_mono; [eapply run_tasks_ok; [|exact Hx]|done|].
        + intros n y Hn. apply Hex. by rewrite <- (order_all members).
        + intros r (Hr & l & evs & Hl & Ht & Hev & Hst). split; [done|]. exists id, l. rewrite Hev, Econc. by split_and!.
      - eapply settles_mono; [eapply run_serial_ok; [exact Hex|exact Hx]|done|].
        intros r (Hr & l & evs & Hl & Ht & Hev & Hst). split; [done|]. exists id, l. rewrite Hev, Econc. by split_and!. }
    intros [status y] [[Hy _] Hq]. by split.
  - intros [[[[[status sh] told] evs]|] w'] [Hi Hm]; cbn [fst snd settles] in *.
    + destruct Hm as [Hne HQ]. rewrite decide_False by done. by split.
    + rewrite decide_True by done. by split_and!.
Qed.

(** A query of all nodes. *)
Definition query_asks (timeout : Z) (q : as_query) (status : Z) (evs : list event) : Prop :=
  exists id l, tour (fun _ ms => query_request ms q id) timeout l evs /\ status = first_failure (map snd l) /\ map fst l = order members.

(** A query that can be sent. *)
Definition query_fits (q : as_query) : Prop :=
  query_ok q /\ forall id, blen (wire_fields (query_fields q id) ++ wire_names (query_names q)) < 2 ^ 32.

Lemma query_execute_ok {V} timeout q (f : option query_item -> V -> bool * V) aggregate id a w v :
  query_fits q ->
  (forall n, n ∈ members -> task_safe (query_fn fuel groups clepoch uninit_bins (Some f) aggregate) answers (holding a members) n) ->
  holding a members w ->
  settles answers (as_query_execute hpux uninit fuel groups clepoch uninit_bins uninit_err order timeout q (Some f) aggregate members id w v)
    (fun r => let '(status, sh, evs, w') := r in query_asks timeout q status evs /\ holding a members w').
Proof.
  intros [Hq Hlen] Hsafe Hw. unfold as_query_execute. rewrite (query_message hpux hpux_big) by done. cbn [lift ubind].
  set (m := fun ms => query_request ms q id).
  eapply settles_then; [eapply (run_tasks_ok m timeout answers (holding a members))|].
  - intros n x Hn. apply execute_on_ok; [by do 8 eexists|]. apply Hsafe. by rewrite <- (order_all members).
  - split; [done|]. exists timeout. split; [done|by left].
  - intros [status x] ([Hx _] & l & evs & Hl & Ht & Hev & Hst). cbn [fst snd] in *.
    assert (query_asks timeout q status (fan_events x)) as Hask by (exists id, l; rewrite Hev; by split_and!).
    by destruct (status =? AEROSPIKE_OK).
Qed.

(** What the program is told: the status of the nodes, or that the function of an
    aggregation failed on what they sent. *)
Definition query_answers (timeout : Z) (q : as_query) (status : Z) (evs : list event) : Prop :=
  if has_function (query_apply q)
  then exists st, query_asks timeout q st evs
         /\ if st =? AEROSPIKE_OK then status = AEROSPIKE_OK \/ status = AEROSPIKE_ERR_UDF else status = st
  else query_asks timeout q status evs.

Lemma query_tour apply_stream config w policy q (callback : query_callback U) u :
  query_fits q -> is_Some callback \/ has_function (query_apply q) = true ->
  (forall a n, n ∈ members ->
    task_safe (query_fn fuel groups clepoch uninit_bins callback false) answers (holding a members) n
    /\ task_safe (query_fn fuel groups clepoch uninit_bins (Some as_query_aggregate_callback) true) answers (holding a members) n) ->
  idle w ->
  settles answers (aerospike_query_foreach hpux uninit fuel groups clepoch uninit_bins uninit_err apply_stream order config w policy q callback u)
    (fun r => let '(status, err, u', w', evs) := r in
      idle w' /\ if decide (members = []) then status = AEROSPIKE_ERR_SERVER /\ u' = u /\ evs = []
                 else query_answers (default config policy) q status evs).
Proof.
  intros Hq Hcb Hsafe Hw. unfold aerospike_query_foreach. set (timeout := default config policy).
  eapply settles_then; [eapply (on_all_nodes_ok answers members idle holding K (fun r =>
    let '(status, err, u', evs) := r in query_answers timeout q status evs)); [done|]|].
  - clear w Hw. intros a w Hw. apply (k_rand _ _ _ _ K) in Hw. destruct (rand64 w) as [r w1]. cbn [snd] in Hw. unfold query_answers.
    destruct (has_function (query_apply q)).
    + eapply settles_then; [apply (query_execute_ok _ _ _ _ _ a); [done|intros n Hn; apply (Hsafe a n Hn)|done]|].
      intros [[[status sh] evs] w2] [Hask Hw2]. destruct (status =? AEROSPIKE_OK) eqn:Est.
      * destruct (apply_stream _ _ _) as [[rc value] u']. split; [|done]. cbn [fst].
        destruct (Z.eqb_spec rc 0) as [->|]; exists status; rewrite Est; (split; [done|]); [by left|by right].
      * split; [|done]. exists status. by rewrite Est.
    + destruct Hcb as [[f ->]|]; [|done].
      eapply settles_then; [apply (query_execute_ok _ _ _ _ _ a); [done|intros n Hn; apply (Hsafe a n Hn)|done]|].
      by intros [[[status sh] evs] w2] [Hask Hw2].
  - intros [[[[[status err] u'] evs]|] w'] [Hi Hm]; cbn [fst snd settles] in *.
    + destruct Hm as [Hne HQ]. rewrite decide_False by done. by split.
    + rewrite decide_True by done. by split_and!.
Qed.
End Tours.

(** ** The stream of an aggregation *)

(** What a function reads until it is given NULL. *)
Fixpoint read_to_end (n : nat) (stream : list (option as_val)) : option (list as_val * list (option as_val)) :=
  match n with
  | O => None
  | S n =>
      match as_queue_stream_read stream with
      | (None, stream) => Some ([], stream)
      | (Some v, stream) => '(l, stream) ← read_to_end n stream; Some (v :: l, stream)
      end
  end.

(** The function of an aggregation reads the values of all nodes in the order in which they
    came, then NULL; the queue still has all of them to be destroyed. *)
Lemma aggregate_stream_read vals :
  let stream := foldl as_queue_stream_write [] ((Some <$> vals) ++ [None]) in
  read_to_end (S (length vals)) stream = Some (vals, stream).
Proof.
  assert (forall l (acc : list (option as_val)), foldl as_queue_stream_write acc l = acc ++ l) as Hf.
  { intros l. induction l as [|v l IH]; intros acc; cbn [foldl]; [by rewrite app_nil_r|].
    rewrite IH. unfold as_queue_stream_write. by rewrite <- app_assoc. }
  cbn zeta. rewrite Hf. cbn [app].
  assert (forall l seen, read_to_end (S (length l)) ((Some <$> l) ++ None :: seen) = Some (l, seen ++ (Some <$> l) ++ [None])) as Hr.
  { intros l. induction l as [|v l IH]; intros seen; [done|]. cbn [fmap list_fmap app length]. cbn [read_to_end as_queue_stream_read].
    rewrite <- app_assoc. cbn [app]. cbn [read_to_end] in IH. rewrite IH. cbn [mbind option_bind]. by rewrite <- app_assoc. }
  by rewrite Hr.
Qed.

(** ** The keys of a batch, by node *)

(** The positions of [n] in [picked], from [i] on. *)
Fixpoint positions (n : Z) (picked : list Z) (i : Z) : list Z :=
  match picked with
  | [] => []
  | x :: picked => if x =? n then i :: positions n picked (i + 1) else positions n picked (i + 1)
  end.

Lemma positions_app n l x i :
  positions n (l ++ [x]) i = positions n l i ++ (if x =? n then [i + blen l] else []).
Proof.
  revert i. induction l as [|y l IH]; intros i; cbn [app positions].
  - rewrite Z.add_0_r. by destruct (x =? n).
  - rewrite IH, length_cons. replace (i + 1 + blen l) with (i + Z.of_nat (S (length l))) by lia. by destruct (y =? n).
Qed.

Lemma positions_length n l i : blen (positions n l i) <= blen l.
Proof. revert i. induction l as [|y l IH]; intros i; cbn [positions]; [done|]. specialize (IH (i + 1)). destruct (y =? n); simpl; lia. Qed.

Lemma positions_absent n l i : n ∉ l -> positions n l i = [].
Proof.
  revert i. induction l as [|y l IH]; intros i Hn; [done|]. apply not_elem_of_cons in Hn as [Hne Hn]. cbn [positions].
  destruct (Z.eqb_spec y n); [by subst|]. by apply IH.
Qed.

Section BatchProofs.
Context `{Platform} `{Fleet W}.
Context (ripemd160 : list Z -> list Z) (nodes : list Z).

(** [good o E w]: the call holds [E n] references to the node [n].  The cluster gives a node
    for every key, one of [nodes]; a node that is held can be released. *)
Context (good : option Z -> (Z -> Z) -> W -> Prop).
Context (get_ok : forall o E w cn, good o E w -> exists n w', as_node_get w cn = URet (Some n, w') /\ n ∈ nodes /\ good o (plus E n 1) w').
Context (release_ok : forall o E w n, good o E w -> 0 < E n -> exists w', as_node_release w n = URet w' /\ good o (plus E n (-1)) w').
Context (good_ext : forall o E E' w, (forall n, E n = E' n) -> good o E w -> good o E' w).

(** The node the cluster gave for a key. *)
Definition looked_up (key : as_key) (n : Z) : Prop :=
  exists o E w w', good o E w /\ as_node_get w (mk_cn None (key_ns key) (digest_value key) REPLICA_MASTER false) = URet (Some n, w').

(** The batch nodes once the nodes [picked] were given for the keys so far. *)
Definition batch_rep (picked : list Z) (bns : list as_batch_node) : Prop :=
  NoDup (map bn_node bns) /\ (forall p, p ∈ map bn_node bns <-> exists n, p = Some n /\ n ∈ picked)
  /\ Forall (fun b => exists n, bn_node b = Some n /\ v_rep (bn_offsets b) (positions n picked 0) /\ item_size (bn_offsets b) = 4) bns.

Definition one_each (E : Z -> Z) (picked : list Z) (m : Z) : Z := E m + if decide (m ∈ picked) then 1 else 0.

Lemma find_ok bns node k :
  match as_batch_node_find bns node k with
  | Some j => exists i b, j = (k + i)%nat /\ bns !! i = Some b /\ bn_node b = node
  | None => node ∉ map bn_node bns
  end.
Proof.
  revert k. induction bns as [|b bns IH]; intros k; cbn [as_batch_node_find map]; [by intros ?%elem_of_nil|].
  destruct (decide (bn_node b = node)) as [E|E]; [exists 0%nat, b; split_and!; [lia|done|done]|].
  specialize (IH (S k)). destruct (as_batch_node_find bns node (S k)) as [j|].
  - destruct IH as (i & b' & -> & Hi & Hb). exists (S i), b'. split_and!; [lia|done|done].
  - apply not_elem_of_cons. split; [by intros ->|done].
Qed.

Lemma append_room (v : as_vector Z) l i : v_rep v l -> item_size v = 4 -> blen l < 2 ^ 28 ->
  exists v', as_vector_append true v i = Some v' /\ v_rep v' (l ++ [i]) /\ item_size v' = 4.
Proof.
  intros Hv Hi Hl. destruct (append_ok v l i Hv) as (v' & E & Hv' & _ & Hi').
  - unfold room. destruct (Hv) as (Hs & _). rewrite Hi. destruct (Z.ltb_spec (Vector.size v) (Vector.capacity v)); [by left|right; lia].
  - exists v'. by rewrite Hi'.
Qed.

(** There is a place for another node. *)
Lemma batch_rep_room picked bns n :
  batch_rep picked bns -> Forall (fun n => n ∈ nodes) picked -> n ∈ nodes -> Some n ∉ map bn_node bns -> blen bns < blen nodes.
Proof.
  intros (Hnd & Hin & _) Hpk Hn Hno. rewrite <- (length_map bn_node bns), <- (length_fmap Some nodes).
  enough (length (Some n :: map bn_node bns) <= length (Some <$> nodes))%nat by (cbn [length] in *; lia).
  apply submseteq_length, NoDup_submseteq; [by apply NoDup_cons|].
  intros p Hp. apply elem_of_cons in Hp as [->|Hp]; [by apply list_elem_of_fmap_2|].
  apply Hin in Hp as (m & -> & Hp). apply list_elem_of_fmap_2. by apply (proj1 (Forall_forall _ _) Hpk).
Qed.

Lemma one_each_found o E picked n w :
  n ∈ picked -> good o (plus (plus (one_each E picked) n 1) n (-1)) w -> good o (one_each E (picked ++ [n])) w.
Proof.
  intros Hn. apply good_ext. intros m. unfold one_each, plus.
  assert (m ∈ picked ++ [n] <-> m ∈ picked) as Hiff by set_solver.
  destruct (decide (m ∈ picked)), (decide (m ∈ picked ++ [n])); try tauto; case_decide; lia.
Qed.

Lemma one_each_new o E picked n w : n ∉ picked -> good o (plus (one_each E picked) n 1) w -> good o (one_each E (picked ++ [n])) w.
Proof.
  intros Hn. apply good_ext. intros m. unfold one_each, plus. destruct (decide (m = n)) as [->|Hne].
  - rewrite decide_False, decide_True by set_solver. lia.
  - assert (m ∈ picked ++ [n] <-> m ∈ picked) as Hiff by set_solver.
    destruct (decide (m ∈ picked)), (decide (m ∈ picked ++ [n])); try tauto; lia.
Qed.

(** The batch node of [n] gets another offset. *)
Lemma batch_rep_found picked bns n i b v' :
  batch_rep picked bns -> n ∈ picked -> bns !! i = Some b -> bn_node b = Some n ->
  v_rep v' (positions n picked 0 ++ [blen picked]) -> item_size v' = 4 ->
  batch_rep (picked ++ [n]) (<[i := mk_batch_node (Some n) v']> bns).
Proof.
  intros (Hnd & Hin & Hall) Hn Hb Hbn Hv' Hi'.
  assert (map bn_node (<[i := mk_batch_node (Some n) v']> bns) = map bn_node bns) as Emap.
  { change (map bn_node) with (fmap (M := list) bn_node). rewrite list_fmap_insert. cbn [bn_node]. apply list_insert_id.
    rewrite list_lookup_fmap, Hb. cbn. by rewrite Hbn. }
  split; [by rewrite Emap|]. split.
  { intros p. rewrite Emap, Hin. split; intros (m & -> & Hm); exists m; (split; [done|]); set_solver. }
  apply Forall_lookup. intros j b' Hj. destruct (decide (j = i)) as [->|Hne].
  - rewrite list_lookup_insert_eq in Hj by (by eapply lookup_lt_Some). injection Hj as <-. exists n. split; [done|].
    cbn [bn_offsets]. split; [|done]. by rewrite positions_app, Z.eqb_refl, Z.add_0_l.
  - rewrite list_lookup_insert_ne in Hj by done. destruct (proj1 (Forall_lookup _ _) Hall _ _ Hj) as (m & Hm & Hv2 & Hi2).
    exists m. split; [done|]. split; [|done]. rewrite positions_app. destruct (Z.eqb_spec n m) as [<-|]; [|by rewrite app_nil_r].
    exfalso. apply Hne. eapply (NoDup_lookup _ _ _ (Some n) Hnd); change (map bn_node) with (fmap (M := list) bn_node); rewrite list_lookup_fmap.
    + rewrite Hj. cbn. by rewrite Hm.
    + rewrite Hb. cbn. by rewrite Hbn.
Qed.

(** Another batch node. *)
Lemma batch_rep_new picked bns n v' :
  batch_rep picked bns -> n ∉ picked -> v_rep v' [blen picked] -> item_size v' = 4 ->
  batch_rep (picked ++ [n]) (bns ++ [mk_batch_node (Some n) v']).
Proof.
  intros (Hnd & Hin & Hall) Hn Hv' Hi'. unfold batch_rep. rewrite map_app. cbn [map bn_node]. split; [|split].
  - apply NoDup_app. split; [done|]. split; [|apply NoDup_singleton]. intros p Hp ->%list_elem_of_singleton.
    apply Hin in Hp as (m & [= <-] & Hm). done.
  - intros p. rewrite elem_of_app, list_elem_of_singleton, Hin. split.
    + intros [(m & -> & Hm)| ->]; eexists; (split; [done|]); set_solver.
    + intros (m & -> & Hm). apply elem_of_app in Hm as [Hm|Hm%list_elem_of_singleton]; [left; by exists m|right; by subst].
  - apply Forall_app. split.
    + apply Forall_forall. intros b Hb. destruct (proj1 (Forall_forall _ _) Hall _ Hb) as (m & Hm & Hv & Hi).
      exists m. split; [done|]. split; [|done].
      rewrite positions_app. destruct (Z.eqb_spec n m) as [<-|]; [|by rewrite app_nil_r]. exfalso. apply Hn.
      destruct (proj1 (Hin (Some n))) as (m & [= <-] & Hp); [|done]. rewrite <- Hm. by apply list_elem_of_fmap_2.
    + apply Forall_singleton. exists n. split; [done|]. cbn [bn_offsets]. split; [|done].
      by rewrite positions_app, Z.eqb_refl, (positions_absent n picked), Z.add_0_l.
Qed.

Lemma batch_add_ok capacity picked bns n w o E :
  batch_rep picked bns -> good o (plus (one_each E picked) n 1) w -> n ∈ nodes -> Forall (fun n => n ∈ nodes) picked ->
  (forall m, 0 <= E m) -> 0 < capacity < 2 ^ 28 -> blen picked < 2 ^ 28 ->
  exists bns' w', batch_add (blen nodes) capacity (blen picked) (Some n) w bns = URet (bns', w')
    /\ batch_rep (picked ++ [n]) bns' /\ good o (one_each E (picked ++ [n])) w'.
Proof.
  intros Hrep Hg Hn Hpk HE Hcap Hlen. pose proof Hrep as (Hnd & Hin & Hall). unfold batch_add.
  pose proof (find_ok bns (Some n) 0) as Hf. destruct (as_batch_node_find bns (Some n) 0) as [k|].
  - destruct Hf as (i & b & Ek & Hb & Hbn). cbn [Nat.add] in Ek. subst k.
    assert (n ∈ picked) as Hin'.
    { destruct (proj1 (Hin (Some n))) as (m & [= <-] & Hm); [|done]. rewrite <- Hbn. apply list_elem_of_fmap_2.
      by eapply list_elem_of_lookup_2. }
    destruct (release_ok _ _ w n Hg) as (w' & Er & Hg').
    { unfold plus, one_each. rewrite decide_True by done. specialize (HE n). case_decide; lia. }
    unfold release_node. cbn [lift ubind]. rewrite Er. cbn [ubind]. rewrite Hb. cbn [lift ubind].
    destruct (proj1 (Forall_lookup _ _) Hall _ _ Hb) as (m & Hm & Hv & Hi). rewrite Hbn in Hm. injection Hm as <-.
    destruct (append_room _ _ (blen picked) Hv Hi) as (v' & -> & Hv' & Hi'); [pose proof (positions_length n picked 0); lia|].
    cbn [lift ubind]. eexists _, w'. split; [done|]. split; [by eapply batch_rep_found|by apply one_each_found].
  - assert (n ∉ picked) as Hno by (intros Hp; apply Hf, Hin; by exists n).
    pose proof (batch_rep_room picked bns n Hrep Hpk Hn Hf) as Hroom. destruct (Z.leb_spec (blen nodes) (blen bns)); [lia|].
    destruct (constructed_rep (A := Z) 4 capacity) as [_ Hv0]; [lia..|].
    destruct (append_room _ _ (blen picked) Hv0 eq_refl) as (v' & -> & Hv' & Hi'); [done|].
    cbn [lift ubind]. eexists _, w. split; [done|]. split; [by apply batch_rep_new|by apply one_each_new].
Qed.

(** The digest of a key that belongs to the batch. *)
Definition key_digested (ns : list Z) (key key' : as_key) : Prop :=
  c_str ns = c_str (key_ns key) /\ as_key_set_digest ripemd160 key = Some (AEROSPIKE_OK, key').

Lemma map_keys_ok capacity ns done todo todo' picked bns w o E :
  batch_rep picked bns -> length done = length picked -> good o (one_each E picked) w -> Forall (fun n => n ∈ nodes) picked ->
  (forall m, 0 <= E m) -> 0 < capacity < 2 ^ 28 -> blen done + blen todo < 2 ^ 28 -> Forall2 (key_digested ns) todo todo' ->
  exists more bns' w', map_keys ripemd160 (blen nodes) capacity ns done todo w bns = URet (Mapped (done ++ todo') bns', w')
    /\ Forall2 looked_up todo' more /\ batch_rep (picked ++ more) bns' /\ good o (one_each E (picked ++ more)) w'
    /\ Forall (fun n => n ∈ nodes) more.
Proof.
  intros Hrep Hlen Hg Hpk HE Hcap Hmax Hkeys. revert done picked bns w Hrep Hlen Hg Hpk Hmax.
  induction Hkeys as [|key key' todo todo' [Hns Hd] Hkeys IH]; intros done picked bns w Hrep Hlen Hg Hpk Hmax.
  { exists [], bns, w. rewrite !app_nil_r. by split_and!. }
  cbn [map_keys]. rewrite bool_decide_true by done. cbn [negb]. rewrite Hd. cbn [lift ubind Z.eqb AEROSPIKE_OK negb].
  destruct (get_ok _ _ _ (mk_cn None (key_ns key') (digest_value key') REPLICA_MASTER false) Hg) as (n & w1 & Eg & Hn & Hg1).
  rewrite Eg. cbn [ubind]. rewrite Hlen. cbn [length] in Hmax.
  destruct (batch_add_ok capacity picked bns n w1 o E Hrep Hg1 Hn Hpk HE Hcap ltac:(lia)) as (bns1 & w2 & -> & Hrep1 & Hg2).
  cbn [ubind]. destruct (IH (done ++ [key']) (picked ++ [n]) bns1 w2 Hrep1) as (more & bns' & w' & Em & Hlk & Hrep' & Hg' & Hin).
  { rewrite !length_app. simpl. lia. }
  { done. }
  { apply Forall_app. split; [done|]. by apply Forall_singleton. }
  { rewrite length_app. simpl. lia. }
  exists (n :: more), bns', w'. rewrite <- !app_assoc in Em, Hrep', Hg'. cbn [app] in *. split; [done|].
  split; [constructor; [by exists o, (one_each E picked), w, w1|done]|]. split_and!; [done|done|by constructor].
Qed.

Lemma capacity_ok n_keys n_nodes : 0 < n_nodes <= n_keys -> n_keys < 2 ^ 27 -> 0 < offsets_capacity n_keys n_nodes < 2 ^ 28.
Proof.
  intros Hn Hmax. unfold offsets_capacity. assert (1 <= n_keys / n_nodes <= n_keys) as Hq.
  { split; [apply Z.div_le_lower_bound; lia|apply Z.div_le_upper_bound; nia]. }
  rewrite Z.shiftr_div_pow2 by lia. change (2 ^ 2) with 4.
  assert (0 <= n_keys / n_nodes / 4 <= n_keys / n_nodes) as Hq4.
  { split; [apply Z.div_pos; lia|apply Z.div_le_upper_bound; lia]. }
  rewrite u32_id by (unfold is_u32; lia). lia.
Qed.

Lemma map_all_keys ns keys keys' w o E :
  good o E w -> (forall m, 0 <= E m) -> 0 < blen nodes <= blen keys -> blen keys < 2 ^ 27 -> Forall2 (key_digested ns) keys keys' ->
  exists picked bns w',
    map_keys ripemd160 (blen nodes) (offsets_capacity (blen keys) (blen nodes)) ns [] keys w [] = URet (Mapped keys' bns, w')
    /\ Forall2 looked_up keys' picked /\ batch_rep picked bns /\ good o (one_each E picked) w'.
Proof.
  intros Hg HE Hn Hmax Hk.
  destruct (map_keys_ok (offsets_capacity (blen keys) (blen nodes)) ns [] keys keys' [] [] w o E) as (picked & bns & w' & Em & Hlk & Hrep & Hg' & _).
  - split_and!; [constructor| |constructor]. intros p. split; [by intros ?%elem_of_nil|by intros (n & _ & ?%elem_of_nil)].
  - done.
  - eapply good_ext; [|exact Hg]. intros m. unfold one_each. rewrite decide_False by (by intros ?%elem_of_nil). lia.
  - constructor.
  - done.
  - by apply capacity_ok.
  - cbn [length]. lia.
  - done.
  - by exists picked, bns, w'.
Qed.

End BatchProofs.

(** C35: A batch of fewer keys than there are nodes.  The array of the positions of a node is
    created for the average number of keys, which is none, and doubling this does not make
    room: the first position is written past its end. *)
Theorem small_batch_undefined `{Platform} `{Fleet W} {U : Type} uninit ripemd160 fuel groups clepoch uninit_bins uninit_err
    order mutex config w policy batch callback (u : U) read_attr first rest key' a ns w1 node w2 :
  take (Z.to_nat (batch_size batch)) (batch_keys batch) = first :: rest ->
  nodes_reserve w = URet (a, ns, w1) -> blen (first :: rest) < blen ns ->
  as_key_set_digest ripemd160 first = Some (AEROSPIKE_OK, key') ->
  as_node_get w1 (mk_cn None (key_ns key') (digest_value key') REPLICA_MASTER false) = URet (node, w2) ->
  as_batch_execute uninit ripemd160 fuel groups clepoch uninit_bins uninit_err order mutex config w policy batch callback u read_attr = UB.
Proof.
  intros Hk Hn Hlt Hd Hg. unfold as_batch_execute, batch_run. rewrite Hk, Hn. cbn [ubind]. destruct ns as [|n ns]; [simpl in Hlt; lia|].
  cbn [map_keys]. rewrite bool_decide_true by done. cbn [negb]. rewrite Hd. cbn [lift ubind Z.eqb AEROSPIKE_OK negb]. rewrite Hg. cbn [ubind].
  unfold batch_add. cbn [as_batch_node_find]. destruct (Z.leb_spec (blen (n :: ns)) (blen (@nil as_batch_node))); [simpl in *; lia|].
  assert (offsets_capacity (blen (first :: rest)) (blen (n :: ns)) = 0) as ->.
  { unfold offsets_capacity. by rewrite Z.div_small by (split; [lia|exact Hlt]). }
  by rewrite (proj2 (empty_capacity_append (A := Z) 4 (blen (@nil as_key)) true true ltac:(lia))).
Qed.

(** ** Examples *)

(** Two nodes; the first byte of a digest decides which has a key, and the state counts the
    references. *)
#[refine] Instance two_services : Services (Z -> Z) :=
  {| as_node_get w cn := let n := nth 0 (cn_digest cn) 0 mod 2 in URet (Some n, plus w n 1);
     as_node_get_connection w n := URet (0, 5, w);
     as_node_put_connection w n fd := URet w;
     as_node_release w n := if 0 <? w n then URet (plus w n (-1)) else UB;
     as_close w fd := URet w;
     cf_getms w := (5, w);
     usleep w us := w;
     send w fd command deadline := URet (AEROSPIKE_OK, w);
     recv w fd n deadline := URet (AEROSPIKE_ERR_TIMEOUT, replicate (Z.to_nat n) 0, w);
     stream w fd := [] |}.
Proof. intros w fd n deadline Hn. rewrite length_replicate. split; [lia|done]. Defined.

Instance two_nodes : Fleet (Z -> Z) :=
  {| fleet_services := two_services;
     nodes_reserve w := URet (9, [0; 1], w);
     nodes_release w a := URet w;
     node_reserve w n := URet (plus w n 1);
     node_by_name w name := URet (None, w);
     rand64 w := (7, w) |}.

Definition digest_key (b : Z) : as_key := mk_key [110] [] None true (b :: replicate 19 0).


Lemma small_batch_undefined_witness :
  @as_batch_execute x86_64 (Z -> Z) two_nodes Z (fun _ => []) (fun _ => []) 0 1 0 (fun _ => []) no_error (fun l => l) 0 1000 (fun _ => 0) None
    (mk_batch false false 1 [digest_key 1]) (fun _ u => u) 0 3 = UB.
Proof.
  apply (@small_batch_undefined x86_64 (Z -> Z) two_nodes Z) with
    (first := digest_key 1) (rest := []) (key' := digest_key 1) (a := 9) (ns := [0; 1]) (w1 := fun _ : Z => 0)
    (node := Some 1) (w2 := plus (fun _ : Z => 0) 1 1); reflexivity.
Defined.
