(* ===== verification/Fleet.v ===== *)
(** * Commands to all nodes of a cluster

    The cluster of the files [Node] and [Partition] as the fleet that scans and queries ask
    (file [Fanout]).  While such a call runs it holds the array of the nodes and a reference to
    each of them; the invariant of file [Membership] is that of the cluster without what the
    call holds. *)

From S2P Require Import Prelude Counting ByteOrder Base64 Queue Value Msgpack Roundtrip Wire Socket Parse.
From S2P Require Import Node Partition Info Tend Membership Client Execute Record Requests Stream Fanout.
Open Scope Z_scope.

Section Fleet.
Context `{Platform} `{Net W} (stack : list Z) (uninit_fd : Z) (random : W -> Z * W).
Context (locks_work : forall w : W, queue_env w = qenv_ok).
Implicit Types (s : mem W).

(** A call goes through the array it reserved. *)
Definition cluster_nodes_reserve s : ures (Z * list Z * mem W) :=
  let* (a, s) := as_nodes_reserve s in
  let* arr := lift (m_arrays s !! a) in
  let* ns := lift (mapM id (nodes_array arr)) in
  URet (a, ns, s).

Instance cluster_fleet : Fleet (mem W) :=
  {| fleet_services := cluster_services stack uninit_fd;
     nodes_reserve := cluster_nodes_reserve;
     nodes_release s a := let* (_, s) := as_nodes_release a s in URet s;
     node_reserve s n := let* (_, s) := as_node_reserve n s in URet s;
     node_by_name s name := as_node_get_by_name name s;
     rand64 s := let '(r, w) := random (net s) in (r, set_net w s) |}.

Context (np K : Z) (N : list (list Z)).
Local Abbreviation ok := (cluster_ok np K N).
Local Abbreviation idle := (idle stack np K N).

(** The cluster without the reference to its array. *)
Definition unhold (l : list Z) s : mem W := set_arrays <[nodes (cluster s) := mk_nodes 1 (Some <$> l)]> s.

Definition holding (E : Z -> Z) (l : list Z) (c0 : as_cluster) (a : Z) (refs : list Z) s : Prop :=
  a = nodes (cluster s) /\ m_arrays s !! a = Some (mk_nodes 2 (Some <$> l)) /\ idle (fun m => E m + occ m refs) l c0 (unhold l s).

Lemma idle_ext E E' l c0 s : (forall m, E m = E' m) -> idle E l c0 s -> idle E' l c0 s.
Proof. intros He (Hs & Hr). split; [|done]. by eapply ok_held_ext. Qed.

Lemma idle_rebooked E E' l c0 s s' n k :
  idle E l c0 s -> counted (m_nodes s') (plus (booked (holders (gc (cluster s)) E [] l) (m_table s)) n k) -> same_rest s s' ->
  evolved (m_nodes s) (m_nodes s') (fun _ => False) -> (forall m, E' m = plus E n k m) ->
  (forall m, 0 <= E' m /\ E' m + 2 + 2 * np * (blen N + K) < 2 ^ 32) -> idle E' l c0 s'.
Proof.
  intros (Hs & Hau & Hx) Hc Hrest Hev He HE. assert (cluster s' = cluster s) as Hcl by (by destruct Hrest as (_ & _ & _ & _ & _ & ? & _)).
  split; [|by rewrite Hcl]. unfold cluster_ok. rewrite Hcl. eapply ok_rebooked; [exact Hs| |done|done|apply Hs|done|done|done].
  eapply counted_ext; [|exact Hc]. intros m. unfold booked, holders. rewrite He. unfold plus. case_decide; lia.
Qed.

Lemma holding_workable E l c0 a refs n : (forall m, 0 <= E m) -> n ∈ refs -> workable stack n (holding E l c0 a refs).
Proof.
  intros HE Hn. assert (0 < E n + occ n refs) as Hpos by (specialize (HE n); apply occ_in in Hn; lia).
  pose proof (idle_workable (W := W) stack np K N (fun m => E m + occ m refs) l c0 n Hpos) as Hwk. constructor.
  - intros s (_ & _ & Hs). apply (wk_auth _ _ _ Hwk _ Hs).
  - intros s (_ & _ & Hs). apply (wk_node _ _ _ Hwk _ Hs).
  - intros s s1 (-> & Ha & Hs) (node & node' & w & o & c & Hnode & Hr & Hok & ->). split_and!; [done|done|].
    eapply (wk_touched _ _ _ Hwk); [exact Hs|]. by exists node, node', w, o, c.
Qed.

(** A task for a node that the call holds. *)
Lemma workable_task {D} (parse : mem W -> Z -> Z -> as_error -> D -> ures (Z * as_error * D * mem W)) n I :
  reads parse -> workable stack n I -> task_safe parse net_answers I n.
Proof.
  intros Hp Hwk. constructor.
  - done.
  - intros s m [= <-]. unfold at_work. tauto.
  - intros s m [-> Hs]. eapply settles_mono; [by apply (work_connect stack uninit_fd locks_work n _ Hwk)|done|].
    intros [[st fd] s1] Hs1. by destruct (st =? 0).
  - intros s m fd [-> Hs]. eapply settles_mono; [by apply (work_put stack uninit_fd locks_work n _ Hwk)|done|done].
  - intros s m fd [-> Hs]. eapply settles_mono; [by apply (work_close stack uninit_fd n _ Hwk)|done|done].
  - done.
  - intros s Hs. cbn. destruct (os_getms (net s)) as [ms w]. exact (work_net stack n _ Hwk s _ _ _ Hs).
  - done.
  - intros s m fd command deadline [-> Hs]. eapply settles_mono; [by apply (work_send stack uninit_fd n _ Hwk)|done|done].
  - intros s m fd deadline err data [-> Hs]. eapply settles_mono; [by apply (work_parse stack n _ Hwk)|done|done].
Qed.

(** ** The promises of the cluster *)

Lemma array_all (l : list Z) : mapM id (Some <$> l) = Some l.
Proof. induction l as [|n l IH]; [done|]. cbn. cbn in IH. by rewrite IH. Qed.

Lemma nodes_reserve_keeps E l c0 s :
  idle E l c0 s -> exists s', cluster_nodes_reserve s = URet (nodes (cluster s), l, s') /\ holding E l c0 (nodes (cluster s)) [] s'.
Proof.
  intros Hs. pose proof (ok_members _ _ _ _ _ _ _ _ (proj1 Hs)) as Hm. set (a := nodes (cluster s)) in *.
  set (s' := set_arrays <[a := mk_nodes 2 (Some <$> l)]> s).
  assert (as_nodes_reserve s = URet (a, s')) as E1.
  { unfold as_nodes_reserve, array_at. by rewrite bind_cluster_of, (bind_access _ _ _ _ Hm), bind_modify. }
  exists s'. split.
  - unfold cluster_nodes_reserve. rewrite E1. cbn [ubind]. unfold s' at 1. cbn. rewrite lookup_insert_eq. cbn.
    by rewrite array_all.
  - split_and!; [done|apply lookup_insert_eq|].
    assert (unhold l s' = s) as ->.
    { unfold unhold, s'. unfold set_arrays. cbn. fold a. rewrite insert_insert_eq, insert_id by done. by destruct s. }
    eapply idle_ext; [|exact Hs]. intros m. cbv beta. rewrite occ_nil. lia.
Qed.

Lemma nodes_release_keeps E l c0 a refs s :
  holding E l c0 a refs s -> exists s', as_nodes_release a s = URet (tt, s') /\ idle (fun m => E m + occ m refs) l c0 s'.
Proof.
  intros (-> & Ha & Hs). unfold as_nodes_release, array_at. rewrite (bind_access _ _ _ _ Ha). eexists. split; [reflexivity|].
  exact Hs.
Qed.

Lemma holding_same E l c0 a refs s s' :
  holding E l c0 a refs s -> same_rest s s' -> a = nodes (cluster s') /\ m_arrays s' !! a = Some (mk_nodes 2 (Some <$> l))
    /\ same_rest (unhold l s) (unhold l s').
Proof.
  intros (Ea & Ha & _) (H1 & H2 & H3 & H4 & H5 & H6 & H7 & H8). rewrite H6, H2. split_and!; [done|done|].
  unfold unhold, same_rest, same_most. cbn. by rewrite H6, H2.
Qed.

Lemma reserve_keeps E l c0 a refs n s :
  (forall m, 0 <= E m /\ E m + 3 + 2 * np * (blen N + K) < 2 ^ 32) -> holding E l c0 a refs s -> n ∈ l -> n ∉ refs ->
  exists s', as_node_reserve n s = URet (tt, s') /\ holding E l c0 a (refs ++ [n]) s'.
Proof.
  intros HE Hh Hn Hno. pose proof Hh as (_ & _ & Hid). pose proof (proj1 Hid) as Hs.
  pose proof (ok_nodes _ _ _ _ _ _ _ _ Hs) as Hc.
  assert (0 < holders (gc (cluster (unhold l s))) (fun m => E m + occ m refs) [] l n) as Hpos.
  { unfold holders. apply occ_in in Hn. pose proof (occ_nonneg n refs). pose proof (occ_nonneg n (gc_nodes (gc (cluster (unhold l s))))).
    specialize (HE n). rewrite occ_nil. lia. }
  destruct (reserve_counted s _ n Hc (booked_held _ _ _ _ _ _ _ _ _ Hs Hpos)) as (s' & Er & Hc' & Hrest & Hev).
  { destruct (ok_lookup_ready _ _ _ _ _ _ _ Hs) as (_ & _ & Hres & _). by eapply Hres, booked_held. }
  exists s'. split; [done|]. destruct (holding_same _ _ _ _ _ _ _ Hh Hrest) as (Ea & Ha & Hrest').
  split_and!; [done|done|]. eapply (idle_rebooked _ _ _ _ _ (unhold l s') n 1 Hid); [exact Hc'|done|exact Hev| |].
  - intros m. rewrite occ_app, occ_cons, occ_nil. unfold plus. case_decide; lia.
  - intros m. rewrite occ_app, occ_cons, occ_nil. pose proof (ok_bound _ _ _ _ _ _ _ _ Hs m). specialize (HE m).
    case_decide; [subst; apply occ_out in Hno; lia|lia].
Qed.

Lemma release_keeps E l c0 a refs n s :
  (forall m, 0 <= E m) -> holding E l c0 a (n :: refs) s ->
  exists s', Node.as_node_release n s = URet (tt, s') /\ holding E l c0 a refs s'.
Proof.
  intros HE Hh. pose proof Hh as (_ & _ & Hid). pose proof (proj1 Hid) as Hs. pose proof (ok_nodes _ _ _ _ _ _ _ _ Hs) as Hc.
  assert (0 < holders (gc (cluster (unhold l s))) (fun m => E m + occ m (n :: refs)) [] l n) as Hpos.
  { pose proof (holders_bound _ _ _ _ _ _ _ _ n Hs) as Hb. cbv beta in Hb. assert (0 < occ n (n :: refs)) by (apply occ_in; by left). specialize (HE n). lia. }
  destruct (release_counted locks_work s _ n Hc (booked_held _ _ _ _ _ _ _ _ _ Hs Hpos)) as (s' & Er & Hc' & Hrest & Hev).
  exists s'. split; [done|]. destruct (holding_same _ _ _ _ _ _ _ Hh Hrest) as (Ea & Ha & Hrest').
  split_and!; [done|done|]. eapply (idle_rebooked _ _ _ _ _ (unhold l s') n (-1) Hid); [exact Hc'|done|exact Hev| |].
  - intros m. unfold plus. rewrite occ_cons. case_decide; lia.
  - intros m. pose proof (ok_bound _ _ _ _ _ _ _ _ Hs m) as Hb. cbv beta in Hb. rewrite occ_cons in Hb. pose proof (occ_nonneg m refs).
    specialize (HE m). case_decide; lia.
Qed.

Lemma cluster_keeps E l c0 :
  NoDup l -> (forall m, 0 <= E m /\ E m + 3 + 2 * np * (blen N + K) < 2 ^ 32) ->
  keeps net_answers l (idle E l c0) (holding E l c0).
Proof.
  intros Hnd HE. constructor.
  - done.
  - intros s Hs. destruct (nodes_reserve_keeps E l c0 s Hs) as (s' & E1 & Hs'). cbn. rewrite E1. by split.
  - intros a refs n s Hs Hn Hno. destruct (reserve_keeps E l c0 a refs n s HE Hs Hn Hno) as (s' & E1 & Hs'). cbn. by rewrite E1.
  - intros a n refs s Hs. destruct (release_keeps E l c0 a refs n s (fun m => proj1 (HE m)) Hs) as (s' & E1 & Hs'). cbn. by rewrite E1.
  - intros a s Hs. destruct (nodes_release_keeps E l c0 a [] s Hs) as (s' & E1 & Hs'). cbn. rewrite E1. cbn.
    eapply idle_ext; [|exact Hs']. intros m. cbv beta. rewrite occ_nil. lia.
  - intros a refs s (Ea & Ha & Hs). cbn. destruct (random (net s)) as [r w]. split_and!; [done|done|]. exact (idle_net _ _ _ _ _ _ _ _ w Hs).
Qed.

(** The first node of that name. *)
Definition named (M : gmap Z as_node) (name : list Z) (n : Z) : Prop := exists node, M !! n = Some node /\ node_name node = name.

Definition first_named (M : gmap Z as_node) (l : list Z) (name : list Z) (o : option Z) : Prop :=
  match o with
  | Some n => exists l1 l2, l = l1 ++ n :: l2 /\ named M name n /\ Forall (fun m => ~ named M name m) l1
  | None => Forall (fun m => ~ named M name m) l
  end.

Lemma by_name_keeps E l c0 a name todo s :
  (forall m, 0 <= E m /\ E m + 3 + 2 * np * (blen N + K) < 2 ^ 32) -> holding E l c0 a [] s -> Forall (fun n => n ∈ l) todo ->
  exists o s', by_name_loop (Some <$> todo) name s = URet (o, s') /\ first_named (m_nodes s) todo name o
    /\ holding E l c0 a (option_list o) s'.
Proof.
  intros HE Hs. induction todo as [|n todo IH]; intros Hin; cbn [by_name_loop fmap list_fmap]; [exists None, s; split_and!; [done|constructor|done]|].
  apply Forall_cons in Hin as [Hn Hin]. destruct (ok_member _ _ _ _ _ _ _ _ n (proj1 (proj2 (proj2 Hs))) Hn) as (node & Hnode & _).
  rewrite (bind_access _ _ _ n eq_refl), (bind_node_at _ s _ _ Hnode). destruct (decide (node_name node = name)) as [Hname|Hname].
  - destruct (reserve_keeps E l c0 a [] n s HE Hs Hn) as (s' & Er & Hs'); [by intros ?%elem_of_nil|].
    rewrite (bind_ret_eq _ _ _ _ _ Er). exists (Some n), s'. split; [done|]. split; [|done]. exists [], todo. split_and!; [done|by exists node|constructor].
  - destruct (IH Hin) as (o & s' & El & Ho & Hs'). exists o, s'. split; [done|]. split; [|done].
    assert (~ named (m_nodes s) name n) as Hno by (intros (node' & Hn' & Hnm); cbn in Hnode; congruence).
    destruct o as [m|]; [|by constructor]. destruct Ho as (l1 & l2 & -> & Hm & Hall). exists (n :: l1), l2. split_and!; [done|done|by constructor].
Qed.

Lemma get_by_name_keeps E l c0 name s :
  (forall m, 0 <= E m /\ E m + 3 + 2 * np * (blen N + K) < 2 ^ 32) -> idle E l c0 s ->
  exists o s', as_node_get_by_name name s = URet (o, s') /\ first_named (m_nodes s) l name o
    /\ idle (fun m => E m + occ m (option_list o)) l c0 s'.
Proof.
  intros HE Hi. destruct (nodes_reserve_keeps E l c0 s Hi) as (s1 & E1 & Hs1). unfold cluster_nodes_reserve in E1.
  destruct (as_nodes_reserve s) as [[a s0]| |] eqn:Er; [|done..]. cbn [ubind] in E1.
  destruct (m_arrays s0 !! a) as [arr|] eqn:Ea; [|done]. cbn [lift ubind] in E1.
  destruct (mapM id (nodes_array arr)) as [ns|] eqn:En; [|done]. cbn [lift ubind] in E1. injection E1 as -> -> ->.
  assert (m_nodes s1 = m_nodes s) as Hm.
  { revert Er. unfold as_nodes_reserve, array_at. rewrite bind_cluster_of, (bind_access _ _ _ _ (ok_members _ _ _ _ _ _ _ _ (proj1 Hi))), bind_modify.
    by intros [= <-]. }
  destruct (Hs1) as (_ & Ha1 & _). rewrite Ha1 in Ea. injection Ea as <-. cbn [nodes_array] in En.
  destruct (by_name_keeps E l c0 _ name l s1 HE Hs1 ltac:(by apply Forall_forall)) as (o & s2 & El & Ho & Hs2).
  destruct (nodes_release_keeps _ _ _ _ _ _ Hs2) as (s3 & E3 & Hs3). exists o, s3. rewrite <- Hm. split_and!; [|done|done].
  unfold as_node_get_by_name, array_at. rewrite (bind_ret_eq _ _ _ _ _ Er), (bind_access _ _ _ _ Ha1). cbn [nodes_array].
  by rewrite (bind_ret_eq _ _ _ _ _ El), (bind_ret_eq _ _ _ _ _ E3).
Qed.

(** ** Calls *)

Section Calls.
Context {U : Type} (hpux : bool) (hpux_big : hpux = true -> host_endian = BigEndian) (uninit : Z -> list Z) (uninit_size : block_size uninit).
Context (fuel groups : nat) (clepoch : Z) (uninit_bins : Z -> list as_bin) (uninit_err : as_error).
Context (order : list Z -> list Z) (order_all : forall ns, order ns ≡ₚ ns).

Lemma users_idle E l s :
  ok E [] l s -> auth_ok stack (cluster s) -> (forall m, E m + 3 + 2 * np * (blen N + K) < 2 ^ 32) ->
  idle E l (cluster s) s /\ keeps net_answers l (idle E l (cluster s)) (holding E l (cluster s)) /\ forall m, 0 <= E m.
Proof.
  intros Hs Hau HE. split_and!; [split; [done|]; split; [done|apply reindexed_refl]| |apply Hs].
  apply cluster_keeps; [|intros m; split; [apply (ok_bound _ _ _ _ _ _ _ _ Hs m)|apply HE]].
  pose proof (ok_once _ _ _ _ _ _ _ _ Hs) as Hnd. cbn [app] in Hnd. by apply NoDup_app in Hnd as (Hl & _ & _).
Qed.


(** A scan of one node: the first of that name is asked, in a session of its own; when there
    is none, nothing is sent.  The node is given back. *)
Theorem scan_node_on_cluster E l s config policy scan name (callback : scan_callback (U := U)) u :
  scan_ok scan -> select_ok (scan_select scan) ->
  reads (scan_fn fuel groups clepoch uninit_bins callback (scan_deserialize scan)) ->
  ok E [] l s -> auth_ok stack (cluster s) -> (forall m, E m + 3 + 2 * np * (blen N + K) < 2 ^ 32) ->
  settles net_answers (aerospike_scan_node hpux uninit fuel groups clepoch uninit_bins uninit_err config s policy scan name callback u)
    (fun r => let '(status, err, u', s', evs) := r in
      ok E [] l s' /\ reindexed (cluster s) (cluster s')
      /\ exists o, first_named (m_nodes s) l name o
         /\ match o with
            | Some n => exists id, let pol := default config policy in
                tour (fun _ ms => scan_request ms (fail_on_cluster_change pol) scan id) (scan_timeout pol) [(n, status)] evs
            | None => status = AEROSPIKE_ERR_PARAM /\ u' = u /\ evs = []
            end).
Proof.
  intros Hscan Hsel Hp Hs Hau HE. destruct (users_idle E l s Hs Hau HE) as (Hi & _ & HE0).
  unfold aerospike_scan_node. set (pol := default config policy).
  destruct (get_by_name_keeps E l _ name s (fun m => conj (HE0 m) (HE m)) Hi) as (o & s1 & E1 & Ho & Hs1).
  cbn [node_by_name cluster_fleet]. rewrite E1. cbn [ubind]. destruct o as [n|].
  2:{ destruct Hs1 as (Hs1 & _ & Hx). split_and!; [|done|by exists None].
      eapply ok_held_ext; [|exact Hs1]. intros m. cbn [option_list]. rewrite occ_nil. lia. }
  set (I := idle (fun m => E m + occ m (option_list (Some n))) l (cluster s)) in *. cbn [rand64 cluster_fleet].
  destruct (random (net s1)) as [r w]. rewrite (scan_message hpux hpux_big) by (done || apply Hscan || by apply scan_body_limit).
  cbn [lift ubind]. set (f := fun ms => scan_request ms (fail_on_cluster_change pol) scan (r / 2)).
  assert (0 < E n + occ n (option_list (Some n))) as Hpos by (pose proof (proj1 (occ_in n [n]) ltac:(by left)); specialize (HE0 n); change (option_list (Some n)) with [n]; lia).
  assert (workable stack n I) as Hwk by (by apply idle_workable).
  eapply settles_then; [eapply (execute_on_ok f (scan_timeout pol) ltac:(by do 8 eexists) net_answers I); [by apply workable_task|split]|].
  - by apply idle_net.
  - exists (scan_timeout pol). split; [done|by left].
  - intros [status x] ([Hx _] & c & k & t & Hev & Hc & Hses & Hk & Hat). cbn [fst snd fan_events app] in *.
    destruct Hx as (Hsx & Haux & Hrx).
    destruct (node_release_keeps np K N locks_work _ [] l n (fan_w x) Hsx Hpos) as (s3 & E3 & Hs3 & Hc3).
    cbn. rewrite E3. cbn. rewrite Hc3. split_and!; [|done|].
    + eapply ok_held_ext; [|exact Hs3]. intros m. unfold plus. change (option_list (Some n)) with [n]. rewrite occ_cons, occ_nil. case_decide; lia.
    + exists (Some n). split; [done|]. exists (r / 2). rewrite Hev, <- (app_nil_r t). econstructor; [done..|constructor].
Qed.

End Calls.
End Fleet.

(** ** Examples *)

Definition sample_scan : as_scan := as_scan_defaults [97] None.
Definition sample_query : as_query := as_query_defaults (Some [97]) None.
Definition sample_fleet : Fleet (mem Z) := @cluster_fleet x86_64 Z loopback sample_stack 0 (fun w => (7, w + 1)).
Definition count_records : scan_callback (U := Z) := Some (fun _ n => (true, n + 1)).
Definition count_items : query_callback Z := Some (fun _ n => (true, n + 1)).
Definition sample_scan_policy : as_policy_scan := mk_policy_scan 1000 false.

Lemma sample_scan_ok : scan_ok sample_scan /\ select_ok (scan_select sample_scan).
Proof. repeat split; vm_compute; congruence. Qed.

Lemma sample_query_fits : query_fits sample_query.
Proof.
  split; [repeat split; try constructor; vm_compute; congruence|].
  intros id. unfold query_fields. cbn [length wire_fields]. vm_compute. reflexivity.
Qed.

(** On a network that does not answer, every parser gives up. *)
Lemma loopback_scan_reads fuel clepoch bins callback deserialize :
  reads (H0 := loopback) (@scan_fn x86_64 (mem Z) sample_fleet Z fuel 1 clepoch bins callback deserialize).
Proof. intros s fd deadline err sh. cbn. by exists (net s). Qed.

Lemma loopback_query_reads {V} fuel clepoch bins callback aggregate :
  reads (H0 := loopback) (@query_fn x86_64 (mem Z) sample_fleet fuel 1 clepoch bins V callback aggregate).
Proof. intros s fd deadline err sh. cbn. by exists (net s). Qed.


Lemma scan_node_on_cluster_witness :
  settles (@net_answers Z loopback)
    (@aerospike_scan_node x86_64 (mem Z) sample_fleet Z false sample_block 0 1 0 (fun _ => []) no_error sample_scan_policy
       sample_mem None sample_scan [66; 66] count_records 0)
    (fun r => let '(status, err, u', s', evs) := r in
      cluster_ok 8 10 [[97]] (fun _ => 0) [] [1; 2] s' /\ reindexed (cluster sample_mem) (cluster s')
      /\ exists o, first_named (m_nodes sample_mem) [1; 2] [66; 66] o
         /\ match o with
            | Some n => exists id, let pol := sample_scan_policy in
                @tour x86_64 (fun _ ms => scan_request ms (fail_on_cluster_change pol) sample_scan id) (scan_timeout pol) [(n, status)] evs
            | None => status = AEROSPIKE_ERR_PARAM /\ u' = 0 /\ evs = []
            end).
Proof.
  apply (@scan_node_on_cluster x86_64 Z loopback sample_stack 0 (fun w => (7, w + 1)) (fun _ => eq_refl) 8 10 [[97]]).
  - discriminate.
  - apply sample_block_size.
  - apply sample_scan_ok.
  - apply sample_scan_ok.
  - apply loopback_scan_reads.
  - apply sample_cluster_ok.
  - apply sample_auth.
  - intros m. vm_compute. reflexivity.
Defined.

