(* ===== verification/Admin.v ===== *)
(** * Users and roles

    Models [as_admin.c]: the messages that create, drop and change users and roles, the
    request and its answer on a connection of a random node, and the lists of users and of
    roles that a server sends; with [as_password_get_constant_hash] of [as_password.c] and
    [as_cluster_change_password] of [as_cluster.c].

    What they need of the cluster beside the interface [Services] is the class [Admin].  The
    hash of a password, whose code is third-party, is a parameter.  A message is written
    into a buffer of [AS_STACK_BUF_SIZE] bytes on the stack, whatever its size.  Allocations
    succeed. *)

From S2P Require Import Prelude ByteOrder Vector Value Msgpack Roundtrip Wire Socket Parse.
From S2P Require Import Node Partition Membership Client Execute Requests Stream.
Open Scope Z_scope.

Definition CREATE_USER : Z := 1.
Definition DROP_USER : Z := 2.
Definition SET_PASSWORD : Z := 3.
Definition CHANGE_PASSWORD : Z := 4.
Definition GRANT_ROLES : Z := 5.
Definition REVOKE_ROLES : Z := 6.
Definition QUERY_USERS : Z := 9.
Definition CREATE_ROLE : Z := 10.
Definition DROP_ROLE : Z := 11.
Definition GRANT_PRIVILEGES : Z := 12.
Definition REVOKE_PRIVILEGES : Z := 13.
Definition QUERY_ROLES : Z := 16.

Definition USER : Z := 0.
Definition PASSWORD : Z := 1.
Definition OLD_PASSWORD : Z := 2.
Definition ROLES : Z := 10.
Definition ROLE : Z := 11.
Definition PRIVILEGES : Z := 12.

Definition DEFAULT_TIMEOUT : Z := 60000.
Definition AS_USER_SIZE : Z := 64.
Definition AS_ROLE_SIZE : Z := 32.
Definition AS_PRIVILEGE_READ : Z := 10.
Definition AEROSPIKE_QUERY_END : Z := 50.
Definition AEROSPIKE_INVALID_USER : Z := 60.

(** Strings as they are stored: without the NUL behind them. *)
Record as_privilege := mk_privilege { priv_code : Z; priv_ns : list Z; priv_set : list Z }.
Record as_role := mk_role { role_name : list Z; role_privileges : list as_privilege }.
Record as_user := mk_user { user_name : list Z; user_roles : list (list Z) }.

(** What the functions use of the cluster: a random node, the name of a node (if it has not
    been freed), and the credentials of the client. *)
Class Admin (W : Type) := {
  admin_services :: Services W;
  node_get_random : W -> ures (option Z * W);
  name_of_node : W -> Z -> option (list Z);
  cluster_user : W -> option (list Z);
  cluster_password : W -> option (list Z);
  set_credentials : W -> list Z -> list Z -> W
}.

(** ** Passwords *)

Definition BCRYPT_PREFIX : list Z := [36; 50; 97; 36].

(** A hash is taken as it is. *)
Definition as_password_get_constant_hash (crypt : list Z -> list Z) (password : option (list Z)) : list Z :=
  let password := c_str (default [] password) in
  if (strlen password =? 60) && bool_decide (take 4 password = BCRYPT_PREFIX) then password else crypt password.

(** ** Messages *)

Section Messages.
Context `{Platform}.

(** A length byte and the string. *)
Definition as_admin_write_string (buf : list Z) (p : Z) (str : list Z) : wres :=
  '(buf, q) ← write_chars buf (p + 1) str;
  buf ← aset buf p (u8 (q - p - 1));
  Some (buf, q).

(** [roles] has [length] entries. *)
Definition as_admin_write_roles (buf : list Z) (p : Z) (roles : list (list Z)) : wres :=
  let q := p + FIELD_HEADER_SIZE in
  buf ← aset buf q (u8 (blen roles));
  '(buf, q) ← write_each as_admin_write_string buf (q + 1) roles;
  '(buf, _) ← as_admin_write_field_header buf p ROLES (i32 (q - p - FIELD_HEADER_SIZE));
  Some (buf, q).

(** [Some None]: a privilege that has no scope is given one. *)
Fixpoint write_privilege_list (buf : list Z) (q : Z) (privileges : list as_privilege) : option (option (list Z * Z)) :=
  match privileges with
  | [] => Some (Some (buf, q))
  | priv :: privileges =>
      buf ← aset buf q (u8 (priv_code priv));
      let q := q + 1 in
      if AS_PRIVILEGE_READ <=? priv_code priv then
        '(buf, q) ← as_admin_write_string buf q (priv_ns priv);
        '(buf, q) ← as_admin_write_string buf q (priv_set priv);
        write_privilege_list buf q privileges
      else if negb (strlen (priv_ns priv) =? 0) || negb (strlen (priv_set priv) =? 0) then Some None
      else write_privilege_list buf q privileges
  end.

Definition as_admin_write_privileges (buf : list Z) (p : Z) (privileges : list as_privilege) : option (option (list Z * Z)) :=
  let q := p + FIELD_HEADER_SIZE in
  buf ← aset buf q (u8 (blen privileges));
  r ← write_privilege_list buf (q + 1) privileges;
  match r with
  | None => Some None
  | Some (buf, q) =>
      '(buf, _) ← as_admin_write_field_header buf p PRIVILEGES (i32 (q - p - FIELD_HEADER_SIZE));
      Some (Some (buf, q))
  end.

(** A C string, as the writer of fields takes it; NULL is [None]. *)
Definition c_string (s : option (list Z)) : option (list Z) := c_str <$> s.
End Messages.

(** ** Requests *)

Section Requests.
Context `{Platform} `{Admin W}.
Context (stack : list Z).

(** The timeout of a policy, or the configured one. *)
Definition admin_timeout (config : Z) (policy : option Z) : Z :=
  let timeout_ms := default config policy in if timeout_ms <=? 0 then DEFAULT_TIMEOUT else timeout_ms.

(** The status, the error, the services, and what was taken, sent and given back. *)
Definition admin_result : Type := ures (Z * as_error * W * list event).

(** A node and a connection for the message [frame]; [serve] reads the answer. *)
Definition admin_request {R} (none : R) (w : W) (frame : option (list Z)) (deadline_ms : Z)
    (serve : W -> Z -> ures (Z * as_error * R * W)) : ures (Z * as_error * R * W * list event) :=
  let* (node, w) := node_get_random w in
  match node with
  | None => URet (AEROSPIKE_ERR_CLIENT, mk_error AEROSPIKE_ERR_CLIENT MNoNode, none, w, [])
  | Some n =>
      let* (status, fd, w) := as_node_get_connection w n in
      if negb (status =? 0) then
        let* w := as_node_release w n in
        let* name := lift (name_of_node w n) in
        URet (status, mk_error status (MNoConnection name), none, w, [NodeGet n; NodeRelease n])
      else
        let given evs := NodeGet n :: ConnGet n fd :: evs in
        let* cmd := lift frame in
        let* (status, w) := send w fd cmd deadline_ms in
        if negb (status =? 0) then
          let* w := as_close w fd in
          let* w := as_node_release w n in
          URet (status, mk_error status MNone, none, w, given [Sent fd cmd; ConnClose fd; NodeRelease n])
        else
          let* (status, err, r, w) := serve w fd in
          if negb (status =? 0) then
            let* w := as_close w fd in
            let* w := as_node_release w n in
            URet (status, err, r, w, given [Sent fd cmd; ConnClose fd; NodeRelease n])
          else
            let* w := as_node_put_connection w n fd in
            let* w := as_node_release w n in
            URet (status, err, r, w, given [Sent fd cmd; ConnPut n fd; NodeRelease n])
  end.

(** The header of the answer; what follows it stays in the connection. *)
Definition read_result_code (deadline_ms : Z) (w : W) (fd : Z) : ures (Z * as_error * Z * W) :=
  let* (status, bytes, w) := recv w fd HEADER_SIZE deadline_ms in
  if negb (status =? 0) then URet (status, mk_error status MNone, 0, w)
  else let* code := lift (mread bytes RESULT_CODE) in URet (AEROSPIKE_OK, no_error, code, w).

Definition as_admin_execute (config : Z) (w : W) (policy : option Z) (buffer : list Z) (end_ : Z) : admin_result :=
  let '(deadline_ms, w) := start_clock w (admin_timeout config policy) in
  let* (status, err, code, w, evs) := admin_request 0 w (admin_frame buffer end_) deadline_ms (read_result_code deadline_ms) in
  if negb (status =? 0) then URet (status, err, w, evs)
  else if negb (code =? 0) then URet (code, mk_error code (MString code), w, evs)
  else URet (code, err, w, evs).

(** A message that was written, to be executed. *)
Definition admin_command (config : Z) (w : W) (policy : option Z) (msg : wres) : admin_result :=
  let* (buffer, p) := lift msg in as_admin_execute config w policy buffer p.

Definition drop_user_command (user : option (list Z)) : wres :=
  '(buf, p) ← as_admin_write_header stack 8 DROP_USER 1; as_admin_write_field_string buf p USER (c_string user).

Definition aerospike_drop_user (config : Z) (w : W) (policy : option Z) (user : option (list Z)) : admin_result :=
  admin_command config w policy (drop_user_command user).

Definition create_user_command (user : option (list Z)) (hash : list Z) (roles : list (list Z)) : wres :=
  '(buf, p) ← as_admin_write_header stack 8 CREATE_USER 3;
  '(buf, p) ← as_admin_write_field_string buf p USER (c_string user);
  '(buf, p) ← as_admin_write_field_string buf p PASSWORD (c_string (Some hash));
  as_admin_write_roles buf p roles.

Context (crypt : list Z -> list Z).

Definition aerospike_create_user (config : Z) (w : W) (policy : option Z) (user password : option (list Z)) (roles : list (list Z)) : admin_result :=
  admin_command config w policy (create_user_command user (as_password_get_constant_hash crypt password) roles).

Definition roles_command (command : Z) (user : option (list Z)) (roles : list (list Z)) : wres :=
  '(buf, p) ← as_admin_write_header stack 8 command 2;
  '(buf, p) ← as_admin_write_field_string buf p USER (c_string user);
  as_admin_write_roles buf p roles.

Definition aerospike_grant_roles (config : Z) (w : W) (policy : option Z) (user : option (list Z)) (roles : list (list Z)) : admin_result :=
  admin_command config w policy (roles_command GRANT_ROLES user roles).
Definition aerospike_revoke_roles (config : Z) (w : W) (policy : option Z) (user : option (list Z)) (roles : list (list Z)) : admin_result :=
  admin_command config w policy (roles_command REVOKE_ROLES user roles).

(** A refused privilege ends the call before anything is sent. *)
Definition privileges_command (command : Z) (role : option (list Z)) (privileges : list as_privilege) : option (option (list Z * Z)) :=
  '(buf, p) ← as_admin_write_header stack 8 command 2;
  '(buf, p) ← as_admin_write_field_string buf p ROLE (c_string role);
  as_admin_write_privileges buf p privileges.

Definition change_privileges (command : Z) (config : Z) (w : W) (policy : option Z) (role : option (list Z)) (privileges : list as_privilege) : admin_result :=
  let* r := lift (privileges_command command role privileges) in
  match r with
  | None => URet (AEROSPIKE_ERR_PARAM, mk_error AEROSPIKE_ERR_PARAM MScopedPrivilege, w, [])
  | Some (buffer, p) => as_admin_execute config w policy buffer p
  end.

Definition aerospike_create_role := change_privileges CREATE_ROLE.
Definition aerospike_grant_privileges := change_privileges GRANT_PRIVILEGES.
Definition aerospike_revoke_privileges := change_privileges REVOKE_PRIVILEGES.

Definition drop_role_command (role : option (list Z)) : wres :=
  '(buf, p) ← as_admin_write_header stack 8 DROP_ROLE 1; as_admin_write_field_string buf p ROLE (c_string role).

Definition aerospike_drop_role (config : Z) (w : W) (policy : option Z) (role : option (list Z)) : admin_result :=
  admin_command config w policy (drop_role_command role).

(** ** The client's own password *)

(** A string of the caller, or the one that the cluster holds. *)
Inductive user_arg := Given (user : list Z) | OwnUser.

Definition the_user (w : W) (user : user_arg) : option (list Z) :=
  match user with Given u => Some u | OwnUser => cluster_user w end.

(** The old strings are freed before the new ones are copied: [None] when the copy reads a
    freed one. *)
Definition as_cluster_change_password (w : W) (user : user_arg) (password : list Z) : option W :=
  match c_string (the_user w user) with
  | None | Some [] => Some w
  | Some u =>
      if bool_decide (cluster_user w = None \/ c_string (cluster_user w) = Some u) then
        match user with
        | OwnUser => None
        | Given _ => Some (set_credentials w u (c_str password))
        end
      else Some w
  end.

Definition user_or_own (user : option (list Z)) : user_arg := match user with Some u => Given u | None => OwnUser end.

Definition changing_password (config : Z) (w : W) (policy : option Z) (user : user_arg) (hash : list Z) (msg : wres) : admin_result :=
  let* (status, err, w, evs) := admin_command config w policy msg in
  if status =? 0 then let* w := lift (as_cluster_change_password w user hash) in URet (status, err, w, evs)
  else URet (status, err, w, evs).

Definition set_password_command (user : option (list Z)) (hash : list Z) : wres :=
  '(buf, p) ← as_admin_write_header stack 8 SET_PASSWORD 2;
  '(buf, p) ← as_admin_write_field_string buf p USER (c_string user);
  as_admin_write_field_string buf p PASSWORD (c_string (Some hash)).

Definition aerospike_set_password (config : Z) (w : W) (policy : option Z) (user password : option (list Z)) : admin_result :=
  let hash := as_password_get_constant_hash crypt password in
  let user := user_or_own user in
  changing_password config w policy user hash (set_password_command (the_user w user) hash).

Definition change_password_command (user old : option (list Z)) (hash : list Z) : wres :=
  '(buf, p) ← as_admin_write_header stack 8 CHANGE_PASSWORD 3;
  '(buf, p) ← as_admin_write_field_string buf p USER (c_string user);
  '(buf, p) ← as_admin_write_field_string buf p OLD_PASSWORD (c_string old);
  as_admin_write_field_string buf p PASSWORD (c_string (Some hash)).

Definition aerospike_change_password (config : Z) (w : W) (policy : option Z) (user password : option (list Z)) : admin_result :=
  let hash := as_password_get_constant_hash crypt password in
  let user := user_or_own user in
  changing_password config w policy user hash (change_password_command (the_user w user) (cluster_password w) hash).
End Requests.

(** ** Users and roles of a server *)

(** [memcpy(to, p, sz); to[sz] = 0; p += len] with [sz] at most [max - 1]: a negative length
    is a huge one. *)
Definition read_name (buf : list Z) (p len max : Z) : option (list Z * Z) :=
  name ← mslice buf p (if len <=? max - 1 then len else max - 1); Some (name, p + len).

Fixpoint parse_role_names (n : nat) (buf : list Z) (p : Z) : option (list (list Z) * Z) :=
  match n with
  | O => Some ([], p)
  | S n =>
      len ← mread buf p;
      '(role, p) ← read_name buf (p + 1) len AS_ROLE_SIZE;
      '(roles, p) ← parse_role_names n buf p;
      Some (role :: roles, p)
  end.

Definition as_parse_users_roles (buf : list Z) (p : Z) : option (list (list Z) * Z) :=
  size ← mread buf p; parse_role_names (Z.to_nat size) buf (p + 1).

Definition parse_privilege (buf : list Z) (p : Z) : option (as_privilege * Z) :=
  code ← mread buf p;
  let p := p + 1 in
  if AS_PRIVILEGE_READ <=? code then
    len ← mread buf p;
    '(ns, p) ← read_name buf (p + 1) len AS_NAMESPACE_MAX_SIZE;
    len ← mread buf p;
    '(set, p) ← read_name buf (p + 1) len AS_SET_MAX_SIZE;
    Some (mk_privilege code ns set, p)
  else Some (mk_privilege code [] [], p).

Fixpoint parse_privilege_list (n : nat) (buf : list Z) (p : Z) : option (list as_privilege * Z) :=
  match n with
  | O => Some ([], p)
  | S n =>
      '(priv, p) ← parse_privilege buf p;
      '(privs, p) ← parse_privilege_list n buf p;
      Some (priv :: privs, p)
  end.

Definition as_parse_privileges (buf : list Z) (p : Z) : option (list as_privilege * Z) :=
  size ← mread buf p; parse_privilege_list (Z.to_nat size) buf (p + 1).

Section Lists.
Context `{Platform}.

(** The two parsers differ in the field of the name, its size, and the field of the list;
    [X] are the elements of the list, [T] the objects. *)
Context {X T : Type} (name_field name_size list_field : Z) (parse_list : list Z -> Z -> option (list X * Z)) (object : list Z -> list X -> T).

(** The fields of one object: its name, and its list if there is one. *)
Fixpoint parse_object_fields (n : nat) (buf : list Z) (p : Z) (name : list Z) (l : option (list X)) : option (list Z * option (list X) * Z) :=
  match n with
  | O => Some (name, l, p)
  | S n =>
      len ← load_be32 buf p;
      id ← mread buf (p + 4);
      let len := i32 (i32 len - 1) in
      let p := p + 5 in
      if id =? name_field then '(name, p) ← read_name buf p len name_size; parse_object_fields n buf p name l
      else if id =? list_field then '(l, p) ← parse_list buf p; parse_object_fields n buf p name (Some l)
      else parse_object_fields n buf (p + len) name l
  end.

(** [while (p < end)]; a length may lead back, so that the number of turns is not bounded by
    the size. *)
Fixpoint parse_objects_loop (n : nat) (buf : list Z) (size p : Z) (objs : as_vector T) : ures (Z * as_vector T) :=
  match n with
  | O => Deep
  | S n =>
      if negb (p <? size) then URet (AEROSPIKE_OK, objs)
      else
        let* result := lift (mread buf (p + 1)) in
        if negb (result =? 0) then URet (result, objs)
        else
          let* field_count := lift (mread buf (p + 3)) in
          let* (name, l, p) := lift (parse_object_fields (Z.to_nat field_count) buf (p + HEADER_REMAINING) [] None) in
          match c_str name, l with
          | [], None => parse_objects_loop n buf size p objs
          | name, l =>
              let* objs := lift (as_vector_append true objs (object name (default [] l))) in
              parse_objects_loop n buf size p objs
          end
  end.
End Lists.

Section Queries.
Context `{Platform} `{Admin W}.
Context (stack : list Z) (fuel groups : nat).

Definition as_parse_users (buf : list Z) (size : Z) (err : as_error) (users : as_vector as_user) : ures (Z * as_error * as_vector as_user) :=
  let* (status, users) := parse_objects_loop USER AS_USER_SIZE ROLES as_parse_users_roles mk_user fuel buf size 0 users in
  URet (status, err, users).

Definition as_parse_roles (buf : list Z) (size : Z) (err : as_error) (roles : as_vector as_role) : ures (Z * as_error * as_vector as_role) :=
  let* (status, roles) := parse_objects_loop ROLE AS_ROLE_SIZE PRIVILEGES as_parse_privileges mk_role fuel buf size 0 roles in
  URet (status, err, roles).

Section Objects.
Context {T : Type} (parse_fn : list Z -> Z -> as_error -> as_vector T -> ures (Z * as_error * as_vector T)).

Definition as_admin_read_blocks (deadline_ms : Z) (objs : as_vector T) (w : W) (fd : Z) : ures (Z * as_error * as_vector T * W) :=
  parse_groups AEROSPIKE_QUERY_END parse_fn set_message (H0 := fd_reader fd deadline_ms) groups [] w no_error objs.

(** [int timeout_ms]. *)
Definition list_timeout (config : Z) (policy : option Z) : Z :=
  let timeout_ms := i32 (default config policy) in if timeout_ms <=? 0 then DEFAULT_TIMEOUT else timeout_ms.

Definition as_admin_read_list (config : Z) (w : W) (policy : option Z) (command : list Z) (end_ : Z) (objs : as_vector T)
  : ures (Z * as_error * as_vector T * W * list event) :=
  let '(ms, w) := cf_getms w in
  let deadline_ms := u64 (ms + list_timeout config policy) in
  admin_request objs w (admin_frame command end_) deadline_ms (as_admin_read_blocks deadline_ms objs).

(** The objects from [offset] on are freed, with the vector. *)
Fixpoint free_objects (n : nat) (objs : as_vector T) (i : Z) : option (list T) :=
  match n with
  | O => Some []
  | S n => x ← as_vector_get objs i; l ← free_objects n objs (i + 1); Some (x :: l)
  end.
Definition as_free_objects (objs : as_vector T) (offset : Z) : option (list T) :=
  free_objects (Z.to_nat (Vector.size objs - offset)) objs offset.

(** The first object is the result; those that were freed. *)
Definition query_one (config : Z) (w : W) (policy : option Z) (msg : wres) : ures (Z * as_error * option T * list T * W * list event) :=
  let* (buffer, p) := lift msg in
  let* (status, err, objs, w, evs) := as_admin_read_list config w policy buffer p (as_vector_inita 8 1) in
  if status =? AEROSPIKE_OK then
    if Vector.size objs =? 0 then let* freed := lift (as_free_objects objs 0) in URet (status, err, None, freed, w, evs)
    else
      let* x := lift (as_vector_get objs 0) in
      let* freed := lift (if Vector.size objs =? 1 then Some [] else as_free_objects objs 1) in
      URet (status, err, Some x, freed, w, evs)
  else let* freed := lift (as_free_objects objs 0) in URet (status, err, None, freed, w, evs).

(** The array of the vector is the result; [None] for NULL. *)
Definition query_all (config : Z) (w : W) (policy : option Z) (msg : wres)
  : ures (Z * as_error * option (as_vector T) * list T * W * list event) :=
  let* (buffer, p) := lift msg in
  let* (status, err, objs, w, evs) := as_admin_read_list config w policy buffer p (as_vector_init true 8 100) in
  if status =? AEROSPIKE_OK then URet (status, err, Some objs, [], w, evs)
  else let* freed := lift (as_free_objects objs 0) in URet (status, err, None, freed, w, evs).
End Objects.

Definition query_command_for (command field : Z) (name : option (list Z)) : wres :=
  '(buf, p) ← as_admin_write_header stack 8 command 1; as_admin_write_field_string buf p field (c_string name).

Definition aerospike_query_user (config : Z) (w : W) (policy : option Z) (user_name : option (list Z))
  : ures (Z * as_error * option as_user * list as_user * W * list event) :=
  match (match user_name with Some u => Some u | None => cluster_user w end) with
  | None => URet (AEROSPIKE_INVALID_USER, no_error, None, [], w, [])
  | Some u => query_one as_parse_users config w policy (query_command_for QUERY_USERS USER (Some u))
  end.

Definition aerospike_query_users (config : Z) (w : W) (policy : option Z) :=
  query_all as_parse_users config w policy (as_admin_write_header stack 8 QUERY_USERS 0).

Definition aerospike_query_role (config : Z) (w : W) (policy : option Z) (role_name : option (list Z)) :=
  query_one as_parse_roles config w policy (query_command_for QUERY_ROLES ROLE role_name).

Definition aerospike_query_roles (config : Z) (w : W) (policy : option Z) :=
  query_all as_parse_roles config w policy (as_admin_write_header stack 8 QUERY_ROLES 0).
End Queries.

(** ** What is sent *)

(** [f] writes [bs] where it points, and is undefined where they do not fit. *)
Definition puts (f : list Z -> Z -> wres) (bs : list Z) : Prop :=
  forall buf p, 0 <= p <= blen buf -> f buf p = (buf ← mwrite buf p bs; Some (buf, p + blen bs)).

Lemma mwrite_none {A} (m : list A) off src : blen m < off + blen src -> mwrite m off src = None.
Proof. intros Hl. unfold mwrite. by rewrite decide_False by lia. Qed.

Lemma puts_intro f bs :
  writes f bs -> (forall buf p, 0 <= p <= blen buf -> blen buf < p + blen bs -> f buf p = None) -> puts f bs.
Proof.
  intros Hw Ho buf p Hp. destruct (decide (blen buf < p + blen bs)) as [Hl|Hl].
  { rewrite mwrite_none by done. by apply Ho. }
  destruct (split_at_nat (Z.to_nat p) buf) as (pre & r & -> & H1); [lia|]. rewrite length_app in Hl.
  destruct (split_at_nat (length bs) r) as (old & post & -> & H2); [lia|].
  replace p with (blen pre) by lia. rewrite Hw by done. by rewrite mwrite_at.
Qed.

Lemma puts_writes f bs : puts f bs -> writes f bs.
Proof. intros Hf pre old post Hl. rewrite Hf by (rewrite length_app; lia). by rewrite mwrite_at. Qed.

Lemma puts_none f bs buf p : puts f bs -> 0 <= p <= blen buf -> blen buf < p + blen bs -> f buf p = None.
Proof. intros Hf Hp Hl. by rewrite Hf, mwrite_none. Qed.

Lemma puts_length f bs buf p buf' q : puts f bs -> 0 <= p <= blen buf -> f buf p = Some (buf', q) -> blen buf' = blen buf /\ q = p + blen bs.
Proof.
  intros Hf Hp. rewrite Hf by done. destruct (mwrite buf p bs) as [b|] eqn:E; [|done]. intros [= <- <-].
  apply mwrite_length in E. by rewrite E.
Qed.

Lemma puts_seq f g b1 b2 : puts f b1 -> puts g b2 -> puts (fun buf p => '(buf, p) ← f buf p; g buf p) (b1 ++ b2).
Proof.
  intros Hf Hg. apply puts_intro; [by apply writes_seq; apply puts_writes|].
  intros buf p Hp Hl. rewrite length_app in Hl. destruct (f buf p) as [[buf' q]|] eqn:E; [|done].
  pose proof E as [H1 ->]%(puts_length _ b1); [|done..]. cbn [mbind option_bind].
  destruct (decide (blen buf < p + blen b1)); [by rewrite (puts_none _ b1) in E by (done || lia)|].
  apply (puts_none _ b2); [done|lia..].
Qed.

Lemma puts_ext f g bs : (forall buf p, f buf p = g buf p) -> puts f bs -> puts g bs.
Proof. intros He Hf buf p Hp. rewrite <- He. by apply Hf. Qed.

Lemma puts_nil : puts (fun buf p => Some (buf, p)) [].
Proof. apply puts_intro; [apply writes_nil|]. cbn [length]. lia. Qed.

Section MessageProofs.
Context `{Platform}.

(** The fixed part behind the first eight bytes. *)
Definition admin_head (command field_count : Z) : list Z := [0; 0; command; field_count] ++ replicate 12 0.

Lemma puts_header command field_count :
  puts (fun buf p => as_admin_write_header buf p command field_count) (admin_head (u8 command) (u8 field_count)).
Proof.
  apply puts_intro.
  - intros pre old post Hl. unfold as_admin_write_header. rewrite mwrite_at by done. cbn [mbind option_bind].
    change (replicate 16 0) with ([0; 0] ++ [0] ++ 0 :: replicate 12 0).
    rewrite <- !app_assoc, (app_assoc pre), mwrite_at by (done || rewrite length_app; simpl; lia).
    cbn [mbind option_bind]. rewrite <- app_assoc.
    replace (pre ++ [0; 0] ++ [u8 command] ++ (0 :: replicate 12 0) ++ post)
      with ((pre ++ [0; 0; u8 command]) ++ [0] ++ replicate 12 0 ++ post) by (by rewrite <- app_assoc).
    rewrite mwrite_at by (done || rewrite length_app; simpl; lia). cbn [mbind option_bind]. by rewrite <- app_assoc.
  - intros buf p Hp Hl. unfold as_admin_write_header. by rewrite mwrite_none.
Qed.

Lemma aset_none {A} (m : list A) i x : blen m <= i -> aset m i x = None.
Proof. intros Hi. unfold aset. by rewrite decide_False by lia. Qed.

Lemma chars_none buf p s : 0 <= p -> blen buf < p + strlen s -> strlen s <> 0 -> write_chars buf p s = None.
Proof.
  unfold strlen. revert buf p. induction s as [|c s IH]; intros buf p Hp Hl Hs; cbn [c_str write_chars] in *; [done|].
  destruct (c =? 0); [done|]. rewrite length_cons in *.
  destruct (decide (blen buf <= p)); [by rewrite aset_none|].
  rewrite aset_Some by lia. cbn [mbind option_bind]. apply IH; rewrite ?length_insert; lia.
Qed.

(** A string behind its length. *)
Lemma puts_string s : strlen s < 256 -> puts (fun buf p => as_admin_write_string buf p s) (wire_counted (c_str s)).
Proof.
  intros Hs. apply puts_intro.
  - eapply writes_ext; [|by apply writes_counted]. intros buf p. unfold write_counted, as_admin_write_string.
    destruct (write_chars buf (p + 1) s) as [[b q]|]; [|done]. cbn [mbind option_bind]. by rewrite Z.sub_add_distr.
  - intros buf p Hp Hl. unfold wire_counted in Hl. rewrite length_cons in Hl. unfold as_admin_write_string.
    destruct (decide (strlen s = 0)) as [Hz|Hz].
    + assert (write_chars buf (p + 1) s = Some (buf, p + 1)) as ->.
      { destruct s as [|c s]; [done|]. unfold strlen in Hz. cbn [c_str write_chars] in *. by destruct (c =? 0). }
      cbn [mbind option_bind]. unfold strlen in Hz. by rewrite aset_none by lia.
    + by rewrite chars_none by (unfold strlen; unfold strlen in Hz; lia).
Qed.

Lemma puts_each {A} (write : list Z -> Z -> A -> wres) (bs : A -> list Z) (l : list A) :
  Forall (fun x => puts (fun buf p => write buf p x) (bs x)) l ->
  puts (fun buf p => write_each write buf p l) (mjoin (map bs l)).
Proof.
  induction l as [|x l IH]; intros Hl; [apply puts_nil|]. apply Forall_cons in Hl as [Hx Hl].
  rewrite map_cons, join_cons. cbn [write_each]. by apply puts_seq; [|apply IH].
Qed.

Lemma puts_typed t f bs : puts f bs -> puts (fun buf p => buf ← aset buf p t; f buf (p + 1)) (t :: bs).
Proof.
  intros Hf. apply puts_intro; [by apply writes_typed, puts_writes|]. intros buf p Hp Hl. rewrite length_cons in Hl.
  destruct (decide (blen buf <= p)); [by rewrite aset_none|]. rewrite aset_Some by lia. cbn [mbind option_bind].
  apply (puts_none _ bs); [done|rewrite ?length_insert; lia..].
Qed.

Lemma i32_mod z : i32 z mod 2 ^ 32 = z mod 2 ^ 32.
Proof. unfold i32. rewrite Zminus_mod_idemp_l. f_equal. lia. Qed.

Lemma writes_admin_header id n :
  writes (fun buf p => as_admin_write_field_header buf p id n) (be_bytes 4 (n + 1) ++ [u8 id]).
Proof.
  intros pre old post Hl. rewrite length_app, be_bytes_length in Hl. simpl in Hl. unfold as_admin_write_field_header.
  destruct (split_at_nat 4 old) as (o1 & o2 & -> & H1); [lia|]. rewrite length_app in Hl.
  rewrite put_be32_eq, <- app_assoc, mwrite_at by (rewrite ?be_bytes_length; done). cbn [mbind option_bind].
  rewrite (app_assoc pre), mwrite_at by (rewrite ?length_app, ?be_bytes_length; simpl; lia). cbn [mbind option_bind].
  rewrite <- !app_assoc, (be_bytes_4_eq (i32 (n + 1)) (n + 1)), !length_app, be_bytes_length.
  - do 2 f_equal.
  - apply i32_mod.
Qed.

(** The header of a field whose content is there. *)
Lemma admin_header_back id bs n pre old post (q : Z) :
  length old = 5%nat -> n mod 2 ^ 32 = blen bs mod 2 ^ 32 ->
  ('(buf, _) ← as_admin_write_field_header (pre ++ old ++ bs ++ post) (blen pre) id n; Some (buf, q))
  = Some (pre ++ wire_field (u8 id) bs ++ post, q).
Proof.
  intros Ho Hn. rewrite writes_admin_header by (by rewrite length_app, be_bytes_length).
  cbn [mbind option_bind]. unfold wire_field. rewrite (be_bytes_4_eq (n + 1) (blen bs + 1)).
  - by rewrite <- !app_assoc.
  - by rewrite <- Z.add_mod_idemp_l, Hn, Z.add_mod_idemp_l by lia.
Qed.

(** A list behind its count, behind room for the header of its field. *)
Lemma puts_field id t f bs :
  puts f bs ->
  puts (fun buf p => buf ← aset buf (p + FIELD_HEADER_SIZE) t; '(buf, q) ← f buf (p + FIELD_HEADER_SIZE + 1);
                     '(buf, _) ← as_admin_write_field_header buf p id (i32 (q - p - FIELD_HEADER_SIZE)); Some (buf, q))
    (wire_field (u8 id) (t :: bs)).
Proof.
  intros Hf%(puts_typed t). unfold FIELD_HEADER_SIZE. apply puts_intro.
  - intros pre old post Hl. rewrite wire_field_length in *.
    destruct (write_behind _ _ 5 pre old post (puts_writes _ _ Hf) Hl) as (o1 & o2 & -> & H1 & Hw).
    change (Z.of_nat 5) with 5 in Hw. destruct (aset _ _ _) as [b|]; [|done]. cbn [mbind option_bind] in *. rewrite Hw.
    cbn [mbind option_bind]. rewrite admin_header_back; [do 2 f_equal; lia|done|]. rewrite i32_mod. f_equal. lia.
  - intros buf p Hp Hl. rewrite wire_field_length in Hl. pose proof (puts_none _ _ buf (p + 5) Hf) as Hn. cbv beta in Hn.
    destruct (decide (blen buf <= p + 5)); [by rewrite aset_none|].
    destruct (aset buf (p + 5) t) as [b|]; [|done]. cbn [mbind option_bind] in *. by rewrite Hn by lia.
Qed.

Lemma puts_field_string id s : puts (fun buf p => as_admin_write_field_string buf p id (Some s)) (wire_field (u8 id) s).
Proof.
  unfold as_admin_write_field_string, FIELD_HEADER_SIZE. cbn [mbind option_bind]. apply puts_intro.
  - intros pre old post Hl. rewrite wire_field_length in *.
    destruct (write_behind _ _ 5 pre old post (writes_mwrite s) Hl) as (o1 & o2 & -> & H1 & Hw).
    change (Z.of_nat 5) with 5 in Hw. destruct (mwrite _ _ s) as [b|]; [|done]. cbn [mbind option_bind] in *.
    injection Hw as ->. rewrite admin_header_back by done. do 2 f_equal. lia.
  - intros buf p Hp Hl. rewrite wire_field_length in Hl. by rewrite mwrite_none by lia.
Qed.

(** The names of roles. *)
Definition wire_names (names : list (list Z)) : list Z :=
  blen names :: mjoin (map (fun n => wire_counted (c_str n)) names).
Definition short_names (names : list (list Z)) : Prop := blen names < 256 /\ Forall (fun name => strlen name < 256) names.

Lemma puts_roles roles :
  short_names roles ->
  puts (fun buf p => as_admin_write_roles buf p roles) (wire_field ROLES (wire_names roles)).
Proof.
  intros [Hn Hr]. unfold wire_names. rewrite <- (u8_id (blen roles)) by (unfold is_byte; lia).
  apply (puts_field ROLES _ (fun buf p => write_each as_admin_write_string buf p roles)), puts_each.
  eapply Forall_impl; [exact Hr|]. intros role. apply puts_string.
Qed.

Definition wire_privilege (p : as_privilege) : list Z :=
  priv_code p :: (if AS_PRIVILEGE_READ <=? priv_code p then wire_counted (c_str (priv_ns p)) ++ wire_counted (c_str (priv_set p)) else []).
Definition wire_privileges (l : list as_privilege) : list Z := blen l :: mjoin (map wire_privilege l).

(** A scope that its privilege may not have. *)
Definition misscoped (p : as_privilege) : bool :=
  negb (AS_PRIVILEGE_READ <=? priv_code p) && (negb (strlen (priv_ns p) =? 0) || negb (strlen (priv_set p) =? 0)).
Definition short_scope (p : as_privilege) : Prop :=
  is_byte (priv_code p) /\ strlen (priv_ns p) < 256 /\ strlen (priv_set p) < 256.

Lemma privilege_step p : short_scope p -> misscoped p = false ->
  exists f, puts f (wire_privilege p) /\
    forall buf q l, write_privilege_list buf q (p :: l) = ('(buf, q) ← f buf q; write_privilege_list buf q l).
Proof.
  intros (Hc & Hns & Hset) Hm. unfold misscoped in Hm. unfold wire_privilege. cbn [write_privilege_list].
  rewrite (u8_id (priv_code p)) by done.
  destruct (AS_PRIVILEGE_READ <=? priv_code p); cbn [negb andb] in Hm.
  - eexists. split; [exact (puts_typed _ _ _ (puts_seq _ _ _ _ (puts_string _ Hns) (puts_string _ Hset)))|].
    intros buf q l. cbv beta zeta. chain.
  - rewrite Hm. eexists. split; [exact (puts_typed _ _ _ puts_nil)|]. intros buf q l. cbv beta zeta. chain.
Qed.

Lemma privileges_puts l : Forall short_scope l -> Forall (fun p => misscoped p = false) l ->
  exists f, puts f (mjoin (map wire_privilege l)) /\ forall buf q k, write_privilege_list buf q (l ++ k) = ('(buf, q) ← f buf q; write_privilege_list buf q k).
Proof.
  induction l as [|p l IH]; intros Hs Hm.
  { eexists. split; [exact puts_nil|]. done. }
  apply Forall_cons in Hs as [Hp Hs]. apply Forall_cons in Hm as [Hmp Hm].
  destruct (privilege_step p Hp Hmp) as (f & Hf & Ef). destruct (IH Hs Hm) as (g & Hg & Eg).
  eexists. split; [exact (puts_seq _ _ _ _ Hf Hg)|]. intros buf q k. cbn [app]. rewrite Ef. cbv beta.
  destruct (f buf q) as [[b q']|]; [|done]. cbn [mbind option_bind]. apply Eg.
Qed.

Lemma puts_privileges l : blen l < 256 -> Forall short_scope l -> Forall (fun p => misscoped p = false) l ->
  exists f, puts f (wire_field PRIVILEGES (wire_privileges l)) /\ forall buf p, as_admin_write_privileges buf p l = Some <$> f buf p.
Proof.
  intros Hn Hs Hm. destruct (privileges_puts l Hs Hm) as (f & Hf & Ef).
  unfold wire_privileges. rewrite <- (u8_id (blen l)) by (unfold is_byte; lia).
  eexists. split; [exact (puts_field PRIVILEGES (u8 (blen l)) f _ Hf)|]. intros buf p. cbv beta.
  unfold as_admin_write_privileges. destruct (aset buf _ _) as [b|]; [|done]. cbn [mbind option_bind].
  specialize (Ef b (p + FIELD_HEADER_SIZE + 1) []). rewrite app_nil_r in Ef. rewrite Ef.
  destruct (f b _) as [[b' q]|]; [|done]. cbn [mbind option_bind write_privilege_list].
  by destruct (as_admin_write_field_header _ _ _ _) as [[b'' ?]|].
Qed.

(** The privileges before the one that is refused are written, and its code. *)
Lemma privileges_refused l p k buf q : Forall short_scope l -> Forall (fun p => misscoped p = false) l ->
  misscoped p = true -> 0 <= q -> q + blen (mjoin (map wire_privilege l)) < blen buf ->
  write_privilege_list buf q (l ++ p :: k) = Some None.
Proof.
  intros Hs Hm Hp Hq Hl. destruct (privileges_puts l Hs Hm) as (f & Hf & Ef). rewrite Ef, Hf by lia.
  destruct (mwrite_fits buf q (mjoin (map wire_privilege l))) as (b & -> & Hb); [lia..|]. cbn [mbind option_bind write_privilege_list].
  rewrite aset_Some by lia. cbn [mbind option_bind]. apply andb_true_iff in Hp as [Hc ->]. by apply negb_true_iff in Hc as ->.
Qed.

(** *** Whole messages *)

Definition AS_ADMIN_VERSION : Z := 0.
Definition AS_ADMIN_TYPE : Z := 2.

(** The commands, with what they carry. *)
Inductive admin_op :=
  | CreateUser (user password : list Z) (roles : list (list Z))
  | DropUser (user : list Z)
  | SetPassword (user password : list Z)
  | ChangePassword (user old password : list Z)
  | GrantRoles (user : list Z) (roles : list (list Z))
  | RevokeRoles (user : list Z) (roles : list (list Z))
  | CreateRole (role : list Z) (privileges : list as_privilege)
  | DropRole (role : list Z)
  | GrantPrivileges (role : list Z) (privileges : list as_privilege)
  | RevokePrivileges (role : list Z) (privileges : list as_privilege)
  | QueryUser (user : list Z)
  | QueryUsers
  | QueryRole (role : list Z)
  | QueryRoles.

Definition op_command (op : admin_op) : Z :=
  match op with
  | CreateUser _ _ _ => 1 | DropUser _ => 2 | SetPassword _ _ => 3 | ChangePassword _ _ _ => 4
  | GrantRoles _ _ => 5 | RevokeRoles _ _ => 6 | QueryUser _ | QueryUsers => 9
  | CreateRole _ _ => 10 | DropRole _ => 11 | GrantPrivileges _ _ => 12 | RevokePrivileges _ _ => 13
  | QueryRole _ | QueryRoles => 16
  end.

Context (crypt : list Z -> list Z).
Definition sent_hash (password : list Z) : list Z := as_password_get_constant_hash crypt (Some password).

(** Their fields, by the numbers of the protocol. *)
Definition op_fields (op : admin_op) : list (Z * list Z) :=
  match op with
  | CreateUser user password roles => [(0, c_str user); (1, c_str (sent_hash password)); (10, wire_names roles)]
  | DropUser user | QueryUser user => [(0, c_str user)]
  | SetPassword user password => [(0, c_str user); (1, c_str (sent_hash password))]
  | ChangePassword user old password => [(0, c_str user); (2, c_str old); (1, c_str (sent_hash password))]
  | GrantRoles user roles | RevokeRoles user roles => [(0, c_str user); (10, wire_names roles)]
  | CreateRole role privileges | GrantPrivileges role privileges | RevokePrivileges role privileges =>
      [(11, c_str role); (12, wire_privileges privileges)]
  | DropRole role | QueryRole role => [(11, c_str role)]
  | QueryUsers | QueryRoles => []
  end.

Definition op_body (op : admin_op) : list Z :=
  admin_head (op_command op) (blen (op_fields op)) ++ wire_fields (op_fields op).
Definition op_message (op : admin_op) : list Z := group AS_ADMIN_VERSION AS_ADMIN_TYPE (op_body op).

(** Names and lists whose lengths fit into a byte; privileges that may have their scope. *)
Definition op_ok (op : admin_op) : Prop :=
  match op with
  | CreateUser _ _ roles | GrantRoles _ roles | RevokeRoles _ roles => short_names roles
  | CreateRole _ l | GrantPrivileges _ l | RevokePrivileges _ l =>
      blen l < 256 /\ Forall short_scope l /\ Forall (fun p => misscoped p = false) l
  | _ => True
  end.

(** What the functions write into the buffer on the stack. *)
Definition op_written (stack : list Z) (op : admin_op) : option (option (list Z * Z)) :=
  match op with
  | CreateUser user password roles => Some <$> create_user_command stack (Some user) (sent_hash password) roles
  | DropUser user => Some <$> drop_user_command stack (Some user)
  | SetPassword user password => Some <$> set_password_command stack (Some user) (sent_hash password)
  | ChangePassword user old password => Some <$> change_password_command stack (Some user) (Some old) (sent_hash password)
  | GrantRoles user roles => Some <$> roles_command stack GRANT_ROLES (Some user) roles
  | RevokeRoles user roles => Some <$> roles_command stack REVOKE_ROLES (Some user) roles
  | CreateRole role l => privileges_command stack CREATE_ROLE (Some role) l
  | DropRole role => Some <$> drop_role_command stack (Some role)
  | GrantPrivileges role l => privileges_command stack GRANT_PRIVILEGES (Some role) l
  | RevokePrivileges role l => privileges_command stack REVOKE_PRIVILEGES (Some role) l
  | QueryUser user => Some <$> query_command_for stack QUERY_USERS USER (Some user)
  | QueryUsers => Some <$> as_admin_write_header stack 8 QUERY_USERS 0
  | QueryRole role => Some <$> query_command_for stack QUERY_ROLES ROLE (Some role)
  | QueryRoles => Some <$> as_admin_write_header stack 8 QUERY_ROLES 0
  end.

Lemma privileges_command_puts command role l :
  blen l < 256 -> Forall short_scope l -> Forall (fun p => misscoped p = false) l ->
  exists f, puts f (admin_head (u8 command) 2 ++ wire_field 11 (c_str role) ++ wire_field 12 (wire_privileges l))
    /\ forall stack, privileges_command stack command (Some role) l = Some <$> f stack 8.
Proof.
  intros Hn Hs Hm. destruct (puts_privileges l Hn Hs Hm) as (f & Hf & Ef).
  eexists. split.
  - exact (puts_seq _ _ _ _ (puts_header command 2) (puts_seq _ _ _ _ (puts_field_string 11 (c_str role)) Hf)).
  - intros stack. unfold privileges_command. cbv beta.
    destruct (as_admin_write_header _ _ _ _) as [[b p]|]; [|done]. cbn [mbind option_bind].
    change (as_admin_write_field_string b p ROLE (c_string (Some role))) with (as_admin_write_field_string b p 11 (Some (c_str role))).
    destruct (as_admin_write_field_string _ _ _ _) as [[b' p']|]; [|done]. cbn [mbind option_bind]. apply Ef.
Qed.

Lemma op_puts op : op_ok op -> exists f, puts f (op_body op) /\ forall stack, op_written stack op = Some <$> f stack 8.
Proof.
  pose proof (fun c n => puts_header c n) as Hh. pose proof (fun id s => puts_field_string id (c_str s)) as Hf.
  pose proof (fun c id s => puts_seq _ _ _ _ (Hh c 1) (Hf id s)) as H1.
  pose proof (fun c id s g bs Hg => puts_seq _ _ _ _ (Hh c 2) (puts_seq _ g _ bs (Hf id s) Hg)) as H2.
  pose proof (fun c id1 s1 id2 s2 g bs Hg => puts_seq _ _ _ _ (Hh c 3) (puts_seq _ _ _ _ (Hf id1 s1) (puts_seq _ g _ bs (Hf id2 s2) Hg))) as H3.
  destruct op as [u h r|u|u h|u o h|u r|u r|r l|r|r l|r l|u| |r|]; intros Hok;
    unfold op_body, op_fields, wire_fields; cbn [map mjoin list_join length op_command fst snd]; rewrite ?app_nil_r; cbn in Hok.
  - eexists. split; [exact (H3 1 0 u 1 (sent_hash h) _ _ (puts_roles r Hok))|done].
  - eexists. split; [exact (H1 2 0 u)|done].
  - eexists. split; [exact (H2 3 0 u _ _ (Hf 1 (sent_hash h)))|done].
  - eexists. split; [exact (H3 4 0 u 2 o _ _ (Hf 1 (sent_hash h)))|done].
  - eexists. split; [exact (H2 5 0 u _ _ (puts_roles r Hok))|done].
  - eexists. split; [exact (H2 6 0 u _ _ (puts_roles r Hok))|done].
  - destruct Hok as (Hn & Hs & Hm). by apply (privileges_command_puts CREATE_ROLE).
  - eexists. split; [exact (H1 11 11 r)|done].
  - destruct Hok as (Hn & Hs & Hm). by apply (privileges_command_puts GRANT_PRIVILEGES).
  - destruct Hok as (Hn & Hs & Hm). by apply (privileges_command_puts REVOKE_PRIVILEGES).
  - eexists. split; [exact (H1 9 0 u)|done].
  - eexists. split; [exact (Hh 9 0)|done].
  - eexists. split; [exact (H1 16 11 r)|done].
  - eexists. split; [exact (Hh 16 0)|done].
Qed.

Lemma admin_frame_ok first body post :
  length first = 8%nat -> blen body < 2 ^ 47 ->
  admin_frame (first ++ body ++ post) (8 + blen body) = Some (group AS_ADMIN_VERSION AS_ADMIN_TYPE body).
Proof.
  intros H8 Hb. unfold admin_frame. replace (8 + blen body - 8) with (blen body) by lia.
  rewrite put_be64_eq, u64_id, proto_word_bytes by (unfold is_byte; lia).
  rewrite mwrite_0 by (by rewrite length_app, be_bytes_length). cbn [mbind option_bind app].
  rewrite mslice_take by (rewrite !length_cons, !length_app, be_bytes_length; lia).
  unfold group. cbn [app]. f_equal.
  replace (Z.to_nat (8 + blen body)) with (length (0 :: 2 :: be_bytes 6 (blen body) ++ body))
    by (rewrite !length_cons, length_app, be_bytes_length; lia).
  change (0 :: 2 :: be_bytes 6 (blen body) ++ body ++ post) with ((0 :: 2 :: be_bytes 6 (blen body)) ++ body ++ post).
  rewrite app_assoc. apply take_app_length.
Qed.

Definition op_fits (op : admin_op) : bool := bool_decide (8 + blen (op_body op) <= AS_STACK_BUF_SIZE).

Lemma op_frame stack op :
  blen stack = AS_STACK_BUF_SIZE -> op_ok op ->
  op_written stack op = None /\ op_fits op = false
  \/ exists buf p, op_written stack op = Some (Some (buf, p)) /\ admin_frame buf p = Some (op_message op) /\ op_fits op = true.
Proof.
  intros Hs (f & Hf & ->)%op_puts. unfold op_fits.
  specialize (Hf stack 8 ltac:(rewrite Hs; unfold AS_STACK_BUF_SIZE; lia)). case_bool_decide as Hl.
  - right. destruct (split_at_nat 8 stack) as (o8 & r & -> & H8); [unfold AS_STACK_BUF_SIZE in *; lia|]. rewrite length_app in Hs.
    destruct (split_at_nat (length (op_body op)) r) as (ob & post & -> & Ho); [lia|].
    rewrite Hf, mwrite_at by lia. eexists _, _. split; [done|]. split; [|done].
    apply admin_frame_ok; [done|]. unfold AS_STACK_BUF_SIZE in *. lia.
  - left. by rewrite Hf, mwrite_none by lia.
Qed.
End MessageProofs.

(** ** What is read back *)

Lemma read_name_ok buf p name max :
  0 < max -> holds buf p name -> read_name buf p (blen name) max = Some (take (Z.to_nat (max - 1)) name, p + blen name).
Proof.
  intros Hm Hh. pose proof (holds_range _ _ _ Hh) as (H0 & _). apply holds_slice in Hh. unfold read_name, mslice in *.
  case_decide; [|done]. injection Hh as Hh.
  assert (take (length name) (drop (Z.to_nat p) buf) = name) as Hn by (rewrite <- Hh at 2; f_equal; lia).
  rewrite decide_True by (case_if; reflect_Z; lia). cbn [mbind option_bind]. do 2 f_equal.
  transitivity (take (Z.to_nat (max - 1)) (take (length name) (drop (Z.to_nat p) buf))); [|by rewrite Hn].
  rewrite take_take. f_equal. case_if; reflect_Z; lia.
Qed.

(** A name behind its length. *)
Lemma counted_ok {R} buf p name max (k : list Z -> Z -> option R) :
  holds buf p (wire_counted name) -> 0 < max ->
  (len ← mread buf p; '(x, p) ← read_name buf (p + 1) len max; k x p)
  = k (take (Z.to_nat (max - 1)) name) (p + blen (wire_counted name)).
Proof.
  intros Hh Hm. unfold wire_counted in Hh. apply holds_read in Hh as [-> Hh]. cbn [mbind option_bind].
  rewrite read_name_ok by done. cbn [mbind option_bind]. f_equal. unfold wire_counted. rewrite length_cons. lia.
Qed.

(** A role is kept up to its buffer. *)
Definition kept_role (name : list Z) : list Z := take 31 (c_str name).

Lemma role_names_ok names buf p :
  Forall (fun name => strlen name < 256) names -> holds buf p (mjoin (map (fun n => wire_counted (c_str n)) names)) ->
  parse_role_names (length names) buf p
  = Some (map kept_role names, p + blen (mjoin (map (fun n => wire_counted (c_str n)) names))).
Proof.
  revert p. induction names as [|name names IH]; intros p Hn Hh; [cbn; by rewrite Z.add_0_r|].
  apply Forall_cons in Hn as [Hname Hn]. rewrite !map_cons, join_cons in *. apply holds_app in Hh as [H1 H2].
  cbn [length parse_role_names]. rewrite (counted_ok _ _ _ _ _ H1) by done.
  rewrite IH by done. cbn [mbind option_bind map]. rewrite length_app. do 2 f_equal. lia.
Qed.

Lemma users_roles_ok buf p names :
  short_names names -> holds buf p (wire_names names) ->
  as_parse_users_roles buf p = Some (map kept_role names, p + blen (wire_names names)).
Proof.
  intros [Hn Hs] Hh. unfold wire_names in Hh. apply holds_read in Hh as [Hl Hh]. unfold as_parse_users_roles. rewrite Hl.
  cbn [mbind option_bind]. rewrite Nat2Z.id, role_names_ok by done. unfold wire_names. rewrite length_cons. do 2 f_equal. lia.
Qed.

Definition kept_privilege (p : as_privilege) : as_privilege :=
  if AS_PRIVILEGE_READ <=? priv_code p
  then mk_privilege (priv_code p) (take 31 (c_str (priv_ns p))) (take 63 (c_str (priv_set p)))
  else mk_privilege (priv_code p) [] [].

Lemma privilege_ok priv buf p :
  short_scope priv -> holds buf p (wire_privilege priv) ->
  parse_privilege buf p = Some (kept_privilege priv, p + blen (wire_privilege priv)).
Proof.
  intros (Hc & Hns & Hset) Hh. unfold wire_privilege, kept_privilege in *. apply holds_read in Hh as [Hcode Hh].
  unfold parse_privilege. rewrite Hcode. cbn [mbind option_bind]. destruct (AS_PRIVILEGE_READ <=? priv_code priv).
  2:{ rewrite length_cons. simpl. done. }
  apply holds_app in Hh as [H1 H2]. rewrite (counted_ok _ _ _ _ _ H1), (counted_ok _ _ _ _ _ H2) by done.
  rewrite length_cons, length_app. do 2 f_equal. lia.
Qed.

Lemma privilege_list_ok l buf p :
  Forall short_scope l -> holds buf p (mjoin (map wire_privilege l)) ->
  parse_privilege_list (length l) buf p = Some (map kept_privilege l, p + blen (mjoin (map wire_privilege l))).
Proof.
  revert p. induction l as [|priv l IH]; intros p Hs Hh; [cbn; by rewrite Z.add_0_r|].
  apply Forall_cons in Hs as [H1 Hs]. rewrite !map_cons, join_cons in *. apply holds_app in Hh as [Hh1 Hh2].
  cbn [length parse_privilege_list]. rewrite (privilege_ok priv) by done. cbn [mbind option_bind].
  rewrite IH by done. cbn [mbind option_bind map]. rewrite length_app. do 2 f_equal. lia.
Qed.

Lemma privileges_ok buf p l :
  blen l < 256 /\ Forall short_scope l -> holds buf p (wire_privileges l) ->
  as_parse_privileges buf p = Some (map kept_privilege l, p + blen (wire_privileges l)).
Proof.
  intros [Hn Hs] Hh. unfold wire_privileges in Hh. apply holds_read in Hh as [Hl Hh]. unfold as_parse_privileges. rewrite Hl.
  cbn [mbind option_bind]. rewrite Nat2Z.id, privilege_list_ok by done. unfold wire_privileges. rewrite length_cons. do 2 f_equal. lia.
Qed.

(** *** Objects *)

Section ReadBack.
Context `{Platform}.
Context {X T : Type} (name_field name_size list_field : Z) (parse_list : list Z -> Z -> option (list X * Z)) (object : list Z -> list X -> T).
Context (wire_list : list X -> list Z) (list_ok : list X -> Prop) (kept : X -> X).
Context (parse_list_ok : forall buf p l, list_ok l -> holds buf p (wire_list l) -> parse_list buf p = Some (map kept l, p + blen (wire_list l))).
Context (name_pos : 0 < name_size) (fields_differ : list_field <> name_field).

(** The fields of an object, in any order and with others among them. *)
Inductive object_field := FName (name : list Z) | FList (l : list X) | FOther (id : Z) (bs : list Z).

Definition wire_object_field (f : object_field) : list Z :=
  match f with
  | FName name => wire_field name_field name
  | FList l => wire_field list_field (wire_list l)
  | FOther id bs => wire_field id bs
  end.

Definition field_ok (f : object_field) : Prop :=
  match f with FName _ => True | FList l => list_ok l | FOther id _ => id <> name_field /\ id <> list_field end.

(** The last name counts, as far as it fits, and the last list. *)
Definition field_read (acc : list Z * option (list X)) (f : object_field) : list Z * option (list X) :=
  match f with
  | FName name => (take (Z.to_nat (name_size - 1)) name, acc.2)
  | FList l => (acc.1, Some (map kept l))
  | FOther _ _ => acc
  end.

Lemma object_fields_ok fs buf p acc :
  Forall field_ok fs -> holds buf p (mjoin (map wire_object_field fs)) ->
  parse_object_fields name_field name_size list_field parse_list (length fs) buf p acc.1 acc.2
  = Some ((foldl field_read acc fs).1, (foldl field_read acc fs).2, p + blen (mjoin (map wire_object_field fs))).
Proof.
  revert p acc. induction fs as [|f fs IH]; intros p [name l] Hok Hh; [cbn; by rewrite Z.add_0_r|].
  apply Forall_cons in Hok as [Hf Hok]. rewrite map_cons, join_cons in *. apply holds_app in Hh as [H1 H2].
  cbn [length parse_object_fields foldl]. rewrite length_app.
  assert (exists id bs, wire_object_field f = wire_field id bs /\
    match f with FName n => id = name_field /\ bs = n | FList l => id = list_field /\ bs = wire_list l
    | FOther i _ => id = i end) as (id & bs & Ew & Hid) by (destruct f; by eexists _, _).
  rewrite Ew in *. pose proof (holds_range _ _ _ H1) as (Hp0 & Hr & _). rewrite wire_field_length in *. unfold INT_MAX in Hr.
  unfold wire_field in H1. apply holds_app in H1 as [Hl H1]. rewrite be_bytes_length in H1. apply holds_read in H1 as [Hi H1].
  change (Z.of_nat 4) with 4 in *. rewrite (holds_be32 _ _ _ Hl). cbn [mbind option_bind]. rewrite Hi. cbn [mbind option_bind].
  rewrite i32_u32, (i32_id (blen bs + 1)), (i32_id (blen bs + 1 - 1)) by lia. replace (blen bs + 1 - 1) with (blen bs) by lia.
  replace (p + 4 + 1) with (p + 5) in H1 by lia.
  assert (p + 5 + blen bs = p + Z.of_nat (5 + length bs)) as Hq by lia. rewrite Nat2Z.inj_add, Z.add_assoc.
  destruct f as [n|k|i bs']; cbn [field_ok field_read fst snd] in *.
  - destruct Hid as [-> ->]. rewrite Z.eqb_refl, read_name_ok by done. cbn [mbind option_bind]. rewrite Hq.
    exact (IH _ (_, l) Hok H2).
  - destruct Hid as [-> ->]. rewrite (proj2 (Z.eqb_neq _ _) fields_differ), Z.eqb_refl, (parse_list_ok _ _ k) by done.
    cbn [mbind option_bind]. rewrite Hq. exact (IH _ (name, _) Hok H2).
  - subst i. destruct Hf as [Hn Hlf]. rewrite (proj2 (Z.eqb_neq _ _) Hn), (proj2 (Z.eqb_neq _ _) Hlf), Hq.
    exact (IH _ (name, l) Hok H2).
Qed.

(** A message about one object: its header, of which two bytes count, and its fields. *)
Record sent_object := mk_object { o_head : list Z; o_fields : list object_field }.

Definition wire_object (o : sent_object) : list Z := o_head o ++ mjoin (map wire_object_field (o_fields o)).
Definition wire_objects (l : list sent_object) : list Z := mjoin (map wire_object l).

Definition object_ok (o : sent_object) : Prop :=
  (exists a b tail, o_head o = a :: 0 :: b :: blen (o_fields o) :: tail /\ length tail = 12%nat) /\ Forall field_ok (o_fields o).

(** None, if it has neither a name nor a list. *)
Definition object_read (o : sent_object) : list T :=
  let r := foldl field_read ([], None) (o_fields o) in
  match c_str r.1, r.2 with [], None => [] | name, l => [object name (default [] l)] end.
Definition objects_read (l : list sent_object) : list T := mjoin (map object_read l).

Local Abbreviation loop := (parse_objects_loop name_field name_size list_field parse_list object).

Lemma wire_object_length o : object_ok o -> (16 <= length (wire_object o))%nat.
Proof. intros [(a & b & tail & Hh & Ht) _]. unfold wire_object. rewrite Hh, length_app, !length_cons. lia. Qed.

(** One object more. *)
Lemma object_step n buf size p o v xs :
  object_ok o -> holds buf p (wire_object o) -> p < size -> v_rep v xs -> 2 * (blen xs + 1) * item_size v < 2 ^ 32 ->
  exists v', v_rep v' (xs ++ object_read o) /\ item_size v' = item_size v
    /\ loop (S n) buf size p v = loop n buf size (p + blen (wire_object o)) v'.
Proof.
  intros [(a & b & tail & Hh & Ht) Hok] Hw Hp Hv Hroom. unfold wire_object in *. rewrite Hh in Hw. apply holds_app in Hw as [H1 H2].
  apply holds_read in H1 as [_ H1]. apply holds_read in H1 as [Hr H1]. apply holds_read in H1 as [_ H1].
  apply holds_read in H1 as [Hc _]. replace (p + 1 + 1 + 1) with (p + 3) in Hc by lia.
  cbn [parse_objects_loop]. destruct (Z.ltb_spec p size); [|lia]. cbn [negb]. rewrite Hr. cbn [lift ubind Z.eqb negb].
  rewrite Hc. cbn [lift ubind]. rewrite Nat2Z.id. rewrite !length_cons, Ht in H2. unfold HEADER_REMAINING.
  pose proof (object_fields_ok (o_fields o) buf (p + 16) ([], None) Hok H2) as He. cbn [fst snd] in He. rewrite He. cbn [lift ubind].
  rewrite Hh, length_app, !length_cons, Ht, Nat2Z.inj_add, Z.add_assoc. change (Z.of_nat 16) with 16. unfold object_read.
  pose proof (append_ok v xs) as Ha.
  destruct (c_str _) as [|ch name]; [destruct (foldl field_read ([], None) (o_fields o)).2 as [l|]|].
  2:{ exists v. by rewrite app_nil_r. }
  all: edestruct Ha as (v' & -> & Hv' & _ & Hi); [done|by eapply v_rep_room|]; cbn [lift ubind]; by exists v'.
Qed.

Lemma objects_loop_ok os n buf size p v xs :
  Forall object_ok os -> holds buf p (wire_objects os) -> p + blen (wire_objects os) <= size -> (length os <= n)%nat ->
  v_rep v xs -> 2 * (blen (xs ++ objects_read os) + 1) * item_size v < 2 ^ 32 ->
  exists v', v_rep v' (xs ++ objects_read os) /\ item_size v' = item_size v
    /\ loop n buf size p v = loop (n - length os) buf size (p + blen (wire_objects os)) v'.
Proof.
  unfold wire_objects, objects_read. revert n p v xs. induction os as [|o os IH]; intros n p v xs Hok Hh Hsz Hn Hv Hroom.
  { exists v. cbn. by rewrite app_nil_r, Nat.sub_0_r, Z.add_0_r. }
  apply Forall_cons in Hok as [Ho Hok]. rewrite !map_cons, !join_cons in *. apply holds_app in Hh as [H1 H2].
  rewrite length_app in *. pose proof (wire_object_length o Ho). destruct n as [|n]; [simpl in Hn; lia|].
  assert (0 < item_size v) as Hi by apply Hv. rewrite length_app in Hroom.
  destruct (object_step n buf size p o v xs Ho H1 ltac:(lia) Hv ltac:(nia)) as (v1 & Hv1 & Hi1 & ->).
  rewrite app_assoc. destruct (IH n (p + blen (wire_object o)) v1 (xs ++ object_read o)) as (v2 & Hv2 & Hi2 & ->);
    [done|done|lia|simpl in Hn; lia|done|rewrite !length_app, Hi1; nia|].
  exists v2. split; [done|]. split; [by rewrite Hi2|]. cbn [length Nat.sub]. f_equal. lia.
Qed.

Context (fuel : nat).
Definition parse_block (buf : list Z) (size : Z) (err : as_error) (v : as_vector T) : ures (Z * as_error * as_vector T) :=
  let* (status, v) := loop fuel buf size 0 v in URet (status, err, v).

Lemma block_ok os buf err v xs :
  Forall object_ok os -> holds buf 0 (wire_objects os) -> (length os < fuel)%nat ->
  v_rep v xs -> 2 * (blen (xs ++ objects_read os) + 1) * item_size v < 2 ^ 32 ->
  exists v', v_rep v' (xs ++ objects_read os) /\ item_size v' = item_size v
    /\ parse_block buf (blen (wire_objects os)) err v = URet (AEROSPIKE_OK, err, v').
Proof.
  intros Hok Hh Hf Hv Hroom. destruct (objects_loop_ok os fuel buf (blen (wire_objects os)) 0 v xs) as (v' & Hv' & Hi & He);
    [done|done|lia|lia|done|done|].
  exists v'. split_and!; [done|done|]. unfold parse_block. rewrite He.
  destruct (fuel - length os)%nat as [|m] eqn:E; [lia|]. cbn [parse_objects_loop]. by rewrite Z.ltb_irrefl.
Qed.

(** A message with another result is the last. *)
Lemma last_block_ok os a r more buf err v xs :
  Forall object_ok os -> holds buf 0 (wire_objects os ++ a :: r :: more) -> r <> 0 -> (length os < fuel)%nat ->
  v_rep v xs -> 2 * (blen (xs ++ objects_read os) + 1) * item_size v < 2 ^ 32 ->
  exists v', v_rep v' (xs ++ objects_read os)
    /\ parse_block buf (blen (wire_objects os ++ a :: r :: more)) err v = URet (r, err, v').
Proof.
  intros Hok Hh Hr Hf Hv Hroom. apply holds_app in Hh as [H1 H2]. apply holds_read in H2 as [_ H2]. apply holds_read in H2 as [Hm _].
  destruct (objects_loop_ok os fuel buf (blen (wire_objects os ++ a :: r :: more)) 0 v xs) as (v' & Hv' & Hi & He);
    [done|done|rewrite length_app; lia|lia|done|done|].
  exists v'. split; [done|]. unfold parse_block. rewrite He, length_app, !length_cons.
  destruct (fuel - length os)%nat as [|m] eqn:E; [lia|]. cbn [parse_objects_loop].
  destruct (Z.ltb_spec (0 + blen (wire_objects os)) (Z.of_nat (length (wire_objects os) + S (S (length more))))); [|lia].
  rewrite Hm. cbn [negb lift ubind]. by rewrite (proj2 (Z.eqb_neq _ _) Hr).
Qed.

Lemma blocks_ok `{Reader C} oss os a r more n block c c' err v xs :
  streams c (map wire_objects oss ++ [wire_objects os ++ a :: r :: more]) c' -> r <> 0 ->
  Forall object_ok (mjoin oss ++ os) -> Forall (fun os => length os < fuel)%nat (oss ++ [os]) -> (length oss < n)%nat ->
  v_rep v xs -> 2 * (blen (xs ++ objects_read (mjoin oss ++ os)) + 1) * item_size v < 2 ^ 32 ->
  exists v', v_rep v' (xs ++ objects_read (mjoin oss ++ os))
    /\ parse_groups AEROSPIKE_QUERY_END parse_block set_message n block c err v
       = (if r =? AEROSPIKE_QUERY_END then URet (AEROSPIKE_OK, err, v', c') else URet (r, set_message r err, v', c')).
Proof.
  intros Hs Hr. revert n block c v xs Hs. induction oss as [|os1 oss IH]; intros n block c v xs Hs Hok Hf Hn Hv Hroom.
  all: destruct n as [|n]; [simpl in Hn; lia|]; apply Forall_cons in Hf as [Hf1 Hf].
  - pose proof (streams_size _ _ _ _ Hs) as Hsz.
    destruct (groups_step AEROSPIKE_QUERY_END parse_block set_message n block _ _ _ _ err v Hs) as (c2 & Hs2 & ->).
    inversion Hs2; subst.
    destruct (last_block_ok os a r more (refill block (wire_objects os ++ a :: r :: more)) err v xs) as (v' & Hv' & ->);
      [done|apply refill_holds; lia|done..|].
    exists v'. split; [done|]. cbn [ubind]. unfold AEROSPIKE_OK at 1. by rewrite (proj2 (Z.eqb_neq _ _) Hr).
  - cbn [map app] in Hs. pose proof (streams_size _ _ _ _ Hs) as Hsz.
    destruct (groups_step AEROSPIKE_QUERY_END parse_block set_message n block _ _ _ _ err v Hs) as (c2 & Hs2 & ->).
    rewrite join_cons, <- app_assoc in *. apply Forall_app in Hok as [Hok1 Hok].
    assert (objects_read (os1 ++ mjoin oss ++ os) = objects_read os1 ++ objects_read (mjoin oss ++ os)) as Ha
      by (unfold objects_read; by rewrite map_app, join_app).
    rewrite Ha in *. assert (0 < item_size v) as Hi by apply Hv.
    destruct (block_ok os1 (refill block (wire_objects os1)) err v xs) as (v1 & Hv1 & Hi1 & ->);
      [done|apply refill_holds; lia|done|done|rewrite !length_app in *; nia|].
    cbn [ubind Z.eqb AEROSPIKE_OK]. rewrite app_assoc.
    apply IH; [done..|simpl in Hn; lia|done|]. by rewrite Hi1, <- app_assoc.
Qed.
End ReadBack.

(** ** Messages *)

(** What is sent.  Each of the fourteen calls writes exactly the message of its command: the
    header with the command and the number of its fields, and the fields, behind the eight
    bytes of the protocol.  This holds as long as the message fits into the buffer on the
    stack, which is never checked: when it does not fit, the call writes behind the buffer. *)
Theorem admin_message `{Platform} (crypt : list Z -> list Z) stack op :
  blen stack = AS_STACK_BUF_SIZE -> op_ok op ->
  (r ← op_written crypt stack op; match r with Some (buf, p) => Some <$> admin_frame buf p | None => Some None end)
  = if op_fits crypt op then Some (Some (op_message crypt op)) else None.
Proof.
  intros Hs Hop. destruct (op_frame crypt stack op Hs Hop) as [[-> ->]|(buf & p & -> & Hf & ->)]; [done|].
  cbn [mbind option_bind]. by rewrite Hf.
Qed.

(** ** Answers *)

Section Answers.
Context `{Platform} `{Admin W}.
Context (crypt : list Z -> list Z) (stack : list Z) (stack_size : blen stack = AS_STACK_BUF_SIZE) (fuel groups : nat).

(** A node was found, it had a connection, and the question was sent. *)
Definition asked (w : W) (config : Z) (policy : option Z) (op : admin_op) (node fd deadline : Z) (w' : W) : Prop :=
  exists ms w1 w2 w3, cf_getms w = (ms, w1) /\ deadline = u64 (ms + list_timeout config policy)
    /\ node_get_random w1 = URet (Some node, w2) /\ as_node_get_connection w2 node = URet (AEROSPIKE_OK, fd, w3)
    /\ send w3 fd (op_message crypt op) deadline = URet (AEROSPIKE_OK, w').

Lemma list_returned {T} (parse_fn : list Z -> Z -> as_error -> as_vector T -> ures (Z * as_error * as_vector T))
    w config policy op buf p (objs v : as_vector T) node fd deadline w1 w2 w3 err :
  admin_frame buf p = Some (op_message crypt op) -> asked w config policy op node fd deadline w1 ->
  as_admin_read_blocks groups parse_fn deadline objs w1 fd = URet (AEROSPIKE_OK, err, v, w2) -> finished w2 node fd w3 ->
  as_admin_read_list groups parse_fn config w policy buf p objs
  = URet (AEROSPIKE_OK, err, v, w3, one_request node fd (op_message crypt op)).
Proof.
  intros Hf (ms & w4 & w5 & w6 & Hms & -> & Hn & Hc & Hs) Hr (w7 & Hput & Hrel).
  unfold as_admin_read_list, admin_request. rewrite Hms, Hn. cbn [ubind]. rewrite Hc. cbn [ubind Z.eqb AEROSPIKE_OK negb].
  rewrite Hf. cbn [lift ubind]. rewrite Hs. cbn [ubind Z.eqb AEROSPIKE_OK negb]. rewrite Hr. cbn [ubind Z.eqb AEROSPIKE_OK negb].
  rewrite Hput. cbn [ubind]. rewrite Hrel. done.
Qed.

(** Users as a server sends them, and as they are kept. *)
Abbreviation wire_users := (wire_objects USER ROLES wire_names).
Abbreviation user_ok := (object_ok USER ROLES short_names).
Abbreviation users_read := (objects_read AS_USER_SIZE mk_user kept_role).

(** Roles likewise. *)
Abbreviation wire_roles := (wire_objects ROLE PRIVILEGES wire_privileges).
Abbreviation role_ok := (object_ok ROLE PRIVILEGES (fun l => blen l < 256 /\ Forall short_scope l)).
Abbreviation roles_read := (objects_read AS_ROLE_SIZE mk_role kept_privilege).

Lemma op_written_fits op : op_ok op -> op_fits crypt op = true ->
  exists buf p, op_written crypt stack op = Some (Some (buf, p)) /\ admin_frame buf p = Some (op_message crypt op).
Proof.
  intros Hop Hf. destruct (op_frame crypt stack op stack_size Hop) as [[_ Hno]|(buf & p & Hw & Hfr & _)]; [congruence|]. by exists buf, p.
Qed.

(** C27: The users of a server, read back.  When the server answers with users, in one block or
    several, with their fields in any order and others among them, and then says that these
    were all, the call returns exactly these users in this order, with names and roles as far
    as they fit into their buffers; the connection is back in its pool and the node released. *)
Theorem users_returned w config policy node fd deadline w1 w2 w3 oss os a more :
  asked w config policy QueryUsers node fd deadline w1 ->
  streams (H := fd_reader fd deadline) w1 (map wire_users oss ++ [wire_users os ++ a :: AEROSPIKE_QUERY_END :: more]) w2 ->
  Forall user_ok (mjoin oss ++ os) -> Forall (fun os => length os < fuel)%nat (oss ++ [os]) -> (length oss < groups)%nat ->
  16 * (blen (users_read (mjoin oss ++ os)) + 1) < 2 ^ 32 -> finished w2 node fd w3 ->
  exists v, v_rep v (users_read (mjoin oss ++ os))
    /\ aerospike_query_users stack fuel groups config w policy
       = URet (AEROSPIKE_OK, no_error, Some v, [], w3, one_request node fd (op_message crypt QueryUsers)).
Proof.
  intros Hask Hs Hok Hf Hn Hroom Hfin.
  destruct (blocks_ok USER AS_USER_SIZE ROLES as_parse_users_roles mk_user wire_names short_names kept_role users_roles_ok ltac:(done) ltac:(done)
    fuel oss os a AEROSPIKE_QUERY_END more groups [] w1 w2 no_error (as_vector_init true 8 100) [] Hs ltac:(done) Hok Hf Hn) as (v & Hv & Hr).
  { apply constructed_rep; done. }
  { cbn [app item_size as_vector_init]. lia. }
  exists v. split; [exact Hv|]. unfold aerospike_query_users, query_all.
  destruct (op_written_fits QueryUsers I ltac:(done)) as (buf & p & Hw & Hfr). cbn [op_written] in Hw.
  apply fmap_Some in Hw as ([buf' p'] & -> & [= <- <-]). cbn [lift ubind].
  rewrite (list_returned _ _ _ _ QueryUsers _ _ _ v node fd deadline w1 w2 w3 no_error Hfr Hask); [done| |done].
  exact Hr.
Qed.

Lemma free_objects_ok {T} (v : as_vector T) (l : list T) (i n : nat) :
  v_rep v l -> (i + n = length l)%nat -> free_objects n v (Z.of_nat i) = Some (drop i l).
Proof.
  intros Hv. revert i. induction n as [|n IH]; intros i Hi; cbn [free_objects].
  - by rewrite drop_ge by lia.
  - rewrite (vector_get_ok v l) by (done || lia). rewrite Nat2Z.id. destruct (lookup_lt_is_Some_2 l i) as [x Hx]; [lia|].
    rewrite Hx. cbn [mbind option_bind]. replace (Z.of_nat i + 1) with (Z.of_nat (S i)) by lia. rewrite IH by lia.
    cbn [mbind option_bind]. by rewrite (drop_S _ _ _ Hx).
Qed.

Lemma free_from {T} (v : as_vector T) (l : list T) (i : nat) :
  v_rep v l -> (i <= length l)%nat -> as_free_objects v (Z.of_nat i) = Some (drop i l).
Proof.
  intros Hv Hi. pose proof Hv as (Hs & _). unfold as_free_objects. rewrite Hs. apply (free_objects_ok v l); [done|lia].
Qed.

(** The first one is the result, the others are freed. *)
Lemma one_returned {T} (parse_fn : list Z -> Z -> as_error -> as_vector T -> ures (Z * as_error * as_vector T))
    w config policy op buf p (v : as_vector T) l node fd deadline w1 w2 w3 :
  admin_frame buf p = Some (op_message crypt op) -> asked w config policy op node fd deadline w1 ->
  as_admin_read_blocks groups parse_fn deadline (as_vector_inita 8 1) w1 fd = URet (AEROSPIKE_OK, no_error, v, w2) ->
  v_rep v l -> finished w2 node fd w3 ->
  query_one groups parse_fn config w policy (Some (buf, p))
  = URet (AEROSPIKE_OK, no_error, head l, tail l, w3, one_request node fd (op_message crypt op)).
Proof.
  intros Hf Hask Hr Hv Hfin. unfold query_one. cbn [lift ubind].
  rewrite (list_returned _ _ _ _ op _ _ _ v node fd deadline w1 w2 w3 no_error Hf Hask Hr Hfin). cbn [ubind Z.eqb AEROSPIKE_OK].
  pose proof Hv as (Hs & _). rewrite Hs. pose proof (free_from v l) as Hfree. destruct l as [|x [|y l]].
  - specialize (Hfree 0%nat Hv ltac:(simpl; lia)). change (Z.of_nat 0) with 0 in Hfree. cbn [length Z.of_nat Z.eqb]. by rewrite Hfree.
  - cbn [length Z.of_nat Z.eqb Pos.eqb]. by rewrite (vector_get_ok v [x]) by (done || simpl; lia).
  - specialize (Hfree 1%nat Hv ltac:(simpl; lia)). change (Z.of_nat 1) with 1 in Hfree.
    destruct (Z.eqb_spec (blen (x :: y :: l)) 0); [simpl in *; lia|]. destruct (Z.eqb_spec (blen (x :: y :: l)) 1); [simpl in *; lia|].
    rewrite (vector_get_ok v (x :: y :: l)) by (done || simpl; lia). cbn [lift ubind Z.to_nat lookup list_lookup]. by rewrite Hfree.
Qed.

(** A role of a server, read back likewise: the first that it sends. *)
Theorem role_returned w config policy role node fd deadline w1 w2 w3 oss os a more :
  op_fits crypt (QueryRole role) = true -> asked w config policy (QueryRole role) node fd deadline w1 ->
  streams (H := fd_reader fd deadline) w1 (map wire_roles oss ++ [wire_roles os ++ a :: AEROSPIKE_QUERY_END :: more]) w2 ->
  Forall role_ok (mjoin oss ++ os) -> Forall (fun os => length os < fuel)%nat (oss ++ [os]) -> (length oss < groups)%nat ->
  16 * (blen (roles_read (mjoin oss ++ os)) + 1) < 2 ^ 32 -> finished w2 node fd w3 ->
  let roles := roles_read (mjoin oss ++ os) in
  aerospike_query_role stack fuel groups config w policy (Some role)
  = URet (AEROSPIKE_OK, no_error, head roles, tail roles, w3, one_request node fd (op_message crypt (QueryRole role))).
Proof.
  intros Hfits Hask Hs Hok Hf Hn Hroom Hfin roles.
  destruct (blocks_ok ROLE AS_ROLE_SIZE PRIVILEGES as_parse_privileges mk_role wire_privileges _ kept_privilege privileges_ok ltac:(done) ltac:(done)
    fuel oss os a AEROSPIKE_QUERY_END more groups [] w1 w2 no_error (as_vector_inita 8 1) [] Hs ltac:(done) Hok Hf Hn) as (v & Hv & Hr).
  { apply constructed_rep; done. }
  { cbn [app item_size as_vector_inita]. lia. }
  unfold aerospike_query_role. destruct (op_written_fits (QueryRole role) I Hfits) as (buf & p & Hw & Hfr). cbn [op_written] in Hw.
  apply fmap_Some in Hw as ([buf' p'] & -> & [= <- <-]).
  by apply (one_returned _ _ _ _ _ _ _ v roles node fd deadline w1 w2).
Qed.
End Answers.

(** ** Where it fails *)


(** A message whose one field has a length that leads back to the message. *)
Definition circle : list Z := [0; 0; 0; 1] ++ replicate 12 0 ++ be_bytes 4 (-20) ++ [99].

(** An answer that the parser of users never comes to the end of: the length of a field is
    signed and not checked, and one of -20 leads back to the beginning of the message. *)
Theorem users_circle `{Platform} fuel err users : as_parse_users fuel circle (blen circle) err users = Deep.
Proof.
  unfold as_parse_users. induction fuel as [|fuel IH]; [done|]. cbn [parse_objects_loop].
  change (mread circle (0 + 1)) with (Some 0). change (mread circle (0 + 3)) with (Some 1). change (0 <? blen circle) with true.
  cbn [negb lift ubind Z.eqb]. change (Z.to_nat 1) with 1%nat. change (0 + HEADER_REMAINING) with 16. cbn [parse_object_fields].
  assert (holds circle 16 (be_bytes 4 (-20))) as Hh.
  { exists ([0; 0; 0; 1] ++ replicate 12 0), [99]. vm_compute. by split_and!. }
  rewrite (holds_be32 _ _ _ Hh). cbn [mbind option_bind]. change (mread circle (16 + 4)) with (Some 99). cbn [mbind option_bind].
  change (i32 (i32 (u32 (-20)) - 1)) with (-21). cbn [Z.eqb USER ROLES lift ubind c_str].
  exact IH.
Qed.

(** ** Examples *)

(** One node with one socket, for the user [a]. *)
Instance one_admin : Admin sock :=
  {| admin_services := one_socket; node_get_random s := URet (Some 1, s); name_of_node _ _ := Some [66];
     cluster_user _ := Some [97]; cluster_password _ := Some [98]; set_credentials s _ _ := s |}.

Lemma sample_stack_size : blen sample_stack = AS_STACK_BUF_SIZE.
Proof. unfold sample_stack. by rewrite length_replicate, Z2Nat.id. Qed.

Definition no_hash (password : list Z) : list Z := password.

Lemma admin_message_witness :
  (r ← @op_written x86_64 no_hash sample_stack (CreateUser [97] [98] [[99; 100]]);
   match r with Some (buf, p) => Some <$> @admin_frame x86_64 buf p | None => Some None end)
  = Some (Some ([0; 2] ++ be_bytes 6 (16 + 6 + 6 + 9) ++ [0; 0; 1; 3] ++ replicate 12 0
      ++ [0; 0; 0; 2; 0; 97] ++ [0; 0; 0; 2; 1; 98] ++ [0; 0; 0; 5; 10; 1; 2; 99; 100])).
Proof.
  apply (@admin_message x86_64 no_hash sample_stack (CreateUser [97] [98] [[99; 100]])).
  - apply sample_stack_size.
  - split; [reflexivity|]. constructor; [reflexivity|constructor].
Defined.

(** A user with a role, and the end, in one block. *)
Definition sample_user : sent_object (X := list Z) :=
  mk_object ([0; 0; 9; 2] ++ replicate 12 0) [FName [117]; FList [[114]]].
Definition sample_users : list Z := wire_objects USER ROLES wire_names [sample_user] ++ 0 :: AEROSPIKE_QUERY_END :: replicate 14 0.

Lemma users_returned_witness :
  exists v, v_rep v [mk_user [117] [[114]]]
    /\ @aerospike_query_users x86_64 sock one_admin sample_stack 2 1 1000 (ready_sock 3 (group 0 2 sample_users ++ [7])) None
       = URet (AEROSPIKE_OK, no_error, Some v, [], mk_sock 3 true true true [7] (op_message no_hash QueryUsers) [],
               one_request 1 3 (op_message no_hash QueryUsers)).
Proof.
  apply (@users_returned x86_64 sock one_admin no_hash sample_stack sample_stack_size 2 1
    (ready_sock 3 (group 0 2 sample_users ++ [7])) 1000 None 1 3 1005
    (mk_sock 3 true true true (group 0 2 sample_users ++ [7]) (op_message no_hash QueryUsers) (turns (ready_sock 2 [])))
    (mk_sock 3 true true true [7] (op_message no_hash QueryUsers) []) _ [] [sample_user] 0 (replicate 14 0)).
  - exists 5, (ready_sock 3 (group 0 2 sample_users ++ [7])), (ready_sock 3 (group 0 2 sample_users ++ [7])), (ready_sock 3 (group 0 2 sample_users ++ [7])).
    split_and!; vm_compute; reflexivity.
  - eapply (streams_cons (H := fd_reader 3 1005) _ 0 2); [vm_compute; reflexivity|vm_compute; split; [reflexivity|discriminate]
      |eexists; vm_compute; reflexivity|eexists; vm_compute; reflexivity|]. apply streams_nil.
  - constructor; [|constructor]. split; [|repeat constructor]. by exists 0, 9, (replicate 12 0).
  - repeat constructor.
  - constructor.
  - vm_compute. reflexivity.
  - eexists. split; reflexivity.
Defined.

Definition sample_role : sent_object (X := as_privilege) :=
  mk_object ([0; 0; 16; 2] ++ replicate 12 0) [FName [114]; FList [mk_privilege 10 [110] []]].
Definition sample_roles : list Z := wire_objects ROLE PRIVILEGES wire_privileges [sample_role] ++ 0 :: AEROSPIKE_QUERY_END :: replicate 14 0.

Lemma role_returned_witness :
  @aerospike_query_role x86_64 sock one_admin sample_stack 2 1 1000 (ready_sock 3 (group 0 2 sample_roles ++ [7])) None (Some [114])
  = URet (AEROSPIKE_OK, no_error, Some (mk_role [114] [mk_privilege 10 [110] []]), [],
          mk_sock 3 true true true [7] (op_message no_hash (QueryRole [114])) [], one_request 1 3 (op_message no_hash (QueryRole [114]))).
Proof.
  apply (@role_returned x86_64 sock one_admin no_hash sample_stack sample_stack_size 2 1
    (ready_sock 3 (group 0 2 sample_roles ++ [7])) 1000 None [114] 1 3 1005
    (mk_sock 3 true true true (group 0 2 sample_roles ++ [7]) (op_message no_hash (QueryRole [114])) (turns (ready_sock 2 [])))
    (mk_sock 3 true true true [7] (op_message no_hash (QueryRole [114])) []) _ [] [sample_role] 0 (replicate 14 0)).
  - vm_compute. reflexivity.
  - exists 5, (ready_sock 3 (group 0 2 sample_roles ++ [7])), (ready_sock 3 (group 0 2 sample_roles ++ [7])), (ready_sock 3 (group 0 2 sample_roles ++ [7])).
    split_and!; vm_compute; reflexivity.
  - eapply (streams_cons (H := fd_reader 3 1005) _ 0 2); [vm_compute; reflexivity|vm_compute; split; [reflexivity|discriminate]
      |eexists; vm_compute; reflexivity|eexists; vm_compute; reflexivity|]. apply streams_nil.
  - constructor; [|constructor]. split; [by exists 0, 16, (replicate 12 0)|].
    constructor; [exact I|]. constructor; [|constructor]. split; [reflexivity|]. constructor; [|constructor]. by split_and!.
  - repeat constructor.
  - constructor.
  - vm_compute. reflexivity.
  - eexists. split; reflexivity.
Defined.

(** The server accepts the new password of the user that the cluster holds. *)
Lemma set_password_written `{Platform} crypt stack u pw r :
  op_written crypt stack (SetPassword u pw) = Some (Some r) -> set_password_command stack (Some u) (sent_hash crypt pw) = Some r.
Proof. cbn [op_written]. by intros (r' & Hr & [= ->])%fmap_Some. Qed.

Lemma sample_written :
  exists buf p, @set_password_command x86_64 sample_stack (Some [97]) (sent_hash no_hash [99]) = Some (buf, p)
    /\ @admin_frame x86_64 buf p = Some (op_message no_hash (SetPassword [97] [99])).
Proof.
  destruct (@op_written_fits x86_64 no_hash sample_stack sample_stack_size (SetPassword [97] [99]) I eq_refl) as (buf & p & Hw & Hf).
  exists buf, p. split; [exact (set_password_written _ _ _ _ _ Hw)|exact Hf].
Qed.

Lemma sample_accepted msg buf p :
  msg = Some (buf, p) -> @admin_frame x86_64 buf p = Some (op_message no_hash (SetPassword [97] [99])) ->
  exists err w' evs, @admin_command x86_64 sock one_admin 1000 (ready_sock 2 (replicate 24 0)) None msg = URet (AEROSPIKE_OK, err, w', evs).
Proof.
  intros -> Hf. unfold admin_command. cbn [lift ubind]. unfold as_admin_execute. rewrite Hf. eexists _, _, _. vm_compute. reflexivity.
Qed.

