(* ===== verification/Users.v ===== *)
(** * Users and roles on a cluster

    The cluster of the files [Node] and [Partition] as the one that administers users and
    roles (file [Admin]): the commands are sent to a random member, on a connection of its
    pool, and leave the books of the cluster as they were; a new password of the client's own
    user becomes that of the cluster.  Then what goes wrong: a change of the password for the
    user that the cluster holds, and answers that lead the parser in a circle. *)

From S2P Require Import Prelude Counting ByteOrder Base64 Queue Vector Value Msgpack Roundtrip Wire Socket Parse.
From S2P Require Import Node Partition Info Tend Membership Client Execute Record Requests Stream Admin.
Open Scope Z_scope.

Section Users.
Context `{Platform} `{Net W} (stack : list Z) (uninit_fd : Z).
Context (locks_work : forall w : W, queue_env w = qenv_ok).
Implicit Types (s : mem W).

Instance cluster_admin : Admin (mem W) :=
  {| admin_services := cluster_services stack uninit_fd;
     node_get_random s := as_node_get_random s;
     name_of_node s n := node_name <$> m_nodes s !! n;
     cluster_user s := user (cluster s);
     cluster_password s := password (cluster s);
     set_credentials s u p := set_cluster (with_credentials (Some u) (Some p)) s |}.

Context (np K : Z) (N : list (list Z)).
Local Abbreviation ok := (cluster_ok np K N).
Local Abbreviation idle := (idle stack np K N).
Local Abbreviation has_node := (has_node stack np K N).

(** What a request leaves behind: nothing, if there is no node; else the node is released,
    and its connection put back if all went well. *)
Inductive admin_session (l : list Z) (cmd : list Z) : Z -> list event -> Prop :=
  | session_no_node : admin_session l cmd AEROSPIKE_ERR_CLIENT []
  | session_no_connection n status : n ∈ l -> status <> 0 -> admin_session l cmd status [NodeGet n; NodeRelease n]
  | session_failed n fd status : n ∈ l -> status <> 0 ->
      admin_session l cmd status [NodeGet n; ConnGet n fd; Sent fd cmd; ConnClose fd; NodeRelease n]
  | session_answered n fd : n ∈ l -> admin_session l cmd AEROSPIKE_OK (one_request n fd cmd).

Lemma release_idle E l c0 s n :
  has_node E l c0 s n -> n ∈ l ->
  settles net_answers (Execute.as_node_release (Services := cluster_services stack uninit_fd) s n)
    (fun s' => idle E l c0 s' /\ is_Some (name_of_node s' n)).
Proof.
  intros [HE (Hs & Hau & Hx)] Hl.
  destruct (node_release_keeps np K N locks_work (plus E n 1) [] l n s Hs ltac:(rewrite plus_same; lia)) as (s1 & E1 & Hs1 & Hc1).
  cbn. rewrite E1. cbn.
  assert (ok E [] l s1) as Hs2 by (eapply ok_held_ext; [|exact Hs1]; intros m; unfold plus; case_decide; lia).
  split; [split; [done|by rewrite Hc1]|].
  destruct (counted_live _ _ n (ok_nodes _ _ _ _ _ _ _ _ Hs2)) as [node ->]; [|by eexists].
  eapply booked_held; [exact Hs2|]. apply occ_in in Hl. unfold holders. rewrite occ_nil.
  pose proof (occ_nonneg n (gc_nodes (gc (cluster s1)))). lia.
Qed.

Lemma request_keeps {R} (none : R) E l c0 s cmd deadline (serve : mem W -> Z -> ures (Z * as_error * R * mem W)) :
  (forall m, 0 <= E m /\ E m + 3 + 2 * np * (blen N + K) < 2 ^ 32) -> idle E l c0 s ->
  (forall s fd, settles net_answers (serve s fd) (fun r => exists w, snd r = set_net w s)) ->
  settles net_answers (admin_request none s (Some cmd) deadline serve) (fun r =>
    let '(status, err, _, s', evs) := r in idle E l c0 s' /\ admin_session l cmd status evs).
Proof.
  intros HE (Hs & Hau & Hx) Hserve. unfold admin_request.
  destruct (get_random_keeps np K N E [] l s Hs (fun m => proj2 (HE m))) as (o & s1 & Eg & Hs1 & Hi & Hin).
  cbn [node_get_random cluster_admin]. rewrite Eg. cbn [ubind].
  assert (auth_ok stack (cluster s1)) as Hau1 by (destruct Hi as (i & -> & _); exact Hau).
  assert (reindexed c0 (cluster s1)) as Hx1 by (by eapply reindexed_trans).
  destruct o as [n|]; [|split; [done|constructor]].
  assert (has_node E l c0 s1 n) as Hn by (split; [apply HE|done]). specialize (Hin n eq_refl).
  pose proof (held_workable (W := W) stack np K N E l c0 n) as Hwk.
  eapply settles_then; [by apply (work_connect stack uninit_fd locks_work n _ Hwk)|]. intros [[st fd] s2] Hs2. cbn [snd] in Hs2.
  destruct (Z.eqb_spec st 0) as [->|Hst]; cbn [negb].
  2:{ eapply settles_then; [by apply release_idle|]. intros s3 [Hs3 [name ->]]. cbn. split; [done|by constructor]. }
  cbn [lift ubind].
  eapply settles_then; [by apply (work_send stack uninit_fd n _ Hwk)|]. intros [st s3] Hs3. cbn [snd] in Hs3.
  assert (forall st err r s', has_node E l c0 s' n -> st <> 0 ->
    settles net_answers (let* w := as_close s' fd in let* w := Execute.as_node_release w n in
      URet (st, err, r, w, [NodeGet n; ConnGet n fd; Sent fd cmd; ConnClose fd; NodeRelease n]))
      (fun r : Z * as_error * R * mem W * list event => let '(status, err, _, s', evs) := r in idle E l c0 s' /\ admin_session l cmd status evs)) as Hclose.
  { intros st' err r s' Hs' Hst. eapply settles_then; [by apply (work_close stack uninit_fd n _ Hwk)|]. intros s4 Hs4. cbv beta in Hs4.
    eapply settles_then; [by apply release_idle|]. intros s5 [Hs5 _]. cbn. split; [done|by constructor]. }
  destruct (Z.eqb_spec st 0) as [->|Hst]; cbn [negb]; [|by apply Hclose].
  eapply settles_then; [apply Hserve|]. intros [[[st err] r] s4] (w & Hw). cbn [snd] in Hw. subst s4.
  assert (has_node E l c0 (set_net w s3) n) as Hs4 by (exact (work_net stack n _ Hwk s3 _ _ _ Hs3)).
  destruct (Z.eqb_spec st 0) as [->|Hst]; cbn [negb]; [|by apply Hclose].
  eapply settles_then; [by apply (work_put stack uninit_fd locks_work n _ Hwk)|]. intros s5 Hs5. cbv beta in Hs5.
  eapply settles_then; [by apply release_idle|]. intros s6 [Hs6 _]. cbn. split; [done|]. by apply session_answered.
Qed.

Lemma result_reads deadline s fd :
  settles net_answers (read_result_code deadline s fd) (fun r => exists w, snd r = set_net w s).
Proof.
  unfold read_result_code. eapply settles_then; [by apply rd_settles|]. intros [[st bytes] s1] (Hb & w & ->).
  destruct (negb (st =? 0)); [by exists w|].
  destruct (mread_is_Some bytes RESULT_CODE) as [code ->]; [rewrite Hb; unfold HEADER_SIZE, RESULT_CODE; lia|]. by exists w.
Qed.

Lemma start_idle E l c0 s timeout : idle E l c0 s -> idle E l c0 (start_clock s timeout).2.
Proof.
  intros Hs. unfold start_clock. case_if; [|done]. cbn. destruct (os_getms (net s)) as [ms w]. by apply idle_net.
Qed.

(** What a call comes to: the books are kept, one request was made, and its failure, if it
    failed, is the status; else the status is that of the server. *)
Definition administered (E : Z -> Z) (l : list Z) (c0 : as_cluster) (cmd : list Z) (r : Z * as_error * mem W * list event) : Prop :=
  let '(status, err, s', evs) := r in
  idle E l c0 s' /\ exists st, admin_session l cmd st evs /\ (st <> 0 -> status = st).

Lemma execute_admin E l c0 s config policy buffer end_ cmd :
  (forall m, 0 <= E m /\ E m + 3 + 2 * np * (blen N + K) < 2 ^ 32) -> idle E l c0 s -> admin_frame buffer end_ = Some cmd ->
  settles net_answers (as_admin_execute config s policy buffer end_) (administered E l c0 cmd).
Proof.
  intros HE Hs Hf. unfold as_admin_execute. pose proof (start_idle E l c0 s (admin_timeout config policy) Hs) as Hs1.
  destruct (start_clock s (admin_timeout config policy)) as [deadline s1]. cbn [snd] in Hs1. rewrite Hf.
  eapply settles_then; [apply (request_keeps 0 E l c0); [done|done|apply result_reads]|].
  intros [[[[st err] code] s2] evs] [Hs2 Hses]. destruct (Z.eqb_spec st 0) as [->|Hst]; cbn [negb].
  - destruct (negb (code =? 0)); (split; [done|by eexists]).
  - split; [done|by eexists].
Qed.

Context (crypt : list Z -> list Z).

(** The calls that are commands. *)
Definition admin_call (config : Z) s (policy : option Z) (op : admin_op) : option (admin_result (W := mem W)) :=
  match op with
  | CreateUser u p roles => Some (aerospike_create_user stack crypt config s policy (Some u) (Some p) roles)
  | DropUser u => Some (aerospike_drop_user stack config s policy (Some u))
  | SetPassword u p => Some (aerospike_set_password stack crypt config s policy (Some u) (Some p))
  | ChangePassword u _ p => Some (aerospike_change_password stack crypt config s policy (Some u) (Some p))
  | GrantRoles u roles => Some (aerospike_grant_roles stack config s policy (Some u) roles)
  | RevokeRoles u roles => Some (aerospike_revoke_roles stack config s policy (Some u) roles)
  | CreateRole r l => Some (aerospike_create_role stack config s policy (Some r) l)
  | DropRole r => Some (aerospike_drop_role stack config s policy (Some r))
  | GrantPrivileges r l => Some (aerospike_grant_privileges stack config s policy (Some r) l)
  | RevokePrivileges r l => Some (aerospike_revoke_privileges stack config s policy (Some r) l)
  | _ => None
  end.

(** The client follows a change of its own password. *)
Definition new_password (op : admin_op) : option (list Z * list Z) :=
  match op with SetPassword u p | ChangePassword u _ p => Some (u, p) | _ => None end.
Definition followed (op : admin_op) (c : as_cluster) : as_cluster :=
  match new_password op with
  | Some (u, p) =>
      if decide (c_str u <> [] /\ (user c = None \/ c_string (user c) = Some (c_str u)))
      then with_credentials (Some (c_str u)) (Some (c_str (sent_hash crypt p))) c else c
  | None => c
  end.

(** The old password that is sent is the one of the cluster. *)
Definition old_password_of s (op : admin_op) : Prop :=
  match op with ChangePassword _ old _ => password (cluster s) = Some old | _ => True end.

Lemma credentials_ok E l s u p : ok E [] l s -> ok E [] l (set_cluster (with_credentials (Some u) (Some p)) s).
Proof. intros []. by constructor. Qed.

(** The change of the own password, once the server has accepted it. *)
Lemma own_password_follows E l c0 s op u p :
  idle E l c0 s -> new_password op = Some (u, p) ->
  exists s', as_cluster_change_password s (Given u) (sent_hash crypt p) = Some s' /\ ok E [] l s'
    /\ cluster s' = followed op (cluster s).
Proof.
  intros (Hs & _) Hop. unfold as_cluster_change_password, the_user, followed. rewrite Hop.
  cbn [c_string fmap option_fmap option_map cluster_user cluster_admin].
  destruct (c_str u) as [|ch u'] eqn:Eu; [exists s; by rewrite decide_False by tauto|].
  case_bool_decide as Hu.
  - rewrite decide_True by done. eexists. split; [done|]. split; [by apply credentials_ok|done].
  - rewrite decide_False by tauto. by exists s.
Qed.

Lemma call_executes op config s policy buf p call :
  admin_call config s policy op = Some call -> old_password_of s op -> op_written crypt stack op = Some (Some (buf, p)) ->
  let run := as_admin_execute config s policy buf p in
  match new_password op with
  | None => call = run
  | Some (u, pw) => call = changing_password config s policy (Given u) (sent_hash crypt pw) (Some (buf, p))
  end.
Proof.
  intros Hcall Ho Hw run. destruct op; try done; cbn [op_written admin_call old_password_of new_password] in *; injection Hcall as <-.
  all: try (apply fmap_Some in Hw as (r & Er & [= <-])); unfold aerospike_create_role, aerospike_grant_privileges, aerospike_revoke_privileges,
    change_privileges, aerospike_create_user, aerospike_drop_user, aerospike_grant_roles, aerospike_revoke_roles, aerospike_drop_role,
    aerospike_set_password, aerospike_change_password, admin_command.
  all: unfold sent_hash in *; cbn [user_or_own the_user cluster_password cluster_admin]; rewrite ?Ho, ?Er, ?Hw; done.
Qed.

End Users.

(** ** Examples *)

Definition sample_admin : Admin (mem Z) := @cluster_admin x86_64 Z loopback sample_stack 0.
Definition sample_op : admin_op := SetPassword [97] [98].

