(* ===== verification/Manage.v ===== *)
(** * Management of scans, indexes and functions

    Models [aerospike_info.c], [aerospike_index.c], [aerospike_udf.c], the lists of files of
    [as_udf.c], [aerospike_scan_info] and [aerospike_scan_wait] of [aerospike_scan.c],
    [as_basename] of [as_string.c] and [cf_convert_sha1_to_hex] of [cf_crypto.c]: requests in
    text to some or all nodes of a cluster (file [Info]), and the reading of their answers.

    The digest SHA-1 is a parameter.  Answers live in checked memory that ends with a NUL;
    allocations of blocks for answers and names succeed.  The loops that wait poll until the
    servers say that they are done, so that they take fuel. *)

From Stdlib Require Import Ascii String.
From S2P Require Import Prelude ByteOrder Base64 Vector Queue Value Bytes Msgpack Wire Socket Parse.
From S2P Require Import Node Partition Info Tend Execute.
Open Scope Z_scope.

(** The characters of a literal. *)
Definition text (s : string) : list Z := map (fun c => Z.of_N (N_of_ascii c)) (list_ascii_of_string s).

Definition AEROSPIKE_ERR_INDEX_FOUND : Z := 200.
Definition AEROSPIKE_ERR_INDEX_NOT_FOUND : Z := 201.
Definition AEROSPIKE_ERR_QUERY_ABORTED : Z := 210.

(** ** Formatting *)

(** [sprintf] into an array of [size] characters: [None] when the NUL does not fit. *)
Definition sprintf (size : Z) (s : list Z) : option (list Z) := if blen s <? size then Some s else None.
Definition snprintf (size : Z) (s : list Z) : list Z := take (Z.to_nat (size - 1)) s.

(** ["%u"] and its like; [n] digits are enough below [10 ^ n]. *)
Fixpoint decimal_loop (n : nat) (z : Z) (acc : list Z) : list Z :=
  match n with
  | O => acc
  | S n => let acc := (48 + z mod 10) :: acc in if z <? 10 then acc else decimal_loop n (z / 10) acc
  end.
Definition decimal (z : Z) : list Z := decimal_loop 20 z [].
Definition signed_decimal (z : Z) : list Z := if i32 z <? 0 then 45 :: decimal (- i32 z) else decimal (i32 z).

Definition hex_digit (d : Z) : Z := if d <? 10 then 48 + d else 87 + d.

(** ["%02x"] of every byte; a NUL is written behind each pair. *)
Fixpoint hex_loop (buf : list Z) (p : Z) (hash : list Z) : option (list Z) :=
  match hash with
  | [] => Some buf
  | b :: hash => buf ← mwrite buf p [hex_digit (b / 16); hex_digit (b mod 16); 0]; hex_loop buf (p + 2) hash
  end.
Definition cf_convert_sha1_to_hex (hash sha1_hex_buff : list Z) : option (list Z) := hex_loop sha1_hex_buff 0 hash.

(** ** File names *)

Definition FILE_SEPARATOR : Z := 47.

(** [while ( *p) { if ( *p == FILE_SEPARATOR) begin = p + 1; p++; }] *)
Fixpoint last_begin (l : list Z) (p : Z) (begin : option Z) : option Z :=
  match l with
  | [] => begin
  | c :: l => last_begin l (p + 1) (if c =? FILE_SEPARATOR then Some (p + 1) else begin)
  end.

(** [Some None]: the string consists of separators. *)
Fixpoint skip_back (n : nat) (path : list Z) (p : Z) : option (option Z) :=
  match n with
  | O => None
  | S n =>
      c ← mread path p;
      if c =? FILE_SEPARATOR then if p =? 0 then Some None else skip_back n path (p - 1) else Some (Some p)
  end.

Fixpoint find_back (n : nat) (path : list Z) (p : Z) : option Z :=
  match n with
  | O => None
  | S n =>
      if p =? 0 then Some p
      else c ← mread path p; if c =? FILE_SEPARATOR then Some p else find_back n path (p - 1)
  end.

(** The name in a path that is not empty. *)
Definition from_begin (path : list Z) : option (list Z) :=
  match last_begin path 0 None with
  | None => Some path
  | Some begin =>
      if begin =? blen path then
        q ← skip_back (length path) path (blen path - 1);
        match q with
        | None => Some (text "/")
        | Some end_ =>
            p ← find_back (S (length path)) path end_;
            c ← mread path p;
            let p := if c =? FILE_SEPARATOR then p + 1 else p in
            mslice path p (end_ - p + 1)
        end
      else mslice path begin (blen path - begin)
  end.

(** A string without its NUL, or NULL. *)
Definition as_basename (path : option (list Z)) : option (list Z) :=
  match path with
  | None | Some [] => Some (text ".")
  | Some path => from_begin path
  end.

(** ** Requests *)

Record as_policy_info := mk_policy_info { info_timeout : Z; info_send_as_is : bool; info_check_bounds : bool }.

(** The answers after which no other node is asked. *)
Definition info_stops (status : Z) : bool :=
  (status =? AEROSPIKE_OK) || (status =? AEROSPIKE_ERR_TIMEOUT) || (status =? AEROSPIKE_ERR_INDEX_FOUND) || (status =? AEROSPIKE_ERR_INDEX_NOT_FOUND).

Section Requests.
Context `{Platform} `{Net W} (hpux : bool) (stack : list Z).

(** The status and the answer, NULL if there is none. *)
Definition reply : Type := Z * option (list Z).

Definition info_ask (pol : as_policy_info) (sa : sockaddr_in) (req : list Z) (deadline : Z) : M W reply :=
  as_info_command_host stack hpux sa req (info_send_as_is pol) deadline.

Fixpoint host_loop (pol : as_policy_info) (l : list sockaddr_in) (req : list Z) (deadline : Z) (r : reply) : M W reply :=
  match l with
  | [] => mret r
  | sa :: l =>
      r ← info_ask pol sa req deadline;
      if info_stops (fst r) then mret r else host_loop pol l req deadline r
  end.

(** The lookup is without a cluster: there are no alternate addresses. *)
Definition lookup_host (hostname : list Z) (port : Z) : M W (Z * list sockaddr_in) :=
  results ← os (fun w => getaddrinfo w hostname);
  match results with
  | None => mret (AEROSPIKE_ERR_CLUSTER, [])
  | Some results =>
      let port_be := cf_swap_to_be16 host_endian port in
      mret (0, fold_left (fun l a => append_unique (mk_addr a port_be) l) results [])
  end.

Definition aerospike_info_host (config : as_policy_info) (policy : option as_policy_info) (host : list Z) (port : Z) (req : list Z) : M W reply :=
  let pol := default config policy in
  '(status, l) ← lookup_host host port;
  if negb (status =? 0) then mret (status, None)
  else deadline ← deadline_of (info_timeout pol); host_loop pol l req deadline (AEROSPIKE_ERR_CLUSTER, None).

Definition aerospike_info_socket_address (config : as_policy_info) (policy : option as_policy_info) (sa : sockaddr_in) (req : list Z) : M W reply :=
  let pol := default config policy in deadline ← deadline_of (info_timeout pol); info_ask pol sa req deadline.

(** The address of a member of the array. *)
Definition member_address (p : option Z) : M W sockaddr_in :=
  n ← access (fun _ => p); a ← as_node_get_address_full n; mret (addr a).

Fixpoint any_loop (pol : as_policy_info) (l : list (option Z)) (req : list Z) (deadline : Z) (r : reply) : M W reply :=
  match l with
  | [] => mret r
  | p :: l =>
      sa ← member_address p;
      r ← info_ask pol sa req deadline;
      if info_stops (fst r) then mret r else any_loop pol l req deadline r
  end.

(** What is done with the members of the cluster, whose array is held meanwhile. *)
Definition with_members {A} (f : list (option Z) -> M W A) : M W A :=
  a ← as_nodes_reserve;
  arr ← array_at a;
  x ← f (nodes_array arr);
  _ ← as_nodes_release a;
  mret x.

Definition aerospike_info_any (config : as_policy_info) (policy : option as_policy_info) (req : list Z) : M W reply :=
  let pol := default config policy in
  deadline ← deadline_of (info_timeout pol);
  with_members (fun l => any_loop pol l req deadline (AEROSPIKE_ERR_CLUSTER, None)).

(** A callback gets the node and its answer, and may not be defined on it. *)
Fixpoint info_foreach_loop {U} (callback : Z -> option (list Z) -> U -> option (bool * U)) (pol : as_policy_info) (l : list (option Z)) (req : list Z)
    (deadline status : Z) (u : U) : M W (Z * U) :=
  match l with
  | [] => mret (status, u)
  | p :: l =>
      n ← access (fun _ => p);
      sa ← member_address p;
      '(status, res) ← info_ask pol sa req deadline;
      if status =? AEROSPIKE_OK then
        '(result, u) ← access (fun _ => callback n res u);
        if (result : bool) then info_foreach_loop callback pol l req deadline status u else mret (AEROSPIKE_ERR_QUERY_ABORTED, u)
      else if negb (status =? AEROSPIKE_ERR_CLUSTER) then mret (status, u)
      else info_foreach_loop callback pol l req deadline status u
  end.

Definition aerospike_info_foreach {U} (config : as_policy_info) (policy : option as_policy_info) (req : list Z)
    (callback : Z -> option (list Z) -> U -> option (bool * U)) (u : U) : M W (Z * U) :=
  let pol := default config policy in
  deadline ← deadline_of (info_timeout pol);
  with_members (fun l => info_foreach_loop callback pol l req deadline AEROSPIKE_ERR_CLUSTER u).
End Requests.

(** ** Background scans *)

Inductive as_scan_status := SCAN_UNDEF | SCAN_INPROGRESS | SCAN_ABORTED | SCAN_COMPLETED.
#[export] Instance as_scan_status_eq : EqDecision as_scan_status.
Proof. solve_decision. Defined.

Record as_scan_info := mk_scan_info { scan_status : as_scan_status; progress_pct : Z; records_scanned : Z }.

Definition JOB_STATUS_TAG : list Z := text "job_status=".
Definition JOB_PROGRESS_TAG : list Z := text "job_progress(%)=".
Definition SCANNED_RECORDS_TAG : list Z := text "scanned_records=".

Definition set_status (st : as_scan_status) (i : as_scan_info) : as_scan_info := mk_scan_info st (progress_pct i) (records_scanned i).

(** The status at [p]; what is known of other nodes counts. *)
Definition read_status (m : list Z) (p : Z) (i : as_scan_info) : option as_scan_info :=
  aborted ← has_prefix m p (text "ABORTED");
  if (aborted : bool) then Some (set_status SCAN_ABORTED i)
  else
    running ← has_prefix m p (text "IN PROGRESS");
    if (running : bool) then Some (set_status SCAN_INPROGRESS i)
    else if decide (scan_status i = SCAN_UNDEF) then
      finished ← has_prefix m p (text "DONE");
      Some (if (finished : bool) then set_status SCAN_COMPLETED i else i)
    else Some i.

(** Behind a tag; [None] when it is not there. *)
Definition after_tag (m : list Z) (p : Z) (tag : list Z) : option (option Z) :=
  q ← strstr m p tag; Some (match q with Some q => Some (q + blen tag) | None => None end).

Definition number_at (m : list Z) (p : Z) : option Z := atoi <$> cstr m p.

(** From the progress on. *)
Definition read_progress (m : list Z) (p : Z) (i : as_scan_info) : option as_scan_info :=
  q ← after_tag m p JOB_PROGRESS_TAG;
  match q with
  | None => Some i
  | Some p =>
      pct ← number_at m p;
      let pct := u32 pct in
      let i := if (progress_pct i =? 0) || (pct <? progress_pct i) then mk_scan_info (scan_status i) pct (records_scanned i) else i in
      q ← after_tag m p SCANNED_RECORDS_TAG;
      match q with
      | None => Some i
      | Some p => n ← number_at m p; Some (mk_scan_info (scan_status i) (progress_pct i) (u32 (records_scanned i + n)))
      end
  end.

Definition scan_info_cb (job_id : list Z) (res : option (list Z)) (i : as_scan_info) : option (bool * as_scan_info) :=
  m ← res;
  q ← after_tag m 0 job_id;
  match q with
  | None => Some (true, i)
  | Some p =>
      if decide (scan_status i = SCAN_ABORTED) then i ← read_progress m p i; Some (true, i)
      else
        q ← after_tag m p JOB_STATUS_TAG;
        match q with
        | None => Some (true, i)
        | Some p => i ← read_status m p i; i ← read_progress m p i; Some (true, i)
        end
  end.

Definition job_id_of (scan_id : Z) : list Z := text "job_id=" ++ decimal scan_id ++ text ":".
Definition scan_list_request : list Z := text "scan-list" ++ [NEWLINE].

Section Scans.
Context `{Platform} `{Net W} (hpux : bool) (stack : list Z).

(** The identifier fits into its array of 32. *)
Definition aerospike_scan_info (config : as_policy_info) (policy : option as_policy_info) (scan_id : Z) : M W (Z * as_scan_info) :=
  job_id ← access (fun _ => sprintf 32 (job_id_of scan_id));
  aerospike_info_foreach hpux stack config policy scan_list_request (fun _ => scan_info_cb job_id) (mk_scan_info SCAN_UNDEF 0 0).

(** [do { usleep(...); poll } while (...)]: one turn may be the last. *)
Fixpoint poll {A} (fuel : nat) (turn : M W (option A)) : M W A :=
  match fuel with
  | O => fun _ => Deep
  | S fuel => r ← turn; match r with Some a => mret a | None => poll fuel turn end
  end.

Definition scan_turn (config : as_policy_info) (policy : option as_policy_info) (scan_id : Z) : M W (option Z) :=
  '(status, i) ← aerospike_scan_info config policy scan_id;
  mret (if (status =? AEROSPIKE_OK) && bool_decide (scan_status i = SCAN_INPROGRESS) then None else Some status).

Definition aerospike_scan_wait (fuel : nat) (config : as_policy_info) (policy : option as_policy_info) (scan_id : Z) : M W Z :=
  poll fuel (scan_turn config policy scan_id).
End Scans.

(** ** Indexes *)

Inductive as_index_type := INDEX_DEFAULT | INDEX_LIST | INDEX_MAPKEYS | INDEX_MAPVALUES.
Inductive as_index_datatype := INDEX_STRING | INDEX_NUMERIC.

Record as_index_task := mk_index_task { task_ns : list Z; task_name : list Z; task_done : bool }.

Definition itype_string (itype : as_index_type) : list Z :=
  match itype with
  | INDEX_DEFAULT => text "DEFAULT" | INDEX_LIST => text "LIST"
  | INDEX_MAPKEYS => text "MAPKEYS" | INDEX_MAPVALUES => text "MAPVALUES"
  end.
Definition dtype_string (dtype : as_index_datatype) : list Z :=
  match dtype with INDEX_NUMERIC => text "NUMERIC" | INDEX_STRING => text "STRING" end.

(** The old format for the default type, so that older servers understand it. *)
Definition index_create_ddl (ns : list Z) (set : option (list Z)) (position name : list Z) (itype : as_index_type) (dtype : as_index_datatype) : list Z :=
  text "sindex-create:ns=" ++ c_str ns ++ match set with Some set => text ";set=" ++ c_str set | None => [] end
  ++ text ";indexname=" ++ c_str name
  ++ text ";numbins=1;" ++ match itype with INDEX_DEFAULT => [] | _ => text "indextype=" ++ itype_string itype ++ text ";" end
  ++ text "indexdata=" ++ c_str position ++ text "," ++ dtype_string dtype ++ text ";priority=normal" ++ [NEWLINE].

Definition index_remove_ddl (ns name : list Z) : list Z :=
  text "sindex-delete:ns=" ++ c_str ns ++ text ";indexname=" ++ c_str name.

Section Indexes.
Context `{Platform} `{Net W} (hpux : bool) (stack : list Z).

(** The status and the task, if one is wanted. *)
Definition aerospike_index_create_complex (config : as_policy_info) (policy : option as_policy_info) (task : option as_index_task)
    (ns : list Z) (set : option (list Z)) (position name : list Z) (itype : as_index_type) (dtype : as_index_datatype) : M W (Z * option as_index_task) :=
  ddl ← access (fun _ => sprintf 1024 (index_create_ddl ns set position name itype dtype));
  '(status, _) ← aerospike_info_any hpux stack config policy ddl;
  if status =? AEROSPIKE_OK then
    mret (status, match task with Some _ => Some (mk_index_task (as_strncpy (c_str ns) AS_NAMESPACE_MAX_SIZE) (as_strncpy (c_str name) 64) false) | None => None end)
  else if status =? AEROSPIKE_ERR_INDEX_FOUND then
    mret (AEROSPIKE_OK, match task with Some t => Some (mk_index_task (task_ns t) (task_name t) true) | None => None end)
  else mret (status, task).

(** Errors, and answers without a percentage, count as done. *)
Definition loaded (m : list Z) : option bool :=
  q ← after_tag m 0 (text "load_pct=");
  match q with
  | None => Some true
  | Some p =>
      q ← strchr m p SEMICOLON;
      m ← match q with Some q => mwrite m q [0] | None => Some m end;
      pct ← number_at m p;
      Some (negb ((0 <=? pct) && (pct <? 100)))
  end.

(** [for (i = 0; i < nodes->size && done; i++)]. *)
Fixpoint all_done (config : as_policy_info) (policy : as_policy_info) (req : list Z) (ready : list Z -> option bool) (l : list (option Z)) : M W bool :=
  match l with
  | [] => mret true
  | p :: l =>
      sa ← member_address p;
      '(status, res) ← aerospike_info_socket_address hpux stack config (Some policy) sa req;
      if status =? AEROSPIKE_OK then
        done ← access (fun _ => res ≫= ready);
        if (done : bool) then all_done config policy req ready l else mret false
      else all_done config policy req ready l
  end.

Definition aerospike_index_create_is_done (config policy : as_policy_info) (command : list Z) : M W bool :=
  with_members (all_done config policy command loaded).

Definition wait_policy : as_policy_info := mk_policy_info 1000 false true.

(** A turn of a loop that ends when all nodes are done. *)
Definition done_turn (is_done : M W bool) : M W (option Z) :=
  done ← is_done; mret (if (done : bool) then Some AEROSPIKE_OK else None).

Definition index_command (task : as_index_task) : list Z :=
  snprintf 256 (text "sindex/" ++ task_ns task ++ text "/" ++ task_name task).

Definition aerospike_index_create_wait (fuel : nat) (config : as_policy_info) (task : as_index_task) : M W (Z * as_index_task) :=
  if task_done task then mret (AEROSPIKE_OK, task)
  else
    status ← poll fuel (done_turn (aerospike_index_create_is_done config wait_policy (index_command task)));
    mret (status, mk_index_task (task_ns task) (task_name task) true).

Definition aerospike_index_remove (config : as_policy_info) (policy : option as_policy_info) (ns name : list Z) : M W Z :=
  ddl ← access (fun _ => sprintf 1024 (index_remove_ddl ns name));
  '(status, _) ← aerospike_info_any hpux stack config policy ddl;
  mret (if status =? AEROSPIKE_ERR_INDEX_NOT_FOUND then AEROSPIKE_OK else status).
End Indexes.

(** ** Functions *)

Definition AS_UDF_FILE_NAME_SIZE : Z := 128.
Definition AS_UDF_FILE_HASH_SIZE : Z := 20.
Definition AS_UDF_TYPE_LUA : Z := 0.

(** [udf_content]: the bytes, NULL in a list; [udf_hash] is an array. *)
Record as_udf_file := mk_udf_file { udf_name : list Z; udf_hash : list Z; udf_type : Z; udf_content : option (list Z) }.
(** [files_entries]: NULL, or [files_capacity] files. *)
Record as_udf_files := mk_udf_files { files_capacity : Z; files_size : Z; files_entries : option (list as_udf_file) }.
Record as_udf_file_ptr := mk_file_ptr { ptr_name : option Z; ptr_hash : option Z; ptr_type : option Z }.

Definition no_ptr : as_udf_file_ptr := mk_file_ptr None None None.

(** The value at [p] of the name [token]. *)
Definition as_udf_parse_file (token : list Z) (p : Z) (ptr : as_udf_file_ptr) : as_udf_file_ptr :=
  if decide (token = text "filename") then mk_file_ptr (Some p) (ptr_hash ptr) (ptr_type ptr)
  else if decide (token = text "hash") then mk_file_ptr (ptr_name ptr) (Some p) (ptr_type ptr)
  else if decide (token = text "type") then mk_file_ptr (ptr_name ptr) (ptr_hash ptr) (Some p)
  else ptr.

Definition EQUALS : Z := 61.
Definition COMMA : Z := 44.

(** [while ( *p)]: every turn moves on. *)
Fixpoint udf_list_loop (fuel : nat) (m : list Z) (p token : Z) (ptr : as_udf_file_ptr) (ptrs : as_vector as_udf_file_ptr)
  : option (list Z * as_vector as_udf_file_ptr) :=
  match fuel with
  | O => None
  | S fuel =>
      c ← mread m p;
      if c =? 0 then Some (m, ptrs)
      else if c =? EQUALS then
        m ← mwrite m p [0];
        name ← cstr m token;
        udf_list_loop fuel m (p + 1) token (as_udf_parse_file name (p + 1) ptr) ptrs
      else if c =? COMMA then
        m ← mwrite m p [0];
        udf_list_loop fuel m (p + 1) (p + 1) ptr ptrs
      else if c =? SEMICOLON then
        m ← mwrite m p [0];
        ptrs ← as_vector_append true ptrs ptr;
        udf_list_loop fuel m (p + 1) (p + 1) no_ptr ptrs
      else udf_list_loop fuel m (p + 1) token ptr ptrs
  end.

(** [strncpy(to, s, n)]: what fits, and zeros. *)
Definition strncpy (s : list Z) (n : Z) : list Z := take (Z.to_nat n) s ++ replicate (Z.to_nat n - length s) 0.

Definition fill_file (m : list Z) (ptr : as_udf_file_ptr) (file : as_udf_file) : option as_udf_file :=
  name ← match ptr_name ptr with Some q => s ← cstr m q; Some (as_strncpy s AS_UDF_FILE_NAME_SIZE) | None => Some [] end;
  hash ← match ptr_hash ptr with Some q => s ← cstr m q; Some (strncpy s AS_UDF_FILE_HASH_SIZE) | None => mwrite (udf_hash file) 0 [0] end;
  Some (mk_udf_file name hash AS_UDF_TYPE_LUA None).

Fixpoint fill_files (n : nat) (m : list Z) (ptrs : as_vector as_udf_file_ptr) (entries : list as_udf_file) (i : Z) : option (list as_udf_file) :=
  match n with
  | O => Some entries
  | S n =>
      ptr ← as_vector_get ptrs i;
      file ← aget entries i;
      file ← fill_file m ptr file;
      entries ← aset entries i file;
      fill_files n m ptrs entries (i + 1)
  end.

Section Functions.
Context `{Platform} `{Net W} (hpux : bool) (stack : list Z).
(** What new entries hold, and the digest of a file. *)
Context (uninit_files : Z -> list as_udf_file) (SHA1 : list Z -> list Z).

Definition as_udf_files_init (capacity : Z) : as_udf_files :=
  mk_udf_files capacity 0 (if 0 <? capacity then Some (uninit_files capacity) else None).

(** The files of an answer, from behind its tab. *)
Definition read_udf_list (m : list Z) (p : Z) (files : as_udf_files) : option as_udf_files :=
  let capacity := if files_capacity files =? 0 then 500 else files_capacity files in
  '(m, ptrs) ← udf_list_loop (S (length m)) m p p no_ptr (as_vector_inita 24 capacity);
  let files := if (files_capacity files =? 0) && bool_decide (files_entries files = None) then as_udf_files_init (Vector.size ptrs) else files in
  let limit := if Vector.size ptrs <? files_capacity files then Vector.size ptrs else files_capacity files in
  if limit =? 0 then Some (mk_udf_files (files_capacity files) limit (files_entries files))
  else
    entries ← files_entries files;
    entries ← fill_files (Z.to_nat limit) m ptrs entries 0;
    Some (mk_udf_files (files_capacity files) limit (Some entries)).

Definition aerospike_udf_list (config : as_policy_info) (policy : option as_policy_info) (files : as_udf_files) : M W (Z * as_udf_files) :=
  '(status, res) ← aerospike_info_any hpux stack config policy (text "udf-list");
  if negb (status =? 0) then mret (status, files)
  else
    m ← access (fun _ => res);
    tab ← access (fun _ => strchr m 0 TAB);
    match tab with
    | None => mret (AEROSPIKE_ERR_PARAM, files)
    | Some p => files ← access (fun _ => read_udf_list m (p + 1) files); mret (AEROSPIKE_OK, files)
    end.

(** The content of an answer: the text behind its tag up to a semicolon, decoded in place.
    [Some None]: the answer has no content.  When the text is not valid, the size is not
    set. *)
Definition read_udf_content (m : list Z) (p : Z) : option (option (list Z)) :=
  q ← after_tag m p (text "content=");
  match q with
  | None => Some None
  | Some content =>
      e ← until_loop (S (length m)) m content SEMICOLON;
      encoded ← mslice m content (e - content);
      r ← cf_b64_validate_and_decode_in_place encoded;
      '(decoded, size) ← r;
      bytes ← mslice decoded 0 size;
      Some (Some bytes)
  end.

Definition udf_get_command (filename : list Z) : list Z := snprintf 512 (text "udf-get:filename=" ++ c_str filename ++ text ";").

(** The digest is written in hexadecimal digits into an array of [AS_UDF_FILE_HASH_SIZE]. *)
Definition aerospike_udf_get (config : as_policy_info) (policy : option as_policy_info) (filename : list Z) (file : as_udf_file) : M W (Z * as_udf_file) :=
  '(status, res) ← aerospike_info_any hpux stack config policy (udf_get_command filename);
  if negb (status =? 0) then mret (status, file)
  else
    m ← access (fun _ => res);
    tab ← access (fun _ => strchr m 0 TAB);
    match tab with
    | None => mret (AEROSPIKE_ERR_PARAM, file)
    | Some p =>
        content ← access (fun _ => read_udf_content m (p + 1));
        match content with
        | None => mret (AEROSPIKE_ERR_PARAM, file)
        | Some bytes =>
            hash ← access (fun _ => cf_convert_sha1_to_hex (SHA1 bytes) (udf_hash file));
            mret (AEROSPIKE_OK, mk_udf_file (as_strncpy (c_str filename) AS_UDF_FILE_NAME_SIZE) hash AS_UDF_TYPE_LUA (Some bytes))
        end
    end.

Definition udf_put_text (filebase content_base64 : list Z) (encoded_len : Z) : list Z :=
  text "udf-put:filename=" ++ filebase ++ text ";content=" ++ content_base64 ++ text ";content-len=" ++ signed_decimal encoded_len
  ++ text ";udf-type=" ++ text "LUA" ++ text ";".

(** The block that is allocated on HP-UX and PowerPC. *)
Definition udf_put_block (filebase content_base64 : list Z) : Z :=
  blen (text "udf-put:filename=%s;content=%s;content-len=%d;udf-type=%s;") + blen filebase + blen content_base64 + blen (text "LUA") + 4 + 64.

Definition udf_put_command (filename : option (list Z)) (content : list Z) : option (list Z) :=
  filebase ← as_basename filename;
  let encoded_len := cf_b64_encoded_len (blen content) in
  content_base64 ← sprintf (u32 (encoded_len + 1)) (cf_b64_encode content);
  let command := udf_put_text filebase content_base64 encoded_len in
  if hpux then sprintf (udf_put_block filebase content_base64) command else Some command.

Definition aerospike_udf_put (config : as_policy_info) (policy : option as_policy_info) (filename : option (list Z)) (type : Z) (content : list Z) : M W Z :=
  if negb (type =? AS_UDF_TYPE_LUA) then mret AEROSPIKE_ERR_PARAM
  else
    command ← access (fun _ => udf_put_command filename content);
    '(status, _) ← aerospike_info_any hpux stack config policy command;
    mret status.

Definition listed (filter : list Z) (m : list Z) : option bool :=
  q ← strstr m 0 filter; Some (match q with Some _ => true | None => false end).

Definition aerospike_udf_put_is_done (config policy : as_policy_info) (filter : list Z) : M W bool :=
  with_members (all_done hpux stack config policy (text "udf-list") (listed filter)).

Definition udf_filter (filename : list Z) : list Z := snprintf 256 (text "filename=" ++ c_str filename).

Definition aerospike_udf_put_wait (fuel : nat) (config : as_policy_info) (policy : option as_policy_info) (filename : list Z) : M W Z :=
  poll fuel (done_turn (aerospike_udf_put_is_done config (default config policy) (udf_filter filename))).

Definition udf_remove_command (filename : list Z) : list Z := snprintf 512 (text "udf-remove:filename=" ++ c_str filename ++ text ";").

Definition aerospike_udf_remove (config : as_policy_info) (policy : option as_policy_info) (filename : list Z) : M W Z :=
  '(status, _) ← aerospike_info_any hpux stack config policy (udf_remove_command filename); mret status.
End Functions.

(** ** Texts *)

(** The tag does not begin inside [l], behind which it is. *)
Definition absent (tag l : list Z) : Prop := Forall (fun k => ~ tag `prefix_of` drop k (l ++ tag)) (seq 0 (length l)).

Abbreviation no_nul := (Forall (fun c : Z => c <> 0)).

Lemma prefix_short {A} (x y z : list A) : x `prefix_of` y ++ z -> (length x <= length y)%nat -> x `prefix_of` y.
Proof. intros [r Hr] Hl. exists (take (length y - length x) r). apply (f_equal (take (length y))) in Hr. by rewrite take_app_length, take_app_ge in Hr by lia. Qed.

Lemma has_prefix_eq pre l t tag : no_nul tag -> has_prefix (pre ++ l ++ 0 :: t) (blen pre) tag = Some (bool_decide (tag `prefix_of` l)).
Proof.
  revert pre l. induction tag as [|c tag IH]; intros pre l Ht; cbn [has_prefix].
  { rewrite bool_decide_eq_true_2; [done|]. apply prefix_nil. }
  inversion Ht; subst. destruct l as [|x l]; cbn [app]; rewrite mread_app by done; cbn [mbind option_bind].
  - rewrite (proj2 (Z.eqb_neq 0 c)) by done. rewrite bool_decide_eq_false_2; [done|]. by intros Hp%prefix_nil_not.
  - destruct (Z.eqb_spec x c) as [->|Hx].
    + replace (pre ++ c :: l ++ 0 :: t) with ((pre ++ [c]) ++ l ++ 0 :: t) by (by rewrite <- app_assoc).
      replace (blen pre + 1) with (blen (pre ++ [c])) by (rewrite length_app; simpl; lia). rewrite IH by done. f_equal.
      apply bool_decide_ext. split; [apply prefix_cons|apply prefix_cons_inv_2].
    + rewrite bool_decide_eq_false_2; [done|]. intros Hp. apply prefix_cons_inv_1 in Hp. congruence.
Qed.

Lemma strstr_loop_found pre l tag rest t : no_nul tag -> no_nul l -> absent tag l -> forall fuel, (length l < fuel)%nat ->
  strstr_loop fuel (pre ++ l ++ tag ++ rest ++ 0 :: t) (blen pre) tag = Some (Some (blen pre + blen l)).
Proof.
  intros Ht. revert pre. induction l as [|c l IH]; intros pre Hl Ha fuel Hf; (destruct fuel as [|fuel]; [simpl in Hf; lia|]); cbn [strstr_loop].
  - cbn [app length]. rewrite (app_assoc tag), has_prefix_eq by done. rewrite bool_decide_eq_true_2 by (by eexists). by rewrite Z.add_0_r.
  - inversion Hl; subst. inversion Ha as [|? ? Hc Ha']; subst. cbn [drop app] in Hc.
    assert (pre ++ (c :: l) ++ tag ++ rest ++ 0 :: t = pre ++ ((c :: l) ++ tag ++ rest) ++ 0 :: t) as E by (by rewrite <- !app_assoc).
    rewrite E at 1. rewrite has_prefix_eq by done. rewrite bool_decide_eq_false_2.
    2:{ intros Hp. apply Hc. rewrite app_assoc in Hp. by apply (prefix_short tag) in Hp; [|rewrite length_app; lia]. } cbn [mbind option_bind app].
    rewrite mread_app by done. cbn [mbind option_bind]. rewrite (proj2 (Z.eqb_neq c 0)) by done.
    replace (pre ++ c :: l ++ tag ++ rest ++ 0 :: t) with ((pre ++ [c]) ++ l ++ tag ++ rest ++ 0 :: t) by (by rewrite <- app_assoc).
    replace (blen pre + 1) with (blen (pre ++ [c])) by (rewrite length_app; simpl; lia). rewrite IH; [|done| |simpl in Hf; lia].
    + rewrite length_app. simpl. do 2 f_equal. lia.
    + unfold absent. by rewrite <- seq_shift, Forall_map in Ha'.
Qed.

Lemma after_tag_found pre l tag rest t p : no_nul tag -> no_nul l -> absent tag l -> p = blen pre ->
  after_tag (pre ++ l ++ tag ++ rest ++ 0 :: t) p tag = Some (Some (blen (pre ++ l ++ tag))).
Proof.
  intros Ht Hl Ha ->. unfold after_tag, strstr. rewrite strstr_loop_found by (rewrite ?length_app; done || lia).
  cbn [mbind option_bind]. do 2 f_equal. rewrite !length_app. lia.
Qed.

(** ** File names, proved *)

Definition is_sep (c : Z) : bool := c =? FILE_SEPARATOR.

Fixpoint drop_seps (l : list Z) : list Z := match l with c :: l' => if is_sep c then drop_seps l' else l | [] => [] end.
Fixpoint take_name (l : list Z) : list Z := match l with c :: l' => if is_sep c then [] else c :: take_name l' | [] => [] end.

(** The name of POSIX: what lies behind the last separator when those at the end are left
    out. *)
Definition basename (path : list Z) : list Z :=
  match path with
  | [] => text "."
  | _ => match drop_seps (rev path) with [] => text "/" | l => rev (take_name l) end
  end.

Lemma take_name_split l : exists r, l = take_name l ++ r /\ Forall (fun c => is_sep c = false) (take_name l)
  /\ (r = [] \/ exists c r', r = c :: r' /\ is_sep c = true).
Proof.
  induction l as [|c l (r & IH & Hn & Hr)]; [exists []; by split_and!; [| |left]|]. cbn [take_name]. destruct (is_sep c) eqn:Ec.
  - exists (c :: l). split_and!; [done|done|]. right. by exists c, l.
  - exists r. split_and!; [cbn; by rewrite <- IH|by constructor|done].
Qed.

Lemma drop_seps_split l : exists r, l = r ++ drop_seps l /\ Forall (fun c => is_sep c = true) r
  /\ (drop_seps l = [] \/ exists c l', drop_seps l = c :: l' /\ is_sep c = false).
Proof.
  induction l as [|c l (r & IH & Hn & Hr)]; [exists []; by split_and!; [| |left]|]. cbn [drop_seps]. destruct (is_sep c) eqn:Ec.
  - exists (c :: r). split_and!; [cbn; by rewrite <- IH|by constructor|done].
  - exists []. split_and!; [done|done|]. right. by exists c, l.
Qed.

(** A path is made of directories, a name, and separators at its end. *)
Lemma path_shape path : path <> [] ->
  Forall (fun c => is_sep c = true) path /\ basename path = text "/"
  \/ exists dir name seps, path = dir ++ name ++ seps /\ Forall (fun c => is_sep c = true) seps /\ Forall (fun c => is_sep c = false) name
       /\ name <> [] /\ (dir = [] \/ exists d c, dir = d ++ [c] /\ is_sep c = true) /\ basename path = name.
Proof.
  intros Hp. unfold basename. destruct (drop_seps_split (rev path)) as (r & Hr & Hseps & Hd).
  assert (path = rev (drop_seps (rev path)) ++ rev r) as Hpath by (rewrite <- rev_app_distr, <- Hr; by rewrite rev_involutive).
  destruct path as [|c0 path0] eqn:Ep; [done|]. rewrite <- Ep in *. clear Ep Hp.
  destruct Hd as [Hd|(c & l' & Hd & Hc)].
  - left. rewrite Hd in *. split; [|done]. rewrite Hpath. cbn [rev app]. by apply Forall_rev.
  - right. rewrite Hd in *. destruct (take_name_split (c :: l')) as (t & Ht & Hn & Hdir).
    exists (rev t), (rev (take_name (c :: l'))), (rev r). rewrite Hpath at 1. split_and!.
    + rewrite Ht at 1. by rewrite rev_app_distr, <- app_assoc.
    + by apply Forall_rev.
    + by apply Forall_rev.
    + cbn [take_name]. rewrite Hc. cbn [rev]. by destruct (rev (take_name l')).
    + destruct Hdir as [->|(x & t' & -> & Hx)]; [by left|right]. by exists (rev t'), x.
    + done.
Qed.

Lemma last_begin_app l1 l2 p b : last_begin (l1 ++ l2) p b = last_begin l2 (p + blen l1) (last_begin l1 p b).
Proof.
  revert p b. induction l1 as [|c l1 IH]; intros p b; cbn [app last_begin length]; [by rewrite Z.add_0_r|].
  rewrite IH. f_equal. lia.
Qed.

Lemma last_begin_none l p b : Forall (fun c => is_sep c = false) l -> last_begin l p b = b.
Proof. revert p b. induction l as [|c l IH]; intros p b Hl; [done|]. inversion Hl as [|? ? Hc Hl']; subst. cbn. unfold is_sep in Hc. rewrite Hc. by apply IH. Qed.

Lemma last_begin_end l c p b : is_sep c = true -> last_begin (l ++ [c]) p b = Some (p + blen l + 1).
Proof. intros Hc. rewrite last_begin_app. cbn. unfold is_sep in Hc. by rewrite Hc. Qed.

(** Reading back from the end of a run of separators. *)
Lemma skip_back_step n pre c rest :
  is_sep c = true ->
  skip_back (S n) (pre ++ c :: rest) (blen pre) = if decide (pre = []) then Some None else skip_back n (pre ++ c :: rest) (blen pre - 1).
Proof.
  intros Hc. cbn [skip_back]. rewrite mread_app by done. cbn [mbind option_bind]. unfold is_sep in Hc. rewrite Hc.
  destruct pre as [|x pre]; [done|]. rewrite decide_False by done. destruct (Z.eqb_spec (blen (x :: pre)) 0); [simpl in *; lia|done].
Qed.

Lemma skip_back_stop pre c seps rest : is_sep c = false -> Forall (fun c => is_sep c = true) seps ->
  forall n, (length seps < n)%nat -> skip_back n (pre ++ c :: seps ++ rest) (blen pre + blen seps) = Some (Some (blen pre)).
Proof.
  intros Hc. revert rest. induction seps as [|x seps IH] using rev_ind; intros rest Hs n Hn; (destruct n as [|n]; [simpl in Hn; lia|]).
  - cbn [length app]. rewrite Z.add_0_r. cbn [skip_back]. rewrite mread_app by done. cbn [mbind option_bind]. unfold is_sep in Hc. by rewrite Hc.
  - apply Forall_app in Hs as [Hs Hx]. inversion Hx as [|? ? Hx' _]; subst. rewrite length_app in *. cbn [length] in *.
    replace (pre ++ c :: (seps ++ [x]) ++ rest) with ((pre ++ c :: seps) ++ x :: rest) by (by rewrite <- !app_assoc).
    replace (blen pre + Z.of_nat (length seps + 1)) with (blen (pre ++ c :: seps)) by (rewrite length_app; simpl; lia).
    rewrite skip_back_step by done. rewrite decide_False by (by destruct pre).
    rewrite <- app_assoc. cbn [app]. replace (blen (pre ++ c :: seps) - 1) with (blen pre + blen seps) by (rewrite length_app; simpl; lia).
    apply IH; [done|lia].
Qed.

Lemma skip_back_all seps rest : Forall (fun c => is_sep c = true) seps -> seps <> [] ->
  forall n, (length seps <= n)%nat -> skip_back n (seps ++ rest) (blen seps - 1) = Some None.
Proof.
  revert rest. induction seps as [|x seps IH] using rev_ind; intros rest Hs Hne n Hn; [done|].
  apply Forall_app in Hs as [Hs Hx]. inversion Hx as [|? ? Hx' _]; subst. rewrite length_app in *. cbn [length] in *.
  destruct n as [|n]; [lia|]. rewrite <- app_assoc. cbn [app]. replace (Z.of_nat (length seps + 1) - 1) with (blen seps) by lia.
  rewrite skip_back_step by done. case_decide as Hd; [done|]. apply IH; [done|done|lia].
Qed.

Lemma find_back_name pre name rest : Forall (fun c => is_sep c = false) name -> name <> [] ->
  pre = [] \/ (exists d c, pre = d ++ [c] /\ is_sep c = true) -> forall n, (length name < n)%nat ->
  find_back n (pre ++ name ++ rest) (blen pre + blen name - 1) = Some (Z.max 0 (blen pre - 1)).
Proof.
  revert rest. induction name as [|x name IH] using rev_ind; intros rest Hs Hne Hpre n Hn; [done|].
  apply Forall_app in Hs as [Hs Hx]. inversion Hx as [|? ? Hx' _]; subst. rewrite length_app in *. cbn [length] in *.
  destruct n as [|n]; [lia|]. cbn [find_back]. destruct (Z.eqb_spec (blen pre + Z.of_nat (length name + 1) - 1) 0) as [Hz|Hz]; [f_equal; lia|].
  rewrite <- (app_assoc name). cbn [app]. rewrite (app_assoc pre), mread_app by (rewrite length_app; lia). cbn [mbind option_bind].
  unfold is_sep in Hx'. rewrite Hx'. rewrite <- app_assoc. destruct (decide (name = [])) as [->|Hname].
  - destruct Hpre as [->|(d & c & -> & Hc)]; [simpl in Hz; lia|]. cbn [app length Nat.add]. destruct n as [|n]; [simpl in Hn; lia|].
    cbn [find_back]. replace (blen (d ++ [c]) + Z.of_nat 1 - 1 - 1) with (blen d) by (rewrite length_app; simpl; lia).
    destruct (Z.eqb_spec (blen d) 0); [f_equal; rewrite length_app; simpl; lia|].
    rewrite <- app_assoc. cbn [app]. rewrite mread_app by done. cbn [mbind option_bind]. unfold is_sep in Hc. rewrite Hc. f_equal.
    rewrite length_app. simpl. lia.
  - replace (blen pre + Z.of_nat (length name + 1) - 1 - 1) with (blen pre + blen name - 1) by lia. apply IH; [done|done|done|lia].
Qed.

Lemma begins_at_end l c : is_sep c = true ->
  from_begin (l ++ [c]) =
    (q ← skip_back (S (length l)) (l ++ [c]) (blen l);
     match q with
     | None => Some (text "/")
     | Some end_ =>
         p ← find_back (S (S (length l))) (l ++ [c]) end_;
         x ← mread (l ++ [c]) p;
         let p := if x =? FILE_SEPARATOR then p + 1 else p in mslice (l ++ [c]) p (end_ - p + 1)
     end).
Proof.
  intros Hc. unfold from_begin. rewrite last_begin_end, length_app by done. cbn [length]. rewrite Nat.add_1_r.
  destruct (Z.eqb_spec (0 + blen l + 1) (Z.of_nat (S (length l)))); [|lia]. by replace (Z.of_nat (S (length l)) - 1) with (blen l) by lia.
Qed.

Lemma only_separators path : path <> [] -> Forall (fun c => is_sep c = true) path -> from_begin path = Some (text "/").
Proof.
  intros Hp Hall. destruct (exists_last Hp) as (l & c & ->). pose proof Hall as Hc. apply Forall_app in Hc as [_ Hc].
  inversion Hc; subst. rewrite begins_at_end by done. replace (blen l) with (blen (l ++ [c]) - 1) by (rewrite length_app; simpl; lia).
  rewrite <- (app_nil_r (l ++ [c])) at 1. rewrite skip_back_all; [done|done|done|rewrite length_app; simpl; lia].
Qed.

Lemma plain_name dir name : Forall (fun c => is_sep c = false) name -> name <> [] ->
  dir = [] \/ (exists d c, dir = d ++ [c] /\ is_sep c = true) -> from_begin (dir ++ name) = Some name.
Proof.
  intros Hn Hne [->|(d & c & -> & Hc)]; unfold from_begin.
  - cbn [app]. by rewrite last_begin_none.
  - rewrite last_begin_app, last_begin_end, last_begin_none by done. rewrite !length_app. cbn [length].
    assert (0 < blen name) by (destruct name; [done|simpl; lia]).
    destruct (Z.eqb_spec (0 + blen d + 1) (Z.of_nat (length d + 1 + length name))); [lia|].
    rewrite <- (app_nil_r name) at 1. apply mslice_app; [rewrite length_app; simpl; lia|lia].
Qed.

Lemma name_read dir name rest : Forall (fun c => is_sep c = false) name -> name <> [] ->
  dir = [] \/ (exists d c, dir = d ++ [c] /\ is_sep c = true) ->
  (x ← mread (dir ++ name ++ rest) (Z.max 0 (blen dir - 1));
   let p := if x =? FILE_SEPARATOR then Z.max 0 (blen dir - 1) + 1 else Z.max 0 (blen dir - 1) in
   mslice (dir ++ name ++ rest) p (blen dir + blen name - 1 - p + 1)) = Some name.
Proof.
  intros Hn Hne [->|(d & c & -> & Hc)].
  - destruct name as [|y name]; [done|]. inversion Hn as [|? ? Hy _]; subst. rewrite <- app_comm_cons, mread_app by done.
    cbn [mbind option_bind]. unfold is_sep in Hy. rewrite Hy. apply (mslice_app [] (y :: name)); [done|simpl; lia].
  - rewrite <- app_assoc. cbn [app]. rewrite mread_app by (rewrite length_app; simpl; lia). cbn [mbind option_bind].
    unfold is_sep in Hc. rewrite Hc. cbv zeta. rewrite (app_assoc d [c] (name ++ rest) : d ++ c :: name ++ rest = _).
    apply mslice_app; rewrite length_app; simpl; lia.
Qed.

Lemma name_and_separators dir name x seps : Forall (fun c => is_sep c = false) name -> name <> [] ->
  Forall (fun c => is_sep c = true) (x :: seps) -> dir = [] \/ (exists d c, dir = d ++ [c] /\ is_sep c = true) ->
  from_begin (dir ++ name ++ x :: seps) = Some name.
Proof.
  intros Hn Hne Hs Hdir. destruct (exists_last (l := x :: seps)) as (l & c & El); [done|]. rewrite El in *. clear El x seps.
  destruct (exists_last Hne) as (n0 & y & Ename). pose proof Hn as Hy. rewrite Ename in Hy. apply Forall_app in Hy as [_ Hy]. inversion Hy; subst.
  pose proof Hs as Hc. apply Forall_app in Hc as [_ Hc]. inversion Hc; subst.
  assert (dir ++ (n0 ++ [y]) ++ l ++ [c] = (dir ++ (n0 ++ [y]) ++ l) ++ [c]) as -> by (by rewrite <- !app_assoc). rewrite begins_at_end by done.
  assert ((dir ++ (n0 ++ [y]) ++ l) ++ [c] = (dir ++ n0) ++ y :: (l ++ [c]) ++ []) as -> by (by rewrite app_nil_r, <- !app_assoc).
  replace (blen (dir ++ (n0 ++ [y]) ++ l)) with (blen (dir ++ n0) + blen (l ++ [c])) by (rewrite !length_app; simpl; lia).
  rewrite skip_back_stop; [|done|done|rewrite !length_app; simpl; lia]. cbn [mbind option_bind].
  assert ((dir ++ n0) ++ y :: (l ++ [c]) ++ [] = dir ++ (n0 ++ [y]) ++ l ++ [c]) as -> by (by rewrite app_nil_r, <- !app_assoc).
  replace (blen (dir ++ n0)) with (blen dir + blen (n0 ++ [y]) - 1) by (rewrite !length_app; simpl; lia).
  rewrite find_back_name; [|done|done|done|rewrite !length_app; simpl; lia]. cbn [mbind option_bind]. by apply name_read.
Qed.

Lemma name_of_path path : as_basename (Some path) = Some (basename path).
Proof.
  destruct path as [|c0 path0] eqn:Ep; [done|]. rewrite <- Ep. assert (path <> []) as Hp by (by rewrite Ep).
  assert (as_basename (Some path) = from_begin path) as -> by (by rewrite Ep). clear Ep.
  destruct (path_shape path Hp) as [[Hall ->]|(dir & name & seps & -> & Hs & Hn & Hne & Hdir & ->)].
  - by apply only_separators.
  - destruct seps as [|x seps]; [rewrite app_nil_r; by apply plain_name|by apply name_and_separators].
Qed.

(** C33: The name of a file that is sent to the servers.  [as_basename], which walks over the path
    back and forth, is the function of POSIX: what lies behind the last separator when those
    at the end are left out, a single separator if there is nothing else, and a dot for the
    empty path. *)
Theorem basename_equiv path : as_basename (Some path) = Some (basename path).
Proof. apply name_of_path. Qed.

(** ** Functions, proved *)

Lemma valid_chars inp : is_valid_encoded inp = true -> Forall (fun c => c <> 0 /\ c <> SEMICOLON) inp.
Proof.
  unfold is_valid_encoded. case_if; [done|]. intros Hv.
  assert (forall c, VA c = true -> c <> 0 /\ c <> SEMICOLON) as HV by (intros c Hc; split; intros ->; done).
  destruct (forallb VA _) eqn:Ef; [|done].
  rewrite <- (take_drop (length inp - 2) inp). apply Forall_app. split.
  - apply List.Forall_forall. intros c Hc. apply HV. by eapply (proj1 (forallb_forall _ _)).
  - destruct (drop _ _) as [|a [|b [|]]]; [done|done| |done]. destruct (Z.eqb_spec a PAD) as [->|_].
    + apply Z.eqb_eq in Hv as ->. by repeat constructor.
    + destruct (VA a) eqn:Ea; [|done]. apply orb_true_iff in Hv. constructor; [by apply HV|]. constructor; [|done].
      destruct Hv as [->%Z.eqb_eq|Hb]; [done|by apply HV].
Qed.

Lemma decimal_short n z acc : (length (decimal_loop n z acc) <= n + length acc)%nat.
Proof. revert z acc. induction n as [|n IH]; intros z acc; cbn [decimal_loop]; [lia|]. case_if; cbn [length]; [lia|]. etrans; [apply IH|simpl; lia]. Qed.

Lemma signed_short z : blen (signed_decimal z) <= 21.
Proof.
  assert (forall z, (length (decimal z) <= 20)%nat) as Hd by (intros z'; apply (decimal_short 20 z' [])).
  unfold signed_decimal. case_if; cbn [length]; match goal with |- context [decimal ?z] => specialize (Hd z) end; lia.
Qed.

Lemma sprintf_fits size s : blen s < size -> sprintf size s = Some s.
Proof. intros Hs. unfold sprintf. by rewrite (proj2 (Z.ltb_lt _ _)). Qed.

Lemma put_text_fits filebase b len : blen (udf_put_text filebase b len) < udf_put_block filebase b.
Proof. unfold udf_put_text, udf_put_block. pose proof (signed_short len). rewrite !length_app. cbn [text length map list_ascii_of_string]. lia. Qed.

Lemma content_decoded content : Forall is_byte content -> content <> [] ->
  (r ← cf_b64_validate_and_decode_in_place (cf_b64_encode content);
   '(decoded, size) ← r;
   bytes ← mslice decoded 0 size;
   Some (Some bytes)) = Some (Some content).
Proof.
  intros Hb Hne. unfold cf_b64_validate_and_decode_in_place. rewrite encode_valid by done.
  destruct (decode_loop_encode content Hb) as (pad & Hd & Hp).
  destruct (decode_in_place_agrees (cf_b64_encode content) (content ++ pad) (blen content)) as (m & -> & Hm & _).
  { unfold cf_b64_decode. rewrite Hd. cbn [mbind option_bind]. do 2 f_equal. rewrite length_app. lia. }
  cbn [mbind option_bind]. assert (m = content ++ drop (length content) m) as ->.
  { rewrite <- (take_drop (length content) m) at 1. f_equal. rewrite length_app in Hm.
    apply (f_equal (take (length content))) in Hm. rewrite take_take, take_app_length in Hm. by rewrite Nat.min_l in Hm by lia. }
  by rewrite (mslice_app [] content (drop _ m) 0 (blen content) eq_refl eq_refl : mslice (content ++ _) _ _ = _).
Qed.

(** C34: A file comes back as it was sent.  [aerospike_udf_put] sends the base name of the file and
    a text; from an answer in which the server repeats the text, [aerospike_udf_get] reads the
    bytes that were put. *)
Theorem udf_circle hpux path content pre l post :
  Forall is_byte content -> content <> [] -> blen content < 2 ^ 29 ->
  no_nul l -> absent (text "content=") l ->
  exists b, udf_put_command hpux (Some path) content = Some (udf_put_text (basename path) b (blen b))
    /\ read_udf_content (pre ++ l ++ text "content=" ++ b ++ SEMICOLON :: post ++ [0]) (blen pre) = Some (Some content).
Proof.
  intros Hb Hne Hlen Hl Ha. exists (cf_b64_encode content). destruct (encode_sizes content Hlen) as [Hsz _].
  pose proof (encode_valid content Hb Hne) as Hv. split.
  - unfold udf_put_command. rewrite name_of_path. cbn [mbind option_bind]. rewrite <- Hsz.
    pose proof (encode_length content) as Hel. pose proof (Nat.Div0.div_le_upper_bound (length content + 2) 3 (length content + 2)).
    rewrite u32_id by (unfold is_u32; lia). rewrite sprintf_fits by lia. cbn [mbind option_bind]. destruct hpux; [|done].
    apply sprintf_fits, put_text_fits.
  - unfold read_udf_content.
    replace (pre ++ l ++ text "content=" ++ cf_b64_encode content ++ SEMICOLON :: post ++ [0])
      with (pre ++ l ++ text "content=" ++ (cf_b64_encode content ++ SEMICOLON :: post) ++ 0 :: []) by (by rewrite <- !app_assoc).
    rewrite after_tag_found by (done || by repeat constructor). cbn [mbind option_bind].
    replace (pre ++ l ++ text "content=" ++ (cf_b64_encode content ++ SEMICOLON :: post) ++ [0])
      with ((pre ++ l ++ text "content=") ++ cf_b64_encode content ++ SEMICOLON :: post ++ [0]) by (by rewrite <- !app_assoc).
    rewrite until_exact; [|by apply valid_chars|done|rewrite !length_app; lia]. cbn [mbind option_bind].
    rewrite mslice_app by (rewrite ?length_app; lia). cbn [mbind option_bind].
    by apply content_decoded.
Qed.

Lemma udf_circle_witness :
  exists b, udf_put_command true (Some (text "d/a.lua")) [120; 0; 255] = Some (udf_put_text (text "a.lua") b (blen b))
    /\ read_udf_content ([97; 9] ++ text "gen=x;" ++ text "content=" ++ b ++ SEMICOLON :: [10] ++ [0]) 2 = Some (Some [120; 0; 255]).
Proof.
  apply (udf_circle true (text "d/a.lua") [120; 0; 255] [97; 9] (text "gen=x;") [10]).
  - repeat constructor; lia.
  - done.
  - reflexivity.
  - apply (bool_decide_unpack _). vm_compute. exact I.
  - unfold absent. apply (bool_decide_unpack _). vm_compute. exact I.
Defined.

(** ** Lists of files *)

(** An entry is a list of names and values. *)
Definition udf_entry : Type := list (list Z * list Z).

Definition pair_of (kv : list Z * list Z) (sep : Z) : list Z := fst kv ++ EQUALS :: snd kv ++ [sep].
Fixpoint udf_text (e : udf_entry) : list Z :=
  match e with
  | [] => []
  | [kv] => pair_of kv SEMICOLON
  | kv :: e => pair_of kv COMMA ++ udf_text e
  end.

Definition plain (c : Z) : Prop := c <> 0 /\ c <> EQUALS /\ c <> COMMA /\ c <> SEMICOLON.
Definition udf_entry_ok (e : udf_entry) : Prop := e <> [] /\ Forall (fun kv => Forall plain (fst kv) /\ Forall plain (snd kv)) e.

(** The last value of a name. *)
Definition value_of (key : list Z) (e : udf_entry) : option (list Z) :=
  fold_left (fun v kv => if decide (fst kv = key) then Some (snd kv) else v) e None.

(** What the entry of a list becomes, in the place of [old]. *)
Definition file_of (e : udf_entry) (old : as_udf_file) : as_udf_file :=
  mk_udf_file (match value_of (text "filename") e with Some v => as_strncpy v AS_UDF_FILE_NAME_SIZE | None => [] end)
    (match value_of (text "hash") e with Some v => strncpy v AS_UDF_FILE_HASH_SIZE | None => 0 :: drop 1 (udf_hash old) end)
    AS_UDF_TYPE_LUA None.

(** The string of a pointer ends inside [pre], whatever follows. *)
Definition shows (pre : list Z) (q : option Z) (v : option (list Z)) : Prop :=
  match q, v with
  | Some q, Some v => forall rest, cstr (pre ++ rest) q = Some v
  | None, None => True
  | _, _ => False
  end.
Definition ptr_shows (pre : list Z) (ptr : as_udf_file_ptr) (e : udf_entry) : Prop :=
  shows pre (ptr_name ptr) (value_of (text "filename") e) /\ shows pre (ptr_hash ptr) (value_of (text "hash") e)
  /\ shows pre (ptr_type ptr) (value_of (text "type") e).

Lemma shows_more pre x q v : shows pre q v -> shows (pre ++ x) q v.
Proof. destruct q as [q|], v as [v|]; [|done..]. cbn. intros Hq rest. rewrite <- app_assoc. apply Hq. Qed.
Lemma ptr_shows_more pre x ptr e : ptr_shows pre ptr e -> ptr_shows (pre ++ x) ptr e.
Proof. intros (H1 & H2 & H3). by split_and!; apply shows_more. Qed.

Lemma value_of_snoc key e kv : value_of key (e ++ [kv]) = if decide (fst kv = key) then Some (snd kv) else value_of key e.
Proof. unfold value_of. by rewrite fold_left_app. Qed.

Lemma parse_file_shows pre ptr e kv q :
  ptr_shows pre ptr e -> (forall rest, cstr (pre ++ rest) q = Some (snd kv)) -> ptr_shows pre (as_udf_parse_file (fst kv) q ptr) (e ++ [kv]).
Proof.
  intros (H1 & H2 & H3) Hq. destruct kv as [k v]. unfold ptr_shows, as_udf_parse_file. rewrite !value_of_snoc. cbn [fst snd] in *.
  assert (text "filename" <> text "hash" /\ text "filename" <> text "type" /\ text "hash" <> text "type") as (N1 & N2 & N3) by done.
  repeat case_decide; split_and!; first [done|congruence].
Qed.

Lemma list_plain x pre rest fuel token ptr ptrs : Forall plain x ->
  udf_list_loop (length x + fuel) (pre ++ x ++ rest) (blen pre) token ptr ptrs = udf_list_loop fuel ((pre ++ x) ++ rest) (blen (pre ++ x)) token ptr ptrs.
Proof.
  intros Hx. revert pre. induction Hx as [|c x (H0 & H1 & H2 & H3) Hx IH]; intros pre; [by rewrite app_nil_r|].
  cbn [length Nat.add app udf_list_loop]. rewrite mread_app by done. cbn [mbind option_bind]. rewrite !(proj2 (Z.eqb_neq c _)) by done.
  specialize (IH (pre ++ [c])). rewrite <- !app_assoc, length_app in IH. cbn [app length] in IH.
  replace (blen pre + 1) with (Z.of_nat (length pre + 1)) by lia. rewrite IH, <- app_assoc. f_equal.
Qed.

Lemma mwrite_here a x b : mwrite (a ++ x :: b) (blen a) [0] = Some (a ++ 0 :: b).
Proof. by apply (mwrite_app a [x] b). Qed.

Lemma plain_no_nul x : Forall plain x -> no_nul x.
Proof. intros Hx. eapply Forall_impl; [exact Hx|]. by intros c (? & _). Qed.

(** Name and value of a pair, up to what ends it. *)
Lemma list_pair k v pre rest fuel ptr ptrs : Forall plain k -> Forall plain v ->
  udf_list_loop (length k + S (length v + fuel)) (pre ++ k ++ EQUALS :: v ++ rest) (blen pre) (blen pre) ptr ptrs
  = udf_list_loop fuel ((pre ++ k ++ 0 :: v) ++ rest) (blen (pre ++ k ++ 0 :: v)) (blen pre) (as_udf_parse_file k (blen (pre ++ k) + 1) ptr) ptrs.
Proof.
  intros Hk Hv. rewrite list_plain by done. cbn [udf_list_loop]. rewrite mread_app by done. cbn [mbind option_bind].
  rewrite mwrite_here. cbn [mbind option_bind Z.eqb]. change (EQUALS =? 0) with false. change (EQUALS =? EQUALS) with true. cbn iota.
  rewrite <- app_assoc, cstr_app by (by apply plain_no_nul). cbn [mbind option_bind].
  pose proof (list_plain v (pre ++ k ++ [0]) rest fuel (blen pre) (as_udf_parse_file k (blen (pre ++ k) + 1) ptr) ptrs Hv) as Hp.
  rewrite <- !app_assoc in Hp. cbn [app] in Hp. rewrite <- app_assoc. cbn [app].
  replace (blen (pre ++ k) + 1) with (blen (pre ++ k ++ [0])) in * by (rewrite !length_app; simpl; lia).
  rewrite Hp. by rewrite <- (app_assoc k).
Qed.

Lemma pair_shown k v pre c : Forall plain v -> forall rest, cstr ((pre ++ k ++ 0 :: v ++ 0 :: c) ++ rest) (blen (pre ++ k) + 1) = Some v.
Proof.
  intros Hv rest. replace ((pre ++ k ++ 0 :: v ++ 0 :: c) ++ rest) with ((pre ++ k ++ [0]) ++ v ++ 0 :: c ++ rest).
  - replace (blen (pre ++ k) + 1) with (blen (pre ++ k ++ [0])) by (rewrite !length_app; simpl; lia). by apply cstr_app, plain_no_nul.
  - repeat (rewrite <- app_assoc || cbn [app]). done.
Qed.

(** The vector of pointers. *)
Definition ptrs_room (ptrs : as_vector as_udf_file_ptr) (l : list as_udf_file_ptr) : Prop :=
  v_rep ptrs l /\ item_size ptrs = 24.

Lemma ptrs_append ptrs l ptr : ptrs_room ptrs l -> blen l < 2 ^ 26 ->
  exists ptrs', as_vector_append true ptrs ptr = Some ptrs' /\ ptrs_room ptrs' (l ++ [ptr]).
Proof.
  intros [Hv Hi] Hl. destruct (append_ok ptrs l ptr Hv) as (v & Hv' & Hr & _ & Hi'); [eapply v_rep_room; [done|lia]|].
  exists v. split; [done|]. split; [done|]. by rewrite Hi'.
Qed.

Lemma list_comma pre rest fuel token ptr ptrs :
  udf_list_loop (S fuel) (pre ++ COMMA :: rest) (blen pre) token ptr ptrs
  = udf_list_loop fuel ((pre ++ [0]) ++ rest) (blen (pre ++ [0])) (blen (pre ++ [0])) ptr ptrs.
Proof.
  cbn [udf_list_loop]. rewrite mread_app by done. cbn [mbind option_bind]. rewrite mwrite_here. cbn.
  rewrite <- app_assoc, length_app. cbn. by replace (Z.of_nat (length pre + 1)) with (blen pre + 1) by lia.
Qed.

Lemma list_semicolon pre rest fuel token ptr ptrs l : ptrs_room ptrs l -> blen l < 2 ^ 26 ->
  exists ptrs', udf_list_loop (S fuel) (pre ++ SEMICOLON :: rest) (blen pre) token ptr ptrs
    = udf_list_loop fuel ((pre ++ [0]) ++ rest) (blen (pre ++ [0])) (blen (pre ++ [0])) no_ptr ptrs' /\ ptrs_room ptrs' (l ++ [ptr]).
Proof.
  intros Hr Hl. destruct (ptrs_append ptrs l ptr Hr Hl) as (ptrs' & Ha & Hr'). exists ptrs'. split; [|done].
  cbn [udf_list_loop]. rewrite mread_app by done. cbn [mbind option_bind]. rewrite mwrite_here. cbn. rewrite Ha. cbn.
  rewrite <- app_assoc, length_app. cbn. by replace (Z.of_nat (length pre + 1)) with (blen pre + 1) by lia.
Qed.

(** A pair with what ends it, cut. *)
Definition pair_cut_of (kv : list Z * list Z) : list Z := fst kv ++ 0 :: snd kv ++ [0].

Lemma list_pair_of kv sep pre rest fuel ptr ptrs : Forall plain (fst kv) -> Forall plain (snd kv) ->
  exists p token ptr',
    udf_list_loop (length (pair_of kv sep) + fuel) (pre ++ pair_of kv sep ++ rest) (blen pre) (blen pre) ptr ptrs
    = udf_list_loop (S fuel) (p ++ sep :: rest) (blen p) token ptr' ptrs
    /\ p ++ [0] = pre ++ pair_cut_of kv /\ forall e0, ptr_shows pre ptr e0 -> ptr_shows (p ++ [0]) ptr' (e0 ++ [kv]).
Proof.
  destruct kv as [k v]. unfold pair_of, pair_cut_of. cbn [fst snd]. intros Hk Hv.
  exists (pre ++ k ++ 0 :: v), (blen pre), (as_udf_parse_file k (blen (pre ++ k) + 1) ptr). split_and!.
  - pose proof (list_pair k v pre (sep :: rest) (S fuel) ptr ptrs Hk Hv) as Hp. rewrite <- Hp. f_equal.
    + rewrite length_app. cbn [length]. rewrite length_app. cbn [length]. lia.
    + repeat (rewrite <- app_assoc || cbn [app]). done.
  - repeat (rewrite <- app_assoc || cbn [app]). done.
  - intros e0 Hs. apply (parse_file_shows _ _ _ (k, v)).
    + rewrite <- app_assoc. by apply ptr_shows_more.
    + intros r. cbn [snd]. pose proof (pair_shown k v pre [] Hv r) as Hc. rewrite <- Hc. f_equal. repeat (rewrite <- app_assoc || cbn [app]). done.
Qed.

Lemma list_entry e : forall e0 pre rest fuel ptr ptrs l, udf_entry_ok e -> ptr_shows pre ptr e0 -> ptrs_room ptrs l -> blen l < 2 ^ 26 ->
  exists cut ptr' ptrs',
    udf_list_loop (length (udf_text e) + fuel) (pre ++ udf_text e ++ rest) (blen pre) (blen pre) ptr ptrs
    = udf_list_loop fuel ((pre ++ cut) ++ rest) (blen (pre ++ cut)) (blen (pre ++ cut)) no_ptr ptrs'
    /\ ptr_shows (pre ++ cut) ptr' (e0 ++ e) /\ ptrs_room ptrs' (l ++ [ptr']).
Proof.
  induction e as [|kv e IH]; intros e0 pre rest fuel ptr ptrs l [Hne Hall] Hp Hr Hl; [done|]. inversion Hall as [|? ? [Hk Hv] Hall']; subst.
  destruct e as [|kv' e].
  - cbn [udf_text]. destruct (list_pair_of kv SEMICOLON pre rest fuel ptr ptrs Hk Hv) as (p & token & ptr' & -> & Hcut & Hs).
    destruct (list_semicolon p rest fuel token ptr' ptrs l Hr Hl) as (ptrs' & -> & Hr'). rewrite Hcut in *.
    exists (pair_cut_of kv), ptr', ptrs'. split_and!; [done|by apply Hs|done].
  - change (udf_text (kv :: kv' :: e)) with (pair_of kv COMMA ++ udf_text (kv' :: e)). rewrite length_app, <- Nat.add_assoc, <- app_assoc.
    destruct (list_pair_of kv COMMA pre (udf_text (kv' :: e) ++ rest) (length (udf_text (kv' :: e)) + fuel) ptr ptrs Hk Hv)
      as (p & token & ptr' & -> & Hcut & Hs). rewrite list_comma, Hcut in *.
    destruct (IH (e0 ++ [kv]) (pre ++ pair_cut_of kv) rest fuel ptr' ptrs l) as (cut & ptr'' & ptrs' & -> & Hs' & Hr'); [done|by apply Hs|done|done|].
    exists (pair_cut_of kv ++ cut), ptr'', ptrs'. rewrite <- !app_assoc in *. by split_and!.
Qed.

Lemma list_entries es : forall pre ptrs l done fuel post, Forall udf_entry_ok es -> ptrs_room ptrs l -> Forall2 (ptr_shows pre) l done ->
  blen l + blen es < 2 ^ 26 ->
  exists m ptrs' l', udf_list_loop (length (mjoin (udf_text <$> es)) + S fuel) (pre ++ mjoin (udf_text <$> es) ++ 0 :: post) (blen pre) (blen pre) no_ptr ptrs
      = Some (m ++ post, ptrs')
    /\ ptrs_room ptrs' l' /\ Forall2 (ptr_shows m) l' (done ++ es).
Proof.
  induction es as [|e es IH]; intros pre ptrs l done fuel post Hok Hr Hs Hl.
  - cbn. rewrite mread_app by done. cbn. exists (pre ++ [0]), ptrs, l. rewrite <- app_assoc, app_nil_r. split_and!; [done|done|].
    eapply Forall2_impl; [exact Hs|]. intros. by apply ptr_shows_more.
  - inversion Hok; subst. cbn [fmap list_fmap]. rewrite join_cons, length_app, <- Nat.add_assoc, <- app_assoc.
    destruct (list_entry e [] pre (mjoin (udf_text <$> es) ++ 0 :: post) (length (mjoin (udf_text <$> es)) + S fuel) no_ptr ptrs l)
      as (cut & ptr & ptrs' & -> & Hp & Hr'); [done|done|done|simpl in Hl; lia|].
    destruct (IH (pre ++ cut) ptrs' (l ++ [ptr]) (done ++ [e]) fuel post) as (m & ptrs'' & l' & -> & Hr'' & Hs'); [done|done| |rewrite length_app; simpl in *; lia|].
    + apply Forall2_app; [|by constructor]. eapply Forall2_impl; [exact Hs|]. intros. by apply ptr_shows_more.
    + exists m, ptrs'', l'. rewrite <- app_assoc in Hs'. by split_and!.
Qed.

Lemma fill_file_ok m post ptr e old : ptr_shows m ptr e -> udf_hash old <> [] -> fill_file (m ++ post) ptr old = Some (file_of e old).
Proof.
  intros (H1 & H2 & _) Hh. unfold fill_file, file_of.
  destruct (ptr_name ptr) as [q|], (value_of (text "filename") e) as [v|]; [|done..|]; cbn in H1; rewrite ?H1; cbn [mbind option_bind];
    (destruct (ptr_hash ptr) as [q'|], (value_of (text "hash") e) as [v'|]; [|done..|]; cbn in H2; rewrite ?H2; cbn [mbind option_bind]; [done|];
     destruct (udf_hash old) as [|h hs]; [done|]; by rewrite (mwrite_0 [h] hs [0] eq_refl : mwrite (h :: hs) 0 [0] = _)).
Qed.

Lemma fill_files_ok m post ptrs olds : forall l1 l2 es done tail, v_rep ptrs (l1 ++ l2) -> Forall2 (ptr_shows m) l2 es ->
  length l1 = length done -> (length olds <= length l2)%nat -> Forall (fun f => udf_hash f <> []) olds ->
  fill_files (length olds) (m ++ post) ptrs (done ++ olds ++ tail) (blen done) = Some (done ++ zip_with file_of es olds ++ tail).
Proof.
  induction olds as [|old olds IH]; intros l1 l2 es done tail Hv Hs Hl Hn Hh.
  { cbn [length fill_files app]. by destruct es. }
  inversion Hs as [|ptr e l2' es' Hp Hs' E1 E2]; subst; [simpl in Hn; lia|]. inversion Hh; subst. cbn [length fill_files].
  rewrite (vector_get_ok ptrs (l1 ++ ptr :: l2')) by (done || rewrite length_app; simpl; lia).
  rewrite lookup_app_r, Nat2Z.id, Hl, Nat.sub_diag by lia. cbn [lookup list_lookup mbind option_bind app].
  rewrite aget_lookup, lookup_app_r, Nat.sub_diag by lia. cbn [lookup list_lookup mbind option_bind].
  rewrite (fill_file_ok m post ptr e) by done. cbn [mbind option_bind]. rewrite aset_middle by done. cbn [mbind option_bind].
  specialize (IH (l1 ++ [ptr]) l2' es' (done ++ [file_of e old]) tail). rewrite !length_app, <- !app_assoc in IH. cbn [app length] in IH.
  replace (blen done + 1) with (Z.of_nat (length done + 1)) by lia. rewrite IH; [done|done|done|lia|simpl in Hn; lia|done].
Qed.

Section Listing.
Context (uninit_files : Z -> list as_udf_file).

(** An array of files with their hashes. *)
Definition files_ok (files : as_udf_files) : Prop :=
  0 <= files_capacity files < 2 ^ 27 /\
  match files_entries files with
  | None => files_capacity files = 0
  | Some olds => blen olds = files_capacity files /\ Forall (fun f => udf_hash f <> []) olds
  end.

(** What becomes of the files: a new array, or the array of the caller as far as it goes. *)
Definition listing (es : list udf_entry) (files : as_udf_files) : as_udf_files :=
  let n := blen es in
  match files_entries files with
  | None => mk_udf_files n n (if n =? 0 then None else Some (zip_with file_of es (uninit_files n)))
  | Some olds => mk_udf_files (files_capacity files) (Z.min n (files_capacity files)) (Some (zip_with file_of es olds ++ drop (length es) olds))
  end.

Lemma filled m post ptrs l es olds : v_rep ptrs l -> Forall2 (ptr_shows m) l es -> Forall (fun f => udf_hash f <> []) olds ->
  fill_files (Z.to_nat (Z.min (blen es) (blen olds))) (m ++ post) ptrs olds 0 = Some (zip_with file_of es olds ++ drop (length es) olds).
Proof.
  intros Hv Hs Hh. pose proof (Forall2_length _ _ _ Hs) as Hle. rewrite <- (take_drop (length es) olds) at 2.
  replace (Z.to_nat (Z.min (blen es) (blen olds))) with (length (take (length es) olds)) by (rewrite length_take; lia).
  pose proof (fill_files_ok m post ptrs (take (length es) olds) [] l es [] (drop (length es) olds) Hv Hs eq_refl) as Hf.
  cbn [app length] in Hf. change (Z.of_nat 0) with 0 in Hf. rewrite Hf; [|rewrite length_take; lia|by apply Forall_take]. by rewrite zip_with_take_r.
Qed.

(** What [aerospike_udf_list] makes of an answer.  For every list of entries, with any names
    in any order, the files are those of the entries in their order, each with the last value
    given for its name and for its hash; the array of the caller is filled as far as it goes,
    or a new one is made. *)
Lemma udf_listed pre es files :
  Forall udf_entry_ok es -> blen es < 2 ^ 26 -> files_ok files ->
  (forall n, 0 <= n -> blen (uninit_files n) = n /\ Forall (fun f => udf_hash f <> []) (uninit_files n)) ->
  read_udf_list uninit_files (pre ++ mjoin (udf_text <$> es) ++ [0]) (blen pre) files = Some (listing es files).
Proof.
  intros Hes Hn [Hc Hf] Hu. unfold read_udf_list, listing. set (cap := if files_capacity files =? 0 then 500 else files_capacity files).
  assert (0 < cap < 2 ^ 27) as Hcap by (unfold cap; case_if; reflect_Z; lia).
  destruct (list_entries es pre (as_vector_inita 24 cap) [] [] (S (length pre)) []) as (m & ptrs & l & E & [Hv _] & Hs);
    [done|split; [apply constructed_rep; lia|done]|constructor|simpl; lia|].
  replace (S (length (pre ++ mjoin (udf_text <$> es) ++ [0]))) with (length (mjoin (udf_text <$> es)) + S (S (length pre)))%nat
    by (rewrite !length_app; simpl; lia).
  rewrite E. cbn [mbind option_bind]. destruct (Hv) as (-> & _). rewrite (Forall2_length _ _ _ Hs). cbn [app] in Hs |- *.
  destruct (files_entries files) as [olds|] eqn:Ef; rewrite ?Ef.
  - destruct Hf as [Ho Hh]. rewrite bool_decide_eq_false_2, andb_false_r, Ef by done.
    replace (if blen es <? files_capacity files then blen es else files_capacity files) with (Z.min (blen es) (blen olds)) by (case_if; reflect_Z; lia).
    rewrite <- Ho. destruct (Z.eqb_spec (Z.min (blen es) (blen olds)) 0) as [Hz|_].
    + do 2 f_equal. destruct es, olds; done || (simpl in Hz; lia).
    + cbn [mbind option_bind]. by rewrite (filled m [] ptrs l es olds Hv Hs Hh).
  - rewrite Hf, bool_decide_eq_true_2 by done. unfold as_udf_files_init. cbn [files_capacity files_entries andb Z.eqb]. rewrite Z.ltb_irrefl.
    destruct (Z.eqb_spec (blen es) 0) as [->|Hz]; [done|]. rewrite (proj2 (Z.ltb_lt _ _)) by lia. cbn [mbind option_bind].
    destruct (Hu (blen es)) as [Hul Huh]; [lia|]. pose proof (filled m [] ptrs l es _ Hv Hs Huh) as Hfi. rewrite Hul, Z.min_id in Hfi.
    rewrite Hfi. cbn [mbind option_bind]. by rewrite drop_ge, app_nil_r by lia.
Qed.
End Listing.

(** ** The hash of a file *)

Lemma hex_loop_room hash : forall buf p buf', hex_loop buf p hash = Some buf' -> hash = [] \/ p + 2 * blen hash + 1 <= blen buf.
Proof.
  induction hash as [|b hash IH]; intros buf p buf' Hh; [by left|right]. cbn [hex_loop] in Hh.
  destruct (mwrite buf p _) as [buf1|] eqn:Ew; [|done]. cbn [mbind option_bind] in Hh. pose proof (mwrite_length _ _ _ _ Ew) as Hl.
  assert (p + 3 <= blen buf) as Hb by (unfold mwrite in Ew; case_decide as Hd; [simpl in Hd; lia|done]).
  destruct (IH _ _ _ Hh) as [->|Hr]; cbn [length]; lia.
Qed.

Section Hashes.
Context `{Platform} `{Net W} (hpux : bool) (stack : list Z) (SHA1 : list Z -> list Z).
Context (SHA1_size : forall m, blen (SHA1 m) = 20).

End Hashes.

(** ** Reports on scans *)

Lemma digits_app l rest acc : Forall (fun c => is_digit c = true) l -> digits (l ++ rest) acc = digits rest (digits l acc).
Proof. intros Hl. revert acc. induction Hl as [|c l Hc Hl IH]; intros acc; [done|]. cbn [app digits]. by rewrite Hc, IH. Qed.

Lemma decimal_loop_ok n : forall z acc, 0 <= z < 10 ^ Z.of_nat n -> (0 < n)%nat ->
  exists ds, decimal_loop n z acc = ds ++ acc /\ ds <> [] /\ Forall (fun c => is_digit c = true) ds /\ digits ds 0 = z.
Proof.
  induction n as [|n IH]; intros z acc Hz Hn; [lia|]. cbn [decimal_loop]. pose proof (Z.mod_pos_bound z 10 ltac:(lia)) as Hm.
  assert (is_digit (48 + z mod 10) = true) as Hd by (unfold is_digit; apply andb_true_intro; split; apply Z.leb_le; lia).
  destruct (Z.ltb_spec z 10) as [Hlt|Hlt].
  - exists [48 + z mod 10]. split_and!; [done|done|by constructor|]. cbn [digits]. rewrite Hd, Z.mod_small by lia. lia.
  - destruct (IH (z / 10) ((48 + z mod 10) :: acc)) as (ds & -> & Hne & Hall & Hv).
    + rewrite Nat2Z.inj_succ, Z.pow_succ_r in Hz by lia. split; [apply Z.div_pos; lia|apply Z.div_lt_upper_bound; lia].
    + destruct n; [|lia]. simpl in Hz. lia.
    + exists (ds ++ [48 + z mod 10]). split_and!; [by rewrite <- app_assoc|by destruct ds|apply Forall_app; by split; [|constructor]|].
      rewrite digits_app, Hv by done. cbn [digits]. rewrite Hd. pose proof (Z.div_mod z 10). lia.
Qed.

(** What follows a number is no digit. *)
Definition ends_number (l : list Z) : Prop := match l with c :: _ => is_digit c = false | [] => True end.

Lemma atoi_decimal z rest : 0 <= z < 2 ^ 31 -> ends_number rest -> atoi (decimal z ++ rest) = z.
Proof.
  intros Hz Hr. destruct (decimal_loop_ok 20 z []) as (ds & Hd & Hne & Hall & Hv); [lia|lia|]. unfold decimal. rewrite Hd, app_nil_r.
  destruct ds as [|c ds]; [done|]. apply Forall_cons in Hall as Hc. destruct Hc as [Hc' _]. unfold is_digit in Hc'. apply andb_prop in Hc' as [H1 H2]. reflect_Z.
  assert (digits ((c :: ds) ++ rest) 0 = z) as Hdig.
  { rewrite digits_app, Hv by done. destruct rest as [|x rest]; [done|]. cbn [digits]. cbn in Hr. by rewrite Hr. }
  unfold atoi. cbn [app skip_spaces] in *. unfold is_space.
  rewrite (proj2 (Z.eqb_neq c 32)) by lia. rewrite (proj2 (Z.leb_gt c 13)) by lia. rewrite andb_false_r. cbn [orb].
  transitivity (i32 (Z.max (- 2 ^ 63) (Z.min (2 ^ 63 - 1) z))); [do 3 f_equal|].
  { assert (c = 48 \/ c = 49 \/ c = 50 \/ c = 51 \/ c = 52 \/ c = 53 \/ c = 54 \/ c = 55 \/ c = 56 \/ c = 57) as Hcs by lia.
    repeat destruct Hcs as [Hcs|Hcs]; rewrite Hcs in *; exact Hdig. }
  rewrite Z.max_r, Z.min_r by lia. apply i32_id. lia.
Qed.

Inductive node_state := NodeAborted | NodeRunning | NodeDone.
Definition state_text (st : node_state) : list Z :=
  match st with NodeAborted => text "ABORTED" | NodeRunning => text "IN PROGRESS" | NodeDone => text "DONE" end.

(** What a node says of a job, among other things. *)
Record report := mk_report {
  r_head : list Z; r_between : list Z; r_state : node_state; r_middle : list Z; r_pct : Z; r_gap : list Z; r_records : Z; r_tail : list Z }.

Definition report_text (job_id : list Z) (r : report) : list Z :=
  r_head r ++ job_id ++ r_between r ++ JOB_STATUS_TAG ++ (state_text (r_state r) ++ r_middle r)
  ++ JOB_PROGRESS_TAG ++ (decimal (r_pct r) ++ r_gap r) ++ SCANNED_RECORDS_TAG ++ decimal (r_records r) ++ r_tail r.

Definition report_ok (job_id : list Z) (r : report) : Prop :=
  no_nul (report_text job_id r) /\ absent job_id (r_head r) /\ absent JOB_STATUS_TAG (r_between r)
  /\ absent JOB_PROGRESS_TAG (r_between r ++ JOB_STATUS_TAG ++ state_text (r_state r) ++ r_middle r)
  /\ absent SCANNED_RECORDS_TAG (decimal (r_pct r) ++ r_gap r)
  /\ 0 <= r_pct r < 2 ^ 31 /\ 0 <= r_records r < 2 ^ 31 /\ r_gap r <> [] /\ ends_number (r_gap r) /\ ends_number (r_tail r).

(** What a report adds to what is known. *)
Definition add_state (st : as_scan_status) (n : node_state) : as_scan_status :=
  match st, n with
  | SCAN_ABORTED, _ | _, NodeAborted => SCAN_ABORTED
  | _, NodeRunning => SCAN_INPROGRESS
  | SCAN_UNDEF, NodeDone => SCAN_COMPLETED
  | st, NodeDone => st
  end.
Definition slower (p q : Z) : Z := if (p =? 0) || (q <? p) then q else p.
Definition add_report (i : as_scan_info) (r : report) : as_scan_info :=
  mk_scan_info (add_state (scan_status i) (r_state r)) (slower (progress_pct i) (r_pct r)) (u32 (records_scanned i + r_records r)).

Lemma absent_suffix tag x y : absent tag (x ++ y) -> absent tag y.
Proof.
  unfold absent. rewrite length_app, seq_app, Forall_app. intros [_ Hy]. cbn [Nat.add] in Hy.
  rewrite List.Forall_forall in Hy |- *. intros k Hk. apply in_seq in Hk.
  specialize (Hy (length x + k)%nat). rewrite <- app_assoc, <- drop_drop, drop_app_length in Hy. apply Hy, in_seq. lia.
Qed.

Lemma number_ok pre z rest t l p : l = decimal z ++ rest -> 0 <= z < 2 ^ 31 -> ends_number rest -> no_nul l -> p = blen pre ->
  number_at (pre ++ l ++ 0 :: t) p = Some z.
Proof. intros El Hz Hr Hn ->. unfold number_at. rewrite cstr_app by done. cbn [fmap option_fmap option_map]. by rewrite El, atoi_decimal. Qed.

(** From where the progress is looked for. *)
Definition progress_text (pct : Z) (gap : list Z) (n : Z) (tail : list Z) : list Z :=
  (decimal pct ++ gap) ++ SCANNED_RECORDS_TAG ++ decimal n ++ tail.

Lemma read_progress_ok i pre l pct gap n tail :
  no_nul l -> no_nul (progress_text pct gap n tail) -> absent JOB_PROGRESS_TAG l -> absent SCANNED_RECORDS_TAG (decimal pct ++ gap) ->
  0 <= pct < 2 ^ 31 -> 0 <= n < 2 ^ 31 -> gap <> [] -> ends_number gap -> ends_number tail ->
  read_progress (pre ++ l ++ JOB_PROGRESS_TAG ++ progress_text pct gap n tail ++ [0]) (blen pre) i
  = Some (mk_scan_info (scan_status i) (slower (progress_pct i) pct) (u32 (records_scanned i + n))).
Proof.
  intros Hl Hnn Ha1 Ha2 Hp Hn Hg Hgn Htn. unfold read_progress.
  rewrite after_tag_found by (done || by repeat constructor). cbn [mbind option_bind].
  set (pre1 := pre ++ l ++ JOB_PROGRESS_TAG).
  replace (pre ++ l ++ JOB_PROGRESS_TAG ++ progress_text pct gap n tail ++ [0]) with (pre1 ++ progress_text pct gap n tail ++ [0])
    by (unfold pre1; by rewrite <- !app_assoc).
  rewrite (number_ok pre1 pct (gap ++ SCANNED_RECORDS_TAG ++ decimal n ++ tail)); [|unfold progress_text; by rewrite <- app_assoc|done| |done|done].
  2:{ destruct gap; [done|]. exact Hgn. }
  cbn [mbind option_bind]. rewrite u32_id by (unfold is_u32; lia). fold (slower (progress_pct i) pct).
  unfold progress_text in *. apply Forall_app in Hnn as [Hd Hnn]. apply Forall_app in Hnn as [_ Hnn].
  assert (pre1 ++ ((decimal pct ++ gap) ++ SCANNED_RECORDS_TAG ++ decimal n ++ tail) ++ [0]
    = pre1 ++ (decimal pct ++ gap) ++ SCANNED_RECORDS_TAG ++ (decimal n ++ tail) ++ [0]) as -> by (by rewrite <- !app_assoc).
  rewrite after_tag_found by (done || by repeat constructor). cbn [mbind option_bind].
  assert (pre1 ++ (decimal pct ++ gap) ++ SCANNED_RECORDS_TAG ++ (decimal n ++ tail) ++ [0]
    = (pre1 ++ (decimal pct ++ gap) ++ SCANNED_RECORDS_TAG) ++ (decimal n ++ tail) ++ [0]) as -> by (by rewrite <- !app_assoc).
  rewrite (number_ok _ n tail) by done. cbn [mbind option_bind]. unfold slower.
  destruct ((progress_pct i =? 0) || (pct <? progress_pct i)); done.
Qed.

Lemma read_status_ok i pre st rest t : read_status (pre ++ (state_text st ++ rest) ++ 0 :: t) (blen pre) i =
  Some (match st, scan_status i with
        | NodeAborted, _ => set_status SCAN_ABORTED i
        | NodeRunning, _ => set_status SCAN_INPROGRESS i
        | NodeDone, SCAN_UNDEF => set_status SCAN_COMPLETED i
        | NodeDone, _ => i
        end).
Proof.
  unfold read_status. rewrite !has_prefix_eq by (by repeat constructor). cbn [mbind option_bind].
  assert (forall tag, (exists r, state_text st ++ rest = tag ++ r) -> bool_decide (tag `prefix_of` state_text st ++ rest) = true) as Hyes
    by (intros tag Ht; by apply bool_decide_eq_true_2).
  assert (forall tag, (forall r, state_text st ++ rest <> tag ++ r) -> bool_decide (tag `prefix_of` state_text st ++ rest) = false) as Hno
    by (intros tag Ht; apply bool_decide_eq_false_2; intros [r Hr]; by eapply Ht).
  destruct st.
  - rewrite (Hyes (text "ABORTED")) by (by eexists). done.
  - rewrite (Hno (text "ABORTED")) by (intros r; discriminate). rewrite (Hyes (text "IN PROGRESS")) by (by eexists). done.
  - rewrite (Hno (text "ABORTED")), (Hno (text "IN PROGRESS")) by (intros r; discriminate). rewrite (Hyes (text "DONE")) by (by eexists).
    by destruct (scan_status i).
Qed.

Lemma report_parts job_id r : no_nul (report_text job_id r) ->
  no_nul (r_head r) /\ no_nul job_id /\ no_nul (r_between r) /\ no_nul (state_text (r_state r) ++ r_middle r)
  /\ no_nul (progress_text (r_pct r) (r_gap r) (r_records r) (r_tail r)).
Proof. unfold report_text, progress_text. rewrite !Forall_app. tauto. Qed.

Lemma scan_cb_report job_id r i : report_ok job_id r ->
  scan_info_cb job_id (Some (report_text job_id r ++ [0])) i = Some (true, add_report i r).
Proof.
  intros (Hnn & Ha1 & Ha2 & Ha3 & Ha4 & Hp & Hn & Hg & Hgn & Htn). apply report_parts in Hnn as (N1 & N2 & N3 & N4 & N5).
  unfold scan_info_cb. cbn [mbind option_bind]. set (pt := progress_text (r_pct r) (r_gap r) (r_records r) (r_tail r)) in *.
  set (body := r_between r ++ JOB_STATUS_TAG ++ (state_text (r_state r) ++ r_middle r) ++ JOB_PROGRESS_TAG ++ pt).
  assert (report_text job_id r ++ [0] = [] ++ r_head r ++ job_id ++ body ++ 0 :: []) as ->
    by (unfold report_text, body, pt, progress_text; by rewrite <- !app_assoc).
  rewrite after_tag_found by done. cbn [mbind option_bind]. set (pre := [] ++ r_head r ++ job_id).
  assert ([] ++ r_head r ++ job_id ++ body ++ [0] = pre ++ body ++ [0]) as -> by (unfold pre; by rewrite <- !app_assoc).
  case_decide as Hst.
  - pose proof (read_progress_ok i pre (r_between r ++ JOB_STATUS_TAG ++ state_text (r_state r) ++ r_middle r) _ _ _ _
      ltac:(rewrite !Forall_app in *; split_and!; try tauto; by repeat constructor) N5 Ha3 Ha4 Hp Hn Hg Hgn Htn) as Hr.
    fold pt in Hr. rewrite <- !app_assoc in Hr. unfold body. rewrite <- !app_assoc, Hr. cbn [mbind option_bind].
    unfold add_report, add_state. rewrite Hst. done.
  - unfold body. assert (pre ++ (r_between r ++ JOB_STATUS_TAG ++ (state_text (r_state r) ++ r_middle r) ++ JOB_PROGRESS_TAG ++ pt) ++ [0]
      = pre ++ r_between r ++ JOB_STATUS_TAG ++ ((state_text (r_state r) ++ r_middle r) ++ JOB_PROGRESS_TAG ++ pt) ++ [0]) as -> by (by rewrite <- !app_assoc).
    rewrite after_tag_found by (done || by repeat constructor). cbn [mbind option_bind]. set (pre2 := pre ++ r_between r ++ JOB_STATUS_TAG).
    assert (pre ++ r_between r ++ JOB_STATUS_TAG ++ ((state_text (r_state r) ++ r_middle r) ++ JOB_PROGRESS_TAG ++ pt) ++ [0]
      = pre2 ++ (state_text (r_state r) ++ r_middle r ++ JOB_PROGRESS_TAG ++ pt) ++ [0]) as -> by (unfold pre2; by rewrite <- !app_assoc).
    rewrite read_status_ok. cbn [mbind option_bind].
    assert (pre2 ++ (state_text (r_state r) ++ r_middle r ++ JOB_PROGRESS_TAG ++ pt) ++ [0]
      = pre2 ++ (state_text (r_state r) ++ r_middle r) ++ JOB_PROGRESS_TAG ++ pt ++ [0]) as -> by (by rewrite <- !app_assoc).
    unfold pt. rewrite read_progress_ok; [|done|done| |done..].
    2:{ rewrite app_assoc in Ha3. by apply absent_suffix in Ha3. }
    cbn [mbind option_bind]. unfold add_report, add_state, set_status. by destruct (r_state r), (scan_status i) eqn:Es; rewrite ?Es.
Qed.

(** An answer that says nothing of the job. *)
Definition no_job (job_id body : list Z) : Prop := no_nul body /\ Forall (fun k => ~ job_id `prefix_of` drop k body) (seq 0 (S (length body))).

Lemma strstr_loop_none pre l tag t : no_nul tag -> no_nul l -> Forall (fun k => ~ tag `prefix_of` drop k l) (seq 0 (S (length l))) ->
  forall fuel, (length l < fuel)%nat -> strstr_loop fuel (pre ++ l ++ 0 :: t) (blen pre) tag = Some None.
Proof.
  intros Ht. revert pre. induction l as [|c l IH]; intros pre Hl Ha fuel Hf; (destruct fuel as [|fuel]; [simpl in Hf; lia|]); cbn [strstr_loop];
    rewrite has_prefix_eq by done; inversion Ha as [|? ? Hc Ha']; subst; rewrite bool_decide_eq_false_2 by done; cbn [mbind option_bind app];
    rewrite mread_app by done; cbn [mbind option_bind]; [done|].
  inversion Hl; subst. rewrite (proj2 (Z.eqb_neq c 0)) by done. specialize (IH (pre ++ [c])). rewrite <- app_assoc, length_app in IH. cbn [app] in IH.
  replace (blen pre + 1) with (Z.of_nat (length pre + length [c])) by (simpl; lia). apply IH; [done| |simpl in Hf; lia].
  change (1%nat :: seq 2 (length l)) with (seq 1 (S (length l))) in Ha'. by rewrite <- seq_shift, Forall_map in Ha'.
Qed.

Lemma scan_cb_other job_id body i : no_nul job_id -> no_job job_id body -> scan_info_cb job_id (Some (body ++ [0])) i = Some (true, i).
Proof.
  intros Hj [Hb Hn]. unfold scan_info_cb, after_tag, strstr. cbn [mbind option_bind].
  rewrite (strstr_loop_none [] body job_id [] Hj Hb Hn); [done|rewrite length_app; simpl; lia].
Qed.

(** What an answer says: a report, or nothing of the job. *)
Definition says (job_id body : list Z) (o : option report) : Prop :=
  match o with Some r => report_ok job_id r /\ body = report_text job_id r | None => no_job job_id body end.

Definition add_said (i : as_scan_info) (o : option report) : as_scan_info := match o with Some r => add_report i r | None => i end.

Lemma scan_cb_says job_id body o i : no_nul job_id -> says job_id body o -> scan_info_cb job_id (Some (body ++ [0])) i = Some (true, add_said i o).
Proof. intros Hj. destruct o as [r|]; [intros [Hr ->]; by apply scan_cb_report|by apply scan_cb_other]. Qed.

(** The state of a job on all nodes. *)
Definition overall (rs : list report) : as_scan_status :=
  if existsb (fun r => match r_state r with NodeAborted => true | _ => false end) rs then SCAN_ABORTED
  else if existsb (fun r => match r_state r with NodeRunning => true | _ => false end) rs then SCAN_INPROGRESS
  else match rs with [] => SCAN_UNDEF | _ => SCAN_COMPLETED end.

(** The progress of the slowest node. *)
Fixpoint slowest (rs : list report) : Z :=
  match rs with
  | [] => 0
  | [r] => r_pct r
  | r :: rs => Z.min (r_pct r) (slowest rs)
  end.

Definition no_info : as_scan_info := mk_scan_info SCAN_UNDEF 0 0.

Lemma overall_snoc rs r : overall (rs ++ [r]) = add_state (overall rs) (r_state r).
Proof.
  unfold overall. rewrite !existsb_app. cbn [existsb]. rewrite !orb_false_r.
  destruct (existsb _ rs); [by destruct (r_state r)|]. destruct (existsb _ rs) eqn:E2, (r_state r), rs as [|r0 rs]; done.
Qed.

Lemma slowest_snoc rs r : rs <> [] -> slowest (rs ++ [r]) = Z.min (slowest rs) (r_pct r).
Proof.
  induction rs as [|x rs IH]; intros Hne; [done|]. destruct rs as [|y rs]; [done|].
  change (slowest ((x :: y :: rs) ++ [r])) with (Z.min (r_pct x) (slowest ((y :: rs) ++ [r]))). rewrite IH by done.
  change (slowest (x :: y :: rs)) with (Z.min (r_pct x) (slowest (y :: rs))). lia.
Qed.

Lemma slowest_pos rs : Forall (fun r => 0 < r_pct r) rs -> rs <> [] -> 0 < slowest rs.
Proof. induction 1 as [|r rs Hr Hrs IH]; intros Hne; [done|]. destruct rs as [|r' rs]; [done|]. specialize (IH ltac:(done)). cbn in *. lia. Qed.

(** The sum of the reports. *)
Lemma add_reports rs : let i := fold_left add_report rs no_info in
  scan_status i = overall rs /\ records_scanned i = u32 (fold_left (fun n r => n + r_records r) rs 0)
  /\ (Forall (fun r => 0 < r_pct r) rs -> progress_pct i = slowest rs).
Proof.
  induction rs as [|r rs (IH1 & IH2 & IH3)] using rev_ind; [done|]. rewrite !fold_left_app. cbn [fold_left add_report scan_status progress_pct records_scanned].
  rewrite IH1, IH2, overall_snoc. split_and!; [done| |].
  - unfold u32. by rewrite Zplus_mod_idemp_l.
  - intros Hp. apply Forall_app in Hp as [Hp Hr]. apply Forall_cons in Hr as [Hr _]. rewrite IH3 by done.
    destruct (decide (rs = [])) as [->|Hne]; [done|]. pose proof (slowest_pos rs Hp Hne) as Hs.
    rewrite slowest_snoc by done. unfold slower. destruct (Z.eqb_spec (slowest rs) 0); [lia|]. cbn [orb].
    destruct (Z.ltb_spec (r_pct r) (slowest rs)); lia.
Qed.

Lemma add_all_said os i : fold_left add_said os i = fold_left add_report (omap id os) i.
Proof. revert i. induction os as [|[r|] os IH]; intros i; [done|..]; cbn; by rewrite IH. Qed.
