(* ===== verification/Waiting.v ===== *)
(** * Waiting for a cluster

    The calls of the file [Manage] on a cluster that the invariant of the file [Membership]
    describes: they ask its members, whose array they hold meanwhile, and leave it as it was.
    The loops that wait come to an end if the servers do.  For this a number is assigned to
    the network that nothing makes grow and that every answer makes smaller which says that
    there is still something to do. *)

From Stdlib Require Import Ascii String.
From S2P Require Import Prelude Counting ByteOrder Base64 Vector Queue Value Msgpack Wire Socket Parse Node Partition Info Tend.
From S2P Require Import Membership Outside Client Manage.
Open Scope Z_scope.

(** ** What is left to do *)

Section Drift.
Context `{Platform} `{Net W} (pending : W -> nat).
Implicit Types (s : mem W).

(** Talking to the network does not make more work. *)
Record steady : Prop := mk_steady {
  steady_socket w : (pending (snd (os_socket w)) <= pending w)%nat;
  steady_getfl w fd : (pending (snd (os_getfl w fd)) <= pending w)%nat;
  steady_setfl w fd flags : (pending (snd (os_setfl w fd flags)) <= pending w)%nat;
  steady_connect w fd sa : (pending (snd (os_connect w fd sa)) <= pending w)%nat;
  steady_close w fd : (pending (os_close w fd) <= pending w)%nat;
  steady_shutdown w fd : (pending (os_shutdown w fd) <= pending w)%nat;
  steady_getms w : (pending (snd (os_getms w)) <= pending w)%nat;
  steady_send w fd command deadline st w' : os_send w fd command deadline = URet (st, w') -> (pending w' <= pending w)%nat;
  steady_recv w fd n deadline r w' : os_recv w fd n deadline = URet (r, w') -> (pending w' <= pending w)%nat
}.
Context (st : steady).

Definition drifts {A} (m : M W A) : Prop := forall s x s', m s = URet (x, s') -> (pending (net s') <= pending (net s))%nat.

Lemma drifts_bind {A B} (m : M W A) (f : A -> M W B) : drifts m -> (forall a, drifts (f a)) -> drifts (m ≫= f).
Proof. intros Hm Hf s x s' (a & s1 & E1 & E2)%bind_inv. apply Hm in E1. apply Hf in E2. lia. Qed.
Lemma drifts_ret {A} (a : A) : drifts (mret a).
Proof. by intros s x s' [= _ <-]. Qed.
Lemma drifts_gets {A} (f : mem W -> A) : drifts (gets f).
Proof. by intros s x s' [= _ <-]. Qed.
Lemma drifts_access {A} (f : mem W -> option A) : drifts (access f).
Proof. intros s x s'. unfold access. destruct (f s); [|done]. by intros [= _ <-]. Qed.
Lemma drifts_modify f : (forall s, (pending (net (f s)) <= pending (net s))%nat) -> drifts (modify f).
Proof. intros Hf s x s' [= _ <-]. apply Hf. Qed.
Lemma drifts_os {A} (f : W -> A * W) : (forall w, (pending (snd (f w)) <= pending w)%nat) -> drifts (os f).
Proof. intros Hf s x s'. unfold os. specialize (Hf (net s)). destruct (f (net s)) as [a w]. by intros [= _ <-]. Qed.
Lemma drifts_os_u {A} (f : W -> ures (A * W)) : (forall w a w', f w = URet (a, w') -> (pending w' <= pending w)%nat) -> drifts (os_u f).
Proof. intros Hf s x s'. unfold os_u. destruct (f (net s)) as [[a w]| |] eqn:E; [|done..]. intros [= _ <-]. by eapply Hf. Qed.
Lemma drifts_ub {A} : drifts (ub : M W A).
Proof. done. Qed.
Lemma drifts_malloc : drifts malloc.
Proof. intros s x s'. unfold malloc. destruct (cf_malloc _). by intros [= _ <-]. Qed.
Lemma drifts_close fd : drifts (as_close fd).
Proof. intros s x s' [= _ <-]. apply (steady_close st). Qed.
Lemma drifts_send fd command deadline : drifts (os_u (fun w => os_send w fd command deadline)).
Proof. apply drifts_os_u. intros. by eapply (steady_send st). Qed.
Lemma drifts_recv fd n deadline : drifts (os_u (fun w => os_recv w fd n deadline)).
Proof. apply drifts_os_u. intros. by eapply (steady_recv st). Qed.

Create HintDb drift discriminated.
#[local] Hint Resolve drifts_ret drifts_gets drifts_access drifts_ub drifts_malloc drifts_close drifts_send drifts_recv : drift.
#[local] Hint Extern 1 (drifts (cluster_of _)) => apply drifts_gets : drift.
#[local] Hint Extern 2 (drifts (os _)) => apply drifts_os; intros; apply st : drift.

Ltac drift := repeat (first [progress intros | solve [eauto with drift] | case_match | apply drifts_bind]).

Lemma drifts_create sa : drifts (as_socket_create_and_connect_nb sa).
Proof.
  unfold as_socket_create_and_connect_nb, as_socket_create_nb, as_socket_start_connect_nb. drift. by apply drifts_modify.
Qed.
Lemma drifts_deadline timeout : drifts (deadline_of timeout).
Proof. unfold deadline_of. drift. Qed.
Lemma drifts_authenticate stack fd u p deadline : drifts (as_authenticate stack fd u p deadline).
Proof. unfold as_authenticate, as_admin_send. drift. Qed.
Lemma drifts_command hpux fd names asis deadline max : drifts (as_info_command hpux fd names asis deadline max).
Proof. unfold as_info_command. drift. Qed.
#[local] Hint Resolve drifts_create drifts_deadline drifts_authenticate drifts_command : drift.

Lemma drifts_host hpux stack sa names asis deadline : drifts (as_info_command_host stack hpux sa names asis deadline).
Proof. unfold as_info_command_host. drift; apply drifts_modify; intros; apply (steady_shutdown st). Qed.

(** ** Answers *)

Context (hpux : bool) (stack : list Z).

(** An answer to the request that says that there is something to do leaves less to do. *)
Definition shrinks (busy : list Z -> Prop) (req : list Z) : Prop :=
  forall w fd deadline w0 hdr w1 pr body w2,
    os_send w fd req deadline = URet (AEROSPIKE_OK, w0) -> os_recv w0 fd 8 deadline = URet (AEROSPIKE_OK, hdr, w1) ->
    as_proto_of_bytes host_endian hdr = Some pr ->
    os_recv w1 fd (proto_sz (as_proto_swap_from_be host_endian pr)) deadline = URet (AEROSPIKE_OK, body, w2) ->
    busy body -> (pending w2 < pending w)%nat.

Lemma os_u_inv {A} (f : W -> ures (A * W)) s a s' : os_u f s = URet (a, s') -> f (net s) = URet (a, net s').
Proof. unfold os_u. destruct (f (net s)) as [[x w]| |]; [|done..]. by intros [= -> <-]. Qed.
Lemma access_inv {A} (f : mem W -> option A) s a s' : access f s = URet (a, s') -> f s = Some a /\ s' = s.
Proof. unfold access. destruct (f s); [|done]. by intros [= -> <-]. Qed.

Lemma command_shrinks busy fd names asis deadline s body s' :
  shrinks busy (info_request hpux names asis) ->
  as_info_command hpux fd names asis deadline 0 s = URet (AEROSPIKE_OK, Some (body ++ [0]), s') -> busy body -> (pending (net s') < pending (net s))%nat.
Proof.
  intros Hsh Hc Hb. unfold as_info_command in Hc. apply bind_inv in Hc as (st1 & s1 & E1%os_u_inv & Hc).
  destruct (Z.eqb_spec st1 0) as [->|]; cbn [negb] in Hc; [|by injection Hc as ->].
  apply bind_inv in Hc as ([st2 hdr] & s2 & E2%os_u_inv & Hc). destruct (Z.eqb_spec st2 0) as [->|]; cbn [negb] in Hc; [|by injection Hc as ->].
  apply bind_inv in Hc as (pr & s3 & E3%access_inv & Hc). destruct E3 as [E3 ->]. case_match; [done|]. cbn [Z.ltb andb] in Hc.
  apply bind_inv in Hc as (ok & s4 & E4 & Hc). assert (net s4 = net s2) as Hn4.
  { unfold malloc in E4. destruct (cf_malloc _). by injection E4 as _ <-. }
  destruct ok; [|done]. cbn [negb] in Hc. apply bind_inv in Hc as ([st5 body'] & s5 & E5%os_u_inv & Hc). rewrite Hn4 in E5.
  destruct (Z.eqb_spec st5 0) as [->|]; cbn [negb] in Hc; [|by injection Hc as ->].
  apply bind_inv in Hc as ([[st6 msg] m] & s6 & E6%access_inv & Hc). destruct E6 as [E6 ->].
  destruct (Z.eqb_spec st6 0) as [->|Hne]; cbn [negb] in Hc.
  - injection Hc as -> <-. destruct (validate_ok body') as (st' & msg' & m' & Hv & Hm & _). rewrite E6 in Hv. injection Hv as <- <- <-.
    rewrite Hm in E6 by done. assert (body = body') as -> by (specialize (Hm eq_refl); by apply app_inv_tail in Hm).
    by eapply Hsh.
  - apply bind_inv in Hc as (? & ? & _ & Hc). by injection Hc as ->.
Qed.

Lemma host_shrinks busy sa names asis deadline s body s' :
  shrinks busy (info_request hpux (Some names) asis) ->
  as_info_command_host stack hpux sa names asis deadline s = URet (AEROSPIKE_OK, Some (body ++ [0]), s') -> busy body -> (pending (net s') < pending (net s))%nat.
Proof.
  intros Hsh Hc Hb. unfold as_info_command_host in Hc. apply bind_inv in Hc as ([st1 fd] & s1 & E1%drifts_create & Hc).
  destruct (Z.eqb_spec st1 0) as [->|]; cbn [negb] in Hc; [|by injection Hc as ->].
  apply bind_inv in Hc as (fd' & s2 & E2%access_inv & Hc). destruct E2 as [_ ->].
  apply bind_inv in Hc as (u & s3 & E3 & Hc). assert (s3 = s1) as -> by (by injection E3 as _ <-).
  apply bind_inv in Hc as (st4 & s4 & E4 & Hc). assert (pending (net s4) <= pending (net s1))%nat as Hn4.
  { revert E4. destruct u; [|by intros [= _ <-]]. assert (drifts (cluster_of password ≫= fun p => as_authenticate stack fd' (Some l) p deadline)) as Hd by drift.
    apply Hd. }
  destruct (Z.eqb_spec st4 0) as [->|]; cbn [negb] in Hc.
  2:{ apply bind_inv in Hc as (? & ? & _ & Hc). by injection Hc as ->. }
  apply bind_inv in Hc as (r & s5 & E5 & Hc). apply bind_inv in Hc as (? & s6 & E6 & Hc). apply bind_inv in Hc as (? & s7 & E7%drifts_close & Hc).
  injection Hc as -> <-. pose proof (command_shrinks busy _ _ _ _ _ _ _ Hsh E5 Hb) as H5.
  assert (pending (net s6) <= pending (net s5))%nat by (injection E6 as _ <-; apply (steady_shutdown st)). lia.
Qed.

Lemma deadline_ok timeout s : wlp (deadline_of timeout) (fun _ s1 => outside s s1 /\ (pending (net s1) <= pending (net s))%nat) s.
Proof.
  pose proof (wlp_deadline timeout s) as Hw. pose proof (drifts_deadline timeout s) as Hd. unfold wlp in *.
  destruct (deadline_of timeout s) as [[d s']| |]; [|done..]. split; [apply Hw|by eapply Hd].
Qed.

(** What is known of a request that was sent. *)
Definition heard (B busy : list Z -> Prop) (w : W) (r : reply) (w' : W) : Prop :=
  (pending w' <= pending w)%nat
  /\ (fst r = AEROSPIKE_OK -> exists body, snd r = Some (body ++ [0]) /\ B body /\ (busy body -> (pending w' < pending w)%nat)).

Lemma ask_ok B busy pol sa req deadline s :
  answered B (info_request hpux (Some req) (info_send_as_is pol)) -> shrinks busy (info_request hpux (Some req) (info_send_as_is pol)) ->
  allocs s = [] -> auth_ok stack (cluster s) ->
  wlp (info_ask hpux stack pol sa req deadline) (fun r s1 => outside s s1 /\ heard B busy (net s) r (net s1)) s.
Proof.
  intros Han Hsh Hal Hau. unfold info_ask. pose proof (info_host_answered hpux stack B sa req (info_send_as_is pol) deadline s Han Hal Hau) as Hw.
  pose proof (drifts_host hpux stack sa req (info_send_as_is pol) deadline s) as Hd.
  pose proof (fun body => host_shrinks busy sa req (info_send_as_is pol) deadline s body) as Hs. unfold wlp in *.
  destruct (as_info_command_host _ _ _ _ _ _ _) as [[[status res] s']| |] eqn:E; [|done|done]. destruct Hw as [Ho Hr]. split; [done|].
  split; [by eapply Hd|]. cbn [fst snd] in *. intros ->. destruct (Hr eq_refl) as (body & Hres & _ & HB). cbn [snd] in Hres. subst res. exists body. split_and!; [done|done|].
  by apply Hs.
Qed.
End Drift.

(** ** The members of a cluster *)

Section Members.
Context `{Platform} `{Net W} (hpux : bool) (stack : list Z) (pending : W -> nat).
Context (np K : Z) (N : list (list Z)).
Implicit Types (s : mem W).
Abbreviation ok := (cluster_ok np K N).

(** The nodes of [l] can be asked. *)
Definition standing (l : list Z) s : Prop :=
  allocs s = [] /\ auth_ok stack (cluster s) /\ Forall (fun n => exists node, m_nodes s !! n = Some node /\ node_ok node) l.

Lemma standing_outside l s s' : standing l s -> outside s s' -> standing l s'.
Proof. intros Hs (w & o & c & ->). exact Hs. Qed.

Lemma ok_standing E P l s : ok E P l s -> auth_ok stack (cluster s) -> standing l s.
Proof.
  intros Hs Hau. split_and!; [apply Hs|done|]. apply Forall_forall. intros n Hn. by eapply ok_member.
Qed.

Lemma member_address_eq n node s : m_nodes s !! n = Some node -> node_ok node -> exists sa, member_address (Some n) s = URet (sa, s).
Proof.
  intros Hn [_ Hloc]. unfold member_address. rewrite (bind_access _ _ _ n eq_refl). unfold as_node_get_address_full.
  rewrite bind_assoc, (bind_node_at _ _ _ _ Hn). destruct (aget_is_Some (addresses node) (address_index node) Hloc) as [a Ha].
  rewrite (bind_access _ _ _ a Ha). by eexists.
Qed.

(** The array of the members is held and given back. *)
Lemma with_members_ok {X} (f : list (option Z) -> M W X) (Q : X -> W -> Prop) E P l s :
  ok E P l s -> auth_ok stack (cluster s) ->
  (forall s1, standing l s1 -> net s1 = net s -> wlp (f (Some <$> l)) (fun x s2 => outside s1 s2 /\ Q x (net s2)) s1) ->
  wlp (with_members f) (fun x s2 => outside s s2 /\ Q x (net s2)) s.
Proof.
  intros Hs Hau Hf. pose proof (ok_members _ _ _ _ _ _ _ _ Hs) as Hm. set (a := nodes (cluster s)) in *.
  set (s1 := set_arrays <[a := mk_nodes 2 (Some <$> l)]> s).
  assert (as_nodes_reserve s = URet (a, s1)) as E1.
  { unfold as_nodes_reserve, array_at. by rewrite bind_cluster_of, (bind_access _ _ _ _ Hm), bind_modify. }
  assert (m_arrays s1 !! a = Some (mk_nodes 2 (Some <$> l))) as Ha by (unfold s1; cbn; apply lookup_insert_eq).
  unfold with_members. unfold wlp. rewrite (bind_ret_eq _ _ _ _ _ E1). unfold array_at at 1. rewrite (bind_access _ _ _ _ Ha). cbn [nodes_array].
  apply (wlp_bind (W := W)). eapply wlp_mono; [apply Hf; [by apply (ok_standing E P l s Hs)|done]|].
  intros x s2 [(w & o & c & ->) HQ]. unfold wlp, as_nodes_release, array_at. cbn [m_arrays net cluster] in *. rewrite bind_assoc.
  erewrite bind_access; [|exact Ha]. cbn [nodes_refs nodes_array]. change (u32 (2 - 1)) with 1. cbn [Z.eqb].
  rewrite bind_modify. split; [|exact HQ]. exists w, o, c. unfold s1, set_arrays. cbn. rewrite insert_insert_eq, insert_id by done. done.
Qed.

(** Moreover, what follows from the result. *)
Lemma wlp_returned {X} (m : M W X) (Q R : X -> mem W -> Prop) s :
  wlp m Q s -> (forall x s', m s = URet (x, s') -> Q x s' -> R x s') -> wlp m R s.
Proof. unfold wlp. destruct (m s) as [[x s']| |]; [|done..]. intros HQ HR. by apply HR. Qed.

(** The members of a list are asked one after the other, and these are their replies. *)
Inductive asking (ask : sockaddr_in -> M W reply) : list Z -> list reply -> mem W -> mem W -> Prop :=
  | asking_nil s : asking ask [] [] s s
  | asking_cons n l sa r rs s s1 s2 :
      member_address (Some n) s = URet (sa, s) -> ask sa s = URet (r, s1) -> asking ask l rs s1 s2 -> asking ask (n :: l) (r :: rs) s s2.

Context (st : steady pending).

(** A request that some or all members are asked. *)
Section Asking.
Context (B busy : list Z -> Prop) (pol : as_policy_info) (req : list Z).
Context (servers : answered B (info_request hpux (Some req) (info_send_as_is pol))).
Context (work : shrinks pending busy (info_request hpux (Some req) (info_send_as_is pol))).

Lemma ask_member n l s deadline : standing l s -> n ∈ l ->
  exists sa, member_address (Some n) s = URet (sa, s)
    /\ wlp (info_ask hpux stack pol sa req deadline) (fun r s1 => outside s s1 /\ heard pending B busy (net s) r (net s1)) s.
Proof.
  intros (Hal & Hau & Hl) Hn. destruct (proj1 (Forall_forall _ _) Hl n Hn) as (node & Hnode & Hok).
  destruct (member_address_eq n node s Hnode Hok) as [sa Hsa]. exists sa. split; [done|]. by apply ask_ok.
Qed.

(** The first member that gives an answer. *)
Definition told (r : reply) : Prop := fst r = AEROSPIKE_OK -> exists body, snd r = Some (body ++ [0]) /\ B body.

Lemma any_loop_ok deadline l s : standing l s -> forall r, fst r <> AEROSPIKE_OK ->
  wlp (any_loop hpux stack pol (Some <$> l) req deadline r) (fun r s1 => outside s s1 /\ told r) s.
Proof.
  revert s. induction l as [|n l IH]; intros s Hs r Hr; cbn [fmap list_fmap any_loop].
  - apply wlp_ret. split; [done|]. by intros ?.
  - destruct (ask_member n (n :: l) s deadline Hs) as (sa & Hsa & Hask); [by left|]. unfold wlp. rewrite (bind_ret_eq _ _ _ _ _ Hsa).
    apply (wlp_bind (W := W)). eapply wlp_mono; [exact Hask|]. intros r1 s1 [Ho [_ Hh]]. destruct (info_stops (fst r1)) eqn:Est.
    + apply wlp_ret. split; [done|]. intros Hr1. destruct (Hh Hr1) as (body & ? & ? & _). by exists body.
    + eapply wlp_mono; [apply IH|intros r2 s2 [Ho2 Ht]; split; [by transitivity s1|done]].
      * apply (standing_outside _ s); [|done]. destruct Hs as (? & ? & Hl). inversion Hl; subst. done.
      * intros E. unfold info_stops in Est. by rewrite E in Est.
Qed.

Lemma standing_tail n l s s' : standing (n :: l) s -> outside s s' -> standing l s'.
Proof. intros (? & ? & Hl) Ho. inversion Hl; subst. by apply (standing_outside _ s). Qed.

(** What the answers add, one after the other. *)
Definition gather {U} (step : U -> reply -> U) (rs : list reply) (u : U) : U :=
  fold_left (fun u r => if fst r =? AEROSPIKE_OK then step u r else u) rs u.

Definition busy_reply (r : reply) : Prop := fst r = AEROSPIKE_OK /\ exists body, snd r = Some (body ++ [0]) /\ busy body.

(** All members, one after the other, up to one that fails for another reason than that it
    cannot be reached. *)
Lemma info_foreach_ok {U} (callback : Z -> option (list Z) -> U -> option (bool * U)) (step : U -> reply -> U) deadline l :
  (forall n body u, B body -> callback n (Some (body ++ [0])) u = Some (true, step u (AEROSPIKE_OK, Some (body ++ [0])))) ->
  forall s status u, standing l s ->
  wlp (info_foreach_loop hpux stack callback pol (Some <$> l) req deadline status u) (fun r s1 => outside s s1 /\ (pending (net s1) <= pending (net s))%nat
    /\ exists l1 l2 rs, l = l1 ++ l2 /\ asking (fun sa => info_ask hpux stack pol sa req deadline) l1 rs s s1
        /\ Forall told rs /\ snd r = gather step rs u /\ (fst r = AEROSPIKE_OK -> l2 = [])
        /\ (Exists busy_reply rs -> (pending (net s1) < pending (net s))%nat)) s.
Proof.
  intros Hcb. induction l as [|n l IH]; intros s status u Hs; cbn [fmap list_fmap info_foreach_loop].
  { apply wlp_ret. split_and!; [done|done|]. exists [], [], []. split_and!; [done|constructor|done|done|done|]. by intros ?%Exists_nil. }
  destruct (ask_member n (n :: l) s deadline Hs) as (sa & Hsa & Hask); [by left|]. unfold wlp. rewrite (bind_access _ _ _ n eq_refl), (bind_ret_eq _ _ _ _ _ Hsa).
  apply (wlp_bind (W := W)). eapply wlp_returned; [exact Hask|]. intros [st1 res] s1 Eask [Ho [Hle Hh]].
  assert (told (st1, res)) as Ht by (intros Hr1; destruct (Hh Hr1) as (body & ? & ? & _); by exists body). cbn [fst snd] in Hh.
  assert (forall status' u', (if st1 =? AEROSPIKE_OK then step u (st1, res) else u) = u' -> (busy_reply (st1, res) -> (pending (net s1) < pending (net s))%nat) ->
    wlp (info_foreach_loop hpux stack callback pol (Some <$> l) req deadline status' u') (fun r s2 => outside s s2 /\ (pending (net s2) <= pending (net s))%nat
      /\ exists l1 l2 rs, n :: l = l1 ++ l2 /\ asking (fun sa => info_ask hpux stack pol sa req deadline) l1 rs s s2
        /\ Forall told rs /\ snd r = gather step rs u /\ (fst r = AEROSPIKE_OK -> l2 = [])
        /\ (Exists busy_reply rs -> (pending (net s2) < pending (net s))%nat)) s1) as Hgo.
  { intros status' u' Hu Hb. eapply wlp_mono; [apply IH; by eapply standing_tail|].
    intros r2 s2 (Ho2 & Hle2 & l1 & l2 & rs & -> & Ha & Hall & Hr & Hl2 & Hex). split; [by transitivity s1|]. split; [lia|].
    exists (n :: l1), l2, ((st1, res) :: rs). split_and!; [done|by eapply asking_cons|by constructor| |done|].
    - unfold gather in *. cbn [fold_left fst]. by rewrite Hu.
    - rewrite Exists_cons. intros [Hx|Hx]; [specialize (Hb Hx); lia|specialize (Hex Hx); lia]. }
  destruct (Z.eqb_spec st1 AEROSPIKE_OK) as [->|Hst].
  - destruct (Hh eq_refl) as (body & -> & HB & Hbusy). unfold wlp. rewrite (bind_access _ _ _ _ (Hcb n body u HB)).
    apply Hgo; [done|]. intros [_ (body' & [= ->%app_inv_tail] & Hb)]. by apply Hbusy.
  - destruct (Z.eqb_spec st1 AEROSPIKE_ERR_CLUSTER) as [->|Hne]; cbn [negb].
    + apply Hgo; [done|]. by intros [? _].
    + apply wlp_ret. split; [done|]. split; [done|]. exists [n], l, [(st1, res)]. split_and!; [done| |by constructor| |done|].
      * eapply asking_cons; [done|exact Eask|constructor].
      * unfold gather. cbn [fold_left fst snd]. by rewrite (proj2 (Z.eqb_neq _ _)).
      * intros [[? _]|Hx]%Exists_cons; [done|]. by apply Exists_nil in Hx.
Qed.

(** All members are asked until one is not done. *)
Lemma all_done_ok config ready l :
  (forall body, B body -> exists b, ready (body ++ [0]) = Some b /\ (b = false -> busy body)) ->
  forall s, standing l s ->
  wlp (all_done hpux stack config pol req ready (Some <$> l)) (fun d s1 => outside s s1 /\ (pending (net s1) <= pending (net s))%nat
    /\ (d = false -> (pending (net s1) < pending (net s))%nat)) s.
Proof.
  intros Hrd. induction l as [|n l IH]; intros s Hs; cbn [fmap list_fmap all_done].
  { by apply wlp_ret. }
  destruct (ask_member n (n :: l) s 0 Hs) as (sa & Hsa & _); [by left|]. unfold wlp. rewrite (bind_ret_eq _ _ _ _ _ Hsa).
  unfold aerospike_info_socket_address. cbn [default]. rewrite bind_assoc. apply (wlp_bind (W := W)).
  eapply wlp_mono; [apply (deadline_ok pending st)|]. intros deadline s1 [Ho1 Hle1].
  assert (standing (n :: l) s1) as Hs1 by (by eapply standing_outside).
  apply (wlp_bind (W := W)). eapply wlp_mono; [apply (ask_ok pending st hpux stack B busy); [done|done|apply Hs1..]|].
  intros [st2 res] s2 [Ho2 [Hle2 Hh]]. cbn [fst snd] in Hh. assert (outside s s2) as Ho by (by transitivity s1).
  assert (forall s3 d, outside s2 s3 -> (pending (net s3) <= pending (net s2))%nat -> (d = false -> (pending (net s3) < pending (net s2))%nat) ->
    outside s s3 /\ (pending (net s3) <= pending (net s))%nat /\ (d = false -> (pending (net s3) < pending (net s))%nat)) as Hgo.
  { intros s3 d Ho3 Hle3 Hd. split_and!; [by transitivity s2|lia|]. intros Hf. specialize (Hd Hf). lia. }
  destruct (Z.eqb_spec st2 AEROSPIKE_OK) as [->|Hst].
  - destruct (Hh eq_refl) as (body & -> & HB & Hbusy). destruct (Hrd body HB) as (b & Hb & Hbb). unfold wlp. erewrite bind_access; [|exact Hb].
    destruct b.
    + eapply (wlp_mono (W := W)); [apply IH; by eapply standing_tail|]. intros d s3 (Ho3 & Hle3 & Hd). by apply Hgo.
    + split; [done|]. specialize (Hbusy (Hbb eq_refl)). split; [lia|]. intros _. lia.
  - eapply wlp_mono; [apply IH; by eapply standing_tail|]. intros d s3 (Ho3 & Hle3 & Hd). by apply Hgo.
Qed.
End Asking.

(** A member that failed counts as done. *)
Definition fine (ready : list Z -> option bool) (r : reply) : Prop := fst r = AEROSPIKE_OK -> snd r ≫= ready = Some true.

Lemma member_address_keeps p s sa s1 : member_address p s = URet (sa, s1) -> s1 = s.
Proof.
  unfold member_address. intros (n & s2 & E2%access_inv & (a & s3 & E3 & [= _ <-])%bind_inv)%bind_inv. destruct E2 as [_ ->].
  unfold as_node_get_address_full in E3. apply bind_inv in E3 as (node & s4 & E4%access_inv & E5%access_inv). destruct E4 as [_ ->], E5 as [_ ->]. done.
Qed.

Lemma all_done_asks config pol req ready l : forall s s',
  all_done hpux stack config pol req ready (Some <$> l) s = URet (true, s') ->
  exists rs, asking (fun sa => aerospike_info_socket_address hpux stack config (Some pol) sa req) l rs s s' /\ Forall (fine ready) rs.
Proof.
  induction l as [|n l IH]; intros s s'; cbn [fmap list_fmap all_done]; [intros [= <-]; exists []; split; constructor|].
  intros (sa & s1 & Esa & He)%bind_inv. pose proof (member_address_keeps _ _ _ _ Esa) as ->. apply bind_inv in He as ([st2 res] & s2 & E2 & He).
  assert (forall s3, all_done hpux stack config pol req ready (Some <$> l) s2 = URet (true, s3) -> fine ready (st2, res) ->
    exists rs, asking (fun sa => aerospike_info_socket_address hpux stack config (Some pol) sa req) (n :: l) rs s s3 /\ Forall (fine ready) rs) as Hgo.
  { intros s3 E3 Hf. destruct (IH _ _ E3) as (rs & Ha & Hfs). exists ((st2, res) :: rs). split; [by eapply asking_cons|by constructor]. }
  destruct (Z.eqb_spec st2 AEROSPIKE_OK) as [->|Hst].
  - apply bind_inv in He as (b & s3 & E3%access_inv & He). destruct E3 as [E3 ->]. destruct b; [|done]. apply Hgo; [exact He|]. intros _. exact E3.
  - apply Hgo; [done|]. by intros ?.
Qed.

(** ** Loops that wait *)

Lemma poll_ends {A} (turn : M W (option A)) (I : mem W -> Prop) (Q : A -> mem W -> Prop) :
  (forall s, I s -> wp turn (fun r s1 => match r with Some a => Q a s1 | None => I s1 /\ (pending (net s1) < pending (net s))%nat end) s) ->
  forall fuel s, I s -> (pending (net s) < fuel)%nat -> wp (poll fuel turn) Q s.
Proof.
  intros Ht. induction fuel as [|fuel IH]; intros s Hs Hf; [lia|]. cbn [poll]. apply wp_bind.
  eapply wp_mono; [by apply Ht|]. intros [a|] s1; [by intros|]. intros [Hs1 Hlt]. apply IH; [done|lia].
Qed.

Context (answers : net_answers (W := W)).

(** The cluster, and those who wait for it, are as they were. *)
Definition unchanged (E : Z -> Z) (P l : list Z) s s1 : Prop := outside s s1 /\ ok E P l s1.

(** All members were asked, and none of them said that it was not done. *)
Definition last_turn (config pol : as_policy_info) (req : list Z) (ready : list Z -> option bool) (l : list Z) : Prop :=
  exists rs s0 s1, asking (fun sa => aerospike_info_socket_address hpux stack config (Some pol) sa req) l rs s0 s1 /\ Forall (fine ready) rs.

Lemma done_wait_ends E P l s config pol req ready :
  ok E P l s -> auth_ok stack (cluster s) ->
  (forall body, exists b, ready (body ++ [0]) = Some b) ->
  answered (fun _ => True) (info_request hpux (Some req) (info_send_as_is pol)) ->
  shrinks pending (fun body => ready (body ++ [0]) = Some false) (info_request hpux (Some req) (info_send_as_is pol)) ->
  forall fuel, (pending (net s) < fuel)%nat ->
  wp (poll fuel (done_turn (with_members (all_done hpux stack config pol req ready))))
    (fun status s1 => status = AEROSPIKE_OK /\ unchanged E P l s s1 /\ last_turn config pol req ready l) s.
Proof.
  intros Hs Hau Hrd Han Hsh fuel Hf. apply (poll_ends _ (unchanged E P l s)); [|by split|done].
  intros s1 [Ho Hs1]. assert (auth_ok stack (cluster s1)) as Hau1 by (by rewrite (proj1 (proj2 (outside_objects _ _ Ho)))).
  apply wlp_answers; [|done]. unfold done_turn. apply wlp_bind. eapply wlp_mono.
  - apply (with_members_ok _ (fun d w => if (d : bool) then last_turn config pol req ready l else (pending w < pending (net s1))%nat) E P l s1 Hs1 Hau1).
    intros s2 Hst Hn. eapply wlp_returned; [apply (all_done_ok (fun _ => True) (fun body => ready (body ++ [0]) = Some false) pol req Han Hsh); [|done]|].
    + intros body _. destruct (Hrd body) as [b Hb]. exists b. split; [done|]. by intros ->.
    + intros d s3 E3 (Ho3 & _ & Hd). rewrite Hn in Hd. split; [done|]. destruct d; [|by apply Hd].
      destruct (all_done_asks _ _ _ _ _ _ _ E3) as (rs & Ha & Hfi). by exists rs, s2, s3.
  - intros d s2 [Ho2 Hd]. apply wlp_ret. assert (unchanged E P l s s2) as Hu.
    { split; [by transitivity s1|]. by eapply ok_outside. }
    by destruct d.
Qed.

(** ** Totality of what reads the answers *)

Lemma after_tag_ok m p tag : no_nul tag -> has_str m p -> exists q, after_tag m p tag = Some q /\ forall p', q = Some p' -> p <= p' /\ has_str m p'.
Proof.
  intros Ht Hs. unfold after_tag, strstr. destruct (strstr_ok m tag Ht (S (length m)) p Hs) as (r & -> & Hr).
  { destruct Hs as (pre & x & y & -> & -> & _). lia. }
  cbn [mbind option_bind]. destruct r as [q|]; [|by exists None]. exists (Some (q + blen tag)). split; [done|]. intros p' [= <-].
  destruct (Hr q eq_refl). split; [lia|done].
Qed.

Lemma loaded_ok body : exists b, loaded (body ++ [0]) = Some b.
Proof.
  unfold loaded. destruct (after_tag_ok (body ++ [0]) 0 (text "load_pct=")) as (q & -> & Hq); [by repeat constructor|apply has_str_end|].
  cbn [mbind option_bind]. destruct q as [p|]; [|by eexists]. destruct (Hq p eq_refl) as [_ Hp].
  destruct (strchr_ok (body ++ [0]) p SEMICOLON ltac:(done) Hp) as [->|(pre & x1 & x2 & y & Em & -> & Hx1 & Hx2 & ->)]; cbn [mbind option_bind].
  - destruct (has_str_cstr _ _ Hp) as [x Hx]. unfold number_at. rewrite Hx. by eexists.
  - rewrite Em. replace (pre ++ x1 ++ SEMICOLON :: x2 ++ 0 :: y) with ((pre ++ x1) ++ SEMICOLON :: x2 ++ 0 :: y) by (by rewrite <- app_assoc).
    replace (blen pre + blen x1) with (blen (pre ++ x1)) by (rewrite length_app; lia). rewrite mwrite_here. cbn [mbind option_bind].
    unfold number_at. rewrite <- app_assoc, cstr_app by done. by eexists.
Qed.

Lemma listed_ok filter body : no_nul filter -> exists b, listed filter (body ++ [0]) = Some b.
Proof.
  intros Hf. unfold listed, strstr. destruct (strstr_ok (body ++ [0]) filter Hf (S (length (body ++ [0]))) 0) as (r & -> & _); [apply has_str_end|lia|].
  by eexists.
Qed.


(** ** Background scans *)

Lemma decimal_no_nul n : forall z acc, no_nul acc -> no_nul (decimal_loop n z acc).
Proof.
  induction n as [|n IH]; intros z acc Ha; [done|]. cbn [decimal_loop]. pose proof (Z.mod_pos_bound z 10 ltac:(lia)).
  case_match; [constructor; [lia|done]|]. apply IH. constructor; [lia|done].
Qed.

Lemma job_id_ok scan_id : no_nul (job_id_of scan_id) /\ sprintf 32 (job_id_of scan_id) = Some (job_id_of scan_id).
Proof.
  unfold job_id_of. split.
  - apply Forall_app. split; [by repeat constructor|]. apply Forall_app. split; [by apply decimal_no_nul|by repeat constructor].
  - apply sprintf_fits. rewrite !length_app. pose proof (decimal_short 20 scan_id []) as Hd. fold (decimal scan_id) in Hd.
    change (length (text "job_id=")) with 7%nat. change (length (text ":")) with 1%nat. cbn [length] in Hd. lia.
Qed.

Definition cb_step (job_id : list Z) (i : as_scan_info) (r : reply) : as_scan_info :=
  match scan_info_cb job_id (snd r) i with Some (_, i) => i | None => i end.

(** What a reply says of the job; one that failed says nothing. *)
Definition reported (job_id : list Z) (r : reply) (o : option report) : Prop :=
  if fst r =? AEROSPIKE_OK then exists body, snd r = Some (body ++ [0]) /\ says job_id body o else o = None.

Lemma cb_steps job_id rs : no_nul job_id -> Forall (told (fun body => exists o, says job_id body o)) rs ->
  exists os, Forall2 (reported job_id) rs os /\ forall i, gather (cb_step job_id) rs i = fold_left add_said os i.
Proof.
  intros Hj. induction 1 as [|[st1 res] rs Hr Hrs (os & Hos & Hf)]; [by exists []|]. unfold gather in *. cbn [fold_left fst].
  destruct (Z.eqb_spec st1 AEROSPIKE_OK) as [->|Hne].
  - destruct (Hr eq_refl) as (body & Hres & o & Ho). cbn [snd] in Hres. subst res. exists (o :: os). split.
    + constructor; [by exists body|done].
    + intros i. cbn [fold_left]. unfold cb_step at 2. cbn [snd]. rewrite (scan_cb_says job_id body o i Hj Ho). apply Hf.
  - exists (None :: os). split; [|done]. constructor; [|done]. unfold reported. cbn [fst]. by rewrite (proj2 (Z.eqb_neq _ _)).
Qed.

Definition running (r : report) : Prop := r_state r = NodeRunning.
Definition busy_scan (job_id body : list Z) : Prop := exists r, says job_id body (Some r) /\ running r.

Lemma said_reports job_id busy rs os : Forall2 (reported job_id) rs os ->
  Forall (report_ok job_id) (omap id os)
  /\ ((forall body, busy_scan job_id body -> busy body) -> Exists running (omap id os) -> Exists (busy_reply busy) rs).
Proof.
  induction 1 as [|r o rs os Hr Hrs (IH1 & IH2)]; [split; [constructor|by intros _ ?%Exists_nil]|].
  unfold reported in Hr. destruct (Z.eqb_spec (fst r) AEROSPIKE_OK) as [Hst|_]; [|subst o; split; [done|]; intros Hb Hx; right; by apply IH2].
  destruct Hr as (body & Hres & Ho). destruct o as [x|]; cbn [omap list_omap id].
  - split; [constructor; [apply Ho|done]|]. intros Hb [Hx|Hx]%Exists_cons; [left|right; by apply IH2].
    split; [done|]. exists body. split; [done|]. apply Hb. by exists x.
  - split; [done|]. intros Hb Hx. right. by apply IH2.
Qed.

(** What the caller learns of a scan from the reports [rs]. *)
Definition summary (rs : list report) (i : as_scan_info) : Prop :=
  scan_status i = overall rs /\ records_scanned i = u32 (fold_left (fun n r => n + r_records r) rs 0)
  /\ (Forall (fun r => 0 < r_pct r) rs -> progress_pct i = slowest rs).

(** The members were asked in turn, up to one that fails for another reason than that it cannot
    be reached, and this is what they reported. *)
Definition polled (pol : as_policy_info) (job_id : list Z) (l : list Z) (status : Z) (os : list (option report)) : Prop :=
  exists deadline l1 l2 rs s0 s1, l = l1 ++ l2 /\ asking (fun sa => info_ask hpux stack pol sa scan_list_request deadline) l1 rs s0 s1
    /\ Forall2 (reported job_id) rs os /\ (status = AEROSPIKE_OK -> l2 = []).

Lemma scan_info_asks busy E P l s config policy scan_id :
  let job_id := job_id_of scan_id in
  let req := info_request hpux (Some scan_list_request) (info_send_as_is (default config policy)) in
  ok E P l s -> auth_ok stack (cluster s) ->
  answered (fun body => exists o, says job_id body o) req -> shrinks pending busy req ->
  wlp (aerospike_scan_info hpux stack config policy scan_id) (fun r s1 => outside s s1
    /\ exists os, polled (default config policy) job_id l (fst r) os /\ summary (omap id os) (snd r)
       /\ ((forall body, busy_scan job_id body -> busy body) -> Exists running (omap id os) -> (pending (net s1) < pending (net s))%nat)) s.
Proof.
  intros job_id req Hs Hau Han Hsh. destruct (job_id_ok scan_id) as [Hj Hfit]. unfold aerospike_scan_info, wlp.
  rewrite (bind_access _ _ _ _ Hfit). unfold aerospike_info_foreach. apply (wlp_bind (W := W)).
  eapply wlp_mono; [apply (deadline_ok pending st)|]. intros deadline s1 [Ho1 Hle1].
  assert (auth_ok stack (cluster s1)) as Hau1 by (by rewrite (proj1 (proj2 (outside_objects _ _ Ho1)))).
  eapply wlp_mono.
  - apply (with_members_ok _ (fun r w => exists os, polled (default config policy) job_id l (fst r) os /\ summary (omap id os) (snd r)
      /\ ((forall body, busy_scan job_id body -> busy body) -> Exists running (omap id os) -> (pending w < pending (net s1))%nat)) E P l s1);
      [by eapply ok_outside|done|].
    intros s2 Hst Hn. eapply wlp_mono; [apply (info_foreach_ok _ _ _ _ Han Hsh (fun _ => scan_info_cb job_id) (cb_step job_id)); [|done]|].
    + intros n body i [o Ho]. unfold cb_step. cbn [snd]. by rewrite (scan_cb_says job_id body o i Hj Ho).
    + intros r s3 (Ho3 & _ & l1 & l2 & rs & Hl & Ha & Ht & Hr & Hl2 & Hb). rewrite Hn in Hb. split; [done|].
      destruct (cb_steps job_id rs Hj Ht) as (os & Hos & Hf). destruct (said_reports job_id busy rs os Hos) as (_ & H3). exists os. split_and!.
      * by exists deadline, l1, l2, rs, s2, s3.
      * rewrite Hr, Hf, add_all_said. apply add_reports.
      * intros Hbb Hx. by apply Hb, H3.
  - intros r s2 (Ho2 & os & Hp & Hsum & Hbusy). split; [by transitivity s1|]. exists os. split_and!; [done|done|].
    intros Hbb Hx. specialize (Hbusy Hbb Hx). lia.
Qed.

Lemma overall_running rs : overall rs = SCAN_INPROGRESS -> Exists running rs.
Proof.
  unfold overall. destruct (existsb _ rs); [done|]. destruct (existsb _ rs) eqn:Ex; [|by destruct rs]. intros _.
  apply existsb_exists in Ex as (r & Hr & Hst). apply List.Exists_exists. exists r. split; [done|]. unfold running. by destruct (r_state r).
Qed.

(** C21: Waiting for a background scan comes to an end, if every report of a node at work leaves
    less to do; the cluster is as it was. *)
Theorem scan_wait_ends E P l s config policy scan_id :
  let job_id := job_id_of scan_id in
  ok E P l s -> auth_ok stack (cluster s) ->
  answered (fun body => exists o, says job_id body o) (info_request hpux (Some scan_list_request) (info_send_as_is (default config policy))) ->
  shrinks pending (busy_scan job_id) (info_request hpux (Some scan_list_request) (info_send_as_is (default config policy))) ->
  wp (aerospike_scan_wait hpux stack (S (pending (net s))) config policy scan_id) (fun status s1 => unchanged E P l s s1
    /\ exists i s0, aerospike_scan_info hpux stack config policy scan_id s0 = URet (status, i, s1)
       /\ (status = AEROSPIKE_OK -> scan_status i <> SCAN_INPROGRESS)) s.
Proof.
  intros job_id Hs Hau Han Hsh. unfold aerospike_scan_wait. apply (poll_ends _ (unchanged E P l s)); [|by split|lia].
  intros s1 [Ho Hs1]. assert (auth_ok stack (cluster s1)) as Hau1 by (by rewrite (proj1 (proj2 (outside_objects _ _ Ho)))).
  apply wlp_answers; [|done]. unfold scan_turn. apply wlp_bind.
  eapply wlp_returned; [by apply (scan_info_asks (busy_scan job_id) E P l s1 config policy scan_id)|].
  intros [status i] s2 E2 (Ho2 & os & _ & Hsum & Hrun). cbn [fst snd] in *. apply wlp_ret. assert (unchanged E P l s s2) as Hu.
  { split; [by transitivity s1|]. by eapply ok_outside. }
  destruct (Z.eqb_spec status AEROSPIKE_OK) as [->|Hne]; cbn [andb]; [|split; [done|by exists i, s1]].
  case_bool_decide as Hst; [|split; [done|by exists i, s1]]. split; [done|].
  apply Hrun; [done|]. apply overall_running. by rewrite <- (proj1 Hsum).
Qed.
End Members.

Section Summary.
Context `{Platform} `{Net W} (hpux : bool) (stack : list Z) (np K : Z) (N : list (list Z)).
Implicit Types (s : mem W).

(** C20: What a caller learns of a background scan.  [aerospike_scan_info] asks the members of a
    cluster one after the other, all of them if it reports success, and leaves the cluster as
    it was; the result comes from the reports of those that answered: aborted if one of them
    is, otherwise in progress if one of them is, otherwise completed; the sum of the records;
    and, as long as no node is at zero, the progress of the slowest one. *)
Theorem scan_info_summary E P l s config policy scan_id :
  let job_id := job_id_of scan_id in
  cluster_ok np K N E P l s -> auth_ok stack (cluster s) ->
  answered (fun body => exists o, says job_id body o) (info_request hpux (Some scan_list_request) (info_send_as_is (default config policy))) ->
  wlp (aerospike_scan_info hpux stack config policy scan_id) (fun r s1 => unchanged np K N E P l s s1
    /\ exists os, polled hpux stack (default config policy) job_id l (fst r) os /\ summary (omap id os) (snd r)) s.
Proof.
  intros job_id Hs Hau Han. eapply wlp_mono; [apply (scan_info_asks hpux stack (fun _ => O) np K N ltac:(by constructor) (fun _ => False) E P l s config policy scan_id); [done|done|done|by intros ?]|].
  intros r s1 (Ho & os & Hp & Hsum & _). split; [|by exists os]. split; [done|]. by eapply ok_outside.
Qed.

(** ** Commands that one member carries out *)

Lemma info_any_ok B E P l s config policy req :
  cluster_ok np K N E P l s -> auth_ok stack (cluster s) ->
  answered B (info_request hpux (Some req) (info_send_as_is (default config policy))) ->
  wlp (aerospike_info_any hpux stack config policy req) (fun r s1 => outside s s1 /\ told B r) s.
Proof.
  intros Hs Hau Han. unfold aerospike_info_any. eapply wlp_outside_bind; [apply wlp_deadline|]. intros deadline s1 Ho _.
  assert (auth_ok stack (cluster s1)) as Hau1 by (by rewrite (proj1 (proj2 (outside_objects _ _ Ho)))).
  eapply wlp_mono.
  - apply (with_members_ok stack np K N _ (fun r _ => told B r) E P l s1); [by eapply ok_outside|done|]. intros s2 Hst _.
    by apply (any_loop_ok hpux stack (fun _ => O) ltac:(by constructor) B (fun _ => False) _ _ Han ltac:(by intros ?)).
  - intros r s2 [Ho2 Ht]. split; [by transitivity s1|done].
Qed.

(** A command of the administrator. *)
Inductive manage_op :=
  | CreateIndex (task : option as_index_task) (ns : list Z) (set : option (list Z)) (position name : list Z) (itype : as_index_type) (dtype : as_index_datatype)
  | RemoveIndex (ns name : list Z)
  | PutFile (filename : option (list Z)) (content : list Z)
  | RemoveFile (filename : list Z).

Definition manage (config : as_policy_info) (policy : option as_policy_info) (op : manage_op) : M W Z :=
  match op with
  | CreateIndex task ns set position name itype dtype =>
      r ← aerospike_index_create_complex hpux stack config policy task ns set position name itype dtype; mret (fst r)
  | RemoveIndex ns name => aerospike_index_remove hpux stack config policy ns name
  | PutFile filename content => aerospike_udf_put hpux stack config policy filename AS_UDF_TYPE_LUA content
  | RemoveFile filename => aerospike_udf_remove hpux stack config policy filename
  end.

(** The text that is sent, if it fits into its block. *)
Definition manage_request (op : manage_op) : option (list Z) :=
  match op with
  | CreateIndex _ ns set position name itype dtype => sprintf 1024 (index_create_ddl ns set position name itype dtype)
  | RemoveIndex ns name => sprintf 1024 (index_remove_ddl ns name)
  | PutFile filename content => udf_put_command hpux filename content
  | RemoveFile filename => Some (udf_remove_command filename)
  end.

(** The status of the server that the command was sent to, in the eyes of the caller: an
    index that is already there, or already gone, is no error. *)
Definition manage_status (op : manage_op) (status : Z) : Z :=
  match op with
  | CreateIndex _ _ _ _ _ _ _ => if status =? AEROSPIKE_ERR_INDEX_FOUND then AEROSPIKE_OK else status
  | RemoveIndex _ _ => if status =? AEROSPIKE_ERR_INDEX_NOT_FOUND then AEROSPIKE_OK else status
  | _ => status
  end.

Lemma manage_sends config policy op req s : manage_request op = Some req ->
  manage config policy op s = (r ← aerospike_info_any hpux stack config policy req; mret (manage_status op (fst r))) s.
Proof.
  intros Hr. destruct op as [task ns set position name itype dtype|ns name|filename content|filename]; cbn [manage manage_request] in *.
  - unfold aerospike_index_create_complex. rewrite bind_assoc, (bind_access _ _ _ req Hr). unfold mbind, m_bind.
    destruct (aerospike_info_any _ _ _ _ _ s) as [[[status res] s1]| |]; [|done..]. cbn [ubind fst]. unfold manage_status.
    destruct (Z.eqb_spec status AEROSPIKE_OK) as [->|]; [done|]. by destruct (status =? AEROSPIKE_ERR_INDEX_FOUND).
  - unfold aerospike_index_remove. rewrite (bind_access _ _ _ req Hr). unfold mbind, m_bind.
    by destruct (aerospike_info_any _ _ _ _ _ s) as [[[status res] s1]| |].
  - unfold aerospike_udf_put. cbn [negb]. change (AS_UDF_TYPE_LUA =? AS_UDF_TYPE_LUA) with true. cbn [negb]. rewrite (bind_access _ _ _ req Hr). unfold mbind, m_bind.
    by destruct (aerospike_info_any _ _ _ _ _ s) as [[[status res] s1]| |].
  - injection Hr as <-. unfold aerospike_udf_remove, mbind, m_bind. by destruct (aerospike_info_any _ _ _ _ _ s) as [[[status res] s1]| |].
Qed.


(** The answer with a list of files: its name, a tab and the entries. *)
Definition lists_files (es : list udf_entry) (body : list Z) : Prop :=
  exists name, Forall (fun c => c <> 0 /\ c <> TAB) name /\ body = name ++ TAB :: mjoin (udf_text <$> es).

Lemma strchr_found name c rest : Forall (fun x => x <> 0 /\ x <> c) name -> strchr (name ++ c :: rest) 0 c = Some (Some (blen name)).
Proof.
  intros Hn. unfold strchr. rewrite decide_True by lia. change (drop (Z.to_nat 0) (name ++ c :: rest)) with (name ++ c :: rest).
  change (blen name) with (0 + blen name). generalize 0.
  induction Hn as [|x name [Hx Hxc] Hn IH]; intros off; cbn [app strchr_from length].
  - rewrite Z.eqb_refl. do 2 f_equal. lia.
  - rewrite !(proj2 (Z.eqb_neq x _)) by done. rewrite IH. do 2 f_equal. lia.
Qed.

(** C23: The list of files of a cluster.  When [aerospike_udf_list] reports success, a member sent a
    list of entries, and the files of the caller are those of the entries; the cluster is as
    it was. *)
Theorem udf_list_on_cluster uninit_files E P l s config policy files :
  cluster_ok np K N E P l s -> auth_ok stack (cluster s) ->
  answered (fun body => exists es, Forall udf_entry_ok es /\ blen es < 2 ^ 26 /\ lists_files es body)
    (info_request hpux (Some (text "udf-list")) (info_send_as_is (default config policy))) ->
  files_ok files -> (forall n, 0 <= n -> blen (uninit_files n) = n /\ Forall (fun f => udf_hash f <> []) (uninit_files n)) ->
  wlp (aerospike_udf_list hpux stack uninit_files config policy files) (fun r s1 => unchanged np K N E P l s s1
    /\ (fst r = AEROSPIKE_OK -> exists body es, aerospike_info_any hpux stack config policy (text "udf-list") s = URet (AEROSPIKE_OK, Some (body ++ [0]), s1)
         /\ Forall udf_entry_ok es /\ lists_files es body /\ snd r = listing uninit_files es files)) s.
Proof.
  intros Hs Hau Han Hf Hu. unfold aerospike_udf_list. apply wlp_bind. eapply wlp_returned; [by apply (info_any_ok _ E P l s config policy (text "udf-list") Hs Hau Han)|].
  intros [status res] s1 Eany [Ho Ht]. assert (unchanged np K N E P l s s1) as Hun by (split; [done|by eapply ok_outside]).
  destruct (Z.eqb_spec status 0) as [->|Hst]; cbn [negb]; [|apply wlp_ret; split; [done|by intros ?]].
  destruct (Ht eq_refl) as (body & Hres & es & Hes & Hlen & name & Hname & ->). cbn [snd] in Hres. subst res.
  unfold wlp. erewrite bind_access; [|reflexivity]. rewrite <- app_assoc. cbn [app]. erewrite bind_access; [|by apply strchr_found]. cbn iota.
  pose proof (udf_listed uninit_files (name ++ [TAB]) es files Hes Hlen Hf Hu) as Hl. rewrite <- app_assoc in Hl. cbn [app] in Hl.
  replace (blen (name ++ [TAB])) with (blen name + 1) in Hl by (rewrite length_app; simpl; lia).
  erewrite bind_access; [|exact Hl]. split; [done|]. intros _. exists (name ++ TAB :: mjoin (udf_text <$> es)), es.
  split_and!; [exact Eany|done|by exists name|done].
Qed.
End Summary.

(** ** Examples *)

(** The cluster of file [Partition] on another network. *)
Definition moved {W} (w : W) : mem W :=
  mk_mem (m_nodes sample_mem) (m_arrays sample_mem) (m_table sample_mem) (m_tables sample_mem) (next sample_mem) (allocs sample_mem)
    (cluster sample_mem) (randomizer sample_mem) w [] [].

Lemma moved_ok {W} (w : W) : cluster_ok 8 10 [[97]] (fun _ => 0) [] [1; 2] (moved w).
Proof. pose proof sample_cluster_ok as []. by constructor. Qed.

Lemma moved_auth {W} (w : W) : auth_ok sample_stack (cluster (moved w)).
Proof. change (cluster (moved w)) with (cluster sample_mem). apply sample_auth. Qed.

(** A server with work for [n] turns: it says [busy] as long as there is something to do, and
    [ready] afterwards.  The state of the network is the work and what can be received. *)
Section Server.
Context (busy ready : list Z).

Definition framed (body : list Z) : list Z := [2; 1] ++ be_bytes 6 (blen body) ++ body.

#[refine] Instance worker : Net (nat * list Z) :=
  {| os_socket w := (3, w); os_getfl w _ := (0, w); os_setfl w _ _ := (0, w); os_connect w _ _ := (0, EOTHER, w);
     os_peek w fd := (-1, EAGAIN, w); os_close w _ := w; os_shutdown w _ := w; os_getms w := (5, w);
     os_send w _ _ _ := URet (AEROSPIKE_OK, match fst w with O => (O, framed ready) | S n => (n, framed busy) end);
     os_recv w _ n _ := if n <=? blen (snd w) then URet (AEROSPIKE_OK, take (Z.to_nat n) (snd w), (fst w, drop (Z.to_nat n) (snd w)))
                        else URet (AEROSPIKE_ERR_TIMEOUT, replicate (Z.to_nat n) 0, w);
     os_stream w _ := snd w; queue_env _ := qenv_ok; has_dontwait := true;
     inet_ntop _ := []; inet_aton _ := None; getaddrinfo w _ := (None, w) |}.
Proof.
  - done.
  - intros w fd n deadline Hn. case_if; reflect_Z.
    + rewrite length_take. split; [lia|]. done.
    + rewrite length_replicate. split; [lia|done].
Defined.

Lemma worker_steady : @steady (nat * list Z) worker fst.
Proof.
  constructor; try done; cbn.
  - intros [[|n] l] fd command deadline st w' [= _ <-]; cbn; lia.
  - intros [n l] fd k deadline r w'. case_if; by intros [= _ <-].
Qed.

Lemma worker_answers : @net_answers (nat * list Z) worker.
Proof. split; [done|]. intros w fd n deadline. cbn. by case_if. Qed.

(** What is received after a request. *)
Lemma worker_body w fd command deadline w0 hdr w1 pr body w2 :
  0 < blen busy < 2 ^ 47 -> 0 < blen ready < 2 ^ 47 ->
  @os_send _ worker w fd command deadline = URet (AEROSPIKE_OK, w0) -> @os_recv _ worker w0 fd 8 deadline = URet (AEROSPIKE_OK, hdr, w1) ->
  as_proto_of_bytes LittleEndian hdr = Some pr ->
  let sz := proto_sz (as_proto_swap_from_be LittleEndian pr) in
  sz <> 0 /\ (@os_recv _ worker w1 fd sz deadline = URet (AEROSPIKE_OK, body, w2) ->
    body = (if decide (fst w = O) then ready else busy) /\ fst w2 = pred (fst w)).
Proof.
  intros Hb Hr Hsend. set (said := if decide (fst w = O) then ready else busy).
  assert (0 < blen said < 2 ^ 47) as Ht by (unfold said; case_decide; done).
  assert (w0 = (pred (fst w), framed said)) as -> by (injection Hsend as <-; unfold said; by destruct (fst w)).
  cbn [os_recv worker snd fst]. unfold framed.
  assert (take (Z.to_nat 8) ([2; 1] ++ be_bytes 6 (blen said) ++ said) = 2 :: 1 :: be_bytes 6 (blen said)
    /\ drop (Z.to_nat 8) ([2; 1] ++ be_bytes 6 (blen said) ++ said) = said) as [Et Ed].
  { rewrite app_assoc. change (Z.to_nat 8) with (length ([2; 1] ++ be_bytes 6 (blen said))). by rewrite take_app_length, drop_app_length. }
  rewrite Et, Ed. case_if; [|done]. intros [= <- <-] Hpr. pose proof (as_proto_received LittleEndian 2 1 (blen said) ltac:(lia)) as Hw.
  change (as_proto_of_bytes LittleEndian (2 :: 1 :: be_bytes 6 (blen said)) = Some pr) in Hpr.
  rewrite Hpr in Hw. cbn [fmap option_fmap option_map] in Hw. apply Some_inj in Hw. rewrite Hw. cbn [proto_sz]. split; [lia|].
  cbn [snd fst]. rewrite Z.leb_refl. intros [= <- <-]. split; [|done]. rewrite Nat2Z.id. by apply take_ge.
Qed.

Context (sizes : 0 < blen busy < 2 ^ 47 /\ 0 < blen ready < 2 ^ 47).
Context (valid : forall body, body = busy \/ body = ready -> exists m, as_info_validate (body ++ [0]) = Some (AEROSPIKE_OK, None, m)).

Lemma worker_answered B req : B busy -> B ready -> @answered x86_64 _ worker B req.
Proof.
  intros Hb Hr w fd deadline w0 hdr w1 pr E1 E2 E3 sz. split.
  - by eapply (worker_body w fd req deadline w0 hdr w1 pr []); try apply sizes.
  - intros body w2 E4. destruct (worker_body w fd req deadline w0 hdr w1 pr body w2 (proj1 sizes) (proj2 sizes) E1 E2 E3) as [_ Hbody].
    destruct (Hbody E4) as [-> _]. split; [by case_decide|]. intros st msg m Hv Hst.
    destruct (valid (if decide (fst w = O) then ready else busy)) as [m' Hv']; [case_decide; tauto|]. rewrite Hv' in Hv. by injection Hv as <- _ _.
Qed.

Lemma worker_shrinks (P : list Z -> Prop) req : ~ P ready -> @shrinks x86_64 _ worker fst P req.
Proof.
  intros Hr w fd deadline w0 hdr w1 pr body w2 E1 E2 E3 E4 Hp.
  destruct (worker_body w fd req deadline w0 hdr w1 pr body w2 (proj1 sizes) (proj2 sizes) E1 E2 E3) as [_ Hbody].
  destruct (Hbody E4) as [-> ->]. destruct (fst w); [by case_decide|cbn; lia].
Qed.
End Server.

Definition half_loaded : list Z := text "sindex/a/b" ++ [TAB] ++ text "load_pct=50;x=1" ++ [NEWLINE].
Definition all_loaded : list Z := text "sindex/a/b" ++ [TAB] ++ text "load_pct=100;x=1" ++ [NEWLINE].
Definition default_info : as_policy_info := mk_policy_info 500 true true.


(** Reports of a scan: one node at work, then done. *)
Definition scan_report (st : node_state) (pct n : Z) : report :=
  mk_report (text "scan-list" ++ [TAB]) (text "set=s:") st (text ":") pct (text ":") n (text ";" ++ [NEWLINE]).
Definition scan_busy : report := scan_report NodeRunning 40 7.
Definition scan_ready : report := scan_report NodeDone 100 9.

Lemma scan_reports_ok : report_ok (job_id_of 12) scan_busy /\ report_ok (job_id_of 12) scan_ready.
Proof. split; unfold report_ok, absent; split_and!; first [apply (bool_decide_unpack _); vm_compute; exact I|done]. Qed.

Definition scan_net : Net (nat * list Z) := worker (report_text (job_id_of 12) scan_busy) (report_text (job_id_of 12) scan_ready).

Lemma scan_servers req : @answered x86_64 _ scan_net (fun body => exists o, says (job_id_of 12) body o) req.
Proof.
  destruct scan_reports_ok as [H1 H2]. apply worker_answered.
  - split; vm_compute; done.
  - intros body [->| ->]; eexists; vm_compute; reflexivity.
  - by exists (Some scan_busy).
  - by exists (Some scan_ready).
Qed.

Lemma scan_info_summary_witness :
  @wlp _ scan_net _ (@aerospike_scan_info x86_64 _ scan_net false sample_stack default_info None 12)
    (fun r s1 => unchanged 8 10 [[97]] (fun _ => 0) [] [1; 2] (moved (3%nat, [])) s1
      /\ exists os, @polled x86_64 _ scan_net false sample_stack default_info (job_id_of 12) [1; 2] (fst r) os /\ summary (omap id os) (snd r))
    (moved (3%nat, [])).
Proof.
  apply (@scan_info_summary x86_64 _ scan_net false sample_stack 8 10 [[97]] (fun _ => 0) [] [1; 2] (moved (3%nat, []))).
  - apply moved_ok.
  - apply moved_auth.
  - apply scan_servers.
Defined.

(** A text is not read as two reports. *)
Lemma scan_ready_done : ~ busy_scan (job_id_of 12) (report_text (job_id_of 12) scan_ready).
Proof.
  intros (r & [Hr Hb] & Hrun). pose proof (scan_cb_report _ r no_info Hr) as E1. rewrite <- Hb in E1.
  rewrite (scan_cb_report _ scan_ready no_info (proj2 scan_reports_ok)) in E1. apply (f_equal (fun x => scan_status <$> (snd <$> x))) in E1.
  unfold add_report in E1. rewrite Hrun in E1. done.
Qed.

Lemma scan_wait_ends_witness :
  @wp _ _ (@aerospike_scan_wait x86_64 _ scan_net false sample_stack 4 default_info None 12)
    (fun status s1 => unchanged 8 10 [[97]] (fun _ => 0) [] [1; 2] (moved (3%nat, [])) s1
      /\ exists i s0, @aerospike_scan_info x86_64 _ scan_net false sample_stack default_info None 12 s0 = URet (status, i, s1)
         /\ (status = AEROSPIKE_OK -> scan_status i <> SCAN_INPROGRESS)) (moved (3%nat, [])).
Proof.
  apply (@scan_wait_ends x86_64 _ scan_net false sample_stack fst 8 10 [[97]] (worker_steady _ _) (worker_answers _ _)
    (fun _ => 0) [] [1; 2] (moved (3%nat, []))).
  - apply moved_ok.
  - apply moved_auth.
  - apply scan_servers.
  - apply worker_shrinks; [split; vm_compute; done|]. apply scan_ready_done.
Defined.


(** A list with one file. *)
Definition one_file : udf_entry := [(text "filename", text "a.lua"); (text "hash", text "0a1b"); (text "type", text "LUA")].
Definition file_list : list Z := text "udf-list" ++ TAB :: mjoin (udf_text <$> [one_file]).
Definition file_net : Net (nat * list Z) := worker file_list file_list.
Definition new_files (n : Z) : list as_udf_file := replicate (Z.to_nat n) (mk_udf_file [] [0] 0 None).

Lemma one_file_ok : Forall udf_entry_ok [one_file].
Proof.
  constructor; [|done]. split; [done|]. unfold plain. apply (bool_decide_unpack _). vm_compute. exact I.
Qed.

Lemma file_servers B req : B file_list -> @answered x86_64 _ file_net B req.
Proof.
  intros HB. apply worker_answered; [split; vm_compute; done| |done|done]. intros body [->| ->]; eexists; vm_compute; reflexivity.
Qed.

Lemma udf_list_on_cluster_witness :
  @wlp _ file_net _ (@aerospike_udf_list x86_64 _ file_net false sample_stack new_files default_info None (mk_udf_files 0 0 None))
    (fun r s1 => unchanged 8 10 [[97]] (fun _ => 0) [] [1; 2] (moved (0%nat, [])) s1
      /\ (fst r = AEROSPIKE_OK -> exists body es, @aerospike_info_any x86_64 _ file_net false sample_stack default_info None (text "udf-list") (moved (0%nat, []))
             = URet (AEROSPIKE_OK, Some (body ++ [0]), s1)
           /\ Forall udf_entry_ok es /\ lists_files es body /\ snd r = listing new_files es (mk_udf_files 0 0 None))) (moved (0%nat, [])).
Proof.
  apply (@udf_list_on_cluster x86_64 _ file_net false sample_stack 8 10 [[97]] new_files (fun _ => 0) [] [1; 2] (moved (0%nat, [])) default_info None).
  - apply moved_ok.
  - apply moved_auth.
  - apply file_servers. exists [one_file]. split; [apply one_file_ok|]. split; [done|]. exists (text "udf-list"). split; [|done].
    apply (bool_decide_unpack _). vm_compute. exact I.
  - by split.
  - intros n Hn. unfold new_files. rewrite length_replicate. split; [lia|]. by apply Forall_replicate.
Defined.

(** The cluster after some connections. *)
Definition connected (l o c : list Z) : mem (nat * list Z) :=
  mk_mem (m_nodes sample_mem) (m_arrays sample_mem) (m_table sample_mem) (m_tables sample_mem) (next sample_mem) (allocs sample_mem)
    (cluster sample_mem) (randomizer sample_mem) (0%nat, l) o c.


(** A server that has the file: the client writes behind the array for the hash. *)
Definition content_net : Net (nat * list Z) :=
  let body := text "udf-get" ++ TAB :: text "gen=x;content=eA==;" in worker body body.
Lemma udf_get_fails :
  @aerospike_udf_get x86_64 _ content_net false sample_stack (fun _ => replicate 20 7) default_info None (text "a.lua")
    (mk_udf_file [] (replicate 20 0) 0 None) (moved (0%nat, [])) = UB.
Proof. vm_compute. reflexivity. Qed.

(** ** A wait without end *)

Lemma poll_stuck {W A} (turn : M W (option A)) (I : mem W -> Prop) :
  (forall s, I s -> exists s1, turn s = URet (None, s1) /\ I s1) -> forall fuel s, I s -> poll fuel turn s = Deep.
Proof.
  intros Ht. induction fuel as [|fuel IH]; intros s Hs; [done|]. cbn [poll]. destruct (Ht s Hs) as (s1 & E1 & Hs1).
  rewrite (bind_ret_eq _ _ _ _ _ E1). by apply IH.
Qed.

