(* ===== verification/Ldt.v ===== *)
(** * Large data types

    Models [as_ldt.c], [_ldt.c], [aerospike_llist.c], [aerospike_lmap.c], [aerospike_lset.c] and
    [aerospike_lstack.c]: a large list, map, set or stack lives in a bin of a record, and every
    operation on it applies a function of a package on the server to the name of the bin and
    the arguments of the operation ([aerospike_key_apply], file [Execute]).

    A call takes pointers that may be NULL: [option] for the error, the key, the type and the
    places of the results, a [bool] for the client object.  Some calls keep a string in a block
    that has ended before it is read; [stale] is what a reader of such a string finds, [None]
    when reading it is undefined.  References are those of the array list of arguments (file
    [ArrayList]) and of the value the server returned. *)

From Stdlib Require Import Ascii String.
From S2P Require Import Prelude ByteOrder ArrayList Value Bytes Msgpack Wire Socket Parse Execute Manage.
Open Scope Z_scope.

Definition AEROSPIKE_ERR_LDT_INTERNAL : Z := 1400.

(** ** Descriptions *)

Inductive as_ldt_type := AS_LDT_LLIST | AS_LDT_LMAP | AS_LDT_LSET | AS_LDT_LSTACK.

#[export] Instance as_ldt_type_eq_dec : EqDecision as_ldt_type.
Proof. solve_decision. Defined.

(** The two names are arrays of 15 and 64 characters. *)
Record as_ldt := mk_ldt {
  ldt_free : bool;
  ldt_name : list Z;
  ldt_type : as_ldt_type;
  ldt_module : list Z
}.

Definition AS_UDF_MODULE_MAX_LEN : Z := 63.

(** [strcpy(array, s)]: [None] when it does not fit. *)
Definition strcpy (array s : list Z) : option (list Z) := mwrite array 0 (c_str s ++ [0]).

(** NULL names and a NULL [ldt] are [None]; the result is [None] for a NULL pointer. *)
Definition as_ldt_init (ldt : option as_ldt) (name : option (list Z)) (type : as_ldt_type) (module_ : option (list Z))
  : option (option as_ldt) :=
  let bad_name := match name with
                  | None => true
                  | Some n => (strlen n =? 0) || (AS_BIN_NAME_MAX_LEN <? strlen n)
                  end in
  let bad_module := match module_ with Some m => AS_UDF_MODULE_MAX_LEN <? strlen m | None => false end in
  if bad_name || bad_module then Some None
  else
    match ldt with
    | None => Some None
    | Some l =>
        name ← strcpy (ldt_name l) (default [] name);
        module_ ← match module_ with
                  | None => mwrite (ldt_module l) 0 [0]
                  | Some m => if strlen m =? 0 then mwrite (ldt_module l) 0 [0] else strcpy (ldt_module l) m
                  end;
        Some (Some (mk_ldt false name type module_))
    end.

(** [block] is what [malloc] gives. *)
Definition as_ldt_new (block : option as_ldt) (name : option (list Z)) (type : as_ldt_type) (module_ : option (list Z))
  : option (option as_ldt) :=
  match block with
  | None => Some None
  | Some b =>
      r ← as_ldt_init (Some b) name type module_;
      Some (match r with Some l => Some (mk_ldt true (ldt_name l) (ldt_type l) (ldt_module l)) | None => None end)
  end.

(** Whether the block is freed. *)
Definition as_ldt_destroy (ldt : option as_ldt) : bool := match ldt with Some l => ldt_free l | None => false end.

(** ** Errors in texts *)

Definition AS_ERROR_MESSAGE_MAX_SIZE : Z := 1024.

(** [strncpy] and the last NUL of [as_error_setall]. *)
Definition message_array (s : list Z) : list Z :=
  let s := take (Z.to_nat (AS_ERROR_MESSAGE_MAX_SIZE - 1)) (c_str s) in
  s ++ replicate (Z.to_nat AS_ERROR_MESSAGE_MAX_SIZE - length s) 0.

(** [strtol(s, NULL, 10)]. *)
Definition strtol (s : list Z) : Z :=
  let s := skip_spaces s in
  let z := match s with
           | c :: s' => if c =? 45 then - atoi_digits s' 0
                        else if c =? 43 then atoi_digits s' 0 else atoi_digits s 0
           | [] => 0
           end in
  Z.max (- 2 ^ 63) (Z.min (2 ^ 63 - 1) z).

(** On the array of the message: the code and the array. *)
Definition parse_error_array (code : Z) (message : list Z) : option (Z * list Z) :=
  let delim_pos := 4 in
  c ← mread message 0;
  d ← mread message delim_pos;
  if negb (c =? 0) && (d =? 58) then
    let n := strtol (c_str message) in
    if 0 <? n then
      moved ← mslice message delim_pos (strlen message + 1);
      message ← mwrite message 0 moved;
      Some (i32 n, message)
    else Some (code, message)
  else Some (code, message).

(** Only a text of the server can have a colon there: every text of the client has another
    character behind its fourth. *)
Definition ldt_parse_error (err : as_error) : option as_error :=
  match err_message err with
  | MText s =>
      '(code, message) ← parse_error_array (err_code err) (message_array s);
      Some (mk_error code (MText (c_str message)))
  | _ => Some err
  end.

(** ** Calls *)

(** An argument in the list: a value, and whether it lies in a block that has ended. *)
Record arg := mk_arg { arg_val : as_val; arg_ended : bool }.

(** What a call appends: a string of its own block or of an inner one, an integer made for
    the list, or a value of the caller, which is reserved first. *)
Inductive item :=
  | Local (s : list Z)
  | Inner (s : list Z)
  | Int (z : Z)
  | Given (v : option as_val).

Definition item_arg (i : item) : option arg :=
  match i with
  | Local s => Some (mk_arg (VString (c_str s)) false)
  | Inner s => Some (mk_arg (VString (c_str s)) true)
  | Int z => Some (mk_arg (VInteger z) false)
  | Given v => (fun v => mk_arg v false) <$> v
  end.

Definition item_reserve (i : item) : list (ref_event as_val) :=
  match i with Given v => reserve_ev v | _ => [] end.

Definition ref_val (e : ref_event arg) : ref_event as_val :=
  match e with Reserve a => Reserve (arg_val a) | Destroy a => Destroy (arg_val a) end.

Definition as_arraylist_inita (n : Z) : as_arraylist arg := mk_arraylist 0 n 0 (replicate (Z.to_nat n) None) false.

(** The appends of a call, which does not look at what they return. *)
Fixpoint append_items (a : as_arraylist arg) (l : list item) : option (as_arraylist arg) :=
  match l with
  | [] => Some a
  | i :: l => '(_, a, _) ← as_arraylist_append true a (item_arg i); append_items a l
  end.

(** The parameters every call begins with. *)
Record target := mk_target {
  t_as : bool;
  t_policy : option as_policy_apply;
  t_key : option as_key;
  t_ldt : option as_ldt
}.

(** What a call leaves behind: [ans_out] is what the caller's result holds. *)
Record ldt_answer (W A : Type) := mk_ans {
  ans_status : Z;
  ans_err : option as_error;
  ans_key : option as_key;
  ans_out : A;
  ans_w : W;
  ans_trace : list event;
  ans_refs : list (ref_event as_val)
}.
Arguments mk_ans {W A}.
Arguments ans_status {W A}.
Arguments ans_err {W A}.
Arguments ans_key {W A}.
Arguments ans_out {W A}.
Arguments ans_w {W A}.
Arguments ans_trace {W A}.
Arguments ans_refs {W A}.

(** What is made of the value returned: a message for [AEROSPIKE_ERR_LDT_INTERNAL], or a
    result, and what is destroyed. *)
Definition reading (A : Type) : Type := (list Z + A) * list (ref_event as_val).

Definition dropped (v : option as_val) : list (ref_event as_val) := destroy_ev v.

Definition no_value : list Z := text "no value returned from server".
Definition not_parseable : list Z := text "value returned from server not parse-able".

(** [as_integer_getorelse(as_integer_fromval(v), -1)]. *)
Definition integer_of (v : option as_val) : Z := match v with Some (VInteger z) => z | _ => -1 end.

(** [if (!p_return_val)], then the integer. *)
Definition integer_back {A} (f : Z -> A) (v : option as_val) : reading A :=
  match v with
  | None => (inl no_value, [])
  | Some _ => (if integer_of v =? -1 then inl not_parseable else inr (f (integer_of v)), dropped v)
  end.
(** The integer without that check. *)
Definition capacity_back {A} (f : Z -> A) (v : option as_val) : reading A :=
  (if integer_of v =? -1 then inl not_parseable else inr (f (integer_of v)), dropped v).
Definition value_back {A} (f : as_val -> A) (v : option as_val) : reading A :=
  match v with None => (inl no_value, []) | Some v => (inr (f v), []) end.
Definition ignored {A} (out : A) (v : option as_val) : reading A := (inr out, dropped v).
Definition zero_back {A} (out : A) (v : option as_val) : reading A :=
  (if negb (integer_of v =? 0) then inl not_parseable else inr out, dropped v).
Definition zero_or {A} (failed : list Z) (f : Z -> A) (v : option as_val) : reading A :=
  (if integer_of v =? -1 then inl not_parseable
   else if negb (integer_of v =? 0) then inl failed else inr (f (integer_of v)), dropped v).

Section Calls.
Context `{Platform} `{Services W}.
Context (hpux : bool) (ripemd160 : list Z -> list Z) (uninit : Z -> list Z) (fuel : nat).
Context (config : as_policy_apply) (stale : as_val -> option as_val).

Abbreviation out A := (ures (ldt_answer W A)).

(** The list as [as_command] reads it. *)
Definition arg_read (a : option arg) : option (option as_val) :=
  match a with
  | None => Some None
  | Some a => if arg_ended a then Some <$> stale (arg_val a) else Some (Some (arg_val a))
  end.
Fixpoint list_read (n : nat) (els : list (option (option arg))) (i : Z) : option (list (option as_val)) :=
  match n with
  | O => Some []
  | S n => a ← el_get els i; v ← arg_read a; l ← list_read n els (i + 1); Some (v :: l)
  end.
Definition arglist_value (a : as_arraylist arg) : option as_val :=
  l ← list_read (Z.to_nat (size a)) (elements a) 0; Some (VList l).

Definition refuse {A} (w : W) (t : target) (o : A) (msg : list Z) : out A :=
  URet (mk_ans AEROSPIKE_ERR_PARAM (Some (mk_error AEROSPIKE_ERR_PARAM (MText (text "invalid parameter. " ++ msg))))
          (t_key t) o w [] []).

(** [if (!err) return AEROSPIKE_ERR_PARAM; as_error_reset(err);] *)
Definition ldt_entry {A} (w : W) (t : target) (err : option as_error) (o : A) (k : out A) : out A :=
  match err with
  | None => URet (mk_ans AEROSPIKE_ERR_PARAM None (t_key t) o w [] [])
  | Some _ => k
  end.

(** The checks for NULL, [given] for those of the call's own parameters, and of the type. *)
Definition ldt_checked {A} (w : W) (t : target) (o : A) (given : bool) (nulls : list Z) (type : as_ldt_type) (other : list Z)
    (k : as_key -> as_ldt -> out A) : out A :=
  match t_as t, t_key t, t_ldt t with
  | true, Some key, Some ldt =>
      if negb given then refuse w t o nulls
      else if decide (ldt_type ldt = type) then k key ldt else refuse w t o other
  | _, _, _ => refuse w t o nulls
  end.

(** From [ldt_parse_error] on.  [early] is the result when the call fails. *)
Definition conclude {A} (key : as_key) (w : W) (trace : list event) (refs : list (ref_event as_val)) (val : option as_val)
    (err : as_error) (early : option as_val -> A) (finish : option as_val -> reading A) : out A :=
  let* err := lift (ldt_parse_error err) in
  if negb (err_code err =? AEROSPIKE_OK) then URet (mk_ans (err_code err) (Some err) (Some key) (early val) w trace refs)
  else
    let '(r, freed) := finish val in
    match r with
    | inl msg =>
        URet (mk_ans AEROSPIKE_ERR_LDT_INTERNAL (Some (mk_error AEROSPIKE_ERR_LDT_INTERNAL (MText msg))) (Some key)
                (early val) w trace (refs ++ freed))
    | inr o => URet (mk_ans (err_code err) (Some err) (Some key) o w trace (refs ++ freed))
    end.

(** From the list of arguments on.  [initial] is what the place of the returned value holds. *)
Definition invoke {A} (w : W) (t : target) (key : as_key) (argc : Z) (items : list item) (package operation : list Z)
    (initial : option as_val) (early : option as_val -> A) (finish : option as_val -> reading A) : out A :=
  let* arglist := lift (append_items (as_arraylist_inita argc) items) in
  let* args := lift (arglist_value arglist) in
  let* (_, err, key, val, w, trace) :=
    aerospike_key_apply hpux ripemd160 uninit fuel config w (t_policy t) key package operation args (Some initial) in
  let* (_, _, released) := lift (as_arraylist_release arglist) in
  conclude key w trace ((items ≫= item_reserve) ++ map ref_val released) (default None val) err early finish.

Definition is_given {A} (p : option A) : bool := match p with Some _ => true | None => false end.

(** Arguments for a filter without its name. *)
Definition filter_checked {A} (w : W) (t : target) (o : A) (filter : option (list Z)) (filter_args : option as_val)
    (k : out A) : out A :=
  match filter, filter_args with
  | None, Some _ => refuse w t o (text "filter arguments without filter name specification")
  | _, _ => k
  end.

(** The name of a filter in its own block, and its arguments. *)
Definition filter_items (filter : option (list Z)) (filter_args : option as_val) : list item :=
  match filter with Some f => [Inner f; Given filter_args] | None => [] end.

(** ** Large lists *)

Definition DEFAULT_LLIST_PACKAGE : list Z := text "llist".

Definition aerospike_llist_add_internal (w : W) (t : target) (err : option as_error) (val : option as_val)
    (operation : list Z) : out unit :=
  ldt_entry w t err tt (ldt_checked w t tt true (text "as/key/ldt/n cannot be null") AS_LDT_LLIST (text "not llist type")
    (fun key ldt =>
      invoke w t key 2 [Local (ldt_name ldt); Given val] DEFAULT_LLIST_PACKAGE operation None (fun _ => tt)
        (integer_back (fun _ => tt)))).
Definition aerospike_llist_add w t err val := aerospike_llist_add_internal w t err val (text "add").
Definition aerospike_llist_add_all w t err val_list := aerospike_llist_add_internal w t err val_list (text "add_all").

Definition aerospike_llist_size (w : W) (t : target) (err : option as_error) (n : option Z) : out (option Z) :=
  ldt_entry w t err n (ldt_checked w t n (is_given n) (text "as/key/ldt/n cannot be null") AS_LDT_LLIST (text "not llist type")
    (fun key ldt =>
      invoke w t key 1 [Local (ldt_name ldt)] DEFAULT_LLIST_PACKAGE (text "size") None (fun _ => n)
        (integer_back (fun ival => Some (u32 ival))))).

Definition aerospike_llist_find (w : W) (t : target) (err : option as_error) (search_val : option as_val)
    (elements : option (option as_val)) : out (option (option as_val)) :=
  ldt_entry w t err elements (ldt_checked w t elements (is_given search_val && is_given elements)
    (text "as/key/ldt/search_val/elements cannot be null") AS_LDT_LLIST (text "not llist type")
    (fun key ldt =>
      invoke w t key 2 [Local (ldt_name ldt); Given search_val] DEFAULT_LLIST_PACKAGE (text "find") None
        (fun _ => elements) (value_back (fun v => Some (Some v))))).

Definition aerospike_llist_scan (w : W) (t : target) (err : option as_error) (elements : option (option as_val))
  : out (option (option as_val)) :=
  ldt_entry w t err elements (ldt_checked w t elements (is_given elements) (text "as/key/ldt/elements cannot be null")
    AS_LDT_LLIST (text "not llist type")
    (fun key ldt =>
      invoke w t key 1 [Local (ldt_name ldt)] DEFAULT_LLIST_PACKAGE (text "scan") None
        (fun _ => elements) (value_back (fun v => Some (Some v))))).

Definition aerospike_llist_filter (w : W) (t : target) (err : option as_error) (filter : option (list Z))
    (filter_args : option as_val) (elements : option (option as_val)) : out (option (option as_val)) :=
  ldt_entry w t err elements (filter_checked w t elements filter filter_args (
    ldt_checked w t elements (is_given elements) (text "as/key/ldt/peek_count/elements cannot be null")
      AS_LDT_LLIST (text "not llist type")
      (fun key ldt =>
        invoke w t key (if is_given filter then 3 else 1) (Local (ldt_name ldt) :: filter_items filter filter_args)
          DEFAULT_LLIST_PACKAGE (if is_given filter then text "filter" else text "scan") None
          (fun _ => elements) (value_back (fun v => Some (Some v)))))).

Definition aerospike_llist_range (w : W) (t : target) (err : option as_error) (min_value max_value : option as_val)
    (filter : option (list Z)) (filter_args : option as_val) (elements : option (option as_val))
  : out (option (option as_val)) :=
  ldt_entry w t err elements (filter_checked w t elements filter filter_args (
    ldt_checked w t elements (is_given elements) (text "as/key/ldt/peek_count/elements cannot be null")
      AS_LDT_LLIST (text "not llist type")
      (fun key ldt =>
        invoke w t key (if is_given filter then 7 else 5)
          ([Local (ldt_name ldt); Given min_value; Given max_value] ++ filter_items filter filter_args)
          DEFAULT_LLIST_PACKAGE (text "range") None
          (fun _ => elements) (value_back (fun v => Some (Some v)))))).

Definition aerospike_llist_remove (w : W) (t : target) (err : option as_error) (val : option as_val) : out unit :=
  ldt_entry w t err tt (ldt_checked w t tt true (text "as/key/ldt/capacity cannot be null") AS_LDT_LLIST (text "not llist type")
    (fun key ldt =>
      invoke w t key 2 [Local (ldt_name ldt); Given val] DEFAULT_LLIST_PACKAGE (text "remove") None (fun _ => tt)
        (ignored tt))).

Definition aerospike_llist_destroy (w : W) (t : target) (err : option as_error) : out unit :=
  ldt_entry w t err tt (ldt_checked w t tt true (text "as/key/ldt/capacity cannot be null") AS_LDT_LLIST (text "not llist type")
    (fun key ldt =>
      invoke w t key 1 [Local (ldt_name ldt)] DEFAULT_LLIST_PACKAGE (text "destroy") None (fun _ => tt) (zero_back tt))).

(** The capacities are of type [uint32_t]. *)
Definition aerospike_llist_set_capacity (w : W) (t : target) (err : option as_error) (ldt_capacity : Z) : out unit :=
  ldt_entry w t err tt (ldt_checked w t tt (negb (ldt_capacity =? 0)) (text "as/key/ldt/capacity cannot be null")
    AS_LDT_LLIST (text "not stack type")
    (fun key ldt =>
      invoke w t key 2 [Local (ldt_name ldt); Int ldt_capacity] DEFAULT_LLIST_PACKAGE (text "set_capacity") None
        (fun _ => tt) (zero_or (text "capacity setting failed") (fun _ => tt)))).

Definition aerospike_llist_get_capacity (w : W) (t : target) (err : option as_error) (elements_capacity : option Z)
  : out (option Z) :=
  ldt_entry w t err elements_capacity (ldt_checked w t elements_capacity (is_given elements_capacity)
    (text "as/key/ldt/capacity cannot be null") AS_LDT_LLIST (text "not stack type")
    (fun key ldt =>
      invoke w t key 1 [Local (ldt_name ldt)] DEFAULT_LLIST_PACKAGE (text "get_capacity") None
        (fun _ => elements_capacity) (capacity_back (fun ival => Some (u32 ival))))).

Definition aerospike_llist_ldt_exists (w : W) (t : target) (err : option as_error) (ldt_exists : option bool)
  : out (option bool) :=
  ldt_entry w t err ldt_exists (ldt_checked w t ldt_exists (is_given ldt_exists) (text "as/key/ldt/ldt_exists cannot be null")
    AS_LDT_LLIST (text "not LLIST type")
    (fun key ldt =>
      invoke w t key 1 [Local (ldt_name ldt)] DEFAULT_LLIST_PACKAGE (text "ldt_exists") None
        (fun _ => ldt_exists) (integer_back (fun ival => Some (ival =? 1))))).

(** ** Large maps *)

Definition DEFAULT_LMAP_PACKAGE : list Z := text "lmap".

Definition aerospike_lmap_put (w : W) (t : target) (err : option as_error) (mkey mval : option as_val) : out unit :=
  ldt_entry w t err tt (ldt_checked w t tt (is_given mkey && is_given mval) (text "as/key/ldt/mkey/mval cannot be null")
    AS_LDT_LMAP (text "not lmap type")
    (fun key ldt =>
      invoke w t key 3 [Local (ldt_name ldt); Given mkey; Given mval] DEFAULT_LMAP_PACKAGE (text "put") None
        (fun _ => tt) (integer_back (fun _ => tt)))).

Definition aerospike_lmap_put_all (w : W) (t : target) (err : option as_error) (vals : option as_val) : out unit :=
  ldt_entry w t err tt (ldt_checked w t tt (is_given vals) (text "as/key/ldt/vals cannot be null")
    AS_LDT_LMAP (text "not lmap type")
    (fun key ldt =>
      invoke w t key 2 [Local (ldt_name ldt); Given vals] DEFAULT_LMAP_PACKAGE (text "put_all") None
        (fun _ => tt) (integer_back (fun _ => tt)))).

Definition aerospike_lmap_size (w : W) (t : target) (err : option as_error) (n : option Z) : out (option Z) :=
  ldt_entry w t err n (ldt_checked w t n (is_given n) (text "as/key/ldt/n cannot be null") AS_LDT_LMAP (text "not lmap type")
    (fun key ldt =>
      invoke w t key 1 [Local (ldt_name ldt)] DEFAULT_LMAP_PACKAGE (text "size") None (fun _ => n)
        (integer_back (fun ival => Some (u32 ival))))).

Definition aerospike_lmap_get (w : W) (t : target) (err : option as_error) (mkey : option as_val)
    (mval : option (option as_val)) : out (option (option as_val)) :=
  ldt_entry w t err mval (ldt_checked w t mval (is_given mkey && is_given mval) (text "as/key/ldt/n cannot be null")
    AS_LDT_LMAP (text "not lmap type")
    (fun key ldt =>
      invoke w t key 2 [Local (ldt_name ldt); Given mkey] DEFAULT_LMAP_PACKAGE (text "get") None
        (fun _ => mval) (value_back (fun v => Some (Some v))))).

Definition aerospike_lmap_filter_internal (w : W) (t : target) (err : option as_error) (filter : option (list Z))
    (filter_args : option as_val) (elements : option (option as_val)) : out (option (option as_val)) :=
  ldt_entry w t err elements (filter_checked w t elements filter filter_args (
    ldt_checked w t elements (is_given elements) (text "as/key/ldt/peek_count/elements cannot be null")
      AS_LDT_LMAP (text "not lmap type")
      (fun key ldt =>
        invoke w t key (if is_given filter then 3 else 1) (Local (ldt_name ldt) :: filter_items filter filter_args)
          DEFAULT_LMAP_PACKAGE (if is_given filter then text "filter" else text "scan") None
          (fun _ => elements) (value_back (fun v => Some (Some v)))))).
Definition aerospike_lmap_get_all w t err elements := aerospike_lmap_filter_internal w t err None None elements.
Definition aerospike_lmap_filter w t err filter filter_args elements :=
  aerospike_lmap_filter_internal w t err filter filter_args elements.

Definition aerospike_lmap_remove (w : W) (t : target) (err : option as_error) (mkey : option as_val) : out unit :=
  ldt_entry w t err tt (ldt_checked w t tt true (text "as/key/ldt/capacity cannot be null") AS_LDT_LMAP (text "not lmap type")
    (fun key ldt =>
      invoke w t key 2 [Local (ldt_name ldt); Given mkey] DEFAULT_LMAP_PACKAGE (text "remove") None (fun _ => tt)
        (ignored tt))).

Definition aerospike_lmap_destroy (w : W) (t : target) (err : option as_error) : out unit :=
  ldt_entry w t err tt (ldt_checked w t tt true (text "as/key/ldt cannot be null") AS_LDT_LMAP (text "not lmap type")
    (fun key ldt =>
      invoke w t key 1 [Local (ldt_name ldt)] DEFAULT_LMAP_PACKAGE (text "destroy") None (fun _ => tt) (zero_back tt))).

Definition aerospike_lmap_set_capacity (w : W) (t : target) (err : option as_error) (elements_capacity : Z) : out unit :=
  ldt_entry w t err tt (ldt_checked w t tt (negb (elements_capacity =? 0)) (text "as/key/ldt/capacity cannot be null")
    AS_LDT_LMAP (text "not stack type")
    (fun key ldt =>
      invoke w t key 2 [Local (ldt_name ldt); Int elements_capacity] DEFAULT_LMAP_PACKAGE (text "set_capacity") None
        (fun _ => tt) (zero_or (text "capacity setting failed") (fun _ => tt)))).

Definition aerospike_lmap_get_capacity (w : W) (t : target) (err : option as_error) (elements_capacity : option Z)
  : out (option Z) :=
  ldt_entry w t err elements_capacity (ldt_checked w t elements_capacity (is_given elements_capacity)
    (text "as/key/ldt/capacity cannot be null") AS_LDT_LMAP (text "not stack type")
    (fun key ldt =>
      invoke w t key 1 [Local (ldt_name ldt)] DEFAULT_LMAP_PACKAGE (text "get_capacity") None
        (fun _ => elements_capacity) (capacity_back (fun ival => Some (u32 ival))))).

Definition aerospike_lmap_ldt_exists (w : W) (t : target) (err : option as_error) (ldt_exists : option bool)
  : out (option bool) :=
  ldt_entry w t err ldt_exists (ldt_checked w t ldt_exists (is_given ldt_exists) (text "as/key/ldt/ldt_exists cannot be null")
    AS_LDT_LMAP (text "not LMAP type")
    (fun key ldt =>
      invoke w t key 1 [Local (ldt_name ldt)] DEFAULT_LMAP_PACKAGE (text "ldt_exists") None
        (fun _ => ldt_exists) (integer_back (fun ival => Some (ival =? 1))))).

(** ** Large sets *)

Definition DEFAULT_LSET_PACKAGE : list Z := text "lset".

Definition aerospike_lset_add_internal (w : W) (t : target) (err : option as_error) (val : option as_val)
    (operation : list Z) : out unit :=
  ldt_entry w t err tt (ldt_checked w t tt true (text "as/key/ldt/n cannot be null") AS_LDT_LSET (text "not lset type")
    (fun key ldt =>
      invoke w t key 2 [Local (ldt_name ldt); Given val] DEFAULT_LSET_PACKAGE operation None (fun _ => tt)
        (integer_back (fun _ => tt)))).
Definition aerospike_lset_add w t err val := aerospike_lset_add_internal w t err val (text "add").
Definition aerospike_lset_add_all w t err vals := aerospike_lset_add_internal w t err vals (text "add_all").

Definition aerospike_lset_size (w : W) (t : target) (err : option as_error) (n : option Z) : out (option Z) :=
  ldt_entry w t err n (ldt_checked w t n (is_given n) (text "as/key/ldt/n cannot be null") AS_LDT_LSET (text "not lset type")
    (fun key ldt =>
      invoke w t key 1 [Local (ldt_name ldt)] DEFAULT_LSET_PACKAGE (text "size") None (fun _ => n)
        (integer_back (fun ival => Some (u32 ival))))).

Definition aerospike_lset_exists (w : W) (t : target) (err : option as_error) (val : option as_val)
    (exists_ : option bool) : out (option bool) :=
  ldt_entry w t err exists_ (ldt_checked w t exists_ (is_given exists_) (text "as/key/ldt/n cannot be null")
    AS_LDT_LSET (text "not lset type")
    (fun key ldt =>
      invoke w t key 2 [Local (ldt_name ldt); Given val] DEFAULT_LSET_PACKAGE (text "exists") None
        (fun _ => exists_) (integer_back (fun ival => Some (ival =? 1))))).

(** The caller's pointer is the place of the returned value: it is not cleared before, and
    holds what the answer left there whatever the status is. *)
Definition aerospike_lset_get (w : W) (t : target) (err : option as_error) (val : option as_val)
    (pp_return_val : option (option as_val)) : out (option (option as_val)) :=
  ldt_entry w t err pp_return_val (ldt_checked w t pp_return_val (is_given pp_return_val)
    (text "as/key/ldt/return cannot be null") AS_LDT_LSET (text "not lset type")
    (fun key ldt =>
      invoke w t key 2 [Local (ldt_name ldt); Given val] DEFAULT_LSET_PACKAGE (text "get") (default None pp_return_val)
        Some (value_back (fun v => Some (Some v))))).

Definition aerospike_lset_filter (w : W) (t : target) (err : option as_error) (filter : option (list Z))
    (filter_args : option as_val) (elements : option (option as_val)) : out (option (option as_val)) :=
  ldt_entry w t err elements (filter_checked w t elements filter filter_args (
    ldt_checked w t elements (is_given elements) (text "as/key/ldt/peek_count/elements cannot be null")
      AS_LDT_LSET (text "not lset type")
      (fun key ldt =>
        invoke w t key (if is_given filter then 3 else 1) (Local (ldt_name ldt) :: filter_items filter filter_args)
          DEFAULT_LSET_PACKAGE (if is_given filter then text "filter" else text "scan") None
          (fun _ => elements) (value_back (fun v => Some (Some v)))))).

Definition aerospike_lset_remove (w : W) (t : target) (err : option as_error) (val : option as_val) : out unit :=
  ldt_entry w t err tt (ldt_checked w t tt true (text "as/key/ldt/capacity cannot be null") AS_LDT_LSET (text "not lset type")
    (fun key ldt =>
      invoke w t key 2 [Local (ldt_name ldt); Given val] DEFAULT_LSET_PACKAGE (text "remove") None (fun _ => tt)
        (ignored tt))).

Definition aerospike_lset_destroy (w : W) (t : target) (err : option as_error) : out unit :=
  ldt_entry w t err tt (ldt_checked w t tt true (text "as/key/ldt/capacity cannot be null") AS_LDT_LSET (text "not lset type")
    (fun key ldt =>
      invoke w t key 1 [Local (ldt_name ldt)] DEFAULT_LSET_PACKAGE (text "destroy") None (fun _ => tt) (zero_back tt))).

(** The two calls on capacities ask for a large list. *)
Definition aerospike_lset_set_capacity (w : W) (t : target) (err : option as_error) (ldt_capacity : Z) : out unit :=
  ldt_entry w t err tt (ldt_checked w t tt (negb (ldt_capacity =? 0)) (text "as/key/ldt/capacity cannot be null")
    AS_LDT_LLIST (text "not stack type")
    (fun key ldt =>
      invoke w t key 2 [Local (ldt_name ldt); Int ldt_capacity] DEFAULT_LSET_PACKAGE (text "set_capacity") None
        (fun _ => tt) (zero_or (text "capacity setting failed") (fun _ => tt)))).

Definition aerospike_lset_get_capacity (w : W) (t : target) (err : option as_error) (elements_capacity : option Z)
  : out (option Z) :=
  ldt_entry w t err elements_capacity (ldt_checked w t elements_capacity (is_given elements_capacity)
    (text "as/key/ldt/capacity cannot be null") AS_LDT_LLIST (text "not stack type")
    (fun key ldt =>
      invoke w t key 1 [Local (ldt_name ldt)] DEFAULT_LSET_PACKAGE (text "get_capacity") None
        (fun _ => elements_capacity) (capacity_back (fun ival => Some (u32 ival))))).

Definition aerospike_lset_ldt_exists (w : W) (t : target) (err : option as_error) (ldt_exists : option bool)
  : out (option bool) :=
  ldt_entry w t err ldt_exists (ldt_checked w t ldt_exists (is_given ldt_exists) (text "as/key/ldt/ldt_exists cannot be null")
    AS_LDT_LSET (text "not LSET type")
    (fun key ldt =>
      invoke w t key 1 [Local (ldt_name ldt)] DEFAULT_LSET_PACKAGE (text "ldt_exists") None
        (fun _ => ldt_exists) (integer_back (fun ival => Some (ival =? 1))))).

(** ** Large stacks *)

Definition DEFAULT_LSTACK_PACKAGE : list Z := text "lstack".

Definition has_module (ldt : as_ldt) : bool := negb (strlen (ldt_module ldt) =? 0).

Definition aerospike_lstack_push_internal (w : W) (t : target) (err : option as_error) (val : option as_val)
    (operation : list Z) : out unit :=
  ldt_entry w t err tt (ldt_checked w t tt (is_given val) (text "as/key/ldt/n cannot be null")
    AS_LDT_LSTACK (text "not stack type")
    (fun key ldt =>
      invoke w t key (if has_module ldt then 3 else 2)
        ([Local (ldt_name ldt); Given val] ++ if has_module ldt then [Inner (ldt_module ldt)] else [])
        DEFAULT_LSTACK_PACKAGE operation None (fun _ => tt) (ignored tt))).
Definition aerospike_lstack_push w t err val := aerospike_lstack_push_internal w t err val (text "push").
Definition aerospike_lstack_push_all w t err val_listp := aerospike_lstack_push_internal w t err val_listp (text "push_all").

Definition aerospike_lstack_peek_with_filter (w : W) (t : target) (err : option as_error) (peek_count : Z)
    (filter : option (list Z)) (filter_args : option as_val) (elements : option (option as_val))
  : out (option (option as_val)) :=
  ldt_entry w t err elements (filter_checked w t elements filter filter_args (
    ldt_checked w t elements (negb (peek_count =? 0) && is_given elements)
      (text "as/key/ldt/peek_count/elements cannot be null") AS_LDT_LSTACK (text "not stack type")
      (fun key ldt =>
        invoke w t key (if is_given filter then 5 else 2)
          ([Local (ldt_name ldt); Int peek_count]
             ++ match filter with
                | Some f => [Inner (ldt_module ldt); Inner f; Given filter_args]
                | None => []
                end)
          DEFAULT_LSTACK_PACKAGE (if is_given filter then text "filter" else text "peek") None
          (fun _ => elements) (value_back (fun v => Some (Some v)))))).
Definition aerospike_lstack_peek w t err peek_count elements :=
  aerospike_lstack_peek_with_filter w t err peek_count None None elements.

(** Without a filter or its arguments the error is not touched. *)
Definition aerospike_lstack_filter (w : W) (t : target) (err : option as_error) (peek_count : Z)
    (filter : option (list Z)) (filter_args : option as_val) (elements : option (option as_val))
  : out (option (option as_val)) :=
  if negb (is_given filter) || negb (is_given filter_args)
  then URet (mk_ans AEROSPIKE_ERR_PARAM err (t_key t) elements w [] [])
  else aerospike_lstack_peek_with_filter w t err peek_count filter filter_args elements.

Definition aerospike_lstack_ask_internal (w : W) (t : target) (err : option as_error) (n : option Z)
    (operation : list Z) : out (option Z) :=
  ldt_entry w t err n (ldt_checked w t n (is_given n) (text "as/key/ldt/n cannot be null") AS_LDT_LSTACK (text "not stack type")
    (fun key ldt =>
      invoke w t key 1 [Local (ldt_name ldt)] DEFAULT_LSTACK_PACKAGE operation None (fun _ => n)
        (integer_back (fun ival => Some (u32 ival))))).
Definition aerospike_lstack_size w t err sizep := aerospike_lstack_ask_internal w t err sizep (text "size").
Definition aerospike_lstack_one w t err sizep := aerospike_lstack_ask_internal w t err sizep (text "one").

Definition aerospike_lstack_set_capacity (w : W) (t : target) (err : option as_error) (elements_capacity : Z) : out unit :=
  ldt_entry w t err tt (ldt_checked w t tt (negb (elements_capacity =? 0)) (text "as/key/ldt/capacity cannot be null")
    AS_LDT_LSTACK (text "not stack type")
    (fun key ldt =>
      invoke w t key 2 [Local (ldt_name ldt); Int elements_capacity] DEFAULT_LSTACK_PACKAGE (text "set_capacity") None
        (fun _ => tt) (zero_or (text "capacity setting failed") (fun _ => tt)))).

Definition aerospike_lstack_get_capacity (w : W) (t : target) (err : option as_error) (elements_capacity : option Z)
  : out (option Z) :=
  ldt_entry w t err elements_capacity (ldt_checked w t elements_capacity (is_given elements_capacity)
    (text "as/key/ldt/capacity cannot be null") AS_LDT_LSTACK (text "not stack type")
    (fun key ldt =>
      invoke w t key 1 [Local (ldt_name ldt)] DEFAULT_LSTACK_PACKAGE (text "get_capacity") None
        (fun _ => elements_capacity) (capacity_back (fun ival => Some (u32 ival))))).

Definition aerospike_lstack_destroy (w : W) (t : target) (err : option as_error) : out unit :=
  ldt_entry w t err tt (ldt_checked w t tt true (text "as/key/ldt/capacity cannot be null") AS_LDT_LSTACK (text "not stack type")
    (fun key ldt =>
      invoke w t key 1 [Local (ldt_name ldt)] DEFAULT_LSTACK_PACKAGE (text "destroy") None (fun _ => tt) (zero_back tt))).

Definition aerospike_lstack_ldt_exists (w : W) (t : target) (err : option as_error) (ldt_exists : option bool)
  : out (option bool) :=
  ldt_entry w t err ldt_exists (ldt_checked w t ldt_exists (is_given ldt_exists) (text "as/key/ldt/ldt_exists cannot be null")
    AS_LDT_LSTACK (text "not LSTACK type")
    (fun key ldt =>
      invoke w t key 1 [Local (ldt_name ldt)] DEFAULT_LSTACK_PACKAGE (text "ldt_exists") None
        (fun _ => ldt_exists) (integer_back (fun ival => Some (ival =? 1))))).

Definition aerospike_lstack_same (w : W) (t : target) (err : option as_error) (in_val : Z) (out_valp : option Z)
  : out (option Z) :=
  ldt_entry w t err out_valp (ldt_checked w t out_valp (is_given out_valp) (text "as/key/ldt/out_valp cannot be null")
    AS_LDT_LSTACK (text "not LSTACK type")
    (fun key ldt =>
      invoke w t key 2 [Local (ldt_name ldt); Int in_val] DEFAULT_LSTACK_PACKAGE (text "same") None
        (fun _ => out_valp) (zero_or (text "same() Function Failed") (fun ival => Some (u32 ival))))).
End Calls.

Create HintDb ldt.
#[export] Hint Unfold aerospike_llist_add_internal aerospike_llist_add aerospike_llist_add_all 
  aerospike_llist_size aerospike_llist_find aerospike_llist_scan aerospike_llist_filter aerospike_llist_range 
  aerospike_llist_remove aerospike_llist_destroy aerospike_llist_set_capacity aerospike_llist_get_capacity 
  aerospike_llist_ldt_exists aerospike_lmap_put aerospike_lmap_put_all aerospike_lmap_size aerospike_lmap_get 
  aerospike_lmap_filter_internal aerospike_lmap_get_all aerospike_lmap_filter aerospike_lmap_remove 
  aerospike_lmap_destroy aerospike_lmap_set_capacity aerospike_lmap_get_capacity aerospike_lmap_ldt_exists 
  aerospike_lset_add_internal aerospike_lset_add aerospike_lset_add_all aerospike_lset_size 
  aerospike_lset_exists aerospike_lset_get aerospike_lset_filter aerospike_lset_remove aerospike_lset_destroy 
  aerospike_lset_set_capacity aerospike_lset_get_capacity aerospike_lset_ldt_exists 
  aerospike_lstack_push_internal aerospike_lstack_push aerospike_lstack_push_all 
  aerospike_lstack_peek_with_filter aerospike_lstack_peek aerospike_lstack_filter aerospike_lstack_ask_internal 
  aerospike_lstack_size aerospike_lstack_one aerospike_lstack_set_capacity aerospike_lstack_get_capacity 
  aerospike_lstack_destroy aerospike_lstack_ldt_exists aerospike_lstack_same

    ldt_entry filter_checked : ldt.

(** ** The operations and their contract *)

(** The place of a result, NULL or with what it holds. *)
Inductive slot :=
  | NoSlot
  | IntSlot (p : option Z)
  | BoolSlot (p : option bool)
  | ValSlot (p : option (option as_val)).

Inductive ldt_op :=
  | OpSize (type : as_ldt_type) (n : option Z)
  | OpDestroy (type : as_ldt_type)
  | OpSetCapacity (type : as_ldt_type) (capacity : Z)
  | OpGetCapacity (type : as_ldt_type) (capacity : option Z)
  | OpExists (type : as_ldt_type) (ldt_exists : option bool)
  | ListAdd (val : option as_val) | ListAddAll (vals : option as_val)
  | ListFind (val : option as_val) (elements : option (option as_val))
  | ListScan (elements : option (option as_val))
  | ListFilter (filter : option (list Z)) (args : option as_val) (elements : option (option as_val))
  | ListRange (lo hi : option as_val) (filter : option (list Z)) (args : option as_val) (elements : option (option as_val))
  | ListRemove (val : option as_val)
  | MapPut (key val : option as_val) | MapPutAll (vals : option as_val)
  | MapGet (key : option as_val) (val : option (option as_val))
  | MapGetAll (elements : option (option as_val))
  | MapFilter (filter : option (list Z)) (args : option as_val) (elements : option (option as_val))
  | MapRemove (key : option as_val)
  | SetAdd (val : option as_val) | SetAddAll (vals : option as_val)
  | SetHas (val : option as_val) (exists_ : option bool)
  | SetGet (val : option as_val) (result : option (option as_val))
  | SetFilter (filter : option (list Z)) (args : option as_val) (elements : option (option as_val))
  | SetRemove (val : option as_val)
  | StackPush (val : option as_val) | StackPushAll (vals : option as_val)
  | StackPeek (count : Z) (elements : option (option as_val))
  | StackFilter (count : Z) (filter : option (list Z)) (args : option as_val) (elements : option (option as_val))
  | StackOne (n : option Z)
  | StackSame (in_val : Z) (out_val : option Z).

Definition in_slot {W A} (f : A -> slot) (r : ures (ldt_answer W A)) : ures (ldt_answer W slot) :=
  let* a := r in
  URet (mk_ans (ans_status a) (ans_err a) (ans_key a) (f (ans_out a)) (ans_w a) (ans_trace a) (ans_refs a)).

(** What an operation needs, does and promises. *)

Definition op_type (op : ldt_op) : as_ldt_type :=
  match op with
  | OpSize ty _ | OpDestroy ty | OpSetCapacity ty _ | OpGetCapacity ty _ | OpExists ty _ => ty
  | ListAdd _ | ListAddAll _ | ListFind _ _ | ListScan _ | ListFilter _ _ _ | ListRange _ _ _ _ _ | ListRemove _ => AS_LDT_LLIST
  | MapPut _ _ | MapPutAll _ | MapGet _ _ | MapGetAll _ | MapFilter _ _ _ | MapRemove _ => AS_LDT_LMAP
  | SetAdd _ | SetAddAll _ | SetHas _ _ | SetGet _ _ | SetFilter _ _ _ | SetRemove _ => AS_LDT_LSET
  | StackPush _ | StackPushAll _ | StackPeek _ _ | StackFilter _ _ _ _ | StackOne _ | StackSame _ _ => AS_LDT_LSTACK
  end.

Definition op_package (op : ldt_op) : list Z :=
  match op_type op with
  | AS_LDT_LLIST => text "llist" | AS_LDT_LMAP => text "lmap" | AS_LDT_LSET => text "lset" | AS_LDT_LSTACK => text "lstack"
  end.

Definition op_function (op : ldt_op) : list Z :=
  match op with
  | OpSize _ _ => text "size" | OpDestroy _ => text "destroy" | OpExists _ _ => text "ldt_exists"
  | OpSetCapacity _ _ => text "set_capacity" | OpGetCapacity _ _ => text "get_capacity"
  | ListAdd _ | SetAdd _ => text "add" | ListAddAll _ | SetAddAll _ => text "add_all"
  | ListFind _ _ => text "find" | ListScan _ | MapGetAll _ => text "scan"
  | ListFilter f _ _ | MapFilter f _ _ | SetFilter f _ _ => match f with Some _ => text "filter" | None => text "scan" end
  | ListRange _ _ _ _ _ => text "range" | ListRemove _ | MapRemove _ | SetRemove _ => text "remove"
  | MapPut _ _ => text "put" | MapPutAll _ => text "put_all" | MapGet _ _ | SetGet _ _ => text "get"
  | SetHas _ _ => text "exists"
  | StackPush _ => text "push" | StackPushAll _ => text "push_all" | StackPeek _ _ => text "peek"
  | StackFilter _ _ _ _ => text "filter" | StackOne _ => text "one" | StackSame _ _ => text "same"
  end.

Definition str_arg (s : list Z) : option as_val := Some (VString (c_str s)).
Definition int_arg (z : Z) : option as_val := Some (VInteger z).
Definition filter_args (f : option (list Z)) (args : option as_val) : list (option as_val) :=
  match f with Some f => [str_arg f; args] | None => [] end.

(** The arguments behind the name of the bin. *)
Definition op_args (op : ldt_op) (ldt : as_ldt) : list (option as_val) :=
  match op with
  | OpSize _ _ | OpDestroy _ | OpGetCapacity _ _ | OpExists _ _ | ListScan _ | MapGetAll _ | StackOne _ => []
  | OpSetCapacity _ c => [int_arg c]
  | ListAdd v | ListAddAll v | ListFind v _ | ListRemove v | MapPutAll v | MapGet v _ | MapRemove v
  | SetAdd v | SetAddAll v | SetHas v _ | SetGet v _ | SetRemove v => [v]
  | ListFilter f a _ | MapFilter f a _ | SetFilter f a _ => filter_args f a
  | ListRange lo hi f a _ => [lo; hi] ++ filter_args f a
  | MapPut k v => [k; v]
  | StackPush v | StackPushAll v => v :: if has_module ldt then [str_arg (ldt_module ldt)] else []
  | StackPeek n _ => [int_arg n]
  | StackFilter n f a _ => [int_arg n; str_arg (ldt_module ldt); f ≫= str_arg; a]
  | StackSame z _ => [int_arg z]
  end.

(** The place for the result. *)
Definition op_slot (op : ldt_op) : slot :=
  match op with
  | OpSize _ n | OpGetCapacity _ n | StackOne n | StackSame _ n => IntSlot n
  | OpExists _ b | SetHas _ b => BoolSlot b
  | ListFind _ e | ListScan e | ListFilter _ _ e | ListRange _ _ _ _ e | MapGet _ e | MapGetAll e | MapFilter _ _ e
  | SetGet _ e | SetFilter _ _ e | StackPeek _ e | StackFilter _ _ _ e => ValSlot e
  | _ => NoSlot
  end.

Definition slot_given (s : slot) : bool :=
  match s with
  | NoSlot | IntSlot (Some _) | BoolSlot (Some _) | ValSlot (Some _) => true
  | _ => false
  end.

Definition filter_ready (f : option (list Z)) (a : option as_val) : bool := is_given f || negb (is_given a).

(** The parameters a call accepts. *)
Definition op_ready (op : ldt_op) : bool :=
  slot_given (op_slot op) &&
  match op with
  | OpSetCapacity _ c => negb (c =? 0)
  | ListFind v _ | MapPutAll v | MapGet v _ | StackPush v | StackPushAll v => is_given v
  | MapPut k v => is_given k && is_given v
  | ListFilter f a _ | MapFilter f a _ | SetFilter f a _ | ListRange _ _ f a _ => filter_ready f a
  | StackPeek n _ => negb (n =? 0)
  | StackFilter n f a _ => negb (n =? 0) && is_given f && is_given a
  | _ => true
  end.

(** What the value the server returned means: a message, or the result. *)
Definition op_result (op : ldt_op) (v : option as_val) : list Z + slot :=
  let z := integer_of v in
  match op with
  | OpDestroy _ => if z =? 0 then inr NoSlot else inl not_parseable
  | OpSetCapacity _ _ =>
      if z =? 0 then inr NoSlot else inl (if z =? -1 then not_parseable else text "capacity setting failed")
  | StackSame _ _ =>
      if z =? 0 then inr (IntSlot (Some 0)) else inl (if z =? -1 then not_parseable else text "same() Function Failed")
  | OpGetCapacity _ _ => if z =? -1 then inl not_parseable else inr (IntSlot (Some (u32 z)))
  | ListRemove _ | MapRemove _ | SetRemove _ | StackPush _ | StackPushAll _ => inr NoSlot
  | _ =>
      match v with
      | None => inl no_value
      | Some v' =>
          match op_slot op with
          | ValSlot _ => inr (ValSlot (Some (Some v')))
          | s => if z =? -1 then inl not_parseable
                 else inr (match s with
                           | IntSlot _ => IntSlot (Some (u32 z))
                           | BoolSlot _ => BoolSlot (Some (z =? 1))
                           | _ => s
                           end)
          end
      end
  end.

(** The value is handed to the caller, or destroyed. *)
Definition hands_over (op : ldt_op) : bool := match op_slot op with ValSlot _ => true | _ => false end.

(** A failed call leaves the result alone, except that of [SetGet]. *)
Definition op_failed (op : ldt_op) (v : option as_val) : slot :=
  match op with SetGet _ _ => ValSlot (Some v) | _ => op_slot op end.
Definition op_initial (op : ldt_op) : option as_val :=
  match op with SetGet _ p => default None p | _ => None end.

(** The values of the caller among the arguments. *)
Definition op_given (op : ldt_op) : list (option as_val) :=
  match op with
  | ListAdd v | ListAddAll v | ListFind v _ | ListRemove v | MapPutAll v | MapGet v _ | MapRemove v
  | SetAdd v | SetAddAll v | SetHas v _ | SetGet v _ | SetRemove v | StackPush v | StackPushAll v => [v]
  | ListFilter f a _ | MapFilter f a _ | SetFilter f a _ => match f with Some _ => [a] | None => [] end
  | ListRange lo hi f a _ => [lo; hi] ++ match f with Some _ => [a] | None => [] end
  | MapPut k v => [k; v]
  | StackFilter _ _ a _ => [a]
  | _ => []
  end.

(** The status, the error and the result. *)
Definition op_outcome (op : ldt_op) (err : as_error) (v : option as_val) : Z * as_error * slot :=
  if negb (err_code err =? AEROSPIKE_OK) then (err_code err, err, op_failed op v)
  else match op_result op v with
       | inl msg => (AEROSPIKE_ERR_LDT_INTERNAL, mk_error AEROSPIKE_ERR_LDT_INTERNAL (MText msg), op_failed op v)
       | inr s => (AEROSPIKE_OK, err, s)
       end.

(** Every value of the caller is reserved once, then the list destroys what it holds.  A
    value the server returned is destroyed, handed over, or lost when the call fails
    although there is one. *)
Definition op_refs (op : ldt_op) (ldt : as_ldt) (err : as_error) (v : option as_val) : list (ref_event as_val) :=
  (op_given op ≫= reserve_ev) ++ ((str_arg (ldt_name ldt) :: op_args op ldt) ≫= destroy_ev)
    ++ if negb (err_code err =? AEROSPIKE_OK) || hands_over op then [] else destroy_ev v.

(** The type a call looks for. *)
Definition op_asks (op : ldt_op) : as_ldt_type :=
  match op with
  | OpSetCapacity AS_LDT_LSET _ | OpGetCapacity AS_LDT_LSET _ => AS_LDT_LLIST
  | _ => op_type op
  end.

Section Contract.
Context `{Platform} `{Services W}.
Context (hpux : bool) (ripemd160 : list Z -> list Z) (uninit : Z -> list Z) (fuel : nat).
Context (config : as_policy_apply) (stale : as_val -> option as_val).

Abbreviation on f := (f hpux ripemd160 uninit fuel config stale).

(** The function of an operation. *)
Definition call (op : ldt_op) (w : W) (t : target) (err : option as_error) : ures (ldt_answer W slot) :=
  let plain := in_slot (fun _ : unit => NoSlot) in
  let int := in_slot IntSlot in
  let boolean := in_slot BoolSlot in
  let val := in_slot ValSlot in
  match op with
  | OpSize AS_LDT_LLIST n => int (on aerospike_llist_size w t err n)
  | OpSize AS_LDT_LMAP n => int (on aerospike_lmap_size w t err n)
  | OpSize AS_LDT_LSET n => int (on aerospike_lset_size w t err n)
  | OpSize AS_LDT_LSTACK n => int (on aerospike_lstack_size w t err n)
  | OpDestroy AS_LDT_LLIST => plain (on aerospike_llist_destroy w t err)
  | OpDestroy AS_LDT_LMAP => plain (on aerospike_lmap_destroy w t err)
  | OpDestroy AS_LDT_LSET => plain (on aerospike_lset_destroy w t err)
  | OpDestroy AS_LDT_LSTACK => plain (on aerospike_lstack_destroy w t err)
  | OpSetCapacity AS_LDT_LLIST c => plain (on aerospike_llist_set_capacity w t err c)
  | OpSetCapacity AS_LDT_LMAP c => plain (on aerospike_lmap_set_capacity w t err c)
  | OpSetCapacity AS_LDT_LSET c => plain (on aerospike_lset_set_capacity w t err c)
  | OpSetCapacity AS_LDT_LSTACK c => plain (on aerospike_lstack_set_capacity w t err c)
  | OpGetCapacity AS_LDT_LLIST p => int (on aerospike_llist_get_capacity w t err p)
  | OpGetCapacity AS_LDT_LMAP p => int (on aerospike_lmap_get_capacity w t err p)
  | OpGetCapacity AS_LDT_LSET p => int (on aerospike_lset_get_capacity w t err p)
  | OpGetCapacity AS_LDT_LSTACK p => int (on aerospike_lstack_get_capacity w t err p)
  | OpExists AS_LDT_LLIST b => boolean (on aerospike_llist_ldt_exists w t err b)
  | OpExists AS_LDT_LMAP b => boolean (on aerospike_lmap_ldt_exists w t err b)
  | OpExists AS_LDT_LSET b => boolean (on aerospike_lset_ldt_exists w t err b)
  | OpExists AS_LDT_LSTACK b => boolean (on aerospike_lstack_ldt_exists w t err b)
  | ListAdd v => plain (on aerospike_llist_add w t err v)
  | ListAddAll v => plain (on aerospike_llist_add_all w t err v)
  | ListFind v e => val (on aerospike_llist_find w t err v e)
  | ListScan e => val (on aerospike_llist_scan w t err e)
  | ListFilter f a e => val (on aerospike_llist_filter w t err f a e)
  | ListRange lo hi f a e => val (on aerospike_llist_range w t err lo hi f a e)
  | ListRemove v => plain (on aerospike_llist_remove w t err v)
  | MapPut k v => plain (on aerospike_lmap_put w t err k v)
  | MapPutAll v => plain (on aerospike_lmap_put_all w t err v)
  | MapGet k e => val (on aerospike_lmap_get w t err k e)
  | MapGetAll e => val (on aerospike_lmap_get_all w t err e)
  | MapFilter f a e => val (on aerospike_lmap_filter w t err f a e)
  | MapRemove k => plain (on aerospike_lmap_remove w t err k)
  | SetAdd v => plain (on aerospike_lset_add w t err v)
  | SetAddAll v => plain (on aerospike_lset_add_all w t err v)
  | SetHas v b => boolean (on aerospike_lset_exists w t err v b)
  | SetGet v e => val (on aerospike_lset_get w t err v e)
  | SetFilter f a e => val (on aerospike_lset_filter w t err f a e)
  | SetRemove v => plain (on aerospike_lset_remove w t err v)
  | StackPush v => plain (on aerospike_lstack_push w t err v)
  | StackPushAll v => plain (on aerospike_lstack_push_all w t err v)
  | StackPeek n e => val (on aerospike_lstack_peek w t err n e)
  | StackFilter n f a e => val (on aerospike_lstack_filter w t err n f a e)
  | StackOne n => int (on aerospike_lstack_one w t err n)
  | StackSame z n => int (on aerospike_lstack_same w t err z n)
  end.

(** *** Arguments *)

(** A list on the stack with [l] in it and [k] slots that were never written. *)
Definition filled (a : as_arraylist arg) (l : list (option arg)) (k : nat) : Prop :=
  a = mk_arraylist 0 (blen l + Z.of_nat k) (blen l) ((Some <$> l) ++ replicate k None) false
  /\ blen l + Z.of_nat k < 2 ^ 31.

Lemma append_filled a l k v :
  filled a l (S k) -> exists a', as_arraylist_append true a v = Some (AS_ARRAYLIST_OK, a', []) /\ filled a' (l ++ [v]) k.
Proof.
  intros [-> Hk]. unfold as_arraylist_append, as_arraylist_insert, as_arraylist_ensure. cbn [size capacity elements].
  rewrite Z.ltb_irrefl, u32_id by (unfold is_u32; lia). rewrite (proj2 (Z.ltb_ge _ _)) by lia. cbn [mbind option_bind].
  cbn [Z.eqb AS_ARRAYLIST_OK negb size elements]. rewrite Z.sub_diag, Z.ltb_irrefl. change (Z.to_nat 0) with 0%nat.
  cbn [shift_up mbind option_bind]. unfold el_set, aset. rewrite decide_True by (rewrite length_app, length_fmap, length_replicate; lia).
  cbn [mbind option_bind]. eexists. split; [reflexivity|]. unfold filled, with_elements. cbn [ArrayList.block_size capacity free].
  rewrite u32_id by (unfold is_u32; lia). rewrite !length_app. cbn [length]. split; [|lia]. f_equal; [lia|lia|].
  rewrite Nat2Z.id, insert_app_r_alt by (rewrite length_fmap; lia).
  rewrite length_fmap, Nat.sub_diag, fmap_app, <- app_assoc. done.
Qed.

Lemma append_items_filled items : forall a l k,
  filled a l (length items + k) ->
  exists a', append_items a items = Some a' /\ filled a' (l ++ map item_arg items) k.
Proof.
  induction items as [|i items IH]; intros a l k Ha; [exists a; cbn; by rewrite app_nil_r|]. cbn [append_items length Nat.add] in *.
  destruct (append_filled _ _ _ (item_arg i) Ha) as (a1 & -> & H1). cbn [mbind option_bind].
  destruct (IH _ _ _ H1) as (a2 & -> & H2). exists a2. split; [done|]. by rewrite <- app_assoc in H2.
Qed.

Lemma read_filled rest : forall y x,
  list_read stale (length y) ((Some <$> (x ++ y)) ++ rest) (blen x) = mapM (arg_read stale) y.
Proof.
  induction y as [|v y IH]; intros x; [done|]. cbn [length list_read]. unfold el_get.
  rewrite aget_lookup, lookup_app_l, list_lookup_fmap, list_lookup_middle by (rewrite ?length_fmap, ?length_app; cbn; lia).
  cbn [fmap option_fmap option_map mbind option_bind id mapM].
  replace (blen x + 1) with (blen (x ++ [v])) by (rewrite length_app; cbn; lia).
  replace (x ++ v :: y) with ((x ++ [v]) ++ y) by (by rewrite <- app_assoc). by rewrite IH.
Qed.

Lemma release_filled (rest : list (option (option arg))) : forall y x,
  release_loop (length y) (blen x) ((Some <$> (x ++ y)) ++ rest) = Some (y ≫= destroy_ev).
Proof.
  induction y as [|v y IH]; intros x; [done|]. cbn [length release_loop]. unfold el_get, el_set.
  rewrite aget_lookup, lookup_app_l, list_lookup_fmap, list_lookup_middle by (rewrite ?length_fmap, ?length_app; cbn; lia).
  cbn [fmap option_fmap option_map mbind option_bind id]. unfold aset.
  rewrite decide_True by (rewrite !length_app, length_fmap, length_app; cbn; lia). cbn [mbind option_bind].
  rewrite Nat2Z.id, insert_app_l by (rewrite length_fmap, length_app; cbn; lia).
  rewrite fmap_app, insert_app_r_alt by (rewrite length_fmap; lia). rewrite length_fmap, Nat.sub_diag.
  cbn [fmap list_fmap insert list_insert]. change (Some None :: (Some <$> y)) with (Some <$> (None :: y)). rewrite <- fmap_app.
  replace (blen x + 1) with (blen (x ++ [None])) by (rewrite length_app; cbn; lia).
  replace (x ++ None :: y) with ((x ++ [None]) ++ y) by (by rewrite <- app_assoc). by rewrite IH.
Qed.

(** A call whose list has room for its arguments passes them all. *)
Lemma invoke_ok {A} w t key argc items package operation initial (early : option as_val -> A) finish :
  items <> [] -> blen items <= argc < 2 ^ 31 ->
  on invoke w t key argc items package operation initial early finish
  = (let* args := lift (mapM (arg_read stale) (map item_arg items)) in
     let* (_, err, key, val, w, trace) :=
       aerospike_key_apply hpux ripemd160 uninit fuel config w (t_policy t) key package operation (VList args) (Some initial) in
     conclude key w trace ((items ≫= item_reserve) ++ map ref_val (map item_arg items ≫= destroy_ev)) (default None val) err early finish).
Proof.
  intros Hne Hargc. unfold invoke.
  destruct (append_items_filled items (as_arraylist_inita argc) [] (Z.to_nat argc - length items)) as (a & -> & -> & _).
  { unfold filled, as_arraylist_inita. cbn [length fmap list_fmap app]. split; [|lia]. f_equal; [lia|]. f_equal. lia. }
  cbn [lift ubind app]. set (rest := replicate _ None). unfold arglist_value. cbn [size elements]. rewrite Nat2Z.id.
  pose proof (read_filled rest (map item_arg items) []) as Hr. cbn [app length] in Hr. change (Z.of_nat 0) with 0 in Hr. rewrite Hr.
  destruct (mapM _ _) as [args|]; [|done]. cbn [mbind option_bind lift ubind].
  assert (forall a, elements a = (Some <$> map item_arg items) ++ rest -> size a = blen (map item_arg items) ->
    exists r, as_arraylist_release a = Some (r, map item_arg items ≫= destroy_ev)) as Hrel.
  { intros a He Hs. unfold as_arraylist_release. rewrite He, Hs. destruct items as [|i items]; [done|].
    pose proof (release_filled rest (map item_arg (i :: items)) []) as Hl. cbn [map app fmap list_fmap] in *.
    rewrite Nat2Z.id. change 0 with (blen (@nil (option arg))). rewrite Hl. cbn [mbind option_bind]. by eexists (_, _). }
  edestruct Hrel as [[fr a'] ->]; [reflexivity..|]. done.
Qed.

(** *** The contract *)

(** What an operation should do with parameters it accepts. *)
Definition perform (op : ldt_op) (w : W) (t : target) (key : as_key) (ldt : as_ldt) : ures (ldt_answer W slot) :=
  let* (_, err, key, val, w, trace) :=
    aerospike_key_apply hpux ripemd160 uninit fuel config w (t_policy t) key (op_package op) (op_function op)
      (VList (str_arg (ldt_name ldt) :: op_args op ldt)) (Some (op_initial op)) in
  let val := default None val in
  let* err := lift (ldt_parse_error err) in
  let '(status, err', s) := op_outcome op err val in
  URet (mk_ans status (Some err') (Some key) s w trace (op_refs op ldt err val)).

Definition item_val (i : item) : option as_val :=
  match i with Local s | Inner s => str_arg s | Int z => int_arg z | Given v => v end.

Lemma items_read items : (forall v, stale v = Some v) -> mapM (arg_read stale) (map item_arg items) = Some (map item_val items).
Proof.
  intros Hs. induction items as [|i items IH]; [done|]. cbn [map mapM]. rewrite IH.
  destruct i as [s|s|z|[v|]]; cbn; by rewrite ?Hs.
Qed.

Lemma items_destroyed items : map ref_val (map item_arg items ≫= destroy_ev) = map item_val items ≫= destroy_ev.
Proof.
  induction items as [|i items IH]; [done|]. cbn [map mbind list_bind]. rewrite map_app, IH. by destruct i as [s|s|z|[v|]].
Qed.

(** A call that passes its checks does what its operation should, when its reading of the
    returned value is that of the operation. *)
Lemma invoke_performs {A} (op : ldt_op) w t key ldt argc items (f : A -> slot) early finish :
  (forall v, stale v = Some v) -> items <> [] -> blen items <= argc < 2 ^ 31 ->
  map item_val items = str_arg (ldt_name ldt) :: op_args op ldt -> items ≫= item_reserve = op_given op ≫= reserve_ev ->
  (forall v, f (early v) = op_failed op v) ->
  (forall v, match (finish v).1 with inl msg => inl msg | inr a => inr (f a) end = op_result op v
    /\ (finish v).2 = if hands_over op then [] else destroy_ev v) ->
  in_slot f (on invoke w t key argc items (op_package op) (op_function op) (op_initial op) early finish) = perform op w t key ldt.
Proof.
  intros Hs Hne Hargc Hv Hg Hf Hfin. rewrite invoke_ok, items_read, items_destroyed, Hv, Hg by done. cbn [lift ubind].
  unfold perform. destruct (aerospike_key_apply _ _ _ _ _ _ _ _ _ _ _ _) as [[[[[[st err] k] val] w'] tr]| |]; [|done..].
  cbn [ubind in_slot]. unfold conclude. destruct (ldt_parse_error err) as [err'|]; [|done]. cbn [lift ubind].
  unfold op_outcome, op_refs. destruct (negb (err_code err' =? AEROSPIKE_OK)) eqn:E.
  { cbn. by rewrite Hf, !app_nil_r. }
  destruct (Hfin (default None val)) as [H1 H2]. destruct (finish _) as [r freed]. cbn [fst snd] in *. subst freed.
  destruct (Z.eqb_spec (err_code err') AEROSPIKE_OK) as [Ec|]; [|done].
  destruct r as [msg|a]; rewrite <- H1; cbn [in_slot ubind orb negb ans_status ans_err ans_key ans_out ans_w ans_trace ans_refs];
    rewrite ?Hf, ?Ec, <- ?app_assoc; done.
Qed.

(** The readings of the returned value. *)
Ltac reads :=
  intros [v|]; (split; [|reflexivity]); cbn [fst integer_back capacity_back value_back ignored zero_back zero_or integer_of op_result op_slot];
  try reflexivity;
  repeat match goal with
  | |- context [match ?v with VNil => _ | _ => _ end] => destruct v
  | |- context [?z =? ?n] => destruct (Z.eqb_spec z n); cbn [negb]
  end; subst; try reflexivity; try done; try (exfalso; lia).

(** Case analysis on parameters that were checked. *)
Ltac given :=
  repeat match goal with
  | Hr : _ && _ = true |- _ => apply andb_true_iff in Hr as [??]
  | Hr : is_given None = true |- _ => discriminate Hr
  | Hr : filter_ready (Some _) _ = true |- _ => clear Hr
  | Hr : is_given ?p = true |- _ => destruct p; [clear Hr|discriminate Hr]
  | Hr : match ?p with Some _ => _ | None => _ end = true |- _ => destruct p; [clear Hr|discriminate Hr]
  | Hr : negb (_ =? 0) = true |- _ => rewrite Hr; clear Hr
  | Hr : filter_ready ?f ?a = true |- _ => destruct f, a; [clear Hr..|discriminate Hr|clear Hr]
  end.

Ltac rewrite_module := try match goal with Hm : has_module ?l = _ |- _ => rewrite Hm end.
Ltac performs ldt :=
  match goal with |- _ = perform ?op ?w ?t ?key _ => apply (invoke_performs op w t key ldt) end;
  [done|done|cbn; lia|cbn; rewrite_module; reflexivity|reflexivity|reflexivity|reads].

(** The call of an operation whose parameters are accepted performs it. *)
Lemma call_performs op w t e key ldt :
  (forall v, stale v = Some v) -> t_as t = true -> t_key t = Some key -> t_ldt t = Some ldt ->
  ldt_type ldt = op_asks op -> op_ready op = true -> call op w t (Some e) = perform op w t key ldt.
Proof.
  intros Hs Has Hk Hl Hty Hr. unfold op_ready in Hr. apply andb_true_iff in Hr as [Hslot Hr].
  destruct op; try destruct type; cbn [op_slot slot_given op_asks op_type] in *; cbn [call]; autounfold with ldt;
    unfold ldt_checked; rewrite Has, Hk, Hl; given; cbn [is_given negb andb orb]; rewrite decide_True by done.
  all: try (destruct (has_module ldt) eqn:Hm); performs ldt.
Qed.

(** What a call wants of its parameters. *)
Definition accepted (op : ldt_op) (t : target) (err : option as_error) : option (as_key * as_ldt) :=
  match err, t_as t, t_key t, t_ldt t with
  | Some _, true, Some key, Some ldt =>
      if op_ready op && bool_decide (ldt_type ldt = op_asks op) then Some (key, ldt) else None
  | _, _, _, _ => None
  end.

(** The error of a call that was refused: untouched for the calls that do not get to it. *)
Definition refusal (op : ldt_op) (err err' : option as_error) : Prop :=
  match err' with
  | None => err = None
  | Some e' => err_code e' = AEROSPIKE_ERR_PARAM \/ (exists n f a e, op = StackFilter n f a e) /\ err = err'
  end.

Lemma refuse_slot {A} (f : A -> slot) (w : W) t o msg op err :
  exists err', in_slot f (refuse w t o msg) = URet (mk_ans AEROSPIKE_ERR_PARAM err' (t_key t) (f o) w [] []) /\ refusal op err err'.
Proof. eexists. split; [reflexivity|]. by left. Qed.

Lemma checked_slot {A} (f : A -> slot) (w : W) t o g nulls ty other (k : as_key -> as_ldt -> ures (ldt_answer W A)) op e :
  op_asks op = ty -> (op_ready op = false -> g = false) -> accepted op t (Some e) = None ->
  exists err', in_slot f (ldt_checked w t o g nulls ty other k) = URet (mk_ans AEROSPIKE_ERR_PARAM err' (t_key t) (f o) w [] [])
    /\ refusal op (Some e) err'.
Proof.
  intros <- Hg. unfold accepted, ldt_checked.
  destruct (t_as t); [|intros; apply refuse_slot]. destruct (t_key t) as [key|] eqn:Hk; [|intros; rewrite <- Hk; apply refuse_slot].
  destruct (t_ldt t) as [ldt|]; [|intros; rewrite <- Hk; apply refuse_slot]. destruct (op_ready op).
  - case_bool_decide; [done|]. intros _. rewrite decide_False by done. rewrite <- Hk. destruct (negb g); apply refuse_slot.
  - intros _. rewrite Hg by done. rewrite <- Hk. apply refuse_slot.
Qed.

Ltac ungiven :=
  repeat match goal with
  | p : option _ |- _ => destruct p
  | |- context [?z =? 0] => destruct (z =? 0)
  end; done.

Lemma call_refuses op w t err :
  accepted op t err = None ->
  exists err', call op w t err = URet (mk_ans AEROSPIKE_ERR_PARAM err' (t_key t) (op_slot op) w [] []) /\ refusal op err err'.
Proof.
  intros Hn. destruct err as [e|].
  - destruct op; try destruct type; try destruct filter as [f|], args as [a|]; cbn [call op_slot];
      autounfold with ldt; cbn [is_given negb orb].
    all: lazymatch goal with
    | |- context [ldt_checked] => apply checked_slot; [reflexivity| |exact Hn]; clear; unfold op_ready; cbn [op_slot]; ungiven
    | |- context [refuse] => apply refuse_slot
    | _ => eexists; split; [reflexivity|]; right; split; [by do 4 eexists|reflexivity]
    end.
  - exists None. split; [|reflexivity].
    destruct op; try destruct type; try reflexivity. cbn [call]. autounfold with ldt. by destruct (_ || _).
Qed.

(** For every call. *)
Lemma ldt_performs op w t err :
  (forall v, stale v = Some v) ->
  match accepted op t err with
  | Some (key, ldt) => call op w t err = perform op w t key ldt
  | None => exists err', call op w t err = URet (mk_ans AEROSPIKE_ERR_PARAM err' (t_key t) (op_slot op) w [] [])
              /\ refusal op err err'
  end.
Proof.
  intros Hs. destruct (accepted op t err) as [[key ldt]|] eqn:Ha; [|by apply call_refuses]. unfold accepted in Ha.
  destruct err as [e|]; [|done]. destruct (t_as t) eqn:H1; [|done]. destruct (t_key t) eqn:H2; [|done].
  destruct (t_ldt t) eqn:H3; [|done]. destruct (op_ready op) eqn:H4; [|done]. case_bool_decide; [|done].
  injection Ha as -> ->. by apply call_performs.
Qed.

(** *** Strings whose block has ended *)

(** The operations that append a string of an inner block. *)
Definition inner (op : ldt_op) (ldt : as_ldt) : bool :=
  match op with
  | ListFilter f _ _ | MapFilter f _ _ | SetFilter f _ _ | ListRange _ _ f _ _ => is_given f
  | StackPush _ | StackPushAll _ => has_module ldt
  | StackFilter _ _ _ _ => true
  | _ => false
  end.

Definition is_inner (i : item) : bool := match i with Inner _ => true | _ => false end.

Lemma read_ended items :
  (forall v, stale v = None) -> existsb is_inner items = true -> mapM (arg_read stale) (map item_arg items) = None.
Proof.
  intros Hs. induction items as [|i items IH]; [done|]. cbn [existsb map mapM]. destruct i as [x|x|z|v]; cbn [is_inner orb].
  2: intros _; cbn; by rewrite Hs.
  all: intros Hin; rewrite IH by done; by destruct (arg_read stale _).
Qed.

Lemma invoke_ended {A} w t key argc items package operation initial (early : option as_val -> A) finish f :
  (forall v, stale v = None) -> existsb is_inner items = true -> blen items <= argc < 2 ^ 31 ->
  in_slot f (on invoke w t key argc items package operation initial early finish) = UB.
Proof. intros Hs Hin Hargc. rewrite invoke_ok; [|by intros ->|done]. by rewrite read_ended. Qed.

(** Filters, ranges with a filter and pushes with a module keep the name of the filter or
    module in a string of a block that has ended when the list of arguments is read: the
    call is undefined wherever reading such a string is. *)
Theorem ended_strings op w t e key ldt :
  accepted op t (Some e) = Some (key, ldt) -> inner op ldt = true -> (forall v, stale v = None) ->
  call op w t (Some e) = UB.
Proof.
  unfold accepted. intros Ha Hin Hs. destruct (t_as t) eqn:Has; [|done]. destruct (t_key t) eqn:Hk; [|done].
  destruct (t_ldt t) eqn:Hl; [|done]. destruct (op_ready op) eqn:Hr; [|done]. case_bool_decide as Hty; [|done].
  injection Ha as -> ->. unfold op_ready in Hr. apply andb_true_iff in Hr as [Hslot Hr].
  destruct op; try discriminate Hin; cbn [op_slot slot_given op_asks op_type inner] in *;
    try (destruct filter; [clear Hin|try discriminate Hin]); cbn [call]; autounfold with ldt;
    unfold ldt_checked; rewrite Has, Hk, Hl; given; cbn [is_given negb andb orb]; rewrite decide_True by done; rewrite ?Hin.
  all: apply invoke_ended; [done|reflexivity|cbn; lia].
Qed.
End Contract.

(** ** Codes in the texts of the server *)

(** A text of the server: a positive code of four digits, a colon and the rest. *)
Definition coded (s d rest : list Z) : Prop :=
  s = d ++ 58 :: rest /\ length d = 4%nat /\ Forall (fun c => is_digit c = true) d /\ no_nul rest /\ 0 < atoi_digits d 0.

(** A text without one. *)
Definition uncoded (s : list Z) : Prop := no_nul s /\ s !! 4%nat <> Some 58.

Lemma c_str_plain s : no_nul s -> c_str s = s.
Proof. induction 1 as [|c s Hc Hs IH]; [done|]. cbn [c_str]. rewrite (proj2 (Z.eqb_neq _ _) Hc). by rewrite IH. Qed.

(** The array holds the text, and NULs behind it. *)
Lemma message_array_eq s :
  no_nul s -> blen s < AS_ERROR_MESSAGE_MAX_SIZE ->
  message_array s = s ++ replicate (1024 - length s) 0 /\ length (message_array s) = 1024%nat /\ c_str (message_array s) = s.
Proof.
  unfold AS_ERROR_MESSAGE_MAX_SIZE. intros Hs Hl.
  assert (message_array s = s ++ replicate (1024 - length s) 0) as E.
  { unfold message_array, AS_ERROR_MESSAGE_MAX_SIZE. rewrite c_str_plain by done. by rewrite take_ge by lia. }
  rewrite E. split; [done|]. split; [rewrite length_app, length_replicate; lia|].
  replace (1024 - length s)%nat with (S (1023 - length s)) by lia. cbn [replicate]. by apply c_str_app.
Qed.

Lemma coded_number s d rest : coded s d rest -> no_nul s /\ strtol s = atoi_digits d 0 /\ i32 (atoi_digits d 0) = atoi_digits d 0.
Proof.
  intros (-> & Hl & Hd & Hn & Hp). destruct d as [|c1 [|c2 [|c3 [|c4 [|]]]]]; try done. clear Hl.
  repeat (apply Forall_cons in Hd as [?%andb_prop Hd]). destruct_and!. reflect_Z.
  split; [repeat (constructor; [lia|]); exact Hn|].
  assert (forall c, 48 <= c -> c <= 57 -> is_digit c = true) as Hdig.
  { intros c ??. unfold is_digit. by rewrite (proj2 (Z.leb_le _ _)), (proj2 (Z.leb_le _ _)). }
  unfold strtol. cbn [app skip_spaces].
  assert (is_space c1 = false) as ->.
  { unfold is_space. destruct (Z.eqb_spec c1 32); [lia|]. destruct (Z.leb_spec c1 13); [lia|]. by rewrite andb_false_r. }
  destruct (Z.eqb_spec c1 45); [lia|]. destruct (Z.eqb_spec c1 43); [lia|].
  cbn [atoi_digits] in *. rewrite !Hdig in * by done. change (is_digit 58) with false. cbv iota.
  rewrite i32_id by lia. split; lia.
Qed.

(** A code in the text becomes the code of the error, and the text begins with the colon. *)
Lemma parse_coded code s d rest :
  coded s d rest -> blen s <= 1019 ->
  ldt_parse_error (mk_error code (MText s)) = Some (mk_error (atoi_digits d 0) (MText (58 :: rest))).
Proof.
  intros Hc Hl. destruct (coded_number s d rest Hc) as (Hn & Hnum & Hi). destruct Hc as (Hs & Hd & Hdig & Hrest & Hpos).
  destruct (message_array_eq s Hn) as (Ha & Hal & Hac); [unfold AS_ERROR_MESSAGE_MAX_SIZE; lia|].
  unfold ldt_parse_error, parse_error_array. cbn [err_message err_code]. unfold strlen. rewrite Hac, Hnum, Hi.
  assert (mread (message_array s) 0 = s !! 0%nat /\ mread (message_array s) 4 = Some 58) as [-> ->].
  { rewrite Ha, Hs. destruct d as [|c1 [|c2 [|c3 [|c4 [|]]]]]; done. }
  assert (exists c, s !! 0%nat = Some c /\ c <> 0) as (c & -> & Hc0).
  { rewrite Hs in *. destruct d as [|c d]; [done|]. exists c. by apply Forall_cons in Hn as [? _]. }
  cbn [mbind option_bind]. rewrite (proj2 (Z.eqb_neq _ _) Hc0). change (58 =? 58) with true. cbn [negb andb].
  rewrite (proj2 (Z.ltb_lt _ _) Hpos).
  set (k := (1019 - length s)%nat).
  assert (message_array s = d ++ (58 :: rest ++ replicate 5 0) ++ replicate k 0) as E.
  { rewrite Ha, Hs, <- app_assoc. cbn [app]. do 2 f_equal. rewrite <- app_assoc. f_equal. rewrite <- replicate_add. f_equal.
    unfold k. rewrite <- Hs. lia. }
  assert (blen (58 :: rest ++ replicate 5 0) = blen s + 1) as Hm.
  { rewrite Hs. cbn [length]. rewrite !length_app, length_replicate. cbn [length]. lia. }
  assert (mslice (message_array s) 4 (blen s + 1) = Some (58 :: rest ++ replicate 5 0)) as ->.
  { rewrite E. apply mslice_app; lia. }
  cbn [mbind option_bind]. unfold mwrite. rewrite decide_True by lia. cbn [mbind option_bind]. change (take (Z.to_nat 0) (message_array s)) with (@nil Z).
  do 3 f_equal. cbn [app]. rewrite <- app_assoc. cbn [replicate app c_str Z.eqb]. by rewrite c_str_app.
Qed.

(** Any other text is left alone, but for its end when it is too long. *)
Lemma parse_uncoded code s :
  uncoded s -> blen s < AS_ERROR_MESSAGE_MAX_SIZE -> ldt_parse_error (mk_error code (MText s)) = Some (mk_error code (MText s)).
Proof.
  intros [Hn H4] Hl. destruct (message_array_eq s Hn Hl) as (Ha & Hal & Hac). unfold AS_ERROR_MESSAGE_MAX_SIZE in Hl.
  unfold ldt_parse_error, parse_error_array. cbn [err_message err_code].
  assert (forall i, 0 <= i < 1024 -> exists c, mread (message_array s) i = Some c) as Hr.
  { intros i Hi. unfold mread. rewrite decide_True by lia. apply lookup_lt_is_Some_2. lia. }
  destruct (Hr 0) as [c ->]; [lia|]. destruct (Hr 4) as [x Hx]; [lia|]. rewrite Hx. cbn [mbind option_bind].
  assert (x <> 58) as Hne.
  { intros ->. unfold mread in Hx. rewrite decide_True in Hx by lia. rewrite Ha in Hx. change (Z.to_nat 4) with 4%nat in Hx.
    apply lookup_app_Some in Hx as [Hx|[_ Hx]]; [done|]. apply lookup_replicate in Hx as [? _]. done. }
  rewrite (proj2 (Z.eqb_neq _ _) Hne), andb_false_r. cbn [mbind option_bind]. by rewrite Hac.
Qed.

(** ** A call and its answer *)

Section Answers.
Context `{Platform} `{Services W}.
Context (hpux : bool) (hpux_big : hpux = true -> host_endian = BigEndian).
Context (ripemd160 : list Z -> list Z) (uninit : Z -> list Z) (uninit_size : block_size uninit) (fuel : nat).
Context (config : as_policy_apply) (stale : as_val -> option as_val) (stale_kept : forall v, stale v = Some v).

Abbreviation ldt_call := (call hpux ripemd160 uninit fuel config stale).

Definition op_list (op : ldt_op) (ldt : as_ldt) : as_val := VList (str_arg (ldt_name ldt) :: op_args op ldt).

Definition apply_body (policy : as_policy_apply) (key : as_key) (op : ldt_op) (ldt : as_ldt) : list Z :=
  wire_key (apply_key policy) key ++ wire_field AS_FIELD_UDF_PACKAGE_NAME (c_str (op_package op))
    ++ wire_field AS_FIELD_UDF_FUNCTION (c_str (op_function op)) ++ wire_field AS_FIELD_UDF_ARGLIST (packed (op_list op ldt)).

(** The message that asks a server for the operation. *)
Definition apply_request (policy : as_policy_apply) (key : as_key) (op : ldt_op) (ldt : as_ldt) : list Z :=
  wire_message
    (wire_header 0 AS_MSG_INFO2_WRITE (info3_bits EXISTS_IGNORE (apply_commit policy)) 0 0 (apply_timeout policy)
       (n_key_fields (apply_key policy) + 3) 0) (apply_body policy key op ldt).

(** The call reached a server, whose answer names a result. *)
Record reached (op : ldt_op) (w : W) (t : target) (key key' : as_key) (ldt : as_ldt) (node fd : Z) (bin : as_binop)
    (v : as_val) (w' : W) : Prop := {
  r_digest : as_key_set_digest ripemd160 key = Some (AEROSPIKE_OK, key');
  r_key : key_ready (apply_key (default config (t_policy t))) key';
  r_args : sendable (op_list op ldt);
  r_size : blen (apply_body (default config (t_policy t)) key' op ldt) < 2 ^ 47;
  r_name : name_of bin = SUCCESS \/ name_of bin = FAILURE;
  r_value : bin_valuep (binop_bin bin) = Some v;
  r_storable : storable v;
  r_answer : exists deadline w1 w2 version type m fields before after rest,
    served w (mk_cn None (key_ns key') (digest_value key') REPLICA_MASTER true) (apply_timeout (default config (t_policy t)))
      (apply_request (default config (t_policy t)) key' op ldt) node fd deadline w1
    /\ answered (H0 := fd_reader fd deadline) w1 w2 version type m (wire_fields fields ++ wire_bins (before ++ bin :: after)) rest
    /\ finished w2 node fd w'
    /\ result_code m = AEROSPIKE_OK /\ n_fields m = blen fields /\ n_ops m = blen (before ++ bin :: after)
    /\ Forall named before /\ Forall (fun op => name_of op <> SUCCESS /\ name_of op <> FAILURE) before
    /\ blen (wire_fields fields ++ wire_bins (before ++ bin :: after)) <= INT_MAX
    /\ (length (wire_fields fields ++ wire_bins (before ++ bin :: after)) <= fuel)%nat
}.

(** Of the call that applies the function. *)
Lemma apply_reached op w t key key' ldt node fd bin v w' old :
  reached op w t key key' ldt node fd bin v w' ->
  exists r, aerospike_key_apply hpux ripemd160 uninit fuel config w (t_policy t) key (op_package op) (op_function op)
      (op_list op ldt) (Some old)
    = URet (AEROSPIKE_OK, r.1, key', r.2, w', one_request node fd (apply_request (default config (t_policy t)) key' op ldt))
    /\ udf_outcome v (name_of bin) no_error old r.
Proof.
  intros [Hd Hk Ha Hz Hname Hv Hst
    (deadline & w1 & w2 & version & type & m & fields & before & after & rest & Hs & Han & Hfin & Hrc & Hnf & Hno & Hb & Ho & Hmax & Hf)].
  destruct (udf_answer (H0 := fd_reader fd deadline) fuel w1 w2 version type m fields before bin after v rest no_error old)
    as (r & Hp & _ & Hr); [done..|].
  exists r. split; [|done]. unfold aerospike_key_apply. rewrite (with_digest_ok _ _ _ _ _ _ Hd).
  rewrite apply_message by done. cbn [lift ubind]. fold (apply_body (default config (t_policy t)) key' op ldt).
  fold (apply_request (default config (t_policy t)) key' op ldt).
  assert (parse_success_failure_fn fuel w1 fd deadline no_error (Some old) = URet (AEROSPIKE_OK, r.1, r.2, w2)) as Hpf by exact Hp.
  by rewrite (run_served _ _ _ _ _ _ _ _ _ _ _ _ _ _ _ _ _ w' Hs Hpf).
Qed.

(** A failure with a text that fits. *)
Definition legible (name : list Z) (v : as_val) : Prop :=
  name = FAILURE -> exists s, v = VString s
    /\ ((exists d rest, coded (c_str s) d rest /\ strlen s <= 1019) \/ uncoded (c_str s) /\ strlen s < AS_ERROR_MESSAGE_MAX_SIZE).

(** What the caller gets for the bin of an answer: the status, the error and the result. *)
Inductive gets (op : ldt_op) (name : list Z) (v : as_val) : Z -> as_error -> slot -> Prop :=
  | Gets_result u s : name = SUCCESS -> result_back v u -> op_result op (Some u) = inr s ->
      gets op name v AEROSPIKE_OK no_error s
  | Gets_other u msg : name = SUCCESS -> result_back v u -> op_result op (Some u) = inl msg ->
      gets op name v AEROSPIKE_ERR_LDT_INTERNAL (mk_error AEROSPIKE_ERR_LDT_INTERNAL (MText msg)) (op_failed op (Some u))
  | Gets_code s d rest : name = FAILURE -> v = VString s -> coded (c_str s) d rest ->
      gets op name v (atoi_digits d 0) (mk_error (atoi_digits d 0) (MText (58 :: rest))) (op_slot op)
  | Gets_text s : name = FAILURE -> v = VString s -> uncoded (c_str s) ->
      gets op name v AEROSPIKE_ERR_CLIENT (mk_error AEROSPIKE_ERR_CLIENT (MText (c_str s))) (op_slot op).

Lemma failed_initial op : op_ready op = true -> op_failed op (op_initial op) = op_slot op.
Proof. unfold op_ready. destruct op; try done. cbn. by destruct result. Qed.

Lemma accepted_ready op t err key ldt : accepted op t err = Some (key, ldt) -> op_ready op = true.
Proof.
  unfold accepted. destruct err, (t_as t), (t_key t), (t_ldt t); try done. by destruct (op_ready op).
Qed.

(** What the caller gets. *)
Lemma answered_gets op w t e key key' ldt node fd bin v w' :
  accepted op t (Some e) = Some (key, ldt) -> reached op w t key key' ldt node fd bin v w' -> legible (name_of bin) v ->
  exists status err s refs, ldt_call op w t (Some e)
      = URet (mk_ans status (Some err) (Some key') s w'
                (one_request node fd (apply_request (default config (t_policy t)) key' op ldt)) refs)
    /\ gets op (name_of bin) v status err s.
Proof.
  intros Hacc Hr Hleg. pose proof (ldt_performs hpux ripemd160 uninit fuel config stale op w t (Some e) stale_kept) as Hc.
  rewrite Hacc in Hc. rewrite Hc. unfold perform. fold (op_list op ldt).
  destruct (apply_reached _ _ _ _ _ _ _ _ _ _ _ (op_initial op) Hr) as ([err o] & -> & Ho). cbn [fst snd ubind].
  pose proof (failed_initial op (accepted_ready _ _ _ _ _ Hacc)) as Hi. unfold op_outcome.
  destruct Ho as [(Hn & u & Hu & [= -> ->])|(Hn & msg & [= -> ->] & Hs)].
  - cbn [ldt_parse_error err_message no_error lift ubind default err_code negb Z.eqb AEROSPIKE_OK id].
    destruct (op_result op (Some u)) as [msg|s] eqn:E; do 4 eexists; (split; [reflexivity|]); by econstructor.
  - destruct (Hleg Hn) as (s & -> & Hcase). rewrite (Hs s eq_refl).
    destruct Hcase as [(d & rest & Hcd & Hl)|[Hcd Hl]].
    + rewrite (parse_coded _ _ d rest Hcd Hl). cbn [lift ubind default err_code id]. pose proof Hcd as (_ & _ & _ & _ & Hpos).
      destruct (Z.eqb_spec (atoi_digits d 0) AEROSPIKE_OK) as [E|_]; [unfold AEROSPIKE_OK in E; lia|]. cbn [negb].
      rewrite Hi. do 4 eexists. split; [reflexivity|]. by eapply Gets_code.
    + rewrite (parse_uncoded _ _ Hcd Hl). cbn [lift ubind default err_code id negb Z.eqb AEROSPIKE_OK AEROSPIKE_ERR_CLIENT].
      rewrite Hi. do 4 eexists. split; [reflexivity|]. by eapply Gets_text.
Qed.


(** A server that gives back the value it was sent makes [aerospike_lstack_same] fail,
    unless that value is zero. *)
Theorem stack_same_fails in_val o w t e key key' ldt node fd bin w' :
  0 < in_val -> accepted (StackSame in_val o) t (Some e) = Some (key, ldt) -> name_of bin = SUCCESS ->
  reached (StackSame in_val o) w t key key' ldt node fd bin (VInteger in_val) w' ->
  exists refs, ldt_call (StackSame in_val o) w t (Some e)
    = URet (mk_ans AEROSPIKE_ERR_LDT_INTERNAL
              (Some (mk_error AEROSPIKE_ERR_LDT_INTERNAL (MText (text "same() Function Failed")))) (Some key') (IntSlot o) w'
              (one_request node fd (apply_request (default config (t_policy t)) key' (StackSame in_val o) ldt)) refs).
Proof.
  intros Hv Hacc Hn Hr. destruct (answered_gets _ _ _ _ _ _ _ _ _ _ _ _ Hacc Hr) as (status & err & s & refs & Hc & Hg).
  { rewrite Hn. done. }
  exists refs. rewrite Hc. clear Hc. destruct Hg as [u s _ Hu E|u msg _ Hu E|? ? ? Hf|? Hf]; [..|congruence|congruence].
  all: cbn [result_back reads_back] in Hu; subst u; cbn [op_result integer_of] in E.
  all: destruct (Z.eqb_spec in_val 0); [lia|]; destruct (Z.eqb_spec in_val (-1)); [lia|].
  - done.
  - by injection E as <-.
Qed.
End Answers.

(** ** Calls that do not do what they are for *)

Section Broken.
Context `{Platform} `{Services W}.
Context (hpux : bool) (ripemd160 : list Z -> list Z) (uninit : Z -> list Z) (fuel : nat).
Context (config : as_policy_apply) (stale : as_val -> option as_val) (stale_kept : forall v, stale v = Some v).
Abbreviation ldt_call := (call hpux ripemd160 uninit fuel config stale).

(** C40: The two calls on the capacity of a large set look for a large list: they refuse every
    large set, and for the bin of a large list they apply the function of sets. *)
Theorem lset_capacity op w t e key ldt c p :
  op = OpSetCapacity AS_LDT_LSET c \/ op = OpGetCapacity AS_LDT_LSET p ->
  t_as t = true -> t_key t = Some key -> t_ldt t = Some ldt -> op_ready op = true ->
  (ldt_type ldt = AS_LDT_LSET ->
     exists err', ldt_call op w t (Some e) = URet (mk_ans AEROSPIKE_ERR_PARAM err' (Some key) (op_slot op) w [] []))
  /\ (ldt_type ldt = AS_LDT_LLIST ->
     ldt_call op w t (Some e) = perform hpux ripemd160 uninit fuel config op w t key ldt /\ op_package op = text "lset").
Proof.
  intros Hop Has Hk Hl Hr. assert (op_asks op = AS_LDT_LLIST) as Ho by (by destruct Hop as [-> | ->]).
  assert (op_package op = text "lset") as Hp by (by destruct Hop as [-> | ->]).
  pose proof (ldt_performs hpux ripemd160 uninit fuel config stale op w t (Some e) stale_kept) as Hc.
  unfold accepted in Hc. rewrite Has, Hk, Hl, Hr, Ho in Hc. cbn [andb] in Hc. split; intros Hty; rewrite Hty in Hc.
  - rewrite bool_decide_false in Hc by done. destruct Hc as (err' & -> & _). by exists err'.
  - rewrite bool_decide_true in Hc by done. done.
Qed.
End Broken.

(** ** Descriptions *)

Lemma strcpy_reads_back array s :
  blen (c_str s) < blen array -> exists a, strcpy array s = Some a /\ c_str a = c_str s /\ length a = length array.
Proof.
  intros Hl. unfold strcpy, mwrite. rewrite length_app. cbn [length]. rewrite decide_True by lia. eexists. split; [reflexivity|].
  change (take (Z.to_nat 0) array) with (@nil Z). cbn [app]. rewrite <- app_assoc. cbn [app]. split.
  - apply c_str_app. clear. induction s as [|c s IH]; [constructor|]. cbn. destruct (Z.eqb_spec c 0); by constructor.
  - rewrite !length_app. cbn [length]. rewrite length_drop. lia.
Qed.

(** Initialising a description never writes outside its two arrays: it is refused, or both
    names are read back, the module as the empty name when there is none. *)
Theorem ldt_init_reads_back l name type module_ :
  blen (ldt_name l) = 15 -> blen (ldt_module l) = 64 ->
  match as_ldt_init (Some l) name type module_ with
  | Some (Some l') =>
      c_str (ldt_name l') = c_str (default [] name) /\ 0 < strlen (ldt_name l') /\ c_str (ldt_module l') = c_str (default [] module_)
      /\ ldt_type l' = type /\ ldt_free l' = false /\ blen (ldt_name l') = 15 /\ blen (ldt_module l') = 64
  | Some None =>
      strlen (default [] name) = 0 \/ AS_BIN_NAME_MAX_LEN < strlen (default [] name)
      \/ AS_UDF_MODULE_MAX_LEN < strlen (default [] module_)
  | None => False
  end.
Proof.
  intros Hn Hm. unfold as_ldt_init, AS_BIN_NAME_MAX_LEN, AS_UDF_MODULE_MAX_LEN.
  destruct name as [n|]; [|by left]. cbn [default id].
  destruct (Z.eqb_spec (strlen n) 0); [by left|]. destruct (Z.ltb_spec 14 (strlen n)); [by right; left|]. cbn [orb].
  destruct (strcpy_reads_back (ldt_name l) n) as (a & Ha & Hac & Hal); [unfold strlen in *; lia|].
  assert (0 < strlen n) by (unfold strlen in *; lia).
  assert (exists a', mwrite (ldt_module l) 0 [0] = Some a' /\ c_str a' = [] /\ length a' = length (ldt_module l)) as (z & Hz & Hzc & Hzl).
  { exact (strcpy_reads_back (ldt_module l) [] ltac:(cbn; lia)). }
  destruct module_ as [m|]; cbn [default id].
  2:{ rewrite Ha. cbn [mbind option_bind]. rewrite Hz. cbn. unfold strlen in *. rewrite Hac. split_and!; done || lia. }
  destruct (Z.ltb_spec 63 (strlen m)); [by right; right|]. rewrite Ha. cbn [mbind option_bind].
  destruct (Z.eqb_spec (strlen m) 0) as [E|].
  - rewrite Hz. cbn. unfold strlen in *. rewrite Hac, Hzc. split_and!; try done; try lia. symmetry. apply length_zero_iff_nil. lia.
  - destruct (strcpy_reads_back (ldt_module l) m) as (b & Hb & Hbc & Hbl); [unfold strlen in *; lia|].
    rewrite Hb. cbn. unfold strlen in *. rewrite Hac. split_and!; done || lia.
Qed.

(** ** Examples *)

Definition sample_ldt (type : as_ldt_type) : as_ldt := mk_ldt false ([98; 105; 110] ++ replicate 12 0) type (replicate 64 0).
Definition sample_target (type : as_ldt_type) : target := mk_target true None (Some sample_key) (Some (sample_ldt type)).
Definition sample_apply : as_policy_apply := Build_as_policy_apply 1000 KEY_DIGEST COMMIT_ALL.
Definition sample_bin (name : list Z) (v : as_val) : as_binop := mk_binop 2 (mk_bin name (Some v)).

(** A socket with an answer, and how the transfers go. *)
Definition answering (bin : as_binop) (written : list Z) (n : nat) : sock :=
  mk_sock 3 true true true (answer 2 3 (sample_msg 0 0 1) (wire_bins [bin])) written
    (replicate n {| now := 10; select_rv := 1; fd_isset := true; io := Moved 5000 |}).

Definition sample_request (op : ldt_op) : list Z := apply_request sample_apply sample_key op (sample_ldt (op_type op)).

(** Between the header and the body of the answer, and after the call. *)
Definition halfway (bin : as_binop) (op : ldt_op) : sock :=
  mk_sock 3 true true true (wire_bins [bin]) (sample_request op)
    [{| now := 10; select_rv := 1; fd_isset := true; io := Moved 5000 |}].
Definition called (op : ldt_op) : sock := mk_sock 3 true true true [] (sample_request op) [].

Abbreviation sample_call op bin := (@call x86_64 sock one_socket false (fun _ => replicate 20 0) sample_block 100 sample_apply Some
  op (answering bin [] 3) (sample_target (op_type op)) (Some no_error)).

Ltac reaches op bin :=
  split; [reflexivity|apply sample_key_ready|split; cbv; intuition discriminate|reflexivity
         |first [left; reflexivity|right; reflexivity]|reflexivity|cbv; by split|];
  exists 1005, (answering bin (sample_request op) 2), (called op), 2, 3, (sample_msg 0 0 1), [], [], [], [];
  (split; [eexists _, _, _; do 3 (split; [reflexivity|]); vm_compute; reflexivity|]);
  (split;
    [ split; [split_and!; unfold is_u32; cbn; lia|]; split; [reflexivity|];
      split; [split; vm_compute; reflexivity|]; split; [vm_compute; reflexivity|];
      exists (halfway bin op); split; (eexists; vm_compute; reflexivity)
    |]);
  (split; [eexists; split; reflexivity|]); do 3 (split; [reflexivity|]); do 2 (split; [constructor|]);
  (split; [vm_compute; discriminate|vm_compute; lia]).

Definition add7 : ldt_op := ListAdd (Some (VInteger 7)).
Definition one_bin : as_binop := sample_bin SUCCESS (VInteger 1).


(** The text "1422:no". *)
Definition coded_text : list Z := [49; 52; 50; 50; 58; 110; 111].
Definition code_bin : as_binop := sample_bin FAILURE (VString coded_text).


Definition filter5 : ldt_op := ListFilter (Some [102]) None (Some None).

Lemma ended_strings_witness :
  @call x86_64 sock one_socket false (fun _ => replicate 20 0) sample_block 100 sample_apply (fun _ => None) filter5
    (answering one_bin [] 3) (sample_target AS_LDT_LLIST) (Some no_error) = UB.
Proof.
  apply (@ended_strings x86_64 sock one_socket false (fun _ => replicate 20 0) sample_block 100 sample_apply (fun _ => None) filter5
           (answering one_bin [] 3) (sample_target AS_LDT_LLIST) no_error sample_key (sample_ldt AS_LDT_LLIST)); reflexivity.
Defined.

Lemma lset_capacity_witness :
  exists err', sample_call (OpSetCapacity AS_LDT_LSET 100) one_bin
    = URet (mk_ans AEROSPIKE_ERR_PARAM err' (Some sample_key) NoSlot (answering one_bin [] 3) [] []).
Proof.
  apply (@lset_capacity x86_64 sock one_socket false (fun _ => replicate 20 0) sample_block 100 sample_apply Some (fun v => eq_refl)
           (OpSetCapacity AS_LDT_LSET 100) (answering one_bin [] 3) (sample_target AS_LDT_LSET) no_error sample_key
           (sample_ldt AS_LDT_LSET) 100 None); try reflexivity. by left.
Defined.

Lemma ldt_init_reads_back_witness :
  exists l, as_ldt_init (Some (sample_ldt AS_LDT_LLIST)) (Some [120]) AS_LDT_LMAP (Some [109; 111]) = Some (Some l)
    /\ c_str (ldt_name l) = [120] /\ c_str (ldt_module l) = [109; 111] /\ ldt_type l = AS_LDT_LMAP.
Proof.
  pose proof (ldt_init_reads_back (sample_ldt AS_LDT_LLIST) (Some [120]) AS_LDT_LMAP (Some [109; 111]) eq_refl eq_refl) as Hi.
  eexists. split; [reflexivity|]. destruct Hi as (H1 & _ & H2 & H3 & _). split; [exact H1|]. split; [exact H2|exact H3].
Defined.

Definition same7 : ldt_op := StackSame 7 (Some 5).
Definition seven_bin : as_binop := sample_bin SUCCESS (VInteger 7).

Lemma stack_same_fails_witness :
  exists refs, sample_call same7 seven_bin
    = URet (mk_ans AEROSPIKE_ERR_LDT_INTERNAL
              (Some (mk_error AEROSPIKE_ERR_LDT_INTERNAL (MText (text "same() Function Failed")))) (Some sample_key)
              (IntSlot (Some 5)) (called same7) (one_request 1 3 (sample_request same7)) refs).
Proof.
  apply (@stack_same_fails x86_64 sock one_socket false big_x86 (fun _ => replicate 20 0) sample_block sample_block_size 100
           sample_apply Some (fun v => eq_refl) 7 (Some 5) (answering seven_bin [] 3) (sample_target AS_LDT_LSTACK) no_error
           sample_key sample_key (sample_ldt AS_LDT_LSTACK) 1 3 seven_bin (called same7)); [reflexivity..|].
  reaches same7 seven_bin.
Defined.

(** The first command is not taken in time. *)
Definition flaky_send (w : bool * sock) (fd : Z) (command : list Z) (deadline : Z) : ures (Z * (bool * sock)) :=
  if w.1 then let* (st, s) := one_socket.(send) w.2 fd command deadline in URet (st, (true, s))
  else URet (AEROSPIKE_ERR_TIMEOUT, (true, w.2)).
Definition flaky_recv (w : bool * sock) (fd n deadline : Z) : ures (Z * list Z * (bool * sock)) :=
  let* (st, bs, s) := one_socket.(recv) w.2 fd n deadline in URet (st, bs, (w.1, s)).
#[refine] Instance flaky : Services (bool * sock) :=
  {| as_node_get w _ := URet (Some 1, w); as_node_get_connection w _ := URet (AEROSPIKE_OK, 3, w);
     as_node_put_connection w _ _ := URet w; as_node_release w _ := URet w; as_close w _ := URet w;
     cf_getms w := (5, w); usleep w _ := w;
     send := flaky_send; recv := flaky_recv; stream w fd := one_socket.(stream) w.2 fd |}.
Proof.
  intros w fd n deadline Hn. pose proof (one_socket.(recv_exact) w.2 fd n deadline Hn) as Hr.
  unfold flaky_recv. by destruct (one_socket.(recv) w.2 fd n deadline) as [[[st bs] s]| |].
Defined.

